(* ===== verification/_CoqProject ===== *)
-Q . S2P
Prelude.v
GoLib.v
GoNet.v
GoSha.v
Model.v
LinkID.v
Allocator.v
PeersAlloc.v
PeersAllocProps.v
PeersAllocCorrect.v
PortCapacity.v
Peers.v
PeersProps.v
Compiler.v
CompilerProps.v
Normalize.v
Findings.v
Semantic.v
SemanticStable.v
Schema.v
SchemaProps.v
Pipeline.v
PipelineProps.v
CompileStable.v
PipelineErrors.v
StoreTypes.v
StoreMonad.v
MemKV.v
StoreCore.v
StoreLogic.v
StoreStage.v
StageProps.v
Promotion.v
ReplaceProps.v
StoreFrame.v
StoreProps.v
TopologyHistory.v
AuditLog.v
FileAudit.v
GoText.v
Semver.v
GoJSON.v
GoBase64.v
TrustList.v
Bundle.v
BundleProps.v
AgentState.v
SelfUpdate.v
AgentRun.v
AgentLogic.v
AgentProps.v
AgentRecovery.v
UpdateProps.v
Renderer.v
RenderProps.v
ConfigSafety.v
CoreState.v
CoreProps.v
Enrollment.v
EnrollProps.v
Keystone.v
KeystoneProps.v
Export.v
ExportProps.v
Release.v
ReleaseProps.v
Deploy.v
DeployProps.v
SignProps.v
AcceptProps.v
Totp.v
RateLimit.v
Password.v
Login.v
LoginProps.v
HistoryFile.v
History.v
HistoryProps.v
HistoryRun.v
HistoryQuery.v
