(* ===== verification/Prelude.v ===== *)
(** * Yet Another Overlay Generator: verification library

    The program turns a description of an overlay network (domains, nodes, edges)
    into WireGuard and Babel configurations.  An operator edits the topology, the
    compiler validates it, allocates addresses, ports and link-local pairs,
    derives the WireGuard peers of every node and writes the allocation back
    into the edges as pins, so that later compiles keep it.  A controller stores
    topologies and releases and distributes signed bundles to agents on the
    nodes.  This library models the compiler core (data model, link identity,
    validation, overlay and per-link allocation, peer and client derivation, pin
    healing and the [CompileAt] pipeline that composes them), the controller's
    stores (records, tokens and sessions, topology history, the staged set and its
    promotion, the audit log), the login of its operators, its telemetry history, and the
    custody core of the agent: which bundles it accepts, how it applies them as root, and how it replaces
    its own binary.

    ** Files, in dependency order

    - [Prelude]: the error monad ([result], [let!]), [goerror], stable sorting by
      key, bounded scans ([first_from]), folds with errors ([foldM]), list and
      option lemmas, the hint and rewrite database [yaog].
    - [GoLib], [GoNet], [GoSha]: what the source uses of Go and its standard
      library: 32-bit arithmetic, [strconv.Itoa], UTF-8 decoding, [net.ParseIP],
      [net.ParseCIDR], [IPNet.Contains], [IP.String], SHA-256.
    - [Model]: the structs of [internal/model/topology.go], one record each;
      [nodeMap] and [domainMap] are the lookup maps every pass builds (the last
      entry of an ID wins).
    - [LinkID]: [internal/linkid] and [internal/naming].
    - [Allocator]: [internal/allocator/ip.go], with its context polls.
    - [PeersAlloc], [PeersAllocProps], [PeersAllocCorrect], [PortCapacity]: link grouping and
      reserve-then-gap-fill allocation ([internal/compiler/peers_build.go] up to
      [preallocateLinkResources], [peers_prealloc.go]), its lemmas and theorems.
    - [Peers], [PeersProps]: peer derivation, roles and client configurations
      ([peers_build.go] from [buildPeerInfo], [peers.go], [roles.go],
      [orientation.go]); [link_peers] is their specification, link by link.
    - [Compiler], [CompilerProps]: [CompileAt] after validation, with the
      write-back of pins and compiled ports.
    - [Normalize]: [HealCollidingPins] of [internal/normalize/pins.go].
    - [Findings], [Semantic], [SemanticStable], [Schema], [SchemaProps]:
      [internal/validator]: the finding codes, every rule of [ValidateSemantic] and
      [ValidateSchema], what the semantic rules read, and what a clean schema report
      guarantees.
    - [Pipeline], [PipelineProps], [CompileStable], [PipelineErrors]: the whole of
      [CompileAt]; the facts a clean report gives to the later passes, the end-to-end
      guarantees, recompilation, and the causes of failure that validation leaves.
    - [StoreTypes], [StoreMonad], [MemKV]: the records of
      [internal/controller/store.go], the storage port of [kv.go] with its laws,
      actions under faults, and the in-memory backend of [memstore.go], proved to
      satisfy the laws.
    - [StoreCore], [StoreStage]: the operations of [storecore.go] and
      [storecore_stage.go] over any backend; [StoreLogic] holds the reasoning
      principles for them.
    - [StageProps], [Promotion], [ReplaceProps], [StoreProps], [TopologyHistory]:
      their theorems; [StoreFrame] proves once which collections each operation
      leaves alone.
    - [AuditLog], [FileAudit]: [audit.go] with the audit log of [memstore.go], and
      the JSONL log of [filestore_audit.go].
    - [GoText], [GoJSON], [GoBase64]: [strings.TrimSpace], [EqualFold],
      [strconv.Atoi], JSON strings as [encoding/json] writes them, base64.
    - [Semver]: [internal/version], proved a total preorder.
    - [TrustList]: [internal/trustlist] and [bundlesig.Verify]: the signed document,
      its canonical bytes, Ed25519 and WebAuthn verification.
    - [Bundle], [BundleProps]: [internal/agent/verify.go] and
      [bundlesig.Canonicalize]: checksums, signature and keystone checks.
    - [AgentState], [SelfUpdate], [AgentRun]: [state.go], [apply_intent.go],
      [conditions.go], [conditions_selfupdate.go], [selfupdate.go],
      [selfupdate_retry.go] and [agent.go] of [internal/agent].
    - [AgentLogic]: the interface [StateInv] between an invariant of the state file
      and the agent's operations, which keep any such invariant; [AgentProps],
      [AgentRecovery], [UpdateProps]: their theorems.
    - [Renderer], [RenderProps]: the WireGuard, Babel and sysctl files of
      [internal/renderer] with the exact text of their templates, and the quoting of
      values for scripts.
    - [CoreState], [CoreProps]: the whole [storeCore]: a backend, the volatile
      telemetry overlay of [storecore_telemetry.go] and what was appended to the
      history; the metric catalog of [internal/telemetrymetric].  [AuditBackend] with
      [AuditLaws] is the interface of the audit log.
    - [Enrollment], [EnrollProps]: [enrollment.go], [rekey.go],
      [compile_manualnode.go] and the revocation handler of [internal/api].
    - [Keystone], [KeystoneProps]: [keystone_transition.go].
    - [Export], [ExportProps]: [internal/render], [internal/artifacts/export.go] and
      [internal/localcompile]: keys, rendered members, exported bundles.
    - [Release], [ReleaseProps]: [keystone.go], [trustlist_sign.go] and
      [compile_promote.go] of [internal/controller].
    - [Deploy], [DeployProps]: [compile_stage.go], [compile_subgraph.go],
      [compile_preview.go], [telemetry_policy_readiness.go], [telemetry_policy.go],
      [settings.go] and [compile.go] of [internal/controller], and the configuration
      handler of [internal/api].
    - [ConfigSafety], [SignProps], [AcceptProps]: theorems that compose the components:
      what a compiled file can contain, what the installation of a signature leaves,
      and the whole way of a release from the topology to the checks of the agent.
    - [Totp], [Password]: [totp.go], [password.go] and [operator.go] of
      [internal/controller], with SHA-1, HMAC and base32; [Argon2] is the key derivation.
    - [RateLimit]: the login limiter and the source address ([loginratelimit.go]).
    - [Login], [LoginProps]: the handlers of login, logout and second factors and the
      gates in front of every other handler ([handler_login.go], [handler_passkey.go],
      [handler_totp.go], [handler_webauthn_enrollment.go], [cookie_session.go],
      [auth_controller.go], [adapter.go] of [internal/api]).
    - [HistoryFile], [History]: [telemetry_history.go] of [internal/controller]: the JSONL
      file of a node as bytes, and the machine of heartbeats, settings, flusher and queries
      around it ([step], a step per critical section or file operation).
      [HistoryProps], [HistoryRun], [HistoryQuery]: its lemmas, its invariant with the
      theorems on runs, and the theorem on queries.

    ** How the code is rendered

    A Go function is a Rocq function of the same name where there is one; loops
    over slices are folds, maps are [gmap]s, string sets are [gset]s, a lookup
    map filled by a loop is a function with the same answer.  A [(T, error)] pair
    is [result goerror T]; error values keep the code and parameters the caller
    can see.  A panic is [None].  A struct updated in place is a state passed
    along.  Strings are byte strings.  Go [int]s are [Z]; where the source works
    on [uint32] the wrap-around is written out ([u32]).  The reservation maps of
    the allocator are three sets of pairs ([pools]).

    Scans.  [lowestFreePort] runs over exactly the ports of its loop, the transit
    scan over exactly [transitPoolPairCount] indices and the overlay scan over
    exactly the host numbers of its loop, so their bounds are those of the code.
    The link-local scan of the source is unbounded: the model tries one index
    more than there are used addresses, and [gapFillLinkLocalPair_some] proves
    that some index up to there is free, so the bound loses nothing.  The
    digit loops of number formatting take fuel from the logarithm of the number,
    with [itoa_itoa10] proving it enough.

    Stores.  An operation is an [Act]: it takes a schedule of faults, the state and
    the number of the next backend call, and it ends [Done], [Failed] or [Crashed].
    A fault makes one backend call return an error or kill the process, before or
    after the call took effect, so theorems over all schedules cover every error
    and crash point between two writes.  [spec] states an operation with a
    postcondition for each of the three ends.  [withLock] makes each operation
    one step; histories are lists of operations.  [KVLaws] is all the theorems
    assume of a backend.  A record is stored as a [value] that decodes to what was
    encoded ([JSONRecord]), or does not decode.  Times are nanoseconds in [Z],
    generations and sequence numbers wrap at 64 bits ([i64]).

    Agent.  The operations are actions over a [host]: the state file, the binary
    with its backup, and the list of root scripts that were started.  Writing the
    state file (a synced temporary file and a rename), starting the root script,
    installing the binary and removing the backup are one step each, and each can
    fail or be the last, with or without effect.  What the process meets outside is
    data: the fetched bundle, the clock, downloads and the version a binary prints.
    [Scripts] stands for the renderers of the install and deploy scripts, [Crypto] and
    [Codec] for the standard library's signature primitives, PEM,
    X.509 and JSON decoding and [probepolicy]'s parsers; the theorems assume nothing
    of them, and the witnesses instantiate them with executable functions.
    [HistoryCodec] is [encoding/json] on history records with the validators of stored
    samples; all that is assumed of it is that a record is written as one line
    ([HistoryCodecLaws]).

    ** What the theorems show

    - End to end ([PipelineProps]): when [CompileAt] succeeds, the interfaces of
      every non-client node have pairwise distinct listen ports in range and
      pairwise distinct names; every client has a configuration that dials the
      port its router listens on; [CompileAt] never panics; gap-filling never
      runs out of ports.  No side condition on the input is left: validation
      establishes them all.
    - Stability ([CompileStable], [PeersAllocCorrect]): compiling a compiled topology
      reproduces it, unless the pin rules reject it; when it is extended, old nodes keep
      their addresses and old edges their allocations, as long as the first enabled edge
      of their link stays the same; pins are kept, the order of the links does not matter.
    - Disjointness: different links share a resource, identified by its text as the
      allocator does it, only if their pins already did; healing removes exactly the
      pins that collide with those of a link of smaller key, and leaves none.
    - Peers ([PeersProps]): emission is refined to the per-link specification, and
      the two ends of a link mirror each other.
    - Overlay addresses ([Allocator]): addresses are kept or allocated inside
      their domain, distinct, and the scan finds an address whenever there is one.
    - Promotion ([Promotion], [ReplaceProps]): under any faults a promotion and a
      replacement of the staged set are all or nothing for every node; a promotion
      interrupted any number of times takes effect exactly once, can always be
      completed, and blocks every other staging operation meanwhile.
    - Records ([StoreProps], [TopologyHistory]): tokens are single use, accepted
      TOTP steps increase, tenants do not affect each other, a topology write that
      fails or crashes leaves the old or the new record.
    - Audit ([AuditLog], [FileAudit]): the log verifies after any appends and
      rotations, a change of a verified log shows in its last hash, the file log
      keeps every acknowledged entry across the faults of [survivable].
    - Trust ([TrustList], [BundleProps]): the canonical bytes identify a trust list,
      a WebAuthn assertion authorises one list, the signed list fixes the bytes of
      everything that runs; each up to a collision of SHA-256 between the two very
      contents that are compared ([collides]).  The agent reads back the checksums that
      are written.
    - Agent ([AgentProps], [AgentRecovery], [UpdateProps]): over any sequence of
      operations, bundles, configurations, errors and crashes, no root script runs
      that is unverified or older than one before it, and the version floor never
      drops; an interrupted apply is completed by running it again, with or without an
      update of the agent; a binary that
      dies at every start is given up after a bounded number of starts.
    - Rendering ([RenderProps]): the agent collects exactly the keys the renderers
      wrote, and a quoted value is one inert word of a POSIX shell.
    - Registry ([EnrollProps]): over any sequence of operations, errors and crashes no
      two approved nodes hold the same key text, and the bearer token of a successful
      enrollment resolves to that node and voids its earlier ones.
    - Keystone ([KeystoneProps]): every change of the pinned credential is audited
      exactly once, whatever fails or crashes in between.
    - Bundles ([ExportProps]): every exported bundle passes the verification of the
      agent, the in-memory façade delivers what the export writes, and nothing an
      agent-held compile produces depends on a private key.
    - Releases ([ReleaseProps], [DeployProps]): staging changes nothing that is served;
      a staged release is sealed, verifiable and described by a manifest that binds
      what each node will be served; with a keystone nothing is promoted unless that
      manifest is signed by the pinned credential.
    - The whole way ([AcceptProps], [ConfigSafety]): when stage, signature and promotion
      report success, the agent that pinned the credential accepts what every staged
      node is served, bundle and manifest, if the link-local pins of the stored topology
      are addresses; and no name, host or domain of a validated
      topology adds a peer or a root command to a WireGuard file.
    - Telemetry ([CoreProps]): the overlay of a node is bounded whatever the node
      sends, heartbeats write nothing durable, a resent sample is recorded once.
    - Login ([RateLimit], [LoginProps]): a session is minted only for proved factors,
      which the login spends, under any faults; only a live session or the break-glass
      token passes the operator gate; an honest operator is let in; guesses are bounded
      in any span of time.
    - History ([HistoryRun], [HistoryQuery]): over every interleaving of heartbeats,
      settings, flushes, failures and restarts the history of a node is bounded in memory
      and on disk and keeps accepted records in order, none twice; a flush puts the newest
      records into the file; an accepted query shows exactly the newest records, unless a
      batch was in the file and not reported yet, where the epoch does not help
      ([unreported_batch_shortens]).
    - Behaviours that are defects are proved, most on concrete inputs:
      [AllocateIPs_mapped_collision], [overlapping_transit_pools_collide],
      [respelled_pin_collides], [two_pool_link_rejected], [prepended_edge_moves_pins],
      [file_audit_faults], [audit_fields_shift], [padded_compiled_at_wedges],
      [revocation_lost], [key_has_two_texts], [failed_listing_audited_as_duplicate],
      [pinned_link_local_injects], [session_strips_totp], [spray_grows_table],
      [zero_cost_parses].

    ** Not modelled

    The English text of findings and of wrapped errors beyond their head, [%q]
    quoting (parameters keep it symbolic), the display-only manifest checksum and
    time stamps, the shell and PowerShell script templates, network I/O, signature
    primitives, the HTTP API except login, the revocation and the configuration handlers,
    the projection of telemetry metrics onto history records, JSON decoding, and the record
    files of the file backend (the theorems hold for every backend that satisfies [KVLaws]
    and [AuditLaws]).
    [probepolicy.Validate] is a parameter of schema validation.  Of the agent: the
    controller client and the cycle loop around [run], the telemetry collectors, key
    generation, file permissions and leases, and a power loss that undoes a rename
    whose directory sync failed.  In the
    history a read of the file is one step, and a batch that is rewritten or compacted is
    installed in one step.  The probe policy's parsers, the telemetry codecs and the
    agent's cycle are the parts a further extension would model first. *)

From stdpp Require Import base gmap strings list sorting fin_sets.
From Stdlib Require Import ZArith Lia.

Declare Scope go_scope.
Delimit Scope go_scope with go.

(** ** Results and Go errors *)

(** A Go [(T, error)] return pair: exactly one of the two is meaningful. *)
Inductive result (E A : Type) : Type :=
| Ok (a : A)
| Err (e : E).
Arguments Ok {E A} a.
Arguments Err {E A} e.

Definition rbind {E A B} (m : result E A) (k : A -> result E B) : result E B :=
  match m with Ok a => k a | Err e => Err e end.

(** The [if err != nil { return ..., err }] idiom. *)
Notation "'let!' x ':=' m 'in' k" := (rbind m (fun x => k))
  (at level 10, x pattern, m at level 100, k at level 200) : go_scope.

Definition is_Ok {E A} (m : result E A) : Prop := exists a, m = Ok a.

Lemma rbind_Ok_inv {E A B} (m : result E A) (k : A -> result E B) b :
  rbind m k = Ok b -> exists a, m = Ok a /\ k a = Ok b.
Proof. destruct m; simpl; [eauto | discriminate]. Qed.

Lemma rbind_Err_inv {E A B} (m : result E A) (k : A -> result E B) e :
  rbind m k = Err e -> m = Err e \/ exists a, m = Ok a /\ k a = Err e.
Proof. destruct m; simpl; [eauto | intros [= ->]; auto]. Qed.

(** A [for _, x := range xs] loop that threads a state and stops at the first
    error. *)
Fixpoint foldM {E A S} (f : S -> A -> result E S) (s : S) (xs : list A) : result E S :=
  match xs with
  | [] => Ok s
  | x :: xs' => rbind (f s x) (fun s' => foldM f s' xs')
  end.

Lemma foldM_app {E A S} (f : S -> A -> result E S) xs ys s :
  foldM f s (xs ++ ys) = rbind (foldM f s xs) (fun s' => foldM f s' ys).
Proof.
  revert s; induction xs as [|x xs IH]; intros s; simpl; [done|].
  destruct (f s x); simpl; auto.
Qed.

(** Invariant rule of [foldM]: an indexed invariant over the processed prefix. *)
Lemma foldM_inv {E A S} (P : list A -> S -> Prop) (f : S -> A -> result E S) xs s s' :
  P [] s ->
  (forall pre x post s1 s2, xs = pre ++ x :: post -> P pre s1 -> f s1 x = Ok s2 ->
     P (pre ++ [x]) s2) ->
  foldM f s xs = Ok s' -> P xs s'.
Proof.
  intros H0 Hstep.
  enough (forall done rest s1, xs = done ++ rest -> P done s1 ->
            foldM f s1 rest = Ok s' -> P xs s') as Hgen by (eapply (Hgen []); eauto).
  intros done rest; revert done; induction rest as [|x rest IH]; intros done s1 Hxs HP Hf; simpl in Hf.
  - injection Hf as ->. by rewrite app_nil_r in Hxs; subst.
  - apply rbind_Ok_inv in Hf as (s2 & Hs2 & Hf).
    eapply (IH (done ++ [x])); eauto. by rewrite <- app_assoc.
Qed.

(** [foldl] with the same indexed invariant. *)
Lemma foldl_inv {A S} (P : list A -> S -> Prop) (f : S -> A -> S) xs s :
  P [] s ->
  (forall pre x post s1, xs = pre ++ x :: post -> P pre s1 -> P (pre ++ [x]) (f s1 x)) ->
  P xs (foldl f s xs).
Proof.
  intros H0 Hstep.
  enough (forall done rest s1, xs = done ++ rest -> P done s1 -> P xs (foldl f s1 rest)) as Hgen
    by (eapply (Hgen []); eauto).
  intros done rest; revert done; induction rest as [|x rest IH]; intros done s1 Hxs HP; simpl.
  - by rewrite app_nil_r in Hxs; subst.
  - eapply (IH (done ++ [x])); eauto. by rewrite <- app_assoc.
Qed.

(** Go error values as the program builds them: a coded API error
    ([apierr.New(code).With(k, v)...]), a plain [fmt.Errorf] message, a [%w]
    wrapper, or the error of a cancelled context. *)
Inductive goerror : Type :=
| Coded (code : string) (params : list (string * string))
| Plain (msg : string)
| Wrapped (msg : string) (inner : goerror)
| CtxErr (reason : string).

(** [errors.As(err, *apierr.Error)]: the code a caller sees through wrapping. *)
Fixpoint error_code (e : goerror) : option string :=
  match e with
  | Coded c _ => Some c
  | Wrapped _ i => error_code i
  | _ => None
  end.

(** ** Bounded upward search *)

(** [for i := start; i < start+fuel; i++ { if v, ok := f(i); ok { return v } }] *)
Fixpoint first_from {A} (f : Z -> option A) (start : Z) (fuel : nat) : option A :=
  match fuel with
  | O => None
  | S k => match f start with
           | Some a => Some a
           | None => first_from f (start + 1)%Z k
           end
  end.

Section first_from.
Context {A : Type} (f : Z -> option A).
Local Open Scope Z_scope.

Lemma first_from_Some start fuel a :
  first_from f start fuel = Some a ->
  exists i, start <= i < start + Z.of_nat fuel /\ f i = Some a /\
            forall j, start <= j < i -> f j = None.
Proof.
  revert start; induction fuel as [|k IH]; intros start; simpl; [done|].
  destruct (f start) eqn:Hf.
  - intros [= ->]. exists start. split; [lia|]. split; [done|]. lia.
  - intros (i & Hi & Hfi & Hmin)%IH. exists i. split; [lia|]. split; [done|].
    intros j Hj. destruct (decide (j = start)) as [->|]; [done|]. apply Hmin; lia.
Qed.

Lemma first_from_None start fuel :
  first_from f start fuel = None <->
  forall i, start <= i < start + Z.of_nat fuel -> f i = None.
Proof.
  revert start; induction fuel as [|k IH]; intros start; simpl.
  - split; [intros _ i Hi; lia | done].
  - destruct (f start) eqn:Hf; split.
    + done.
    + intros H. specialize (H start ltac:(lia)). congruence.
    + intros H i Hi. destruct (decide (i = start)) as [->|]; [done|].
      eapply IH; [exact H|lia].
    + intros H. apply IH. intros i Hi. apply H; lia.
Qed.

Lemma first_from_hit start fuel i a :
  start <= i < start + Z.of_nat fuel -> f i = Some a ->
  (forall j, start <= j < i -> f j = None) ->
  first_from f start fuel = Some a.
Proof.
  revert start; induction fuel as [|k IH]; intros start Hi Hfi Hmin; simpl; [lia|].
  destruct (decide (i = start)) as [->|].
  - by rewrite Hfi.
  - rewrite (Hmin start) by lia. apply IH; [lia|done|]. intros j Hj. apply Hmin; lia.
Qed.
End first_from.

Lemma first_from_ext {A} (f g : Z -> option A) start fuel :
  (forall i, f i = g i) -> first_from f start fuel = first_from g start fuel.
Proof.
  intros Hfg; revert start; induction fuel as [|k IH]; intros start; simpl; [done|].
  rewrite Hfg, IH. done.
Qed.

(** ** Bytewise string order (Go's [<] on strings) *)

Definition str_le (a b : string) : Prop := String.le a b.

(** Sorting by a string key, as [sort.Slice(xs, key(i) < key(j))] does. *)
Definition key_le {A} (key : A -> string) (x y : A) : Prop := String.le (key x) (key y).
#[export] Instance key_le_dec {A} (key : A -> string) : RelDecision (key_le key).
Proof. intros x y. unfold key_le. apply _. Defined.
#[export] Instance key_le_total {A} (key : A -> string) : Total (key_le key).
Proof. intros x y. unfold key_le. apply (total String.le). Qed.
#[export] Instance key_le_trans {A} (key : A -> string) : Transitive (key_le key).
Proof. intros x y z. unfold key_le. apply transitivity. Qed.

Definition sort_by {A} (key : A -> string) (xs : list A) : list A := merge_sort (key_le key) xs.

Lemma sort_by_perm {A} (key : A -> string) (xs : list A) : sort_by key xs ≡ₚ xs.
Proof. apply merge_sort_Permutation. Qed.

Lemma sort_by_sorted {A} (key : A -> string) (xs : list A) :
  StronglySorted (key_le key) (sort_by key xs).
Proof. apply StronglySorted_merge_sort; apply _. Qed.

Lemma NoDup_fmap_inj_on {A B} (key : A -> B) (xs : list A) x y :
  NoDup (key <$> xs) -> x ∈ xs -> y ∈ xs -> key x = key y -> x = y.
Proof.
  induction xs as [|z xs IH]; simpl; [by intros _ ?%elem_of_nil|].
  rewrite NoDup_cons. intros [Hz Hnd] Hx Hy Hk.
  apply elem_of_cons in Hx as [->|Hx]; apply elem_of_cons in Hy as [->|Hy]; auto.
  - exfalso; apply Hz. rewrite Hk. by apply list_elem_of_fmap_2.
  - exfalso; apply Hz. rewrite <- Hk. by apply list_elem_of_fmap_2.
Qed.

(** With pairwise distinct keys the sorted order depends only on the set of
    elements, not on the order they arrived in. *)
Lemma sort_by_unique {A} (key : A -> string) (xs ys : list A) :
  NoDup (key <$> xs) -> xs ≡ₚ ys -> sort_by key xs = sort_by key ys.
Proof.
  intros Hnd Hperm. eapply StronglySorted_unique_strong; [| apply sort_by_sorted .. |].
  - intros x y Hx Hy Hxy Hyx. eapply (NoDup_fmap_inj_on key xs); eauto.
    + eapply elem_of_Permutation_proper; [|exact Hx]. by rewrite sort_by_perm.
    + eapply elem_of_Permutation_proper; [|exact Hy]. rewrite sort_by_perm. done.
    + by apply (anti_symm String.le).
  - by rewrite !sort_by_perm.
Qed.

Lemma elem_of_snoc {A} (x y : A) (xs : list A) : x ∈ xs ++ [y] <-> x ∈ xs \/ x = y.
Proof. by rewrite elem_of_app, list_elem_of_singleton. Qed.

(** Concatenated images without repetition: none inside one image, none across
    the images of two different elements. *)
Lemma NoDup_fmap_bind {A B C} (f : A -> list B) (g : B -> C) (xs : list A) :
  NoDup xs -> (forall x, x ∈ xs -> NoDup (g <$> f x)) ->
  (forall x y b c, x ∈ xs -> y ∈ xs -> x <> y -> b ∈ f x -> c ∈ f y -> g b <> g c) ->
  NoDup (g <$> (xs ≫= f)).
Proof.
  induction xs as [|x xs IH]; intros Hnd Hin Hx; [constructor|].
  rewrite bind_cons, fmap_app. apply NoDup_cons in Hnd as [Hn Hnd]. apply NoDup_app. split_and!.
  - apply Hin. set_solver.
  - intros c (b & -> & Hb)%list_elem_of_fmap (b' & Hg & Hb')%list_elem_of_fmap.
    apply list_elem_of_bind in Hb' as (y & Hb' & Hy).
    refine (Hx x y b b' _ _ _ Hb Hb' Hg); [set_solver..|congruence].
  - apply IH; [done|set_solver|]. intros x' y' b c ???. apply Hx; set_solver.
Qed.

(** ** Automation *)

Create HintDb yaog.
Create Rewrite HintDb yaog.
#[export] Hint Resolve rbind_Ok_inv : yaog.

(** Breaks a chain of [let!] whose result is known to be [Ok]. *)
Ltac inv_ok :=
  repeat match goal with
  | H : rbind _ _ = Ok _ |- _ => apply rbind_Ok_inv in H as (? & ? & ?)
  | H : Ok _ = Ok _ |- _ => injection H as H
  | H : Err _ = Ok _ |- _ => discriminate H
  end.

(** Case analysis on every [if]/[match] on a boolean or an option in sight. *)
Ltac split_ifs :=
  repeat (case_match; simplify_eq/=; try done).
