(* ===== verification/GoLib.v ===== *)
(** * The parts of the Go language and standard library the program relies on

    Fixed-width integers, [strconv.Itoa], [fmt]'s [%x], [strings.Cut], UTF-8
    decoding as [range] over a string performs it, and byte predicates.  Strings
    are byte strings: a Rocq [ascii] is one byte. *)

From stdpp Require Import base strings list.
From Stdlib Require Import ZArith Lia Ascii.
From S2P Require Import Prelude.

Local Open Scope Z_scope.

(** ** Fixed-width integers *)

(** [uint32(x)] *)
Definition u32 (x : Z) : Z := x mod 2 ^ 32.
Definition is_u32 (x : Z) : Prop := 0 <= x < 2 ^ 32.

Lemma u32_small x : is_u32 x -> u32 x = x.
Proof. apply Z.mod_small. Qed.
Lemma u32_range x : is_u32 (u32 x).
Proof. apply Z.mod_pos_bound. lia. Qed.

(** [int64] arithmetic wraps; a sum that fits is exact. *)
Definition i64 (x : Z) : Z := (x + 2 ^ 63) mod 2 ^ 64 - 2 ^ 63.
Definition is_i64 (x : Z) : Prop := - 2 ^ 63 <= x < 2 ^ 63.

Lemma i64_small x : is_i64 x -> i64 x = x.
Proof. unfold is_i64, i64. intros Hx. rewrite Z.mod_small; lia. Qed.
Lemma i64_range x : is_i64 (i64 x).
Proof. unfold is_i64, i64. pose proof (Z.mod_pos_bound (x + 2 ^ 63) (2 ^ 64)). lia. Qed.

(** The successor of a counter is above it unless it is the last one, where it is negative. *)
Lemma i64_succ_pos x : is_i64 x -> 0 < i64 (x + 1) -> i64 (x + 1) = x + 1.
Proof.
  intros Hx Hpos. apply i64_small. unfold is_i64 in *. split; [lia|]. destruct (Z.eq_dec (x + 1) (2 ^ 63)) as [He|]; [|lia].
  rewrite He in Hpos. by vm_compute in Hpos.
Qed.

(** ** Bytes *)

Definition byte_val (c : ascii) : Z := Z.of_nat (nat_of_ascii c).
Definition byte_of (v : Z) : ascii := ascii_of_nat (Z.to_nat v).

Definition is_digit (c : ascii) : bool := (48 <=? byte_val c) && (byte_val c <=? 57).
Definition digit_val (c : ascii) : Z := byte_val c - 48.
Definition is_lower (c : ascii) : bool := (97 <=? byte_val c) && (byte_val c <=? 122).
Definition is_upper (c : ascii) : bool := (65 <=? byte_val c) && (byte_val c <=? 90).

(** The value of one hexadecimal digit, either case. *)
Definition hex_val (c : ascii) : option Z :=
  let v := byte_val c in
  if (48 <=? v) && (v <=? 57) then Some (v - 48)
  else if (97 <=? v) && (v <=? 102) then Some (v - 97 + 10)
  else if (65 <=? v) && (v <=? 70) then Some (v - 65 + 10)
  else None.

(** ** Numbers in base 10 and 16 *)

(** The lower-case digit of a value below 16. *)
Definition digit_of (v : Z) : ascii := byte_of (if v <? 10 then v + 48 else v + 87).

Fixpoint fmt_digits (fuel : nat) (b n : Z) (acc : string) : string :=
  match fuel with
  | O => acc
  | S k =>
      let acc' := String (digit_of (n mod b)) acc in
      if n / b =? 0 then acc' else fmt_digits k b (n / b) acc'
  end.

(** Enough digits for any base of at least two. *)
Definition digits_fuel (n : Z) : nat := S (Z.to_nat (Z.log2 n)).

(** [strconv.Itoa] on a non-negative argument, and [fmt.Sprintf("%x", n)]. *)
Definition itoa10 (n : Z) : string := fmt_digits (digits_fuel n) 10 n "".
Definition fmt_x (n : Z) : string := fmt_digits (digits_fuel n) 16 n "".

Definition strconv_Itoa (n : Z) : string :=
  if n <? 0 then String "-"%char (itoa10 (- n)) else itoa10 n.

(** Reading digits back, most significant first. *)
Fixpoint digits_val (b : Z) (acc : Z) (s : string) : Z :=
  match s with
  | EmptyString => acc
  | String c s' => digits_val b (acc * b + default 0 (hex_val c)) s'
  end.

Lemma hex_val_digit_of v : 0 <= v < 16 -> hex_val (digit_of v) = Some v.
Proof.
  intros Hv. assert (exists n : nat, v = Z.of_nat n /\ (n < 16)%nat) as (n & -> & Hn).
  { exists (Z.to_nat v). lia. }
  do 16 (destruct n as [|n]; [reflexivity|]). lia.
Qed.

Lemma fmt_digits_val fuel b n acc :
  2 <= b <= 16 -> 0 <= n -> (Z.to_nat (Z.log2 n) < fuel)%nat ->
  digits_val b 0 (fmt_digits fuel b n acc) = digits_val b n acc.
Proof.
  intros Hb. revert n acc; induction fuel as [|k IH]; intros n acc Hn Hf; [lia|].
  assert (0 <= n mod b < b) by (apply Z.mod_pos_bound; lia).
  assert (n / b * b + n mod b = n) as Hdm.
  { rewrite (Z.mul_comm _ b). symmetry. apply Z.div_mod. lia. }
  assert (0 <= n / b) by (apply Z.div_pos; lia).
  cbn [fmt_digits]. destruct (Z.eqb_spec (n / b) 0) as [Hz|Hz].
  - cbn [digits_val]. rewrite hex_val_digit_of by lia. cbn. f_equal. lia.
  - rewrite IH; [|lia|].
    + cbn [digits_val]. rewrite hex_val_digit_of by lia. cbn. f_equal. lia.
    + assert (Z.log2 (n / b) < Z.log2 n); [|pose proof (Z.log2_nonneg (n / b)); lia].
      assert (n / b <= n / 2) by (apply Z.div_le_compat_l; lia).
      assert (2 <= n). { destruct (Z.lt_ge_cases n 2); [|done]. exfalso. apply Hz.
        apply Z.div_small; lia. }
      apply Z.le_lt_trans with (Z.log2 (n / 2)); [by apply Z.log2_le_mono|].
      rewrite <- Z.div2_div, Z.div2_spec, Z.log2_shiftr by lia.
      pose proof (Z.log2_pos n ltac:(lia)). lia.
Qed.

Lemma itoa10_val n : 0 <= n -> digits_val 10 0 (itoa10 n) = n.
Proof. intros. unfold itoa10, digits_fuel. rewrite fmt_digits_val by lia. done. Qed.
Lemma fmt_x_val n : 0 <= n -> digits_val 16 0 (fmt_x n) = n.
Proof. intros. unfold fmt_x, digits_fuel. rewrite fmt_digits_val by lia. done. Qed.

Lemma itoa10_inj m n : 0 <= m -> 0 <= n -> itoa10 m = itoa10 n -> m = n.
Proof. intros Hm Hn He. rewrite <- (itoa10_val m), <- (itoa10_val n), He; done. Qed.
Lemma fmt_x_inj m n : 0 <= m -> 0 <= n -> fmt_x m = fmt_x n -> m = n.
Proof. intros Hm Hn He. rewrite <- (fmt_x_val m), <- (fmt_x_val n), He; done. Qed.

(** ** Strings *)

Lemma append_inj_l (p a b : string) : (p +:+ a = p +:+ b)%string -> a = b.
Proof. induction p as [|c p IH]; simpl; [done|]. intros [= H]. auto. Qed.

Lemma append_assoc (a b c : string) : ((a +:+ b) +:+ c = a +:+ (b +:+ c))%string.
Proof. induction a as [|x a IH]; [done|]. exact (f_equal (String x) IH). Qed.

Lemma append_nil_r (a : string) : (a +:+ "" = a)%string.
Proof. induction a as [|x a IH]; [done|]. exact (f_equal (String x) IH). Qed.

Lemma length_append (a b : string) :
  String.length (a +:+ b) = (String.length a + String.length b)%nat.
Proof. induction a as [|x a IH]; [done|]. exact (f_equal S IH). Qed.

(** Membership of a byte in a string. *)
Fixpoint has_byte (c : ascii) (s : string) : bool :=
  match s with
  | EmptyString => false
  | String x s' => if decide (x = c) then true else has_byte c s'
  end.

Lemma append_cons x (a b : string) : (String x a +:+ b = String x (a +:+ b))%string.
Proof. done. Qed.

Lemma has_byte_append c a b : has_byte c (a +:+ b) = has_byte c a || has_byte c b.
Proof. induction a as [|x a IH]; [done|]. rewrite append_cons. simpl. by case_decide. Qed.

(** [strings.Cut(s, sep)] for a one-byte separator. *)
Fixpoint str_cut (sep : ascii) (s : string) : option (string * string) :=
  match s with
  | EmptyString => None
  | String x s' =>
      if decide (x = sep) then Some (EmptyString, s')
      else match str_cut sep s' with
           | Some (a, b) => Some (String x a, b)
           | None => None
           end
  end.

Lemma str_cut_append sep a b :
  has_byte sep a = false -> str_cut sep (a +:+ String sep b) = Some (a, b).
Proof.
  induction a as [|x a IH].
  - intros _. simpl. by rewrite decide_True.
  - rewrite append_cons. simpl. case_decide; [done|]. intros Ha. by rewrite IH.
Qed.

(** Two strings cut at the first [sep] agree when their two halves do. *)
Lemma cut_inj sep a a' b b' :
  has_byte sep a = false -> has_byte sep a' = false ->
  (a +:+ String sep b = a' +:+ String sep b')%string -> a = a' /\ b = b'.
Proof.
  intros Ha Ha' He. assert (Some (a, b) = Some (a', b')) as [= -> ->]; [|done].
  rewrite <- (str_cut_append sep a b Ha), <- (str_cut_append sep a' b' Ha'), He. done.
Qed.

Fixpoint str_take (n : nat) (s : string) : string :=
  match n, s with
  | S k, String c s' => String c (str_take k s')
  | _, _ => EmptyString
  end.

Lemma length_str_take n s : String.length (str_take n s) = Nat.min n (String.length s).
Proof. revert s; induction n as [|n IH]; intros [|c s]; simpl; auto. Qed.

(** [strings.HasPrefix] and [strings.HasSuffix]. *)
Definition has_prefix (p s : string) : bool := String.prefix p s.
Definition has_suffix (p s : string) : bool :=
  let n := String.length s in
  let k := String.length p in
  if (n <? k)%nat then false
  else String.eqb (String.substring (n - k) k s) p.

(** ** UTF-8

    [for _, r := range s] and [strings.Map] decode the string into runes; an
    invalid byte yields U+FFFD and advances one byte. *)

Definition rune_error : Z := 65533.

Definition cont_byte (c : ascii) : bool := (128 <=? byte_val c) && (byte_val c <=? 191).
Definition low6 (c : ascii) : Z := Z.land (byte_val c) 63.

(** [utf8.DecodeRuneInString]: the rune and the number of further bytes it
    consumed. *)
Definition decode_rune (c0 : ascii) (rest : string) : Z * nat :=
  let v := byte_val c0 in
  if v <? 128 then (v, 0%nat)
  else if (194 <=? v) && (v <=? 223) then
    match rest with
    | String c1 _ => if cont_byte c1 then (Z.lor (Z.shiftl (Z.land v 31) 6) (low6 c1), 1%nat) else (rune_error, 0%nat)
    | _ => (rune_error, 0%nat)
    end
  else if (224 <=? v) && (v <=? 239) then
    match rest with
    | String c1 (String c2 _) =>
        let lo := if v =? 224 then 160 else 128 in
        let hi := if v =? 237 then 159 else 191 in
        if (lo <=? byte_val c1) && (byte_val c1 <=? hi) && cont_byte c2
        then (Z.lor (Z.lor (Z.shiftl (Z.land v 15) 12) (Z.shiftl (low6 c1) 6)) (low6 c2), 2%nat)
        else (rune_error, 0%nat)
    | _ => (rune_error, 0%nat)
    end
  else if (240 <=? v) && (v <=? 244) then
    match rest with
    | String c1 (String c2 (String c3 _)) =>
        let lo := if v =? 240 then 144 else 128 in
        let hi := if v =? 244 then 143 else 191 in
        if (lo <=? byte_val c1) && (byte_val c1 <=? hi) && cont_byte c2 && cont_byte c3
        then (Z.lor (Z.lor (Z.shiftl (Z.land v 7) 18) (Z.shiftl (low6 c1) 12))
                    (Z.lor (Z.shiftl (low6 c2) 6) (low6 c3)), 3%nat)
        else (rune_error, 0%nat)
    | _ => (rune_error, 0%nat)
    end
  else (rune_error, 0%nat).

(** The runes of a string; [skip] counts bytes already consumed by a multi-byte
    rune. *)
Fixpoint runes_skip (skip : nat) (s : string) : list Z :=
  match s with
  | EmptyString => []
  | String c rest =>
      match skip with
      | S k => runes_skip k rest
      | O => let '(r, n) := decode_rune c rest in r :: runes_skip n rest
      end
  end.
Definition runes (s : string) : list Z := runes_skip 0 s.

Definition string_of_bytes (l : list Z) : string :=
  fold_right (fun v s => String (byte_of v) s) EmptyString l.

(** A string of bytes below 128 decodes to its own bytes. *)
Fixpoint ascii_only (s : string) : bool :=
  match s with
  | EmptyString => true
  | String c s' => (byte_val c <? 128) && ascii_only s'
  end.

Fixpoint bytes_of (s : string) : list Z :=
  match s with EmptyString => [] | String c s' => byte_val c :: bytes_of s' end.

Lemma runes_ascii s : ascii_only s = true -> runes s = bytes_of s.
Proof.
  unfold runes. induction s as [|c s IH]; simpl; [done|].
  intros [Hc Hs]%andb_prop. unfold decode_rune. rewrite Hc. by rewrite IH.
Qed.

Lemma length_string_of_bytes l : String.length (string_of_bytes l) = length l.
Proof. induction l; simpl; auto. Qed.
