(* ===== verification/GoNet.v ===== *)
(** * Go's [net] package as the program uses it

    [net.ParseIP], [net.ParseCIDR], [IPNet.Contains], [IP.To4], [IP.String]
    and [IPMask.Size], after go1.25 (the parsers are [netip.ParseAddr]).  An
    [IP] is the 16-byte form [ParseIP] returns, kept as a 128-bit integer in
    network byte order; an [IPNet] remembers whether its mask has 4 or 16
    bytes. *)

From stdpp Require Import base strings list.
From Stdlib Require Import ZArith Lia Ascii.
From S2P Require Import Prelude GoLib.

Local Open Scope Z_scope.

(** ** Parsing *)

(** [parseIPv4Fields]: one pass over the bytes; [prev] is the byte before the
    current one, [fields] the octets already closed by a dot. *)
Fixpoint parseIPv4Fields (s : string) (prev : option ascii) (val digLen : Z) (fields : list Z)
  : option (list Z) :=
  match s with
  | EmptyString => if (length fields <? 3)%nat then None else Some (fields ++ [val])
  | String c rest =>
      if is_digit c then
        if (digLen =? 1) && (val =? 0) then None
        else let val' := val * 10 + digit_val c in
             if 255 <? val' then None
             else parseIPv4Fields rest (Some c) val' (digLen + 1) fields
      else if decide (c = "."%char) then
        match prev, rest with
        | None, _ => None
        | _, EmptyString => None
        | Some p, _ =>
            if decide (p = "."%char) then None
            else if (length fields =? 3)%nat then None
            else parseIPv4Fields rest (Some c) 0 0 (fields ++ [val])
        end
      else None
  end.

Definition be_combine (bs : list Z) : Z := foldl (fun acc b => acc * 256 + b) 0 bs.

Definition v4_in_v6 (u : Z) : Z := 65535 * 2 ^ 32 + u.

Definition parseIPv4 (s : string) : option Z :=
  match parseIPv4Fields s None 0 0 [] with
  | Some bs => Some (be_combine bs)
  | None => None
  end.

(** The hexadecimal group at the head of [s]: its value, its number of digits
    and the rest; [None] when it has more than four digits. *)
Fixpoint hex_group (s : string) (off : nat) (acc : Z) : option (Z * nat * string) :=
  match s with
  | String c rest =>
      match hex_val c with
      | Some v =>
          let acc' := acc * 16 + v in
          if (3 <? off)%nat then None
          else if 65535 <? acc' then None
          else hex_group rest (S off) acc'
      | None => Some (acc, off, s)
      end
  | EmptyString => Some (acc, off, EmptyString)
  end.

(** The group loop of [parseIPv6]: [ip] holds the bytes parsed so far and
    [ell] the byte position of the ellipsis.  Eight rounds fill 16 bytes. *)
Fixpoint parseIPv6Groups (rounds : nat) (s : string) (ip : list Z) (ell : option nat)
  : option (list Z * option nat * string) :=
  match rounds with
  | O => Some (ip, ell, s)
  | S k =>
      match hex_group s 0 0 with
      | None => None
      | Some (_, O, _) => None
      | Some (acc, _, rest) =>
          match rest with
          | String "." _ =>
              if match ell with None => negb (length ip =? 12)%nat | Some _ => false end then None
              else if (16 <? length ip + 4)%nat then None
              else match parseIPv4Fields s None 0 0 [] with
                   | Some bs => Some (ip ++ bs, ell, EmptyString)
                   | None => None
                   end
          | EmptyString => Some (ip ++ [acc / 256; acc mod 256], ell, EmptyString)
          | String ":" EmptyString => None
          | String ":" (String ":" rest') =>
              match ell with
              | Some _ => None
              | None =>
                  let ip' := ip ++ [acc / 256; acc mod 256] in
                  match rest' with
                  | EmptyString => Some (ip', Some (length ip'), EmptyString)
                  | _ => if (length ip' <? 16)%nat
                         then parseIPv6Groups k rest' ip' (Some (length ip'))
                         else Some (ip', Some (length ip'), rest')
                  end
              end
          | String ":" rest' =>
              let ip' := ip ++ [acc / 256; acc mod 256] in
              if (length ip' <? 16)%nat then parseIPv6Groups k rest' ip' ell
              else Some (ip', ell, rest')
          | String _ _ => None
          end
      end
  end.

(** [parseIPv6] without a zone; a zoned address is rejected by [net.ParseIP]. *)
Definition parseIPv6 (s0 : string) : option Z :=
  if has_byte "%"%char s0 then None
  else
    let '(s, ell) := match s0 with
                     | String ":" (String ":" s') => (s', Some 0%nat)
                     | _ => (s0, None)
                     end in
    match s, ell with
    | EmptyString, Some _ => Some 0
    | _, _ =>
        match parseIPv6Groups 8 s [] ell with
        | Some (ip, ell', EmptyString) =>
            if (length ip <? 16)%nat then
              match ell' with
              | None => None
              | Some e => Some (be_combine (take e ip ++ replicate (16 - length ip) 0 ++ drop e ip))
              end
            else match ell' with
                 | Some _ => None
                 | None => Some (be_combine ip)
                 end
        | _ => None
        end
    end.

(** [netip.ParseAddr]: the first dot or colon decides the family. *)
Inductive addr := Addr4 (u : Z) | Addr6 (u : Z).

Fixpoint family (s : string) : option bool :=
  match s with
  | EmptyString => None
  | String "." _ => Some true
  | String ":" _ => Some false
  | String "%" _ => None
  | String _ s' => family s'
  end.

Definition ParseAddr (s : string) : option addr :=
  match family s with
  | Some true => Addr4 <$> parseIPv4 s
  | Some false => Addr6 <$> parseIPv6 s
  | None => None
  end.

Definition addr_as16 (a : addr) : Z :=
  match a with Addr4 u => v4_in_v6 u | Addr6 u => u end.

(** [net.ParseIP]; [None] is Go's [nil]. *)
Definition ParseIP (s : string) : option Z := addr_as16 <$> ParseAddr s.

(** [IP.To4] on the 16-byte form. *)
Definition To4 (ip : Z) : option Z :=
  if ip / 2 ^ 32 =? 65535 then Some (ip mod 2 ^ 32) else None.

(** ** Networks *)

Record IPNet := { net_v4 : bool;  (** 4-byte mask *)
                  net_ip : Z;     (** masked address, 32 or 128 bits *)
                  net_ones : Z }. (** prefix length *)

Definition net_bits (n : IPNet) : Z := if net_v4 n then 32 else 128.

Definition cidr_mask (ones bits : Z) : Z := Z.shiftl (Z.ones ones) (bits - ones).

(** [dtoi] of package net: decimal digits, stopping below 0xFFFFFF. *)
Fixpoint dtoi (s : string) (n : Z) (i : nat) : option (Z * nat * string) :=
  match s with
  | String c rest =>
      if is_digit c then
        let n' := n * 10 + digit_val c in
        if 16777215 <=? n' then None else dtoi rest n' (S i)
      else if (i =? 0)%nat then None else Some (n, i, s)
  | EmptyString => if (i =? 0)%nat then None else Some (n, i, s)
  end.

(** [net.ParseCIDR], the [*IPNet] result. *)
Definition ParseCIDR (s : string) : option IPNet :=
  match str_cut "/"%char s with
  | None => None
  | Some (a, m) =>
      match ParseAddr a with
      | None => None
      | Some ad =>
          let bits := match ad with Addr4 _ => 32 | Addr6 _ => 128 end in
          match dtoi m 0 0 with
          | Some (n, _, EmptyString) =>
              if bits <? n then None
              else Some match ad with
                   | Addr4 u => {| net_v4 := true; net_ip := Z.land u (cidr_mask n 32); net_ones := n |}
                   | Addr6 u => {| net_v4 := false; net_ip := Z.land u (cidr_mask n 128); net_ones := n |}
                   end
          | _ => None
          end
      end
  end.

(** [n.IP.To4()] *)
Definition net_to4 (n : IPNet) : option Z :=
  if net_v4 n then Some (net_ip n) else To4 (net_ip n).

(** [networkNumberAndMask]: address, mask and width in bits. *)
Definition network_and_mask (n : IPNet) : Z * Z * Z :=
  if net_v4 n then (net_ip n, cidr_mask (net_ones n) 32, 32)
  else match To4 (net_ip n) with
       | Some u => (u, cidr_mask (net_ones n) 128 mod 2 ^ 32, 32)
       | None => (net_ip n, cidr_mask (net_ones n) 128, 128)
       end.

(** [IPNet.Contains] *)
Definition Contains (n : IPNet) (ip : Z) : bool :=
  let '(nn, m, w) := network_and_mask n in
  let '(x, l) := match To4 ip with Some u => (u, 32) | None => (ip, 128) end in
  (l =? w) && (Z.land nn m =? Z.land x m).

(** ** Printing *)

Definition octet (u k : Z) : Z := (u / 2 ^ (8 * k)) mod 256.

(** Dotted-quad text of a 32-bit address. *)
Definition ipv4_string (u : Z) : string :=
  (itoa10 (octet u 3) +:+ String "." (itoa10 (octet u 2) +:+ String "."
  (itoa10 (octet u 1) +:+ String "." (itoa10 (octet u 0)))))%string.

Definition v6_group (u i : Z) : Z := (u / 2 ^ (16 * (7 - i))) mod 65536.
Definition v6_groups (u : Z) : list Z := v6_group u <$> [0; 1; 2; 3; 4; 5; 6; 7].

Fixpoint zero_run (gs : list Z) : nat :=
  match gs with 0 :: gs' => S (zero_run gs') | _ => 0%nat end.

(** The longest run of at least two zero groups, the first one on a tie. *)
Fixpoint best_run (gs : list Z) (i : nat) (best : nat * nat) : nat * nat :=
  match gs with
  | [] => best
  | _ :: gs' =>
      let l := zero_run gs in
      best_run gs' (S i) (if (2 <=? l)%nat && (best.2 <? l)%nat then (i, l) else best)
  end.

Fixpoint join_colon (xs : list string) : string :=
  match xs with
  | [] => ""%string
  | [x] => x
  | x :: xs' => (x +:+ ":" +:+ join_colon xs')%string
  end.

Definition ipv6_string (u : Z) : string :=
  let gs := v6_groups u in
  let '(z, l) := best_run gs 0 (0%nat, 0%nat) in
  if (l =? 0)%nat then join_colon (fmt_x <$> gs)
  else (join_colon (fmt_x <$> take z gs) +:+ "::" +:+ join_colon (fmt_x <$> drop (z + l) gs))%string.

(** [IP.String()] on the 16-byte form. *)
Definition IP_String (ip : Z) : string :=
  match To4 ip with
  | Some u => ipv4_string u
  | None => ipv6_string ip
  end.

(** ** Sanity checks on concrete text *)

Example ParseIP_v4 : ParseIP "10.10.0.1" = Some (v4_in_v6 168427521).
Proof. reflexivity. Qed.
Example ParseIP_leading_zero : ParseIP "10.010.0.1" = None.
Proof. reflexivity. Qed.
Example ParseIP_mapped : ParseIP "::ffff:10.10.0.1" = ParseIP "10.10.0.1".
Proof. reflexivity. Qed.
Example ParseIP_ll : (IP_String <$> ParseIP "FE80:0:0::000b") = Some "fe80::b".
Proof. vm_compute. reflexivity. Qed.
Example ParseIP_full : (IP_String <$> ParseIP "2001:db8:0:0:1:0:0:1") = Some "2001:db8::1:0:0:1".
Proof. vm_compute. reflexivity. Qed.
Example ParseIP_bad : ParseIP "1::2::3" = None /\ ParseIP "1:2:3:4:5:6:7:8:9" = None /\ ParseIP "fe80::1%eth0" = None
  /\ ParseIP ":1:2:3:4:5:6:7" = None /\ ParseIP "1:2:3:4:5:6:7::" = Some (be_combine [0;1;0;2;0;3;0;4;0;5;0;6;0;7;0;0]).
Proof. vm_compute. auto. Qed.
Example ParseCIDR_masks : ParseCIDR "10.10.0.77/24" = Some {| net_v4 := true; net_ip := 168427520; net_ones := 24 |}.
Proof. reflexivity. Qed.

(** ** Round trip of IPv4 text *)

Lemma octet_range u k : 0 <= octet u k < 256.
Proof. apply Z.mod_pos_bound. lia. Qed.

Lemma octets_combine u :
  is_u32 u -> be_combine [octet u 3; octet u 2; octet u 1; octet u 0] = u.
Proof.
  unfold is_u32, be_combine, octet. cbn -[Z.pow Z.div Z.modulo Z.mul]. intros Hu.
  rewrite !(Z.mod_eq _ 256) by lia.
  change (2 ^ (8 * 0)) with 1. change (2 ^ (8 * 1)) with 256.
  change (2 ^ (8 * 2)) with (256 * 256). change (2 ^ (8 * 3)) with (256 * 256 * 256).
  rewrite Z.div_1_r, <- !Z.div_div by lia.
  assert (u / 256 / 256 / 256 / 256 = 0) as ->; [|lia].
  rewrite !Z.div_div by lia. apply Z.div_small. lia.
Qed.

Lemma byte_cases (P : Z -> Prop) :
  (forall n : nat, (n < 256)%nat -> P (Z.of_nat n)) -> forall v, 0 <= v < 256 -> P v.
Proof. intros H v Hv. replace v with (Z.of_nat (Z.to_nat v)) by lia. apply H. lia. Qed.

Lemma parse_octet_dot v c rest prev fs :
  0 <= v < 256 -> (length fs < 3)%nat ->
  parseIPv4Fields (itoa10 v +:+ String "." (String c rest)) prev 0 0 fs =
  parseIPv4Fields (String c rest) (Some "."%char) 0 0 (fs ++ [v]).
Proof.
  intros Hv Hfs. revert v Hv. apply byte_cases. intros n Hn.
  assert ((length fs =? 3)%nat = false) as H3 by (apply Nat.eqb_neq; lia).
  do 256 (destruct n as [|n]; [by cbv -[parseIPv4Fields length Nat.eqb app]; cbn -[Nat.eqb]; rewrite H3|]).
  lia.
Qed.

Lemma parse_octet_end v prev fs :
  0 <= v < 256 -> length fs = 3%nat ->
  parseIPv4Fields (itoa10 v) prev 0 0 fs = Some (fs ++ [v]).
Proof.
  intros Hv Hfs. revert v Hv. apply byte_cases. intros n Hn.
  do 256 (destruct n as [|n]; [by cbv -[parseIPv4Fields length Nat.ltb app]; cbn -[Nat.ltb]; rewrite Hfs|]).
  lia.
Qed.

Lemma family_octet v r : 0 <= v < 256 -> family (itoa10 v +:+ String "." r) = Some true.
Proof.
  revert v. apply byte_cases. intros n Hn.
  do 256 (destruct n as [|n]; [reflexivity|]). lia.
Qed.

Lemma itoa10_nonempty v : exists c r, itoa10 v = String c r.
Proof.
  unfold itoa10, digits_fuel. generalize (Z.to_nat (Z.log2 v)); intros f.
  cut (forall fuel n acc, (exists c r, acc = String c r) ->
    exists c r, fmt_digits fuel 10 n acc = String c r).
  { intros H. cbn [fmt_digits]. case_match; eauto. }
  induction fuel as [|k IH]; intros n acc (c & r & ->); cbn [fmt_digits]; [eauto|].
  case_match; eauto.
Qed.

Lemma parseIPv4_string u : is_u32 u -> parseIPv4 (ipv4_string u) = Some u.
Proof.
  intros Hu. unfold parseIPv4, ipv4_string.
  destruct (itoa10_nonempty (octet u 2)) as (c2 & r2 & E2).
  destruct (itoa10_nonempty (octet u 1)) as (c1 & r1 & E1).
  destruct (itoa10_nonempty (octet u 0)) as (c0 & r0 & E0).
  pose proof (octet_range u 3). pose proof (octet_range u 2).
  pose proof (octet_range u 1). pose proof (octet_range u 0).
  rewrite E2, append_cons, parse_octet_dot by (simpl; lia).
  rewrite <- append_cons, <- E2, E1, append_cons, parse_octet_dot by (simpl; lia).
  rewrite <- append_cons, <- E1, E0, parse_octet_dot by (simpl; lia).
  rewrite <- E0, parse_octet_end by (simpl; lia).
  f_equal. by apply octets_combine.
Qed.

Lemma ParseIP_ipv4_string u : is_u32 u -> ParseIP (ipv4_string u) = Some (v4_in_v6 u).
Proof.
  intros Hu. unfold ParseIP, ParseAddr.
  assert (family (ipv4_string u) = Some true) as ->.
  { apply family_octet, octet_range. }
  by rewrite parseIPv4_string.
Qed.

Lemma To4_v4_in_v6 u : is_u32 u -> To4 (v4_in_v6 u) = Some u.
Proof.
  unfold is_u32, To4, v4_in_v6. intros Hu.
  rewrite Z.div_add_l, Z.div_small by lia.
  rewrite Z.add_0_r, Z.eqb_refl, Z.add_comm, Z.mod_add, Z.mod_small by lia. done.
Qed.

Lemma IP_String_v4 u : is_u32 u -> IP_String (v4_in_v6 u) = ipv4_string u.
Proof. intros Hu. unfold IP_String. by rewrite To4_v4_in_v6. Qed.

Lemma v4_in_v6_inj u v : v4_in_v6 u = v4_in_v6 v -> u = v.
Proof. unfold v4_in_v6. lia. Qed.

(** Distinct addresses have distinct text. *)
Lemma ipv4_string_inj u v : is_u32 u -> is_u32 v -> ipv4_string u = ipv4_string v -> u = v.
Proof.
  intros Hu Hv He. apply v4_in_v6_inj.
  pose proof (ParseIP_ipv4_string u Hu) as Pu. rewrite He, ParseIP_ipv4_string in Pu by done.
  congruence.
Qed.

Lemma ipv4_string_nonempty u : ipv4_string u <> ""%string.
Proof.
  unfold ipv4_string. destruct (itoa10_nonempty (octet u 3)) as (c & r & ->). done.
Qed.

(** ** Membership in a parsed IPv4 network is an address interval *)

Lemma land_cidr_mask u ones bits :
  0 <= ones <= bits -> 0 <= u < 2 ^ bits ->
  Z.land u (cidr_mask ones bits) = u / 2 ^ (bits - ones) * 2 ^ (bits - ones).
Proof.
  intros Ho Hu. unfold cidr_mask. set (h := bits - ones).
  assert (0 <= h) by (unfold h; lia).
  rewrite <- Z.shiftr_div_pow2, <- Z.shiftl_mul_pow2 by done.
  apply Z.bits_inj'. intros i Hi.
  rewrite Z.land_spec, !Z.shiftl_spec by done.
  destruct (Z.lt_ge_cases i h) as [Hlt|Hge].
  - by rewrite !(Z.testbit_neg_r _ (i - h)), andb_false_r by lia.
  - rewrite Z.shiftr_spec by lia. rewrite Z.sub_add.
    destruct (Z.lt_ge_cases i bits).
    + rewrite Z.ones_spec_low, andb_true_r by (unfold h; lia). done.
    + destruct (Z.eq_dec u 0) as [->|]; [by rewrite Z.bits_0|].
      rewrite (Z.bits_above_log2 u i), andb_false_l; [done|lia|].
      apply Z.log2_lt_pow2; [lia|]. eapply Z.lt_le_trans; [apply Hu|].
      apply Z.pow_le_mono_r; lia.
Qed.

Definition net4_wf (n : IPNet) : Prop :=
  net_v4 n = true /\ 0 <= net_ones n <= 32 /\ is_u32 (net_ip n) /\
  net_ip n mod 2 ^ (32 - net_ones n) = 0.

(** The number of addresses of a network. *)
Definition net_size (n : IPNet) : Z := 2 ^ (32 - net_ones n).

Lemma net_size_pos n : net4_wf n -> 0 < net_size n.
Proof. intros (_ & Ho & _). apply Z.pow_pos_nonneg; lia. Qed.

Lemma net4_bound n : net4_wf n -> net_ip n + net_size n <= 2 ^ 32.
Proof.
  intros (_ & Ho & Hip & Hm). unfold net_size, is_u32 in *.
  set (p := 2 ^ (32 - net_ones n)) in *.
  assert (0 < p) by (apply Z.pow_pos_nonneg; lia).
  assert (2 ^ 32 = p * 2 ^ net_ones n) as Hp.
  { unfold p. rewrite <- Z.pow_add_r by lia. f_equal. lia. }
  apply Z.mod_divide in Hm as [q Hq]; [|lia].
  assert (0 < 2 ^ net_ones n) by (apply Z.pow_pos_nonneg; lia).
  assert (q < 2 ^ net_ones n) by nia. nia.
Qed.

Lemma Contains_v4 n u :
  net4_wf n -> is_u32 u ->
  Contains n (v4_in_v6 u) = true <-> net_ip n <= u < net_ip n + net_size n.
Proof.
  intros (Hv & Ho & Hip & Hm) Hu. unfold Contains, network_and_mask.
  rewrite Hv, To4_v4_in_v6 by done. cbn -[Z.land cidr_mask].
  rewrite Z.eqb_eq, (land_cidr_mask (net_ip n)), (land_cidr_mask u) by done.
  unfold net_size. set (p := 2 ^ (32 - net_ones n)) in *.
  assert (0 < p) by (apply Z.pow_pos_nonneg; lia).
  pose proof (Z.div_mod (net_ip n) p ltac:(lia)) as Hn.
  pose proof (Z.div_mod u p ltac:(lia)) as Hd.
  pose proof (Z.mod_pos_bound u p ltac:(lia)). rewrite Hm in Hn.
  generalize dependent (u mod p). generalize dependent (u / p).
  generalize dependent (net_ip n / p). intros a Ha b r Hub Hr. split; [lia|].
  intros Hle. assert (a = b) as ->; [|done].
  assert (a < b + 1) by (apply (Z.mul_lt_mono_pos_l p); lia).
  assert (b < a + 1) by (apply (Z.mul_lt_mono_pos_l p); lia). lia.
Qed.

Lemma mask_wf u ones :
  0 <= ones <= 32 -> is_u32 u ->
  net4_wf {| net_v4 := true; net_ip := Z.land u (cidr_mask ones 32); net_ones := ones |}.
Proof.
  intros Ho Hu. unfold net4_wf; cbn -[Z.land cidr_mask Z.pow].
  rewrite land_cidr_mask by done. set (p := 2 ^ (32 - ones)).
  assert (0 < p) by (apply Z.pow_pos_nonneg; lia).
  repeat split; try lia.
  - apply Z.mul_nonneg_nonneg; [apply Z.div_pos; [apply Hu|lia]|lia].
  - eapply Z.le_lt_trans; [|apply Hu]. rewrite Z.mul_comm. apply Z.mul_div_le. lia.
  - apply Z.mod_mul. lia.
Qed.

Lemma dtoi_nonneg s n i r : 0 <= n -> dtoi s n i = Some r -> 0 <= r.1.1.
Proof.
  revert n i; induction s as [|c s IH]; intros n i Hn; simpl.
  - case_match; [done|]. by intros [= <-].
  - case_match eqn:Hd; [|case_match; [done|]; by intros [= <-]].
    case_match; [done|]. apply IH.
    unfold is_digit, digit_val in *. apply andb_prop in Hd as [?%Z.leb_le ?%Z.leb_le]. lia.
Qed.

Lemma parseIPv4Fields_spec s prev val dl fs bs :
  0 <= val < 256 -> (length fs <= 3)%nat -> Forall (fun b => 0 <= b < 256) fs ->
  parseIPv4Fields s prev val dl fs = Some bs ->
  length bs = 4%nat /\ Forall (fun b => 0 <= b < 256) bs.
Proof.
  revert prev val dl fs; induction s as [|c s IH]; intros prev val dl fs Hv Hl Hf; simpl.
  - case_match eqn:E; [done|]. intros [= <-]. apply Nat.ltb_ge in E.
    rewrite length_app, Forall_app. simpl. split; [lia|]. auto.
  - destruct (is_digit c) eqn:Hd.
    + case_match; [done|]. case_match eqn:E; [done|]. apply Z.ltb_ge in E.
      apply IH; [|done..]. unfold is_digit, digit_val in *.
      apply andb_prop in Hd as [?%Z.leb_le ?%Z.leb_le]. lia.
    + case_decide; [|done]. destruct prev; [|done]. destruct s as [|c' s']; [done|].
      case_decide; [done|]. case_match eqn:E; [done|]. apply Nat.eqb_neq in E.
      apply IH; [lia|rewrite length_app; simpl; lia|]. rewrite Forall_app. auto.
Qed.

Lemma parseIPv4_range s u : parseIPv4 s = Some u -> is_u32 u.
Proof.
  unfold parseIPv4. case_match eqn:E; [|done]. intros [= <-].
  apply parseIPv4Fields_spec in E as [Hl Hf]; [|simpl; lia..|constructor].
  destruct l as [|a [|b [|c [|d [|]]]]]; simpl in Hl; try lia.
  rewrite !Forall_cons in Hf. destruct Hf as (? & ? & ? & ? & _).
  unfold is_u32, be_combine. cbn -[Z.mul Z.pow]. lia.
Qed.

(** A parsed IPv4 network is well formed. *)
Lemma ParseCIDR_wf s n : ParseCIDR s = Some n -> net_v4 n = true -> net4_wf n.
Proof.
  unfold ParseCIDR. destruct (str_cut _ s) as [[a m]|]; [|done].
  destruct (ParseAddr a) as [ad|] eqn:Ha; [|done].
  destruct (dtoi m 0 0) as [[[k i] [|]]|] eqn:Hk; [|done..].
  apply dtoi_nonneg in Hk as Hk0; [|lia]. cbn in Hk0.
  case_match eqn:E; [done|]. intros [= <-]. apply Z.ltb_ge in E.
  destruct ad as [u|u]; [|done]. intros _. apply mask_wf; [lia|].
  unfold ParseAddr in Ha. destruct (family a) as [[]|]; [| by destruct (parseIPv6 a) |done].
  destruct (parseIPv4 a) eqn:Hp; [|done]. injection Ha as ->. by eapply parseIPv4_range.
Qed.

(** ** The IPv4 view of a network

    An IPv4-mapped CIDR such as [::ffff:10.0.0.0/120] has a 16-byte mask but
    the allocators read it through [To4]; this is the IPv4 network they see. *)

Definition host_bits (n : IPNet) : Z := net_bits n - net_ones n.

Definition net4_view (n : IPNet) (b : Z) : IPNet :=
  {| net_v4 := true; net_ip := b; net_ones := 32 - host_bits n |}.

Lemma cidr_mask_testbit ones bits i :
  0 <= ones <= bits -> 0 <= i ->
  Z.testbit (cidr_mask ones bits) i = (bits - ones <=? i) && (i <? bits).
Proof.
  intros Ho Hi. unfold cidr_mask. rewrite Z.shiftl_spec by done.
  destruct (Z.leb_spec (bits - ones) i).
  - destruct (Z.ltb_spec i bits).
    + by rewrite Z.ones_spec_low by lia.
    + by rewrite Z.ones_spec_high by lia.
  - by rewrite Z.testbit_neg_r by lia.
Qed.

Lemma cidr_mask_low ones h :
  0 <= h <= 32 -> ones = 128 - h -> cidr_mask ones 128 mod 2 ^ 32 = cidr_mask (32 - h) 32.
Proof.
  intros Hh ->. rewrite <- Z.land_ones by lia. apply Z.bits_inj'. intros i Hi.
  rewrite Z.land_spec, !cidr_mask_testbit, Z.testbit_ones by lia.
  apply eq_true_iff_eq. rewrite !andb_true_iff, !Z.leb_le, !Z.ltb_lt. lia.
Qed.

Lemma land_mask_aligned u ones bits :
  0 <= ones <= bits -> Z.land u (cidr_mask ones bits) mod 2 ^ (bits - ones) = 0.
Proof.
  intros Ho. rewrite <- Z.land_ones, <- Z.land_assoc by lia.
  assert (Z.land (cidr_mask ones bits) (Z.ones (bits - ones)) = 0) as ->; [|apply Z.land_0_r].
  apply Z.bits_inj'. intros i Hi. rewrite Z.land_spec, cidr_mask_testbit, Z.testbit_ones, Z.bits_0 by lia.
  destruct (Z.leb_spec (bits - ones) i), (Z.ltb_spec i (bits - ones)); try lia; by rewrite ?andb_false_r.
Qed.

Lemma ParseCIDR_ones s n : ParseCIDR s = Some n -> 0 <= net_ones n <= net_bits n.
Proof.
  unfold ParseCIDR. destruct (str_cut _ s) as [[a m]|]; [|done].
  destruct (ParseAddr a) as [ad|]; [|done].
  destruct (dtoi m 0 0) as [[[k i] [|]]|] eqn:Hk; [|done..].
  apply dtoi_nonneg in Hk as Hk0; [|lia]. cbn in Hk0.
  case_match eqn:E; [done|]. intros [= <-]. apply Z.ltb_ge in E. by destruct ad.
Qed.

Lemma ParseCIDR_v6 s n :
  ParseCIDR s = Some n -> net_v4 n = false -> exists u, net_ip n = Z.land u (cidr_mask (net_ones n) 128).
Proof.
  unfold ParseCIDR. destruct (str_cut _ s) as [[a m]|]; [|done].
  destruct (ParseAddr a) as [ad|]; [|done].
  destruct (dtoi m 0 0) as [[[k i] [|]]|]; [|done..].
  case_match; [done|]. intros [= <-]. destruct ad; [done|]. cbn -[Z.land cidr_mask]. eauto.
Qed.

Lemma net4_view_wf s n b :
  ParseCIDR s = Some n -> net_to4 n = Some b -> host_bits n <= 32 -> net4_wf (net4_view n b).
Proof.
  intros Hp Ht Hh. pose proof (ParseCIDR_ones _ _ Hp) as Ho. unfold net_to4 in Ht.
  destruct (net_v4 n) eqn:Hv.
  - injection Ht as <-. destruct (ParseCIDR_wf _ _ Hp Hv) as (_ & ? & ? & ?).
    unfold net4_wf, net4_view, host_bits, net_bits in *. rewrite Hv in *. cbn -[Z.pow Z.modulo].
    replace (32 - (32 - (32 - net_ones n))) with (32 - net_ones n) by lia.
    split; [done|]. split; [lia|]. auto.
  - unfold To4 in Ht. case_match; [|done]. injection Ht as <-.
    destruct (ParseCIDR_v6 _ _ Hp Hv) as [u Hu].
    unfold net4_wf, net4_view, host_bits, net_bits in *. rewrite Hv in *. cbn -[Z.pow Z.modulo].
    replace (32 - (32 - (128 - net_ones n))) with (128 - net_ones n) by lia.
    split; [done|]. split; [lia|]. split; [apply Z.mod_pos_bound; lia|].
    rewrite Z.mod_mod_divide, Hu; [apply land_mask_aligned; lia|].
    exists (2 ^ (32 - (128 - net_ones n))). rewrite <- Z.pow_add_r by lia. f_equal. lia.
Qed.

Lemma Contains_view s n b ip :
  ParseCIDR s = Some n -> net_to4 n = Some b -> host_bits n <= 32 ->
  Contains n ip = Contains (net4_view n b) ip.
Proof.
  intros Hp Ht Hh. pose proof (ParseCIDR_ones _ _ Hp) as Ho. unfold net_to4 in Ht.
  unfold Contains, network_and_mask, net4_view, host_bits, net_bits in *.
  destruct (net_v4 n) eqn:Hv; cbn -[Z.land cidr_mask].
  - injection Ht as <-. by replace (32 - (32 - net_ones n)) with (net_ones n) by lia.
  - rewrite Ht. rewrite (cidr_mask_low _ (128 - net_ones n)) by lia. done.
Qed.

(** [(&net.ParseError{Type: "CIDR address", Text: s}).Error()], the error of
    [net.ParseCIDR]. *)
Definition parse_cidr_error (s : string) : string := ("invalid CIDR address: " +:+ s)%string.

(** ** [canonicalIP]: the text two spellings of one address share *)

Definition canonicalIP (value : string) : string :=
  match ParseIP value with
  | Some ip => IP_String ip
  | None => value
  end.

Lemma canonicalIP_ipv4_string u : is_u32 u -> canonicalIP (ipv4_string u) = ipv4_string u.
Proof. intros Hu. unfold canonicalIP. by rewrite ParseIP_ipv4_string, IP_String_v4. Qed.
