(* ===== verification/GoSha.v ===== *)
(** * SHA-256 ([crypto/sha256]) and lower-case hexadecimal text

    The FIPS 180-4 function on byte strings, on 32-bit words kept as integers,
    and [hex.EncodeToString] / [fmt.Sprintf("%x", sum)]. *)

From stdpp Require Import base strings list.
From Stdlib Require Import ZArith Lia Ascii.
From S2P Require Import Prelude GoLib.

Local Open Scope Z_scope.

Definition w32 (x : Z) : Z := Z.land x 4294967295.
Definition add32 (x y : Z) : Z := w32 (x + y).
Definition rotr (n x : Z) : Z := Z.lor (Z.shiftr x n) (w32 (Z.shiftl x (32 - n))).
Definition not32 (x : Z) : Z := 4294967295 - x.

Definition Ch (x y z : Z) : Z := Z.lxor (Z.land x y) (Z.land (not32 x) z).
Definition Maj (x y z : Z) : Z := Z.lxor (Z.lxor (Z.land x y) (Z.land x z)) (Z.land y z).
Definition bsig0 (x : Z) : Z := Z.lxor (Z.lxor (rotr 2 x) (rotr 13 x)) (rotr 22 x).
Definition bsig1 (x : Z) : Z := Z.lxor (Z.lxor (rotr 6 x) (rotr 11 x)) (rotr 25 x).
Definition ssig0 (x : Z) : Z := Z.lxor (Z.lxor (rotr 7 x) (rotr 18 x)) (Z.shiftr x 3).
Definition ssig1 (x : Z) : Z := Z.lxor (Z.lxor (rotr 17 x) (rotr 19 x)) (Z.shiftr x 10).

Definition K256 : list Z :=
  [1116352408; 1899447441; 3049323471; 3921009573; 961987163; 1508970993; 2453635748; 2870763221;
   3624381080; 310598401; 607225278; 1426881987; 1925078388; 2162078206; 2614888103; 3248222580;
   3835390401; 4022224774; 264347078; 604807628; 770255983; 1249150122; 1555081692; 1996064986;
   2554220882; 2821834349; 2952996808; 3210313671; 3336571891; 3584528711; 113926993; 338241895;
   666307205; 773529912; 1294757372; 1396182291; 1695183700; 1986661051; 2177026350; 2456956037;
   2730485921; 2820302411; 3259730800; 3345764771; 3516065817; 3600352804; 4094571909; 275423344;
   430227734; 506948616; 659060556; 883997877; 958139571; 1322822218; 1537002063; 1747873779;
   1955562222; 2024104815; 2227730452; 2361852424; 2428436474; 2756734187; 3204031479; 3329325298].

Definition H256 : list Z :=
  [1779033703; 3144134277; 1013904242; 2773480762; 1359893119; 2600822924; 528734635; 1541459225].

(** Padding: 0x80, zeros, and the bit length in eight big-endian bytes. *)
Fixpoint be_bytes (k : nat) (v : Z) : list Z :=
  match k with O => [] | S k' => (v / 2 ^ (8 * Z.of_nat k')) mod 256 :: be_bytes k' v end.

Definition pad (msg : list Z) : list Z :=
  let l := Z.of_nat (length msg) in
  let zeros := (55 - l) mod 64 in
  msg ++ [128] ++ replicate (Z.to_nat zeros) 0 ++ be_bytes 8 (8 * l).

Fixpoint words (bs : list Z) : list Z :=
  match bs with
  | a :: b :: c :: d :: rest => (((a * 256 + b) * 256 + c) * 256 + d) :: words rest
  | _ => []
  end.

(** Message schedule; the list is kept most recent word first. *)
Fixpoint extend (n : nat) (rev_w : list Z) : list Z :=
  match n with
  | O => rev_w
  | S k =>
      let g i := nth i rev_w 0 in
      let w := add32 (add32 (ssig1 (g 1%nat)) (g 6%nat)) (add32 (ssig0 (g 14%nat)) (g 15%nat)) in
      extend k (w :: rev_w)
  end.

Record hstate := { ha : Z; hb : Z; hc : Z; hd : Z; he : Z; hf : Z; hg : Z; hh : Z }.

Definition round (s : hstate) (kw : Z * Z) : hstate :=
  let t1 := add32 (add32 (hh s) (bsig1 (he s))) (add32 (Ch (he s) (hf s) (hg s)) (add32 kw.1 kw.2)) in
  let t2 := add32 (bsig0 (ha s)) (Maj (ha s) (hb s) (hc s)) in
  {| ha := add32 t1 t2; hb := ha s; hc := hb s; hd := hc s;
     he := add32 (hd s) t1; hf := he s; hg := hf s; hh := hg s |}.

Definition h_of (l : list Z) : hstate :=
  let g i := nth i l 0 in
  {| ha := g 0%nat; hb := g 1%nat; hc := g 2%nat; hd := g 3%nat;
     he := g 4%nat; hf := g 5%nat; hg := g 6%nat; hh := g 7%nat |}.
Definition h_list (s : hstate) : list Z := [ha s; hb s; hc s; hd s; he s; hf s; hg s; hh s].

Definition compress (h : list Z) (block : list Z) : list Z :=
  let ws := reverse (extend 48 (reverse block)) in
  let s := foldl round (h_of h) (zip K256 ws) in
  zip_with add32 h (h_list s).

Fixpoint blocks (fuel : nat) (ws : list Z) (h : list Z) : list Z :=
  match fuel with
  | O => h
  | S k => match ws with
           | [] => h
           | _ => blocks k (drop 16 ws) (compress h (take 16 ws))
           end
  end.

(** [sha256.Sum256], as 32 bytes. *)
Definition sha256_sum (msg : list Z) : list Z :=
  let ws := words (pad msg) in
  concat (be_bytes 4 <$> blocks (S (length ws)) ws H256).

Definition hex_byte (b : Z) : string := String (digit_of (b / 16)) (String (digit_of (b mod 16)) "").
Definition hex_encode (bs : list Z) : string := foldr (fun b s => hex_byte b +:+ s)%string ""%string bs.

(** [hex.EncodeToString(sha256.Sum256([]byte(s)))] *)
Definition sha256_hex (s : string) : string := hex_encode (sha256_sum (bytes_of s)).

Example sha256_empty : sha256_hex "" = "e3b0c44298fc1c149afbf4c8996fb92427ae41e4649b934ca495991b7852b855".
Proof. vm_compute. reflexivity. Qed.
Example sha256_abc : sha256_hex "abc" = "ba7816bf8f01cfea414140de5dae2223b00361a396177a9cb410ff61f20015ad".
Proof. vm_compute. reflexivity. Qed.
Example sha256_two_blocks :
  sha256_hex "abcdbcdecdefdefgefghfghighijhijkijkljklmklmnlmnomnopnopq"
  = "248d6a61d20638b8e5c026930c3e6039a33ce45964ff2167f6ecedd419db06c1".
Proof. vm_compute. reflexivity. Qed.

Lemma length_be_bytes k v : length (be_bytes k v) = k.
Proof. induction k; simpl; auto. Qed.

Lemma length_blocks fuel ws h : length h = 8%nat -> length (blocks fuel ws h) = 8%nat.
Proof.
  revert ws h; induction fuel as [|k IH]; intros ws h Hh; simpl; [done|].
  destruct ws; [done|]. apply IH. unfold compress. rewrite length_zip_with, Hh. done.
Qed.

(** The digest has 32 bytes, so its hexadecimal text 64 characters. *)
Lemma length_sha256_sum msg : length (sha256_sum msg) = 32%nat.
Proof.
  unfold sha256_sum. set (l := blocks _ _ _).
  assert (length l = 8%nat) as Hl by (apply length_blocks; done).
  do 8 (destruct l as [|? l]; [simpl in Hl; lia|]).
  destruct l; [|simpl in Hl; lia]. done.
Qed.

Lemma length_hex_encode bs : String.length (hex_encode bs) = (2 * length bs)%nat.
Proof.
  induction bs as [|b bs IH]; [done|].
  change (hex_encode (b :: bs)) with (hex_byte b +:+ hex_encode bs)%string.
  rewrite length_append, IH. simpl. lia.
Qed.

Lemma length_sha256_hex s : String.length (sha256_hex s) = 64%nat.
Proof. unfold sha256_hex. by rewrite length_hex_encode, length_sha256_sum. Qed.

(** These two inputs are different and have one digest. *)
Definition collides (x y : string) : Prop := x <> y /\ sha256_hex x = sha256_hex y.

Lemma hex_collides x y : sha256_hex x = sha256_hex y -> x = y \/ collides x y.
Proof. intros H. destruct (decide (x = y)); [by left|by right]. Qed.
Lemma sum_collides x y : sha256_sum (bytes_of x) = sha256_sum (bytes_of y) -> x = y \/ collides x y.
Proof. intros H. apply hex_collides. unfold sha256_hex. by rewrite H. Qed.
