(* ===== verification/Model.v ===== *)
(** * Topology data model ([internal/model/topology.go])

    One record per Go struct, one field per field, in the struct's order.  A
    field [F] of struct [S] is [S_F].  Go's [nil] slice and the empty slice are
    both [[]]; a pointer field is an [option].  Integers are Go [int]s kept as
    [Z]. *)

From stdpp Require Import base strings list sets.
From Stdlib Require Import ZArith.
From S2P Require Import Prelude GoLib.

Definition CurrentAllocSchemaVersion : Z := 1.

Record Project := mkProject {
  Project_ID : string; Project_Name : string; Project_Description : string; Project_Version : string }.

Record Domain := mkDomain {
  Domain_ID : string;
  Domain_Name : string;
  Domain_CIDR : string;
  Domain_Description : string;
  Domain_AllocationMode : string;
  Domain_RoutingMode : string;
  Domain_ReservedRanges : list string;
  Domain_TransitCIDR : string }.

Record TelemetryDevicePolicy := mkTelemetryDevicePolicy { TelemetryDevicePolicy_Mode : string }.

Record TelemetryProbe := mkTelemetryProbe {
  TelemetryProbe_ID : string;
  TelemetryProbe_Name : string;
  TelemetryProbe_Type : string;
  TelemetryProbe_Host : string;
  TelemetryProbe_Port : Z;
  TelemetryProbe_URL : string;
  TelemetryProbe_ExpectedStatus : Z;
  TelemetryProbe_IntervalSeconds : Z;
  TelemetryProbe_TimeoutMilliseconds : Z }.

Record PublicEndpoint := mkPublicEndpoint {
  PublicEndpoint_ID : string;
  PublicEndpoint_Host : string;
  PublicEndpoint_Port : Z;
  PublicEndpoint_Note : string }.

Record NodeCapabilities := mkNodeCapabilities {
  CanAcceptInbound : bool; CanForward : bool; CanRelay : bool; HasPublicIP : bool }.

Record Node := mkNode {
  Node_ID : string;
  Node_Name : string;
  Node_Hostname : string;
  Node_Platform : string;
  Node_Role : string;
  Node_DeploymentMode : string;
  Node_DomainID : string;
  Node_OverlayIP : string;
  Node_MTU : Z;
  Node_XDPMode : string;
  Node_MimicEgressInterface : string;
  Node_RouterID : string;
  Node_Capabilities : NodeCapabilities;
  Node_FixedPrivateKey : bool;
  Node_WireGuardPrivateKey : string;
  Node_WireGuardPublicKey : string;
  Node_PublicEndpoints : list PublicEndpoint;
  Node_ExtraPrefixes : list string;
  Node_SSHAlias : string;
  Node_SSHHost : string;
  Node_SSHPort : Z;
  Node_SSHUser : string;
  Node_SSHKeyPath : string;
  Node_TelemetryProbes : list TelemetryProbe;
  Node_TelemetryDevices : option TelemetryDevicePolicy }.

Definition DeploymentManual : string := "manual".

(** [Node.IsManual] *)
Definition IsManual (n : Node) : bool := String.eqb (Node_DeploymentMode n) DeploymentManual.

Definition EdgeRolePrimary : string := "primary".
Definition EdgeRoleBackup : string := "backup".
Definition EdgeLinkDirectionBoth : string := "both".
Definition EdgeLinkDirectionForward : string := "forward".

Record Edge := mkEdge {
  Edge_ID : string;
  Edge_FromNodeID : string;
  Edge_ToNodeID : string;
  Edge_Type : string;
  Edge_EndpointHost : string;
  Edge_EndpointPort : Z;
  Edge_CompiledPort : Z;
  Edge_Priority : Z;
  Edge_Weight : Z;
  Edge_Role : string;
  Edge_Transport : string;
  Edge_MimicFallback : string;
  Edge_LinkDirection : string;
  Edge_IsEnabled : bool;
  Edge_Notes : string;
  Edge_PinnedFromPort : Z;
  Edge_PinnedToPort : Z;
  Edge_PinnedFromTransitIP : string;
  Edge_PinnedToTransitIP : string;
  Edge_PinnedFromLinkLocal : string;
  Edge_PinnedToLinkLocal : string }.

Record RoutePolicy := mkRoutePolicy {
  RoutePolicy_ID : string;
  RoutePolicy_DomainID : string;
  RoutePolicy_DestinationCIDR : string;
  RoutePolicy_NextHopNodeID : string;
  RoutePolicy_Metric : Z;
  RoutePolicy_Notes : string;
  RoutePolicy_SourceSelector : string;
  RoutePolicy_Action : string;
  RoutePolicy_ApplyToNodeID : string }.

Record Topology := mkTopology {
  Topology_Project : Project;
  Topology_Domains : list Domain;
  Topology_Nodes : list Node;
  Topology_Edges : list Edge;
  Topology_RoutePolicies : list RoutePolicy;
  Topology_AllocSchemaVersion : Z }.

(** ** Field assignment [x.F = v], for the fields the program assigns *)

Definition set_OverlayIP (ip : string) (n : Node) : Node :=
  match n with
  | mkNode a b c d e f g _ i j k l m o p q r s t u v w x y z =>
      mkNode a b c d e f g ip i j k l m o p q r s t u v w x y z
  end.

Definition set_Capabilities (cs : NodeCapabilities) (n : Node) : Node :=
  match n with
  | mkNode a b c d e f g h i j k l _ o p q r s t u v w x y z =>
      mkNode a b c d e f g h i j k l cs o p q r s t u v w x y z
  end.

(** The allocation pins of an edge: ports, transit addresses, link-locals, each
    for the from and the to side. *)
Record pins := mkPins {
  pin_from_port : Z; pin_to_port : Z;
  pin_from_transit : string; pin_to_transit : string;
  pin_from_ll : string; pin_to_ll : string }.

Definition pins_of (e : Edge) : pins :=
  mkPins (Edge_PinnedFromPort e) (Edge_PinnedToPort e)
         (Edge_PinnedFromTransitIP e) (Edge_PinnedToTransitIP e)
         (Edge_PinnedFromLinkLocal e) (Edge_PinnedToLinkLocal e).

Definition set_pins (p : pins) (e : Edge) : Edge :=
  match e with
  | mkEdge a b c d f g h i j k l m n o q _ _ _ _ _ _ =>
      mkEdge a b c d f g h i j k l m n o q
             (pin_from_port p) (pin_to_port p) (pin_from_transit p) (pin_to_transit p)
             (pin_from_ll p) (pin_to_ll p)
  end.

Definition set_CompiledPort (cp : Z) (e : Edge) : Edge :=
  match e with
  | mkEdge a b c d f g _ i j k l m n o q r s t u v w =>
      mkEdge a b c d f g cp i j k l m n o q r s t u v w
  end.

Definition set_PinnedFromPort (v : Z) (e : Edge) : Edge :=
  let p := pins_of e in
  set_pins (mkPins v (pin_to_port p) (pin_from_transit p) (pin_to_transit p) (pin_from_ll p) (pin_to_ll p)) e.
Definition set_PinnedToPort (v : Z) (e : Edge) : Edge :=
  let p := pins_of e in
  set_pins (mkPins (pin_from_port p) v (pin_from_transit p) (pin_to_transit p) (pin_from_ll p) (pin_to_ll p)) e.

(** Everything of an edge that no allocation step assigns. *)
Definition edge_ident (e : Edge) : Edge := set_CompiledPort 0 (set_pins (mkPins 0 0 "" "" "" "") e).

Lemma edge_ident_set_pins p e : edge_ident (set_pins p e) = edge_ident e.
Proof. by destruct e. Qed.
Lemma edge_ident_set_CompiledPort v e : edge_ident (set_CompiledPort v e) = edge_ident e.
Proof. by destruct e. Qed.
Lemma pins_of_set_pins p e : pins_of (set_pins p e) = p.
Proof. by destruct e, p. Qed.
Lemma pins_of_set_CompiledPort v e : pins_of (set_CompiledPort v e) = pins_of e.
Proof. by destruct e. Qed.
Lemma set_pins_pins_of e : set_pins (pins_of e) e = e.
Proof. by destruct e. Qed.

#[export] Hint Rewrite edge_ident_set_pins edge_ident_set_CompiledPort pins_of_set_pins
  pins_of_set_CompiledPort set_pins_pins_of : yaog.

(** ** Lookup by ID

    The program indexes with [m[xs[i].ID] = &xs[i]] over a slice: a repeated ID
    resolves to the last element carrying it. *)
Definition find_last {A} (key : A -> string) (k : string) (xs : list A) : option A :=
  foldl (fun acc x => if String.eqb (key x) k then Some x else acc) None xs.

Lemma find_last_app {A} (key : A -> string) k (xs ys : list A) :
  find_last key k (xs ++ ys) =
  match find_last key k ys with Some y => Some y | None => find_last key k xs end.
Proof.
  unfold find_last. rewrite foldl_app. generalize (foldl (fun acc x => if String.eqb (key x) k then Some x else acc) None xs).
  induction ys as [|y ys IH] using rev_ind; intros o; [done|].
  rewrite !foldl_app. simpl. destruct (String.eqb (key y) k); [done|]. apply IH.
Qed.

Lemma find_last_Some {A} (key : A -> string) k (xs : list A) x :
  find_last key k xs = Some x -> x ∈ xs /\ key x = k.
Proof.
  induction xs as [|y xs IH] using rev_ind; [done|].
  rewrite find_last_app. cbn. destruct (String.eqb_spec (key y) k) as [E|E].
  - intros [= ->]. split; [set_solver|done].
  - intros [? ?]%IH. split; [set_solver|done].
Qed.

Lemma find_last_None {A} (key : A -> string) k (xs : list A) :
  find_last key k xs = None <-> forall x, x ∈ xs -> key x <> k.
Proof.
  induction xs as [|y xs IH] using rev_ind; [cbn; set_solver|].
  rewrite find_last_app. cbn. destruct (String.eqb_spec (key y) k) as [E|E]; split; try done.
  - intros H. exfalso. apply (H y); [set_solver|done].
  - intros H x Hx. apply elem_of_app in Hx as [Hx|Hx].
    + by apply IH.
    + by apply list_elem_of_singleton in Hx as ->.
  - intros H. apply IH. intros x Hx. apply H. set_solver.
Qed.

Lemma find_last_unique {A} (key : A -> string) (xs : list A) x :
  NoDup (key <$> xs) -> x ∈ xs -> find_last key (key x) xs = Some x.
Proof.
  intros Hnd Hx. destruct (find_last key (key x) xs) as [y|] eqn:E.
  - apply find_last_Some in E as [Hy Hk]. f_equal.
    by apply (NoDup_fmap_inj_on key xs y x).
  - exfalso. by eapply find_last_None in E.
Qed.

(** Related lists resolve an ID to related elements. *)
Lemma find_last_Forall2 {A B} (keyA : A -> string) (keyB : B -> string) (R : A -> B -> Prop) k xs ys :
  (forall x y, R x y -> keyA x = keyB y) -> Forall2 R xs ys ->
  option_Forall2 R (find_last keyA k xs) (find_last keyB k ys).
Proof.
  intros Hk. induction 1 as [|x y xs ys Hxy _ IH]; [constructor|].
  change (x :: xs) with ([x] ++ xs). change (y :: ys) with ([y] ++ ys). rewrite !find_last_app.
  destruct IH as [x' y' Hr|]; [by constructor|]. cbn. rewrite (Hk x y Hxy).
  destruct (String.eqb (keyB y) k); by constructor.
Qed.

(** [nodeMap] and [domainMap] *)
Definition nodeMap (topo : Topology) (id : string) : option Node :=
  find_last Node_ID id (Topology_Nodes topo).
Definition domainMap (topo : Topology) (id : string) : option Domain :=
  find_last Domain_ID id (Topology_Domains topo).

(** ** Building concrete topologies (used by the examples) *)

Definition ex_caps (inbound pub : bool) : NodeCapabilities := mkNodeCapabilities inbound false false pub.

Definition ex_node (id role domain ip : string) (caps : NodeCapabilities) : Node :=
  mkNode id id "" "debian" role "" domain ip 0 "" "" "" caps false "" "" [] [] "" "" 0 "" "" [] None.

Definition ex_edge (id from to host role : string) (p : pins) : Edge :=
  mkEdge id from to "direct" host 0 0 0 0 role "udp" "" "" true ""
    (pin_from_port p) (pin_to_port p) (pin_from_transit p) (pin_to_transit p) (pin_from_ll p) (pin_to_ll p).

Definition no_pins : pins := mkPins 0 0 "" "" "" "".

Definition ex_topology (ds : list Domain) (ns : list Node) (es : list Edge) : Topology :=
  mkTopology (mkProject "p" "p" "" "") ds ns es [] 0.
