(* ===== verification/LinkID.v ===== *)
(** * Link identity ([internal/linkid]) and portable names ([internal/naming])

    [PinKey]/[LinkKey]/[IsBackup] decide which edges are one link; the naming
    functions map a node name to a WireGuard interface name and decide which
    node IDs are portable directory names. *)

From stdpp Require Import base strings list sets.
From Stdlib Require Import ZArith Lia Ascii.
From S2P Require Import Prelude GoLib GoSha Model.

(** ** linkid *)

Definition PinKey (a b : string) : string :=
  if String.leb a b then (a +:+ "|" +:+ b)%string else (b +:+ "|" +:+ a)%string.

Definition IsBackup (e : Edge) : bool := String.eqb (Edge_Role e) EdgeRoleBackup.

Definition LinkKey (e : Edge) : string :=
  let pair := PinKey (Edge_FromNodeID e) (Edge_ToNodeID e) in
  if negb (String.eqb (Edge_Role e) EdgeRoleBackup) then pair
  else (pair +:+ "#" +:+ Edge_ID e)%string.

(** ** naming *)

Local Open Scope Z_scope.

Definition MaxPortableNodeIDLength : nat := 240.

(** [strings.ToLower] on an ASCII byte. *)
Definition lower_byte (c : ascii) : ascii :=
  if is_upper c then byte_of (byte_val c + 32) else c.

(** [PortableNodeIDKey] on an ASCII identifier. *)
Fixpoint PortableNodeIDKey (id : string) : string :=
  match id with
  | EmptyString => EmptyString
  | String c s => String (lower_byte c) (PortableNodeIDKey s)
  end.

(** The charset of a portable ID; a byte of a multi-byte rune is outside it. *)
Definition portable_byte (c : ascii) : bool :=
  is_lower c || is_upper c || is_digit c ||
  bool_decide (c = "."%char) || bool_decide (c = "_"%char) || bool_decide (c = "-"%char).

Fixpoint str_forall (p : ascii -> bool) (s : string) : bool :=
  match s with EmptyString => true | String c s' => p c && str_forall p s' end.

Definition ValidPortableNodeID (id : string) : bool :=
  if String.eqb id "" || String.eqb id "." || String.eqb id ".." ||
     (MaxPortableNodeIDLength <? String.length id)%nat || has_suffix "." id then false
  else if negb (str_forall portable_byte id) then false
  else
    let folded := PortableNodeIDKey id in
    if String.eqb folded "deploy-all.sh" || String.eqb folded "deploy-all.ps1" then false
    else
      let base := match str_cut "."%char folded with Some (b, _) => b | None => folded end in
      if String.eqb base "con" || String.eqb base "prn" || String.eqb base "aux" || String.eqb base "nul" then false
      else if (String.length base =? 4)%nat && (has_prefix "com" base || has_prefix "lpt" base) &&
              match String.get 3 base with
              | Some c => (49 <=? byte_val c) && (byte_val c <=? 57)
              | None => false
              end
           then false
           else true.

(** One rune through [cleanInterfaceName]: lower-cased, then kept when it is in
    [a-z0-9-] and a hyphen otherwise.  U+212A and U+0130 are the two runes
    outside ASCII whose lower case is an ASCII letter. *)
Definition clean_rune (r : Z) : Z :=
  let l := if (65 <=? r) && (r <=? 90) then r + 32
           else if r =? 8490 then 107 else if r =? 304 then 105 else r in
  if ((97 <=? l) && (l <=? 122)) || ((48 <=? l) && (l <=? 57)) || (l =? 45) then l else 45.

Definition cleanInterfaceName (remoteName : string) : string :=
  string_of_bytes (clean_rune <$> runes remoteName).

Definition WgInterfaceName (remoteName : string) : string :=
  let clean := cleanInterfaceName remoteName in
  let name := ("wg-" +:+ clean)%string in
  if (String.length name <=? 15)%nat then name
  else
    let hash := sha256_hex remoteName in
    let remainForClean := Nat.min (15 - 3 - 4) (String.length clean) in
    ("wg-" +:+ str_take remainForClean clean +:+ str_take 4 hash)%string.

Definition WgInterfaceNameForEdge (remoteName edgeID : string) (backup : bool) : string :=
  if negb backup then WgInterfaceName remoteName
  else
    let clean := cleanInterfaceName remoteName in
    let hash := sha256_hex (remoteName +:+ "|" +:+ edgeID)%string in
    let remainForClean := Nat.min (15 - 3 - 4) (String.length clean) in
    ("wg-" +:+ str_take remainForClean clean +:+ str_take 4 hash)%string.

(** ** Properties of link identity *)

(** Identifiers free of the two separators; portable IDs are. *)
Definition sep_free (s : string) : Prop := has_byte "|"%char s = false /\ has_byte "#"%char s = false.

Lemma portable_byte_not_sep c : portable_byte c = true -> c <> "|"%char /\ c <> "#"%char.
Proof. intros Hc. split; intros ->; discriminate Hc. Qed.

Lemma str_forall_portable_sep_free s : str_forall portable_byte s = true -> sep_free s.
Proof.
  unfold sep_free. induction s as [|c s IH]; simpl; [done|].
  intros [Hc Hs]%andb_prop. apply portable_byte_not_sep in Hc as [H1 H2].
  rewrite !decide_False by done. auto.
Qed.

Lemma ValidPortableNodeID_charset id :
  ValidPortableNodeID id = true -> str_forall portable_byte id = true.
Proof.
  unfold ValidPortableNodeID. case_match; [done|]. case_match eqn:E; [done|].
  intros _. by apply negb_false_iff in E.
Qed.

Lemma ValidPortableNodeID_sep_free id : ValidPortableNodeID id = true -> sep_free id.
Proof. intros H. by apply str_forall_portable_sep_free, ValidPortableNodeID_charset. Qed.

Lemma PinKey_comm a b : PinKey a b = PinKey b a.
Proof.
  unfold PinKey. destruct (String.leb a b) eqn:E1, (String.leb b a) eqn:E2; try done.
  - by rewrite (String.leb_antisym a b E1 E2).
  - destruct (String.leb_total a b); congruence.
Qed.

Lemma PinKey_cases a b :
  (PinKey a b = a +:+ String "|" b)%string \/ (PinKey a b = b +:+ String "|" a)%string.
Proof. unfold PinKey. case_match; auto. Qed.

(** A pin key determines the unordered pair of node IDs. *)
Lemma PinKey_inj a b c d :
  has_byte "|"%char a = false -> has_byte "|"%char b = false ->
  has_byte "|"%char c = false -> has_byte "|"%char d = false ->
  PinKey a b = PinKey c d -> (a = c /\ b = d) \/ (a = d /\ b = c).
Proof.
  intros Ha Hb Hc Hd.
  destruct (PinKey_cases a b) as [->| ->], (PinKey_cases c d) as [->| ->];
    intros [? ?]%cut_inj; auto.
Qed.

Lemma PinKey_no_hash a b :
  sep_free a -> sep_free b -> has_byte "#"%char (PinKey a b) = false.
Proof.
  intros [_ Ha] [_ Hb].
  destruct (PinKey_cases a b) as [->| ->]; rewrite has_byte_append; simpl; by rewrite Ha, Hb.
Qed.

Lemma LinkKey_primary e : IsBackup e = false -> LinkKey e = PinKey (Edge_FromNodeID e) (Edge_ToNodeID e).
Proof. unfold LinkKey, IsBackup. by intros ->. Qed.
Lemma LinkKey_backup e :
  IsBackup e = true ->
  LinkKey e = (PinKey (Edge_FromNodeID e) (Edge_ToNodeID e) +:+ String "#" (Edge_ID e))%string.
Proof. unfold LinkKey, IsBackup. by intros ->. Qed.

(** When two edges are the same link: same unordered node pair, and either both
    in the primary class or both the backup of the same edge ID. *)
Definition same_link (e f : Edge) : Prop :=
  ((Edge_FromNodeID e = Edge_FromNodeID f /\ Edge_ToNodeID e = Edge_ToNodeID f) \/
   (Edge_FromNodeID e = Edge_ToNodeID f /\ Edge_ToNodeID e = Edge_FromNodeID f)) /\
  ((IsBackup e = false /\ IsBackup f = false) \/
   (IsBackup e = true /\ IsBackup f = true /\ Edge_ID e = Edge_ID f)).

Definition portable_ends (e : Edge) : Prop :=
  ValidPortableNodeID (Edge_FromNodeID e) = true /\ ValidPortableNodeID (Edge_ToNodeID e) = true.

(** The link key decides link identity: over portable node IDs two edges have
    the same key exactly when they are the same link. *)
Lemma LinkKey_eq_iff e f :
  portable_ends e -> portable_ends f -> LinkKey e = LinkKey f <-> same_link e f.
Proof.
  intros [E1%ValidPortableNodeID_sep_free E2%ValidPortableNodeID_sep_free]
         [F1%ValidPortableNodeID_sep_free F2%ValidPortableNodeID_sep_free].
  pose proof (PinKey_no_hash _ _ E1 E2) as He. pose proof (PinKey_no_hash _ _ F1 F2) as Hf.
  assert (PinKey (Edge_FromNodeID e) (Edge_ToNodeID e) = PinKey (Edge_FromNodeID f) (Edge_ToNodeID f) ->
    (Edge_FromNodeID e = Edge_FromNodeID f /\ Edge_ToNodeID e = Edge_ToNodeID f) \/
    (Edge_FromNodeID e = Edge_ToNodeID f /\ Edge_ToNodeID e = Edge_FromNodeID f)) as Hinj.
  { apply PinKey_inj; [apply E1|apply E2|apply F1|apply F2]. }
  unfold same_link.
  destruct (IsBackup e) eqn:Be, (IsBackup f) eqn:Bf;
    rewrite ?(LinkKey_primary _ Be), ?(LinkKey_primary _ Bf), ?(LinkKey_backup _ Be), ?(LinkKey_backup _ Bf).
  - split.
    + intros [Hk Hid]%cut_inj; [|done..]. split; [auto|]. right. auto.
    + intros [[[-> ->]|[-> ->]] [[? _]|(_ & _ & ->)]]; try done.
      by rewrite PinKey_comm.
  - split; [|by intros [_ [[? _]|(_ & ? & _)]]].
    intros Hk. rewrite <- Hk, has_byte_append in Hf. by rewrite orb_true_r in Hf.
  - split; [|by intros [_ [[_ ?]|(? & _)]]].
    intros Hk. rewrite Hk, has_byte_append in He. by rewrite orb_true_r in He.
  - split; [intros Hk; auto|]. intros [[[-> ->]|[-> ->]] _]; [done|]. by rewrite PinKey_comm.
Qed.

(** ** Interface names fit the kernel's 15-byte limit *)

Lemma length_wg_long clean hash :
  (String.length ("wg-" +:+ str_take (Nat.min (15 - 3 - 4) (String.length clean)) clean +:+ str_take 4 hash) <= 15)%nat.
Proof. rewrite !length_append, !length_str_take. change (String.length "wg-") with 3%nat. lia. Qed.

Lemma length_WgInterfaceNameForEdge name edgeID backup :
  (String.length (WgInterfaceNameForEdge name edgeID backup) <= 15)%nat.
Proof.
  unfold WgInterfaceNameForEdge, WgInterfaceName. destruct backup; cbn [negb].
  - apply length_wg_long.
  - case_match eqn:E; [by apply Nat.leb_le|]. apply length_wg_long.
Qed.

(** Every byte of an interface name is one of [a-z0-9-]. *)
Definition iface_byte (c : ascii) : bool := is_lower c || is_digit c || bool_decide (c = "-"%char).

Lemma is_digit_digit_of v : 0 <= v < 10 -> is_digit (digit_of v) = true.
Proof.
  intros Hv. assert (exists n : nat, v = Z.of_nat n /\ (n < 10)%nat) as (n & -> & Hn) by (exists (Z.to_nat v); lia).
  do 10 (destruct n as [|n]; [reflexivity|]). lia.
Qed.

Lemma fmt_digits_is_digit fuel n acc :
  0 <= n -> str_forall is_digit acc = true -> str_forall is_digit (fmt_digits fuel 10 n acc) = true.
Proof.
  revert n acc. induction fuel as [|fuel IH]; intros n acc Hn Hacc; cbn [fmt_digits]; [done|].
  assert (str_forall is_digit (String (digit_of (n mod 10)) acc) = true) as Hs.
  { cbn [str_forall]. rewrite is_digit_digit_of by (apply Z.mod_pos_bound; lia). done. }
  destruct (_ =? 0); [done|]. apply IH; [apply Z.div_pos; lia|done].
Qed.

Lemma fmt_digits_cons fuel n acc c rest : acc = String c rest -> exists c' rest', fmt_digits fuel 10 n acc = String c' rest'.
Proof. revert n acc c rest. induction fuel as [|fuel IH]; intros n acc c rest ->; cbn [fmt_digits]; [eauto|]. case_match; eauto. Qed.

Lemma itoa10_cons n : 0 <= n -> exists c rest, itoa10 n = String c rest /\ is_digit c = true /\ str_forall is_digit (itoa10 n) = true.
Proof.
  intros Hn. assert (exists c rest, itoa10 n = String c rest) as (c & rest & He).
  { unfold itoa10, digits_fuel. cbn [fmt_digits]. case_match; [eauto|]. by eapply fmt_digits_cons. }
  assert (str_forall is_digit (itoa10 n) = true) as Hd by (by apply fmt_digits_is_digit). exists c, rest. split_and!; [done| |done].
  rewrite He in Hd. cbn [str_forall] in Hd. by apply andb_true_iff in Hd as [? _].
Qed.

Lemma str_forall_append p a b : str_forall p (a +:+ b) = str_forall p a && str_forall p b.
Proof.
  induction a as [|c a IH]; [done|]. rewrite append_cons. simpl. rewrite IH. by destruct (p c).
Qed.

Lemma str_forall_take p n s : str_forall p s = true -> str_forall p (str_take n s) = true.
Proof.
  revert s; induction n as [|n IH]; intros [|c s]; simpl; try done.
  intros [-> Hs]%andb_prop. by apply IH.
Qed.

Lemma clean_rune_cases r :
  let l := clean_rune r in (97 <= l <= 122) \/ (48 <= l <= 57) \/ l = 45.
Proof.
  unfold clean_rune. set (l := if _ && _ then _ else _). cbv zeta.
  destruct (_ || _) eqn:E; [|auto].
  apply orb_prop in E as [E|E%Z.eqb_eq]; [|auto].
  apply orb_prop in E as [E|E]; apply andb_prop in E as [?%Z.leb_le ?%Z.leb_le]; auto.
Qed.

Lemma iface_byte_of l : (97 <= l <= 122) \/ (48 <= l <= 57) \/ l = 45 -> iface_byte (byte_of l) = true.
Proof.
  intros Hl. assert (exists n : nat, l = Z.of_nat n /\ (n < 123)%nat) as (n & -> & Hn).
  { exists (Z.to_nat l). lia. }
  do 123 (destruct n as [|n]; [first [lia | reflexivity]|]). lia.
Qed.

Lemma cleanInterfaceName_bytes s : str_forall iface_byte (cleanInterfaceName s) = true.
Proof.
  unfold cleanInterfaceName. induction (runes s) as [|r rs IH]; [done|].
  cbn -[clean_rune byte_of]. rewrite iface_byte_of by apply clean_rune_cases. exact IH.
Qed.

Lemma hex_digit_iface v : (0 <= v < 16)%Z -> iface_byte (digit_of v) = true.
Proof.
  intros Hv. assert (exists n : nat, v = Z.of_nat n /\ (n < 16)%nat) as (n & -> & Hn).
  { exists (Z.to_nat v). lia. }
  do 16 (destruct n as [|n]; [reflexivity|]). lia.
Qed.

Lemma be_bytes_range k v : Forall (fun b => 0 <= b < 256)%Z (be_bytes k v).
Proof. induction k; simpl; constructor; [apply Z.mod_pos_bound; lia|done]. Qed.

Lemma hex_encode_iface bs : Forall (fun b => 0 <= b < 256)%Z bs -> str_forall iface_byte (hex_encode bs) = true.
Proof.
  induction 1 as [|b bs Hb _ IH]; [done|].
  change (hex_encode (b :: bs)) with (hex_byte b +:+ hex_encode bs)%string.
  rewrite str_forall_append, IH, andb_true_r. cbn -[digit_of Z.div Z.modulo].
  pose proof (Z.mod_pos_bound b 16 ltac:(lia)).
  assert (0 <= b / 16 < 16)%Z by (split; [apply Z.div_pos|apply Z.div_lt_upper_bound]; lia).
  by rewrite !hex_digit_iface by lia.
Qed.

Lemma sha256_hex_iface s : str_forall iface_byte (sha256_hex s) = true.
Proof.
  unfold sha256_hex, sha256_sum. apply hex_encode_iface.
  induction (blocks _ _ _) as [|x l IH]; simpl; [constructor|].
  apply (Forall_app_2 _ (be_bytes 4 x)); [apply be_bytes_range|exact IH].
Qed.

Lemma WgInterfaceNameForEdge_bytes name edgeID backup :
  str_forall iface_byte (WgInterfaceNameForEdge name edgeID backup) = true.
Proof.
  assert (forall clean hash, str_forall iface_byte clean = true -> str_forall iface_byte hash = true ->
    str_forall iface_byte ("wg-" +:+ str_take (Nat.min (15 - 3 - 4) (String.length clean)) clean +:+ str_take 4 hash) = true) as Hl.
  { intros. rewrite !str_forall_append, !str_forall_take by done. done. }
  unfold WgInterfaceNameForEdge, WgInterfaceName. destruct backup; cbn [negb].
  - apply Hl; [apply cleanInterfaceName_bytes|apply sha256_hex_iface].
  - case_match.
    + by rewrite str_forall_append, cleanInterfaceName_bytes.
    + apply Hl; [apply cleanInterfaceName_bytes|apply sha256_hex_iface].
Qed.

(** ** Claims *)

(** Link identity: over portable node IDs two edges have the same link key
    exactly when they join the same unordered node pair and are either both in
    the primary class or both backups with the same edge ID, so the separators
    of the key can never make two different links collide. *)
Theorem LinkKey_identity e f :
  portable_ends e -> portable_ends f -> LinkKey e = LinkKey f <-> same_link e f.
Proof. apply LinkKey_eq_iff. Qed.

Lemma LinkKey_identity_witness :
  LinkKey (ex_edge "e1" "a" "b" "" "" no_pins) = LinkKey (ex_edge "e2" "b" "a" "" "primary" no_pins).
Proof.
  apply (LinkKey_identity (ex_edge "e1" "a" "b" "" "" no_pins) (ex_edge "e2" "b" "a" "" "primary" no_pins)).
  - split; vm_compute; reflexivity.
  - split; vm_compute; reflexivity.
  - split; [right; split; reflexivity|]. left. split; reflexivity.
Defined.

(** Interface names: whatever bytes the remote node's name holds, the name
    of the interface is at most 15 bytes long, the kernel's limit, and consists
    of lower-case letters, digits and hyphens only, so it is safe as a file name
    and in a shell word. *)
Theorem WgInterfaceNameForEdge_safe name edgeID backup :
  (String.length (WgInterfaceNameForEdge name edgeID backup) <= 15)%nat /\
  str_forall iface_byte (WgInterfaceNameForEdge name edgeID backup) = true.
Proof. split; [apply length_WgInterfaceNameForEdge | apply WgInterfaceNameForEdge_bytes]. Qed.
