(* ===== verification/Allocator.v ===== *)
(** * Overlay IP allocation ([internal/allocator/ip.go])

    [AllocateIPs] keeps every node address that is still inside its domain's
    CIDR and gives every other node the lowest free host address of its domain.
    A context is modelled by the answers its successive [ctx.Err()] polls give;
    the functions thread the number of polls made so far. *)

From stdpp Require Import base gmap strings list sets.
From Stdlib Require Import ZArith Lia.
From S2P Require Import Prelude GoLib GoNet Model.

Local Open Scope Z_scope.
Local Open Scope go_scope.

Definition Ctx : Type := nat -> option goerror.

(** [context.Background()] *)
Definition Background : Ctx := fun _ => None.

Definition maxOverlayScanBudget : Z := Z.shiftl 1 20.
Definition ctxCheckInterval : Z := 4096.

(** [uint32ToIP(n).String()] *)
Definition uint32ToIP_String (n : Z) : string := ipv4_string n.

(** [ipToUint32(ipNet.IP)] *)
Definition ipToUint32 (n : IPNet) : result goerror Z :=
  match net_to4 n with
  | Some u => Ok u
  | None => Err (Plain "address is not a valid IPv4 address")
  end.

(** The reserved ranges split into networks and single addresses; an entry that
    parses as neither is ignored. *)
Definition split_reserved (rs : list string) : list IPNet * gset string :=
  foldl (fun '(nets, singles) rr =>
    match ParseCIDR rr with
    | Some rNet => (nets ++ [rNet], singles)
    | None => match ParseIP rr with
              | Some ip => (nets, {[ IP_String ip ]} ∪ singles)
              | None => (nets, singles)
              end
    end) ([], ∅) rs.

Definition reserved_by (nets : list IPNet) (candidate : string) : bool :=
  match ParseIP candidate with
  | Some ip => existsb (fun rNet => Contains rNet ip) nets
  | None => false
  end.

(** One iteration of the host scan: a cancellation noticed at this host, a free
    address, or nothing. *)
Definition scan_host (ctx : Ctx) (tick : nat) (startHost networkIP : Z) (usedIPs : gset string)
    (nets : list IPNet) (singles : gset string) (h : Z) : option (nat * result goerror string) :=
  let rel := u32 (h - startHost) in
  let polls := (tick + Z.to_nat (rel / ctxCheckInterval))%nat in
  let cancelled := if rel mod ctxCheckInterval =? 0 then ctx polls else None in
  match cancelled with
  | Some err => Some (S polls, Err err)
  | None =>
      let candidateIP := uint32ToIP_String (u32 (networkIP + h)) in
      if bool_decide (candidateIP ∈ usedIPs) then None
      else if bool_decide (candidateIP ∈ singles) then None
      else if reserved_by nets candidateIP then None
      else Some (S polls, Ok candidateIP)
  end.

Definition allocateFromCIDR (ctx : Ctx) (tick : nat) (cidr : string) (reservedRanges : list string)
    (usedIPs : gset string) : nat * result goerror string :=
  match ParseCIDR cidr with
  | None => (tick, Err (Coded "compile_overlay_cidr_invalid" [("cidr", cidr)]))
  | Some ipNet =>
      let '(reservedNets, reservedSingleIPs) := split_reserved reservedRanges in
      let hostBits := net_bits ipNet - net_ones ipNet in
      if hostBits =? 0 then (tick, Err (Plain ("CIDR " +:+ cidr +:+ " has no assignable host addresses (prefix too long)")))
      else if 32 <=? hostBits then (tick, Err (Plain ("CIDR " +:+ cidr +:+ " has too many host bits to enumerate (must be IPv4 with prefix >= /8)")))
      else
        let totalHosts := u32 (Z.shiftl 1 hostBits) in
        let startHost := if hostBits <=? 1 then 0 else 1 in
        let endHost := if hostBits <=? 1 then totalHosts else totalHosts - 1 in
        if maxOverlayScanBudget <? endHost - startHost then
          (tick, Err (Coded "compile_overlay_scan_budget_exceeded"
                        [("cidr", cidr); ("budget", strconv_Itoa maxOverlayScanBudget)]))
        else
          match ipToUint32 ipNet with
          | Err err => (tick, Err (Wrapped ("CIDR " +:+ cidr +:+ " is not a valid IPv4 network address") err))
          | Ok networkIP =>
              match first_from (scan_host ctx tick startHost networkIP usedIPs reservedNets reservedSingleIPs)
                      startHost (Z.to_nat (endHost - startHost)) with
              | Some (tick', r) => (tick', r)
              | None => ((tick + Z.to_nat ((endHost - startHost + ctxCheckInterval - 1) / ctxCheckInterval))%nat,
                         Err (Coded "compile_overlay_pool_exhausted" [("cidr", cidr)]))
              end
          end
  end.

(** The first pass: an address outside its domain's CIDR is cleared. *)
Definition clear_stale (topo : Topology) (n : Node) : Node :=
  if String.eqb (Node_OverlayIP n) "" then n
  else match domainMap topo (Node_DomainID n) with
       | None => n
       | Some domain =>
           match ParseCIDR (Domain_CIDR domain) with
           | None => n
           | Some ipNet =>
               match ParseIP (Node_OverlayIP n) with
               | None => set_OverlayIP "" n
               | Some nodeIP => if Contains ipNet nodeIP then n else set_OverlayIP "" n
               end
           end
       end.

(** The addresses held after the first pass. *)
Definition used_ips (nodes : list Node) : gset string :=
  list_to_set (List.filter (fun ip => negb (String.eqb ip "")) (Node_OverlayIP <$> nodes)).

(** The allocation pass over the remaining nodes. *)
Fixpoint alloc_nodes (ctx : Ctx) (topo : Topology) (tick : nat) (usedIPs : gset string) (nodes : list Node)
  : result goerror (list Node) :=
  match nodes with
  | [] => Ok []
  | n :: rest =>
      if negb (String.eqb (Node_OverlayIP n) "") then
        let! out := alloc_nodes ctx topo tick usedIPs rest in Ok (n :: out)
      else
        match domainMap topo (Node_DomainID n) with
        | None => Err (Coded "compile_node_unknown_domain" [("node", Node_Name n); ("domain", Node_DomainID n)])
        | Some domain =>
            let '(tick', r) := allocateFromCIDR ctx tick (Domain_CIDR domain) (Domain_ReservedRanges domain) usedIPs in
            match r with
            | Err err => Err (Wrapped ("failed to allocate an IP for node " +:+ Node_Name n) err)
            | Ok ip =>
                let! out := alloc_nodes ctx topo tick' ({[ ip ]} ∪ usedIPs) rest in
                Ok (set_OverlayIP ip n :: out)
            end
        end
  end.

Definition AllocateIPs (ctx : Ctx) (topo : Topology) : result goerror (list Node) :=
  match ctx 0%nat with
  | Some err => Err err
  | None =>
      let result := clear_stale topo <$> Topology_Nodes topo in
      alloc_nodes ctx topo 1 (used_ips result) result
  end.

(** ** What an allocation may return *)

(** [ip] is withheld by one entry of the reserved ranges, and by some entry. *)
Definition withholds (rr ip : string) : Prop :=
  match ParseCIDR rr with
  | Some n => exists x, ParseIP ip = Some x /\ Contains n x = true
  | None => exists x, ParseIP rr = Some x /\ IP_String x = ip
  end.

Definition reserved_addr (rs : list string) (ip : string) : Prop :=
  exists rr, rr ∈ rs /\ withholds rr ip.

(** The host numbers the scan walks, upper bound excluded. *)
Definition first_host (hb : Z) : Z := if hb <=? 1 then 0 else 1.
Definition last_host (hb : Z) : Z := if hb <=? 1 then 2 ^ hb else 2 ^ hb - 1.

Lemma reserved_by_true nets ip :
  reserved_by nets ip = true <-> exists n x, n ∈ nets /\ ParseIP ip = Some x /\ Contains n x = true.
Proof.
  unfold reserved_by. destruct (ParseIP ip) as [x|]; [|naive_solver].
  rewrite existsb_exists. setoid_rewrite <- list_elem_of_In. naive_solver.
Qed.

Lemma reserved_addr_snoc rs rr ip : reserved_addr (rs ++ [rr]) ip <-> reserved_addr rs ip \/ withholds rr ip.
Proof.
  unfold reserved_addr. setoid_rewrite elem_of_app. setoid_rewrite list_elem_of_singleton. naive_solver.
Qed.

Lemma split_reserved_spec rs ip :
  (ip ∈ (split_reserved rs).2 \/ reserved_by (split_reserved rs).1 ip = true) <-> reserved_addr rs ip.
Proof.
  unfold split_reserved.
  apply (foldl_inv (fun pre st => (ip ∈ st.2 \/ reserved_by st.1 ip = true) <-> reserved_addr pre ip)).
  - simpl. rewrite reserved_by_true. unfold reserved_addr. set_solver.
  - intros pre rr post [nets singles] _. rewrite reserved_addr_snoc. intros <-.
    unfold withholds. destruct (ParseCIDR rr) as [n|]; [|destruct (ParseIP rr) as [x|]]; simpl;
      rewrite !reserved_by_true.
    + setoid_rewrite elem_of_app. setoid_rewrite list_elem_of_singleton. naive_solver.
    + rewrite elem_of_union, elem_of_singleton. naive_solver.
    + naive_solver.
Qed.

(** The host [h] of base [b] cannot be handed out. *)
Definition host_blocked (rs : list string) (used : gset string) (b h : Z) : Prop :=
  ipv4_string (b + h) ∈ used \/ reserved_addr rs (ipv4_string (b + h)).

#[export] Instance host_blocked_dec rs used b h : Decision (host_blocked rs used b h).
Proof.
  unfold host_blocked. refine (cast_if (decide ((ipv4_string (b + h) ∈ used) \/
    (ipv4_string (b + h) ∈ (split_reserved rs).2 \/ reserved_by (split_reserved rs).1 (ipv4_string (b + h)) = true))));
  by rewrite <- split_reserved_spec.
Defined.

Section Scan.
Context (ctx : Ctx) (tick : nat) (rs : list string) (used : gset string).
Context (s : string) (net : IPNet) (b : Z).
Hypothesis Hparse : ParseCIDR s = Some net.
Hypothesis Hto4 : net_to4 net = Some b.
Hypothesis Hbits : 0 < host_bits net < 32.

Lemma scan_base_bound : 0 <= b /\ b + 2 ^ host_bits net <= 2 ^ 32.
Proof.
  pose proof (net4_view_wf _ _ _ Hparse Hto4 ltac:(lia)) as Hwf.
  pose proof (net4_bound _ Hwf) as Hb. destruct Hwf as (_ & _ & [Hn _] & _).
  unfold net_size, net4_view in *. cbn -[Z.pow] in *.
  by replace (32 - (32 - host_bits net)) with (host_bits net) in Hb by lia.
Qed.

Lemma scan_host_u32 h : 0 <= h < last_host (host_bits net) -> is_u32 (b + h) /\ u32 (b + h) = b + h.
Proof.
  intros Hh. pose proof scan_base_bound as [H0 H1].
  assert (is_u32 (b + h)); [|split; [done|by apply u32_small]].
  unfold is_u32, last_host in *. destruct (_ <=? 1); lia.
Qed.

Lemma scan_host_found h p :
  0 <= h < last_host (host_bits net) ->
  (exists k, scan_host ctx tick (first_host (host_bits net)) b used (split_reserved rs).1 (split_reserved rs).2 h = Some (k, Ok p)) ->
  p = ipv4_string (b + h) /\ ~ host_blocked rs used b h.
Proof.
  intros Hh [k Hs]. destruct (scan_host_u32 h Hh) as [_ Hu].
  unfold scan_host, uint32ToIP_String in Hs. rewrite Hu in Hs. unfold host_blocked.
  rewrite <- split_reserved_spec. destruct (if _ =? 0 then _ else _); [done|].
  repeat case_bool_decide; try done. destruct (reserved_by _ _) eqn:E; [done|].
  injection Hs as _ <-. split; [done|]. by intros [?|[?|?]].
Qed.

Lemma scan_host_skip h :
  0 <= h < last_host (host_bits net) ->
  scan_host ctx tick (first_host (host_bits net)) b used (split_reserved rs).1 (split_reserved rs).2 h = None ->
  host_blocked rs used b h.
Proof.
  intros Hh Hs. destruct (scan_host_u32 h Hh) as [_ Hu].
  unfold scan_host, uint32ToIP_String in Hs. rewrite Hu in Hs. unfold host_blocked.
  rewrite <- split_reserved_spec. destruct (if _ =? 0 then _ else _); [done|].
  repeat case_bool_decide; auto. destruct (reserved_by _ _) eqn:E; auto. done.
Qed.

Lemma scan_host_blocked h :
  ctx = Background -> 0 <= h < last_host (host_bits net) -> host_blocked rs used b h ->
  scan_host ctx tick (first_host (host_bits net)) b used (split_reserved rs).1 (split_reserved rs).2 h = None.
Proof.
  intros -> Hh Hblk. destruct (scan_host_u32 h Hh) as [_ Hu]. unfold host_blocked in Hblk.
  rewrite <- split_reserved_spec in Hblk. unfold scan_host, uint32ToIP_String. rewrite Hu.
  match goal with |- context [if ?c then Background ?k else None] =>
    replace (if c then Background k else None) with (@None goerror) by (by destruct c) end.
  destruct Hblk as [?|[?|E]].
  - by rewrite bool_decide_true.
  - case_bool_decide; [done|]. by rewrite bool_decide_true.
  - case_bool_decide; [done|]. case_bool_decide; [done|]. by rewrite E.
Qed.
End Scan.

(** The address an uncancelled or cancelled scan returns: the lowest host of
    the domain that is neither used nor reserved. *)
Definition lowest_free (cidr : string) (rs : list string) (used : gset string) (ip : string) : Prop :=
  exists net b h,
    ParseCIDR cidr = Some net /\ net_to4 net = Some b /\ 0 < host_bits net < 32 /\
    first_host (host_bits net) <= h < last_host (host_bits net) /\
    ip = ipv4_string (b + h) /\ ~ host_blocked rs used b h /\
    forall h', first_host (host_bits net) <= h' < h -> host_blocked rs used b h'.

Lemma u32_shift hb : 0 < hb < 32 -> u32 (Z.shiftl 1 hb) = 2 ^ hb.
Proof.
  intros Hb. rewrite Z.shiftl_mul_pow2, Z.mul_1_l by lia. apply u32_small. split; [lia|].
  apply Z.pow_lt_mono_r; lia.
Qed.

Lemma first_host_nonneg hb : 0 <= first_host hb.
Proof. unfold first_host. case_match; lia. Qed.

Lemma allocateFromCIDR_Ok ctx tick cidr rs used t ip :
  allocateFromCIDR ctx tick cidr rs used = (t, Ok ip) -> lowest_free cidr rs used ip.
Proof.
  unfold allocateFromCIDR. destruct (ParseCIDR cidr) as [net|] eqn:Hp; [|done].
  destruct (split_reserved rs) as [nets singles] eqn:Hsr. fold (host_bits net).
  destruct (Z.eqb_spec (host_bits net) 0); [done|]. destruct (Z.leb_spec 32 (host_bits net)); [done|].
  assert (0 < host_bits net < 32) as Hb.
  { pose proof (ParseCIDR_ones _ _ Hp). unfold host_bits in *. lia. }
  rewrite u32_shift by done. fold (first_host (host_bits net)). fold (last_host (host_bits net)).
  case_match; [done|]. unfold ipToUint32. destruct (net_to4 net) as [b|] eqn:Ht; [|done].
  destruct (first_from _ _ _) as [[t' r]|] eqn:Hf; [|done]. intros [= -> ->].
  apply first_from_Some in Hf as (h & Hh & Hs & Hmin). pose proof (first_host_nonneg (host_bits net)).
  replace nets with (split_reserved rs).1 in * by (by rewrite Hsr).
  replace singles with (split_reserved rs).2 in * by (by rewrite Hsr).
  destruct (scan_host_found ctx tick rs used cidr net b Hp Ht Hb h ip) as [-> Hn]; [lia|eauto|].
  exists net, b, h. repeat split; auto; try lia. intros h' Hh'.
  apply (scan_host_skip ctx tick rs used cidr net b Hp Ht Hb); [lia|]. apply Hmin. lia.
Qed.

(** The free address is inside the domain. *)
Lemma lowest_free_contained cidr rs used ip :
  lowest_free cidr rs used ip ->
  exists net x, ParseCIDR cidr = Some net /\ ParseIP ip = Some x /\ Contains net x = true.
Proof.
  intros (net & b & h & Hp & Ht & Hb & Hh & -> & _).
  destruct (scan_host_u32 cidr net b Hp Ht Hb h) as [Hu _].
  { pose proof (first_host_nonneg (host_bits net)). lia. }
  exists net, (v4_in_v6 (b + h)). rewrite ParseIP_ipv4_string by done. split; [done|]. split; [done|].
  rewrite (Contains_view cidr net b) by (done || lia).
  apply Contains_v4; [eapply net4_view_wf; eauto; lia|done|].
  unfold net_size, net4_view; cbn -[Z.pow].
  replace (32 - (32 - host_bits net)) with (host_bits net) by lia.
  unfold first_host, last_host in *. destruct (host_bits net <=? 1); lia.
Qed.

Lemma lowest_free_nonempty cidr rs used ip : lowest_free cidr rs used ip -> ip <> "".
Proof. intros (net & b & h & _ & _ & _ & _ & -> & _). apply ipv4_string_nonempty. Qed.

Lemma lowest_free_unused cidr rs used ip : lowest_free cidr rs used ip -> (ip ∉ used) /\ ~ reserved_addr rs ip.
Proof. intros (net & b & h & _ & _ & _ & _ & -> & Hn & _). unfold host_blocked in Hn. tauto. Qed.

Lemma set_OverlayIP_same n : set_OverlayIP (Node_OverlayIP n) n = n.
Proof. by destruct n. Qed.
Lemma OverlayIP_set ip n : Node_OverlayIP (set_OverlayIP ip n) = ip.
Proof. by destruct n. Qed.
Lemma set_OverlayIP_twice a c n : set_OverlayIP a (set_OverlayIP c n) = set_OverlayIP a n.
Proof. by destruct n. Qed.
Lemma DomainID_set ip n : Node_DomainID (set_OverlayIP ip n) = Node_DomainID n.
Proof. by destruct n. Qed.
#[export] Hint Rewrite set_OverlayIP_same OverlayIP_set set_OverlayIP_twice DomainID_set : yaog.

(** What the allocation pass does to the node at each position. *)
Definition node_step (topo : Topology) (used : gset string) (n n' : Node) : Prop :=
  (Node_OverlayIP n <> "" /\ n' = n) \/
  (Node_OverlayIP n = "" /\ exists d ip, domainMap topo (Node_DomainID n) = Some d /\
     n' = set_OverlayIP ip n /\ lowest_free (Domain_CIDR d) (Domain_ReservedRanges d) used ip).

Definition ips (nodes : list Node) : gset string := list_to_set (Node_OverlayIP <$> nodes).

Lemma alloc_nodes_spec ctx topo tick used nodes out :
  (forall n, n ∈ nodes -> Node_OverlayIP n <> "" -> Node_OverlayIP n ∈ used) ->
  alloc_nodes ctx topo tick used nodes = Ok out ->
  length out = length nodes /\
  forall i n, nodes !! i = Some n -> exists n', out !! i = Some n' /\ node_step topo (used ∪ ips (take i out)) n n'.
Proof.
  revert tick used out; induction nodes as [|n nodes IH]; intros tick used out Hused.
  - intros [= <-]. done.
  - cbn [alloc_nodes]. destruct (String.eqb_spec (Node_OverlayIP n) "") as [He|He]; cbn [negb].
    + destruct (domainMap topo (Node_DomainID n)) as [d|] eqn:Hd; [|done].
      destruct (allocateFromCIDR _ _ _ _ _) as [tick' [ip|]] eqn:Ha; [|done].
      intros (r & Hr & [= <-])%rbind_Ok_inv. apply allocateFromCIDR_Ok in Ha.
      apply IH in Hr as [Hlen Hi]; [|set_solver]. split; [simpl; by rewrite Hlen|].
      intros [|i] m; simpl.
      * intros [= <-]. eexists; split; [done|]. right. split; [done|]. exists d, ip.
        unfold ips. simpl. by rewrite (right_id_L ∅ (∪)).
      * intros Hm. destruct (Hi i m Hm) as (n' & Hn' & Hs). exists n'. split; [done|].
        assert (used ∪ ips (set_OverlayIP ip n :: take i r) = {[ip]} ∪ used ∪ ips (take i r)) as ->; [|done].
        unfold ips. rewrite fmap_cons, OverlayIP_set, list_to_set_cons. set_solver.
    + intros (r & Hr & [= <-])%rbind_Ok_inv. assert (Node_OverlayIP n ∈ used) by set_solver.
      apply IH in Hr as [Hlen Hi]; [|set_solver]. split; [simpl; by rewrite Hlen|].
      intros [|i] m; simpl.
      * intros [= <-]. eexists; split; [done|]. by left.
      * intros Hm. destruct (Hi i m Hm) as (n' & Hn' & Hs). exists n'. split; [done|].
        assert (used ∪ ips (n :: take i r) = used ∪ ips (take i r)) as ->; [|done].
        unfold ips. rewrite fmap_cons, list_to_set_cons. set_solver.
Qed.

Lemma used_ips_spec nodes n : n ∈ nodes -> Node_OverlayIP n <> "" -> Node_OverlayIP n ∈ used_ips nodes.
Proof.
  intros Hn Hne. unfold used_ips. apply elem_of_list_to_set, list_elem_of_In, filter_In.
  split; [apply list_elem_of_In; by apply list_elem_of_fmap_2|].
  by apply negb_true_iff, String.eqb_neq.
Qed.

Lemma clear_stale_cases topo n :
  clear_stale topo n = n \/ clear_stale topo n = set_OverlayIP "" n.
Proof. unfold clear_stale. repeat case_match; auto. Qed.

Lemma clear_stale_kept topo n : Node_OverlayIP (clear_stale topo n) <> "" -> clear_stale topo n = n.
Proof. destruct (clear_stale_cases topo n) as [->| ->]; [done|]. by rewrite OverlayIP_set. Qed.

(** The position-wise specification of the whole allocator: what the cleared
    node becomes, against the addresses kept by any node and handed to earlier
    nodes. *)
Lemma AllocateIPs_nodes ctx topo out :
  AllocateIPs ctx topo = Ok out ->
  length out = length (Topology_Nodes topo) /\
  forall i n, Topology_Nodes topo !! i = Some n ->
    exists n', out !! i = Some n' /\
      node_step topo (used_ips (clear_stale topo <$> Topology_Nodes topo) ∪ ips (take i out)) (clear_stale topo n) n'.
Proof.
  unfold AllocateIPs. destruct (ctx 0%nat); [done|]. intros Ha.
  apply alloc_nodes_spec in Ha as [Hlen Hi]; [|apply used_ips_spec].
  split; [by rewrite Hlen, length_fmap|]. intros i n Hn. apply Hi. by rewrite list_lookup_fmap, Hn.
Qed.

(** A freshly allocated address occurs at no other position. *)
Lemma fresh_distinct ctx topo out i j ni mi mj :
  AllocateIPs ctx topo = Ok out ->
  Topology_Nodes topo !! i = Some ni -> out !! i = Some mi -> out !! j = Some mj -> i <> j ->
  Node_OverlayIP (clear_stale topo ni) = "" -> Node_OverlayIP mi <> Node_OverlayIP mj.
Proof.
  intros Ha Hni Hmi Hmj Hij He Heq. destruct (AllocateIPs_nodes _ _ _ Ha) as [Hlen Hspec].
  assert (forall a c na ma mc, Topology_Nodes topo !! a = Some na -> out !! a = Some ma -> out !! c = Some mc ->
    (c < a)%nat -> Node_OverlayIP (clear_stale topo na) = "" -> Node_OverlayIP ma <> Node_OverlayIP mc) as Hlt.
  { intros a c na ma mc Hna Hma Hmc Hca Hne Hc. destruct (Hspec a na Hna) as (m & Hm & Hs).
    simplify_eq. destruct Hs as [[? _]|(_ & d & ip & _ & -> & Hf)]; [done|].
    apply lowest_free_unused in Hf as [Hf _]. rewrite OverlayIP_set in Hc. subst ip. apply Hf.
    apply elem_of_union_r, elem_of_list_to_set, list_elem_of_fmap_2, (list_elem_of_lookup_2 _ c).
    rewrite lookup_take. by rewrite decide_True. }
  destruct (lookup_lt_is_Some_2 (Topology_Nodes topo) j) as [nj Hnj].
  { rewrite <- Hlen. by eapply lookup_lt_Some. }
  destruct (decide (Node_OverlayIP (clear_stale topo nj) = "")) as [Hj|Hj].
  - destruct (Nat.lt_total i j) as [?|[?|?]]; [|done|].
    + eapply (Hlt j i); eauto.
    + eapply (Hlt i j); eauto.
  - destruct (Hspec j nj Hnj) as (m & Hm & Hs). simplify_eq. destruct Hs as [[_ ->]|[? _]]; [|done].
    destruct (Hspec i ni Hni) as (m & Hm' & Hs). simplify_eq.
    destruct Hs as [[? _]|(_ & d & ip & _ & -> & Hf)]; [done|].
    apply lowest_free_unused in Hf as [Hf _]. rewrite OverlayIP_set in Heq. subst ip. apply Hf.
    apply elem_of_union_l, used_ips_spec; [|done]. apply list_elem_of_fmap_2. by eapply list_elem_of_lookup_2.
Qed.

Definition set_Nodes (nodes : list Node) (topo : Topology) : Topology :=
  match topo with mkTopology a b _ d e f => mkTopology a b nodes d e f end.

Lemma domainMap_set_Nodes nodes topo : domainMap (set_Nodes nodes topo) = domainMap topo.
Proof. by destruct topo. Qed.
Lemma clear_stale_set_Nodes nodes topo n : clear_stale (set_Nodes nodes topo) n = clear_stale topo n.
Proof. unfold clear_stale. by rewrite domainMap_set_Nodes. Qed.
Lemma Nodes_set_Nodes nodes topo : Topology_Nodes (set_Nodes nodes topo) = nodes.
Proof. by destruct topo. Qed.

Lemma alloc_nodes_all_set ctx topo tick used nodes :
  Forall (fun n => Node_OverlayIP n <> "") nodes -> alloc_nodes ctx topo tick used nodes = Ok nodes.
Proof.
  induction 1 as [|n nodes Hn _ IH]; [done|]. cbn [alloc_nodes].
  destruct (String.eqb_spec (Node_OverlayIP n) ""); [done|]. cbn [negb]. by rewrite IH.
Qed.

(** The output of the allocator is stable under its own first pass. *)
Lemma node_step_stable topo used n n' :
  node_step topo used (clear_stale topo n) n' -> Node_OverlayIP n' <> "" /\ clear_stale topo n' = n'.
Proof.
  intros [[Hne ->]|(He & d & ip & Hd & -> & Hf)].
  - split; [done|]. by rewrite (clear_stale_kept _ _ Hne), (clear_stale_kept _ _ Hne).
  - rewrite OverlayIP_set. split; [by eapply lowest_free_nonempty|].
    apply lowest_free_contained in Hf as Hc. destruct Hc as (net & x & Hp & Hx & Hc).
    unfold clear_stale at 1. rewrite OverlayIP_set, DomainID_set, Hd, Hp, Hx, Hc. by case_match.
Qed.

(** Every node of [nodes] has an address the first pass keeps. *)
Definition settled (topo : Topology) (n : Node) : Prop :=
  Node_OverlayIP n <> "" /\ clear_stale topo n = n.

Lemma AllocateIPs_settled ctx topo out : AllocateIPs ctx topo = Ok out -> Forall (settled topo) out.
Proof.
  intros Ha. destruct (AllocateIPs_nodes _ _ _ Ha) as [Hlen Hspec].
  apply Forall_lookup. intros i n' Hn'. destruct (lookup_lt_is_Some_2 (Topology_Nodes topo) i) as [n Hn].
  { rewrite <- Hlen. by eapply lookup_lt_Some. }
  destruct (Hspec i n Hn) as (m & Hm & Hs). simplify_eq. by eapply node_step_stable.
Qed.

(** Settled nodes are returned as they are. *)
Lemma AllocateIPs_of_settled ctx topo :
  Forall (settled topo) (Topology_Nodes topo) -> ctx 0%nat = None -> AllocateIPs ctx topo = Ok (Topology_Nodes topo).
Proof.
  intros Hall Hc. unfold AllocateIPs. rewrite Hc.
  replace (clear_stale topo <$> Topology_Nodes topo) with (Topology_Nodes topo).
  - apply alloc_nodes_all_set. eapply Forall_impl; [exact Hall|]. intros n [Hn _]. exact Hn.
  - induction Hall as [|n out [_ Hn] _ IH]; [done|]. rewrite fmap_cons, Hn. by f_equal.
Qed.

(** ** Properties *)

(** Allocator soundness: when [AllocateIPs] succeeds, the nodes keep their
    order and everything but their address; a node whose address survived the
    staleness check keeps it; every other node receives the lowest host address
    of its own domain's CIDR that is neither reserved nor held by any node that
    keeps its address or precedes it, and no other node of the result carries
    that address. *)
Theorem AllocateIPs_sound ctx topo out :
  AllocateIPs ctx topo = Ok out ->
  length out = length (Topology_Nodes topo) /\
  forall i n n', Topology_Nodes topo !! i = Some n -> out !! i = Some n' ->
    n' = set_OverlayIP (Node_OverlayIP n') n /\
    ((Node_OverlayIP (clear_stale topo n) <> "" /\ Node_OverlayIP n' = Node_OverlayIP n) \/
     (Node_OverlayIP (clear_stale topo n) = "" /\
      (exists d, domainMap topo (Node_DomainID n) = Some d /\
         lowest_free (Domain_CIDR d) (Domain_ReservedRanges d)
           (used_ips (clear_stale topo <$> Topology_Nodes topo) ∪ ips (take i out)) (Node_OverlayIP n')) /\
      forall j m, j <> i -> out !! j = Some m -> Node_OverlayIP m <> Node_OverlayIP n')).
Proof.
  intros Ha. destruct (AllocateIPs_nodes _ _ _ Ha) as [Hlen Hspec]. split; [done|].
  intros i n n' Hn Hn'. destruct (Hspec i n Hn) as (m & Hm & Hs). simplify_eq.
  destruct Hs as [[Hne Hk]|(He & d & ip & Hd & Hk & Hf)].
  - pose proof (clear_stale_kept _ _ Hne) as E. rewrite E in *. subst n'.
    rewrite set_OverlayIP_same. auto.
  - assert (Node_OverlayIP n' = ip) as Hip by (subst; apply OverlayIP_set).
    assert (Node_DomainID (clear_stale topo n) = Node_DomainID n) as HD.
    { destruct (clear_stale_cases topo n) as [->| ->]; [done|apply DomainID_set]. }
    split.
    + rewrite Hip, Hk. destruct (clear_stale_cases topo n) as [->| ->]; [done|apply set_OverlayIP_twice].
    + right. split; [done|]. split.
      * exists d. rewrite <- HD, Hip. auto.
      * intros j x Hj Hx Hc. symmetry in Hc. revert Hc. eapply fresh_distinct; eauto.
Qed.

(** Fixed point: allocating again on the result changes nothing, so node
    addresses are stable across recompiles. *)
Theorem AllocateIPs_idempotent ctx ctx' topo out :
  AllocateIPs ctx topo = Ok out -> ctx' 0%nat = None ->
  AllocateIPs ctx' (set_Nodes out topo) = Ok out.
Proof.
  intros Ha%AllocateIPs_settled Hc. pose proof (AllocateIPs_of_settled ctx' (set_Nodes out topo)) as H.
  rewrite Nodes_set_Nodes in H. apply H; [|done]. eapply Forall_impl; [exact Ha|].
  intros n [Hn Hs]. split; [done|]. by rewrite clear_stale_set_Nodes.
Qed.

(** Complete search: with an uncancelled context, a parseable IPv4 domain
    of 1 to 31 host bits whose host range is within the scan budget either
    yields the lowest unblocked host, or, exactly when every host is used or
    reserved, the coded pool-exhausted error; the scan never runs out early. *)
Theorem allocateFromCIDR_complete tick cidr rs used net b :
  ParseCIDR cidr = Some net -> net_to4 net = Some b -> 0 < host_bits net < 32 ->
  last_host (host_bits net) - first_host (host_bits net) <= maxOverlayScanBudget ->
  (exists t ip, allocateFromCIDR Background tick cidr rs used = (t, Ok ip) /\ lowest_free cidr rs used ip) \/
  ((forall h, first_host (host_bits net) <= h < last_host (host_bits net) -> host_blocked rs used b h) /\
   exists t, allocateFromCIDR Background tick cidr rs used =
             (t, Err (Coded "compile_overlay_pool_exhausted" [("cidr", cidr)]))).
Proof.
  intros Hp Ht Hb Hbud. unfold allocateFromCIDR. rewrite Hp.
  destruct (split_reserved rs) as [nets singles] eqn:Hsr. fold (host_bits net).
  destruct (Z.eqb_spec (host_bits net) 0); [lia|]. destruct (Z.leb_spec 32 (host_bits net)); [lia|].
  rewrite u32_shift by done. fold (first_host (host_bits net)). fold (last_host (host_bits net)).
  destruct (Z.ltb_spec maxOverlayScanBudget (last_host (host_bits net) - first_host (host_bits net))); [lia|].
  unfold ipToUint32. rewrite Ht.
  pose proof (first_host_nonneg (host_bits net)).
  replace nets with (split_reserved rs).1 by (by rewrite Hsr).
  replace singles with (split_reserved rs).2 by (by rewrite Hsr).
  destruct (first_from _ _ _) as [[t r]|] eqn:Hf; cbn beta iota.
  - left. apply first_from_Some in Hf as (h & Hh & Hs & Hmin).
    destruct r as [ip|e].
    + exists t, ip. split; [done|].
      destruct (scan_host_found Background tick rs used cidr net b Hp Ht Hb h ip) as [-> Hn]; [lia|eauto|].
      exists net, b, h. repeat split; auto; try lia. intros h' Hh'.
      apply (scan_host_skip Background tick rs used cidr net b Hp Ht Hb); [lia|]. apply Hmin. lia.
    + exfalso. unfold scan_host in Hs. revert Hs. repeat case_match; try done. 
  - right. split; [|eauto]. intros h Hh. apply (scan_host_skip Background tick rs used cidr net b Hp Ht Hb); [lia|].
    rewrite first_from_None in Hf. apply Hf. lia.
Qed.

(** Numeric distinctness: when every address that is kept is written in
    canonical form, a freshly allocated address differs as an address, not only
    as text, from that of every other node. *)
Theorem AllocateIPs_addresses_distinct ctx topo out i j n m m' :
  AllocateIPs ctx topo = Ok out ->
  (forall x, x ∈ Topology_Nodes topo -> Node_OverlayIP (clear_stale topo x) <> "" ->
     canonicalIP (Node_OverlayIP x) = Node_OverlayIP x) ->
  Topology_Nodes topo !! i = Some n -> Node_OverlayIP (clear_stale topo n) = "" ->
  out !! i = Some m -> out !! j = Some m' -> i <> j ->
  ParseIP (Node_OverlayIP m) <> ParseIP (Node_OverlayIP m').
Proof.
  intros Ha Hcan Hn He Hm Hm' Hij Heq. destruct (AllocateIPs_nodes _ _ _ Ha) as [Hlen Hspec].
  assert (forall k x, out !! k = Some x -> canonicalIP (Node_OverlayIP x) = Node_OverlayIP x) as Hall.
  { intros k x Hx. destruct (lookup_lt_is_Some_2 (Topology_Nodes topo) k) as [y Hy].
    { rewrite <- Hlen. by eapply lookup_lt_Some. }
    destruct (Hspec k y Hy) as (z & Hz & Hs). simplify_eq.
    destruct Hs as [[Hne ->]|(_ & d & ip & _ & -> & Hf)].
    - rewrite (clear_stale_kept _ _ Hne). apply Hcan; [by eapply list_elem_of_lookup_2|done].
    - rewrite OverlayIP_set. destruct Hf as (net & b & h & Hp & Ht & Hb & Hh & -> & _).
      apply canonicalIP_ipv4_string. eapply scan_host_u32; eauto.
      pose proof (first_host_nonneg (host_bits net)). lia. }
  eapply (fresh_distinct ctx topo out i j); eauto.
  rewrite <- (Hall i m Hm), <- (Hall j m' Hm'). unfold canonicalIP at 1 2. rewrite Heq.
  destruct (ParseIP (Node_OverlayIP m')) eqn:E; [done|].
  rewrite <- (Hall i m Hm), <- (Hall j m' Hm'). unfold canonicalIP. rewrite Heq, E.
  exfalso. destruct (Hspec i n Hn) as (z & Hz & Hs). simplify_eq.
  destruct Hs as [[? _]|(_ & d & ip & _ & -> & Hf)]; [done|]. rewrite OverlayIP_set in Heq.
  apply lowest_free_contained in Hf as (net & x & _ & Hx & _). congruence.
Qed.

(** ** Concrete runs *)

Definition ex_dom : Domain := mkDomain "d" "d" "10.11.0.0/24" "" "auto" "babel" ["10.11.0.1"; "10.11.0.4/31"] "".

(** A kept address, a missing one and one left over from another CIDR. *)
Definition ex_alloc_topo : Topology :=
  ex_topology [ex_dom]
    [ex_node "a" "peer" "d" "10.11.0.2" (ex_caps false false); ex_node "b" "peer" "d" "" (ex_caps false false);
     ex_node "c" "peer" "d" "192.168.0.9" (ex_caps false false)] [].

Definition ex_alloc_out : list Node := Eval vm_compute in
  match AllocateIPs Background ex_alloc_topo with Ok out => out | Err _ => [] end.

Example ex_alloc_ips : (Node_OverlayIP <$> ex_alloc_out) = ["10.11.0.2"; "10.11.0.3"; "10.11.0.6"].
Proof. reflexivity. Qed.

Lemma AllocateIPs_sound_witness :
  AllocateIPs Background ex_alloc_topo = Ok ex_alloc_out /\
  length ex_alloc_out = length (Topology_Nodes ex_alloc_topo).
Proof. split; [vm_compute; reflexivity|]. apply (AllocateIPs_sound Background); vm_compute; reflexivity. Defined.

Lemma AllocateIPs_idempotent_witness :
  AllocateIPs Background (set_Nodes ex_alloc_out ex_alloc_topo) = Ok ex_alloc_out.
Proof. apply (AllocateIPs_idempotent Background); vm_compute; reflexivity. Defined.

Lemma allocateFromCIDR_complete_witness :
  (exists t ip, allocateFromCIDR Background 0 "10.11.0.0/30" [] {["10.11.0.1"]} = (t, Ok ip) /\
     lowest_free "10.11.0.0/30" [] {["10.11.0.1"]} ip) \/
  ((forall h, 1 <= h < 3 -> host_blocked [] {["10.11.0.1"]} 168493056 h) /\
   exists t, allocateFromCIDR Background 0 "10.11.0.0/30" [] {["10.11.0.1"]} =
     (t, Err (Coded "compile_overlay_pool_exhausted" [("cidr", "10.11.0.0/30")]))).
Proof.
  apply (allocateFromCIDR_complete 0 "10.11.0.0/30" [] {["10.11.0.1"]}
    {| net_v4 := true; net_ip := 168493056; net_ones := 30 |});
    first [vm_compute; reflexivity | vm_compute; split; reflexivity | vm_compute; discriminate].
Defined.

Lemma AllocateIPs_addresses_distinct_witness :
  exists m m', ex_alloc_out !! 1%nat = Some m /\ ex_alloc_out !! 0%nat = Some m' /\
    ParseIP (Node_OverlayIP m) <> ParseIP (Node_OverlayIP m').
Proof.
  eexists _, _. split; [reflexivity|]. split; [reflexivity|].
  eapply (AllocateIPs_addresses_distinct Background ex_alloc_topo ex_alloc_out 1 0).
  - vm_compute; reflexivity.
  - intros x Hx. apply list_elem_of_In in Hx. simpl in Hx.
    destruct Hx as [<-|[<-|[<-|[]]]]; vm_compute; congruence.
  - reflexivity.
  - vm_compute; reflexivity.
  - reflexivity.
  - reflexivity.
  - lia.
Defined.

(** Limit of the textual comparison: the used-address set holds address
    text, and an IPv4-mapped spelling is inside an IPv4 CIDR, so a node that
    keeps [::ffff:10.11.0.1] does not stop the allocator from handing
    [10.11.0.1] to another node of the same domain. *)
Theorem AllocateIPs_mapped_collision :
  exists topo out m m',
    AllocateIPs Background topo = Ok out /\ out !! 0%nat = Some m /\ out !! 1%nat = Some m' /\
    ParseIP (Node_OverlayIP m) = ParseIP (Node_OverlayIP m') /\ Node_OverlayIP m <> Node_OverlayIP m'.
Proof.
  exists (ex_topology [mkDomain "d" "d" "10.11.0.0/24" "" "auto" "babel" [] ""]
    [ex_node "a" "peer" "d" "::ffff:10.11.0.1" (ex_caps false false);
     ex_node "b" "peer" "d" "" (ex_caps false false)] []).
  eexists _, _, _. split; [vm_compute; reflexivity|]. split; [reflexivity|]. split; [reflexivity|].
  vm_compute. split; [reflexivity|discriminate].
Qed.
