(* ===== verification/PeersAlloc.v ===== *)
(** * Pass 1 of peer derivation: link grouping and per-link allocation

    [internal/compiler/peers_build.go] ([groupLinks], [preallocateLinkResources]
    and the pool helpers) and [internal/compiler/peers_prealloc.go].  The three
    reservation maps [nodeID -> ports], [cidr -> IPs] and the link-local set are
    the three sets of [pools]. *)

From stdpp Require Import base gmap strings list sets fin_sets.
From Stdlib Require Import ZArith Lia.
From S2P Require Import Prelude GoLib GoNet Model LinkID.

Local Open Scope Z_scope.
Local Open Scope go_scope.

(** ** allocconst *)

Definition DefaultTransitCIDR : string := "10.10.0.0/24".
Definition BackupDefaultLinkCost : Z := 384.
Definition WGListenPortBase : Z := 51820.
Definition MinPinnedPort : Z := 1024.

(** ** Data *)

Record pairAllocation := mkAlloc {
  al_fromNodeID : string;
  al_toNodeID : string;
  al_fromPort : Z;
  al_toPort : Z;
  al_localTransit : string;
  al_remoteTransit : string;
  al_localLL : string;
  al_remoteLL : string }.

Record linkEntity := mkLink {
  lk_linkKey : string;
  lk_backup : bool;
  lk_primaryEdge : Edge;
  lk_fromNode : Node;
  lk_toNode : Node;
  lk_transitCIDR : string }.

(** [usedPorts], [usedTransitIPs], [usedLinkLocals]; also the three fields of
    [ReservedAllocations]. *)
Record pools := mkPools {
  usedPorts : gset (string * Z);
  usedTransitIPs : gset (string * string);
  usedLinkLocals : gset string }.

Definition empty_pools : pools := mkPools ∅ ∅ ∅.

Definition markPort (nodeID : string) (port : Z) (p : pools) : pools :=
  mkPools ({[ (nodeID, port) ]} ∪ usedPorts p) (usedTransitIPs p) (usedLinkLocals p).
Definition markTransit (cidr ip : string) (p : pools) : pools :=
  mkPools (usedPorts p) ({[ (cidr, ip) ]} ∪ usedTransitIPs p) (usedLinkLocals p).
Definition markLinkLocal (ll : string) (p : pools) : pools :=
  mkPools (usedPorts p) (usedTransitIPs p) ({[ ll ]} ∪ usedLinkLocals p).

Definition is_client (n : Node) : bool := String.eqb (Node_Role n) "client".
Definition non_empty (s : string) : bool := negb (String.eqb s "").

(** ** Pool helpers *)

Definition transitCIDRForNode (from : option Node) (dmap : string -> option Domain) : string :=
  match from with
  | Some n =>
      match dmap (Node_DomainID n) with
      | Some d => if non_empty (Domain_TransitCIDR d) then Domain_TransitCIDR d else DefaultTransitCIDR
      | None => DefaultTransitCIDR
      end
  | None => DefaultTransitCIDR
  end.

Definition lowestFreePort (node : Node) (used : gset (string * Z)) : result goerror Z :=
  match first_from (fun port => if bool_decide ((Node_ID node, port) ∈ used) then None else Some port)
          WGListenPortBase (Z.to_nat (65535 - WGListenPortBase + 1)) with
  | Some port => Ok port
  | None => Err (Coded "compile_listen_port_exhausted"
                   [("node", Node_Name node); ("base", strconv_Itoa WGListenPortBase)])
  end.

Definition default_transit (cidr : string) : string := if non_empty cidr then cidr else DefaultTransitCIDR.

(** [uint32] arithmetic of the pair addresses is kept with its wrap-around. *)
Definition allocateTransitPair (index : Z) (transitCIDR0 : string) : result goerror (string * string) :=
  let transitCIDR := default_transit transitCIDR0 in
  match ParseCIDR transitCIDR with
  | None => Err (Plain ("invalid transit CIDR " +:+ transitCIDR))
  | Some ipNet =>
      match net_to4 ipNet with
      | None => Err (Plain ("transit CIDR must be IPv4: " +:+ transitCIDR))
      | Some networkAddr =>
          let hostBits := 32 - net_ones ipNet in
          let exhausted := Err (Plain ("transit address pool exhausted (CIDR: " +:+ transitCIDR +:+ ")")) in
          if hostBits <? 2 then exhausted
          else
            let hostMask := u32 (u32 (Z.shiftl 1 hostBits) - 1) in
            let broadcastAddr := Z.lor networkAddr hostMask in
            let offset := u32 (2 * index + 1) in
            let addr1 := u32 (networkAddr + offset) in
            let addr2 := u32 (u32 (networkAddr + offset) + 1) in
            if (addr2 <? addr1) || (addr1 <=? networkAddr) || (broadcastAddr <=? addr1) ||
               (addr2 <=? networkAddr) || (broadcastAddr <=? addr2) then exhausted
            else Ok (ipv4_string addr1, ipv4_string addr2)
      end
  end.

Definition transitPoolPairCount (transitCIDR0 : string) : result goerror Z :=
  let transitCIDR := default_transit transitCIDR0 in
  match ParseCIDR transitCIDR with
  | None => Err (Coded "compile_transit_cidr_invalid"
                   [("cidr", transitCIDR); ("detail", parse_cidr_error transitCIDR)])
  | Some ipNet =>
      match net_to4 ipNet with
      | None => Err (Coded "compile_transit_cidr_not_ipv4" [("cidr", transitCIDR)])
      | Some _ =>
          let hostBits := 32 - net_ones ipNet in
          if hostBits <? 2 then Ok 0
          else Ok ((Z.shiftl 1 hostBits - 2) / 2)
      end
  end.

Definition gapFillTransitPair (transitCIDR : string) (used : gset (string * string))
  : result goerror (string * string) :=
  let! poolPairs := transitPoolPairCount transitCIDR in
  let exhausted := Err (Coded "compile_transit_pool_exhausted" [("cidr", transitCIDR)]) in
  if poolPairs <=? 0 then exhausted
  else
    match first_from (fun index =>
            match allocateTransitPair index transitCIDR with
            | Err _ => None
            | Ok (ip1, ip2) =>
                if bool_decide ((transitCIDR, ip1) ∈ used) || bool_decide ((transitCIDR, ip2) ∈ used)
                then None else Some (ip1, ip2)
            end) 0 (Z.to_nat poolPairs) with
    | Some pr => Ok pr
    | None => exhausted
    end.

Definition allocateLinkLocalPair (index : Z) : string * string :=
  let base := 2 * index + 1 in
  (("fe80::" +:+ fmt_x base)%string, ("fe80::" +:+ fmt_x (base + 1))%string).

Definition try_linkLocal (used : gset string) (index : Z) : option (string * string) :=
  let '(local, remote) := allocateLinkLocalPair index in
  if bool_decide (local ∈ used) || bool_decide (remote ∈ used) then None else Some (local, remote).

(** The loop has no bound in the source.  One more candidate than there are
    used addresses always suffices ([gapFillLinkLocalPair_total]), so the
    fallback value is never returned. *)
Definition gapFillLinkLocalPair (used : gset string) : string * string :=
  match first_from (try_linkLocal used) 0 (S (size used)) with
  | Some pr => pr
  | None => ("", "")
  end.

(** ** Reservation of the links outside a subgraph *)

Definition BuildReservedFromExcludedEdges (full : option Topology) (included : gset string) : pools :=
  match full with
  | None => empty_pools
  | Some topo =>
      foldl (fun r e =>
        if bool_decide (Edge_ID e ∈ included) || negb (Edge_IsEnabled e) then r
        else
          match nodeMap topo (Edge_FromNodeID e), nodeMap topo (Edge_ToNodeID e) with
          | Some from, Some to =>
              let fromClient := is_client from in
              let toClient := is_client to in
              let r1 :=
                if fromClient && negb toClient then
                  if 0 <? Edge_PinnedToPort e then markPort (Edge_ToNodeID e) (Edge_PinnedToPort e) r else r
                else if toClient && negb fromClient then
                  if 0 <? Edge_PinnedFromPort e then markPort (Edge_FromNodeID e) (Edge_PinnedFromPort e) r else r
                else if negb fromClient && negb toClient && (0 <? Edge_PinnedFromPort e) && (0 <? Edge_PinnedToPort e) then
                  markPort (Edge_ToNodeID e) (Edge_PinnedToPort e)
                    (markPort (Edge_FromNodeID e) (Edge_PinnedFromPort e) r)
                else r in
              let r2 :=
                if non_empty (Edge_PinnedFromTransitIP e) && non_empty (Edge_PinnedToTransitIP e) then
                  let cidrFrom := transitCIDRForNode (Some from) (domainMap topo) in
                  let cidrTo := transitCIDRForNode (Some to) (domainMap topo) in
                  let r' := markTransit cidrFrom (Edge_PinnedToTransitIP e)
                              (markTransit cidrFrom (Edge_PinnedFromTransitIP e) r1) in
                  if negb (String.eqb cidrTo cidrFrom) then
                    markTransit cidrTo (Edge_PinnedToTransitIP e)
                      (markTransit cidrTo (Edge_PinnedFromTransitIP e) r')
                  else r'
                else r1 in
              if non_empty (Edge_PinnedFromLinkLocal e) && non_empty (Edge_PinnedToLinkLocal e) then
                markLinkLocal (Edge_PinnedToLinkLocal e) (markLinkLocal (Edge_PinnedFromLinkLocal e) r2)
              else r2
          | _, _ => r
          end) empty_pools (Topology_Edges topo)
  end.

(** ** Grouping edges into links *)

(** The enabled edges with both endpoints resolvable, with their endpoints. *)
Definition enabledEdges (topo : Topology) : list (Edge * Node * Node) :=
  omap (fun e =>
    if Edge_IsEnabled e then
      match nodeMap topo (Edge_FromNodeID e), nodeMap topo (Edge_ToNodeID e) with
      | Some f, Some t => Some (e, f, t)
      | _, _ => None
      end
    else None) (Topology_Edges topo).

Definition link_of (topo : Topology) (x : Edge * Node * Node) : linkEntity :=
  let '(e, f, t) := x in
  mkLink (LinkKey e) (IsBackup e) e f t (transitCIDRForNode (Some f) (domainMap topo)).

(** [linkByKey] *)
Definition find_link (links : list linkEntity) (k : string) : option linkEntity :=
  find_last lk_linkKey k links.

Definition groupLinks (topo : Topology) : list linkEntity :=
  foldl (fun links x =>
    match find_link links (LinkKey x.1.1) with
    | Some _ => links
    | None => links ++ [link_of topo x]
    end) [] (enabledEdges topo).

(** ** Reserve-then-gap-fill *)

Definition blank_alloc (link : linkEntity) : pairAllocation :=
  mkAlloc (Node_ID (lk_fromNode link)) (Node_ID (lk_toNode link)) 0 0 "" "" "" "".

Definition set_ports (fp tp : Z) (a : pairAllocation) : pairAllocation :=
  mkAlloc (al_fromNodeID a) (al_toNodeID a) fp tp (al_localTransit a) (al_remoteTransit a) (al_localLL a) (al_remoteLL a).
Definition set_transit (l r : string) (a : pairAllocation) : pairAllocation :=
  mkAlloc (al_fromNodeID a) (al_toNodeID a) (al_fromPort a) (al_toPort a) l r (al_localLL a) (al_remoteLL a).
Definition set_linkLocal (l r : string) (a : pairAllocation) : pairAllocation :=
  mkAlloc (al_fromNodeID a) (al_toNodeID a) (al_fromPort a) (al_toPort a) (al_localTransit a) (al_remoteTransit a) l r.

(** Phase 3, one link: the allocation its own pins determine, the pools with
    those pins marked, and whether any pin was present. *)
Definition reserve_link (p : pools) (link : linkEntity) : pools * pairAllocation * bool :=
  let edge := lk_primaryEdge link in
  let fromID := Node_ID (lk_fromNode link) in
  let toID := Node_ID (lk_toNode link) in
  let isFromClient := is_client (lk_fromNode link) in
  let isToClient := is_client (lk_toNode link) in
  let fp := Edge_PinnedFromPort edge in
  let tp := Edge_PinnedToPort edge in
  let '(p1, a1, h1) :=
    if isFromClient && negb isToClient && (0 <? tp) then
      (markPort toID tp p, set_ports 0 tp (blank_alloc link), true)
    else if isToClient && negb isFromClient && (0 <? fp) then
      (markPort fromID fp p, set_ports fp 0 (blank_alloc link), true)
    else if negb isFromClient && negb isToClient && (0 <? fp) && (0 <? tp) then
      (markPort toID tp (markPort fromID fp p), set_ports fp tp (blank_alloc link), true)
    else (p, blank_alloc link, false) in
  let lt := Edge_PinnedFromTransitIP edge in
  let rt := Edge_PinnedToTransitIP edge in
  let '(p2, a2, h2) :=
    if non_empty lt && non_empty rt then
      (markTransit (lk_transitCIDR link) rt (markTransit (lk_transitCIDR link) lt p1), set_transit lt rt a1, true)
    else (p1, a1, h1) in
  let ll := Edge_PinnedFromLinkLocal edge in
  let rl := Edge_PinnedToLinkLocal edge in
  if non_empty ll && non_empty rl then
    (markLinkLocal rl (markLinkLocal ll p2), set_linkLocal ll rl a2, true)
  else (p2, a2, h2).

(** Phase 3: all links, in the order given. *)
Definition reserve_all (p : pools) (links : list linkEntity) : pools * gmap string pairAllocation :=
  foldl (fun '(p, m) link =>
    let '(p', a, hasAnyPin) := reserve_link p link in
    (p', if (hasAnyPin : bool) then <[ lk_linkKey link := a ]> m else m)) (p, ∅) links.

(** Phase 4, one link. *)
Definition fill_ports (p : pools) (link : linkEntity) (a : pairAllocation)
  : result goerror (pools * pairAllocation) :=
  if (0 <? al_fromPort a) || (0 <? al_toPort a) then Ok (p, a)
  else
    let fromNode := lk_fromNode link in
    let toNode := lk_toNode link in
    let! (p1, fp) :=
      (if is_client fromNode then Ok (p, al_fromPort a)
       else let! port := lowestFreePort fromNode (usedPorts p) in
            Ok (markPort (Node_ID fromNode) port p, port)) in
    let! (p2, tp) :=
      (if is_client toNode then Ok (p1, al_toPort a)
       else let! port := lowestFreePort toNode (usedPorts p1) in
            Ok (markPort (Node_ID toNode) port p1, port)) in
    Ok (p2, set_ports fp tp a).

Definition fill_transit (p : pools) (link : linkEntity) (a : pairAllocation)
  : result goerror (pools * pairAllocation) :=
  if non_empty (al_localTransit a) && non_empty (al_remoteTransit a) then Ok (p, a)
  else
    match gapFillTransitPair (lk_transitCIDR link) (usedTransitIPs p) with
    | Err err => Err (Wrapped ("transit address allocation failed for " +:+ Node_Name (lk_fromNode link)
                                 +:+ "<->" +:+ Node_Name (lk_toNode link)) err)
    | Ok (l, r) =>
        Ok (markTransit (lk_transitCIDR link) r (markTransit (lk_transitCIDR link) l p), set_transit l r a)
    end.

Definition fill_linkLocal (p : pools) (a : pairAllocation) : pools * pairAllocation :=
  if non_empty (al_localLL a) && non_empty (al_remoteLL a) then (p, a)
  else
    let '(l, r) := gapFillLinkLocalPair (usedLinkLocals p) in
    (markLinkLocal r (markLinkLocal l p), set_linkLocal l r a).

Definition fill_link (pinned : gmap string pairAllocation)
    (st : pools * gmap string pairAllocation) (link : linkEntity)
  : result goerror (pools * gmap string pairAllocation) :=
  let '(p, allocations) := st in
  let a0 := match pinned !! lk_linkKey link with Some a => a | None => blank_alloc link end in
  let! (p1, a1) := fill_ports p link a0 in
  let! (p2, a2) := fill_transit p1 link a1 in
  let '(p3, a3) := fill_linkLocal p2 a2 in
  Ok (p3, <[ lk_linkKey link := a3 ]> allocations).

Definition preallocateLinkResources (links : list linkEntity) (reserved : option pools)
  : result goerror (gmap string pairAllocation) :=
  let p0 := match reserved with Some r => r | None => empty_pools end in
  let '(p, pinned) := reserve_all p0 links in
  let! (_, allocations) := foldM (fill_link pinned) (p, ∅) (sort_by lk_linkKey links) in
  Ok allocations.
