(* ===== verification/PeersAllocProps.v ===== *)
(** * Properties of link grouping and allocation

    Stickiness of pins, disjointness of the resources of different links,
    independence of the order links arrive in, the fixed point of recompiling,
    and totality of the unbounded link-local scan, all for
    [preallocateLinkResources]. *)

From stdpp Require Import base gmap strings list sets fin_sets sorting.
From Stdlib Require Import ZArith Lia.
From S2P Require Import Prelude GoLib GoNet Model LinkID PeersAlloc.

Local Open Scope Z_scope.
Local Open Scope go_scope.

(** ** Link-local scan *)

Lemma linkLocal_inj i j :
  0 <= i -> 0 <= j -> (("fe80::" +:+ fmt_x i) = ("fe80::" +:+ fmt_x j))%string -> i = j.
Proof. intros Hi Hj He%append_inj_l. by apply fmt_x_inj. Qed.

(** If every one of [n] candidates is blocked by some used element, and
    different candidates by different elements, there are at least [n] used
    elements. *)
Lemma pigeonhole_blocked {A} `{Countable A} (used : gset A) (key : Z -> A) (n : nat) :
  (forall i, 0 <= i < Z.of_nat n -> key i ∈ used) ->
  (forall i j, 0 <= i < Z.of_nat n -> 0 <= j < Z.of_nat n -> key i = key j -> i = j) ->
  (n <= size used)%nat.
Proof.
  intros Hin Hinj. set (l := (fun k => key (Z.of_nat k)) <$> seq 0 n).
  assert (NoDup l) as Hnd.
  { apply NoDup_fmap_2_strong; [|apply NoDup_seq]. intros x y Hx%elem_of_seq Hy%elem_of_seq Hk.
    apply Hinj in Hk; lia. }
  assert (list_to_set l ⊆ used) as Hsub.
  { intros x Hx%elem_of_list_to_set. apply list_elem_of_fmap in Hx as (k & -> & Hk%elem_of_seq).
    apply Hin. lia. }
  apply subseteq_size in Hsub. rewrite size_list_to_set in Hsub by done.
  unfold l in Hsub. by rewrite length_fmap, length_seq in Hsub.
Qed.

Lemma try_linkLocal_None used i :
  try_linkLocal used i = None ->
  ("fe80::" +:+ fmt_x (2 * i + 1))%string ∈ used \/ ("fe80::" +:+ fmt_x (2 * i + 1 + 1))%string ∈ used.
Proof.
  unfold try_linkLocal, allocateLinkLocalPair.
  destruct (bool_decide _ || bool_decide _) eqn:E; [|done]. intros _.
  apply orb_prop in E as [?%bool_decide_eq_true|?%bool_decide_eq_true]; auto.
Qed.

Lemma gapFillLinkLocalPair_some used :
  exists l r, first_from (try_linkLocal used) 0 (S (size used)) = Some (l, r).
Proof.
  destruct (first_from _ _ _) as [[l r]|] eqn:E; [eauto|]. exfalso.
  rewrite first_from_None in E.
  set (key i := if bool_decide (("fe80::" +:+ fmt_x (2 * i + 1))%string ∈ used)
                then ("fe80::" +:+ fmt_x (2 * i + 1))%string
                else ("fe80::" +:+ fmt_x (2 * i + 1 + 1))%string).
  assert (S (size used) <= size used)%nat; [|lia].
  apply (pigeonhole_blocked used key).
  - intros i Hi. unfold key. case_bool_decide; [done|].
    destruct (try_linkLocal_None used i) as [?|?]; [apply E; lia|done|done].
  - intros i j Hi Hj. unfold key. repeat case_bool_decide; intros Hk%linkLocal_inj; lia.
Qed.

Lemma gapFillLinkLocalPair_spec used l r :
  gapFillLinkLocalPair used = (l, r) ->
  (l ∉ used) /\ (r ∉ used) /\ l <> r /\ l <> "" /\ r <> "" /\
  exists i, 0 <= i /\ (l, r) = allocateLinkLocalPair i.
Proof.
  unfold gapFillLinkLocalPair. destruct (gapFillLinkLocalPair_some used) as (l' & r' & E).
  rewrite E. intros [= -> ->]. apply first_from_Some in E as (i & Hi & Hf & _).
  unfold try_linkLocal in Hf. destruct (allocateLinkLocalPair i) as [a b] eqn:Ea.
  destruct (bool_decide _ || bool_decide _) eqn:Eb; [done|]. injection Hf as -> ->.
  apply orb_false_iff in Eb as [?%bool_decide_eq_false ?%bool_decide_eq_false].
  unfold allocateLinkLocalPair in Ea. injection Ea as <- <-.
  repeat split; try done.
  - intros He%linkLocal_inj; lia.
  - exists i. split; [lia|]. done.
Qed.

(** ** Transit scan *)

Lemma allocateTransitPair_distinct i cidr a b :
  allocateTransitPair i cidr = Ok (a, b) -> a <> b /\ a <> "" /\ b <> "".
Proof.
  unfold allocateTransitPair. destruct (ParseCIDR _) as [n|]; [|done].
  destruct (net_to4 n) as [u|]; [|done]. case_match; [done|]. case_match eqn:E; [done|].
  intros [= <- <-]. split; [|split; apply ipv4_string_nonempty].
  intros He. apply ipv4_string_inj in He; [|apply u32_range..].
  set (x := u32 (u + u32 (2 * i + 1))) in *.
  pose proof (u32_range (u + u32 (2 * i + 1)) : is_u32 x) as Hx. unfold is_u32 in Hx.
  destruct (Z.eq_dec x (2 ^ 32 - 1)) as [E1|E1].
  - rewrite E1 in He. discriminate He.
  - rewrite u32_small in He by (unfold is_u32; lia). lia.
Qed.

Lemma gapFillTransitPair_spec cidr used l r :
  gapFillTransitPair cidr used = Ok (l, r) ->
  ((cidr, l) ∉ used) /\ ((cidr, r) ∉ used) /\ l <> r /\ l <> "" /\ r <> "" /\
  exists i, 0 <= i /\ allocateTransitPair i cidr = Ok (l, r).
Proof.
  unfold gapFillTransitPair. intros (k & Hk & Hf)%rbind_Ok_inv. case_match; [done|].
  destruct (first_from _ _ _) as [pr|] eqn:E; [|done]. injection Hf as ->.
  apply first_from_Some in E as (i & Hi & Hf & _).
  destruct (allocateTransitPair i cidr) as [[a b]|] eqn:Ea; [|done].
  destruct (bool_decide _ || bool_decide _) eqn:Eb; [done|]. injection Hf as -> ->.
  apply orb_false_iff in Eb as [?%bool_decide_eq_false ?%bool_decide_eq_false].
  apply allocateTransitPair_distinct in Ea as Hd. destruct Hd as (? & ? & ?).
  repeat split; try done. exists i. split; [lia|done].
Qed.

(** ** Ports *)

Lemma lowestFreePort_spec node used port :
  lowestFreePort node used = Ok port ->
  ((Node_ID node, port) ∉ used) /\ WGListenPortBase <= port <= 65535 /\
  forall q, WGListenPortBase <= q < port -> (Node_ID node, q) ∈ used.
Proof.
  unfold lowestFreePort. destruct (first_from _ _ _) eqn:E; [|done]. intros [= ->].
  apply first_from_Some in E as (i & Hi & Hf & Hmin). case_bool_decide; [done|]. injection Hf as ->.
  split; [done|]. split; [unfold WGListenPortBase in *; lia|].
  intros q Hq. specialize (Hmin q Hq). by case_bool_decide.
Qed.

(** ** Resources *)

(** A resource: a port on a node, an address of a transit pool, a link-local. *)
Inductive resource :=
| RPort (nodeID : string) (port : Z)
| RTransit (cidr ip : string)
| RLinkLocal (ll : string).

Definition in_pools (r : resource) (p : pools) : Prop :=
  match r with
  | RPort n q => (n, q) ∈ usedPorts p
  | RTransit c i => (c, i) ∈ usedTransitIPs p
  | RLinkLocal l => l ∈ usedLinkLocals p
  end.

(** The resources an allocation of [link] occupies. *)
Definition occupies (link : linkEntity) (a : pairAllocation) (r : resource) : Prop :=
  match r with
  | RPort n q =>
      (n = Node_ID (lk_fromNode link) /\ q = al_fromPort a /\ 0 < q) \/
      (n = Node_ID (lk_toNode link) /\ q = al_toPort a /\ 0 < q)
  | RTransit c i =>
      c = lk_transitCIDR link /\ (i = al_localTransit a \/ i = al_remoteTransit a) /\
      al_localTransit a <> "" /\ al_remoteTransit a <> ""
  | RLinkLocal l =>
      (l = al_localLL a \/ l = al_remoteLL a) /\ al_localLL a <> "" /\ al_remoteLL a <> ""
  end.

(** The allocation phase 3 reads off the pins of a link. *)
Definition pinned_alloc (link : linkEntity) : pairAllocation := (reserve_link empty_pools link).1.2.

Lemma non_empty_true s : non_empty s = true <-> s <> "".
Proof. unfold non_empty. rewrite negb_true_iff. apply String.eqb_neq. Qed.
Lemma non_empty_false s : non_empty s = false <-> s = "".
Proof. unfold non_empty. rewrite negb_false_iff. apply String.eqb_eq. Qed.

Lemma reserve_link_spec p link :
  let '(p', a, h) := reserve_link p link in
  a = pinned_alloc link /\ (h = false -> a = blank_alloc link) /\
  forall r, in_pools r p' <-> in_pools r p \/ occupies link a r.
Proof.
  unfold pinned_alloc, reserve_link.
  set (fc := is_client (lk_fromNode link)). set (tc := is_client (lk_toNode link)).
  set (fp := Edge_PinnedFromPort (lk_primaryEdge link)). set (tp := Edge_PinnedToPort (lk_primaryEdge link)).
  set (lt := Edge_PinnedFromTransitIP (lk_primaryEdge link)). set (rt := Edge_PinnedToTransitIP (lk_primaryEdge link)).
  set (ll := Edge_PinnedFromLinkLocal (lk_primaryEdge link)). set (rl := Edge_PinnedToLinkLocal (lk_primaryEdge link)).
  destruct (non_empty lt && non_empty rt) eqn:ET; destruct (non_empty ll && non_empty rl) eqn:EL;
  rewrite ?andb_true_iff, ?non_empty_true in ET; rewrite ?andb_true_iff, ?non_empty_true in EL;
  destruct fc, tc; cbn [negb andb];
  repeat match goal with |- context [0 <? ?x] => destruct (Z.ltb_spec 0 x) end;
  cbn [andb]; (split; [reflexivity|]); (split; [done || reflexivity|]);
  intros [n q|c i|l]; cbn; set_solver by lia.
Qed.

(** ** One gap-fill step *)

(** What a gap-fill step from [(p, a)] to [(p', a')] guarantees: the pools only
    grow, nothing the allocation held is given up, and what it gains was free
    and is now marked. *)
Record grows (link : linkEntity) (p : pools) (a : pairAllocation) (p' : pools) (a' : pairAllocation) : Prop := {
  grows_mono : forall r, in_pools r p -> in_pools r p';
  grows_keep : forall r, occupies link a r -> occupies link a' r;
  grows_new : forall r, occupies link a' r -> occupies link a r \/ (~ in_pools r p /\ in_pools r p');
  grows_owned : forall r, in_pools r p' -> in_pools r p \/ occupies link a' r;
  grows_from : al_fromNodeID a' = al_fromNodeID a;
  grows_to : al_toNodeID a' = al_toNodeID a }.

Lemma grows_refl link p a : grows link p a p a.
Proof. split; auto. Qed.

Lemma grows_trans link p a p1 a1 p2 a2 :
  grows link p a p1 a1 -> grows link p1 a1 p2 a2 -> grows link p a p2 a2.
Proof.
  intros G1 G2. split.
  - intros r Hr. by apply G2, G1.
  - intros r Hr. by apply G2, G1.
  - intros r Hr. apply (grows_new _ _ _ _ _ G2) in Hr as [Hr|[Hn Hr]].
    + apply (grows_new _ _ _ _ _ G1) in Hr as [Hr|[Hn Hr]]; [by left|]. right. split; [done|]. by apply G2.
    + right. split; [|done]. intros Hp. by apply Hn, G1.
  - intros r [Hr|Hr]%(grows_owned _ _ _ _ _ G2); [|by right].
    apply (grows_owned _ _ _ _ _ G1) in Hr as [Hr|Hr]; [by left|]. right. by apply G2.
  - rewrite (grows_from _ _ _ _ _ G2). apply G1.
  - rewrite (grows_to _ _ _ _ _ G2). apply G1.
Qed.

(** The port side of one endpoint. *)
Definition side_port (node : Node) (p : pools) (q0 : Z) : result goerror (pools * Z) :=
  if is_client node then Ok (p, q0)
  else let! port := lowestFreePort node (usedPorts p) in Ok (markPort (Node_ID node) port p, port).

Lemma side_port_spec node p q0 p' q :
  side_port node p q0 = Ok (p', q) ->
  (is_client node = true /\ p' = p /\ q = q0) \/
  (is_client node = false /\ ((Node_ID node, q) ∉ usedPorts p) /\ WGListenPortBase <= q <= 65535 /\
   p' = markPort (Node_ID node) q p).
Proof.
  unfold side_port. destruct (is_client node).
  - intros [= <- <-]. auto.
  - intros (port & Hp & [= <- <-])%rbind_Ok_inv. right.
    apply lowestFreePort_spec in Hp as (? & ? & _). auto.
Qed.

Lemma fill_ports_cases p link a p' a' :
  fill_ports p link a = Ok (p', a') ->
  (p' = p /\ a' = a /\ (0 < al_fromPort a \/ 0 < al_toPort a)) \/
  (al_fromPort a <= 0 /\ al_toPort a <= 0 /\
   exists p1 fp tp, side_port (lk_fromNode link) p (al_fromPort a) = Ok (p1, fp) /\
     side_port (lk_toNode link) p1 (al_toPort a) = Ok (p', tp) /\ a' = set_ports fp tp a).
Proof.
  unfold fill_ports. fold (side_port (lk_fromNode link) p (al_fromPort a)).
  destruct (Z.ltb_spec 0 (al_fromPort a)), (Z.ltb_spec 0 (al_toPort a)); cbn [orb];
    [intros [= <- <-]; left; auto..|].
  intros ([p1 fp] & H1 & H2)%rbind_Ok_inv. fold (side_port (lk_toNode link) p1 (al_toPort a)) in H2.
  apply rbind_Ok_inv in H2 as ([p2 tp] & H2 & [= <- <-]). right. eauto 10.
Qed.

Lemma fill_ports_grows p link a p' a' :
  fill_ports p link a = Ok (p', a') -> grows link p a p' a'.
Proof.
  intros [(-> & -> & _)|(Hf & Ht & p1 & fp & tp & H1 & H2 & ->)]%fill_ports_cases; [apply grows_refl|].
  unfold WGListenPortBase in *.
  apply side_port_spec in H1 as [(_ & -> & ->)|(_ & Hn1 & Hb1 & ->)];
  apply side_port_spec in H2 as [(_ & -> & ->)|(_ & Hn2 & Hb2 & ->)];
  unfold WGListenPortBase in *;
  (split; [| | | |done..]); intros [n q|c i|l]; cbn in *; set_solver by lia.
Qed.

Lemma fill_transit_cases p link a p' a' :
  fill_transit p link a = Ok (p', a') ->
  (p' = p /\ a' = a /\ al_localTransit a <> "" /\ al_remoteTransit a <> "") \/
  (~ (al_localTransit a <> "" /\ al_remoteTransit a <> "") /\
   exists l r, gapFillTransitPair (lk_transitCIDR link) (usedTransitIPs p) = Ok (l, r) /\
     p' = markTransit (lk_transitCIDR link) r (markTransit (lk_transitCIDR link) l p) /\ a' = set_transit l r a).
Proof.
  unfold fill_transit. destruct (non_empty _ && non_empty _) eqn:E.
  - intros [= <- <-]. left. rewrite andb_true_iff, !non_empty_true in E. tauto.
  - destruct (gapFillTransitPair _ _) as [[l r]|]; [|done]. intros [= <- <-]. right. split; [|eauto].
    intros [?%non_empty_true ?%non_empty_true]. by rewrite andb_false_iff in E; destruct E; congruence.
Qed.

Lemma fill_transit_grows p link a p' a' :
  fill_transit p link a = Ok (p', a') -> grows link p a p' a'.
Proof.
  intros [(-> & -> & _)|(Hno & l & r & Hg & -> & ->)]%fill_transit_cases; [apply grows_refl|].
  apply gapFillTransitPair_spec in Hg as (Hl & Hr & Hlr & Hl0 & Hr0 & _).
  split; [| | | |done..]; intros [n q|c i|ll]; cbn in *; set_solver.
Qed.

Lemma fill_linkLocal_cases p a p' a' :
  fill_linkLocal p a = (p', a') ->
  (p' = p /\ a' = a /\ al_localLL a <> "" /\ al_remoteLL a <> "") \/
  (~ (al_localLL a <> "" /\ al_remoteLL a <> "") /\
   exists l r, gapFillLinkLocalPair (usedLinkLocals p) = (l, r) /\
     p' = markLinkLocal r (markLinkLocal l p) /\ a' = set_linkLocal l r a).
Proof.
  unfold fill_linkLocal. destruct (non_empty _ && non_empty _) eqn:E.
  - intros [= <- <-]. left. rewrite andb_true_iff, !non_empty_true in E. tauto.
  - destruct (gapFillLinkLocalPair _) as [l r] eqn:Eg. intros [= <- <-]. right. split; [|eauto].
    intros [?%non_empty_true ?%non_empty_true]. by rewrite andb_false_iff in E; destruct E; congruence.
Qed.

Lemma fill_linkLocal_grows link p a p' a' : fill_linkLocal p a = (p', a') -> grows link p a p' a'.
Proof.
  intros [(-> & -> & _)|(Hno & l & r & Hg & -> & ->)]%fill_linkLocal_cases; [apply grows_refl|].
  apply gapFillLinkLocalPair_spec in Hg as (Hl & Hr & Hlr & Hl0 & Hr0 & _).
  split; [| | | |done..]; intros [n q|c i|ll]; cbn in *; set_solver.
Qed.

(** Filling one link, seen on the allocation alone. *)
Definition fill_one (p : pools) (link : linkEntity) (a : pairAllocation) : result goerror (pools * pairAllocation) :=
  let! (p1, a1) := fill_ports p link a in
  let! (p2, a2) := fill_transit p1 link a1 in
  Ok (fill_linkLocal p2 a2).

Lemma fill_link_fill_one pinned p m link :
  fill_link pinned (p, m) link =
  (let! (p', a') := fill_one p link (default (blank_alloc link) (pinned !! lk_linkKey link)) in
   Ok (p', <[lk_linkKey link := a']> m)).
Proof.
  unfold fill_link, fill_one. replace (match pinned !! lk_linkKey link with Some a => a | None => blank_alloc link end)
    with (default (blank_alloc link) (pinned !! lk_linkKey link)) by (by destruct (pinned !! _)).
  destruct (fill_ports _ _ _) as [[p1 a1]|]; [|done]. cbn [rbind].
  destruct (fill_transit _ _ _) as [[p2 a2]|]; [|done]. cbn [rbind].
  by destruct (fill_linkLocal p2 a2).
Qed.

Lemma fill_one_inv p link a p' a' :
  fill_one p link a = Ok (p', a') ->
  exists p1 a1 p2 a2, fill_ports p link a = Ok (p1, a1) /\ fill_transit p1 link a1 = Ok (p2, a2) /\
    fill_linkLocal p2 a2 = (p', a').
Proof.
  unfold fill_one. intros ([p1 a1] & H1 & ([p2 a2] & H2 & [= H3])%rbind_Ok_inv)%rbind_Ok_inv. eauto 10.
Qed.

Lemma fill_one_grows p link a p' a' : fill_one p link a = Ok (p', a') -> grows link p a p' a'.
Proof.
  intros (p1 & a1 & p2 & a2 & H1 & H2 & H3)%fill_one_inv.
  eapply grows_trans; [by eapply fill_ports_grows|].
  eapply grows_trans; [by eapply fill_transit_grows|]. by eapply fill_linkLocal_grows.
Qed.

(** ** Shape of a finished allocation *)

(** Ports exist exactly on the non-client sides. *)
Definition well_ported (link : linkEntity) (a : pairAllocation) : Prop :=
  (if is_client (lk_fromNode link) then al_fromPort a = 0 else 0 < al_fromPort a) /\
  (if is_client (lk_toNode link) then al_toPort a = 0 else 0 < al_toPort a).

Record complete (link : linkEntity) (a : pairAllocation) : Prop := {
  complete_from : al_fromNodeID a = Node_ID (lk_fromNode link);
  complete_to : al_toNodeID a = Node_ID (lk_toNode link);
  complete_ports : well_ported link a;
  complete_transit : al_localTransit a <> "" /\ al_remoteTransit a <> "";
  complete_ll : al_localLL a <> "" /\ al_remoteLL a <> "" }.

Lemma pinned_alloc_shape link :
  let a := pinned_alloc link in let e := lk_primaryEdge link in
  al_fromNodeID a = Node_ID (lk_fromNode link) /\ al_toNodeID a = Node_ID (lk_toNode link) /\
  ((al_fromPort a = 0 /\ al_toPort a = 0) \/ well_ported link a) /\
  (if non_empty (Edge_PinnedFromTransitIP e) && non_empty (Edge_PinnedToTransitIP e)
   then al_localTransit a = Edge_PinnedFromTransitIP e /\ al_remoteTransit a = Edge_PinnedToTransitIP e
   else al_localTransit a = "" /\ al_remoteTransit a = "") /\
  (if non_empty (Edge_PinnedFromLinkLocal e) && non_empty (Edge_PinnedToLinkLocal e)
   then al_localLL a = Edge_PinnedFromLinkLocal e /\ al_remoteLL a = Edge_PinnedToLinkLocal e
   else al_localLL a = "" /\ al_remoteLL a = "").
Proof.
  unfold pinned_alloc, reserve_link, well_ported. cbv zeta.
  destruct (non_empty (Edge_PinnedFromTransitIP _) && _), (non_empty (Edge_PinnedFromLinkLocal _) && _);
  destruct (is_client (lk_fromNode link)), (is_client (lk_toNode link)); cbn [negb andb];
  repeat match goal with |- context [0 <? ?x] => destruct (Z.ltb_spec 0 x) end; cbn; repeat split; auto.
Qed.

(** The ports phase 3 reads off the pins. *)
Lemma pinned_alloc_ports link :
  let a := pinned_alloc link in let e := lk_primaryEdge link in
  (al_fromPort a, al_toPort a) =
  (if is_client (lk_fromNode link) then
     if is_client (lk_toNode link) then (0, 0)
     else if 0 <? Edge_PinnedToPort e then (0, Edge_PinnedToPort e) else (0, 0)
   else if is_client (lk_toNode link) then
     if 0 <? Edge_PinnedFromPort e then (Edge_PinnedFromPort e, 0) else (0, 0)
   else if (0 <? Edge_PinnedFromPort e) && (0 <? Edge_PinnedToPort e)
        then (Edge_PinnedFromPort e, Edge_PinnedToPort e) else (0, 0)).
Proof.
  unfold pinned_alloc, reserve_link. cbv zeta.
  destruct (non_empty (Edge_PinnedFromTransitIP _) && _), (non_empty (Edge_PinnedFromLinkLocal _) && _);
  destruct (is_client (lk_fromNode link)), (is_client (lk_toNode link)); cbn [negb andb];
  repeat match goal with |- context [0 <? ?x] => destruct (Z.ltb_spec 0 x) end; done.
Qed.

Lemma fill_ports_well_ported p link a p' a' :
  (al_fromPort a = 0 /\ al_toPort a = 0) \/ well_ported link a ->
  fill_ports p link a = Ok (p', a') ->
  well_ported link a' /\ al_localTransit a' = al_localTransit a /\ al_remoteTransit a' = al_remoteTransit a /\
  al_localLL a' = al_localLL a /\ al_remoteLL a' = al_remoteLL a.
Proof.
  intros Ha [(-> & -> & Hp)|(Hf & Ht & p1 & fp & tp & H1 & H2 & ->)]%fill_ports_cases.
  - split; [|done]. destruct Ha as [[??]|?]; [lia|done].
  - split; [|done]. assert (al_fromPort a = 0 /\ al_toPort a = 0) as [F0 T0].
    { destruct Ha as [?|[W1 W2]]; [done|]. destruct (is_client (lk_fromNode link)), (is_client (lk_toNode link)); lia. }
    unfold well_ported, WGListenPortBase in *. cbn.
    apply side_port_spec in H1 as [(-> & -> & ->)|(-> & _ & ? & ->)];
    apply side_port_spec in H2 as [(-> & -> & ->)|(-> & _ & ? & ->)]; unfold WGListenPortBase in *; lia.
Qed.

Lemma fill_one_complete p link p' a' :
  fill_one p link (pinned_alloc link) = Ok (p', a') -> complete link a'.
Proof.
  intros Hf. pose proof (fill_one_grows _ _ _ _ _ Hf) as G.
  apply fill_one_inv in Hf as (p1 & a1 & p2 & a2 & H1 & H2 & H3).
  destruct (pinned_alloc_shape link) as (Hfr & Hto & Hpo & _).
  apply fill_ports_well_ported in H1 as (Hw & _); [|done].
  split.
  - rewrite (grows_from _ _ _ _ _ G). done.
  - rewrite (grows_to _ _ _ _ _ G). done.
  - apply fill_transit_cases in H2 as [(_ & -> & _)|(_ & l & r & _ & _ & ->)];
    apply fill_linkLocal_cases in H3 as [(_ & -> & _)|(_ & l' & r' & _ & _ & ->)]; done.
  - assert (al_localTransit a2 <> "" /\ al_remoteTransit a2 <> "") as Ht.
    { apply fill_transit_cases in H2 as [(_ & -> & ?)|(_ & l & r & Hg & _ & ->)]; [done|].
      apply gapFillTransitPair_spec in Hg as (_ & _ & _ & ? & ? & _). done. }
    apply fill_linkLocal_cases in H3 as [(_ & -> & _)|(_ & l' & r' & _ & _ & ->)]; done.
  - apply fill_linkLocal_cases in H3 as [(_ & -> & ?)|(_ & l' & r' & Hg & _ & ->)]; [done|].
    apply gapFillLinkLocalPair_spec in Hg as (_ & _ & _ & ? & ? & _). done.
Qed.

(** ** Phase 3 on all links *)

Lemma reserve_all_inv p0 links :
  NoDup (lk_linkKey <$> links) ->
  (forall r, in_pools r (reserve_all p0 links).1 <->
     in_pools r p0 \/ exists l, l ∈ links /\ occupies l (pinned_alloc l) r) /\
  (forall k, is_Some ((reserve_all p0 links).2 !! k) -> k ∈ lk_linkKey <$> links) /\
  (forall l, l ∈ links -> default (blank_alloc l) ((reserve_all p0 links).2 !! lk_linkKey l) = pinned_alloc l).
Proof.
  intros Hnd. unfold reserve_all.
  apply (foldl_inv (fun pre (st : pools * gmap string pairAllocation) =>
    (forall r, in_pools r st.1 <-> in_pools r p0 \/ exists l, l ∈ pre /\ occupies l (pinned_alloc l) r) /\
    (forall k, is_Some (st.2 !! k) -> k ∈ lk_linkKey <$> pre) /\
    (forall l, l ∈ pre -> default (blank_alloc l) (st.2 !! lk_linkKey l) = pinned_alloc l))).
  - cbn. split; [|split]; [set_solver| |set_solver]. intros k [x Hx]. by rewrite lookup_empty in Hx.
  - intros pre l post st Hpre. destruct st as [p1 m1]. intros (Hp & Hd & Hm). cbn in Hp, Hd, Hm.
    rewrite Hpre, fmap_app, NoDup_app in Hnd. destruct Hnd as (_ & Hdis & _).
    assert (lk_linkKey l ∉ lk_linkKey <$> pre) as Hfresh by (intros Hin; eapply Hdis; [exact Hin|]; set_solver).
    pose proof (reserve_link_spec p1 l) as Hs. destruct (reserve_link p1 l) as [[p2 a] h].
    destruct Hs as (-> & Hblank & Hs). cbn [fst snd]. split; [|split].
    + intros r. rewrite Hs, Hp. set_solver.
    + intros k. rewrite fmap_app, elem_of_app. destruct h; [rewrite lookup_insert_is_Some|]; set_solver.
    + intros l' [Hl'| ->]%elem_of_snoc.
      * assert (lk_linkKey l' <> lk_linkKey l) by (intros E; apply Hfresh; rewrite <- E; by apply list_elem_of_fmap_2).
        destruct h; [rewrite lookup_insert_ne by done|]; auto.
      * destruct h; [by rewrite lookup_insert_eq|]. rewrite Hblank by done.
        destruct (m1 !! lk_linkKey l) eqn:E; [|done]. exfalso. apply Hfresh, Hd. eauto.
Qed.

(** The pools after phase 3 hold the seed and exactly what the pins occupy;
    every link's starting point is what its own pins say. *)
Lemma reserve_all_spec p0 links p pinned :
  NoDup (lk_linkKey <$> links) ->
  reserve_all p0 links = (p, pinned) ->
  (forall r, in_pools r p <-> in_pools r p0 \/ exists l, l ∈ links /\ occupies l (pinned_alloc l) r) /\
  (forall l, l ∈ links -> default (blank_alloc l) (pinned !! lk_linkKey l) = pinned_alloc l).
Proof.
  intros Hnd E. destruct (reserve_all_inv p0 links Hnd) as (H1 & _ & H2). rewrite E in H1, H2. auto.
Qed.
