(* ===== verification/PeersAllocCorrect.v ===== *)
(** * Correctness of per-link allocation

    The theorems about [preallocateLinkResources] as a whole: pins are sticky,
    different links never share a resource unless their pins already did, the
    result does not depend on the order links arrive in, a compiled link set is
    a fixed point, and the reserved resources of a surrounding topology are
    avoided. *)

From stdpp Require Import base gmap strings list sets fin_sets sorting.
From Stdlib Require Import ZArith Lia.
From S2P Require Import Prelude GoLib GoNet Model LinkID PeersAlloc PeersAllocProps.

Local Open Scope Z_scope.
Local Open Scope go_scope.

(** ** Pins are kept literally *)

(** [a] carries every pin of the link that phase 3 honours. *)
Record keeps_pins (link : linkEntity) (a : pairAllocation) : Prop := {
  keep_ports :
    0 < al_fromPort (pinned_alloc link) \/ 0 < al_toPort (pinned_alloc link) ->
    al_fromPort a = al_fromPort (pinned_alloc link) /\ al_toPort a = al_toPort (pinned_alloc link);
  keep_transit :
    Edge_PinnedFromTransitIP (lk_primaryEdge link) <> "" -> Edge_PinnedToTransitIP (lk_primaryEdge link) <> "" ->
    al_localTransit a = Edge_PinnedFromTransitIP (lk_primaryEdge link) /\
    al_remoteTransit a = Edge_PinnedToTransitIP (lk_primaryEdge link);
  keep_ll :
    Edge_PinnedFromLinkLocal (lk_primaryEdge link) <> "" -> Edge_PinnedToLinkLocal (lk_primaryEdge link) <> "" ->
    al_localLL a = Edge_PinnedFromLinkLocal (lk_primaryEdge link) /\
    al_remoteLL a = Edge_PinnedToLinkLocal (lk_primaryEdge link);
  fresh_ports : forall q, q = al_fromPort a \/ q = al_toPort a -> 0 < q ->
    q = al_fromPort (pinned_alloc link) \/ q = al_toPort (pinned_alloc link) \/ WGListenPortBase <= q <= 65535;
  fresh_transit :
    (al_localTransit a = al_localTransit (pinned_alloc link) /\ al_remoteTransit a = al_remoteTransit (pinned_alloc link)) \/
    exists i, 0 <= i /\ allocateTransitPair i (lk_transitCIDR link) = Ok (al_localTransit a, al_remoteTransit a);
  fresh_ll :
    (al_localLL a = al_localLL (pinned_alloc link) /\ al_remoteLL a = al_remoteLL (pinned_alloc link)) \/
    exists i, 0 <= i /\ (al_localLL a, al_remoteLL a) = allocateLinkLocalPair i }.

Lemma pinned_pair_transit link :
  Edge_PinnedFromTransitIP (lk_primaryEdge link) <> "" -> Edge_PinnedToTransitIP (lk_primaryEdge link) <> "" ->
  al_localTransit (pinned_alloc link) = Edge_PinnedFromTransitIP (lk_primaryEdge link) /\
  al_remoteTransit (pinned_alloc link) = Edge_PinnedToTransitIP (lk_primaryEdge link).
Proof.
  intros H1%non_empty_true H2%non_empty_true. destruct (pinned_alloc_shape link) as (_ & _ & _ & H & _).
  by rewrite H1, H2 in H.
Qed.

Lemma pinned_pair_ll link :
  Edge_PinnedFromLinkLocal (lk_primaryEdge link) <> "" -> Edge_PinnedToLinkLocal (lk_primaryEdge link) <> "" ->
  al_localLL (pinned_alloc link) = Edge_PinnedFromLinkLocal (lk_primaryEdge link) /\
  al_remoteLL (pinned_alloc link) = Edge_PinnedToLinkLocal (lk_primaryEdge link).
Proof.
  intros H1%non_empty_true H2%non_empty_true. destruct (pinned_alloc_shape link) as (_ & _ & _ & _ & H).
  by rewrite H1, H2 in H.
Qed.

Lemma fill_ports_other p link a p' a' :
  fill_ports p link a = Ok (p', a') ->
  al_localTransit a' = al_localTransit a /\ al_remoteTransit a' = al_remoteTransit a /\
  al_localLL a' = al_localLL a /\ al_remoteLL a' = al_remoteLL a /\
  (0 < al_fromPort a \/ 0 < al_toPort a -> al_fromPort a' = al_fromPort a /\ al_toPort a' = al_toPort a).
Proof.
  intros [(-> & -> & _)|(? & ? & p1 & fp & tp & _ & _ & ->)]%fill_ports_cases; cbn; repeat split; auto; lia.
Qed.

Lemma fill_transit_other p link a p' a' :
  fill_transit p link a = Ok (p', a') ->
  al_fromPort a' = al_fromPort a /\ al_toPort a' = al_toPort a /\
  al_localLL a' = al_localLL a /\ al_remoteLL a' = al_remoteLL a /\
  (al_localTransit a <> "" -> al_remoteTransit a <> "" ->
   al_localTransit a' = al_localTransit a /\ al_remoteTransit a' = al_remoteTransit a).
Proof.
  intros [(-> & -> & _)|(Hno & l & r & _ & _ & ->)]%fill_transit_cases; cbn; repeat split; auto; by destruct Hno.
Qed.

Lemma fill_linkLocal_other p a p' a' :
  fill_linkLocal p a = (p', a') ->
  al_fromPort a' = al_fromPort a /\ al_toPort a' = al_toPort a /\
  al_localTransit a' = al_localTransit a /\ al_remoteTransit a' = al_remoteTransit a /\
  (al_localLL a <> "" -> al_remoteLL a <> "" -> al_localLL a' = al_localLL a /\ al_remoteLL a' = al_remoteLL a).
Proof.
  intros [(-> & -> & _)|(Hno & l & r & _ & _ & ->)]%fill_linkLocal_cases; cbn; repeat split; auto; by destruct Hno.
Qed.

Lemma fill_ports_fresh p link a p' a' q :
  fill_ports p link a = Ok (p', a') -> q = al_fromPort a' \/ q = al_toPort a' -> 0 < q ->
  q = al_fromPort a \/ q = al_toPort a \/ WGListenPortBase <= q <= 65535.
Proof.
  intros [(-> & -> & _)|(Hf & Ht & p1 & fp & tp & H1 & H2 & ->)]%fill_ports_cases; [tauto|]. cbn.
  apply side_port_spec in H1 as [(_ & _ & ->)|(_ & _ & ? & _)];
    apply side_port_spec in H2 as [(_ & _ & ->)|(_ & _ & ? & _)]; intros [->| ->]; lia.
Qed.

Lemma fill_transit_fresh p link a p' a' :
  fill_transit p link a = Ok (p', a') ->
  (al_localTransit a' = al_localTransit a /\ al_remoteTransit a' = al_remoteTransit a) \/
  exists i, 0 <= i /\ allocateTransitPair i (lk_transitCIDR link) = Ok (al_localTransit a', al_remoteTransit a').
Proof.
  intros [(-> & -> & _)|(_ & l & r & Hg & _ & ->)]%fill_transit_cases; [auto|]. right.
  by apply gapFillTransitPair_spec in Hg as (_ & _ & _ & _ & _ & ?).
Qed.

Lemma fill_linkLocal_fresh p a p' a' :
  fill_linkLocal p a = (p', a') ->
  (al_localLL a' = al_localLL a /\ al_remoteLL a' = al_remoteLL a) \/ exists i, 0 <= i /\ (al_localLL a', al_remoteLL a') = allocateLinkLocalPair i.
Proof.
  intros [(-> & -> & _)|(_ & l & r & Hg & _ & ->)]%fill_linkLocal_cases; [auto|]. right.
  by apply gapFillLinkLocalPair_spec in Hg as (_ & _ & _ & _ & _ & ?).
Qed.

Lemma fill_one_keeps p link p' a' :
  fill_one p link (pinned_alloc link) = Ok (p', a') -> keeps_pins link a'.
Proof.
  intros (p1 & a1 & p2 & a2 & H1 & H2 & H3)%fill_one_inv.
  pose proof (fun q => fill_ports_fresh _ _ _ _ _ q H1) as F1. pose proof (fill_transit_fresh _ _ _ _ _ H2) as F2.
  pose proof (fill_linkLocal_fresh _ _ _ _ H3) as F3.
  apply fill_ports_other in H1 as (T1 & T1' & L1 & L1' & P1).
  apply fill_transit_other in H2 as (P2 & P2' & L2 & L2' & T2).
  apply fill_linkLocal_other in H3 as (P3 & P3' & T3 & T3' & L3).
  split.
  - intros Hp. destruct (P1 Hp). split; congruence.
  - intros Hf Ht. destruct (pinned_pair_transit link Hf Ht). destruct T2 as [E1 E2]; [congruence..|]. split; congruence.
  - intros Hf Ht. destruct (pinned_pair_ll link Hf Ht). destruct L3 as [E1 E2]; [congruence..|]. split; congruence.
  - intros q. rewrite P3, P3', P2, P2'. apply F1.
  - by rewrite T3, T3', <- T1, <- T1'.
  - by rewrite <- L1, <- L1', <- L2, <- L2'.
Qed.

(** ** The invariant of phase 4 *)

(** What is known after phase 4 processed the links [pre], starting from the
    pools [P0] left by phase 3. *)
Record phase4_inv (P0 : pools) (pre : list linkEntity) (p : pools) (m : gmap string pairAllocation) : Prop := {
  inv_mono : forall r, in_pools r P0 -> in_pools r p;
  inv_dom : forall k a, m !! k = Some a -> exists l, l ∈ pre /\ lk_linkKey l = k;
  inv_link : forall l, l ∈ pre -> exists a,
    m !! lk_linkKey l = Some a /\ complete l a /\ keeps_pins l a /\
    (forall r, occupies l (pinned_alloc l) r -> occupies l a r) /\
    (forall r, occupies l a r -> in_pools r p /\ (occupies l (pinned_alloc l) r \/ ~ in_pools r P0));
  inv_owned : forall r, in_pools r p ->
    in_pools r P0 \/ exists l a, l ∈ pre /\ m !! lk_linkKey l = Some a /\ occupies l a r;
  inv_disjoint : forall l1 l2 a1 a2 r, l1 ∈ pre -> l2 ∈ pre -> lk_linkKey l1 <> lk_linkKey l2 ->
    m !! lk_linkKey l1 = Some a1 -> m !! lk_linkKey l2 = Some a2 ->
    occupies l1 a1 r -> occupies l2 a2 r ->
    occupies l1 (pinned_alloc l1) r /\ occupies l2 (pinned_alloc l2) r }.

(** Phase 3 has marked every pin of the links to come. *)
Definition pins_marked (P0 : pools) (links : list linkEntity) : Prop :=
  forall l r, l ∈ links -> occupies l (pinned_alloc l) r -> in_pools r P0.

Lemma phase4_step P0 pre l p m p' a' :
  pins_marked P0 (pre ++ [l]) -> lk_linkKey l ∉ lk_linkKey <$> pre ->
  phase4_inv P0 pre p m -> fill_one p l (pinned_alloc l) = Ok (p', a') ->
  phase4_inv P0 (pre ++ [l]) p' (<[lk_linkKey l := a']> m).
Proof.
  intros Hmk Hfresh I Hf.
  pose proof (fill_one_grows _ _ _ _ _ Hf) as G.
  pose proof (fill_one_complete _ _ _ _ Hf) as Hc. pose proof (fill_one_keeps _ _ _ _ Hf) as Hk.
  assert (forall l', l' ∈ pre -> lk_linkKey l' <> lk_linkKey l) as Hne
    by (intros l' Hl' E; apply Hfresh; rewrite <- E; by apply list_elem_of_fmap_2).
  assert (forall r, occupies l a' r -> in_pools r p' /\ (occupies l (pinned_alloc l) r \/ ~ in_pools r p)) as Hnew.
  { intros r Hr. apply (grows_new _ _ _ _ _ G) in Hr as [Hr|[??]]; [|auto]. split; [|auto].
    apply G, (inv_mono _ _ _ _ I), (Hmk l); [set_solver|done]. }
  split.
  - intros r Hr. by apply G, I.
  - intros k a [[<- _]|[_ Hm]]%lookup_insert_Some; [set_solver|].
    apply (inv_dom _ _ _ _ I) in Hm as (l' & ? & ?). exists l'. set_solver.
  - intros l' [Hl'| ->]%elem_of_snoc.
    + destruct (inv_link _ _ _ _ I l' Hl') as (a & Ha & ? & ? & ? & Ho). exists a.
      rewrite lookup_insert_ne by (by apply not_eq_sym, Hne). split_and!; auto.
      intros r Hr. destruct (Ho r Hr). split; [by apply G|done].
    + exists a'. rewrite lookup_insert_eq. split_and!; auto; [apply G|].
      intros r Hr. destruct (Hnew r Hr) as [? [?|Hn]]; [auto|]. split; [done|]. right. intros ?. by apply Hn, I.
  - intros r [Hr|Hr]%(grows_owned _ _ _ _ _ G).
    + apply (inv_owned _ _ _ _ I) in Hr as [?|(l' & a & Hl' & Ha & Ho)]; [by left|]. right. exists l', a.
      rewrite lookup_insert_ne by (by apply not_eq_sym, Hne). set_solver.
    + right. exists l, a'. rewrite lookup_insert_eq. set_solver.
  - intros l1 l2 a1 a2 r H1 H2 Hkk. revert l1 l2 a1 a2 H1 H2 Hkk.
    assert (forall l1 a1, l1 ∈ pre -> m !! lk_linkKey l1 = Some a1 -> occupies l1 a1 r -> occupies l a' r ->
      occupies l1 (pinned_alloc l1) r /\ occupies l (pinned_alloc l) r) as Hmix.
    { intros l1 a1 H1 Hm Ho1 Ho. destruct (inv_link _ _ _ _ I l1 H1) as (a & Ha & _ & _ & _ & Hin).
      rewrite Hm in Ha. injection Ha as <-. destruct (Hin r Ho1) as [Hp Hor].
      destruct (Hnew r Ho) as [_ [Hpin|Hn]]; [|done]. split; [|done].
      destruct Hor as [?|Hn]; [done|]. destruct Hn. apply (Hmk l); [set_solver|done]. }
    intros l1 l2 a1 a2 [H1| ->]%elem_of_snoc [H2| ->]%elem_of_snoc Hkk;
      rewrite ?lookup_insert_eq; rewrite ?lookup_insert_ne by (try apply not_eq_sym; auto); try done.
    + apply (inv_disjoint _ _ _ _ I); done.
    + intros Hm [= <-] ??. by eapply Hmix.
    + intros [= <-] Hm ??. apply and_comm. by eapply Hmix.
Qed.

Definition seed (reserved : option pools) : pools := default empty_pools reserved.

Lemma preallocate_unfold links reserved :
  preallocateLinkResources links reserved =
  rbind (foldM (fill_link (reserve_all (seed reserved) links).2) ((reserve_all (seed reserved) links).1, ∅)
    (sort_by lk_linkKey links)) (fun st => Ok st.2).
Proof.
  unfold preallocateLinkResources, seed. destruct reserved as [r|]; cbn;
  destruct (reserve_all _ links); cbn; destruct (foldM _ _ _) as [[? ?]|]; done.
Qed.

(** After any prefix of the links, phase 4 is in a state satisfying the invariant. *)
Lemma phase4_prefix links reserved P0 pinned pre post p m :
  NoDup (lk_linkKey <$> links) -> reserve_all (seed reserved) links = (P0, pinned) ->
  sort_by lk_linkKey links = pre ++ post ->
  foldM (fill_link pinned) (P0, ∅) pre = Ok (p, m) -> phase4_inv P0 pre p m.
Proof.
  intros Hnd E Hsort Hfold. apply reserve_all_spec in E as [HP0 Hpin]; [|done].
  assert (NoDup (lk_linkKey <$> pre)) as Hnd'.
  { assert (NoDup (lk_linkKey <$> sort_by lk_linkKey links)) as H by (by rewrite sort_by_perm).
    rewrite Hsort, fmap_app, NoDup_app in H. apply H. }
  assert (forall l, l ∈ pre -> l ∈ links) as Hsub by (intros l Hl; rewrite <- (sort_by_perm lk_linkKey links), Hsort; set_solver).
  assert (pins_marked P0 pre) as Hmk by (intros l r Hl Hr; apply HP0; eauto).
  eapply (foldM_inv (fun done st => phase4_inv P0 done st.1 st.2) _ _ _ (p, m)) in Hfold; [done| |].
  - split; cbn; [done| |set_solver| |set_solver]; [intros k a; by rewrite lookup_empty|auto].
  - intros done l rest [p1 m1] [p2 m2] Hpre I Hstep. cbn [fst snd] in *.
    rewrite fill_link_fill_one in Hstep. rewrite (Hpin l) in Hstep by (apply Hsub; rewrite Hpre; set_solver).
    apply rbind_Ok_inv in Hstep as ([p3 a] & Hf & [= <- <-]).
    rewrite Hpre, fmap_app, NoDup_app in Hnd'. destruct Hnd' as (_ & Hdis & _).
    eapply phase4_step; eauto.
    + intros l' r Hl'. apply Hmk. rewrite Hpre. set_solver.
    + intros Hin. eapply Hdis; [exact Hin|]. set_solver.
Qed.

(** A successful run ends in a state satisfying the invariant. *)
Lemma preallocate_inv links reserved m :
  NoDup (lk_linkKey <$> links) ->
  preallocateLinkResources links reserved = Ok m ->
  exists P0 p,
    (forall r, in_pools r P0 <-> in_pools r (seed reserved) \/ exists l, l ∈ links /\ occupies l (pinned_alloc l) r) /\
    phase4_inv P0 (sort_by lk_linkKey links) p m.
Proof.
  intros Hnd. rewrite preallocate_unfold. intros ([p m'] & Hfold & [= <-])%rbind_Ok_inv. cbn.
  destruct (reserve_all (seed reserved) links) as [P0 pinned] eqn:E. cbn in Hfold.
  exists P0, p. split; [by apply reserve_all_spec in E as [HP0 _]|].
  eapply (phase4_prefix links reserved P0 pinned _ []); eauto. by rewrite app_nil_r.
Qed.

Lemma elem_of_sorted_links (links : list linkEntity) l : l ∈ links -> l ∈ sort_by lk_linkKey links.
Proof. by rewrite sort_by_perm. Qed.

(** ** Order of arrival *)

Lemma pools_ext p q : (forall r, in_pools r p <-> in_pools r q) -> p = q.
Proof.
  destruct p as [a b c], q as [a' b' c']. intros H. f_equal; apply set_eq.
  - intros [n x]. apply (H (RPort n x)).
  - intros [n x]. apply (H (RTransit n x)).
  - intros x. apply (H (RLinkLocal x)).
Qed.

Lemma foldM_ext {E A S} (f g : S -> A -> result E S) xs s :
  (forall s x, x ∈ xs -> f s x = g s x) -> foldM f s xs = foldM g s xs.
Proof.
  revert s; induction xs as [|x xs IH]; intros s H; cbn; [done|].
  rewrite H by set_solver. destruct (g s x); cbn; [|done]. apply IH. intros. apply H. set_solver.
Qed.

(** Phase 4 reads the pinned table only through the starting point of each
    link, so the run is a function of the pins alone. *)
Lemma phase4_pins links p pinned m0 :
  (forall l, l ∈ links -> default (blank_alloc l) (pinned !! lk_linkKey l) = pinned_alloc l) ->
  foldM (fill_link pinned) (p, m0) links =
  foldM (fun st l => let! (p', a') := fill_one st.1 l (pinned_alloc l) in Ok (p', <[lk_linkKey l := a']> st.2))
    (p, m0) links.
Proof.
  intros H. apply foldM_ext. intros [p1 m1] l Hl. rewrite fill_link_fill_one, H by done. done.
Qed.

Lemma preallocate_perm links links' reserved :
  NoDup (lk_linkKey <$> links) -> links ≡ₚ links' ->
  preallocateLinkResources links reserved = preallocateLinkResources links' reserved.
Proof.
  intros Hnd Hp. assert (NoDup (lk_linkKey <$> links')) as Hnd' by (by rewrite <- Hp).
  rewrite !preallocate_unfold, <- (sort_by_unique lk_linkKey links links' Hnd Hp).
  destruct (reserve_all (seed reserved) links) as [p1 m1] eqn:E1.
  destruct (reserve_all (seed reserved) links') as [p2 m2] eqn:E2.
  apply reserve_all_spec in E1 as [HP1 Hm1]; [|done]. apply reserve_all_spec in E2 as [HP2 Hm2]; [|done]. cbn [fst snd].
  assert (p1 = p2) as ->.
  { apply pools_ext. intros r. rewrite HP1, HP2. by setoid_rewrite Hp. }
  rewrite !phase4_pins; [done| |]; intros l; rewrite sort_by_perm; [|by auto].
  intros Hl. apply Hm2. by rewrite <- Hp.
Qed.

(** ** Recompiling *)

(** The link with its allocation written back into the pins of its edge. *)
Definition repin_link (a : pairAllocation) (l : linkEntity) : linkEntity :=
  mkLink (lk_linkKey l) (lk_backup l)
    (set_pins (mkPins (al_fromPort a) (al_toPort a) (al_localTransit a) (al_remoteTransit a)
                      (al_localLL a) (al_remoteLL a)) (lk_primaryEdge l))
    (lk_fromNode l) (lk_toNode l) (lk_transitCIDR l).

Lemma alloc_ext a b :
  al_fromNodeID a = al_fromNodeID b -> al_toNodeID a = al_toNodeID b ->
  (al_fromPort a, al_toPort a) = (al_fromPort b, al_toPort b) ->
  al_localTransit a = al_localTransit b /\ al_remoteTransit a = al_remoteTransit b ->
  al_localLL a = al_localLL b /\ al_remoteLL a = al_remoteLL b -> a = b.
Proof. destruct a, b; cbn. intros -> -> [= -> ->] [-> ->] [-> ->]. done. Qed.

(** The pins an allocation writes into an edge that runs along it. *)
Definition alloc_pins (a : pairAllocation) : pins :=
  mkPins (al_fromPort a) (al_toPort a) (al_localTransit a) (al_remoteTransit a) (al_localLL a) (al_remoteLL a).

Lemma pinned_alloc_of l a : pins_of (lk_primaryEdge l) = alloc_pins a -> complete l a -> pinned_alloc l = a.
Proof.
  intros Hpins [Hf Ht [Hp1 Hp2] [Hx Hx'] [Hy Hy']].
  destruct (pinned_alloc_shape l) as (H1 & H2 & _ & H3 & H4). pose proof (pinned_alloc_ports l) as H5. cbv zeta in *.
  unfold pins_of, alloc_pins in Hpins. injection Hpins as E1 E2 E3 E4 E5 E6. rewrite E1, E2 in H5. rewrite E3, E4 in H3. rewrite E5, E6 in H4.
  rewrite !(proj2 (non_empty_true _)) in H3 by done. rewrite !(proj2 (non_empty_true _)) in H4 by done. cbn in H3, H4.
  apply alloc_ext; auto; try congruence. rewrite H5.
  destruct (is_client (lk_fromNode l)), (is_client (lk_toNode l));
  repeat match goal with |- context [0 <? ?x] => destruct (Z.ltb_spec 0 x) end; cbn; try congruence; try lia.
Qed.

Lemma pinned_alloc_repin l a : complete l a -> pinned_alloc (repin_link a l) = a.
Proof. intros Hc. apply pinned_alloc_of; [apply pins_of_set_pins|by destruct Hc]. Qed.

Lemma fill_one_noop p l a : complete l a -> fill_one p l a = Ok (p, a).
Proof.
  intros [_ _ [Hp1 Hp2] [Hx Hx'] [Hy Hy']]. unfold fill_one.
  assert (fill_ports p l a = Ok (p, a)) as ->.
  { unfold fill_ports. destruct (Z.ltb_spec 0 (al_fromPort a)), (Z.ltb_spec 0 (al_toPort a)); cbn; try done.
    destruct (is_client (lk_fromNode l)), (is_client (lk_toNode l)); [|exfalso; lia..]. cbn. by destruct a. }
  cbn [rbind]. unfold fill_transit, fill_linkLocal.
  rewrite (proj2 (non_empty_true _) Hx), (proj2 (non_empty_true _) Hx'). cbn [rbind andb].
  rewrite (proj2 (non_empty_true _) Hy), (proj2 (non_empty_true _) Hy'). done.
Qed.

(** Fully pinned links never run out of anything. *)
Lemma preallocate_pinned_total links reserved :
  NoDup (lk_linkKey <$> links) -> (forall l, l ∈ links -> complete l (pinned_alloc l)) ->
  exists m, preallocateLinkResources links reserved = Ok m.
Proof.
  intros Hnd Hc. rewrite preallocate_unfold.
  destruct (reserve_all (seed reserved) links) as [p pinned] eqn:E.
  apply reserve_all_spec in E as [_ Hm]; [|done]. cbn [fst snd].
  rewrite phase4_pins by (intros l; rewrite sort_by_perm; auto).
  assert (forall l, l ∈ sort_by lk_linkKey links -> complete l (pinned_alloc l)) as Hc'
    by (intros l; rewrite sort_by_perm; auto).
  generalize (∅ : gmap string pairAllocation). clear -Hc'. revert Hc'.
  induction (sort_by lk_linkKey links) as [|l ls IH]; intros Hc m; cbn; [eauto|].
  rewrite fill_one_noop by set_solver. cbn. apply IH. set_solver.
Qed.

(** A complete pin set determines the allocation of its link. *)
Lemma complete_pins_kept l a b : complete l (pinned_alloc l) -> a = pinned_alloc l ->
  complete l b -> keeps_pins l b -> b = a.
Proof.
  intros Hc -> [Hf Ht [P1 P2] _ _] [Kp Kt Kl]. destruct Hc as [Hf' Ht' [Q1 Q2] [X X'] [Y Y']].
  destruct (pinned_alloc_shape l) as (_ & _ & _ & St & Sl).
  destruct (non_empty (Edge_PinnedFromTransitIP _) && _) eqn:E1 in St; [|by destruct St; congruence].
  destruct (non_empty (Edge_PinnedFromLinkLocal _) && _) eqn:E2 in Sl; [|by destruct Sl; congruence].
  rewrite andb_true_iff, !non_empty_true in E1. rewrite andb_true_iff, !non_empty_true in E2.
  destruct E1, E2, St, Sl. apply alloc_ext; try congruence.
  - destruct (is_client (lk_fromNode l)), (is_client (lk_toNode l)); [|destruct Kp..]; auto; congruence.
  - destruct Kt; auto; split; congruence.
  - destruct Kl; auto; split; congruence.
Qed.

Lemma preallocate_link_entry links reserved m l :
  NoDup (lk_linkKey <$> links) -> preallocateLinkResources links reserved = Ok m -> l ∈ links ->
  exists a, m !! lk_linkKey l = Some a /\ complete l a /\ keeps_pins l a.
Proof.
  intros Hnd (P0 & p & _ & I)%preallocate_inv Hl%elem_of_sorted_links; [|done].
  destruct (inv_link _ _ _ _ I l Hl) as (a & ? & ? & ? & _). eauto.
Qed.

Lemma preallocate_dom links reserved m k a :
  NoDup (lk_linkKey <$> links) -> preallocateLinkResources links reserved = Ok m -> m !! k = Some a ->
  exists l, l ∈ links /\ lk_linkKey l = k.
Proof.
  intros Hnd (P0 & p & _ & I)%preallocate_inv Hk; [|done].
  apply (inv_dom _ _ _ _ I) in Hk as (l & Hl & ?). rewrite sort_by_perm in Hl. eauto.
Qed.

(** Links whose pins are complete are allocated exactly as pinned. *)
Lemma preallocate_pinned_exact links reserved m :
  NoDup (lk_linkKey <$> links) ->
  (forall l, l ∈ links -> m !! lk_linkKey l = Some (pinned_alloc l) /\ complete l (pinned_alloc l)) ->
  (forall k, is_Some (m !! k) -> k ∈ lk_linkKey <$> links) ->
  preallocateLinkResources links reserved = Ok m.
Proof.
  intros Hnd Hl Hdom. destruct (preallocate_pinned_total links reserved) as [m2 Hm2]; [done|by intros; apply Hl|].
  rewrite Hm2. f_equal. apply map_eq. intros k.
  destruct (decide (k ∈ lk_linkKey <$> links)) as [(l & -> & Hin)%list_elem_of_fmap|Hk].
  - destruct (Hl l Hin) as [-> Hc]. destruct (preallocate_link_entry _ _ _ _ Hnd Hm2 Hin) as (b & -> & Hcb & Hkb).
    f_equal. by apply (complete_pins_kept l).
  - transitivity (@None pairAllocation); [|symmetry]; apply eq_None_not_Some; intros Hs; apply Hk; [|by apply Hdom].
    destruct Hs as [a Ha]. destruct (preallocate_dom _ _ _ _ _ Hnd Hm2 Ha) as (l & ? & <-). by apply list_elem_of_fmap_2.
Qed.

(** ** Grouping *)

Lemma groupLinks_inv topo :
  NoDup (lk_linkKey <$> groupLinks topo) /\
  (forall x, x ∈ enabledEdges topo -> exists l, l ∈ groupLinks topo /\ lk_linkKey l = LinkKey x.1.1) /\
  (forall l, l ∈ groupLinks topo -> exists x, x ∈ enabledEdges topo /\ l = link_of topo x).
Proof.
  unfold groupLinks.
  apply (foldl_inv (fun pre links => NoDup (lk_linkKey <$> links) /\
    (forall x, x ∈ pre -> exists l, l ∈ links /\ lk_linkKey l = LinkKey x.1.1) /\
    (forall l, l ∈ links -> exists x, x ∈ pre /\ l = link_of topo x))).
  - cbn. split_and!; [constructor|set_solver..].
  - intros pre x post links _ (Hnd & Hc & Hs).
    assert (lk_linkKey (link_of topo x) = LinkKey x.1.1) as Hx by (by destruct x as [[??]?]).
    destruct (find_link links (LinkKey x.1.1)) as [l0|] eqn:E.
    + apply find_last_Some in E as [Hl0 Hk]. split_and!; [done| |].
      * intros y [Hy| ->]%elem_of_snoc; eauto.
      * intros l (y & ? & ?)%Hs. exists y. rewrite elem_of_snoc. auto.
    + unfold find_link in E. rewrite find_last_None in E. split_and!.
      * rewrite fmap_app. apply NoDup_app. split_and!; [done| |apply NoDup_singleton].
        intros k (l & -> & Hl)%list_elem_of_fmap Hk%list_elem_of_singleton. apply (E l Hl). by rewrite Hk.
      * intros y [Hy| ->]%elem_of_snoc.
        -- destruct (Hc y Hy) as (l & ? & ?). exists l. rewrite elem_of_snoc. auto.
        -- exists (link_of topo x). rewrite elem_of_snoc. auto.
      * intros l [(y & ? & ?)%Hs| ->]%elem_of_snoc; eexists; rewrite elem_of_snoc; eauto.
Qed.

Lemma groupLinks_NoDup topo : NoDup (lk_linkKey <$> groupLinks topo).
Proof. apply groupLinks_inv. Qed.

Lemma enabledEdges_spec topo e f t :
  (e, f, t) ∈ enabledEdges topo <->
  e ∈ Topology_Edges topo /\ Edge_IsEnabled e = true /\
  nodeMap topo (Edge_FromNodeID e) = Some f /\ nodeMap topo (Edge_ToNodeID e) = Some t.
Proof.
  unfold enabledEdges. rewrite list_elem_of_omap. split.
  - intros (e' & He & H). destruct (Edge_IsEnabled e') eqn:E; [|done].
    destruct (nodeMap topo (Edge_FromNodeID e')) eqn:F; [|done].
    destruct (nodeMap topo (Edge_ToNodeID e')) eqn:T; [|done]. injection H as -> -> ->. auto.
  - intros (He & E & F & T). exists e. by rewrite E, F, T.
Qed.

(** ** The transit pool *)

(** Pair [i] of a pool, and whether both its addresses are free. *)
Definition pool_pair (n : IPNet) (i : Z) : string * string :=
  (ipv4_string (net_ip n + 2 * i + 1), ipv4_string (net_ip n + 2 * i + 2)).
Definition pair_free (cidr : string) (used : gset (string * string)) (pr : string * string) : Prop :=
  ((cidr, pr.1) ∉ used) /\ ((cidr, pr.2) ∉ used).

Section TransitPool.
Context (cidr : string) (n : IPNet).
Hypothesis Hparse : ParseCIDR (default_transit cidr) = Some n.
Hypothesis Hv4 : net_v4 n = true.
Hypothesis Hones : net_ones n <= 30.

Lemma transit_wf : net4_wf n.
Proof. by eapply ParseCIDR_wf. Qed.

Lemma transit_to4 : net_to4 n = Some (net_ip n).
Proof. unfold net_to4. by rewrite Hv4. Qed.

Lemma net_size_ge4 : 4 <= net_size n <= 2 ^ 32.
Proof.
  destruct transit_wf as (_ & ? & _). unfold net_size. split.
  - change 4 with (2 ^ 2). apply Z.pow_le_mono_r; lia.
  - apply Z.pow_le_mono_r; lia.
Qed.

Lemma transitPoolPairCount_v4 : transitPoolPairCount cidr = Ok ((net_size n - 2) / 2).
Proof.
  unfold transitPoolPairCount. rewrite Hparse, transit_to4. destruct transit_wf as (_ & ? & _).
  destruct (Z.ltb_spec (32 - net_ones n) 2); [lia|].
  rewrite Z.shiftl_mul_pow2, Z.mul_1_l by lia. done.
Qed.

(** The broadcast address: the network is aligned, so [|] adds. *)
Lemma transit_broadcast :
  Z.lor (net_ip n) (u32 (u32 (Z.shiftl 1 (32 - net_ones n)) - 1)) = net_ip n + net_size n - 1.
Proof.
  destruct transit_wf as (_ & Ho & Hip & Hm). set (hb := 32 - net_ones n) in *.
  assert (u32 (u32 (Z.shiftl 1 hb) - 1) = Z.ones hb) as ->.
  { rewrite Z.shiftl_mul_pow2, Z.mul_1_l, Z.ones_equiv by lia.
    destruct (Z.eq_dec hb 32) as [->|Hne]; [reflexivity|].
    assert (0 < 2 ^ hb < 2 ^ 32) by (split; [apply Z.pow_pos_nonneg|apply Z.pow_lt_mono_r]; lia).
    rewrite !u32_small; unfold is_u32; rewrite ?u32_small; unfold is_u32; lia. }
  unfold net_size. fold hb. rewrite Z.ones_equiv.
  rewrite <- Z.lxor_lor, <- Z.add_nocarry_lxor; try lia.
  all: apply Z.bits_inj'; intros i Hi; rewrite Z.land_spec, Z.testbit_0_l, <- Z.ones_equiv by lia.
  all: destruct (Z.ltb_spec i hb) as [Hlt|Hge]; [|rewrite Z.ones_spec_high by lia; apply andb_false_r].
  all: replace (net_ip n) with (Z.shiftl (net_ip n / 2 ^ hb) hb);
    [rewrite Z.shiftl_spec_low by lia; done|].
  all: rewrite Z.shiftl_mul_pow2 by lia; apply Z.mod_divide in Hm as [q ->];
    [rewrite Z.div_mul; [done|]|]; apply Z.pow_nonzero; lia.
Qed.

Lemma allocateTransitPair_v4 i :
  0 <= i < (net_size n - 2) / 2 -> allocateTransitPair i cidr = Ok (pool_pair n i).
Proof.
  intros Hi. unfold allocateTransitPair. rewrite Hparse, transit_to4.
  pose proof transit_wf as Hwf. pose proof (net4_bound _ Hwf) as Hb. pose proof net_size_ge4 as Hs.
  destruct Hwf as (_ & ? & [Hip _] & _).
  destruct (Z.ltb_spec (32 - net_ones n) 2); [lia|]. rewrite transit_broadcast.
  assert (2 * i + 2 <= net_size n - 2) by (pose proof (Z.mul_div_le (net_size n - 2) 2 ltac:(lia)); lia).
  rewrite (u32_small (2 * i + 1)) by (unfold is_u32; lia).
  rewrite (u32_small (net_ip n + (2 * i + 1))) by (unfold is_u32; lia).
  rewrite (u32_small (net_ip n + (2 * i + 1) + 1)) by (unfold is_u32; lia).
  repeat match goal with |- context [?a <? ?b] => destruct (Z.ltb_spec a b); [lia|] end.
  repeat match goal with |- context [?a <=? ?b] => destruct (Z.leb_spec a b); [lia|] end.
  cbn [orb]. unfold pool_pair. do 3 f_equal; lia.
Qed.
End TransitPool.

(** ** Claims *)

(** Sticky pins (invariant I1): every link of a successful allocation has an
    entry; the entry is complete (endpoint IDs, transit pair and link-local
    pair set, a positive port exactly on the non-client sides) and carries
    every complete pin of the link's primary edge unchanged. *)
Theorem preallocate_sticky links reserved m :
  NoDup (lk_linkKey <$> links) ->
  preallocateLinkResources links reserved = Ok m ->
  (forall l, l ∈ links -> exists a, m !! lk_linkKey l = Some a /\ complete l a /\ keeps_pins l a) /\
  (forall k a, m !! k = Some a -> exists l, l ∈ links /\ lk_linkKey l = k).
Proof.
  intros Hnd (P0 & p & _ & I)%preallocate_inv; [|done]. split.
  - intros l Hl%elem_of_sorted_links. destruct (inv_link _ _ _ _ I l Hl) as (a & ? & ? & ? & _). eauto.
  - intros k a (l & Hl & Hk)%(inv_dom _ _ _ _ I). rewrite sort_by_perm in Hl. eauto.
Qed.

(** C14. Disjointness, of resources as the allocator identifies them: a listen port
    of a node, a transit address by its text within a pool by its text, a link-local
    address by its text.  Two different links of a successful allocation share one only
    if the pins of both already named it; and no link is given one of the reserved set
    unless its own pin names it.  An address that is reached under two texts, through
    overlapping pools or another spelling in a pin, is outside: see
    [PipelineProps.overlapping_transit_pools_collide] and [respelled_pin_collides]. *)
Theorem preallocate_disjoint links reserved m :
  NoDup (lk_linkKey <$> links) ->
  preallocateLinkResources links reserved = Ok m ->
  (forall l1 l2 a1 a2 r, l1 ∈ links -> l2 ∈ links -> lk_linkKey l1 <> lk_linkKey l2 ->
     m !! lk_linkKey l1 = Some a1 -> m !! lk_linkKey l2 = Some a2 ->
     occupies l1 a1 r -> occupies l2 a2 r ->
     occupies l1 (pinned_alloc l1) r /\ occupies l2 (pinned_alloc l2) r) /\
  (forall l a r, l ∈ links -> m !! lk_linkKey l = Some a -> occupies l a r ->
     in_pools r (seed reserved) -> occupies l (pinned_alloc l) r).
Proof.
  intros Hnd (P0 & p & HP0 & I)%preallocate_inv; [|done]. split.
  - intros l1 l2 a1 a2 r H1%elem_of_sorted_links H2%elem_of_sorted_links. by apply (inv_disjoint _ _ _ _ I).
  - intros l a r Hl%elem_of_sorted_links Ha Ho Hr.
    destruct (inv_link _ _ _ _ I l Hl) as (a' & Ha' & _ & _ & _ & Hin).
    rewrite Ha in Ha'. injection Ha' as <-. destruct (Hin r Ho) as [_ [?|Hn]]; [done|].
    destruct Hn. apply HP0. by left.
Qed.

(** C28. Determinism (invariants I2 and I9): the whole outcome, errors included,
    is a function of the set of links.  Deleting and re-adding a link, or
    listing the links in another order, reproduces the same allocation. *)
Theorem preallocate_order_independent links links' reserved :
  NoDup (lk_linkKey <$> links) -> links ≡ₚ links' ->
  preallocateLinkResources links reserved = preallocateLinkResources links' reserved.
Proof. apply preallocate_perm. Qed.

Definition repin_all (m : gmap string pairAllocation) (links : list linkEntity) : list linkEntity :=
  (fun l => repin_link (default (blank_alloc l) (m !! lk_linkKey l)) l) <$> links.

Lemma repin_all_keys m links : lk_linkKey <$> repin_all m links = lk_linkKey <$> links.
Proof. unfold repin_all. rewrite <- list_fmap_compose. done. Qed.

Lemma repin_all_complete links reserved m l :
  NoDup (lk_linkKey <$> links) -> preallocateLinkResources links reserved = Ok m -> l ∈ links ->
  exists a, m !! lk_linkKey l = Some a /\ repin_link a l ∈ repin_all m links /\
    pinned_alloc (repin_link a l) = a /\ complete (repin_link a l) a.
Proof.
  intros Hnd Hm Hl. destruct (preallocate_link_entry _ _ _ _ Hnd Hm Hl) as (a & Ha & Hc & _).
  exists a. split_and!; [done| |by apply pinned_alloc_repin|by destruct Hc].
  apply list_elem_of_fmap. exists l. by rewrite Ha.
Qed.

(** Re-allocating the written-back links, with any further links, returns the
    same entry for each of them. *)
Lemma repin_all_stable links reserved m extra reserved' m' :
  NoDup (lk_linkKey <$> links ++ extra) -> preallocateLinkResources links reserved = Ok m ->
  preallocateLinkResources (repin_all m links ++ extra) reserved' = Ok m' ->
  forall l, l ∈ links -> m' !! lk_linkKey l = m !! lk_linkKey l.
Proof.
  intros Hnd Hm Hm' l Hl.
  assert (NoDup (lk_linkKey <$> repin_all m links ++ extra)) as Hnd' by (by rewrite fmap_app, repin_all_keys, <- fmap_app).
  rewrite fmap_app, NoDup_app in Hnd. destruct Hnd as (Hnd & _).
  destruct (repin_all_complete _ _ _ _ Hnd Hm Hl) as (a & Ha & Hin & Hp & Hc).
  destruct (preallocate_link_entry _ _ _ (repin_link a l) Hnd' Hm') as (b & Hb & Hcb & Hkb); [apply elem_of_app; by left|].
  cbn in Hb. rewrite Ha, Hb. f_equal. apply (complete_pins_kept (repin_link a l)); auto. by rewrite Hp.
Qed.

(** Recompiling (invariants I1 and I8): after an allocation is written back
    into the pins, allocating again succeeds whatever is reserved, and returns
    the same allocation; and with any further links added, each existing link
    keeps its values. *)
Theorem preallocate_recompile links reserved m extra reserved' m' :
  NoDup (lk_linkKey <$> links ++ extra) ->
  preallocateLinkResources links reserved = Ok m ->
  preallocateLinkResources (repin_all m links) reserved' = Ok m /\
  (preallocateLinkResources (repin_all m links ++ extra) reserved' = Ok m' ->
   forall l, l ∈ links -> m' !! lk_linkKey l = m !! lk_linkKey l).
Proof.
  intros Hnd Hm. split; [|intros Hm'; by apply (repin_all_stable _ _ _ _ _ _ Hnd Hm Hm')].
  rewrite fmap_app, NoDup_app in Hnd. destruct Hnd as (Hnd & _).
  apply preallocate_pinned_exact; rewrite ?repin_all_keys; [done| |].
  - intros l' (l & -> & Hl)%list_elem_of_fmap.
    destruct (repin_all_complete _ _ _ _ Hnd Hm Hl) as (a & Ha & _ & Hp & Hc). rewrite Ha. cbn. by rewrite Hp.
  - intros k [a Ha]. destruct (preallocate_dom _ _ _ _ _ Hnd Hm Ha) as (l & ? & <-). by apply list_elem_of_fmap_2.
Qed.

(** Grouping: links have pairwise different keys, every enabled edge whose
    endpoints exist belongs to exactly one link, and a link's recorded edge,
    endpoints and transit pool are those of an edge of the topology carrying
    that key. *)
Theorem groupLinks_partition topo :
  NoDup (lk_linkKey <$> groupLinks topo) /\
  (forall e f t, e ∈ Topology_Edges topo -> Edge_IsEnabled e = true ->
     nodeMap topo (Edge_FromNodeID e) = Some f -> nodeMap topo (Edge_ToNodeID e) = Some t ->
     exists l, l ∈ groupLinks topo /\ lk_linkKey l = LinkKey e /\
       forall l', l' ∈ groupLinks topo -> lk_linkKey l' = LinkKey e -> l' = l) /\
  (forall l, l ∈ groupLinks topo -> exists e,
     e ∈ Topology_Edges topo /\ Edge_IsEnabled e = true /\ lk_primaryEdge l = e /\
     lk_linkKey l = LinkKey e /\ lk_backup l = IsBackup e /\
     nodeMap topo (Edge_FromNodeID e) = Some (lk_fromNode l) /\
     nodeMap topo (Edge_ToNodeID e) = Some (lk_toNode l) /\
     lk_transitCIDR l = transitCIDRForNode (Some (lk_fromNode l)) (domainMap topo)).
Proof.
  destruct (groupLinks_inv topo) as (Hnd & Hc & Hs). split_and!; [done| |].
  - intros e f t He En F T. destruct (Hc (e, f, t)) as (l & Hl & Hk); [by apply enabledEdges_spec|].
    exists l. split_and!; [done..|]. intros l' Hl' Hk'. apply (NoDup_fmap_inj_on lk_linkKey (groupLinks topo)); auto.
    by rewrite Hk, Hk'.
  - intros l ([[e f] t] & (He & En & F & T)%enabledEdges_spec & ->)%Hs. exists e. cbn. auto 10.
Qed.

(** The transit pool of an IPv4 CIDR: the scan returns the lowest pair
    [network+2i+1, network+2i+2] with both addresses free, strictly between the
    network and the broadcast address; it fails, with the exhaustion code,
    exactly when no pair of the pool is free. *)
Theorem gapFillTransitPair_exact cidr n used :
  ParseCIDR (default_transit cidr) = Some n -> net_v4 n = true -> net_ones n <= 30 ->
  match gapFillTransitPair cidr used with
  | Ok pr => exists i, 0 <= i /\ pr = pool_pair n i /\ pair_free cidr used pr /\
      net_ip n + 2 * i + 2 < net_ip n + net_size n - 1 /\
      (forall j, 0 <= j < i -> ~ pair_free cidr used (pool_pair n j))
  | Err e => error_code e = Some "compile_transit_pool_exhausted"%string /\
      (forall j, 0 <= j -> net_ip n + 2 * j + 2 < net_ip n + net_size n - 1 ->
         ~ pair_free cidr used (pool_pair n j))
  end.
Proof.
  intros Hp Hv Ho. unfold gapFillTransitPair. rewrite (transitPoolPairCount_v4 cidr n Hp Hv Ho). cbn [rbind].
  pose proof (net_size_ge4 cidr n Hp Hv Ho) as Hs.
  pose proof (Z.mul_div_le (net_size n - 2) 2 ltac:(lia)) as Hd.
  pose proof (Z.mul_succ_div_gt (net_size n - 2) 2 ltac:(lia)) as Hd'.
  destruct (Z.leb_spec ((net_size n - 2) / 2) 0); [lia|].
  match goal with |- context [first_from ?f _ _] => set (g := f) end.
  assert (forall j, 0 <= j < (net_size n - 2) / 2 -> g j = None -> ~ pair_free cidr used (pool_pair n j)) as Hno.
  { intros j Hj. unfold g. rewrite (allocateTransitPair_v4 cidr n Hp Hv Ho j Hj). unfold pool_pair, pair_free; cbn [fst snd].
    repeat case_bool_decide; naive_solver. }
  destruct (first_from g _ _) as [pr|] eqn:E.
  - apply first_from_Some in E as (i & Hi & Hg & Hmin). exists i.
    unfold g in Hg. rewrite (allocateTransitPair_v4 cidr n Hp Hv Ho i) in Hg by lia. unfold pool_pair in Hg.
    destruct (bool_decide _ || bool_decide _) eqn:Eb; [done|]. injection Hg as <-.
    apply orb_false_iff in Eb as [?%bool_decide_eq_false ?%bool_decide_eq_false].
    split_and!; [lia|done|done|lia|]. intros j Hj. apply Hno; [lia|]. apply Hmin. lia.
  - rewrite first_from_None in E. split; [done|]. intros j Hj Hb. apply Hno; [lia|]. apply E. lia.
Qed.

(** ** Witnesses *)

Definition ex_link_topo : Topology :=
  ex_topology []
    [ex_node "a" "router" "d" "10.11.0.1" (ex_caps true true);
     ex_node "b" "router" "d" "10.11.0.2" (ex_caps true true);
     ex_node "c" "client" "d" "10.11.0.3" (ex_caps false false)]
    [ex_edge "e1" "a" "b" "b.example" "" no_pins;
     ex_edge "e2" "b" "a" "a.example" "" no_pins;
     ex_edge "e3" "a" "b" "b.example" "backup" (mkPins 51820 51820 "10.10.0.1" "10.10.0.2" "fe80::1" "fe80::2");
     ex_edge "e4" "c" "a" "a.example" "" no_pins].

Definition ex_link_allocs : gmap string pairAllocation :=
  list_to_map
    [("a|b", mkAlloc "a" "b" 51821 51821 "10.10.0.3" "10.10.0.4" "fe80::3" "fe80::4");
     ("a|b#e3", mkAlloc "a" "b" 51820 51820 "10.10.0.1" "10.10.0.2" "fe80::1" "fe80::2");
     ("a|c", mkAlloc "c" "a" 0 51822 "10.10.0.5" "10.10.0.6" "fe80::5" "fe80::6")]%string.

Lemma ex_link_allocs_ok : preallocateLinkResources (groupLinks ex_link_topo) None = Ok ex_link_allocs.
Proof. vm_compute. reflexivity. Qed.

Lemma preallocate_sticky_witness :
  length (groupLinks ex_link_topo) = 3%nat /\
  forall l, l ∈ groupLinks ex_link_topo -> exists a, ex_link_allocs !! lk_linkKey l = Some a /\ complete l a /\ keeps_pins l a.
Proof.
  split; [reflexivity|].
  apply (preallocate_sticky (groupLinks ex_link_topo) None ex_link_allocs);
    [apply groupLinks_NoDup | exact ex_link_allocs_ok].
Defined.

Lemma preallocate_disjoint_witness :
  size ex_link_allocs = 3%nat /\
  forall l a r, l ∈ groupLinks ex_link_topo -> ex_link_allocs !! lk_linkKey l = Some a -> occupies l a r ->
    in_pools r (seed None) -> occupies l (pinned_alloc l) r.
Proof.
  split; [vm_compute; reflexivity|].
  apply (preallocate_disjoint (groupLinks ex_link_topo) None ex_link_allocs);
    [apply groupLinks_NoDup | exact ex_link_allocs_ok].
Defined.

Lemma preallocate_order_independent_witness :
  preallocateLinkResources (reverse (groupLinks ex_link_topo)) None = Ok ex_link_allocs.
Proof.
  rewrite <- ex_link_allocs_ok. symmetry.
  apply (preallocate_order_independent (groupLinks ex_link_topo) (reverse (groupLinks ex_link_topo)) None);
    [apply groupLinks_NoDup | by rewrite reverse_Permutation].
Defined.

Lemma preallocate_recompile_witness :
  preallocateLinkResources (repin_all ex_link_allocs (groupLinks ex_link_topo)) None = Ok ex_link_allocs.
Proof.
  apply (preallocate_recompile (groupLinks ex_link_topo) None ex_link_allocs [] None ex_link_allocs);
    [rewrite app_nil_r; apply groupLinks_NoDup | exact ex_link_allocs_ok].
Defined.

Lemma gapFillTransitPair_exact_witness :
  gapFillTransitPair "10.9.0.0/30" {[("10.9.0.0/30", "10.9.0.2")]} =
    Err (Coded "compile_transit_pool_exhausted" [("cidr", "10.9.0.0/30")]) /\
  forall j, 0 <= j -> 168361984 + 2 * j + 2 < 168361984 + 4 - 1 ->
    ~ pair_free "10.9.0.0/30" {[("10.9.0.0/30", "10.9.0.2")]}
        (pool_pair {| net_v4 := true; net_ip := 168361984; net_ones := 30 |} j).
Proof.
  split; [vm_compute; reflexivity|].
  pose proof (gapFillTransitPair_exact "10.9.0.0/30" {| net_v4 := true; net_ip := 168361984; net_ones := 30 |}
    {[("10.9.0.0/30", "10.9.0.2")]} ltac:(vm_compute; reflexivity) eq_refl ltac:(vm_compute; discriminate)) as H.
  assert (gapFillTransitPair "10.9.0.0/30" {[("10.9.0.0/30", "10.9.0.2")]} =
    Err (Coded "compile_transit_pool_exhausted" [("cidr", "10.9.0.0/30")])) as E by (vm_compute; reflexivity).
  rewrite E in H. exact (proj2 H).
Defined.
