(* ===== verification/PortCapacity.v ===== *)
(** * Ports never run out

    A link holds at most one port on a node, so the ports in use on a node are at
    most as many as there are links, plus those reserved from outside.  While
    that stays below the size of the scan range, the only way allocation can fail
    is an exhausted transit pool. *)

From stdpp Require Import base gmap strings list sets fin_sets sorting.
From Stdlib Require Import ZArith Lia.
From S2P Require Import Prelude GoLib GoNet Model LinkID PeersAlloc PeersAllocProps PeersAllocCorrect.

Local Open Scope Z_scope.

Lemma foldM_Err {E A S} (f : S -> A -> result E S) xs s e :
  foldM f s xs = Err e -> exists pre x post s', xs = pre ++ x :: post /\ foldM f s pre = Ok s' /\ f s' x = Err e.
Proof.
  revert s; induction xs as [|x xs IH]; intros s; [done|]. cbn. destruct (f s x) as [s1|e1] eqn:Ef; cbn.
  - intros (pre & y & post & s' & -> & Hp & Hy)%IH. exists (x :: pre), y, post, s'. cbn. by rewrite Ef.
  - intros [= ->]. by exists [], x, xs, s.
Qed.

(** The number of ports the scan covers. *)
Definition port_range : Z := 65535 - WGListenPortBase + 1.

Lemma lowestFreePort_Err node used e :
  lowestFreePort node used = Err e ->
  forall q, WGListenPortBase <= q <= 65535 -> (Node_ID node, q) ∈ used.
Proof.
  unfold lowestFreePort. destruct (first_from _ _ _) eqn:E; [done|]. intros _ q Hq.
  pose proof (proj1 (first_from_None _ _ _) E q) as Hn. cbv beta in Hn. case_bool_decide; [done|].
  unfold WGListenPortBase in *. discriminate Hn. lia.
Qed.

(** The port a link with allocation [a] holds on the node [id]. *)
Definition port_at (id : string) (l : linkEntity) (a : pairAllocation) : Z :=
  if String.eqb (Node_ID (lk_fromNode l)) id then al_fromPort a else al_toPort a.

Lemma occupies_port_at id l a q :
  Node_ID (lk_fromNode l) <> Node_ID (lk_toNode l) -> occupies l a (RPort id q) -> q = port_at id l a.
Proof.
  intros Hne. unfold port_at. intros [(-> & -> & _)|(-> & -> & _)]; [by rewrite String.eqb_refl|].
  by apply String.eqb_neq in Hne as ->.
Qed.

Section Capacity.
Context (links : list linkEntity) (reserved : option pools).
Hypothesis Hkeys : NoDup (lk_linkKey <$> links).
Hypothesis Hself : forall l, l ∈ links -> Node_ID (lk_fromNode l) <> Node_ID (lk_toNode l).
Hypothesis Hcap : Z.of_nat (length links) + Z.of_nat (size (usedPorts (seed reserved))) < port_range.

(** In every state of phase 4 some port of the range is free on each node. *)
Lemma phase4_port_free P0 pre p m id :
  (forall r, in_pools r P0 -> in_pools r (seed reserved) \/ exists l, l ∈ links /\ occupies l (pinned_alloc l) r) ->
  (forall l, l ∈ pre -> l ∈ links) -> phase4_inv P0 pre p m ->
  exists q, WGListenPortBase <= q <= 65535 /\ (id, q) ∉ usedPorts p.
Proof.
  intros HP0 Hsub I.
  set (held l := port_at id l (default (pinned_alloc l) (m !! lk_linkKey l))).
  set (L := (held <$> links) ++ (snd <$> elements (usedPorts (seed reserved)))).
  destruct (decide (Forall (fun q => (id, q) ∈ usedPorts p) (seqZ WGListenPortBase port_range))) as [Hall|Hnot].
  - exfalso. assert (seqZ WGListenPortBase port_range ⊆+ L) as Hsubm.
    { apply NoDup_submseteq; [apply NoDup_seqZ|]. intros q Hq. rewrite Forall_forall in Hall. specialize (Hall q Hq).
      apply elem_of_app. assert (forall l, l ∈ links -> occupies l (pinned_alloc l) (RPort id q) -> q ∈ held <$> links) as Hpin.
      { intros l Hl Ho. apply list_elem_of_fmap. exists l. split; [|done]. apply occupies_port_at; [by apply Hself|].
        destruct (m !! lk_linkKey l) as [a|] eqn:Ea; [|done]. cbn.
        destruct (inv_dom _ _ _ _ I _ _ Ea) as (l' & Hl' & Hk).
        assert (l' = l) as -> by (eapply (NoDup_fmap_inj_on lk_linkKey links); eauto).
        destruct (inv_link _ _ _ _ I l Hl') as (a' & Ha' & _ & _ & Hkeep & _). rewrite Ea in Ha'. injection Ha' as <-. by apply (Hkeep (RPort id q)). }
      destruct (inv_owned _ _ _ _ I (RPort id q) Hall) as [Hr|(l & a & Hl & Ha & Ho)].
      - apply HP0 in Hr as [Hs|(l & Hl & Ho)]; [right|left; eauto].
        apply list_elem_of_fmap. exists (id, q). split; [done|]. by apply elem_of_elements.
      - left. apply list_elem_of_fmap. exists l. split; [|auto]. unfold held. rewrite Ha. cbn.
        apply occupies_port_at; auto. }
    apply submseteq_length in Hsubm. unfold L in Hsubm. rewrite length_seqZ, length_app, !length_fmap in Hsubm.
    change (length (elements (usedPorts (seed reserved)))) with (size (usedPorts (seed reserved))) in Hsubm.
    unfold port_range, WGListenPortBase in *. lia.
  - apply not_Forall_Exists in Hnot; [|intros ?; apply _]. apply Exists_exists in Hnot as (q & Hq & Hn).
    exists q. split; [|done]. apply elem_of_seqZ in Hq. unfold port_range in Hq. lia.
Qed.

(** The port step of phase 4 succeeds. *)
Lemma fill_ports_total p l a :
  Node_ID (lk_fromNode l) <> Node_ID (lk_toNode l) ->
  (forall id, exists q, WGListenPortBase <= q <= 65535 /\ (id, q) ∉ usedPorts p) ->
  exists p' a', fill_ports p l a = Ok (p', a').
Proof.
  intros Hne Hfree. unfold fill_ports. destruct (_ || _); [eauto|].
  assert (forall node p1, (forall q, (Node_ID node, q) ∈ usedPorts p1 -> (Node_ID node, q) ∈ usedPorts p) ->
    exists q, lowestFreePort node (usedPorts p1) = Ok q) as Hok.
  { intros node p1 Hp1. destruct (lowestFreePort node (usedPorts p1)) as [q|e] eqn:E; [eauto|].
    destruct (Hfree (Node_ID node)) as (q & Hq & Hn). destruct Hn. eapply Hp1, lowestFreePort_Err; eauto. }
  destruct (is_client (lk_fromNode l)); cbn [rbind].
  - destruct (is_client (lk_toNode l)); cbn [rbind]; [eauto|].
    destruct (Hok (lk_toNode l) p) as [q ->]; [auto|]. cbn [rbind]. eauto.
  - destruct (Hok (lk_fromNode l) p) as [q ->]; [auto|]. cbn [rbind].
    destruct (is_client (lk_toNode l)); cbn [rbind]; [eauto|].
    destruct (Hok (lk_toNode l) (markPort (Node_ID (lk_fromNode l)) q p)) as [q' ->]; [|cbn [rbind]; eauto].
    intros r Hr. cbn in Hr. apply elem_of_union in Hr as [[= Hr _]%elem_of_singleton|?]; [by destruct Hne|done].
Qed.

Lemma preallocate_Err e :
  preallocateLinkResources links reserved = Err e ->
  exists l used err, l ∈ links /\ gapFillTransitPair (lk_transitCIDR l) used = Err err /\
    e = Wrapped ("transit address allocation failed for " +:+ Node_Name (lk_fromNode l) +:+ "<->" +:+
                 Node_Name (lk_toNode l)) err.
Proof.
  rewrite preallocate_unfold. destruct (reserve_all (seed reserved) links) as [P0 pinned] eqn:E. cbn [fst snd].
  destruct (foldM _ _ _) as [st|e'] eqn:F; [done|]. intros [= ->].
  apply foldM_Err in F as (pre & l & post & [p m] & Hsort & Hpre & Hl).
  pose proof (phase4_prefix links reserved P0 pinned pre (l :: post) p m Hkeys E Hsort Hpre) as I.
  assert (forall x, x ∈ pre ++ l :: post -> x ∈ links) as Hsub by (intros x; by rewrite <- Hsort, sort_by_perm).
  apply reserve_all_spec in E as [HP0 _]; [|done].
  destruct (fill_ports_total p l (default (blank_alloc l) (pinned !! lk_linkKey l))) as (p1 & a1 & H1).
  { apply Hself, Hsub. set_solver. }
  { intros id. apply (phase4_port_free P0 pre p m); [intros r; apply HP0|set_solver|done]. }
  rewrite fill_link_fill_one in Hl. unfold fill_one in Hl. rewrite H1 in Hl. cbn [rbind] in Hl.
  destruct (fill_transit p1 l a1) as [[p2 a2]|err] eqn:H2; cbn [rbind] in Hl; [by destruct (fill_linkLocal p2 a2)|].
  injection Hl as <-. unfold fill_transit in H2. destruct (_ && _); [done|].
  destruct (gapFillTransitPair _ _) as [[? ?]|err'] eqn:G; [done|]. injection H2 as <-.
  exists l, (usedTransitIPs p1), err'. split_and!; [apply Hsub; set_solver|done|done].
Qed.
End Capacity.
