(* ===== verification/Peers.v ===== *)
(** * Pass 2 of peer derivation, role semantics and client configurations

    [internal/compiler/roles.go], [orientation.go], the helpers of [peers.go],
    and [buildPeerInfo], [derivePeers] and [DeriveClientConfigs] of
    [peers_build.go].  The [panic] of [buildPeerInfo] is the value [None]. *)

From stdpp Require Import base gmap strings list sets fin_sets.
From Stdlib Require Import ZArith Lia.
From S2P Require Import Prelude GoLib GoNet GoSha Model LinkID PeersAlloc.

Local Open Scope Z_scope.
Local Open Scope go_scope.

(** ** Roles *)

Record BabelAnnouncePolicy := mkAnnounce {
  AnnounceSelf : bool; AnnounceDomainCIDR : bool; AnnounceExtraPrefixes : bool; AnnounceDefault : bool }.

Record RoleSemantics := mkSemantics {
  EnableForwarding : bool;
  AcceptAllInbound : bool;
  RunBabel : bool;
  BabelAnnounce : BabelAnnouncePolicy;
  AllowedIPsMode : string }.

Definition nonempty_list {A} (l : list A) : bool := negb (Nat.eqb (length l) 0).

Definition DeriveRoleSemantics (node : Node) : RoleSemantics :=
  let pub := HasPublicIP (Node_Capabilities node) in
  let extra := nonempty_list (Node_ExtraPrefixes node) in
  let role := Node_Role node in
  if String.eqb role "router" then mkSemantics true pub true (mkAnnounce true true extra false) "point-to-point"
  else if String.eqb role "relay" then mkSemantics true true true (mkAnnounce true true extra false) "relay-all"
  else if String.eqb role "gateway" then mkSemantics true pub true (mkAnnounce true true true true) "gateway"
  else if String.eqb role "client" then mkSemantics false false false (mkAnnounce false false false false) "client"
  else mkSemantics false false true (mkAnnounce true false false false) "point-to-point".

Definition InferCapabilitiesFromRole (node : Node) : NodeCapabilities :=
  let c := Node_Capabilities node in
  let hasPub := HasPublicIP c || nonempty_list (Node_PublicEndpoints node) in
  let inbound := CanAcceptInbound c in
  let fwd := CanForward c in
  let relay := CanRelay c in
  let role := Node_Role node in
  if String.eqb role "router" then mkNodeCapabilities (inbound || hasPub) true relay hasPub
  else if String.eqb role "relay" then mkNodeCapabilities true true true hasPub
  else if String.eqb role "gateway" then mkNodeCapabilities (inbound || hasPub) true relay hasPub
  else if String.eqb role "client" then mkNodeCapabilities false false false hasPub
  else mkNodeCapabilities inbound fwd relay hasPub.

Definition DeriveAllowedIPsForPeer (remoteNode : Node) (domain : option Domain) : list string :=
  let semantics := DeriveRoleSemantics remoteNode in
  let mode := AllowedIPsMode semantics in
  let domainIPs := match domain with
                   | Some d => if non_empty (Domain_CIDR d) then [Domain_CIDR d] else []
                   | None => []
                   end in
  let self := if non_empty (Node_OverlayIP remoteNode) then [(Node_OverlayIP remoteNode +:+ "/32")%string] else [] in
  if String.eqb mode "relay-all" then
    let ips := domainIPs ++ Node_ExtraPrefixes remoteNode in
    if Nat.eqb (length ips) 0 then self else ips
  else if String.eqb mode "gateway" then
    domainIPs ++ Node_ExtraPrefixes remoteNode ++
      (if AnnounceDefault (BabelAnnounce semantics) then ["0.0.0.0/0"%string] else [])
  else self.

(** ** Orientation *)

(** [(fromPort, toPort, fromTransit, toTransit, fromLL, toLL)] as seen by an
    edge running along ([true]) or against the allocation. *)
Definition oriented (a : pairAllocation) (isForward : bool) : pins :=
  if isForward then
    mkPins (al_fromPort a) (al_toPort a) (al_localTransit a) (al_remoteTransit a) (al_localLL a) (al_remoteLL a)
  else
    mkPins (al_toPort a) (al_fromPort a) (al_remoteTransit a) (al_localTransit a) (al_remoteLL a) (al_localLL a).

(** ** Link attributes *)

Definition transportTCP : string := "tcp".
Definition defaultMimicBaseMTU : Z := 1420.
Definition mimicMTUOverhead : Z := 12.
Definition mimicFallbackInherit : string := "".
Definition mimicFallbackUDP : string := "udp".
Definition mimicFallbackNone : string := "none".

Definition isMimicEdge (e : Edge) : bool := String.eqb (Edge_Transport e) transportTCP.

Definition resolveMimicFallback (edgePolicy defaultPolicy : string) : string :=
  if String.eqb edgePolicy mimicFallbackUDP then mimicFallbackUDP
  else if String.eqb edgePolicy mimicFallbackNone then mimicFallbackNone
  else if String.eqb defaultPolicy mimicFallbackUDP then mimicFallbackUDP
  else mimicFallbackNone.

Definition effectiveLinkDirection (e : Edge) : string :=
  if String.eqb (Edge_LinkDirection e) EdgeLinkDirectionForward then EdgeLinkDirectionForward
  else EdgeLinkDirectionBoth.

Definition effectiveMTU (nodeMTU : Z) (mimic : bool) : Z :=
  if negb mimic then nodeMTU
  else (if nodeMTU <=? 0 then defaultMimicBaseMTU else nodeMTU) - mimicMTUOverhead.

Definition deriveLinkCost (e : Edge) (backup : bool) : Z :=
  if 0 <? Edge_Priority e then Edge_Priority e
  else if 0 <? Edge_Weight e then Edge_Weight e
  else if backup then BackupDefaultLinkCost else 0.

(** ** Endpoints *)

Fixpoint itoa_loop (fuel : nat) (n : Z) (result : string) : string :=
  match fuel with
  | O => result
  | S k => if n <=? 0 then result else itoa_loop k (n / 10) (String (byte_of (48 + n mod 10)) result)
  end.

(** The source's own [itoa]; [digits_fuel] iterations reach zero. *)
Definition itoa (n : Z) : string := if n =? 0 then "0" else itoa_loop (digits_fuel n) n "".

Definition isIPv6 (host : string) : bool := existsb (fun c => c =? 58) (runes host).

Definition formatEndpoint (host : string) (port : Z) : string :=
  if isIPv6 host then ("[" +:+ host +:+ "]:" +:+ itoa port)%string
  else (host +:+ ":" +:+ itoa port)%string.

(** ** Router IDs *)

Definition GenerateRouterID (nodeID : string) : string :=
  match sha256_sum (bytes_of nodeID) with
  | h0 :: h1 :: h2 :: h3 :: h4 :: h5 :: _ =>
      (hex_byte (Z.land (Z.lor h0 2) 254) +:+ ":" +:+ hex_byte h1 +:+ ":" +:+ hex_byte h2 +:+ ":" +:+
       hex_byte h3 +:+ ":" +:+ hex_byte h4 +:+ ":" +:+ hex_byte h5)%string
  | _ => ""
  end.

(** ** Peers *)

Record KeyPair := mkKeyPair { PrivateKey : string; PublicKey : string }.

(** [key, _ := keys[id]]: the zero value when absent. *)
Definition key_of (keys : gmap string KeyPair) (id : string) : KeyPair :=
  default (mkKeyPair "" "") (keys !! id).

Record PeerInfo := mkPeer {
  Peer_NodeID : string;
  Peer_NodeName : string;
  Peer_PublicKey : string;
  Peer_OverlayIP : string;
  Peer_AllowedIPs : list string;
  Peer_Endpoint : string;
  Peer_PersistentKeepalive : Z;
  Peer_InterfaceName : string;
  Peer_ListenPort : Z;
  Peer_LocalTransitIP : string;
  Peer_RemoteTransitIP : string;
  Peer_LocalLinkLocal : string;
  Peer_RemoteLinkLocal : string;
  Peer_IsClientPeer : bool;
  Peer_ClientOverlayIP : string;
  Peer_LinkCost : Z;
  Peer_Mimic : bool;
  Peer_MimicFallback : string;
  Peer_MTU : Z }.

Abbreviation peerMap := (gmap string (list PeerInfo)).
Abbreviation edgeMap := (gmap string Edge).

(** [peerMap[id] = append(peerMap[id], p)] *)
Definition append_peer (id : string) (p : PeerInfo) (m : peerMap) : peerMap :=
  <[ id := default [] (m !! id) ++ [p] ]> m.

(** The enabled non-backup edges by direction; the last one of a direction. *)
Definition build_edgeMap (topo : Topology) : edgeMap :=
  foldl (fun m e =>
    if Edge_IsEnabled e && negb (IsBackup e)
    then <[ (Edge_FromNodeID e +:+ "->" +:+ Edge_ToNodeID e)%string := e ]> m else m) ∅ (Topology_Edges topo).

Section BuildPeers.
Context (keys : gmap string KeyPair) (edges : edgeMap) (mimicFallbackDefault : string).

(** The router-side peer of a link whose producing edge starts at a client. *)
Definition client_router_peer (link : linkEntity) (a : pairAllocation) (fromNode toNode : Node) : PeerInfo :=
  let mimic := isMimicEdge (lk_primaryEdge link) in
  let isForward := String.eqb (al_fromNodeID a) (Node_ID fromNode) in
  let o := oriented a (negb isForward) in
  mkPeer (Node_ID fromNode) (Node_Name fromNode) (PublicKey (key_of keys (Node_ID fromNode)))
    (Node_OverlayIP fromNode) [(Node_OverlayIP fromNode +:+ "/32")%string] "" 0
    (WgInterfaceNameForEdge (Node_Name fromNode) (Edge_ID (lk_primaryEdge link)) (lk_backup link))
    (pin_from_port o) (pin_from_transit o) (pin_to_transit o) (pin_from_ll o) (pin_to_ll o)
    true (Node_OverlayIP fromNode) 0 mimic
    (resolveMimicFallback (Edge_MimicFallback (lk_primaryEdge link)) mimicFallbackDefault)
    (effectiveMTU (Node_MTU toNode) mimic).

Definition forward_endpoint (e : Edge) (a : pairAllocation) : string :=
  if non_empty (Edge_EndpointHost e) then
    formatEndpoint (Edge_EndpointHost e)
      (if 0 <? Edge_EndpointPort e then Edge_EndpointPort e else al_toPort a)
  else "".

Definition reverse_key (fromNode toNode : Node) : string := (Node_ID toNode +:+ "->" +:+ Node_ID fromNode)%string.

Definition forward_keepalive (fromNode toNode : Node) : Z :=
  let hasReverseEdge := bool_decide (is_Some (edges !! reverse_key fromNode toNode)) in
  if negb (CanAcceptInbound (Node_Capabilities fromNode)) || negb hasReverseEdge then 25 else 0.

Definition forward_peer (link : linkEntity) (a : pairAllocation) (e : Edge) (fromNode toNode : Node) : PeerInfo :=
  let mimic := isMimicEdge (lk_primaryEdge link) in
  let o := oriented a true in
  let isToClient := is_client toNode in
  mkPeer (Node_ID toNode) (Node_Name toNode) (PublicKey (key_of keys (Node_ID toNode))) (Node_OverlayIP toNode)
    (if isToClient then [(Node_OverlayIP toNode +:+ "/32")%string] else ["0.0.0.0/0"; "::/0"]%string)
    (forward_endpoint e a) (forward_keepalive fromNode toNode)
    (WgInterfaceNameForEdge (Node_Name toNode) (Edge_ID (lk_primaryEdge link)) (lk_backup link))
    (pin_from_port o) (pin_from_transit o) (pin_to_transit o) (pin_from_ll o) (pin_to_ll o)
    isToClient (if isToClient then Node_OverlayIP toNode else "")
    (deriveLinkCost (lk_primaryEdge link) (lk_backup link)) mimic
    (resolveMimicFallback (Edge_MimicFallback (lk_primaryEdge link)) mimicFallbackDefault)
    (effectiveMTU (Node_MTU fromNode) mimic).

Definition reverse_endpoint (a : pairAllocation) (e : Edge) (fromNode toNode : Node) : string :=
  let fallback :=
    match Node_PublicEndpoints fromNode with
    | pe :: _ => if HasPublicIP (Node_Capabilities fromNode)
                 then formatEndpoint (PublicEndpoint_Host pe) (al_fromPort a) else ""
    | [] => ""
    end in
  if negb (String.eqb (effectiveLinkDirection e) EdgeLinkDirectionForward) then
    match edges !! reverse_key fromNode toNode with
    | Some reverseEdge =>
        if non_empty (Edge_EndpointHost reverseEdge) then
          if 0 <? Edge_EndpointPort reverseEdge
          then formatEndpoint (Edge_EndpointHost reverseEdge) (Edge_EndpointPort reverseEdge)
          else formatEndpoint (Edge_EndpointHost reverseEdge) (al_fromPort a)
        else fallback
    | None => fallback
    end
  else "".

Definition reverse_peer (link : linkEntity) (a : pairAllocation) (e : Edge) (fromNode toNode : Node) : PeerInfo :=
  let mimic := isMimicEdge (lk_primaryEdge link) in
  let o := oriented a false in
  mkPeer (Node_ID fromNode) (Node_Name fromNode) (PublicKey (key_of keys (Node_ID fromNode)))
    (Node_OverlayIP fromNode) ["0.0.0.0/0"; "::/0"]%string
    (reverse_endpoint a e fromNode toNode)
    (if negb (CanAcceptInbound (Node_Capabilities toNode)) then 25 else 0)
    (WgInterfaceNameForEdge (Node_Name fromNode) (Edge_ID (lk_primaryEdge link)) (lk_backup link))
    (pin_from_port o) (pin_from_transit o) (pin_to_transit o) (pin_from_ll o) (pin_to_ll o)
    false "" (deriveLinkCost (lk_primaryEdge link) (lk_backup link)) mimic
    (resolveMimicFallback (Edge_MimicFallback (lk_primaryEdge link)) mimicFallbackDefault)
    (effectiveMTU (Node_MTU toNode) mimic).

(** One enabled edge: the state is the peer map and [addedLinks]. *)
Definition emit_edge (links : list linkEntity) (allocations : gmap string pairAllocation)
    (st : option (peerMap * gset string)) (x : Edge * Node * Node) : option (peerMap * gset string) :=
  match st with
  | None => None
  | Some (pm, addedLinks) =>
      let '(edge, fromNode, toNode) := x in
      let lk := LinkKey edge in
      if bool_decide (lk ∈ addedLinks) then Some (pm, addedLinks)
      else
        match find_link links lk, allocations !! lk with
        | Some link, Some alloc =>
            if is_client fromNode then
              Some (append_peer (Node_ID toNode) (client_router_peer link alloc fromNode toNode) pm,
                    {[ lk ]} ∪ addedLinks)
            else if negb (String.eqb (al_fromNodeID alloc) (Node_ID fromNode)) then None
            else
              let pm1 := append_peer (Node_ID fromNode) (forward_peer link alloc edge fromNode toNode) pm in
              if is_client toNode then Some (pm1, {[ lk ]} ∪ addedLinks)
              else Some (append_peer (Node_ID toNode) (reverse_peer link alloc edge fromNode toNode) pm1,
                         {[ lk ]} ∪ addedLinks)
        | _, _ => Some (pm, addedLinks)
        end
  end.

Definition buildPeerInfo (topo : Topology) (links : list linkEntity)
    (allocations : gmap string pairAllocation) (pm : peerMap) : option peerMap :=
  match foldl (emit_edge links allocations) (Some (pm, ∅)) (enabledEdges topo) with
  | Some (pm', _) => Some pm'
  | None => None
  end.
End BuildPeers.

(** [peerMap[node.ID] = []PeerInfo{}] for every node. *)
Definition init_peerMap (topo : Topology) : peerMap :=
  foldl (fun m n => <[ Node_ID n := [] ]> m) ∅ (Topology_Nodes topo).

(** The outer option is the panic of [buildPeerInfo]. *)
Definition derivePeers (topo : Topology) (keys : gmap string KeyPair) (reserved : option pools)
    (mimicFallbackDefault : string) : option (result goerror (peerMap * gmap string pairAllocation)) :=
  let links := groupLinks topo in
  match preallocateLinkResources links reserved with
  | Err e => Some (Err e)
  | Ok allocations =>
      match buildPeerInfo keys (build_edgeMap topo) mimicFallbackDefault topo links allocations (init_peerMap topo) with
      | Some pm => Some (Ok (pm, allocations))
      | None => None
      end
  end.

Definition DerivePeers (topo : Topology) (keys : gmap string KeyPair)
  : option (result goerror (peerMap * gmap string pairAllocation)) :=
  derivePeers topo keys None mimicFallbackInherit.

(** ** Client configurations *)

Record ClientPeerInfo := mkClient {
  Client_NodeID : string;
  Client_NodeName : string;
  Client_OverlayIP : string;
  Client_MTU : Z;
  Client_Mimic : bool;
  Client_MimicFallback : string;
  Client_PrivateKey : string;
  Client_RouterPublicKey : string;
  Client_RouterEndpoint : string;
  Client_DomainCIDRs : list string;
  Client_ListenPort : Z }.

(** [appendCIDR]: the seen set holds exactly the entries appended so far. *)
Definition appendCIDR (domainCIDRs : list string) (cidr : string) : list string :=
  if String.eqb cidr "" || bool_decide (cidr ∈ domainCIDRs) then domainCIDRs else domainCIDRs ++ [cidr].

Definition client_cidrs (topo : Topology) : list string :=
  foldl appendCIDR
    (foldl appendCIDR [] (Domain_CIDR <$> Topology_Domains topo))
    ((fun d => default_transit (Domain_TransitCIDR d)) <$> Topology_Domains topo).

Definition client_edge (topo : Topology) (n : Node) : option Edge :=
  List.find (fun e => Edge_IsEnabled e && String.eqb (Edge_FromNodeID e) (Node_ID n)) (Topology_Edges topo).

Definition router_port (allocations : gmap string pairAllocation) (e : Edge) (n : Node) : Z :=
  match allocations !! LinkKey e with
  | Some a => if String.eqb (al_fromNodeID a) (Node_ID n) then al_toPort a else al_fromPort a
  | None => 0
  end.

Definition client_endpoint (e : Edge) (routerPort : Z) : string :=
  if non_empty (Edge_EndpointHost e) then
    let portToUse := if 0 <? Edge_EndpointPort e then Edge_EndpointPort e
                     else if 0 <? routerPort then routerPort else 0 in
    if 0 <? portToUse then formatEndpoint (Edge_EndpointHost e) portToUse else ""
  else "".

Definition DeriveClientConfigs (topo : Topology) (keys : gmap string KeyPair)
    (allocations : gmap string pairAllocation) (mimicFallbackDefault : string) : gmap string ClientPeerInfo :=
  foldl (fun configs node =>
    if negb (is_client node) then configs
    else
      match client_edge topo node with
      | None => configs
      | Some clientEdge =>
          match nodeMap topo (Edge_ToNodeID clientEdge) with
          | None => configs
          | Some routerNode =>
              let mimic := isMimicEdge clientEdge in
              <[ Node_ID node :=
                 mkClient (Node_ID node) (Node_Name node) (Node_OverlayIP node)
                   (effectiveMTU (Node_MTU node) mimic) mimic
                   (resolveMimicFallback (Edge_MimicFallback clientEdge) mimicFallbackDefault)
                   (PrivateKey (key_of keys (Node_ID node)))
                   (PublicKey (key_of keys (Node_ID routerNode)))
                   (client_endpoint clientEdge (router_port allocations clientEdge node))
                   (client_cidrs topo) WGListenPortBase ]> configs
          end
      end) ∅ (Topology_Nodes topo).
