(* ===== verification/PeersProps.v ===== *)
(** * Properties of peer derivation

    [buildPeerInfo] is refined to a per-link specification ([link_peers]): its
    gating on [addedLinks] emits each link exactly once, driven by the link's
    recorded edge, and its panic is unreachable.  The mirror symmetry of the two
    ends of a link, the distinctness of listen ports on a node and the agreement
    of client configurations follow from it. *)

From stdpp Require Import base gmap strings list sets fin_sets.
From Stdlib Require Import ZArith Lia.
From S2P Require Import Prelude GoLib GoNet GoSha Model LinkID PeersAlloc PeersAllocProps PeersAllocCorrect Peers.

Local Open Scope Z_scope.
Local Open Scope go_scope.

(** ** Specification *)

Section Spec.
Context (keys : gmap string KeyPair) (edges : edgeMap) (dflt : string).

(** The interfaces one link contributes, each with the node it belongs to. *)
Definition link_peers (link : linkEntity) (a : pairAllocation) : list (string * PeerInfo) :=
  let e := lk_primaryEdge link in
  let f := lk_fromNode link in
  let t := lk_toNode link in
  if is_client f then [(Node_ID t, client_router_peer keys dflt link a f t)]
  else (Node_ID f, forward_peer keys edges dflt link a e f t) ::
       (if is_client t then [] else [(Node_ID t, reverse_peer keys edges dflt link a e f t)]).

Definition all_peers (allocations : gmap string pairAllocation) (links : list linkEntity) : list (string * PeerInfo) :=
  links ≫= fun l => match allocations !! lk_linkKey l with Some a => link_peers l a | None => [] end.

Definition append_all (pm : peerMap) (xs : list (string * PeerInfo)) : peerMap :=
  foldl (fun m x => append_peer x.1 x.2 m) pm xs.

(** What the allocation pass promises to this pass. *)
Definition oriented_allocs (allocations : gmap string pairAllocation) (links : list linkEntity) : Prop :=
  forall l, l ∈ links -> exists a, allocations !! lk_linkKey l = Some a /\ complete l a.
End Spec.

(** The links found so far, over a prefix of the enabled edges. *)
Definition group_from (topo : Topology) (xs : list (Edge * Node * Node)) : list linkEntity :=
  foldl (fun links x => match find_link links (LinkKey x.1.1) with
                        | Some _ => links
                        | None => links ++ [link_of topo x]
                        end) [] xs.

Lemma group_from_snoc topo xs x :
  group_from topo (xs ++ [x]) =
  match find_link (group_from topo xs) (LinkKey x.1.1) with
  | Some _ => group_from topo xs
  | None => group_from topo xs ++ [link_of topo x]
  end.
Proof. unfold group_from. by rewrite foldl_app. Qed.

Lemma group_from_prefix topo xs ys : group_from topo xs `prefix_of` group_from topo (xs ++ ys).
Proof.
  induction ys as [|y ys IH] using rev_ind; [by rewrite app_nil_r|].
  rewrite app_assoc, group_from_snoc. destruct (find_link _ _); [done|].
  etrans; [exact IH|]. by apply prefix_app_r.
Qed.

Lemma find_link_keys (links : list linkEntity) k : find_link links k = None <-> k ∉ lk_linkKey <$> links.
Proof.
  unfold find_link. rewrite find_last_None. split.
  - intros H (l & -> & Hl)%list_elem_of_fmap. by apply (H l).
  - intros H l Hl <-. by apply H, list_elem_of_fmap_2.
Qed.

Lemma append_all_app pm xs ys : append_all pm (xs ++ ys) = append_all (append_all pm xs) ys.
Proof. unfold append_all. by rewrite foldl_app. Qed.

Lemma append_all_lookup pm xs id ps :
  pm !! id = Some ps -> append_all pm xs !! id = Some (ps ++ (snd <$> filter (fun x => x.1 = id) xs)).
Proof.
  revert ps; induction xs as [|[i p] xs IH] using rev_ind; intros ps Hps.
  - unfold append_all. cbn [foldl]. rewrite Hps. cbn. by rewrite app_nil_r.
  - rewrite append_all_app, filter_app, fmap_app. specialize (IH ps Hps).
    change (append_all (append_all pm xs) [(i, p)]) with (append_peer i p (append_all pm xs)).
    unfold append_peer. destruct (decide (i = id)) as [->|Hne].
    + rewrite lookup_insert_eq, IH, (filter_cons_True _ (id, p)) by done. cbn. by rewrite app_assoc.
    + rewrite lookup_insert_ne, (filter_cons_False _ (i, p)) by done. cbn. by rewrite app_nil_r.
Qed.

Lemma init_peerMap_lookup topo n : n ∈ Topology_Nodes topo -> init_peerMap topo !! Node_ID n = Some [].
Proof.
  unfold init_peerMap. generalize (∅ : peerMap). generalize (Topology_Nodes topo).
  intros l. induction l as [|m l IH] using rev_ind; intros pm; [set_solver|].
  rewrite foldl_app. cbn [foldl]. intros [Hn| ->]%elem_of_snoc.
  - destruct (decide (Node_ID m = Node_ID n)) as [->|]; [by rewrite lookup_insert_eq|].
    rewrite lookup_insert_ne by done. by apply IH.
  - by rewrite lookup_insert_eq.
Qed.

Section Refine.
Context (keys : gmap string KeyPair) (edges : edgeMap) (dflt : string).
Context (topo : Topology) (allocations : gmap string pairAllocation).
Hypothesis Hall : oriented_allocs allocations (groupLinks topo).

(** An edge whose link is new produces exactly the link's interfaces. *)
Lemma emit_edge_new pm added x :
  link_of topo x ∈ groupLinks topo -> LinkKey x.1.1 ∉ added ->
  emit_edge keys edges dflt (groupLinks topo) allocations (Some (pm, added)) x =
  Some (append_all pm (all_peers keys edges dflt allocations [link_of topo x]), {[LinkKey x.1.1]} ∪ added).
Proof.
  intros Hl Hn. destruct (Hall _ Hl) as (a & Ha & Hc). destruct x as [[e f] t].
  change (lk_linkKey (link_of topo (e, f, t))) with (LinkKey e) in Ha.
  cbn [fst snd] in *. unfold emit_edge. rewrite bool_decide_false by done.
  pose proof (find_last_unique lk_linkKey _ _ (groupLinks_NoDup topo) Hl) as Hf. unfold find_link.
  change (lk_linkKey (link_of topo (e, f, t))) with (LinkKey e) in Hf. rewrite Hf, Ha.
  unfold all_peers, append_all. cbn [mbind list_bind]. change (lk_linkKey (link_of topo (e, f, t))) with (LinkKey e).
  rewrite Ha, app_nil_r. unfold link_peers. cbn [link_of lk_fromNode lk_toNode lk_primaryEdge].
  pose proof (complete_from _ _ Hc) as Hfrom. cbn in Hfrom. rewrite Hfrom, String.eqb_refl. cbn [negb].
  destruct (is_client f); [done|]. by destruct (is_client t).
Qed.

Lemma emit_edge_seen pm added x :
  LinkKey x.1.1 ∈ added ->
  emit_edge keys edges dflt (groupLinks topo) allocations (Some (pm, added)) x = Some (pm, added).
Proof. intros Hin. destruct x as [[e f] t]. unfold emit_edge. by rewrite bool_decide_true. Qed.

Lemma all_peers_app links1 links2 :
  all_peers keys edges dflt allocations (links1 ++ links2) =
  all_peers keys edges dflt allocations links1 ++ all_peers keys edges dflt allocations links2.
Proof. apply bind_app. Qed.

Lemma buildPeerInfo_refines pm :
  buildPeerInfo keys edges dflt topo (groupLinks topo) allocations pm =
  Some (append_all pm (all_peers keys edges dflt allocations (groupLinks topo))).
Proof.
  unfold buildPeerInfo.
  enough (foldl (emit_edge keys edges dflt (groupLinks topo) allocations) (Some (pm, ∅)) (enabledEdges topo) =
    Some (append_all pm (all_peers keys edges dflt allocations (group_from topo (enabledEdges topo))),
          list_to_set (lk_linkKey <$> group_from topo (enabledEdges topo)))) as -> by done.
  apply (foldl_inv (fun pre st => st =
    Some (append_all pm (all_peers keys edges dflt allocations (group_from topo pre)),
          list_to_set (lk_linkKey <$> group_from topo pre)))).
  - done.
  - intros pre x post st Hpre ->. rewrite group_from_snoc.
    destruct (find_link (group_from topo pre) (LinkKey x.1.1)) as [l|] eqn:E.
    + apply find_last_Some in E as [Hl Hk]. apply emit_edge_seen.
      apply elem_of_list_to_set. rewrite <- Hk. by apply list_elem_of_fmap_2.
    + assert (link_of topo x ∈ groupLinks topo) as Hin.
      { change (groupLinks topo) with (group_from topo (enabledEdges topo)).
        rewrite Hpre, cons_middle, app_assoc. eapply elem_of_prefix; [|apply group_from_prefix].
        rewrite group_from_snoc, E. set_solver. }
      rewrite emit_edge_new; [|done|]; [|by rewrite elem_of_list_to_set, <- find_link_keys].
      rewrite all_peers_app, append_all_app. do 2 f_equal.
      rewrite fmap_app, list_to_set_app_L. destruct x as [[e f] t]. cbn. set_solver.
Qed.
End Refine.

(** ** What [derivePeers] returns *)

Lemma preallocate_oriented topo reserved m :
  preallocateLinkResources (groupLinks topo) reserved = Ok m -> oriented_allocs m (groupLinks topo).
Proof.
  intros Hm l Hl. destruct (preallocate_link_entry _ _ _ _ (groupLinks_NoDup topo) Hm Hl) as (a & ? & ? & _). eauto.
Qed.

(** The peers of a node: its interfaces, in the order of the links. *)
Definition peers_of (keys : gmap string KeyPair) (topo : Topology) (dflt : string)
    (m : gmap string pairAllocation) (id : string) : list PeerInfo :=
  snd <$> filter (fun x => x.1 = id) (all_peers keys (build_edgeMap topo) dflt m (groupLinks topo)).

Lemma derivePeers_unfold topo keys reserved dflt :
  derivePeers topo keys reserved dflt =
  Some (let! m := preallocateLinkResources (groupLinks topo) reserved in
        Ok (append_all (init_peerMap topo) (all_peers keys (build_edgeMap topo) dflt m (groupLinks topo)), m)).
Proof.
  unfold derivePeers. destruct (preallocateLinkResources _ _) as [m|e] eqn:E; [|done]. cbn [rbind].
  by rewrite buildPeerInfo_refines by (by eapply preallocate_oriented).
Qed.

Lemma derivePeers_inv topo keys reserved dflt pm m :
  derivePeers topo keys reserved dflt = Some (Ok (pm, m)) ->
  preallocateLinkResources (groupLinks topo) reserved = Ok m /\ oriented_allocs m (groupLinks topo) /\
  forall n, n ∈ Topology_Nodes topo -> pm !! Node_ID n = Some (peers_of keys topo dflt m (Node_ID n)).
Proof.
  rewrite derivePeers_unfold. intros [= H]. apply rbind_Ok_inv in H as (m' & Hm & [= <- <-]).
  split; [done|]. split; [by eapply preallocate_oriented|]. intros n Hn.
  by rewrite (append_all_lookup _ _ _ _ (init_peerMap_lookup topo n Hn)).
Qed.

(** Membership in a node's peers, link by link. *)
Lemma peers_of_elem keys topo dflt m id p :
  p ∈ peers_of keys topo dflt m id <->
  exists l a, l ∈ groupLinks topo /\ m !! lk_linkKey l = Some a /\
    (id, p) ∈ link_peers keys (build_edgeMap topo) dflt l a.
Proof.
  unfold peers_of, all_peers. rewrite list_elem_of_fmap. split.
  - intros ([i q] & -> & H). apply list_elem_of_filter in H as [E H]. cbn in E. subst i.
    apply list_elem_of_bind in H as (l & Hp & Hl). destruct (m !! lk_linkKey l) as [a|] eqn:Ea; [|set_solver].
    exists l, a. auto.
  - intros (l & a & Hl & Ha & Hp). exists (id, p). split; [done|]. apply list_elem_of_filter. split; [done|].
    apply list_elem_of_bind. exists l. by rewrite Ha.
Qed.

Lemma groupLinks_nodes topo l :
  l ∈ groupLinks topo -> lk_fromNode l ∈ Topology_Nodes topo /\ lk_toNode l ∈ Topology_Nodes topo /\
  Node_ID (lk_fromNode l) = Edge_FromNodeID (lk_primaryEdge l) /\ Node_ID (lk_toNode l) = Edge_ToNodeID (lk_primaryEdge l).
Proof.
  intros Hl. destruct (groupLinks_inv topo) as (_ & _ & Hs).
  destruct (Hs l Hl) as ([[e f] t] & (_ & _ & F & T)%enabledEdges_spec & ->). cbn.
  apply find_last_Some in F as [? ?]. apply find_last_Some in T as [? ?]. auto.
Qed.

(** ** Endpoints *)

Lemma itoa_loop_digits fuel n acc :
  0 < n -> n < 10 ^ Z.of_nat fuel -> itoa_loop fuel n acc = fmt_digits fuel 10 n acc.
Proof.
  revert n acc; induction fuel as [|k IH]; intros n acc Hn Hk; [done|].
  cbn [itoa_loop fmt_digits]. destruct (Z.leb_spec n 0); [lia|].
  assert (digit_of (n mod 10) = byte_of (48 + n mod 10)) as <-.
  { unfold digit_of. pose proof (Z.mod_pos_bound n 10). destruct (Z.ltb_spec (n mod 10) 10); [|lia]. f_equal. lia. }
  destruct (Z.eqb_spec (n / 10) 0) as [E|E].
  - rewrite E. destruct k; [done|]. done.
  - apply IH.
    + pose proof (Z.div_pos n 10). lia.
    + apply Z.div_lt_upper_bound; [lia|]. rewrite <- Z.pow_succ_r by lia. by rewrite Nat2Z.inj_succ in Hk.
Qed.

Lemma digits_fuel_bound n : 0 < n -> n < 10 ^ Z.of_nat (digits_fuel n).
Proof.
  intros Hn. unfold digits_fuel. rewrite Nat2Z.inj_succ, Z2Nat.id by apply Z.log2_nonneg.
  pose proof (Z.log2_spec n Hn) as [_ H]. eapply Z.lt_le_trans; [exact H|].
  apply Z.pow_le_mono_l. lia.
Qed.

Lemma itoa_itoa10 n : 0 <= n -> itoa n = itoa10 n.
Proof.
  intros Hn. unfold itoa, itoa10. destruct (Z.eqb_spec n 0) as [->|]; [reflexivity|].
  apply itoa_loop_digits; [lia|]. apply digits_fuel_bound. lia.
Qed.

Lemma formatEndpoint_port_inj host p q :
  0 <= p -> 0 <= q -> formatEndpoint host p = formatEndpoint host q -> p = q.
Proof.
  intros Hp Hq. unfold formatEndpoint. destruct (isIPv6 host); intros H; repeat apply append_inj_l in H;
  rewrite !itoa_itoa10 in H by done; by apply itoa10_inj.
Qed.

(** ** Ports of the interfaces of a node *)

Lemma peers_of_bind keys topo dflt m id :
  peers_of keys topo dflt m id =
  groupLinks topo ≫= fun l => snd <$> filter (fun x => x.1 = id)
    (match m !! lk_linkKey l with Some a => link_peers keys (build_edgeMap topo) dflt l a | None => [] end).
Proof.
  unfold peers_of, all_peers. induction (groupLinks topo) as [|l ls IH]; [done|].
  rewrite !bind_cons, filter_app, fmap_app. by f_equal.
Qed.

(** An interface of a non-client node listens on a port its link occupies. *)
Lemma link_peers_port keys edges dflt l a id p :
  complete l a -> (id, p) ∈ link_peers keys edges dflt l a ->
  (Node_ID (lk_toNode l) = id -> is_client (lk_toNode l) = false) ->
  occupies l a (RPort id (Peer_ListenPort p)).
Proof.
  intros [Hf _ [Hp1 Hp2] _ _] Hin Hcl. unfold link_peers in Hin.
  destruct (is_client (lk_fromNode l)) eqn:Ef.
  - apply list_elem_of_singleton in Hin as [= -> ->]. rewrite Hcl in Hp2 by done.
    unfold client_router_peer. rewrite Hf, String.eqb_refl. cbn. right. auto.
  - apply elem_of_cons in Hin as [[= -> ->]|Hin]; [left; cbn; auto|].
    destruct (is_client (lk_toNode l)) eqn:Et; [set_solver|].
    apply list_elem_of_singleton in Hin as [= -> ->]. right. cbn. auto.
Qed.

Lemma link_peers_once keys edges dflt l a id :
  Node_ID (lk_fromNode l) <> Node_ID (lk_toNode l) ->
  (length (filter (fun x => x.1 = id) (link_peers keys edges dflt l a)) <= 1)%nat.
Proof.
  intros Hne. unfold link_peers. destruct (is_client (lk_fromNode l)), (is_client (lk_toNode l));
    rewrite ?filter_cons; cbn [fst]; repeat case_decide; cbn; lia || congruence.
Qed.

Lemma NoDup_short {A} (l : list A) : (length l <= 1)%nat -> NoDup l.
Proof. destruct l as [|x [|y l]]; cbn; intros; [constructor|apply NoDup_singleton|lia]. Qed.

(** No two links have a pin in common. *)
Definition pins_disjoint (links : list linkEntity) : Prop :=
  forall l1 l2 r, l1 ∈ links -> l2 ∈ links -> lk_linkKey l1 <> lk_linkKey l2 ->
    occupies l1 (pinned_alloc l1) r -> occupies l2 (pinned_alloc l2) r -> False.

(** With disjoint pins no resource at all is shared. *)
Lemma preallocate_no_sharing links reserved m :
  NoDup (lk_linkKey <$> links) -> preallocateLinkResources links reserved = Ok m -> pins_disjoint links ->
  forall l1 l2 a1 a2 r, l1 ∈ links -> l2 ∈ links -> lk_linkKey l1 <> lk_linkKey l2 ->
    m !! lk_linkKey l1 = Some a1 -> m !! lk_linkKey l2 = Some a2 ->
    occupies l1 a1 r -> occupies l2 a2 r -> False.
Proof.
  intros Hnd (P0 & p & _ & I)%preallocate_inv Hd l1 l2 a1 a2 r H1 H2 Hk E1 E2 O1 O2; [|done].
  destruct (inv_disjoint _ _ _ _ I l1 l2 a1 a2 r) as [? ?]; auto using elem_of_sorted_links.
  by eapply (Hd l1 l2).
Qed.

Lemma build_edgeMap_Some topo k r :
  build_edgeMap topo !! k = Some r ->
  r ∈ Topology_Edges topo /\ Edge_IsEnabled r = true /\ IsBackup r = false /\
  k = (Edge_FromNodeID r +:+ "->" +:+ Edge_ToNodeID r)%string.
Proof.
  unfold build_edgeMap. revert r.
  apply (foldl_inv (fun pre (em : edgeMap) => forall r, em !! k = Some r ->
    r ∈ pre /\ Edge_IsEnabled r = true /\ IsBackup r = false /\
    k = (Edge_FromNodeID r +:+ "->" +:+ Edge_ToNodeID r)%string)).
  - intros r. by rewrite lookup_empty.
  - intros pre e post em _ IH r. rewrite elem_of_snoc.
    destruct (Edge_IsEnabled e) eqn:E1, (IsBackup e) eqn:E2; cbn [andb negb];
      [naive_solver| |naive_solver..].
    rewrite lookup_insert_Some. naive_solver.
Qed.

(** The endpoint the reverse peer dials is empty, or carries the port the
    from-side interface listens on, or an explicit override of a reverse edge. *)
Lemma reverse_endpoint_cases topo a e f t :
  let ep := reverse_endpoint (build_edgeMap topo) a e f t in
  ep = ""%string \/ (exists host, ep = formatEndpoint host (al_fromPort a)) \/
  (exists r, r ∈ Topology_Edges topo /\ Edge_IsEnabled r = true /\ 0 < Edge_EndpointPort r /\
     ep = formatEndpoint (Edge_EndpointHost r) (Edge_EndpointPort r)).
Proof.
  unfold reverse_endpoint. cbv zeta. destruct (String.eqb _ _); [by left|]. cbn [negb].
  set (fb := match Node_PublicEndpoints f with [] => _ | _ :: _ => _ end).
  assert (fb = ""%string \/ exists host, fb = formatEndpoint host (al_fromPort a)) as Hfb.
  { unfold fb. destruct (Node_PublicEndpoints f); [by left|]. destruct (HasPublicIP _); [right; eauto|by left]. }
  destruct (build_edgeMap topo !! reverse_key f t) as [r|] eqn:Er; [|naive_solver].
  destruct (non_empty _); [|naive_solver]. apply build_edgeMap_Some in Er as (? & ? & _ & _).
  destruct (Z.ltb_spec 0 (Edge_EndpointPort r)); naive_solver.
Qed.

(** ** Claims *)

(** C31. Peer derivation never panics: it fails exactly when allocation fails,
    with the same error, and otherwise gives every node the interfaces of its
    links, each link contributing once and in the order of the links, although
    the code walks edges and several edges may belong to one link. *)
Theorem derivePeers_refines topo keys reserved dflt :
  match preallocateLinkResources (groupLinks topo) reserved with
  | Err e => derivePeers topo keys reserved dflt = Some (Err e)
  | Ok m => exists pm, derivePeers topo keys reserved dflt = Some (Ok (pm, m)) /\
      forall n, n ∈ Topology_Nodes topo -> pm !! Node_ID n = Some (peers_of keys topo dflt m (Node_ID n))
  end.
Proof.
  destruct (preallocateLinkResources _ _) as [m|e] eqn:E.
  - pose proof (derivePeers_unfold topo keys reserved dflt) as H. rewrite E in H. cbn [rbind] in H.
    eexists. split; [exact H|]. by apply derivePeers_inv in H as (_ & _ & H).
  - rewrite derivePeers_unfold, E. done.
Qed.

(** The two ends of a link between non-client nodes mirror each other:
    each node has an interface to the other, their transit and link-local
    addresses are swapped, link cost and transport shaping agree, and the port
    each end dials is the port the other end's interface listens on, unless the
    operator overrode it on the dialling edge. *)
Theorem derivePeers_mirrored topo keys reserved dflt pm m l :
  derivePeers topo keys reserved dflt = Some (Ok (pm, m)) -> l ∈ groupLinks topo ->
  is_client (lk_fromNode l) = false -> is_client (lk_toNode l) = false ->
  exists p q ps qs,
    pm !! Node_ID (lk_fromNode l) = Some ps /\ p ∈ ps /\ pm !! Node_ID (lk_toNode l) = Some qs /\ q ∈ qs /\
    Peer_NodeID p = Node_ID (lk_toNode l) /\ Peer_NodeID q = Node_ID (lk_fromNode l) /\
    Peer_LocalTransitIP p = Peer_RemoteTransitIP q /\ Peer_RemoteTransitIP p = Peer_LocalTransitIP q /\
    Peer_LocalLinkLocal p = Peer_RemoteLinkLocal q /\ Peer_RemoteLinkLocal p = Peer_LocalLinkLocal q /\
    Peer_LinkCost p = Peer_LinkCost q /\ Peer_Mimic p = Peer_Mimic q /\ Peer_MimicFallback p = Peer_MimicFallback q /\
    0 < Peer_ListenPort p /\ 0 < Peer_ListenPort q /\
    (let e := lk_primaryEdge l in
     Peer_Endpoint p =
       if String.eqb (Edge_EndpointHost e) "" then ""%string
       else formatEndpoint (Edge_EndpointHost e)
              (if 0 <? Edge_EndpointPort e then Edge_EndpointPort e else Peer_ListenPort q)) /\
    (Peer_Endpoint q = ""%string \/ (exists host, Peer_Endpoint q = formatEndpoint host (Peer_ListenPort p)) \/
     (exists r, r ∈ Topology_Edges topo /\ Edge_IsEnabled r = true /\ 0 < Edge_EndpointPort r /\
        Peer_Endpoint q = formatEndpoint (Edge_EndpointHost r) (Edge_EndpointPort r))).
Proof.
  intros (Hm & Ho & Hpm)%derivePeers_inv Hl Hf Ht.
  destruct (Ho l Hl) as (a & Ha & Hc). destruct (groupLinks_nodes topo l Hl) as (Nf & Nt & _).
  exists (forward_peer keys (build_edgeMap topo) dflt l a (lk_primaryEdge l) (lk_fromNode l) (lk_toNode l)),
    (reverse_peer keys (build_edgeMap topo) dflt l a (lk_primaryEdge l) (lk_fromNode l) (lk_toNode l)),
    (peers_of keys topo dflt m (Node_ID (lk_fromNode l))), (peers_of keys topo dflt m (Node_ID (lk_toNode l))).
  destruct Hc as [_ _ [Hp1 Hp2] _ _]. rewrite Hf in Hp1. rewrite Ht in Hp2.
  split_and!; try done; try (by apply Hpm).
  - apply peers_of_elem. exists l, a. split_and!; [done..|]. unfold link_peers. rewrite Hf. by left.
  - apply peers_of_elem. exists l, a. split_and!; [done..|]. unfold link_peers. rewrite Hf, Ht. right. by left.
  - cbn. unfold forward_endpoint, non_empty. by destruct (String.eqb _ "").
  - apply reverse_endpoint_cases.
Qed.

(** A field of the interfaces of a node is injective when links do not share
    its values and no link joins a node to itself. *)
Lemma peers_of_NoDup {B} (g : PeerInfo -> B) keys topo dflt m id :
  (forall l, l ∈ groupLinks topo -> Node_ID (lk_fromNode l) <> Node_ID (lk_toNode l)) ->
  (forall l1 l2 a1 a2 p1 p2, l1 ∈ groupLinks topo -> l2 ∈ groupLinks topo -> lk_linkKey l1 <> lk_linkKey l2 ->
     m !! lk_linkKey l1 = Some a1 -> m !! lk_linkKey l2 = Some a2 ->
     (id, p1) ∈ link_peers keys (build_edgeMap topo) dflt l1 a1 ->
     (id, p2) ∈ link_peers keys (build_edgeMap topo) dflt l2 a2 -> g p1 <> g p2) ->
  NoDup (g <$> peers_of keys topo dflt m id).
Proof.
  intros Hself Hdis. rewrite peers_of_bind. apply NoDup_fmap_bind.
  - eapply NoDup_fmap_1, groupLinks_NoDup.
  - intros l Hl. apply NoDup_short. rewrite !length_fmap. destruct (m !! lk_linkKey l); [|cbn; lia].
    by apply link_peers_once, Hself.
  - intros l1 l2 p1 p2 H1 H2 Hne Hp1 Hp2.
    apply list_elem_of_fmap in Hp1 as ([i1 q1] & -> & [E1 Hp1]%list_elem_of_filter).
    apply list_elem_of_fmap in Hp2 as ([i2 q2] & -> & [E2 Hp2]%list_elem_of_filter). cbn in E1, E2. subst i1 i2.
    destruct (m !! lk_linkKey l1) as [a1|] eqn:A1; [|set_solver].
    destruct (m !! lk_linkKey l2) as [a2|] eqn:A2; [|set_solver].
    apply (Hdis l1 l2 a1 a2); try done.
    intros Hk. apply Hne. by eapply (NoDup_fmap_inj_on lk_linkKey (groupLinks topo)); eauto using groupLinks_NoDup.
Qed.

(** The ends of a link are the nodes their IDs resolve to. *)
Lemma groupLinks_to_node topo l n :
  l ∈ groupLinks topo -> nodeMap topo (Node_ID n) = Some n -> Node_ID (lk_toNode l) = Node_ID n -> lk_toNode l = n.
Proof.
  intros Hl Hn Hid. destruct (groupLinks_inv topo) as (_ & _ & Hs).
  destruct (Hs l Hl) as ([[e f] t] & (_ & _ & _ & T)%enabledEdges_spec & ->). cbn in Hid |- *.
  pose proof T as [_ T']%find_last_Some. rewrite <- T', Hid, Hn in T. by injection T as <-.
Qed.

Lemma node_peer_port topo keys dflt m n l a p :
  oriented_allocs m (groupLinks topo) -> nodeMap topo (Node_ID n) = Some n -> is_client n = false ->
  l ∈ groupLinks topo -> m !! lk_linkKey l = Some a ->
  (Node_ID n, p) ∈ link_peers keys (build_edgeMap topo) dflt l a -> occupies l a (RPort (Node_ID n) (Peer_ListenPort p)).
Proof.
  intros Ho Hn Hcl Hl Ha Hp. destruct (Ho l Hl) as (a' & Ha' & Hc). rewrite Ha in Ha'. injection Ha' as <-.
  eapply link_peers_port; eauto. intros Hid. by rewrite (groupLinks_to_node topo l n).
Qed.

(** No two interfaces of a non-client node listen on the same port, and every
    interface has one, when no two links pin the same resource and no link joins
    a node to itself. *)
Lemma derivePeers_ports_distinct topo keys reserved dflt pm m n ps :
  derivePeers topo keys reserved dflt = Some (Ok (pm, m)) ->
  pins_disjoint (groupLinks topo) ->
  (forall l, l ∈ groupLinks topo -> Node_ID (lk_fromNode l) <> Node_ID (lk_toNode l)) ->
  nodeMap topo (Node_ID n) = Some n -> is_client n = false ->
  pm !! Node_ID n = Some ps ->
  NoDup (Peer_ListenPort <$> ps) /\ forall p, p ∈ ps -> 0 < Peer_ListenPort p.
Proof.
  intros (Hm & Ho & Hpm)%derivePeers_inv Hd Hself Hn Hcl Hps.
  rewrite Hpm in Hps by (by apply find_last_Some in Hn as [? _]). injection Hps as <-.
  split.
  - apply peers_of_NoDup; [done|]. intros l1 l2 a1 a2 p1 p2 H1 H2 Hne A1 A2 Hp1 Hp2 Heq.
    pose proof (node_peer_port topo keys dflt m n l1 a1 p1 Ho Hn Hcl H1 A1 Hp1) as O1.
    pose proof (node_peer_port topo keys dflt m n l2 a2 p2 Ho Hn Hcl H2 A2 Hp2) as O2. rewrite Heq in O1.
    by refine (preallocate_no_sharing _ _ _ (groupLinks_NoDup topo) Hm Hd l1 l2 a1 a2 _ H1 H2 _ A1 A2 O1 O2).
  - intros p (l & a & Hl & Ha & Hp)%peers_of_elem.
    destruct (node_peer_port topo keys dflt m n l a p Ho Hn Hcl Hl Ha Hp) as [(_ & _ & ?)|(_ & _ & ?)]; done.
Qed.

Lemma DeriveClientConfigs_lookup topo keys m dflt n e t :
  NoDup (Node_ID <$> Topology_Nodes topo) -> n ∈ Topology_Nodes topo -> is_client n = true ->
  client_edge topo n = Some e -> nodeMap topo (Edge_ToNodeID e) = Some t ->
  exists cfg, DeriveClientConfigs topo keys m dflt !! Node_ID n = Some cfg /\
    Client_RouterEndpoint cfg = client_endpoint e (router_port m e n) /\
    Client_RouterPublicKey cfg = PublicKey (key_of keys (Node_ID t)) /\
    Client_DomainCIDRs cfg = client_cidrs topo.
Proof.
  intros Hnd Hn Hcl He Ht. unfold DeriveClientConfigs.
  match goal with |- context [foldl ?f ∅ _] => set (step := f) end.
  assert (exists cfg, foldl step ∅ (Topology_Nodes topo) !! Node_ID n = Some cfg /\
    forall s, step s n = <[Node_ID n := cfg]> s) as (cfg & Hcfg & Hstep).
  { apply list_elem_of_split in Hn as (l1 & l2 & El). rewrite El in Hnd |- *. rewrite foldl_app. cbn [foldl].
    eexists. split.
    - instantiate (1 := mkClient _ _ _ _ _ _ _ _ _ _ _).
      assert (forall s l, Node_ID n ∉ Node_ID <$> l -> foldl step s l !! Node_ID n = s !! Node_ID n) as Hskip.
      { clear -step. intros s l; revert s; induction l as [|x l IH]; intros s Hx; [done|]. cbn [foldl].
        rewrite IH by set_solver. unfold step. repeat case_match; try done. apply lookup_insert_ne. set_solver. }
      rewrite Hskip.
      + unfold step at 1. rewrite Hcl, He, Ht. cbn [negb]. apply lookup_insert_eq.
      + rewrite fmap_app, fmap_cons, NoDup_app, NoDup_cons in Hnd. tauto.
    - intros s. unfold step. by rewrite Hcl, He, Ht. }
  exists cfg. split; [done|]. specialize (Hstep ∅). unfold step in Hstep. rewrite Hcl, He, Ht in Hstep. cbn [negb] in Hstep.
  apply (f_equal (lookup (Node_ID n))) in Hstep. rewrite !lookup_insert_eq in Hstep. injection Hstep as <-. done.
Qed.

(** A client dials the port the router's interface for it listens on: the
    configuration of a client whose uplink edge drives its link has the
    endpoint [host:port] with the listen port of an interface of the router
    that belongs to this client, or the operator's override port. *)
Lemma derive_client_dials topo keys reserved dflt pm m n e t :
  derivePeers topo keys reserved dflt = Some (Ok (pm, m)) ->
  NoDup (Node_ID <$> Topology_Nodes topo) -> n ∈ Topology_Nodes topo ->
  is_client n = true -> is_client t = false ->
  client_edge topo n = Some e -> nodeMap topo (Edge_ToNodeID e) = Some t ->
  link_of topo (e, n, t) ∈ groupLinks topo -> Edge_EndpointHost e <> "" ->
  exists cfg p ps,
    DeriveClientConfigs topo keys m dflt !! Node_ID n = Some cfg /\
    pm !! Node_ID t = Some ps /\ p ∈ ps /\ Peer_NodeID p = Node_ID n /\ Peer_IsClientPeer p = true /\
    Client_RouterPublicKey cfg = PublicKey (key_of keys (Node_ID t)) /\
    Client_RouterEndpoint cfg = formatEndpoint (Edge_EndpointHost e)
      (if 0 <? Edge_EndpointPort e then Edge_EndpointPort e else Peer_ListenPort p).
Proof.
  intros (Hm & Ho & Hpm)%derivePeers_inv Hnd Hn Hcl Hct He Ht Hl Hh.
  destruct (DeriveClientConfigs_lookup topo keys m dflt n e t Hnd Hn Hcl He Ht) as (cfg & Hcfg & Hep & Hpk & _).
  destruct (Ho _ Hl) as (a & Ha & [Hfrom _ [_ Hp] _ _]). cbn in Ha, Hp, Hfrom. rewrite Hct in Hp.
  pose proof Ht as [Hin _]%find_last_Some.
  exists cfg, (client_router_peer keys dflt (link_of topo (e, n, t)) a n t), (peers_of keys topo dflt m (Node_ID t)).
  split_and!; try done; [by apply Hpm| |].
  - apply peers_of_elem. exists (link_of topo (e, n, t)), a. split_and!; [done..|].
    unfold link_peers. cbn. rewrite Hcl. by left.
  - rewrite Hep. unfold client_endpoint, router_port, client_router_peer. cbn in Ha. rewrite Ha, Hfrom, String.eqb_refl.
    rewrite (proj2 (non_empty_true _) Hh). cbn. destruct (Z.ltb_spec 0 (Edge_EndpointPort e)) as [H1|H1].
    + by destruct (Z.ltb_spec 0 (Edge_EndpointPort e)); [|lia].
    + destruct (Z.ltb_spec 0 (al_toPort a)); [|lia]. by destruct (Z.ltb_spec 0 (al_toPort a)); [|lia].
Qed.

(** ** Witnesses *)

Definition ex_keys : gmap string KeyPair :=
  list_to_map [("a", mkKeyPair "ka" "pa"); ("b", mkKeyPair "kb" "pb"); ("c", mkKeyPair "kc" "pc")]%string.

Definition ex_peerMap : peerMap :=
  match derivePeers ex_link_topo ex_keys None "" with Some (Ok (pm, _)) => pm | _ => ∅ end.

Lemma ex_derivePeers : derivePeers ex_link_topo ex_keys None "" = Some (Ok (ex_peerMap, ex_link_allocs)).
Proof. vm_compute. reflexivity. Qed.

Definition ex_a : Node := ex_node "a" "router" "d" "10.11.0.1" (ex_caps true true).
Definition ex_b : Node := ex_node "b" "router" "d" "10.11.0.2" (ex_caps true true).
Definition ex_c : Node := ex_node "c" "client" "d" "10.11.0.3" (ex_caps false false).
Definition ex_uplink : Edge := ex_edge "e4" "c" "a" "a.example" "" no_pins.

Lemma ex_groupLinks :
  groupLinks ex_link_topo =
  [link_of ex_link_topo (ex_edge "e1" "a" "b" "b.example" "" no_pins, ex_a, ex_b);
   link_of ex_link_topo (ex_edge "e3" "a" "b" "b.example" "backup"
     (mkPins 51820 51820 "10.10.0.1" "10.10.0.2" "fe80::1" "fe80::2"), ex_a, ex_b);
   link_of ex_link_topo (ex_uplink, ex_c, ex_a)].
Proof. vm_compute. reflexivity. Qed.

Lemma blank_occupies l a r :
  al_fromPort a = 0 -> al_toPort a = 0 -> al_localTransit a = "" -> al_localLL a = "" -> ~ occupies l a r.
Proof. intros H1 H2 H3 H4. destruct r; cbn; rewrite ?H1, ?H2, ?H3, ?H4; naive_solver lia. Qed.

Lemma ex_pins_disjoint : pins_disjoint (groupLinks ex_link_topo).
Proof.
  rewrite ex_groupLinks. intros l1 l2 r H1 H2 Hk O1 O2.
  assert (forall l, l ∈ [link_of ex_link_topo (ex_edge "e1" "a" "b" "b.example" "" no_pins, ex_a, ex_b);
    link_of ex_link_topo (ex_uplink, ex_c, ex_a)] -> ~ occupies l (pinned_alloc l) r) as Hno.
  { intros l Hl. apply blank_occupies; apply list_elem_of_In in Hl; cbn [In] in Hl;
      destruct Hl as [<-|[<-|[]]]; vm_compute; reflexivity. }
  assert (forall l, l ∈ [link_of ex_link_topo (ex_edge "e1" "a" "b" "b.example" "" no_pins, ex_a, ex_b);
     link_of ex_link_topo (ex_edge "e3" "a" "b" "b.example" "backup"
       (mkPins 51820 51820 "10.10.0.1" "10.10.0.2" "fe80::1" "fe80::2"), ex_a, ex_b);
     link_of ex_link_topo (ex_uplink, ex_c, ex_a)] -> occupies l (pinned_alloc l) r ->
    lk_linkKey l = "a|b#e3"%string) as Honly.
  { intros l Hl Ho. rewrite !elem_of_cons in Hl. destruct Hl as [->|[->|[->|Hl]]];
      [exfalso; eapply Hno; [|exact Ho]; by left|vm_compute; reflexivity
      |exfalso; eapply Hno; [|exact Ho]; right; by left|by apply elem_of_nil in Hl]. }
  apply Hk. rewrite (Honly l1 H1 O1), (Honly l2 H2 O2). done.
Qed.

Lemma derivePeers_mirrored_witness :
  exists ps qs, ex_peerMap !! "a"%string = Some ps /\ ex_peerMap !! "b"%string = Some qs.
Proof.
  destruct (derivePeers_mirrored ex_link_topo ex_keys None "" ex_peerMap ex_link_allocs
    (link_of ex_link_topo (ex_edge "e1" "a" "b" "b.example" "" no_pins, ex_a, ex_b)) ex_derivePeers
    ltac:(rewrite ex_groupLinks; left) eq_refl eq_refl) as (p & q & ps & qs & Hp & _ & Hq & _).
  exists ps, qs. split; [exact Hp | exact Hq].
Defined.
