(* ===== verification/Compiler.v ===== *)
(** * The compile pipeline after validation ([internal/compiler/compiler.go])

    [compile_passes] is the body of [CompileAt] from IP allocation on: the two
    validation passes are modelled in the validator files and composed with it
    there.  The rendered-artifact maps of the result are empty at this stage,
    and the display-only checksum is left out. *)

From stdpp Require Import base gmap strings list sets fin_sets.
From Stdlib Require Import ZArith Lia.
From S2P Require Import Prelude GoLib GoNet Model LinkID Allocator PeersAlloc PeersAllocProps PeersAllocCorrect Peers PeersProps.

Local Open Scope Z_scope.
Local Open Scope go_scope.

Definition AllocationSchemaVersion : Z := 1.

Record CompileResult := mkCompileResult {
  CR_Topology : Topology;
  CR_PeerMap : peerMap;
  CR_ClientConfigs : gmap string ClientPeerInfo;
  CR_ProjectID : string;
  CR_ProjectName : string;
  CR_Version : string;
  CR_NodeCount : Z }.

Definition set_Edges (edges : list Edge) (topo : Topology) : Topology :=
  match topo with mkTopology a b c _ e f => mkTopology a b c edges e f end.

Definition infer_caps (n : Node) : Node := set_Capabilities (InferCapabilitiesFromRole n) n.

(** [roleByNode[id]]: the empty role when the ID is unknown. *)
Definition roleByNode (topo : Topology) (id : string) : string :=
  match nodeMap topo id with Some n => Node_Role n | None => "" end.

Definition clear_client_ports (role : string -> string) (e : Edge) : Edge :=
  let e1 := if String.eqb (role (Edge_FromNodeID e)) "client" then set_PinnedFromPort 0 e else e in
  if String.eqb (role (Edge_ToNodeID e1)) "client" then set_PinnedToPort 0 e1 else e1.

(** One iteration of the write-back loop. *)
Definition write_back (role : string -> string) (allocations : gmap string pairAllocation) (e0 : Edge) : Edge :=
  let e := clear_client_ports role e0 in
  if negb (Edge_IsEnabled e) then e
  else
    match allocations !! LinkKey e with
    | None => e
    | Some alloc =>
        let isForward := String.eqb (al_fromNodeID alloc) (Edge_FromNodeID e) in
        let e1 := clear_client_ports role (set_pins (oriented alloc isForward) e) in
        if String.eqb (Edge_EndpointHost e1) "" then e1
        else if 0 <? Edge_EndpointPort e1 then set_CompiledPort (Edge_EndpointPort e1) e1
        else set_CompiledPort (if isForward then al_toPort alloc else al_fromPort alloc) e1
    end.

(** The topology peers are derived from. *)
Definition allocated_topo (topo : Topology) (allocatedNodes : list Node) : Topology :=
  mkTopology (Topology_Project topo) (Topology_Domains topo) (infer_caps <$> allocatedNodes)
    (Topology_Edges topo) (Topology_RoutePolicies topo) AllocationSchemaVersion.

Definition compile_passes (ctx : Ctx) (topo : Topology) (keys : gmap string KeyPair) (reserved : option pools)
    (mimicFallbackDefault : string) : option (result goerror CompileResult) :=
  match AllocateIPs ctx topo with
  | Err e => Some (Err (Wrapped "IP allocation failed" e))
  | Ok allocatedNodes =>
      let compiledTopo := allocated_topo topo allocatedNodes in
      match derivePeers compiledTopo keys reserved mimicFallbackDefault with
      | None => None
      | Some (Err e) => Some (Err (Wrapped "deriving WireGuard peer configuration failed" e))
      | Some (Ok (pm, pairAllocations)) =>
          let clientConfigs := DeriveClientConfigs compiledTopo keys pairAllocations mimicFallbackDefault in
          let out := set_Edges (write_back (roleByNode compiledTopo) pairAllocations <$> Topology_Edges compiledTopo)
                       compiledTopo in
          Some (Ok (mkCompileResult out pm clientConfigs
                      (Project_ID (Topology_Project topo)) (Project_Name (Topology_Project topo))
                      (Project_Version (Topology_Project topo)) (Z.of_nat (length allocatedNodes))))
      end
  end.

(** ** Edges up to their allocation fields *)

(** Everything [edge_ident] keeps. *)
Lemma edge_ident_fields e e' :
  edge_ident e = edge_ident e' ->
  Edge_ID e = Edge_ID e' /\ Edge_FromNodeID e = Edge_FromNodeID e' /\ Edge_ToNodeID e = Edge_ToNodeID e' /\
  Edge_EndpointHost e = Edge_EndpointHost e' /\ Edge_EndpointPort e = Edge_EndpointPort e' /\
  Edge_Priority e = Edge_Priority e' /\ Edge_Weight e = Edge_Weight e' /\ Edge_Role e = Edge_Role e' /\
  Edge_Transport e = Edge_Transport e' /\ Edge_MimicFallback e = Edge_MimicFallback e' /\
  Edge_LinkDirection e = Edge_LinkDirection e' /\ Edge_IsEnabled e = Edge_IsEnabled e'.
Proof. destruct e, e'. cbn. intros [= ]. subst. auto 20. Qed.

Lemma LinkKey_ident e e' : edge_ident e = edge_ident e' -> LinkKey e = LinkKey e' /\ IsBackup e = IsBackup e'.
Proof. intros H. apply edge_ident_fields in H as (E1 & E2 & E3 & _ & _ & _ & _ & Hr & _).
  unfold LinkKey, IsBackup. by rewrite Hr, E1, E2, E3. Qed.

Lemma edge_ident_clear role e : edge_ident (clear_client_ports role e) = edge_ident e.
Proof.
  unfold clear_client_ports, set_PinnedFromPort, set_PinnedToPort. repeat case_match; autorewrite with yaog; done.
Qed.

Lemma edge_ident_write_back role m e : edge_ident (write_back role m e) = edge_ident e.
Proof.
  unfold write_back. repeat case_match; rewrite ?edge_ident_set_CompiledPort, ?edge_ident_clear, ?edge_ident_set_pins, ?edge_ident_clear; done.
Qed.

Lemma edge_eq e e' :
  edge_ident e = edge_ident e' -> pins_of e = pins_of e' -> Edge_CompiledPort e = Edge_CompiledPort e' -> e = e'.
Proof. destruct e, e'. unfold edge_ident, pins_of. cbn. intros [= ] [= ] ?. subst. done. Qed.

Lemma CompiledPort_set_pins p e : Edge_CompiledPort (set_pins p e) = Edge_CompiledPort e.
Proof. by destruct e. Qed.
Lemma CompiledPort_set_CompiledPort v e : Edge_CompiledPort (set_CompiledPort v e) = v.
Proof. by destruct e. Qed.
#[export] Hint Rewrite CompiledPort_set_pins CompiledPort_set_CompiledPort edge_ident_clear edge_ident_write_back : yaog.

(** The port of a side whose node is a client reads as zero. *)
Definition zero_ports (role : string -> string) (e : Edge) (p : pins) : pins :=
  mkPins (if String.eqb (role (Edge_FromNodeID e)) "client" then 0 else pin_from_port p)
    (if String.eqb (role (Edge_ToNodeID e)) "client" then 0 else pin_to_port p)
    (pin_from_transit p) (pin_to_transit p) (pin_from_ll p) (pin_to_ll p).

Lemma zero_ports_idem role e p : zero_ports role e (zero_ports role e p) = zero_ports role e p.
Proof. unfold zero_ports. cbn. f_equal; by case_match. Qed.

Lemma zero_ports_ident role e e' p : edge_ident e = edge_ident e' -> zero_ports role e p = zero_ports role e' p.
Proof. intros H. apply edge_ident_fields in H as (_ & E1 & E2 & _). unfold zero_ports. by rewrite E1, E2. Qed.

Lemma pins_of_clear role e : pins_of (clear_client_ports role e) = zero_ports role e (pins_of e).
Proof.
  unfold clear_client_ports, zero_ports, set_PinnedFromPort, set_PinnedToPort.
  destruct e as [i f t]. cbn [Edge_FromNodeID Edge_ToNodeID].
  destruct (String.eqb (role f) "client"); cbn; destruct (String.eqb (role t) "client"); done.
Qed.

Lemma CompiledPort_clear role e : Edge_CompiledPort (clear_client_ports role e) = Edge_CompiledPort e.
Proof.
  unfold clear_client_ports, set_PinnedFromPort, set_PinnedToPort. repeat case_match; autorewrite with yaog; done.
Qed.
#[export] Hint Rewrite pins_of_clear CompiledPort_clear : yaog.

(** The allocation an edge's write-back uses: none for a disabled edge. *)
Definition edge_alloc (m : gmap string pairAllocation) (e : Edge) : option pairAllocation :=
  if Edge_IsEnabled e then m !! LinkKey e else None.

Definition along (a : pairAllocation) (e : Edge) : bool := String.eqb (al_fromNodeID a) (Edge_FromNodeID e).

(** The write-back seen on pins and compiled port. *)
Lemma write_back_pins role m e :
  pins_of (write_back role m e) =
  zero_ports role e (match edge_alloc m e with Some a => oriented a (along a e) | None => pins_of e end).
Proof.
  unfold write_back, edge_alloc, along.
  destruct (edge_ident_fields _ _ (edge_ident_clear role e)) as (_ & Hf & _ & _ & _ & _ & _ & _ & _ & _ & _ & He).
  destruct (LinkKey_ident _ _ (edge_ident_clear role e)) as [Hk _]. rewrite He, Hk, Hf.
  destruct (Edge_IsEnabled e); cbn [negb]; [|apply pins_of_clear].
  destruct (m !! LinkKey e) as [a|]; [|apply pins_of_clear].
  repeat case_match; autorewrite with yaog; apply zero_ports_ident; autorewrite with yaog; done.
Qed.

Lemma write_back_CompiledPort role m e :
  Edge_CompiledPort (write_back role m e) =
  match edge_alloc m e with
  | Some a => if String.eqb (Edge_EndpointHost e) "" then Edge_CompiledPort e
              else if 0 <? Edge_EndpointPort e then Edge_EndpointPort e
              else if along a e then al_toPort a else al_fromPort a
  | None => Edge_CompiledPort e
  end.
Proof.
  unfold write_back, edge_alloc, along.
  destruct (edge_ident_fields _ _ (edge_ident_clear role e)) as (_ & Hf & _ & _ & _ & _ & _ & _ & _ & _ & _ & He).
  destruct (LinkKey_ident _ _ (edge_ident_clear role e)) as [Hk _]. rewrite He, Hk, Hf.
  destruct (Edge_IsEnabled e); cbn [negb]; [|apply CompiledPort_clear].
  destruct (m !! LinkKey e) as [a|]; [|apply CompiledPort_clear].
  match goal with |- context [clear_client_ports role (set_pins ?p ?x)] =>
    assert (edge_ident (clear_client_ports role (set_pins p x)) = edge_ident e) as Hi by (autorewrite with yaog; done) end.
  apply edge_ident_fields in Hi as (_ & _ & _ & -> & -> & _).
  repeat case_match; autorewrite with yaog; done.
Qed.

Lemma edge_alloc_ident m e e' : edge_ident e = edge_ident e' -> edge_alloc m e = edge_alloc m e'.
Proof.
  intros H. destruct (LinkKey_ident _ _ H) as [Hk _].
  apply edge_ident_fields in H as (_ & _ & _ & _ & _ & _ & _ & _ & _ & _ & _ & He). unfold edge_alloc. by rewrite He, Hk.
Qed.

Lemma along_ident a e e' : edge_ident e = edge_ident e' -> along a e = along a e'.
Proof. intros H. apply edge_ident_fields in H as (_ & E & _). unfold along. by rewrite E. Qed.

Lemma write_back_idem role m e : write_back role m (write_back role m e) = write_back role m e.
Proof.
  pose proof (edge_ident_write_back role m e) as Hi. apply edge_eq.
  - by rewrite edge_ident_write_back.
  - rewrite write_back_pins, (edge_alloc_ident m _ _ Hi), (zero_ports_ident role _ _ _ Hi), write_back_pins.
    destruct (edge_alloc m e); [by rewrite (along_ident _ _ _ Hi)|apply zero_ports_idem].
  - rewrite write_back_CompiledPort, (edge_alloc_ident m _ _ Hi), write_back_CompiledPort.
    pose proof (edge_ident_fields _ _ Hi) as (_ & _ & _ & -> & -> & _).
    destruct (edge_alloc m e); [|done]. rewrite (along_ident _ _ _ Hi). by repeat case_match.
Qed.
