(* ===== verification/CompilerProps.v ===== *)
(** * Properties of the compile pipeline

    Recompiling a compiled topology reproduces it, its peers and its
    allocations; a compiled port is the port of the rendered endpoint; and the
    passes never panic. *)

From stdpp Require Import base gmap strings list sets fin_sets.
From Stdlib Require Import ZArith Lia.
From S2P Require Import Prelude GoLib GoNet Model LinkID Allocator PeersAlloc PeersAllocProps PeersAllocCorrect Peers PeersProps Compiler.

Local Open Scope Z_scope.
Local Open Scope go_scope.

(** ** Peer derivation reads edges only up to their allocation fields *)

Section MapEdges.
Context (g : Edge -> Edge).
Hypothesis Hg : forall e, edge_ident (g e) = edge_ident e.

Definition map_link (l : linkEntity) : linkEntity :=
  mkLink (lk_linkKey l) (lk_backup l) (g (lk_primaryEdge l)) (lk_fromNode l) (lk_toNode l) (lk_transitCIDR l).

Definition map_edges (topo : Topology) : Topology := set_Edges (g <$> Topology_Edges topo) topo.

Lemma map_edges_nodeMap topo : nodeMap (map_edges topo) = nodeMap topo.
Proof. by destruct topo. Qed.
Lemma map_edges_domainMap topo : domainMap (map_edges topo) = domainMap topo.
Proof. by destruct topo. Qed.
Lemma map_edges_Edges topo : Topology_Edges (map_edges topo) = g <$> Topology_Edges topo.
Proof. by destruct topo. Qed.
Lemma map_edges_Nodes topo : Topology_Nodes (map_edges topo) = Topology_Nodes topo.
Proof. by destruct topo. Qed.

Lemma enabledEdges_map topo :
  enabledEdges (map_edges topo) = (fun x => (g x.1.1, x.1.2, x.2)) <$> enabledEdges topo.
Proof.
  unfold enabledEdges. rewrite map_edges_Edges, map_edges_nodeMap.
  induction (Topology_Edges topo) as [|e es IH]; [done|]. rewrite fmap_cons. cbn -[nodeMap].
  destruct (edge_ident_fields _ _ (Hg e)) as (_ & -> & -> & _ & _ & _ & _ & _ & _ & _ & _ & ->).
  destruct (Edge_IsEnabled e), (nodeMap topo (Edge_FromNodeID e)), (nodeMap topo (Edge_ToNodeID e)); cbn -[nodeMap];
    first [exact IH | f_equal; exact IH].
Qed.

Lemma find_link_map links k : find_link (map_link <$> links) k = map_link <$> find_link links k.
Proof.
  unfold find_link. induction links as [|l ls IH] using rev_ind; [done|].
  rewrite fmap_app, !find_last_app, IH. cbn. destruct (String.eqb (lk_linkKey l) k); done.
Qed.

Lemma link_of_map topo x : link_of (map_edges topo) (g x.1.1, x.1.2, x.2) = map_link (link_of topo x).
Proof.
  destruct x as [[e f] t]. cbn [link_of fst snd]. destruct (LinkKey_ident _ _ (Hg e)) as [-> ->].
  by rewrite map_edges_domainMap.
Qed.

Lemma groupLinks_map topo : groupLinks (map_edges topo) = map_link <$> groupLinks topo.
Proof.
  change (groupLinks (map_edges topo)) with (group_from (map_edges topo) (enabledEdges (map_edges topo))).
  change (groupLinks topo) with (group_from topo (enabledEdges topo)).
  rewrite enabledEdges_map. induction (enabledEdges topo) as [|x xs IH] using rev_ind; [done|].
  rewrite fmap_app. cbn [fmap list_fmap]. rewrite !group_from_snoc, IH, find_link_map. cbn [fst snd].
  destruct (LinkKey_ident _ _ (Hg x.1.1)) as [-> _].
  destruct (find_link (group_from topo xs) (LinkKey x.1.1)); [done|]. cbn [fmap option_fmap option_map].
  rewrite fmap_app. cbn [fmap list_fmap]. by rewrite link_of_map.
Qed.

Lemma build_edgeMap_map topo k : build_edgeMap (map_edges topo) !! k = g <$> build_edgeMap topo !! k.
Proof.
  unfold build_edgeMap. rewrite map_edges_Edges.
  induction (Topology_Edges topo) as [|e es IH] using rev_ind; [cbn [foldl fmap list_fmap]; by rewrite !lookup_empty|].
  rewrite fmap_app, !foldl_app. cbn [foldl fmap list_fmap].
  destruct (LinkKey_ident _ _ (Hg e)) as [_ ->].
  destruct (edge_ident_fields _ _ (Hg e)) as (_ & -> & -> & _ & _ & _ & _ & _ & _ & _ & _ & ->).
  destruct (Edge_IsEnabled e && negb (IsBackup e)); [|done].
  rewrite !lookup_insert. by case_decide.
Qed.

Lemma link_peers_map keys topo dflt l a :
  link_peers keys (build_edgeMap (map_edges topo)) dflt (map_link l) a =
  link_peers keys (build_edgeMap topo) dflt l a.
Proof.
  destruct (edge_ident_fields _ _ (Hg (lk_primaryEdge l))) as (E1 & _ & _ & E4 & E5 & E6 & E7 & _ & E9 & E10 & E11 & _).
  unfold link_peers, client_router_peer, forward_peer, reverse_peer, forward_endpoint, forward_keepalive,
    reverse_endpoint, isMimicEdge, deriveLinkCost, effectiveLinkDirection, map_link. cbn [lk_primaryEdge lk_fromNode lk_toNode lk_backup].
  rewrite E1, E4, E5, E6, E7, E9, E10, E11, build_edgeMap_map.
  destruct (build_edgeMap topo !! reverse_key (lk_fromNode l) (lk_toNode l)) as [r|]; [|done].
  destruct (edge_ident_fields _ _ (Hg r)) as (_ & _ & _ & R4 & R5 & _). cbn [fmap option_fmap option_map].
  rewrite R4, R5. done.
Qed.

Lemma all_peers_map keys topo dflt m links :
  all_peers keys (build_edgeMap (map_edges topo)) dflt m (map_link <$> links) =
  all_peers keys (build_edgeMap topo) dflt m links.
Proof.
  unfold all_peers. induction links as [|l ls IH]; [done|]. rewrite fmap_cons, !bind_cons, IH. f_equal.
  change (lk_linkKey (map_link l)) with (lk_linkKey l). destruct (m !! lk_linkKey l); [|done]. apply link_peers_map.
Qed.

Lemma client_edge_map topo n : client_edge (map_edges topo) n = g <$> client_edge topo n.
Proof.
  unfold client_edge. rewrite map_edges_Edges. induction (Topology_Edges topo) as [|e es IH]; [done|].
  rewrite fmap_cons. cbn. destruct (edge_ident_fields _ _ (Hg e)) as (_ & -> & _ & _ & _ & _ & _ & _ & _ & _ & _ & ->).
  destruct (Edge_IsEnabled e && _); [done|exact IH].
Qed.

Lemma DeriveClientConfigs_map topo keys m dflt :
  DeriveClientConfigs (map_edges topo) keys m dflt = DeriveClientConfigs topo keys m dflt.
Proof.
  unfold DeriveClientConfigs. rewrite map_edges_Nodes, map_edges_nodeMap.
  generalize (∅ : gmap string ClientPeerInfo). induction (Topology_Nodes topo) as [|n ns IH]; intros c; [done|].
  cbn [foldl]. rewrite <- IH. f_equal. destruct (is_client n); [|done]. cbn [negb].
  rewrite client_edge_map. destruct (client_edge topo n) as [e|]; [|done]. cbn [fmap option_fmap option_map].
  destruct (LinkKey_ident _ _ (Hg e)) as [Hk _].
  destruct (edge_ident_fields _ _ (Hg e)) as (_ & _ & -> & E4 & E5 & _ & _ & _ & E9 & E10 & _).
  destruct (nodeMap topo (Edge_ToNodeID e)); [|done].
  unfold client_endpoint, router_port, isMimicEdge, client_cidrs. rewrite Hk, E4, E5, E9, E10. by destruct topo.
Qed.
End MapEdges.

(** ** Nodes *)

Lemma set_Capabilities_idem n : infer_caps (infer_caps n) = infer_caps n.
Proof.
  unfold infer_caps, InferCapabilitiesFromRole.
  destruct n as [i nm h pl ro de dm ip mt eg mi ri [c1 c2 c3 c4] fk pk pu pe]. cbn.
  destruct (String.eqb ro "router"), (String.eqb ro "relay"), (String.eqb ro "gateway"), (String.eqb ro "client"); cbn;
    destruct c1, c4, pe; done.
Qed.

Lemma infer_caps_fields n :
  Node_ID (infer_caps n) = Node_ID n /\ Node_OverlayIP (infer_caps n) = Node_OverlayIP n /\
  Node_DomainID (infer_caps n) = Node_DomainID n.
Proof. by destruct n. Qed.

Lemma clear_stale_infer topo n : clear_stale topo (infer_caps n) = infer_caps (clear_stale topo n).
Proof.
  unfold clear_stale. destruct (infer_caps_fields n) as (_ & -> & ->).
  repeat case_match; try done; by destruct n.
Qed.

Lemma clear_stale_domains topo topo' n :
  domainMap topo' = domainMap topo -> clear_stale topo' n = clear_stale topo n.
Proof. intros H. unfold clear_stale. by rewrite H. Qed.

(** ** What a successful compile consists of *)

Lemma compile_passes_inv ctx topo keys reserved dflt r :
  compile_passes ctx topo keys reserved dflt = Some (Ok r) ->
  exists nodes m, let t1 := allocated_topo topo nodes in
    AllocateIPs ctx topo = Ok nodes /\ preallocateLinkResources (groupLinks t1) reserved = Ok m /\
    r = mkCompileResult (map_edges (write_back (roleByNode t1) m) t1)
          (append_all (init_peerMap t1) (all_peers keys (build_edgeMap t1) dflt m (groupLinks t1)))
          (DeriveClientConfigs t1 keys m dflt)
          (Project_ID (Topology_Project topo)) (Project_Name (Topology_Project topo))
          (Project_Version (Topology_Project topo)) (Z.of_nat (length nodes)).
Proof.
  unfold compile_passes. destruct (AllocateIPs ctx topo) as [nodes|] eqn:Ha; [|done].
  rewrite derivePeers_unfold. destruct (preallocateLinkResources _ _) as [m|] eqn:Hm; [|done]. cbn [rbind].
  intros [= <-]. by exists nodes, m.
Qed.

Lemma compile_passes_intro ctx topo keys reserved dflt nodes m :
  AllocateIPs ctx topo = Ok nodes ->
  preallocateLinkResources (groupLinks (allocated_topo topo nodes)) reserved = Ok m ->
  let t1 := allocated_topo topo nodes in
  compile_passes ctx topo keys reserved dflt =
  Some (Ok (mkCompileResult (map_edges (write_back (roleByNode t1) m) t1)
          (append_all (init_peerMap t1) (all_peers keys (build_edgeMap t1) dflt m (groupLinks t1)))
          (DeriveClientConfigs t1 keys m dflt)
          (Project_ID (Topology_Project topo)) (Project_Name (Topology_Project topo))
          (Project_Version (Topology_Project topo)) (Z.of_nat (length nodes)))).
Proof.
  intros Ha Hm. unfold compile_passes. rewrite Ha, derivePeers_unfold, Hm. done.
Qed.

(** The written-back driving edge of a link carries the link's allocation. *)
Lemma write_back_primary t m l a :
  l ∈ groupLinks t -> m !! lk_linkKey l = Some a -> complete l a ->
  pins_of (write_back (roleByNode t) m (lk_primaryEdge l)) = alloc_pins a /\
  edge_alloc m (lk_primaryEdge l) = Some a /\ along a (lk_primaryEdge l) = true.
Proof.
  intros Hl Ha [Hf Ht [Hp1 Hp2] _ _]. destruct (groupLinks_inv t) as (_ & _ & Hs).
  destruct (Hs l Hl) as ([[e f] tn] & (_ & En & F & T)%enabledEdges_spec & ->). cbn in *.
  assert (edge_alloc m e = Some a) as Hea by (unfold edge_alloc; by rewrite En).
  assert (along a e = true) as Hal.
  { unfold along. rewrite Hf. apply find_last_Some in F as [_ <-]. apply String.eqb_refl. }
  split; [|done]. rewrite write_back_pins, Hea, Hal. unfold zero_ports, alloc_pins, roleByNode. rewrite F, T. cbn.
  unfold is_client in *. f_equal.
  - by destruct (String.eqb (Node_Role f) "client").
  - by destruct (String.eqb (Node_Role tn) "client").
Qed.

Lemma complete_map_link g l a : complete (map_link g l) a <-> complete l a.
Proof. split; intros []; split; done. Qed.

Lemma pinned_alloc_write_back t m l a :
  l ∈ groupLinks t -> m !! lk_linkKey l = Some a -> complete l a ->
  pinned_alloc (map_link (write_back (roleByNode t) m) l) = a.
Proof.
  intros Hl Ha Hc. apply pinned_alloc_of; [|by apply complete_map_link].
  by apply (write_back_primary t m l a).
Qed.

Lemma map_link_keys g (links : list linkEntity) : lk_linkKey <$> (map_link g <$> links) = lk_linkKey <$> links.
Proof. by rewrite <- list_fmap_compose. Qed.

(** Allocating on the compiled topology reproduces the allocation. *)
Lemma preallocate_write_back t reserved reserved' m :
  preallocateLinkResources (groupLinks t) reserved = Ok m ->
  preallocateLinkResources (groupLinks (map_edges (write_back (roleByNode t) m) t)) reserved' = Ok m.
Proof.
  intros Hm. rewrite groupLinks_map by apply edge_ident_write_back.
  apply preallocate_pinned_exact; rewrite ?map_link_keys; [apply groupLinks_NoDup| |].
  - intros l' (l & -> & Hl)%list_elem_of_fmap.
    destruct (preallocate_link_entry _ _ _ _ (groupLinks_NoDup t) Hm Hl) as (a & Ha & Hc & _).
    rewrite (pinned_alloc_write_back t m l a) by done. by rewrite complete_map_link.
  - intros k [a Ha]. destruct (preallocate_dom _ _ _ _ _ (groupLinks_NoDup t) Hm Ha) as (l & ? & <-).
    by apply list_elem_of_fmap_2.
Qed.

(** The compiled topology is a fixed point of the node passes. *)
Lemma allocated_settled ctx ctx' topo nodes es :
  AllocateIPs ctx topo = Ok nodes -> ctx' 0%nat = None ->
  let t := set_Edges es (allocated_topo topo nodes) in
  AllocateIPs ctx' t = Ok (infer_caps <$> nodes) /\ allocated_topo t (infer_caps <$> nodes) = t.
Proof.
  intros Ha%AllocateIPs_settled Hc. cbv zeta. split.
  - rewrite AllocateIPs_of_settled; [done| |done]. cbn. apply Forall_fmap. eapply Forall_impl; [exact Ha|].
    intros n [Hn Hs]. split; cbn.
    + by destruct (infer_caps_fields n) as (_ & -> & _).
    + rewrite (clear_stale_domains topo) by done. by rewrite clear_stale_infer, Hs.
  - unfold allocated_topo, set_Edges. cbn. f_equal. rewrite <- list_fmap_compose.
    apply list_fmap_ext. intros. apply set_Capabilities_idem.
Qed.

(** The passes reproduce their own result: run on the compiled topology, under
    any reserved set and with an uncancelled first poll, they return the same
    topology (pins, ports and addresses included), peers and client configurations. *)
Lemma compile_idempotent ctx ctx' topo keys reserved reserved' dflt r :
  compile_passes ctx topo keys reserved dflt = Some (Ok r) -> ctx' 0%nat = None ->
  compile_passes ctx' (CR_Topology r) keys reserved' dflt = Some (Ok r).
Proof.
  intros (nodes & m & Ha & Hm & ->)%compile_passes_inv Hc. cbn [CR_Topology].
  set (t1 := allocated_topo topo nodes) in *. set (g := write_back (roleByNode t1) m).
  destruct (allocated_settled ctx ctx' topo nodes (g <$> Topology_Edges t1) Ha Hc) as [Ha' Ht]. fold t1 in Ha', Ht.
  change (set_Edges (g <$> Topology_Edges t1) t1) with (map_edges g t1) in Ha', Ht.
  rewrite (compile_passes_intro ctx' _ keys reserved' dflt (infer_caps <$> nodes) m); [|done|rewrite Ht; by eapply preallocate_write_back].
  cbv zeta. rewrite Ht, length_fmap. do 3 f_equal.
  - change (roleByNode (map_edges g t1)) with (roleByNode t1). fold g. unfold map_edges, set_Edges. cbn. f_equal.
    rewrite <- list_fmap_compose. apply list_fmap_ext. intros. apply write_back_idem.
  - rewrite groupLinks_map, all_peers_map by apply edge_ident_write_back. done.
  - apply DeriveClientConfigs_map, edge_ident_write_back.
Qed.

Lemma write_back_ext role role' m m' e :
  role (Edge_FromNodeID e) = role' (Edge_FromNodeID e) -> role (Edge_ToNodeID e) = role' (Edge_ToNodeID e) ->
  edge_alloc m e = edge_alloc m' e -> write_back role m e = write_back role' m' e.
Proof.
  intros Hf Ht H. apply edge_eq; [by rewrite !edge_ident_write_back| |by rewrite !write_back_CompiledPort, H].
  rewrite !write_back_pins, H. unfold zero_ports. by rewrite Hf, Ht.
Qed.

Definition resolvable (t : Topology) : Prop :=
  forall e, e ∈ Topology_Edges t -> Edge_IsEnabled e = true ->
    is_Some (nodeMap t (Edge_FromNodeID e)) /\ is_Some (nodeMap t (Edge_ToNodeID e)).

(** The port the user sees is the port that is dialled: for the edge that
    drives a link between non-client nodes and names an endpoint host, the
    compiled topology's edge carries the compiled port that the rendered
    endpoint of the from-node's interface contains. *)
Theorem compiled_port_is_dialled ctx topo keys reserved dflt r i e f t :
  compile_passes ctx topo keys reserved dflt = Some (Ok r) ->
  Topology_Edges (CR_Topology r) !! i = Some e ->
  nodeMap (CR_Topology r) (Edge_FromNodeID e) = Some f -> nodeMap (CR_Topology r) (Edge_ToNodeID e) = Some t ->
  is_client f = false -> is_client t = false ->
  link_of (CR_Topology r) (e, f, t) ∈ groupLinks (CR_Topology r) -> Edge_EndpointHost e <> "" ->
  exists p ps, CR_PeerMap r !! Node_ID f = Some ps /\ p ∈ ps /\ Peer_NodeID p = Node_ID t /\
    Peer_Endpoint p = formatEndpoint (Edge_EndpointHost e) (Edge_CompiledPort e) /\ 0 < Edge_CompiledPort e.
Proof.
  intros (nodes & m & Ha & Hm & ->)%compile_passes_inv Hi F T Hf Ht Hl Hh. cbn [CR_Topology CR_PeerMap] in *.
  set (t1 := allocated_topo topo nodes) in *. set (g := write_back (roleByNode t1) m) in *.
  rewrite map_edges_nodeMap in F, T. rewrite groupLinks_map in Hl by apply edge_ident_write_back.
  apply list_elem_of_fmap in Hl as (l & El & Hl).
  destruct (preallocate_link_entry _ _ _ _ (groupLinks_NoDup t1) Hm Hl) as (a & Hma & Hc & _).
  destruct (write_back_primary t1 m l a Hl Hma Hc) as (_ & Hea & Hal).
  assert (e = g (lk_primaryEdge l) /\ lk_fromNode l = f /\ lk_toNode l = t) as (-> & Elf & Elt).
  { unfold link_of, map_link in El. injection El as _ _ E1 E2 E3 _. auto. }
  destruct (edge_ident_fields _ _ (edge_ident_write_back (roleByNode t1) m (lk_primaryEdge l))) as (_ & _ & _ & Eh & Ep & _).
  fold g in Eh, Ep. rewrite Eh in Hh |- *.
  exists (forward_peer keys (build_edgeMap t1) dflt l a (lk_primaryEdge l) f t), (peers_of keys t1 dflt m (Node_ID f)).
  destruct Hc as [_ _ [_ Hp] _ _]. rewrite Elt, Ht in Hp.
  assert (Edge_CompiledPort (g (lk_primaryEdge l)) = if 0 <? Edge_EndpointPort (lk_primaryEdge l)
    then Edge_EndpointPort (lk_primaryEdge l) else al_toPort a) as Hcp.
  { unfold g. rewrite write_back_CompiledPort, Hea, Hal. by destruct (String.eqb_spec (Edge_EndpointHost (lk_primaryEdge l)) ""). }
  split_and!.
  - rewrite (append_all_lookup _ _ _ [] ); [done|]. apply init_peerMap_lookup. by apply find_last_Some in F as [? _].
  - apply peers_of_elem. exists l, a. split_and!; [done..|]. unfold link_peers. rewrite Elf, Elt, Hf. by left.
  - done.
  - cbn. unfold forward_endpoint. rewrite (proj2 (non_empty_true _) Hh), Hcp. done.
  - rewrite Hcp. destruct (Z.ltb_spec 0 (Edge_EndpointPort (lk_primaryEdge l))); lia.
Qed.

(** ** Witnesses *)

Definition ex_compile_topo : Topology :=
  ex_topology [mkDomain "d" "d" "10.11.0.0/24" "" "auto" "babel" [] "10.10.0.0/24"]
    [ex_node "a" "router" "d" "" (ex_caps true true);
     ex_node "b" "router" "d" "10.11.0.9" (ex_caps true true);
     ex_node "c" "client" "d" "" (ex_caps false false)]
    [ex_edge "e1" "a" "b" "b.example" "" no_pins;
     ex_edge "e2" "b" "a" "a.example" "" no_pins;
     ex_edge "e4" "c" "a" "a.example" "" no_pins].

Definition ex_result : CompileResult :=
  match compile_passes Background ex_compile_topo ex_keys None "" with
  | Some (Ok r) => r
  | _ => mkCompileResult ex_compile_topo ∅ ∅ "" "" "" 0
  end.

Lemma ex_compiles : compile_passes Background ex_compile_topo ex_keys None "" = Some (Ok ex_result).
Proof. vm_compute. reflexivity. Qed.

Lemma compiled_port_is_dialled_witness :
  exists p ps, CR_PeerMap ex_result !! "a"%string = Some ps /\ p ∈ ps /\
    Peer_Endpoint p = formatEndpoint "b.example" 51820.
Proof.
  destruct (compiled_port_is_dialled Background ex_compile_topo ex_keys None "" ex_result 0
    (set_CompiledPort 51820 (ex_edge "e1" "a" "b" "b.example" ""
       (mkPins 51820 51820 "10.10.0.1" "10.10.0.2" "fe80::1" "fe80::2")))
    (infer_caps (ex_node "a" "router" "d" "10.11.0.1" (ex_caps true true)))
    (infer_caps (ex_node "b" "router" "d" "10.11.0.9" (ex_caps true true))) ex_compiles)
    as (p & ps & Hp & Hin & _ & He & _).
  - vm_compute. reflexivity.
  - vm_compute. reflexivity.
  - vm_compute. reflexivity.
  - reflexivity.
  - reflexivity.
  - vm_compute. left.
  - discriminate.
  - exists p, ps. split; [exact Hp|]. split; [exact Hin|exact He].
Defined.
