(* ===== verification/Normalize.v ===== *)
(** * Healing of colliding pins ([internal/normalize/pins.go])

    [HealCollidingPins] clears the port pin of a client side and strips every
    edge whose pins collide with those of a different link, keeping the edge of
    the smaller link key.  The three owner tables of the source are one table
    keyed by the tagged resource. *)

From stdpp Require Import base gmap strings list sets fin_sets sorting.
From Stdlib Require Import ZArith Lia.
From S2P Require Import Prelude GoLib GoNet Model LinkID PeersAlloc PeersAllocProps PeersAllocCorrect Allocator Peers PeersProps Compiler CompilerProps.

Local Open Scope Z_scope.

(** ** Claims *)

(** A port of a node, a transit address, a link-local address. *)
Abbreviation claim := (string * Z + (string + string))%type.
Definition ClaimPort (node : string) (port : Z) : claim := inl (node, port).
Definition ClaimTransit (value : string) : claim := inr (inl value).
Definition ClaimLinkLocal (value : string) : claim := inr (inr value).

Definition edge_claims (role : string -> string) (e : Edge) : list claim :=
  let fromClient := String.eqb (role (Edge_FromNodeID e)) "client" in
  let toClient := String.eqb (role (Edge_ToNodeID e)) "client" in
  (if fromClient && negb toClient && (0 <? Edge_PinnedToPort e) then
     [ClaimPort (Edge_ToNodeID e) (Edge_PinnedToPort e)]
   else if toClient && negb fromClient && (0 <? Edge_PinnedFromPort e) then
     [ClaimPort (Edge_FromNodeID e) (Edge_PinnedFromPort e)]
   else if negb fromClient && negb toClient && (0 <? Edge_PinnedFromPort e) && (0 <? Edge_PinnedToPort e) then
     [ClaimPort (Edge_FromNodeID e) (Edge_PinnedFromPort e); ClaimPort (Edge_ToNodeID e) (Edge_PinnedToPort e)]
   else []) ++
  (if non_empty (Edge_PinnedFromTransitIP e) && non_empty (Edge_PinnedToTransitIP e) then
     [ClaimTransit (canonicalIP (Edge_PinnedFromTransitIP e)); ClaimTransit (canonicalIP (Edge_PinnedToTransitIP e))]
   else []) ++
  (if non_empty (Edge_PinnedFromLinkLocal e) && non_empty (Edge_PinnedToLinkLocal e) then
     [ClaimLinkLocal (canonicalIP (Edge_PinnedFromLinkLocal e)); ClaimLinkLocal (canonicalIP (Edge_PinnedToLinkLocal e))]
   else []).

Definition stripAllocationPins (e : Edge) : Edge := set_pins (mkPins 0 0 "" "" "" "") e.
Definition stripPins (e : Edge) : Edge := stripAllocationPins (set_CompiledPort 0 e).

(** ** The clearing loop *)

Definition heal_clear (role : string -> string) (e : Edge) : Edge * bool :=
  let c1 := String.eqb (role (Edge_FromNodeID e)) "client" && negb (Edge_PinnedFromPort e =? 0) in
  let e1 := if c1 then set_PinnedFromPort 0 e else e in
  let c2 := String.eqb (role (Edge_ToNodeID e1)) "client" && negb (Edge_PinnedToPort e1 =? 0) in
  let e2 := if c2 then set_PinnedToPort 0 e1 else e1 in
  (e2, c1 || c2).

(** ** The claiming loop *)

(** The order of the claiming loop: by link key, then by slice index. *)
Definition heal_le (x y : string * nat) : Prop :=
  if String.eqb x.1 y.1 then (x.2 <= y.2)%nat else String.le x.1 y.1.
#[export] Instance heal_le_dec : RelDecision heal_le.
Proof. intros x y. unfold heal_le. destruct (String.eqb x.1 y.1); apply _. Defined.

(** The link keys and indices of the enabled edges. *)
Definition enabled_indices (edges : list Edge) : list (string * nat) :=
  omap (fun ie : nat * Edge => if Edge_IsEnabled ie.2 then Some (LinkKey ie.2, ie.1) else None)
    (imap (fun i e => (i, e)) edges).

Definition heal_order (edges : list Edge) : list nat := snd <$> merge_sort heal_le (enabled_indices edges).

Record heal_state := mkHeal {
  heal_owner : gmap claim string;
  heal_edges : list Edge;
  heal_changed : bool }.

Definition collides (owner : gmap claim string) (link : string) (cs : list claim) : bool :=
  existsb (fun c => match owner !! c with Some o => negb (String.eqb o link) | None => false end) cs.

Definition heal_step (role : string -> string) (st : heal_state) (i : nat) : heal_state :=
  match heal_edges st !! i with
  | None => st
  | Some e =>
      let link := LinkKey e in
      let claims := edge_claims role e in
      if collides (heal_owner st) link claims then
        mkHeal (heal_owner st) (<[ i := stripPins e ]> (heal_edges st)) true
      else mkHeal (foldl (fun m c => <[ c := link ]> m) (heal_owner st) claims) (heal_edges st) (heal_changed st)
  end.

Definition heal_edges_of (role : string -> string) (edges : list Edge) : list Edge * bool :=
  let cleared := heal_clear role <$> edges in
  let edges1 := fst <$> cleared in
  let st := foldl (heal_step role) (mkHeal ∅ edges1 (existsb snd cleared)) (heal_order edges1) in
  (heal_edges st, heal_changed st).

Definition HealCollidingPins (topo : Topology) : Topology * bool :=
  let '(edges, changed) := heal_edges_of (roleByNode topo) (Topology_Edges topo) in
  (set_Edges edges topo, changed).

(** ** Clearing *)

Lemma heal_clear_spec role e : (heal_clear role e).1 = clear_client_ports role e.
Proof.
  unfold heal_clear, clear_client_ports, set_PinnedFromPort, set_PinnedToPort.
  destruct e as [i f t ty h po cp pr w ro tr mf ld en no fp tp x y z u]. cbn [Edge_FromNodeID Edge_ToNodeID Edge_PinnedFromPort].
  destruct (String.eqb (role f) "client"); cbn [andb];
    [destruct (Z.eqb_spec fp 0) as [->|]|]; cbn; (destruct (String.eqb (role t) "client"); cbn;
    [destruct (Z.eqb_spec tp 0) as [->|]|]; done).
Qed.

Lemma heal_clear_unchanged role e : (heal_clear role e).2 = false -> (heal_clear role e).1 = e.
Proof.
  unfold heal_clear. cbn [fst snd]. intros [H1 H2]%orb_false_iff. rewrite H1 in H2 |- *. by rewrite H2.
Qed.

Lemma heal_clear_id role e : zero_ports role e (pins_of e) = pins_of e -> heal_clear role e = (e, false).
Proof.
  intros Hz. unfold heal_clear. injection Hz as H1 H2.
  assert (String.eqb (role (Edge_FromNodeID e)) "client" && negb (Edge_PinnedFromPort e =? 0) = false) as ->.
  { destruct (String.eqb (role (Edge_FromNodeID e)) "client"); [|done]. cbn. by rewrite <- H1. }
  destruct (String.eqb (role (Edge_ToNodeID e)) "client"); [|done]. by rewrite <- H2.
Qed.

(** ** Order *)

#[export] Instance heal_le_total : Total heal_le.
Proof.
  intros [k1 i1] [k2 i2]. unfold heal_le. cbn. rewrite (String.eqb_sym k2 k1).
  destruct (String.eqb k1 k2); [lia|]. apply (total String.le).
Qed.
#[export] Instance heal_le_trans : Transitive heal_le.
Proof.
  intros [k1 i1] [k2 i2] [k3 i3]. unfold heal_le. cbn.
  destruct (String.eqb_spec k1 k2) as [E1|N1], (String.eqb_spec k2 k3) as [E2|N2], (String.eqb_spec k1 k3) as [E3|N3];
    try congruence; try lia.
  all: intros H1 H2; subst; auto; try (by etrans).
  destruct N1. by apply (anti_symm String.le).
Qed.

Lemma elem_of_enabled_indices edges k i :
  (k, i) ∈ enabled_indices edges <-> exists e, edges !! i = Some e /\ Edge_IsEnabled e = true /\ LinkKey e = k.
Proof.
  unfold enabled_indices. rewrite list_elem_of_omap. split.
  - intros ([j e] & Hj & H). apply elem_of_lookup_imap in Hj as (j' & e' & [= -> ->] & He). cbn in H.
    destruct (Edge_IsEnabled e') eqn:E; [|done]. injection H as <- <-. eauto.
  - intros (e & He & En & <-). exists (i, e). split; [by apply (elem_of_lookup_imap_2 (fun i e => (i, e)))|].
    cbn. by rewrite En.
Qed.

Lemma enabled_indices_NoDup edges : NoDup (snd <$> enabled_indices edges).
Proof.
  unfold enabled_indices.
  enough (forall (l : list (nat * Edge)), NoDup (fst <$> l) ->
    NoDup (snd <$> omap (fun ie : nat * Edge => if Edge_IsEnabled ie.2 then Some (LinkKey ie.2, ie.1) else None) l)) as H.
  { apply H. rewrite fmap_imap, (imap_ext _ (fun i _ => i)) by done.
    rewrite (imap_seq_0 edges (fun i => i)), list_fmap_id. apply NoDup_seq. }
  induction l as [|[i e] l IH]; [constructor|]. rewrite fmap_cons, NoDup_cons. intros [Hi Hnd]. cbn.
  destruct (Edge_IsEnabled e); [|by apply IH]. cbn. apply NoDup_cons. split; [|by apply IH].
  intros ([k j] & E & Hj)%list_elem_of_fmap. cbn in E. subst j. apply Hi.
  apply list_elem_of_omap in Hj as ([j e'] & Hj & H). cbn in H. destruct (Edge_IsEnabled e'); [|done]. injection H as _ <-.
  apply list_elem_of_fmap. by exists (j, e').
Qed.

Lemma elem_of_heal_order edges i :
  i ∈ heal_order edges <-> exists e, edges !! i = Some e /\ Edge_IsEnabled e = true.
Proof.
  unfold heal_order. rewrite list_elem_of_fmap. split.
  - intros ([k j] & -> & Hj). rewrite merge_sort_Permutation, elem_of_enabled_indices in Hj. naive_solver.
  - intros (e & He & En). exists (LinkKey e, i). split; [done|]. rewrite merge_sort_Permutation, elem_of_enabled_indices. eauto.
Qed.

Lemma heal_order_NoDup edges : NoDup (heal_order edges).
Proof. unfold heal_order. rewrite merge_sort_Permutation. apply enabled_indices_NoDup. Qed.

(** An index that comes first in the order has the smaller link key. *)
Lemma heal_order_sorted edges pre i post j ei ej :
  heal_order edges = pre ++ i :: post -> j ∈ pre ->
  edges !! i = Some ei -> edges !! j = Some ej -> String.le (LinkKey ej) (LinkKey ei).
Proof.
  intros Ho Hj Hi Hej. unfold heal_order in Ho.
  apply fmap_app_inv in Ho as (l1 & l2 & -> & E2 & El). symmetry in E2.
  apply fmap_cons_inv in E2 as ([k i'] & l3 & -> & E3 & ->). cbn in Hi.
  pose proof (StronglySorted_merge_sort heal_le (enabled_indices edges)) as Hs. rewrite El in Hs.
  apply list_elem_of_fmap in Hj as ([k' j'] & -> & Hj). cbn in Hej.
  assert (forall x, x ∈ l1 ++ (k, i') :: l3 -> exists e, edges !! x.2 = Some e /\ LinkKey e = x.1) as Hkey.
  { intros [a b] Hx. rewrite <- El, merge_sort_Permutation, elem_of_enabled_indices in Hx. naive_solver. }
  destruct (Hkey (k, i')) as (e1 & H1 & K1); [set_solver|]. destruct (Hkey (k', j')) as (e2 & H2 & K2); [set_solver|].
  cbn in *. simplify_eq. apply StronglySorted_app in Hs as (Hlt & _ & _).
  specialize (Hlt (LinkKey ej, j') (LinkKey ei, i') Hj ltac:(by left)).
  unfold heal_le in Hlt. cbn in Hlt. destruct (String.eqb_spec (LinkKey ej) (LinkKey ei)) as [->|]; [reflexivity|done].
Qed.

(** ** The claiming loop *)

Lemma LinkKey_stripPins e : LinkKey (stripPins e) = LinkKey e.
Proof. apply LinkKey_ident. unfold stripPins, stripAllocationPins. autorewrite with yaog. done. Qed.

Lemma edge_claims_stripPins role e : edge_claims role (stripPins e) = [].
Proof. unfold edge_claims. destruct e. cbn. by rewrite !andb_false_r. Qed.

Lemma collides_true owner link cs :
  collides owner link cs = true <-> exists c o, c ∈ cs /\ owner !! c = Some o /\ o <> link.
Proof.
  unfold collides. rewrite existsb_exists. setoid_rewrite <- list_elem_of_In. split.
  - intros (c & Hc & H). destruct (owner !! c) as [o|] eqn:E; [|done].
    apply negb_true_iff, String.eqb_neq in H. eauto.
  - intros (c & o & Hc & Ho & Hne). exists c. rewrite Ho. by apply String.eqb_neq in Hne as ->.
Qed.

Lemma claim_all_lookup (owner : gmap claim string) (link : string) cs c :
  foldl (fun m c => <[ c := link ]> m) owner cs !! c = if decide (c ∈ cs) then Some link else owner !! c.
Proof.
  induction cs as [|x cs IH] using rev_ind; [by rewrite decide_False by set_solver|].
  rewrite foldl_app. cbn [foldl]. destruct (decide (x = c)) as [->|Hne].
  - rewrite lookup_insert_eq, decide_True by set_solver. done.
  - rewrite lookup_insert_ne, IH by done. repeat case_decide; set_solver.
Qed.

(** The state after the indices [pre] of the order were processed. *)
Record heal_inv (role : string -> string) (edges1 : list Edge) (ch0 : bool) (pre : list nat) (st : heal_state) : Prop := {
  hi_length : length (heal_edges st) = length edges1;
  hi_edges : forall i e, edges1 !! i = Some e ->
    heal_edges st !! i = Some e \/
    (i ∈ pre /\ heal_edges st !! i = Some (stripPins e) /\ heal_changed st = true /\
     exists j ej c, j ∈ pre /\ heal_edges st !! j = Some ej /\ edges1 !! j = Some ej /\ Edge_IsEnabled ej = true /\
       c ∈ edge_claims role ej /\ c ∈ edge_claims role e /\
       LinkKey ej <> LinkKey e /\ String.le (LinkKey ej) (LinkKey e));
  hi_sound : forall c k, heal_owner st !! c = Some k ->
    exists j ej, j ∈ pre /\ heal_edges st !! j = Some ej /\ edges1 !! j = Some ej /\ Edge_IsEnabled ej = true /\
      c ∈ edge_claims role ej /\ LinkKey ej = k;
  hi_complete : forall j ej c, j ∈ pre -> heal_edges st !! j = Some ej -> c ∈ edge_claims role ej ->
    heal_owner st !! c = Some (LinkKey ej);
  hi_unchanged : heal_changed st = false -> heal_edges st = edges1 /\ ch0 = false }.

Section HealStep.
Context (role : string -> string) (edges1 : list Edge) (ch0 : bool).

Lemma heal_step_strip pre i post st e :
  heal_order edges1 = pre ++ i :: post -> heal_inv role edges1 ch0 pre st ->
  edges1 !! i = Some e -> Edge_IsEnabled e = true -> heal_edges st !! i = Some e ->
  collides (heal_owner st) (LinkKey e) (edge_claims role e) = true ->
  heal_inv role edges1 ch0 (pre ++ [i]) (mkHeal (heal_owner st) (<[i := stripPins e]> (heal_edges st)) true).
Proof.
  intros Ho I Hi En Hst Hc. assert (i ∉ pre) as Hfresh.
  { pose proof (heal_order_NoDup edges1) as Hnd. rewrite Ho, NoDup_app in Hnd. intros Hin.
    destruct Hnd as (_ & Hd & _). apply (Hd i Hin). by left. }
  apply collides_true in Hc as (c & k & Hc & Hk & Hne).
  destruct (hi_sound _ _ _ _ _ I c k Hk) as (j & ej & Hj & Hej & Hej1 & Enj & Hcj & <-).
  assert (j <> i) as Hji by (intros ->; done).
  split; cbn.
  - rewrite length_insert. apply I.
  - intros i' e' Hi'. destruct (decide (i = i')) as [<-|Hii].
    + right. rewrite Hi in Hi'. injection Hi' as <-. rewrite list_lookup_insert_eq by (by eapply lookup_lt_Some).
      split_and!; [by apply elem_of_snoc; right|done..|]. exists j, ej, c. rewrite list_lookup_insert_ne by done.
      split_and!; auto; [by apply elem_of_snoc; left|]. by eapply heal_order_sorted.
    + rewrite list_lookup_insert_ne by done.
      destruct (hi_edges _ _ _ _ _ I i' e' Hi') as [?|(? & ? & ? & j' & ej' & c' & Hj' & ?)]; [by left|].
      right. split_and!; [by apply elem_of_snoc; left|done..|]. exists j', ej', c'.
      rewrite list_lookup_insert_ne by (intros <-; done). split; [by apply elem_of_snoc; left|done].
  - intros c' k' Hk'. destruct (hi_sound _ _ _ _ _ I c' k' Hk') as (j' & ej' & Hj' & Hej' & ?).
    exists j', ej'. rewrite list_lookup_insert_ne by (intros <-; done). split; [by apply elem_of_snoc; left|done].
  - intros j' ej' c' [Hj'| ->]%elem_of_snoc.
    + rewrite list_lookup_insert_ne by (intros <-; done). by apply I.
    + rewrite list_lookup_insert_eq by (by eapply lookup_lt_Some). intros [= <-]. rewrite edge_claims_stripPins. set_solver.
  - done.
Qed.

Lemma heal_step_keep pre i st e :
  heal_inv role edges1 ch0 pre st ->
  edges1 !! i = Some e -> Edge_IsEnabled e = true -> heal_edges st !! i = Some e ->
  collides (heal_owner st) (LinkKey e) (edge_claims role e) = false ->
  heal_inv role edges1 ch0 (pre ++ [i])
    (mkHeal (foldl (fun m c => <[c := LinkKey e]> m) (heal_owner st) (edge_claims role e)) (heal_edges st) (heal_changed st)).
Proof.
  intros I Hi En Hst Hc.
  assert (forall c o, c ∈ edge_claims role e -> heal_owner st !! c = Some o -> o = LinkKey e) as Hno.
  { intros c o Hce Ho. destruct (decide (o = LinkKey e)); [done|]. exfalso.
    enough (collides (heal_owner st) (LinkKey e) (edge_claims role e) = true) by congruence.
    apply collides_true. eauto. }
  split; cbn.
  - apply I.
  - intros i' e' Hi'. destruct (hi_edges _ _ _ _ _ I i' e' Hi') as [?|(? & ? & ? & j' & ej' & c' & Hj' & ?)]; [by left|].
    right. split_and!; [by apply elem_of_snoc; left|done..|]. exists j', ej', c'. split; [by apply elem_of_snoc; left|done].
  - intros c k. rewrite claim_all_lookup. case_decide as Hd.
    + intros [= <-]. exists i, e. split_and!; auto. apply elem_of_snoc. by right.
    + intros Hk. destruct (hi_sound _ _ _ _ _ I c k Hk) as (j' & ej' & Hj' & ?).
      exists j', ej'. split; [by apply elem_of_snoc; left|done].
  - intros j ej c Hj Hej Hce. rewrite claim_all_lookup. apply elem_of_snoc in Hj as [Hj| ->].
    + pose proof (hi_complete _ _ _ _ _ I j ej c Hj Hej Hce) as Ho. case_decide; [|done].
      f_equal. symmetry. by eapply Hno.
    + rewrite Hst in Hej. injection Hej as <-. by rewrite decide_True.
  - apply I.
Qed.

Lemma heal_loop : heal_inv role edges1 ch0 (heal_order edges1)
  (foldl (heal_step role) (mkHeal ∅ edges1 ch0) (heal_order edges1)).
Proof.
  apply (foldl_inv (heal_inv role edges1 ch0)).
  - split; cbn.
    + done.
    + intros. by left.
    + intros c k. by rewrite lookup_empty.
    + intros j ej c Hj. by apply elem_of_nil in Hj.
    + done.
  - intros pre i post st Ho I.
    destruct (proj1 (elem_of_heal_order edges1 i)) as (e & He & En); [rewrite Ho; set_solver|].
    assert (heal_edges st !! i = Some e) as Hst.
    { destruct (hi_edges _ _ _ _ _ I i e He) as [?|(Hin & _)]; [done|]. exfalso.
      pose proof (heal_order_NoDup edges1) as Hnd. rewrite Ho, NoDup_app in Hnd. destruct Hnd as (_ & Hd & _).
      apply (Hd i Hin). by left. }
    unfold heal_step. rewrite Hst. destruct (collides _ _ _) eqn:Ec.
    + by eapply heal_step_strip.
    + by eapply heal_step_keep.
Qed.
End HealStep.

(** ** The healed topology *)

Definition collision_free (role : string -> string) (edges : list Edge) : Prop :=
  forall i j ei ej c, edges !! i = Some ei -> edges !! j = Some ej ->
    Edge_IsEnabled ei = true -> Edge_IsEnabled ej = true ->
    c ∈ edge_claims role ei -> c ∈ edge_claims role ej -> LinkKey ei = LinkKey ej.

Lemma heal_inv_enabled role edges1 ch0 pre st i e :
  heal_inv role edges1 ch0 pre st -> heal_edges st !! i = Some e ->
  exists e1, edges1 !! i = Some e1 /\ (e = e1 \/ e = stripPins e1) /\ Edge_IsEnabled e1 = Edge_IsEnabled e.
Proof.
  intros I Hi. destruct (lookup_lt_is_Some_2 edges1 i) as [e1 H1].
  { rewrite <- (hi_length _ _ _ _ _ I). by eapply lookup_lt_Some. }
  exists e1. split; [done|]. destruct (hi_edges _ _ _ _ _ I i e1 H1) as [H|(_ & H & _)]; simplify_eq; [auto|].
  split; [auto|]. by destruct e1.
Qed.

Lemma heal_loop_collision_free role edges1 ch0 :
  collision_free role (heal_edges (foldl (heal_step role) (mkHeal ∅ edges1 ch0) (heal_order edges1))).
Proof.
  pose proof (heal_loop role edges1 ch0) as I. set (st := foldl _ _ _) in *.
  intros i j ei ej c Hi Hj Eni Enj Ci Cj.
  assert (forall k e, heal_edges st !! k = Some e -> Edge_IsEnabled e = true -> k ∈ heal_order edges1) as Hin.
  { intros k e Hk En. destruct (heal_inv_enabled _ _ _ _ _ _ _ I Hk) as (e1 & H1 & _ & E1).
    apply elem_of_heal_order. exists e1. split; [done|congruence]. }
  pose proof (hi_complete _ _ _ _ _ I i ei c (Hin i ei Hi Eni) Hi Ci) as O1.
  pose proof (hi_complete _ _ _ _ _ I j ej c (Hin j ej Hj Enj) Hj Cj) as O2. congruence.
Qed.

(** On a collision-free list the loop does nothing. *)
Lemma heal_loop_id role edges1 :
  collision_free role edges1 ->
  let st := foldl (heal_step role) (mkHeal ∅ edges1 false) (heal_order edges1) in
  heal_edges st = edges1 /\ heal_changed st = false.
Proof.
  intros Hcf. cbv zeta.
  pose (Inv (_ : list nat) (st : heal_state) := heal_edges st = edges1 /\ heal_changed st = false /\
    forall (c : claim) k, heal_owner st !! c = Some k -> exists (j : nat) ej, edges1 !! j = Some ej /\ Edge_IsEnabled ej = true /\
      c ∈ edge_claims role ej /\ LinkKey ej = k).
  enough (Inv (heal_order edges1) (foldl (heal_step role) (mkHeal ∅ edges1 false) (heal_order edges1))) as (? & ? & _) by done.
  apply foldl_inv; unfold Inv.
  - cbn. split_and!; [done..|]. intros c k. by rewrite lookup_empty.
  - intros pre i post st Ho (He & Hch & Hown).
    destruct (proj1 (elem_of_heal_order edges1 i)) as (e & Hi & En); [rewrite Ho; set_solver|].
    unfold heal_step. rewrite He, Hi. destruct (collides _ _ _) eqn:Ec.
    + exfalso. apply collides_true in Ec as (c & k & Hc & Hk & Hne).
      destruct (Hown c k Hk) as (j & ej & Hj & Enj & Hcj & <-). by apply Hne, (Hcf j i ej e c).
    + cbn. split_and!; [done..|]. intros c k. rewrite claim_all_lookup. case_decide; [|apply Hown].
      intros [= <-]. eauto 10.
Qed.

Lemma zero_ports_clear role e : zero_ports role (clear_client_ports role e) (pins_of (clear_client_ports role e)) = pins_of (clear_client_ports role e).
Proof. by rewrite (zero_ports_ident role _ e), pins_of_clear, zero_ports_idem by apply edge_ident_clear. Qed.

Lemma zero_ports_stripPins role e : zero_ports role (stripPins e) (pins_of (stripPins e)) = pins_of (stripPins e).
Proof. unfold stripPins, stripAllocationPins. rewrite pins_of_set_pins. unfold zero_ports. cbn. by repeat case_match. Qed.

Lemma heal_fst role (edges : list Edge) : fst <$> (heal_clear role <$> edges) = clear_client_ports role <$> edges.
Proof. rewrite <- list_fmap_compose. apply list_fmap_ext. intros. apply heal_clear_spec. Qed.

(** A list that is cleared and collision-free is left alone. *)
Lemma heal_edges_of_id role (edges : list Edge) :
  (forall e, e ∈ edges -> zero_ports role e (pins_of e) = pins_of e) -> collision_free role edges ->
  heal_edges_of role edges = (edges, false).
Proof.
  intros Hz Hcf. unfold heal_edges_of.
  assert (heal_clear role <$> edges = (fun e => (e, false)) <$> edges) as ->.
  { clear Hcf. induction edges as [|e es IH]; [done|]. rewrite !fmap_cons, heal_clear_id by (apply Hz; by left).
    f_equal. apply IH. intros x Hx. apply Hz. by right. }
  rewrite <- list_fmap_compose. change (fst ∘ (fun e : Edge => (e, false))) with (fun e : Edge => e). rewrite list_fmap_id.
  replace (existsb snd ((fun e : Edge => (e, false)) <$> edges)) with false
    by (clear; induction edges; [done|by rewrite fmap_cons]).
  destruct (heal_loop_id role edges Hcf) as [-> ->]. done.
Qed.

Lemma heal_edges_of_inv role edges edges' ch :
  heal_edges_of role edges = (edges', ch) ->
  exists st ch0, heal_inv role (clear_client_ports role <$> edges) ch0 (heal_order (clear_client_ports role <$> edges)) st /\
    edges' = heal_edges st /\ ch = heal_changed st /\ collision_free role edges' /\
    (ch0 = false -> clear_client_ports role <$> edges = edges).
Proof.
  unfold heal_edges_of. rewrite heal_fst. intros [= <- <-].
  eexists _, _. split; [apply heal_loop|]. split_and!; [done..|apply heal_loop_collision_free|].
  intros Hch. rewrite <- heal_fst. induction edges as [|e es IH]; [done|]. rewrite !fmap_cons in *.
  cbn [existsb] in Hch. apply orb_false_iff in Hch as [H1 H2]. f_equal; [by apply heal_clear_unchanged|by apply IH].
Qed.

Lemma healed_zero_ports role edges edges' ch :
  heal_edges_of role edges = (edges', ch) -> forall e, e ∈ edges' -> zero_ports role e (pins_of e) = pins_of e.
Proof.
  intros (st & ch0 & I & -> & -> & _)%heal_edges_of_inv e [i Hi]%list_elem_of_lookup.
  destruct (heal_inv_enabled _ _ _ _ _ _ _ I Hi) as (e1 & H1 & Hor & _).
  rewrite list_lookup_fmap in H1. apply fmap_Some in H1 as (e0 & _ & ->).
  destruct Hor as [->| ->]; [apply zero_ports_clear|apply zero_ports_stripPins].
Qed.

(** ** Disjoint pins for the allocator *)

(** The claim that stands for an allocator resource: the pool is dropped and the
    address canonicalised. *)
Definition claim_of (r : resource) : claim :=
  match r with
  | RPort n q => ClaimPort n q
  | RTransit _ ip => ClaimTransit (canonicalIP ip)
  | RLinkLocal ip => ClaimLinkLocal (canonicalIP ip)
  end.

Lemma occupies_claim topo l r :
  l ∈ groupLinks topo -> occupies l (pinned_alloc l) r ->
  claim_of r ∈ edge_claims (roleByNode topo) (lk_primaryEdge l).
Proof.
  intros Hl. destruct (groupLinks_inv topo) as (_ & _ & Hs).
  destruct (Hs l Hl) as ([[e f] t] & (_ & _ & F & T)%enabledEdges_spec & El).
  assert (roleByNode topo (Edge_FromNodeID e) = Node_Role f) as RF by (unfold roleByNode; by rewrite F).
  assert (roleByNode topo (Edge_ToNodeID e) = Node_Role t) as RT by (unfold roleByNode; by rewrite T).
  apply find_last_Some in F as [_ IF]. apply find_last_Some in T as [_ IT].
  pose proof (pinned_alloc_ports l) as Hp. destruct (pinned_alloc_shape l) as (_ & _ & _ & Ht & Hll).
  assert (lk_primaryEdge l = e /\ lk_fromNode l = f /\ lk_toNode l = t) as (E1 & E2 & E3) by (by subst l).
  clear El. cbv zeta in Hp, Ht, Hll. rewrite E1, E2, E3 in Hp. rewrite E1 in Ht, Hll |- *.
  unfold edge_claims, is_client in *. rewrite RF, RT.
  destruct r as [n q|c ip|ip]; cbn [occupies claim_of]; rewrite ?E2, ?E3.
  - intros Ho. apply elem_of_app. left.
    destruct (String.eqb (Node_Role f) "client"), (String.eqb (Node_Role t) "client"); cbn [andb negb] in *;
    repeat match goal with |- context [0 <? ?x] => destruct (Z.ltb_spec 0 x) end; cbn [andb] in *;
    injection Hp as P1 P2; rewrite P1, P2, ?IF, ?IT in Ho; destruct Ho as [(-> & -> & ?)|(-> & -> & ?)];
    rewrite ?IF, ?IT; first [by left | by right; left | lia].
  - intros (_ & Hip & H1 & H2). apply elem_of_app. right. apply elem_of_app. left.
    destruct (non_empty (Edge_PinnedFromTransitIP e) && _); [|by destruct Ht as [Ht1 _]; rewrite Ht1 in H1].
    destruct Ht as [T1 T2]. rewrite T1, T2 in Hip. destruct Hip as [->| ->]; [by left|by right; left].
  - intros (Hip & H1 & H2). apply elem_of_app. right. apply elem_of_app. right.
    destruct (non_empty (Edge_PinnedFromLinkLocal e) && _); [|by destruct Hll as [Ht1 _]; rewrite Ht1 in H1].
    destruct Hll as [T1 T2]. rewrite T1, T2 in Hip. destruct Hip as [->| ->]; [by left|by right; left].
Qed.

Lemma collision_free_pins_disjoint topo :
  collision_free (roleByNode topo) (Topology_Edges topo) -> pins_disjoint (groupLinks topo).
Proof.
  intros Hcf l1 l2 r H1 H2 Hne O1 O2. apply Hne. destruct (groupLinks_inv topo) as (_ & _ & Hs).
  assert (forall l, l ∈ groupLinks topo -> exists i, Topology_Edges topo !! i = Some (lk_primaryEdge l) /\
    Edge_IsEnabled (lk_primaryEdge l) = true /\ lk_linkKey l = LinkKey (lk_primaryEdge l)) as Hidx.
  { intros l Hl. destruct (Hs l Hl) as ([[e f] t] & (He & En & _)%enabledEdges_spec & ->).
    apply list_elem_of_lookup in He as [i Hi]. exists i. auto. }
  destruct (Hidx l1 H1) as (i & Hi & Ei & ->). destruct (Hidx l2 H2) as (j & Hj & Ej & ->).
  apply (Hcf i j _ _ (claim_of r)); auto; by apply occupies_claim.
Qed.

(** ** The node passes of the compiler keep IDs and roles *)

(** What the node passes leave alone. *)
Definition same_node (n n' : Node) : Prop :=
  Node_ID n' = Node_ID n /\ Node_Role n' = Node_Role n /\ Node_Name n' = Node_Name n /\
  Node_DomainID n' = Node_DomainID n /\ Node_MTU n' = Node_MTU n.

Lemma same_node_set_OverlayIP ip n : same_node n (set_OverlayIP ip n).
Proof. by destruct n. Qed.

Lemma same_node_trans a b c : same_node a b -> same_node b c -> same_node a c.
Proof. unfold same_node. intuition congruence. Qed.

Lemma AllocateIPs_same ctx topo nodes :
  AllocateIPs ctx topo = Ok nodes -> Forall2 same_node (Topology_Nodes topo) (infer_caps <$> nodes).
Proof.
  intros Ha. destruct (AllocateIPs_nodes _ _ _ Ha) as [Hlen Hspec].
  apply Forall2_fmap_r, Forall2_same_length_lookup_2; [by rewrite Hlen|]. intros i n n' Hn Hn'.
  destruct (Hspec i n Hn) as (m & Hm & Hs). simplify_eq.
  apply (same_node_trans _ n'); [|by destruct n'].
  apply (same_node_trans _ (clear_stale topo n)).
  - destruct (clear_stale_cases topo n) as [->| ->]; [done|apply same_node_set_OverlayIP].
  - destruct Hs as [[_ ->]|(_ & d & ip & _ & -> & _)]; [done|apply same_node_set_OverlayIP].
Qed.

Lemma allocated_nodeMap ctx topo nodes id :
  AllocateIPs ctx topo = Ok nodes ->
  option_Forall2 same_node (nodeMap topo id) (nodeMap (allocated_topo topo nodes) id).
Proof.
  intros Ha%AllocateIPs_same. unfold nodeMap. apply find_last_Forall2; [|done]. by intros x y (-> & _).
Qed.

Lemma AllocateIPs_roles ctx topo nodes id :
  AllocateIPs ctx topo = Ok nodes -> roleByNode (allocated_topo topo nodes) id = roleByNode topo id.
Proof.
  intros Ha. unfold roleByNode. by destruct (allocated_nodeMap ctx topo nodes id Ha) as [x y (_ & -> & _)|].
Qed.

Lemma edge_claims_ext role role' e : (forall id, role id = role' id) -> edge_claims role e = edge_claims role' e.
Proof. intros H. unfold edge_claims. by rewrite !H. Qed.

Lemma allocated_pins_disjoint ctx topo nodes :
  AllocateIPs ctx topo = Ok nodes -> collision_free (roleByNode topo) (Topology_Edges topo) ->
  pins_disjoint (groupLinks (allocated_topo topo nodes)).
Proof.
  intros Ha Hcf. apply collision_free_pins_disjoint. intros i j ei ej c Hi Hj Ei Ej.
  rewrite !(edge_claims_ext (roleByNode (allocated_topo topo nodes)) (roleByNode topo)) by (intros; by eapply AllocateIPs_roles).
  by apply (Hcf i j).
Qed.

(** ** Claims *)

Lemma HealCollidingPins_unfold topo :
  HealCollidingPins topo = (set_Edges (heal_edges_of (roleByNode topo) (Topology_Edges topo)).1 topo,
                            (heal_edges_of (roleByNode topo) (Topology_Edges topo)).2).
Proof. unfold HealCollidingPins. by destruct (heal_edges_of _ _). Qed.

Lemma set_Edges_fields es topo : Topology_Edges (set_Edges es topo) = es /\ roleByNode (set_Edges es topo) = roleByNode topo.
Proof. by destruct topo. Qed.

(** Healing: the healed topology has no two enabled edges of different
    links claiming one port, transit address or link-local address; healing it
    again changes nothing and reports no change; and when no change is reported
    the topology was returned as it came. *)
Theorem HealCollidingPins_clean topo topo' changed :
  HealCollidingPins topo = (topo', changed) ->
  collision_free (roleByNode topo') (Topology_Edges topo') /\
  HealCollidingPins topo' = (topo', false) /\
  (changed = false -> topo' = topo).
Proof.
  rewrite HealCollidingPins_unfold. destruct (heal_edges_of (roleByNode topo) (Topology_Edges topo)) as [es ch] eqn:E.
  intros [= <- <-]. cbn [fst snd]. rewrite HealCollidingPins_unfold.
  destruct (set_Edges_fields es topo) as [-> ->].
  pose proof (healed_zero_ports _ _ _ _ E) as Hz.
  pose proof E as (st & ch0 & I & Hes & Hch & Hcf & H0)%heal_edges_of_inv. split_and!; [done| |].
  - rewrite heal_edges_of_id by done. cbn. by destruct topo.
  - intros Hf. rewrite Hf in Hch. symmetry in Hch. destruct (hi_unchanged _ _ _ _ _ I Hch) as [E1 E2].
    rewrite Hes, E1, (H0 E2). by destruct topo.
Qed.

(** C30. Which edge is stripped: at every position the healed edge is the input
    edge with its client-side port cleared, or that edge stripped of all its
    pins; an edge that claims something is stripped exactly when it is enabled
    and some enabled edge that keeps its pins, of a different and smaller link
    key, claims one of its resources.  Slice order plays no part. *)
Theorem HealCollidingPins_exact topo topo' changed i e :
  HealCollidingPins topo = (topo', changed) -> Topology_Edges topo !! i = Some e ->
  let role := roleByNode topo in
  let e1 := clear_client_ports role e in
  (Topology_Edges topo' !! i = Some e1 \/ Topology_Edges topo' !! i = Some (stripPins e1)) /\
  (edge_claims role e1 <> [] ->
   (Topology_Edges topo' !! i = Some (stripPins e1) <->
    Edge_IsEnabled e = true /\ exists j ej c, Topology_Edges topo' !! j = Some ej /\ Edge_IsEnabled ej = true /\
      c ∈ edge_claims role ej /\ c ∈ edge_claims role e1 /\
      LinkKey ej <> LinkKey e /\ String.le (LinkKey ej) (LinkKey e))).
Proof.
  rewrite HealCollidingPins_unfold. destruct (heal_edges_of (roleByNode topo) (Topology_Edges topo)) as [es ch] eqn:E.
  intros [= <- <-] Hi. cbn [fst snd]. destruct (set_Edges_fields es topo) as [-> _]. cbv zeta.
  set (e1 := clear_client_ports (roleByNode topo) e).
  assert (LinkKey e1 = LinkKey e /\ Edge_IsEnabled e1 = Edge_IsEnabled e) as [Hk1 Hen1].
  { split; [apply LinkKey_ident, edge_ident_clear|]. by apply edge_ident_fields, edge_ident_clear. }
  pose proof E as (st & ch0 & I & -> & _ & Hcf & _)%heal_edges_of_inv.
  assert ((clear_client_ports (roleByNode topo) <$> Topology_Edges topo) !! i = Some e1) as H1
    by (by rewrite list_lookup_fmap, Hi).
  pose proof (hi_edges _ _ _ _ _ I i e1 H1) as Hcases. split; [naive_solver|]. intros Hne. split.
  - intros Hs. destruct Hcases as [Hk|(Hin & _ & _ & j & ej & c & _ & Hj & _ & Ej & Hc1 & Hc2 & Hk & Hle)].
    + rewrite Hs in Hk. injection Hk as Hk. destruct Hne. by rewrite <- Hk, edge_claims_stripPins.
    + apply elem_of_heal_order in Hin as (x & Hx & Hen). rewrite H1 in Hx. injection Hx as <-.
      split; [congruence|]. exists j, ej, c. rewrite <- Hk1. auto 10.
  - intros (Hen & j & ej & c & Hj & Ej & Hc1 & Hc2 & Hk & Hle). destruct Hcases as [Hkeep|(_ & Hs & _)]; [|done].
    destruct Hk. rewrite <- Hk1. apply (Hcf j i ej e1 c); auto. congruence.
Qed.

(** End to end: after healing, a successful compile gives no two interfaces
    of a non-client node the same listen port and gives every one of them a
    port, whatever pins the stored topology carried, provided no edge joins a
    node to itself. *)
Theorem healed_compile_ports_distinct topo topo' changed ctx keys reserved dflt r n ps :
  HealCollidingPins topo = (topo', changed) ->
  compile_passes ctx topo' keys reserved dflt = Some (Ok r) ->
  (forall e, e ∈ Topology_Edges topo' -> Edge_FromNodeID e <> Edge_ToNodeID e) ->
  nodeMap (CR_Topology r) (Node_ID n) = Some n -> is_client n = false ->
  CR_PeerMap r !! Node_ID n = Some ps ->
  NoDup (Peer_ListenPort <$> ps) /\ forall p, p ∈ ps -> 0 < Peer_ListenPort p.
Proof.
  rewrite HealCollidingPins_unfold. destruct (heal_edges_of (roleByNode topo) (Topology_Edges topo)) as [es ch] eqn:E.
  intros [= <- <-]. cbn [fst]. set (t := set_Edges es topo).
  intros (nodes & m & Ha & Hm & ->)%compile_passes_inv Hself Hn Hcl Hps. cbn [CR_Topology CR_PeerMap] in *.
  rewrite map_edges_nodeMap in Hn.
  assert (collision_free (roleByNode t) (Topology_Edges t)) as Hcf.
  { unfold t. destruct (set_Edges_fields es topo) as [-> ->]. by apply heal_edges_of_inv in E as (? & ? & _ & _ & _ & ? & _). }
  eapply (derivePeers_ports_distinct (allocated_topo t nodes) keys reserved dflt); eauto.
  - rewrite derivePeers_unfold, Hm. done.
  - by eapply allocated_pins_disjoint.
  - intros l Hl. destruct (groupLinks_nodes _ _ Hl) as (_ & _ & -> & ->). apply Hself.
    destruct (groupLinks_inv (allocated_topo t nodes)) as (_ & _ & Hs).
    by destruct (Hs l Hl) as ([[e f] tn] & (He & _)%enabledEdges_spec & ->).
Qed.

(** ** Witnesses *)

(** Two links pinned to the same ports, addresses and link-locals, spelled
    differently, the larger link key listed first. *)
Definition ex_heal_topo : Topology :=
  ex_topology [mkDomain "d" "d" "10.11.0.0/24" "" "auto" "babel" [] ""]
    [ex_node "a" "router" "d" "10.11.0.1" (ex_caps true true);
     ex_node "b" "router" "d" "10.11.0.2" (ex_caps true true);
     ex_node "c" "router" "d" "10.11.0.3" (ex_caps true true)]
    [ex_edge "e1" "a" "c" "c.example" "" (mkPins 51820 51820 "10.10.0.1" "10.10.0.2" "fe80::01" "fe80::02");
     ex_edge "e2" "a" "b" "b.example" "" (mkPins 51820 51820 "10.10.0.1" "10.10.0.2" "fe80::1" "fe80::2")].

Definition ex_healed : Topology := (HealCollidingPins ex_heal_topo).1.

Lemma ex_heal : HealCollidingPins ex_heal_topo = (ex_healed, true).
Proof. vm_compute. reflexivity. Qed.

Lemma HealCollidingPins_clean_witness :
  HealCollidingPins ex_heal_topo = (ex_healed, true) /\ HealCollidingPins ex_healed = (ex_healed, false).
Proof.
  split; [exact ex_heal|]. apply (HealCollidingPins_clean ex_heal_topo ex_healed true). exact ex_heal.
Defined.

Lemma HealCollidingPins_exact_witness :
  Topology_Edges ex_healed !! 0%nat = Some (ex_edge "e1" "a" "c" "c.example" "" no_pins) /\
  (Topology_Edges ex_healed !! 1%nat = Topology_Edges ex_heal_topo !! 1%nat \/
   Topology_Edges ex_healed !! 1%nat = Some (ex_edge "e2" "a" "b" "b.example" "" no_pins)).
Proof.
  split; [vm_compute; reflexivity|].
  apply (HealCollidingPins_exact ex_heal_topo ex_healed true 1
    (ex_edge "e2" "a" "b" "b.example" "" (mkPins 51820 51820 "10.10.0.1" "10.10.0.2" "fe80::1" "fe80::2")));
    [exact ex_heal | reflexivity].
Defined.

Definition ex_healed_result : CompileResult :=
  match compile_passes Background ex_healed ex_keys None "" with
  | Some (Ok r) => r
  | _ => mkCompileResult ex_healed ∅ ∅ "" "" "" 0
  end.

Lemma healed_compile_ports_distinct_witness :
  exists ps, CR_PeerMap ex_healed_result !! "a"%string = Some ps /\ length ps = 2%nat /\ NoDup (Peer_ListenPort <$> ps).
Proof.
  eexists. split; [vm_compute; reflexivity|]. split; [reflexivity|].
  apply (healed_compile_ports_distinct ex_heal_topo ex_healed true Background ex_keys None "" ex_healed_result
    (infer_caps (ex_node "a" "router" "d" "10.11.0.1" (ex_caps true true)))).
  - exact ex_heal.
  - vm_compute. reflexivity.
  - intros e He. apply list_elem_of_In in He. vm_compute in He. destruct He as [<-|[<-|[]]]; discriminate.
  - vm_compute. reflexivity.
  - reflexivity.
  - vm_compute. reflexivity.
Defined.
