(* ===== verification/Findings.v ===== *)
(** * Validation findings ([internal/validator/code.go])

    The finding codes, and the result type of a validation pass.  A parameter
    that the source formats with [%q] is kept symbolic ([PQuoted], or
    [PWithQuoted] after a text); the rendered
    English message is a function of code and parameters and is left out. *)

From stdpp Require Import base strings list.
From Stdlib Require Import ZArith.
From S2P Require Import Prelude GoLib.

(** ** Codes *)

Definition CodeProjectIDRequired : string := "validation_project_id_required".
Definition CodeProjectNameRequired : string := "validation_project_name_required".
Definition CodeDomainNoneDefined : string := "validation_domain_none_defined".
Definition CodeDomainIDRequired : string := "validation_domain_id_required".
Definition CodeDomainNameRequired : string := "validation_domain_name_required".
Definition CodeDomainCIDREmpty : string := "validation_domain_cidr_empty".
Definition CodeDomainCIDRInvalid : string := "validation_domain_cidr_invalid".
Definition CodeDomainCIDRNotIPv4 : string := "validation_domain_cidr_not_ipv4".
Definition CodeDomainCIDRTooLarge : string := "validation_domain_cidr_too_large".
Definition CodeDomainTransitCIDRInvalid : string := "validation_domain_transit_cidr_invalid".
Definition CodeDomainTransitCIDRNotIPv4 : string := "validation_domain_transit_cidr_not_ipv4".
Definition CodeDomainTransitCIDRTooLarge : string := "validation_domain_transit_cidr_too_large".
Definition CodeDomainTransitCIDRTooSmall : string := "validation_domain_transit_cidr_too_small".
Definition CodeDomainAllocationModeInvalid : string := "validation_domain_allocation_mode_invalid".
Definition CodeDomainRoutingModeUnimplemented : string := "validation_domain_routing_mode_unimplemented".
Definition CodeDomainRoutingModeInvalid : string := "validation_domain_routing_mode_invalid".
Definition CodeDomainReservedRangeNotIPv4 : string := "validation_domain_reserved_range_not_ipv4".
Definition CodeDomainReservedRangeInvalid : string := "validation_domain_reserved_range_invalid".
Definition CodeDomainReservedAddressNotIPv4 : string := "validation_domain_reserved_address_not_ipv4".
Definition CodeNodeIDRequired : string := "validation_node_id_required".
Definition CodeNodeIDIllegalChars : string := "validation_node_id_illegal_chars".
Definition CodeNodeIDNotPortable : string := "validation_node_id_not_portable".
Definition CodeNodeNameRequired : string := "validation_node_name_required".
Definition CodeNodeNameIllegalChars : string := "validation_node_name_illegal_chars".
Definition CodeNodeDomainIDRequired : string := "validation_node_domain_id_required".
Definition CodeNodeRoleEmpty : string := "validation_node_role_empty".
Definition CodeNodeRoleInvalid : string := "validation_node_role_invalid".
Definition CodeNodeDeploymentModeInvalid : string := "validation_node_deployment_mode_invalid".
Definition CodeNodeTelemetryProbesInvalid : string := "validation_node_telemetry_probes_invalid".
Definition CodeNodeTelemetryDevicesInvalid : string := "validation_node_telemetry_devices_invalid".
Definition CodeNodePlatformUnsupported : string := "validation_node_platform_unsupported".
Definition CodeNodeXDPModeInvalid : string := "validation_node_xdp_mode_invalid".
Definition CodeNodeMimicEgressInterfaceInvalid : string := "validation_node_mimic_egress_interface_invalid".
Definition CodeNodeOverlayIPInvalid : string := "validation_node_overlay_ip_invalid".
Definition CodeNodeWGPublicKeyInvalid : string := "validation_node_wg_public_key_invalid".
Definition CodeNodeMTUOutOfRange : string := "validation_node_mtu_out_of_range".
Definition CodeNodeSSHPortOutOfRange : string := "validation_node_ssh_port_out_of_range".
Definition CodeNodeRouterIDInvalid : string := "validation_node_router_id_invalid".
Definition CodeNodeExtraPrefixInvalid : string := "validation_node_extra_prefix_invalid".
Definition CodeNodeExtraPrefixNotIPv4 : string := "validation_node_extra_prefix_not_ipv4".
Definition CodeNodeSSHHostIllegalChars : string := "validation_node_ssh_host_illegal_chars".
Definition CodeNodeSSHAliasIllegalChars : string := "validation_node_ssh_alias_illegal_chars".
Definition CodeNodeSSHUserIllegalChars : string := "validation_node_ssh_user_illegal_chars".
Definition CodeNodeSSHKeyPathIllegalChars : string := "validation_node_ssh_key_path_illegal_chars".
Definition CodeNodePublicEndpointHostIllegalChars : string := "validation_node_public_endpoint_host_illegal_chars".
Definition CodeEdgeIDRequired : string := "validation_edge_id_required".
Definition CodeEdgeFromNodeIDRequired : string := "validation_edge_from_node_id_required".
Definition CodeEdgeToNodeIDRequired : string := "validation_edge_to_node_id_required".
Definition CodeEdgeTypeEmpty : string := "validation_edge_type_empty".
Definition CodeEdgeTypeInvalid : string := "validation_edge_type_invalid".
Definition CodeEdgeTransportInvalid : string := "validation_edge_transport_invalid".
Definition CodeEdgeMimicFallbackInvalid : string := "validation_edge_mimic_fallback_invalid".
Definition CodeEdgeMimicRelayPath : string := "validation_edge_mimic_relay_path".
Definition CodeEdgeEndpointHostIllegalChars : string := "validation_edge_endpoint_host_illegal_chars".
Definition CodeEdgeEndpointPortInvalid : string := "validation_edge_endpoint_port_invalid".
Definition CodeEdgeEndpointPortWithoutHost : string := "validation_edge_endpoint_port_without_host".
Definition CodeEdgeRoleInvalid : string := "validation_edge_role_invalid".
Definition CodeEdgeLinkDirectionInvalid : string := "validation_edge_link_direction_invalid".
Definition CodeEdgeSelfLoop : string := "validation_edge_self_loop".
Definition CodeRoutePolicyReserved : string := "validation_routepolicy_reserved".
Definition CodeTopologyTooManyNodes : string := "validation_topology_too_many_nodes".
Definition CodeTopologyTooManyEdges : string := "validation_topology_too_many_edges".
Definition CodeTopologyTooManyDomains : string := "validation_topology_too_many_domains".
Definition CodeTopologyTooManyReservedRanges : string := "validation_topology_too_many_reserved_ranges".
Definition CodeTopologySchemaVersionUnsupported : string := "validation_topology_schema_version_unsupported".
Definition CodeNodeDomainRefMissing : string := "validation_node_domain_ref_missing".
Definition CodeEdgeNodeRefMissing : string := "validation_edge_node_ref_missing".
Definition CodeNodeOverlayIPOutOfCIDR : string := "validation_node_overlay_ip_out_of_cidr".
Definition CodeNodeOverlayIPConflict : string := "validation_node_overlay_ip_conflict".
Definition CodeDomainIDDuplicate : string := "validation_domain_id_duplicate".
Definition CodeNodeIDDuplicate : string := "validation_node_id_duplicate".
Definition CodeNodeIDPortableCollision : string := "validation_node_id_portable_collision".
Definition CodeEdgeIDDuplicate : string := "validation_edge_id_duplicate".
Definition CodeNodeNameDuplicate : string := "validation_node_name_duplicate".
Definition CodeNodeNameInterfaceCollision : string := "validation_node_name_interface_collision".
Definition CodeNodeEffectivePortRangeOverflow : string := "validation_node_effective_port_range_overflow".
Definition CodeNodeIsolated : string := "validation_node_isolated".
Definition CodeClientInboundRejected : string := "validation_client_inbound_rejected".
Definition CodeClientTargetPeer : string := "validation_client_target_peer".
Definition CodeClientTargetClient : string := "validation_client_target_client".
Definition CodeClientEndpointHostRequired : string := "validation_client_endpoint_host_required".
Definition CodeClientNoOutboundEdge : string := "validation_client_no_outbound_edge".
Definition CodeClientMultipleOutboundEdges : string := "validation_client_multiple_outbound_edges".
Definition CodeClientRouterIDMeaningless : string := "validation_client_router_id_meaningless".
Definition CodeClientExtraPrefixesMeaningless : string := "validation_client_extra_prefixes_meaningless".
Definition CodeEdgeMimicPlatformUnsupported : string := "validation_edge_mimic_platform_unsupported".
Definition CodePinClientPortPin : string := "validation_pin_client_port_pin".
Definition CodePinClientAllocationIgnored : string := "validation_pin_client_allocation_ignored".
Definition CodePinPortIncomplete : string := "validation_pin_port_incomplete".
Definition CodePinTransitIPIncomplete : string := "validation_pin_transit_ip_incomplete".
Definition CodePinLinkLocalIncomplete : string := "validation_pin_link_local_incomplete".
Definition CodePinPortOutOfRange : string := "validation_pin_port_out_of_range".
Definition CodePinTransitIPInvalid : string := "validation_pin_transit_ip_invalid".
Definition CodePinTransitIPOutOfCIDR : string := "validation_pin_transit_ip_out_of_cidr".
Definition CodePinPortDuplicateCrossLink : string := "validation_pin_port_duplicate_cross_link".
Definition CodePinTransitIPDuplicateCrossLink : string := "validation_pin_transit_ip_duplicate_cross_link".
Definition CodePinLinkLocalDuplicateCrossLink : string := "validation_pin_link_local_duplicate_cross_link".
Definition CodeEdgeEndpointNoMatch : string := "validation_edge_endpoint_no_match".
Definition CodeEdgeDuplicateEnabledSameDirection : string := "validation_edge_duplicate_enabled_same_direction".
Definition CodeNodeInterfaceNameCollision : string := "validation_node_interface_name_collision".
Definition CodeEdgeMultipleExplicitPrimary : string := "validation_edge_multiple_explicit_primary".
Definition CodeEdgeBackupTouchesClient : string := "validation_edge_backup_touches_client".
Definition CodeLinkNoPrimary : string := "validation_link_no_primary".
Definition CodeLinkEqualCost : string := "validation_link_equal_cost".
Definition CodeNATTargetUnreachable : string := "validation_nat_target_unreachable".
Definition CodeNATDeadLink : string := "validation_nat_dead_link".
Definition CodeNATDoubleNATNoEndpoint : string := "validation_nat_double_nat_no_endpoint".
Definition CodeNATNoOutboundToPublic : string := "validation_nat_no_outbound_to_public".
Definition CodeEdgeLinkDirectionConflict : string := "validation_edge_link_direction_conflict".
Definition CodeEdgeLinkDirectionForwardNoEndpoint : string := "validation_edge_link_direction_forward_no_endpoint".
Definition CodeEdgeLinkDirectionClientEdge : string := "validation_edge_link_direction_client_edge".

(** ** Findings *)

Inductive pval :=
| PStr (s : string)
| PQuoted (s : string)
| PWithQuoted (text s : string).

Record ValidationError := mkFinding {
  VE_Field : string;
  VE_Code : string;
  VE_Params : list (string * pval);
  VE_Level : string }.

(** A pass appends findings in order; [Errors] and [Warnings] are the two lists
    of [ValidationResult]. *)
Abbreviation findings := (list ValidationError).

Definition AddError (field code : string) (params : list (string * pval)) : findings :=
  [mkFinding field code params "error"].
Definition AddWarning (field code : string) (params : list (string * pval)) : findings :=
  [mkFinding field code params "warning"].

Definition is_error (f : ValidationError) : bool := String.eqb (VE_Level f) "error".
Definition Errors (r : findings) : findings := List.filter is_error r.
Definition Warnings (r : findings) : findings := List.filter (fun f => negb (is_error f)) r.
Definition IsValid (r : findings) : bool := Nat.eqb (length (Errors r)) 0.

(** [fmt.Sprintf("%s[%d]", name, i)] *)
Definition at_index (name : string) (i : nat) : string :=
  (name +:+ "[" +:+ strconv_Itoa (Z.of_nat i) +:+ "]")%string.

(** [for i, x := range xs { ... }] with a body that only reports. *)
Definition for_each {A} (f : nat -> A -> findings) (xs : list A) : findings := concat (imap f xs).

Definition when (b : bool) (r : findings) : findings := if b then r else [].

(** ** Reporting nothing *)

Definition clean (r : findings) : Prop := Errors r = [].

Lemma IsValid_clean r : IsValid r = true <-> clean r.
Proof. unfold IsValid, clean. rewrite Nat.eqb_eq. split; [apply nil_length_inv|by intros ->]. Qed.

Lemma clean_app r s : clean (r ++ s) <-> clean r /\ clean s.
Proof. unfold clean, Errors. rewrite List.filter_app. split; [apply app_eq_nil|by intros [-> ->]]. Qed.

Lemma clean_nil : clean [].
Proof. done. Qed.

Lemma clean_AddError field code ps : clean (AddError field code ps) <-> False.
Proof. done. Qed.

Lemma clean_AddWarning field code ps : clean (AddWarning field code ps).
Proof. done. Qed.

Lemma clean_when_error b field code ps : clean (when b (AddError field code ps)) <-> b = false.
Proof. by destruct b. Qed.

Lemma clean_when b r : clean (when b r) <-> (b = true -> clean r).
Proof. destruct b; cbn; [tauto|]. split; [done|intros _; apply clean_nil]. Qed.

Lemma clean_concat rs : clean (concat rs) <-> forall r, r ∈ rs -> clean r.
Proof.
  induction rs as [|r rs IH]; cbn.
  - split; [intros _ r Hr; by apply elem_of_nil in Hr|intros _; apply clean_nil].
  - rewrite clean_app, IH. split.
    + intros [Hr Hrs] x [->|Hx]%elem_of_cons; auto.
    + intros H. split; [apply H; left|intros x Hx; apply H; by right].
Qed.

Lemma clean_for_each {A} (f : nat -> A -> findings) xs :
  clean (for_each f xs) <-> forall i x, xs !! i = Some x -> clean (f i x).
Proof.
  unfold for_each. rewrite clean_concat. split.
  - intros H i x Hx. apply H. by apply elem_of_lookup_imap_2.
  - intros H r (i & x & -> & Hx)%elem_of_lookup_imap. by apply H.
Qed.

#[export] Hint Rewrite @clean_app @clean_AddError @clean_when_error @clean_for_each : yaog.
#[export] Hint Resolve clean_nil clean_AddWarning : yaog.
