(* ===== verification/Semantic.v ===== *)
(** * Semantic validation ([internal/validator/semantic*.go], [nat.go])

    Every rule of [ValidateSemantic], as a function from the topology to the
    findings it reports, in report order.  The lookup maps the source builds once
    are [nodeMap] and [domainMap]. *)

From stdpp Require Import base gmap strings list sets fin_sets.
From Stdlib Require Import ZArith Lia.
From S2P Require Import Prelude GoLib GoNet Model LinkID PeersAlloc Findings.

Local Open Scope Z_scope.

(** ** Loops with a lookup table *)

(** [for i, x := range xs] with a body that updates a table and reports. *)
Fixpoint fold_report {S A} (f : S -> nat -> A -> S * findings) (i : nat) (s : S) (xs : list A) : S * findings :=
  match xs with
  | [] => (s, [])
  | x :: xs' =>
      let '(s1, r1) := f s i x in
      let '(s2, r2) := fold_report f (Datatypes.S i) s1 xs' in
      (s2, r1 ++ r2)
  end.

Definition report {S A} (f : S -> nat -> A -> S * findings) (s : S) (xs : list A) : findings :=
  (fold_report f 0 s xs).2.

(** The index [m[xs[i].ID] = i] resolves an ID to. *)
Definition nodeIndex (topo : Topology) (id : string) : nat :=
  match find_last (fun p => Node_ID p.2) id (imap (fun i n => (i, n)) (Topology_Nodes topo)) with
  | Some (i, _) => i
  | None => 0
  end.

Definition known (topo : Topology) (id : string) : bool :=
  match nodeMap topo id with Some _ => true | None => false end.

(** ** References *)

Definition validateNodeDomainRefs (topo : Topology) : findings :=
  for_each (fun i node =>
    when (non_empty (Node_DomainID node) &&
          match domainMap topo (Node_DomainID node) with Some _ => false | None => true end)
      (AddError (at_index "nodes" i +:+ ".domain_id") CodeNodeDomainRefMissing
         [("node", PStr (Node_Name node)); ("id", PStr (Node_DomainID node))])) (Topology_Nodes topo).

Definition validateEdgeNodeRefs (topo : Topology) : findings :=
  for_each (fun i edge =>
    when (non_empty (Edge_FromNodeID edge) && negb (known topo (Edge_FromNodeID edge)))
      (AddError (at_index "edges" i +:+ ".from_node_id") CodeEdgeNodeRefMissing
         [("id", PStr (Edge_ID edge)); ("other", PStr (Edge_FromNodeID edge))]) ++
    when (non_empty (Edge_ToNodeID edge) && negb (known topo (Edge_ToNodeID edge)))
      (AddError (at_index "edges" i +:+ ".to_node_id") CodeEdgeNodeRefMissing
         [("id", PStr (Edge_ID edge)); ("other", PStr (Edge_ToNodeID edge))])) (Topology_Edges topo).

(** ** Overlay addresses *)

Definition validateIPSemantics (topo : Topology) : findings :=
  report (fun (ipUsage : gmap string string) i node =>
    if String.eqb (Node_OverlayIP node) "" then (ipUsage, [])
    else
      let prefix := (at_index "nodes" i +:+ ".overlay_ip")%string in
      match ParseIP (Node_OverlayIP node) with
      | None => (ipUsage, [])
      | Some ip =>
          let r1 :=
            match domainMap topo (Node_DomainID node) with
            | Some domain =>
                if non_empty (Domain_CIDR domain) then
                  match ParseCIDR (Domain_CIDR domain) with
                  | Some cidrNet =>
                      when (negb (Contains cidrNet ip))
                        (AddError prefix CodeNodeOverlayIPOutOfCIDR
                           [("node", PStr (Node_Name node)); ("cidr", PStr (Node_OverlayIP node));
                            ("name", PStr (Domain_Name domain)); ("prefix", PStr (Domain_CIDR domain))])
                  | None => []
                  end
                else []
            | None => []
            end in
          match ipUsage !! Node_OverlayIP node with
          | Some existingNode =>
              (ipUsage, r1 ++ AddError prefix CodeNodeOverlayIPConflict
                 [("cidr", PStr (Node_OverlayIP node)); ("other", PStr existingNode); ("node", PStr (Node_Name node))])
          | None => (<[ Node_OverlayIP node := Node_Name node ]> ipUsage, r1)
          end
      end) ∅ (Topology_Nodes topo).

(** ** Names and IDs *)

Definition dup_ids {A} (id : A -> string) (name : string) (code : string) (xs : list A) : findings :=
  report (fun (seen : gset string) i x =>
    ({[ id x ]} ∪ seen,
     when (bool_decide (id x ∈ seen)) (AddError (at_index name i +:+ ".id") code [("id", PStr (id x))]))) ∅ xs.

Definition node_id_step (st : gset string * gmap string string) (i : nat) (n : Node)
  : (gset string * gmap string string) * findings :=
  let '(nodeIDs, portableNodeIDs) := st in
  let r1 := when (bool_decide (Node_ID n ∈ nodeIDs))
              (AddError (at_index "nodes" i +:+ ".id") CodeNodeIDDuplicate [("id", PStr (Node_ID n))]) in
  let nodeIDs' := {[ Node_ID n ]} ∪ nodeIDs in
  if String.eqb (Node_ID n) "" then ((nodeIDs', portableNodeIDs), r1)
  else
    let key := PortableNodeIDKey (Node_ID n) in
    match portableNodeIDs !! key with
    | Some firstID =>
        if negb (String.eqb firstID (Node_ID n)) then
          ((nodeIDs', portableNodeIDs),
           r1 ++ AddError (at_index "nodes" i +:+ ".id") CodeNodeIDPortableCollision
             [("other", PStr firstID); ("id", PStr (Node_ID n))])
        else ((nodeIDs', <[ key := Node_ID n ]> portableNodeIDs), r1)
    | None => ((nodeIDs', <[ key := Node_ID n ]> portableNodeIDs), r1)
    end.

Definition validateIDUniqueness (topo : Topology) : findings :=
  dup_ids Domain_ID "domains" CodeDomainIDDuplicate (Topology_Domains topo) ++
  report node_id_step (∅, ∅) (Topology_Nodes topo) ++
  dup_ids Edge_ID "edges" CodeEdgeIDDuplicate (Topology_Edges topo).

Definition validateNodeNameCollisions (topo : Topology) : findings :=
  report (fun '(rawNames, interfaceNames) i node =>
    if String.eqb (Node_Name node) "" then ((rawNames, interfaceNames), [])
    else
      let prefix := (at_index "nodes" i +:+ ".name")%string in
      let '(rawNames', r1) :=
        match (rawNames : gmap string string) !! Node_Name node with
        | Some firstNode =>
            (rawNames, AddError prefix CodeNodeNameDuplicate
               [("other", PStr firstNode); ("node", PStr (Node_Name node)); ("name", PQuoted (Node_Name node))])
        | None => (<[ Node_Name node := Node_Name node ]> rawNames, [])
        end in
      let interfaceName := WgInterfaceName (Node_Name node) in
      match (interfaceNames : gmap string string) !! interfaceName with
      | Some firstNode =>
          ((rawNames', interfaceNames),
           r1 ++ when (negb (String.eqb firstNode (Node_Name node)))
                   (AddError prefix CodeNodeNameInterfaceCollision
                      [("other", PStr firstNode); ("node", PStr (Node_Name node)); ("name", PQuoted interfaceName)]))
      | None => ((rawNames', <[ interfaceName := Node_Name node ]> interfaceNames), r1)
      end) (∅, ∅) (Topology_Nodes topo).

(** ** Port ranges *)

Definition defaultListenPort : Z := WGListenPortBase.

Definition incr (id : string) (m : gmap string Z) : gmap string Z := <[ id := default 0 (m !! id) + 1 ]> m.

(** [interfaceCount] over the deduplicated links. *)
Definition interface_counts (topo : Topology) : gmap string Z :=
  (foldl (fun '(seenLinks, counts) x =>
     let '(edge, fromNode, toNode) := x in
     let lk := LinkKey edge in
     if bool_decide (lk ∈ seenLinks) then (seenLinks, counts)
     else
       let c1 := if negb (is_client fromNode) then incr (Node_ID fromNode) counts else counts in
       ({[ lk ]} ∪ seenLinks, if negb (is_client toNode) then incr (Node_ID toNode) c1 else c1))
     (∅ : gset string, ∅) (enabledEdges topo)).2.

Definition validateEffectivePortRanges (topo : Topology) : findings :=
  let interfaceCount := interface_counts topo in
  for_each (fun _ node =>
    let count := default 0 (interfaceCount !! Node_ID node) in
    let high := defaultListenPort + count - 1 in
    when (negb (count =? 0) && (65535 <? high))
      (AddError (at_index "nodes" (nodeIndex topo (Node_ID node))) CodeNodeEffectivePortRangeOverflow
         [("node", PStr (Node_Name node)); ("low", PStr (strconv_Itoa defaultListenPort));
          ("high", PStr (strconv_Itoa high)); ("base", PStr (strconv_Itoa defaultListenPort));
          ("count", PStr (strconv_Itoa count))])) (Topology_Nodes topo).

(** ** Connectivity *)

Definition detectIsolatedNodes (topo : Topology) : findings :=
  if (length (Topology_Nodes topo) <=? 1)%nat then []
  else
    let connectedNodes : gset string :=
      foldl (fun s e => if Edge_IsEnabled e then {[ Edge_ToNodeID e ]} ∪ ({[ Edge_FromNodeID e ]} ∪ s) else s)
        ∅ (Topology_Edges topo) in
    for_each (fun _ node =>
      when (negb (bool_decide (Node_ID node ∈ connectedNodes)))
        (AddWarning "topology" CodeNodeIsolated [("node", PStr (Node_Name node)); ("id", PStr (Node_ID node))]))
      (Topology_Nodes topo).

Definition canBeDialed (node : Node) : bool :=
  HasPublicIP (Node_Capabilities node) || CanAcceptInbound (Node_Capabilities node) ||
  String.eqb (Node_Role node) "relay".

Definition hasEnabledEndpointEdge (topo : Topology) (fromID toID : string) : bool :=
  existsb (fun e => Edge_IsEnabled e && String.eqb (Edge_FromNodeID e) fromID &&
                    String.eqb (Edge_ToNodeID e) toID && non_empty (Edge_EndpointHost e)) (Topology_Edges topo).

Definition nat_edge (topo : Topology) (i : nat) (edge : Edge) : findings :=
  if negb (Edge_IsEnabled edge) then []
  else
    match nodeMap topo (Edge_FromNodeID edge), nodeMap topo (Edge_ToNodeID edge) with
    | Some fromNode, Some toNode =>
        let prefix := at_index "edges" i in
        let ends := [("edge", PStr (Edge_ID edge)); ("from", PStr (Node_Name fromNode)); ("to", PStr (Node_Name toNode))]%string in
        when (negb (HasPublicIP (Node_Capabilities toNode)) && negb (CanAcceptInbound (Node_Capabilities toNode)) &&
              negb (String.eqb (Node_Role toNode) "relay"))
          (AddWarning prefix CodeNATTargetUnreachable [("edge", PStr (Edge_ID edge)); ("node", PStr (Node_Name toNode))]) ++
        when (negb (HasPublicIP (Node_Capabilities fromNode)) && negb (HasPublicIP (Node_Capabilities toNode)) &&
              String.eqb (Edge_Type edge) "direct" && String.eqb (Edge_EndpointHost edge) "")
          (let reverseHasEndpoint := hasEnabledEndpointEdge topo (Node_ID toNode) (Node_ID fromNode) in
           let neitherCanBeDialed := negb (canBeDialed fromNode) && negb (canBeDialed toNode) in
           if negb reverseHasEndpoint && neitherCanBeDialed then AddError prefix CodeNATDeadLink ends
           else AddWarning prefix CodeNATDoubleNATNoEndpoint ends)
    | _, _ => []
    end.

Definition hasOutboundToPublic (topo : Topology) (node : Node) : bool :=
  existsb (fun e => Edge_IsEnabled e && String.eqb (Edge_FromNodeID e) (Node_ID node) &&
    match nodeMap topo (Edge_ToNodeID e) with
    | Some target => HasPublicIP (Node_Capabilities target) || CanAcceptInbound (Node_Capabilities target) ||
                     String.eqb (Node_Role target) "relay"
    | None => false
    end) (Topology_Edges topo).

Definition validateNATReachability (topo : Topology) : findings :=
  for_each (nat_edge topo) (Topology_Edges topo) ++
  for_each (fun _ node =>
    when (negb (HasPublicIP (Node_Capabilities node) || CanAcceptInbound (Node_Capabilities node)) &&
          negb (hasOutboundToPublic topo node) && (0 <? length (Topology_Edges topo))%nat)
      (AddWarning "nat_reachability" CodeNATNoOutboundToPublic
         [("name", PStr (Node_Name node)); ("id", PStr (Node_ID node))])) (Topology_Nodes topo).

(** ** Client rules *)

Definition client_edge_rules (topo : Topology) (i : nat) (edge : Edge) : findings :=
  if negb (Edge_IsEnabled edge) then []
  else
    let fromNode := nodeMap topo (Edge_FromNodeID edge) in
    let toNode := nodeMap topo (Edge_ToNodeID edge) in
    match toNode with
    | Some t => when (is_client t) (AddError (at_index "edges" i) CodeClientInboundRejected [("node", PStr (Node_Name t))])
    | None => []
    end ++
    match fromNode with
    | Some f =>
        when (is_client f)
          (match toNode with
           | Some t =>
               when (String.eqb (Node_Role t) "peer")
                 (AddError (at_index "edges" i) CodeClientTargetPeer
                    [("node", PStr (Node_Name f)); ("other", PStr (Node_Name t))]) ++
               when (is_client t)
                 (AddError (at_index "edges" i) CodeClientTargetClient
                    [("node", PStr (Node_Name f)); ("other", PStr (Node_Name t))])
           | None => []
           end ++
           when (String.eqb (Edge_EndpointHost edge) "")
             (AddError (at_index "edges" i +:+ ".endpoint_host") CodeClientEndpointHostRequired
                [("node", PStr (Node_Name f))]))
    | None => []
    end.

(** [clientOutbound[id]]: the enabled edges leaving the client [id]. *)
Definition clientOutbound (topo : Topology) (id : string) : nat :=
  length (List.filter (fun e =>
    Edge_IsEnabled e &&
    match nodeMap topo (Edge_FromNodeID e) with
    | Some f => is_client f && String.eqb (Node_ID f) id
    | None => false
    end) (Topology_Edges topo)).

Definition validateClientEdges (topo : Topology) : findings :=
  for_each (client_edge_rules topo) (Topology_Edges topo) ++
  for_each (fun _ node =>
    when (is_client node)
      (let count := clientOutbound topo (Node_ID node) in
       (if Nat.eqb count 0 then AddError "topology" CodeClientNoOutboundEdge [("node", PStr (Node_Name node))]
        else if (1 <? count)%nat then
          AddError "topology" CodeClientMultipleOutboundEdges
            [("node", PStr (Node_Name node)); ("count", PStr (strconv_Itoa (Z.of_nat count)))]
        else []) ++
       when (non_empty (Node_RouterID node))
         (AddWarning ("node." +:+ Node_ID node +:+ ".router_id") CodeClientRouterIDMeaningless [("node", PStr (Node_Name node))]) ++
       when (negb (Nat.eqb (length (Node_ExtraPrefixes node)) 0))
         (AddWarning ("node." +:+ Node_ID node +:+ ".extra_prefixes") CodeClientExtraPrefixesMeaningless
            [("node", PStr (Node_Name node))]))) (Topology_Nodes topo).

(** ** Transport *)

(** [strings.ToLower] rune by rune, exact on the runes whose lower case is an
    ASCII letter: the ASCII capitals, U+212A and U+0130. *)
Definition lower_rune (r : Z) : Z :=
  if (65 <=? r) && (r <=? 90) then r + 32 else if r =? 8490 then 107 else if r =? 304 then 105 else r.

(** [strings.ToLower(s) == lit] for an ASCII literal. *)
Definition lower_is (s lit : string) : bool := bool_decide ((lower_rune <$> runes s) = bytes_of lit).

Definition mimicLinuxDeployable (node : option Node) : bool :=
  match node with
  | None => true
  | Some n => String.eqb (Node_Platform n) "" || lower_is (Node_Platform n) "debian" || lower_is (Node_Platform n) "ubuntu"
  end.

Definition mimic_end (edge : Edge) (i : nat) (node : option Node) : findings :=
  match node with
  | Some n =>
      when (negb (mimicLinuxDeployable (Some n)))
        (AddError (at_index "edges" i +:+ ".transport") CodeEdgeMimicPlatformUnsupported
           [("id", PStr (Edge_ID edge)); ("node", PStr (Node_Name n)); ("platform", PQuoted (Node_Platform n))])
  | None => []
  end.

Definition validateMimicTransport (topo : Topology) : findings :=
  for_each (fun i edge =>
    when (Edge_IsEnabled edge && String.eqb (Edge_Transport edge) "tcp")
      (when (String.eqb (Edge_Type edge) "relay-path")
         (AddWarning (at_index "edges" i +:+ ".transport") CodeEdgeMimicRelayPath [("id", PStr (Edge_ID edge))]) ++
       mimic_end edge i (nodeMap topo (Edge_FromNodeID edge)) ++
       mimic_end edge i (nodeMap topo (Edge_ToNodeID edge)))) (Topology_Edges topo).

(** ** Endpoints and duplicate edges *)

Definition validateEdgeEndpointConsistency (topo : Topology) : findings :=
  for_each (fun i edge =>
    when (Edge_IsEnabled edge && non_empty (Edge_EndpointHost edge))
      (match nodeMap topo (Edge_ToNodeID edge) with
       | Some toNode =>
           when (negb (Nat.eqb (length (Node_PublicEndpoints toNode)) 0) &&
                 negb (existsb (fun ep => String.eqb (PublicEndpoint_Host ep) (Edge_EndpointHost edge))
                         (Node_PublicEndpoints toNode)))
             (AddWarning (at_index "edges" i +:+ ".endpoint_host") CodeEdgeEndpointNoMatch
                [("id", PStr (Edge_ID edge)); ("other", PStr (Edge_EndpointHost edge)); ("node", PStr (Node_Name toNode))])
       | None => []
       end)) (Topology_Edges topo).

Definition detectDuplicateEnabledEdges (topo : Topology) : findings :=
  report (fun (firstEdgeByDirection : gmap string string) i edge =>
    if negb (Edge_IsEnabled edge) || IsBackup edge then (firstEdgeByDirection, [])
    else
      let direction := (Edge_FromNodeID edge +:+ "->" +:+ Edge_ToNodeID edge)%string in
      match firstEdgeByDirection !! direction with
      | Some firstID =>
          (firstEdgeByDirection,
           AddWarning (at_index "edges" i) CodeEdgeDuplicateEnabledSameDirection
             [("id", PStr (Edge_ID edge)); ("other", PStr firstID)])
      | None => (<[ direction := Edge_ID edge ]> firstEdgeByDirection, [])
      end) ∅ (Topology_Edges topo).

(** ** Link rules *)

Definition babeldWiredDefaultCost : Z := 96.

Definition effectiveLinkCost (rep : Edge) : Z :=
  if 0 <? Edge_Priority rep then Edge_Priority rep
  else if 0 <? Edge_Weight rep then Edge_Weight rep
  else if IsBackup rep then BackupDefaultLinkCost else 0.

Definition comparableCost (cost : Z) : Z := if cost =? 0 then babeldWiredDefaultCost else cost.

Definition linkDescription (edge : Edge) (remoteName : string) (backup : bool) : string :=
  if backup then ("backup→" +:+ remoteName +:+ " (" +:+ Edge_ID edge +:+ ")")%string
  else ("primary→" +:+ remoteName)%string.

(** The interface name the rule computes for one end of a link. *)
Definition rule_iface (edge : Edge) (remote : Node) : string :=
  if IsBackup edge then WgInterfaceNameForEdge (Node_Name remote) (Edge_ID edge) true
  else WgInterfaceName (Node_Name remote).

Abbreviation iface_table := (gmap (string * string) string).

(** [register]: [ifaceByNode] is keyed by node ID and interface name. *)
Definition register (topo : Topology) (t : iface_table) (nodeID ifaceName linkDesc : string) : iface_table * findings :=
  match t !! (nodeID, ifaceName) with
  | Some first =>
      let nodeName := match nodeMap topo nodeID with Some n => Node_Name n | None => nodeID end in
      (t, AddError (at_index "nodes" (nodeIndex topo nodeID)) CodeNodeInterfaceNameCollision
            [("node", PStr nodeName); ("name", PQuoted ifaceName); ("prefix", PStr first); ("other", PStr linkDesc)])
  | None => (<[ (nodeID, ifaceName) := linkDesc ]> t, [])
  end.

Definition register_end (topo : Topology) (edge : Edge) (t : iface_table) (node remote : Node) : iface_table * findings :=
  if is_client node then (t, [])
  else register topo t (Node_ID node) (rule_iface edge remote) (linkDescription edge (Node_Name remote) (IsBackup edge)).

Definition iface_step (topo : Topology) (st : gset string * iface_table) (_ : nat) (x : Edge * Node * Node)
  : (gset string * iface_table) * findings :=
  let '(seenLinks, t) := st in
  let '(edge, fromNode, toNode) := x in
  let lk := LinkKey edge in
  if bool_decide (lk ∈ seenLinks) then ((seenLinks, t), [])
  else
    let '(t1, r1) := register_end topo edge t fromNode toNode in
    let '(t2, r2) := register_end topo edge t1 toNode fromNode in
    (({[ lk ]} ∪ seenLinks, t2), r1 ++ r2).

Definition validateInterfaceNameUniqueness (topo : Topology) : findings :=
  report (iface_step topo) (∅, ∅) (enabledEdges topo).

Definition validateSinglePrimaryPerPair (topo : Topology) : findings :=
  report (fun (firstPrimary : gmap string string) i edge =>
    if negb (Edge_IsEnabled edge) || negb (String.eqb (Edge_Role edge) EdgeRolePrimary) ||
       negb (known topo (Edge_FromNodeID edge)) || negb (known topo (Edge_ToNodeID edge)) then (firstPrimary, [])
    else
      let pk := PinKey (Edge_FromNodeID edge) (Edge_ToNodeID edge) in
      match firstPrimary !! pk with
      | Some firstID =>
          (firstPrimary, AddError (at_index "edges" i +:+ ".role") CodeEdgeMultipleExplicitPrimary
                           [("id", PStr (Edge_ID edge)); ("other", PStr firstID)])
      | None => (<[ pk := Edge_ID edge ]> firstPrimary, [])
      end) ∅ (Topology_Edges topo).

Definition validateBackupClientEdges (topo : Topology) : findings :=
  for_each (fun i edge =>
    let touches id := match nodeMap topo id with Some n => is_client n | None => false end in
    when (Edge_IsEnabled edge && IsBackup edge && (touches (Edge_FromNodeID edge) || touches (Edge_ToNodeID edge)))
      (AddError (at_index "edges" i +:+ ".role") CodeEdgeBackupTouchesClient [("id", PStr (Edge_ID edge))]))
    (Topology_Edges topo).

(** [pairEdgeIDs[pk]] *)
Definition pairEdgeIDs (topo : Topology) (pk : string) : list string :=
  Edge_ID <$> List.filter (fun e => Edge_IsEnabled e && negb (IsBackup e) &&
    String.eqb (PinKey (Edge_FromNodeID e) (Edge_ToNodeID e)) pk) (Topology_Edges topo).

Definition link_direction_rules (topo : Topology) (i : nat) (edge : Edge) : findings :=
  let dir := Edge_LinkDirection edge in
  if negb (Edge_IsEnabled edge) || negb (String.eqb dir EdgeLinkDirectionForward) then []
  else
    let prefix := (at_index "edges" i +:+ ".link_direction")%string in
    match nodeMap topo (Edge_FromNodeID edge), nodeMap topo (Edge_ToNodeID edge) with
    | Some fromNode, Some toNode =>
        if is_client fromNode || is_client toNode then
          let clientNode := if is_client toNode then toNode else fromNode in
          AddError prefix CodeEdgeLinkDirectionClientEdge
            [("id", PStr (Edge_ID edge)); ("node", PStr (Node_Name clientNode)); ("direction", PStr dir)]
        else
          (if IsBackup edge then []
           else match pairEdgeIDs topo (PinKey (Edge_FromNodeID edge) (Edge_ToNodeID edge)) with
                | id0 :: id1 :: _ =>
                    let other := if String.eqb id0 (Edge_ID edge) then id1 else id0 in
                    AddError prefix CodeEdgeLinkDirectionConflict
                      [("id", PStr (Edge_ID edge)); ("direction", PStr dir); ("other", PStr other)]
                | _ => []
                end) ++
          when (String.eqb (Edge_EndpointHost edge) "")
            (AddError prefix CodeEdgeLinkDirectionForwardNoEndpoint [("id", PStr (Edge_ID edge))])
    | _, _ => []
    end.

Definition validateLinkDirection (topo : Topology) : findings :=
  for_each (link_direction_rules topo) (Topology_Edges topo).

(** ** Parallel link costs *)

Record pairLinkSummary := mkSummary {
  ps_key : string;
  ps_edgeIndex : nat;
  ps_hasPrimary : bool;
  ps_costs : list Z;
  ps_fromName : string;
  ps_toName : string }.

(** The summaries in first-appearance order; [primaryCounted] of the source is
    [ps_hasPrimary], set by the first primary-class edge of the pair. *)
Definition summary_step (topo : Topology) (ss : list pairLinkSummary) (ie : nat * Edge) : list pairLinkSummary :=
  let '(i, edge) := ie in
  if negb (Edge_IsEnabled edge) then ss
  else
    match nodeMap topo (Edge_FromNodeID edge), nodeMap topo (Edge_ToNodeID edge) with
    | Some fromNode, Some toNode =>
        let pk := PinKey (Edge_FromNodeID edge) (Edge_ToNodeID edge) in
        let ss' := if existsb (fun s => String.eqb (ps_key s) pk) ss then ss
                   else ss ++ [mkSummary pk i false [] (Node_Name fromNode) (Node_Name toNode)] in
        let cost := comparableCost (effectiveLinkCost edge) in
        (fun s => if negb (String.eqb (ps_key s) pk) then s
                  else if IsBackup edge then
                    mkSummary (ps_key s) (ps_edgeIndex s) (ps_hasPrimary s) (ps_costs s ++ [cost]) (ps_fromName s) (ps_toName s)
                  else
                    mkSummary (ps_key s) (ps_edgeIndex s) true
                      (if ps_hasPrimary s then ps_costs s else ps_costs s ++ [cost]) (ps_fromName s) (ps_toName s)) <$> ss'
    | _, _ => ss
    end.

Definition validateParallelLinkCosts (topo : Topology) : findings :=
  let order := foldl (summary_step topo) [] (imap (fun i e => (i, e)) (Topology_Edges topo)) in
  for_each (fun _ s =>
    when ((0 <? length (ps_costs s))%nat && negb (ps_hasPrimary s))
      (AddWarning (at_index "edges" (ps_edgeIndex s)) CodeLinkNoPrimary
         [("node", PStr (ps_fromName s)); ("other", PStr (ps_toName s))]) ++
    match ps_costs s with
    | c0 :: c1 :: rest =>
        when (forallb (fun c => c =? c0) (c1 :: rest))
          (AddWarning (at_index "edges" (ps_edgeIndex s)) CodeLinkEqualCost
             [("node", PStr (ps_fromName s)); ("other", PStr (ps_toName s));
              ("count", PStr (strconv_Itoa (Z.of_nat (length (ps_costs s))))); ("low", PStr (strconv_Itoa c0))])
    | _ => []
    end) order.

(** ** Allocation pins *)

Record nodePortPin := mkPortPin { np_port : Z; np_linkID : string; np_edge : string }.
Record pinOwner := mkPinOwner { po_linkID : string; po_edge : string }.

Definition edgeTransitCIDR (topo : Topology) (edge : Edge) : string :=
  match nodeMap topo (Edge_FromNodeID edge) with
  | None => DefaultTransitCIDR
  | Some fromNode =>
      match domainMap topo (Node_DomainID fromNode) with
      | Some domain => if non_empty (Domain_TransitCIDR domain) then Domain_TransitCIDR domain else DefaultTransitCIDR
      | None => DefaultTransitCIDR
      end
  end.

Definition validatePinPairCompleteness (prefix : string) (edge : Edge) (requirePortPair : bool) : findings :=
  when (requirePortPair && xorb (negb (Edge_PinnedFromPort edge =? 0)) (negb (Edge_PinnedToPort edge =? 0)))
    (AddError prefix CodePinPortIncomplete [("id", PStr (Edge_ID edge))]) ++
  when (xorb (non_empty (Edge_PinnedFromTransitIP edge)) (non_empty (Edge_PinnedToTransitIP edge)))
    (AddError prefix CodePinTransitIPIncomplete [("id", PStr (Edge_ID edge))]) ++
  when (xorb (non_empty (Edge_PinnedFromLinkLocal edge)) (non_empty (Edge_PinnedToLinkLocal edge)))
    (AddError prefix CodePinLinkLocalIncomplete [("id", PStr (Edge_ID edge))]).

Definition validatePinnedPortRange (prefix field : string) (port : Z) (node : Node) : findings :=
  when (negb (port =? 0) && ((port <? MinPinnedPort) || (65535 <? port)))
    (AddError (prefix +:+ "." +:+ field) CodePinPortOutOfRange
       [("node", PStr (Node_Name node)); ("port", PStr (strconv_Itoa port)); ("base", PStr (strconv_Itoa MinPinnedPort))]).

Definition validatePinnedTransitInCIDR (prefix field value transitCIDR : string) : findings :=
  if String.eqb value "" then []
  else
    match ParseIP value with
    | None => AddError (prefix +:+ "." +:+ field) CodePinTransitIPInvalid [("cidr", PQuoted value)]
    | Some ip =>
        match ParseCIDR transitCIDR with
        | None => []
        | Some cidrNet =>
            when (negb (Contains cidrNet ip))
              (AddError (prefix +:+ "." +:+ field) CodePinTransitIPOutOfCIDR
                 [("cidr", PStr value); ("prefix", PStr transitCIDR)])
        end
    end.

Definition checkDuplicatePortOnNode (prefix nodeID : string) (port : Z) (link edgeID : string)
    (portsByNode : gmap string (list nodePortPin)) : gmap string (list nodePortPin) * findings :=
  if port =? 0 then (portsByNode, [])
  else
    let pins := default [] (portsByNode !! nodeID) in
    match List.find (fun existing => np_port existing =? port) pins with
    | Some existing =>
        if String.eqb (np_linkID existing) link then (portsByNode, [])
        else (portsByNode, AddError prefix CodePinPortDuplicateCrossLink
                [("port", PStr (strconv_Itoa port)); ("other", PStr (np_edge existing)); ("id", PStr edgeID)])
    | None => (<[ nodeID := pins ++ [mkPortPin port link edgeID] ]> portsByNode, [])
    end.

(** [checkDuplicateTransitIP] and [checkDuplicateLinkLocal], which differ in the
    code they report. *)
Definition checkDuplicateValue (code prefix value link edgeID : string) (byValue : gmap string pinOwner)
  : gmap string pinOwner * findings :=
  if String.eqb value "" then (byValue, [])
  else
    let key := canonicalIP value in
    match byValue !! key with
    | Some owner =>
        if String.eqb (po_linkID owner) link then (byValue, [])
        else (byValue, AddError prefix code [("cidr", PStr value); ("other", PStr (po_edge owner)); ("id", PStr edgeID)])
    | None => (<[ key := mkPinOwner link edgeID ]> byValue, [])
    end.

Definition checkDuplicateTransitIP : string -> string -> string -> string -> gmap string pinOwner -> gmap string pinOwner * findings :=
  checkDuplicateValue CodePinTransitIPDuplicateCrossLink.
Definition checkDuplicateLinkLocal : string -> string -> string -> string -> gmap string pinOwner -> gmap string pinOwner * findings :=
  checkDuplicateValue CodePinLinkLocalDuplicateCrossLink.

Record pin_tables := mkPinTables {
  portsByNode : gmap string (list nodePortPin);
  transitByValue : gmap string pinOwner;
  linkLocalByValue : gmap string pinOwner }.

Definition pin_edge_rules (topo : Topology) (t : pin_tables) (i : nat) (edge : Edge) : pin_tables * findings :=
  if negb (Edge_IsEnabled edge) then (t, [])
  else
    let prefix := at_index "edges" i in
    match nodeMap topo (Edge_FromNodeID edge), nodeMap topo (Edge_ToNodeID edge) with
    | Some fromNode, Some toNode =>
        let link := LinkKey edge in
        let fromClient := is_client fromNode in
        let toClient := is_client toNode in
        let transitCIDR := edgeTransitCIDR topo edge in
        let r0 :=
          when ((fromClient && negb (Edge_PinnedFromPort edge =? 0)) || (toClient && negb (Edge_PinnedToPort edge =? 0)))
            (AddError prefix CodePinClientPortPin [("id", PStr (Edge_ID edge))]) ++
          validatePinPairCompleteness prefix edge (negb (fromClient || toClient)) ++
          validatePinnedPortRange prefix "pinned_from_port" (Edge_PinnedFromPort edge) fromNode ++
          validatePinnedPortRange prefix "pinned_to_port" (Edge_PinnedToPort edge) toNode ++
          validatePinnedTransitInCIDR prefix "pinned_from_transit_ip" (Edge_PinnedFromTransitIP edge) transitCIDR ++
          validatePinnedTransitInCIDR prefix "pinned_to_transit_ip" (Edge_PinnedToTransitIP edge) transitCIDR in
        let '(p1, q1) := checkDuplicatePortOnNode prefix (Edge_FromNodeID edge) (Edge_PinnedFromPort edge) link (Edge_ID edge) (portsByNode t) in
        let '(p2, q2) := checkDuplicatePortOnNode prefix (Edge_ToNodeID edge) (Edge_PinnedToPort edge) link (Edge_ID edge) p1 in
        let '(t1, q3) := checkDuplicateTransitIP prefix (Edge_PinnedFromTransitIP edge) link (Edge_ID edge) (transitByValue t) in
        let '(t2, q4) := checkDuplicateTransitIP prefix (Edge_PinnedToTransitIP edge) link (Edge_ID edge) t1 in
        let '(l1, q5) := checkDuplicateLinkLocal prefix (Edge_PinnedFromLinkLocal edge) link (Edge_ID edge) (linkLocalByValue t) in
        let '(l2, q6) := checkDuplicateLinkLocal prefix (Edge_PinnedToLinkLocal edge) link (Edge_ID edge) l1 in
        (mkPinTables p2 t2 l2, r0 ++ q1 ++ q2 ++ q3 ++ q4 ++ q5 ++ q6)
    | _, _ => (t, [])
    end.

Definition validateAllocationPins (topo : Topology) : findings :=
  report (pin_edge_rules topo) (mkPinTables ∅ ∅ ∅) (Topology_Edges topo).

(** ** The whole pass *)

Definition validateRoutePoliciesReserved (topo : Topology) : findings :=
  when (0 <? length (Topology_RoutePolicies topo))%nat
    (AddError "route_policies" CodeRoutePolicyReserved
       [("count", PStr (strconv_Itoa (Z.of_nat (length (Topology_RoutePolicies topo)))))]).

Definition maxTopologyNodes : nat := Z.to_nat 2000.
Definition maxTopologyEdges : nat := Z.to_nat 10000.
Definition maxTopologyDomains : nat := Z.to_nat 1000.
Definition maxReservedRangesPerDomain : nat := Z.to_nat 1000.

Definition topologyExceedsBounds (topo : Topology) : bool :=
  (CurrentAllocSchemaVersion <? Topology_AllocSchemaVersion topo) ||
  (maxTopologyNodes <? length (Topology_Nodes topo))%nat ||
  (maxTopologyEdges <? length (Topology_Edges topo))%nat ||
  (maxTopologyDomains <? length (Topology_Domains topo))%nat ||
  existsb (fun d => maxReservedRangesPerDomain <? length (Domain_ReservedRanges d))%nat (Topology_Domains topo).

Definition ValidateSemantic (topo : Topology) : findings :=
  if topologyExceedsBounds topo then []
  else
    validateNodeDomainRefs topo ++
    validateEdgeNodeRefs topo ++
    validateIPSemantics topo ++
    validateIDUniqueness topo ++
    validateNodeNameCollisions topo ++
    validateEffectivePortRanges topo ++
    detectIsolatedNodes topo ++
    validateNATReachability topo ++
    validateClientEdges topo ++
    validateMimicTransport topo ++
    validateEdgeEndpointConsistency topo ++
    detectDuplicateEnabledEdges topo ++
    validateInterfaceNameUniqueness topo ++
    validateSinglePrimaryPerPair topo ++
    validateBackupClientEdges topo ++
    validateLinkDirection topo ++
    validateParallelLinkCosts topo ++
    validateAllocationPins topo ++
    validateRoutePoliciesReserved topo.
