(* ===== verification/SemanticStable.v ===== *)
(** * What the semantic rules read

    Most rules of [ValidateSemantic] read neither overlay addresses nor
    capabilities of nodes, nor allocations of edges: they report the same on a
    topology and on its [skeleton], where these are blanked.  So a compile, which
    changes nothing else, leaves their reports as they were. *)

From stdpp Require Import base gmap strings list sets fin_sets.
From Stdlib Require Import ZArith Lia.
From S2P Require Import Prelude GoLib GoNet Model LinkID PeersAlloc Findings Semantic.

Local Open Scope Z_scope.

Definition blank_node (n : Node) : Node := set_Capabilities (mkNodeCapabilities false false false false) (set_OverlayIP "" n).

Definition skeleton (t : Topology) : Topology :=
  mkTopology (Topology_Project t) (Topology_Domains t) (blank_node <$> Topology_Nodes t) (edge_ident <$> Topology_Edges t) (Topology_RoutePolicies t) 0.

(** ** Loops *)

Lemma for_each_fmap {A B} (f : nat -> B -> findings) (h : nat -> A -> findings) (g : A -> B) xs :
  (forall i x, f i (g x) = h i x) -> for_each f (g <$> xs) = for_each h xs.
Proof. intros H. unfold for_each. f_equal. rewrite imap_fmap. apply imap_ext. intros i x _. apply H. Qed.

Lemma report_fmap {S A B} (f : S -> nat -> B -> S * findings) (h : S -> nat -> A -> S * findings) (g : A -> B) s xs :
  (forall s i x, f s i (g x) = h s i x) -> report f s (g <$> xs) = report h s xs.
Proof.
  intros H. unfold report. f_equal. generalize 0%nat. revert s. induction xs as [|x xs IH]; intros s i; [done|].
  cbn [fmap list_fmap fold_report]. rewrite H. destruct (h s i x) as [s1 r1]. by rewrite IH.
Qed.

Lemma filter_fmap {A B} (p : B -> bool) (q : A -> bool) (g : A -> B) xs : (forall x, p (g x) = q x) -> List.filter p (g <$> xs) = g <$> List.filter q xs.
Proof. intros H. induction xs as [|x xs IH]; [done|]. cbn [fmap list_fmap List.filter]. rewrite H, IH. by destruct (q x). Qed.

(** ** Lookups *)

Lemma find_last_fmap {A} (key : A -> string) (g : A -> A) k xs : (forall x, key (g x) = key x) -> find_last key k (g <$> xs) = g <$> find_last key k xs.
Proof. intros H. induction xs as [|x xs IH] using rev_ind; [done|]. rewrite fmap_app, !find_last_app, IH. cbn. rewrite H. by destruct (String.eqb _ _). Qed.

Lemma nodeMap_skeleton t id : nodeMap (skeleton t) id = blank_node <$> nodeMap t id.
Proof. apply find_last_fmap. by intros []. Qed.

Lemma known_skeleton t id : known (skeleton t) id = known t id.
Proof. unfold known. rewrite nodeMap_skeleton. by destruct (nodeMap t id). Qed.

Lemma nodeIndex_skeleton t id : nodeIndex (skeleton t) id = nodeIndex t id.
Proof.
  unfold nodeIndex. cbn [skeleton Topology_Nodes]. induction (Topology_Nodes t) as [|n ns IH] using rev_ind; [done|]. rewrite fmap_app, !imap_app, !find_last_app, length_fmap. cbn.
  destruct n. cbn. destruct (String.eqb _ _); [done|exact IH].
Qed.

Lemma enabledEdges_skeleton t : enabledEdges (skeleton t) = (fun x => (edge_ident x.1.1, blank_node x.1.2, blank_node x.2)) <$> enabledEdges t.
Proof.
  unfold enabledEdges. cbn [skeleton Topology_Edges]. induction (Topology_Edges t) as [|e es IH]; [done|]. cbn [fmap list_fmap omap list_omap].
  rewrite IH, !nodeMap_skeleton. destruct e; cbn -[nodeMap]. by destruct (nodeMap t _), (nodeMap t _), Edge_IsEnabled.
Qed.

(** ** Rules that see the skeleton only *)

Ltac skeleton_step := cbn [skeleton Topology_Nodes Topology_Edges Topology_Domains Topology_RoutePolicies].

Lemma skeleton_domain_refs t : validateNodeDomainRefs (skeleton t) = validateNodeDomainRefs t.
Proof. unfold validateNodeDomainRefs. skeleton_step. apply for_each_fmap. by intros i []. Qed.

Lemma skeleton_node_refs t : validateEdgeNodeRefs (skeleton t) = validateEdgeNodeRefs t.
Proof. unfold validateEdgeNodeRefs. skeleton_step. apply for_each_fmap. intros i e. rewrite !known_skeleton. by destruct e. Qed.

Lemma skeleton_ids t : validateIDUniqueness (skeleton t) = validateIDUniqueness t.
Proof.
  unfold validateIDUniqueness, dup_ids. skeleton_step. f_equal. f_equal; apply report_fmap; [by intros s i []|by intros s i []].
Qed.

Lemma skeleton_names t : validateNodeNameCollisions (skeleton t) = validateNodeNameCollisions t.
Proof. unfold validateNodeNameCollisions. skeleton_step. apply report_fmap. by intros [] i []. Qed.

Lemma skeleton_counts t : interface_counts (skeleton t) = interface_counts t.
Proof.
  unfold interface_counts. rewrite enabledEdges_skeleton. f_equal. generalize (∅ : gset string, ∅ : gmap string Z).
  induction (enabledEdges t) as [|[[e f] n] xs IH]; intros st; [done|]. cbn [fmap list_fmap foldl]. rewrite IH. f_equal. destruct st, e, f, n. done.
Qed.

Lemma skeleton_port_ranges t : validateEffectivePortRanges (skeleton t) = validateEffectivePortRanges t.
Proof. unfold validateEffectivePortRanges. rewrite skeleton_counts. skeleton_step. apply for_each_fmap. intros i n. rewrite nodeIndex_skeleton. by destruct n. Qed.

Lemma skeleton_outbound t id : clientOutbound (skeleton t) id = clientOutbound t id.
Proof.
  unfold clientOutbound. skeleton_step. set (p := fun e : Edge => _ && _). set (q := fun e : Edge => _ && _). rewrite (filter_fmap p q), length_fmap; [done|]. intros e. unfold p, q. rewrite nodeMap_skeleton. destruct e; cbn -[nodeMap].
  by destruct (nodeMap t _) as [[]|].
Qed.

Lemma skeleton_clients t : validateClientEdges (skeleton t) = validateClientEdges t.
Proof.
  unfold validateClientEdges. skeleton_step. f_equal; apply for_each_fmap.
  - intros i e. unfold client_edge_rules. rewrite !nodeMap_skeleton. destruct e; cbn -[nodeMap]. by destruct (nodeMap t _) as [[]|], (nodeMap t _) as [[]|].
  - intros i n. rewrite skeleton_outbound. by destruct n.
Qed.

Lemma skeleton_mimic t : validateMimicTransport (skeleton t) = validateMimicTransport t.
Proof.
  unfold validateMimicTransport. skeleton_step. apply for_each_fmap. intros i e. rewrite !nodeMap_skeleton. destruct e; cbn -[nodeMap].
  by destruct (nodeMap t _) as [[]|], (nodeMap t _) as [[]|].
Qed.

Lemma skeleton_register t tb id name desc : register (skeleton t) tb id name desc = register t tb id name desc.
Proof. unfold register. rewrite nodeMap_skeleton, nodeIndex_skeleton. by destruct (nodeMap t id) as [[]|]. Qed.

Lemma skeleton_register_end t e tb n r :
  register_end (skeleton t) (edge_ident e) tb (blank_node n) (blank_node r) = register_end t e tb n r.
Proof. unfold register_end. rewrite skeleton_register. by destruct e, n, r. Qed.

Lemma skeleton_ifaces t : validateInterfaceNameUniqueness (skeleton t) = validateInterfaceNameUniqueness t.
Proof.
  unfold validateInterfaceNameUniqueness. rewrite enabledEdges_skeleton. apply report_fmap. intros [seen tb] i [[e f] n]. unfold iface_step. cbn [fst snd].
  replace (LinkKey (edge_ident e)) with (LinkKey e) by (by destruct e). rewrite skeleton_register_end. destruct (bool_decide _); [done|].
  destruct (register_end t e tb f n) as [t1 r1]. by rewrite skeleton_register_end.
Qed.

Lemma skeleton_primary t : validateSinglePrimaryPerPair (skeleton t) = validateSinglePrimaryPerPair t.
Proof. unfold validateSinglePrimaryPerPair. skeleton_step. apply report_fmap. intros s i e. rewrite !known_skeleton. by destruct e. Qed.

Lemma skeleton_backup t : validateBackupClientEdges (skeleton t) = validateBackupClientEdges t.
Proof.
  unfold validateBackupClientEdges. skeleton_step. apply for_each_fmap. intros i e. rewrite !nodeMap_skeleton. destruct e; cbn -[nodeMap].
  by destruct (nodeMap t _) as [[]|], (nodeMap t _) as [[]|].
Qed.

Lemma skeleton_pair_ids t pk : pairEdgeIDs (skeleton t) pk = pairEdgeIDs t pk.
Proof.
  unfold pairEdgeIDs. skeleton_step. set (p := fun e : Edge => _ && _). rewrite (filter_fmap p p) by (by intros []). rewrite <- list_fmap_compose.
  apply list_fmap_ext. intros i e _. by destruct e.
Qed.

Lemma skeleton_direction t : validateLinkDirection (skeleton t) = validateLinkDirection t.
Proof.
  unfold validateLinkDirection. skeleton_step. apply for_each_fmap. intros i e. unfold link_direction_rules. rewrite !nodeMap_skeleton, skeleton_pair_ids. destruct e; cbn -[nodeMap pairEdgeIDs].
  destruct (nodeMap t Edge_FromNodeID) as [[]|], (nodeMap t Edge_ToNodeID) as [[]|]; try done. unfold is_client. cbn -[pairEdgeIDs].
  by destruct (String.eqb _ "client"), (String.eqb _ "client").
Qed.

(** ** Rules that only warn *)

Lemma clean_warn b field code ps : clean (when b (AddWarning field code ps)).
Proof. destruct b; [apply clean_AddWarning|apply clean_nil]. Qed.
#[local] Hint Resolve clean_nil clean_warn clean_AddWarning : core.

Lemma report_all {S A} (P : list A -> S -> Prop) (f : S -> nat -> A -> S * findings) xs s :
  P [] s -> (forall pre x post k s1, xs = pre ++ x :: post -> P pre s1 -> clean (f s1 k x).2 /\ P (pre ++ [x]) (f s1 k x).1) -> clean (report f s xs).
Proof.
  intros H0 Hstep. unfold report.
  enough (forall pre rest j s1, xs = pre ++ rest -> P pre s1 -> clean (fold_report f j s1 rest).2) as Hgen by (by apply (Hgen [] xs)).
  intros pre rest. revert pre. induction rest as [|x rest IH]; intros pre j s1 Hxs HP; [done|]. cbn.
  destruct (Hstep pre x rest j s1 Hxs HP) as [Hc Hn]. destruct (f s1 j x) as [s2 r1]. destruct (fold_report f _ s2 rest) as [s3 r2] eqn:E. cbn in *.
  apply clean_app. split; [done|]. pose proof (IH (pre ++ [x]) (Datatypes.S j) s2) as Hi. rewrite E in Hi. apply Hi; [by rewrite <- app_assoc|done].
Qed.

Lemma clean_isolated t : clean (detectIsolatedNodes t).
Proof. unfold detectIsolatedNodes. destruct (_ <=? _)%nat; [done|]. apply clean_for_each. intros i n _. auto. Qed.

Lemma clean_endpoints t : clean (validateEdgeEndpointConsistency t).
Proof. unfold validateEdgeEndpointConsistency. apply clean_for_each. intros i e _. apply clean_when. intros _. destruct (nodeMap t _); auto. Qed.

Lemma clean_duplicates t : clean (detectDuplicateEnabledEdges t).
Proof.
  unfold detectDuplicateEnabledEdges. apply (report_all (fun _ _ => True)); [done|]. intros pre e post k s _ _. split; [|done]. destruct (_ || _); [done|].
  destruct (s !! _); cbn; auto.
Qed.

Lemma clean_costs t : clean (validateParallelLinkCosts t).
Proof.
  unfold validateParallelLinkCosts. apply clean_for_each. intros i s _. apply clean_app. split; [auto|]. destruct (ps_costs s) as [|c0 [|c1 cs]]; auto.
Qed.

(** ** Reachability *)

(** The same node up to its address, with at least the capabilities of the first
    that reachability asks for; a client may lose the capability to be dialled. *)
Record more_capable (n n' : Node) : Prop := {
  mc_blank : blank_node n' = blank_node n;
  mc_public : HasPublicIP (Node_Capabilities n) = true -> HasPublicIP (Node_Capabilities n') = true;
  mc_inbound : is_client n = false -> CanAcceptInbound (Node_Capabilities n) = true -> CanAcceptInbound (Node_Capabilities n') = true }.

Lemma more_capable_fields n n' : more_capable n n' -> Node_ID n' = Node_ID n /\ Node_Role n' = Node_Role n.
Proof. intros [Hb _ _]. destruct n, n'. by injection Hb. Qed.

Lemma canBeDialed_mono n n' : more_capable n n' -> is_client n = false -> canBeDialed n' = false -> canBeDialed n = false.
Proof.
  intros Hm Hcl. destruct (more_capable_fields _ _ Hm) as [_ Hr]. destruct Hm as [_ Hp Hi]. unfold canBeDialed. rewrite Hr, !orb_false_iff. intros [[H1 H2] H3].
  split_and!; [|destruct (CanAcceptInbound (Node_Capabilities n)); [by rewrite (Hi Hcl eq_refl) in H2|done]|done]. destruct (HasPublicIP (Node_Capabilities n)); [by rewrite (Hp eq_refl) in H1|done].
Qed.

Section Reachable.
Context (t t' : Topology).
Hypothesis Hsk : skeleton t' = skeleton t.
Hypothesis Hcap : forall id, option_Forall2 more_capable (nodeMap t id) (nodeMap t' id).

Lemma same_edges : edge_ident <$> Topology_Edges t' = edge_ident <$> Topology_Edges t.
Proof. by injection Hsk. Qed.

Lemma endpoint_edge_same x y : hasEnabledEndpointEdge t' x y = hasEnabledEndpointEdge t x y.
Proof.
  unfold hasEnabledEndpointEdge. assert (forall es, existsb (fun e => Edge_IsEnabled e && String.eqb (Edge_FromNodeID e) x && String.eqb (Edge_ToNodeID e) y && non_empty (Edge_EndpointHost e)) es =
    existsb (fun e => Edge_IsEnabled e && String.eqb (Edge_FromNodeID e) x && String.eqb (Edge_ToNodeID e) y && non_empty (Edge_EndpointHost e)) (edge_ident <$> es)) as H.
  { induction es as [|e es IH]; [done|]. cbn [existsb fmap list_fmap]. rewrite IH. by destruct e. }
  by rewrite H, same_edges, <- H.
Qed.

Lemma nat_edge_mono i e e' : edge_ident e' = edge_ident e -> clean (client_edge_rules t i e) -> clean (nat_edge t i e) -> clean (nat_edge t' i e').
Proof.
  intros He. unfold nat_edge, client_edge_rules.
  assert (Edge_IsEnabled e' = Edge_IsEnabled e /\ Edge_FromNodeID e' = Edge_FromNodeID e /\ Edge_ToNodeID e' = Edge_ToNodeID e /\ Edge_Type e' = Edge_Type e /\ Edge_EndpointHost e' = Edge_EndpointHost e)
    as (-> & -> & -> & -> & ->) by (destruct e, e'; by injection He).
  destruct (Edge_IsEnabled e); cbn [negb]; [|done]. destruct (Hcap (Edge_FromNodeID e)) as [f f' Hf|]; [|done]. destruct (Hcap (Edge_ToNodeID e)) as [n n' Hn|]; [|done].
  rewrite !clean_app, !clean_when_error, !clean_when. intros [Hcn Hcf] [_ H]. split; [auto|]. intros Hc. rewrite !andb_true_iff, !negb_true_iff in Hc. destruct Hc as [[[H1 H2] H3] H4].
  match goal with |- clean (if ?b then _ else _) => destruct b eqn:Hd end; [|auto]. rewrite !andb_true_iff, !negb_true_iff in Hd. destruct Hd as (Hrev & Hdf & Hdn). exfalso. rewrite endpoint_edge_same in Hrev.
  assert (is_client f = false) as Hcf'.
  { destruct (is_client f); [|done]. specialize (Hcf eq_refl). rewrite !clean_app, !clean_when_error in Hcf. destruct Hcf as (_ & E). by rewrite H4 in E. }
  destruct (more_capable_fields _ _ Hf) as [If _]. destruct (more_capable_fields _ _ Hn) as [In _]. rewrite If, In in Hrev.
  pose proof (canBeDialed_mono _ _ Hf Hcf' Hdf) as Df. pose proof (canBeDialed_mono _ _ Hn Hcn Hdn) as Dn. rewrite Hrev, Df, Dn in H. cbn [negb andb] in H.
  apply (proj1 (clean_AddError _ _ _)) in H; [done|]. unfold canBeDialed in Df, Dn. rewrite !orb_false_iff in Df, Dn. destruct Df as [[-> _] _], Dn as [[-> _] _]. by rewrite H3, H4.
Qed.

Lemma reachability_mono : clean (validateClientEdges t) -> clean (validateNATReachability t) -> clean (validateNATReachability t').
Proof.
  unfold validateNATReachability, validateClientEdges. rewrite !clean_app, !clean_for_each. intros [Hc _] [H _]. split; [|intros i n _; auto]. intros i e' Hi.
  pose proof (f_equal (fun l => l !! i) same_edges) as Hs. cbv beta in Hs. rewrite !list_lookup_fmap, Hi in Hs. destruct (Topology_Edges t !! i) as [e|] eqn:E; [|done].
  injection Hs as Hs. eapply nat_edge_mono; [done|by apply Hc|by apply H].
Qed.
End Reachable.
