(* ===== verification/Schema.v ===== *)
(** * Schema validation ([internal/validator/schema.go])

    [ValidateSchema] reports findings and fills two defaults in place (an empty
    routing mode becomes "babel", an empty transport "udp"), so it returns the
    topology it leaves behind with its findings.  The regular expressions are
    byte predicates: their classes are ASCII, so a byte of any other rune is
    outside them.  [probepolicy.Validate] is a parameter of this file. *)

From stdpp Require Import base gmap strings list sets.
From Stdlib Require Import ZArith Lia Ascii.
From S2P Require Import Prelude GoLib GoNet Model LinkID PeersAlloc Findings Semantic.

Local Open Scope Z_scope.

(** ** Character classes *)

Definition is_alnum (c : ascii) : bool := is_lower c || is_upper c || is_digit c.
Definition one_of (l : list ascii) (c : ascii) : bool := bool_decide (c ∈ l).

(** [^[class]+$] *)
Definition class_plus (p : ascii -> bool) (s : string) : bool := non_empty s && str_forall p s.

Definition is_base64 (c : ascii) : bool := is_alnum c || one_of ["+"; "/"]%char c.

(** [^[A-Za-z0-9+/]{43}=$] *)
Definition ValidWGPublicKey (s : string) : bool :=
  Nat.eqb (String.length s) 44 && str_forall is_base64 (str_take 43 s) && has_suffix "=" s.

Definition nodeNameCharset : string -> bool := class_plus (fun c => is_alnum c || one_of [" "; "."; "_"; "-"]%char c).
Definition nodeIDCharset : string -> bool := class_plus (fun c => is_alnum c || one_of ["."; "_"; "-"]%char c).
Definition mimicEgressIfacePattern (s : string) : bool :=
  nodeIDCharset s && (String.length s <=? 15)%nat.
Definition sshFieldCharset : string -> bool := class_plus (fun c => is_alnum c || one_of ["."; "_"; ":"; "@"; "-"]%char c).
Definition sshKeyPathCharset : string -> bool :=
  class_plus (fun c => is_alnum c || one_of ["."; "_"; ":"; "@"; "/"; "\"; "~"; " "; "-"]%char c).
Definition endpointHostCharset : string -> bool :=
  class_plus (fun c => is_alnum c || one_of ["."; "_"; ":"; "["; "]"; "-"]%char c).

Definition is_hex (c : ascii) : bool := match hex_val c with Some _ => true | None => false end.

(** [^([0-9A-Fa-f]{2}:){5}[0-9A-Fa-f]{2}$] *)
Fixpoint mac_groups (n : nat) (s : string) : bool :=
  match s with
  | String a (String b rest) =>
      is_hex a && is_hex b &&
      match n, rest with
      | O, EmptyString => true
      | S k, String ":"%char rest' => mac_groups k rest'
      | _, _ => false
      end
  | _ => false
  end.
Definition routerIDMAC48 (s : string) : bool := mac_groups 5 s.

Definition mtuMinimum : Z := 576.
Definition mtuMaximum : Z := 65535.

Definition member (s : string) (l : list string) : bool := bool_decide (s ∈ l).

(** ** Project and domains *)

Definition validateProjectSchema (topo : Topology) : findings :=
  when (String.eqb (Project_ID (Topology_Project topo)) "") (AddError "project.id" CodeProjectIDRequired []) ++
  when (String.eqb (Project_Name (Topology_Project topo)) "") (AddError "project.name" CodeProjectNameRequired []).

Definition set_RoutingMode (v : string) (d : Domain) : Domain :=
  match d with mkDomain a b c e f _ g h => mkDomain a b c e f v g h end.

Definition domain_cidr_rules (prefix : string) (d : Domain) : findings :=
  if String.eqb (Domain_CIDR d) "" then AddError (prefix +:+ ".cidr") CodeDomainCIDREmpty []
  else
    match ParseCIDR (Domain_CIDR d) with
    | None => AddError (prefix +:+ ".cidr") CodeDomainCIDRInvalid [("cidr", PStr (Domain_CIDR d))]
    | Some ipNet =>
        match net_to4 ipNet with
        | None => AddError (prefix +:+ ".cidr") CodeDomainCIDRNotIPv4 [("cidr", PStr (Domain_CIDR d))]
        | Some _ => when (net_ones ipNet <? 8) (AddError (prefix +:+ ".cidr") CodeDomainCIDRTooLarge [("cidr", PStr (Domain_CIDR d))])
        end
    end.

Definition reserved_range_rules (prefix : string) (j : nat) (rr : string) : findings :=
  let rrPrefix := (prefix +:+ at_index ".reserved_ranges" j)%string in
  match ParseCIDR rr with
  | Some rNet =>
      match net_to4 rNet with
      | None => AddError rrPrefix CodeDomainReservedRangeNotIPv4 [("cidr", PStr rr)]
      | Some _ => []
      end
  | None =>
      match ParseIP rr with
      | None => AddError rrPrefix CodeDomainReservedRangeInvalid [("value", PStr rr)]
      | Some ip => match To4 ip with
                   | None => AddError rrPrefix CodeDomainReservedAddressNotIPv4 [("ip", PStr rr)]
                   | Some _ => []
                   end
      end
  end.

Definition transit_cidr_rules (prefix : string) (d : Domain) : findings :=
  let cidr := Domain_TransitCIDR d in
  let field := (prefix +:+ ".transit_cidr")%string in
  if String.eqb cidr "" then []
  else
    match ParseCIDR cidr with
    | None => AddError field CodeDomainTransitCIDRInvalid [("cidr", PStr cidr)]
    | Some tNet =>
        match net_to4 tNet with
        | None => AddError field CodeDomainTransitCIDRNotIPv4 [("cidr", PStr cidr)]
        | Some _ =>
            if net_ones tNet <? 8 then AddError field CodeDomainTransitCIDRTooLarge [("cidr", PStr cidr)]
            else when (30 <? net_ones tNet) (AddError field CodeDomainTransitCIDRTooSmall [("cidr", PStr cidr)])
        end
    end.

(** One domain: the domain with its routing mode defaulted, and its findings. *)
Definition domain_rules (i : nat) (d0 : Domain) : Domain * findings :=
  let prefix := at_index "domains" i in
  let d := if String.eqb (Domain_RoutingMode d0) "" then set_RoutingMode "babel" d0 else d0 in
  let mode := Domain_RoutingMode d in
  (d,
   when (String.eqb (Domain_ID d) "") (AddError (prefix +:+ ".id") CodeDomainIDRequired []) ++
   when (String.eqb (Domain_Name d) "") (AddError (prefix +:+ ".name") CodeDomainNameRequired []) ++
   domain_cidr_rules prefix d ++
   when (non_empty (Domain_AllocationMode d) && negb (member (Domain_AllocationMode d) ["auto"; "manual"]))
     (AddError (prefix +:+ ".allocation_mode") CodeDomainAllocationModeInvalid [("mode", PStr (Domain_AllocationMode d))]) ++
   (if String.eqb mode "babel" then []
    else if String.eqb mode "static" || String.eqb mode "none" then
      AddError (prefix +:+ ".routing_mode") CodeDomainRoutingModeUnimplemented [("mode", PStr mode)]
    else AddError (prefix +:+ ".routing_mode") CodeDomainRoutingModeInvalid [("mode", PStr mode)]) ++
   for_each (reserved_range_rules prefix) (Domain_ReservedRanges d) ++
   transit_cidr_rules prefix d).

Definition validateDomainsSchema (topo : Topology) : list Domain * findings :=
  if Nat.eqb (length (Topology_Domains topo)) 0 then ([], AddError "domains" CodeDomainNoneDefined [])
  else
    let rs := imap domain_rules (Topology_Domains topo) in
    (fst <$> rs, concat (snd <$> rs)).

(** ** Nodes *)

Definition ValidateDevicePolicy (p : TelemetryDevicePolicy) : option pval :=
  if String.eqb (TelemetryDevicePolicy_Mode p) "all-eligible-v1" then None
  else Some (PWithQuoted "unsupported telemetry device mode " (TelemetryDevicePolicy_Mode p)).

Section Nodes.
(** [probepolicy.Validate]: the error text, if any. *)
Variable probepolicy_Validate : list TelemetryProbe -> option string.

Definition telemetry_rules (prefix : string) (node : Node) : findings :=
  when (negb (Nat.eqb (length (Node_TelemetryProbes node)) 0))
    (if IsManual node then
       AddError (prefix +:+ ".telemetry_probes") CodeNodeTelemetryProbesInvalid
         [("detail", PStr "active probes require an agent-managed source node")]
     else match probepolicy_Validate (Node_TelemetryProbes node) with
          | Some err => AddError (prefix +:+ ".telemetry_probes") CodeNodeTelemetryProbesInvalid [("detail", PStr err)]
          | None => []
          end) ++
  match Node_TelemetryDevices node with
  | None => []
  | Some p =>
      if IsManual node then
        AddError (prefix +:+ ".telemetry_devices") CodeNodeTelemetryDevicesInvalid
          [("detail", PStr "automatic device telemetry requires an agent-managed source node")]
      else match ValidateDevicePolicy p with
           | Some err => AddError (prefix +:+ ".telemetry_devices") CodeNodeTelemetryDevicesInvalid [("detail", err)]
           | None => []
           end
  end.

Definition node_identity_rules (prefix : string) (node : Node) : findings :=
  (if String.eqb (Node_ID node) "" then AddError (prefix +:+ ".id") CodeNodeIDRequired []
   else if String.eqb (Node_ID node) "." || String.eqb (Node_ID node) ".." || negb (nodeIDCharset (Node_ID node)) then
     AddError (prefix +:+ ".id") CodeNodeIDIllegalChars [("id", PQuoted (Node_ID node))]
   else when (negb (ValidPortableNodeID (Node_ID node)))
     (AddError (prefix +:+ ".id") CodeNodeIDNotPortable
        [("id", PQuoted (Node_ID node)); ("max", PStr (strconv_Itoa (Z.of_nat MaxPortableNodeIDLength)))])) ++
  (if String.eqb (Node_Name node) "" then AddError (prefix +:+ ".name") CodeNodeNameRequired []
   else when (String.eqb (Node_Name node) "." || String.eqb (Node_Name node) ".." || negb (nodeNameCharset (Node_Name node)))
     (AddError (prefix +:+ ".name") CodeNodeNameIllegalChars [("name", PQuoted (Node_Name node))])) ++
  when (String.eqb (Node_DomainID node) "") (AddError (prefix +:+ ".domain_id") CodeNodeDomainIDRequired []) ++
  (if String.eqb (Node_Role node) "" then AddError (prefix +:+ ".role") CodeNodeRoleEmpty []
   else when (negb (member (Node_Role node) ["peer"; "router"; "relay"; "gateway"; "client"]))
     (AddError (prefix +:+ ".role") CodeNodeRoleInvalid [("role", PStr (Node_Role node))])) ++
  when (non_empty (Node_DeploymentMode node) && negb (String.eqb (Node_DeploymentMode node) "managed") &&
        negb (String.eqb (Node_DeploymentMode node) DeploymentManual))
    (AddError (prefix +:+ ".deployment_mode") CodeNodeDeploymentModeInvalid [("mode", PStr (Node_DeploymentMode node))]).

Definition quoted_class_rule (prefix field code param : string) (charset : string -> bool) (value : string) : findings :=
  when (non_empty value && negb (charset value)) (AddError (prefix +:+ "." +:+ field) code [(param, PQuoted value)]).

Definition extra_prefix_rules (prefix : string) (j : nat) (cidr : string) : findings :=
  let epPrefix := (prefix +:+ at_index ".extra_prefixes" j)%string in
  match ParseCIDR cidr with
  | None => AddError epPrefix CodeNodeExtraPrefixInvalid [("prefix", PStr cidr)]
  | Some epNet => match net_to4 epNet with
                  | None => AddError epPrefix CodeNodeExtraPrefixNotIPv4 [("prefix", PStr cidr)]
                  | Some _ => []
                  end
  end.

Definition router_id_ok (id : string) : bool :=
  routerIDMAC48 id ||
  match ParseIP id with
  | Some ip => match To4 ip with Some _ => true | None => false end
  | None => false
  end.

Definition node_rules (i : nat) (node : Node) : findings :=
  let prefix := at_index "nodes" i in
  node_identity_rules prefix node ++
  telemetry_rules prefix node ++
  when (non_empty (Node_Platform node) && negb (lower_is (Node_Platform node) "debian" || lower_is (Node_Platform node) "ubuntu"))
    (AddWarning (prefix +:+ ".platform") CodeNodePlatformUnsupported [("platform", PStr (Node_Platform node))]) ++
  when (non_empty (Node_XDPMode node) && negb (member (Node_XDPMode node) ["skb"; "native"]))
    (AddError (prefix +:+ ".xdp_mode") CodeNodeXDPModeInvalid [("mode", PStr (Node_XDPMode node))]) ++
  when (non_empty (Node_MimicEgressInterface node) && negb (mimicEgressIfacePattern (Node_MimicEgressInterface node)))
    (AddError (prefix +:+ ".mimic_egress_interface") CodeNodeMimicEgressInterfaceInvalid
       [("iface", PStr (Node_MimicEgressInterface node))]) ++
  when (non_empty (Node_OverlayIP node) && match ParseIP (Node_OverlayIP node) with None => true | Some _ => false end)
    (AddError (prefix +:+ ".overlay_ip") CodeNodeOverlayIPInvalid [("ip", PStr (Node_OverlayIP node))]) ++
  quoted_class_rule prefix "wireguard_public_key" CodeNodeWGPublicKeyInvalid "key" ValidWGPublicKey (Node_WireGuardPublicKey node) ++
  when (negb (Node_MTU node =? 0) && ((Node_MTU node <? mtuMinimum) || (mtuMaximum <? Node_MTU node)))
    (AddError (prefix +:+ ".mtu") CodeNodeMTUOutOfRange
       [("mtu", PStr (strconv_Itoa (Node_MTU node))); ("low", PStr (strconv_Itoa mtuMinimum)); ("high", PStr (strconv_Itoa mtuMaximum))]) ++
  when (negb (Node_SSHPort node =? 0) && ((Node_SSHPort node <? 1) || (65535 <? Node_SSHPort node)))
    (AddError (prefix +:+ ".ssh_port") CodeNodeSSHPortOutOfRange [("port", PStr (strconv_Itoa (Node_SSHPort node)))]) ++
  quoted_class_rule prefix "router_id" CodeNodeRouterIDInvalid "id" router_id_ok (Node_RouterID node) ++
  for_each (extra_prefix_rules prefix) (Node_ExtraPrefixes node) ++
  quoted_class_rule prefix "ssh_host" CodeNodeSSHHostIllegalChars "host" sshFieldCharset (Node_SSHHost node) ++
  quoted_class_rule prefix "ssh_alias" CodeNodeSSHAliasIllegalChars "alias" sshFieldCharset (Node_SSHAlias node) ++
  quoted_class_rule prefix "ssh_user" CodeNodeSSHUserIllegalChars "user" sshFieldCharset (Node_SSHUser node) ++
  quoted_class_rule prefix "ssh_key_path" CodeNodeSSHKeyPathIllegalChars "path" sshKeyPathCharset (Node_SSHKeyPath node) ++
  for_each (fun k ep =>
    quoted_class_rule (prefix +:+ at_index ".public_endpoints" k) "host" CodeNodePublicEndpointHostIllegalChars "host"
      endpointHostCharset (PublicEndpoint_Host ep)) (Node_PublicEndpoints node).

Definition validateNodesSchema (topo : Topology) : findings := for_each node_rules (Topology_Nodes topo).
End Nodes.

(** ** Edges *)

Definition set_Transport (v : string) (e : Edge) : Edge :=
  match e with
  | mkEdge a b c d f g h i j k _ m n o q r s t u w x => mkEdge a b c d f g h i j k v m n o q r s t u w x
  end.

Definition edge_rules (i : nat) (e0 : Edge) : Edge * findings :=
  let prefix := at_index "edges" i in
  let e := if String.eqb (Edge_Transport e0) "" then set_Transport "udp" e0 else e0 in
  (e,
   when (String.eqb (Edge_ID e) "") (AddError (prefix +:+ ".id") CodeEdgeIDRequired []) ++
   when (String.eqb (Edge_FromNodeID e) "") (AddError (prefix +:+ ".from_node_id") CodeEdgeFromNodeIDRequired []) ++
   when (String.eqb (Edge_ToNodeID e) "") (AddError (prefix +:+ ".to_node_id") CodeEdgeToNodeIDRequired []) ++
   (if String.eqb (Edge_Type e) "" then AddError (prefix +:+ ".type") CodeEdgeTypeEmpty []
    else when (negb (member (Edge_Type e) ["direct"; "public-endpoint"; "relay-path"; "candidate"]))
      (AddError (prefix +:+ ".type") CodeEdgeTypeInvalid [("type", PStr (Edge_Type e))])) ++
   when (negb (member (Edge_Transport e) ["udp"; "tcp"]))
     (AddError (prefix +:+ ".transport") CodeEdgeTransportInvalid [("transport", PStr (Edge_Transport e))]) ++
   when (negb (member (Edge_MimicFallback e) [""; "udp"; "none"]))
     (AddError (prefix +:+ ".mimic_fallback") CodeEdgeMimicFallbackInvalid [("policy", PStr (Edge_MimicFallback e))]) ++
   when ((Edge_EndpointPort e <? 0) || (65535 <? Edge_EndpointPort e))
     (AddError (prefix +:+ ".endpoint_port") CodeEdgeEndpointPortInvalid [("port", PStr (strconv_Itoa (Edge_EndpointPort e)))]) ++
   when ((0 <? Edge_EndpointPort e) && String.eqb (Edge_EndpointHost e) "")
     (AddError (prefix +:+ ".endpoint_port") CodeEdgeEndpointPortWithoutHost []) ++
   when (non_empty (Edge_EndpointHost e) && negb (endpointHostCharset (Edge_EndpointHost e)))
     (AddError (prefix +:+ ".endpoint_host") CodeEdgeEndpointHostIllegalChars [("host", PQuoted (Edge_EndpointHost e))]) ++
   when (non_empty (Edge_Role e) && negb (String.eqb (Edge_Role e) EdgeRolePrimary) && negb (String.eqb (Edge_Role e) EdgeRoleBackup))
     (AddError (prefix +:+ ".role") CodeEdgeRoleInvalid [("role", PStr (Edge_Role e))]) ++
   when (non_empty (Edge_LinkDirection e) && negb (String.eqb (Edge_LinkDirection e) EdgeLinkDirectionBoth) &&
         negb (String.eqb (Edge_LinkDirection e) EdgeLinkDirectionForward))
     (AddError (prefix +:+ ".link_direction") CodeEdgeLinkDirectionInvalid [("direction", PStr (Edge_LinkDirection e))]) ++
   when (non_empty (Edge_FromNodeID e) && String.eqb (Edge_FromNodeID e) (Edge_ToNodeID e))
     (AddError prefix CodeEdgeSelfLoop [])).

Definition validateEdgesSchema (topo : Topology) : list Edge * findings :=
  let rs := imap edge_rules (Topology_Edges topo) in
  (fst <$> rs, concat (snd <$> rs)).

(** ** The whole pass *)

Definition bounds_findings (topo : Topology) : findings :=
  let count {A} (l : list A) := PStr (strconv_Itoa (Z.of_nat (length l))) in
  let maxp (n : nat) := PStr (strconv_Itoa (Z.of_nat n)) in
  when (CurrentAllocSchemaVersion <? Topology_AllocSchemaVersion topo)
    (AddError "alloc_schema_version" CodeTopologySchemaVersionUnsupported
       [("version", PStr (strconv_Itoa (Topology_AllocSchemaVersion topo))); ("max", PStr (strconv_Itoa CurrentAllocSchemaVersion))]) ++
  when (maxTopologyNodes <? length (Topology_Nodes topo))%nat
    (AddError "nodes" CodeTopologyTooManyNodes [("count", count (Topology_Nodes topo)); ("max", maxp maxTopologyNodes)]) ++
  when (maxTopologyEdges <? length (Topology_Edges topo))%nat
    (AddError "edges" CodeTopologyTooManyEdges [("count", count (Topology_Edges topo)); ("max", maxp maxTopologyEdges)]) ++
  when (maxTopologyDomains <? length (Topology_Domains topo))%nat
    (AddError "domains" CodeTopologyTooManyDomains [("count", count (Topology_Domains topo)); ("max", maxp maxTopologyDomains)]) ++
  for_each (fun i d =>
    when (maxReservedRangesPerDomain <? length (Domain_ReservedRanges d))%nat
      (AddError (at_index "domains" i +:+ ".reserved_ranges") CodeTopologyTooManyReservedRanges
         [("count", count (Domain_ReservedRanges d)); ("max", maxp maxReservedRangesPerDomain)])) (Topology_Domains topo).

Definition ValidateSchema (probepolicy_Validate : list TelemetryProbe -> option string) (topo : Topology)
  : Topology * findings :=
  if topologyExceedsBounds topo then (topo, bounds_findings topo)
  else
    let '(domains, rd) := validateDomainsSchema topo in
    let '(edges, re) := validateEdgesSchema topo in
    (mkTopology (Topology_Project topo) domains (Topology_Nodes topo) edges
       (Topology_RoutePolicies topo) (Topology_AllocSchemaVersion topo),
     validateProjectSchema topo ++ rd ++ validateNodesSchema probepolicy_Validate topo ++ re).
