(* ===== verification/SchemaProps.v ===== *)
(** * What a clean schema report guarantees

    [schema_ok] collects the facts the later passes rely on; [ValidateSchema]
    establishes them on the topology it leaves behind, and running it again
    changes neither the topology nor the report. *)

From stdpp Require Import base gmap strings list sets.
From Stdlib Require Import ZArith Lia.
From S2P Require Import Prelude GoLib GoNet Model LinkID PeersAlloc PeersAllocProps Findings Semantic Schema.

Local Open Scope Z_scope.

(** ** Reading a clean report *)

Lemma clean_if_error (b : bool) field code ps r :
  clean (if b then AddError field code ps else r) <-> b = false /\ clean r.
Proof. destruct b; [rewrite clean_AddError|]; naive_solver. Qed.

Lemma member_true s l : member s l = true <-> s ∈ l.
Proof. unfold member. apply bool_decide_eq_true. Qed.

#[export] Hint Rewrite @clean_if_error : yaog.

(** Splits a clean report into the conditions of its rules. *)
Ltac split_clean H := rewrite ?clean_app, ?clean_if_error, ?clean_when_error in H; destruct_and? H.

Lemma clean_imap_pairs {A B} (f : nat -> A -> B * findings) xs :
  clean (concat (snd <$> imap f xs)) <-> forall i x, xs !! i = Some x -> clean (f i x).2.
Proof.
  rewrite clean_concat. split.
  - intros H i x Hx. apply H. apply list_elem_of_fmap. exists (f i x). split; [done|]. by apply elem_of_lookup_imap_2.
  - intros H r (y & -> & (i & x & -> & Hx)%elem_of_lookup_imap)%list_elem_of_fmap. by apply H.
Qed.

Lemma elem_of_imap_pairs {A B C} (f : nat -> A -> B * C) xs y :
  y ∈ fst <$> imap f xs -> exists i x, xs !! i = Some x /\ y = (f i x).1.
Proof. intros (p & -> & (i & x & -> & Hx)%elem_of_lookup_imap)%list_elem_of_fmap. eauto. Qed.

(** ** The guarantees *)

(** An IPv4 network with a prefix length in the given range. *)
Definition ipv4_net (cidr : string) (low high : Z) : Prop :=
  exists n base, ParseCIDR cidr = Some n /\ net_to4 n = Some base /\ low <= net_ones n <= high.

Record edge_schema_ok (e : Edge) : Prop := {
  eso_id : Edge_ID e <> "";
  eso_from : Edge_FromNodeID e <> "";
  eso_to : Edge_ToNodeID e <> "";
  eso_self : Edge_FromNodeID e <> Edge_ToNodeID e;
  eso_transport : Edge_Transport e ∈ ["udp"; "tcp"]%string;
  eso_port : 0 <= Edge_EndpointPort e <= 65535;
  eso_host : 0 < Edge_EndpointPort e -> Edge_EndpointHost e <> "";
  eso_charset : Edge_EndpointHost e <> "" -> endpointHostCharset (Edge_EndpointHost e) = true }.

Record domain_schema_ok (d : Domain) : Prop := {
  dso_id : Domain_ID d <> "";
  dso_mode : Domain_RoutingMode d = "babel";
  dso_cidr : exists n base, ParseCIDR (Domain_CIDR d) = Some n /\ net_to4 n = Some base /\ 8 <= net_ones n;
  dso_transit : Domain_TransitCIDR d <> "" -> ipv4_net (Domain_TransitCIDR d) 8 30 }.

Record node_schema_ok (n : Node) : Prop := {
  nso_id : ValidPortableNodeID (Node_ID n) = true;
  nso_name : Node_Name n <> "";
  nso_domain : Node_DomainID n <> "";
  nso_role : Node_Role n ∈ ["peer"; "router"; "relay"; "gateway"; "client"]%string;
  nso_mtu : Node_MTU n <> 0 -> mtuMinimum <= Node_MTU n <= mtuMaximum;
  nso_charset : nodeNameCharset (Node_Name n) = true;
  nso_overlay : Node_OverlayIP n <> "" -> is_Some (ParseIP (Node_OverlayIP n));
  nso_key : Node_WireGuardPublicKey n <> "" -> ValidWGPublicKey (Node_WireGuardPublicKey n) = true;
  nso_endpoints : forall ep, ep ∈ Node_PublicEndpoints n -> PublicEndpoint_Host ep <> "" -> endpointHostCharset (PublicEndpoint_Host ep) = true }.

Record schema_ok (t : Topology) : Prop := {
  so_bounds : topologyExceedsBounds t = false;
  so_domains : forall d, d ∈ Topology_Domains t -> domain_schema_ok d;
  so_nodes : forall n, n ∈ Topology_Nodes t -> node_schema_ok n;
  so_edges : forall e, e ∈ Topology_Edges t -> edge_schema_ok e }.

(** ** One rule at a time *)

Lemma edge_rules_clean i e : clean (edge_rules i e).2 -> edge_schema_ok (edge_rules i e).1.
Proof.
  unfold edge_rules. cbn [fst snd]. set (e' := if String.eqb (Edge_Transport e) "" then _ else e). clearbody e'.
  intros H. split_clean H.
  repeat match goal with X : (_ =? _)%string = false |- _ => apply String.eqb_neq in X end.
  split; try done.
  - match goal with X : non_empty _ && _ = false |- _ => revert X end.
    match goal with X : Edge_FromNodeID e' <> "" |- _ => rewrite (proj2 (non_empty_true _) X) end. cbn.
    by intros ?%String.eqb_neq.
  - apply member_true. by apply negb_false_iff.
  - match goal with X : (_ <? 0) || _ = false |- _ => apply orb_false_iff in X as [X1%Z.ltb_ge X2%Z.ltb_ge] end. lia.
  - intros Hp%Z.ltb_lt. match goal with X : (0 <? _) && _ = false |- _ => rewrite Hp in X; cbn in X; by apply String.eqb_neq in X end.
  - intros Hne%non_empty_true. match goal with X : non_empty (Edge_EndpointHost e') && _ = false |- _ => rewrite Hne in X; by apply negb_false_iff in X end.
Qed.

Lemma domain_cidr_rules_clean prefix d :
  clean (domain_cidr_rules prefix d) ->
  exists n base, ParseCIDR (Domain_CIDR d) = Some n /\ net_to4 n = Some base /\ 8 <= net_ones n.
Proof.
  unfold domain_cidr_rules. rewrite clean_if_error. intros [_ H].
  destruct (ParseCIDR _) as [n|]; [|by apply clean_AddError in H].
  destruct (net_to4 n) as [b|] eqn:E; [|by apply clean_AddError in H].
  apply clean_when_error, Z.ltb_ge in H. eauto.
Qed.

Lemma transit_cidr_rules_clean prefix d :
  clean (transit_cidr_rules prefix d) -> Domain_TransitCIDR d <> "" -> ipv4_net (Domain_TransitCIDR d) 8 30.
Proof.
  unfold transit_cidr_rules. intros H Hne%String.eqb_neq. rewrite Hne in H.
  destruct (ParseCIDR _) as [n|] eqn:P; [|by apply clean_AddError in H].
  destruct (net_to4 n) as [b|] eqn:E; [|by apply clean_AddError in H].
  rewrite clean_if_error, clean_when_error in H. destruct H as [H1%Z.ltb_ge H2%Z.ltb_ge].
  exists n, b. auto.
Qed.

Lemma domain_rules_clean i d : clean (domain_rules i d).2 -> domain_schema_ok (domain_rules i d).1.
Proof.
  unfold domain_rules. cbn [fst snd]. set (d' := if String.eqb (Domain_RoutingMode d) "" then _ else d). clearbody d'.
  rewrite !clean_app, !clean_when_error. intros (H1%String.eqb_neq & H2 & Hc & H4 & Hm & _ & Ht).
  split; [done| | by eapply domain_cidr_rules_clean | by eapply transit_cidr_rules_clean].
  destruct (String.eqb_spec (Domain_RoutingMode d') "babel"); [done|].
  destruct (_ || _) in Hm; by apply clean_AddError in Hm.
Qed.

Lemma node_identity_clean prefix n :
  clean (node_identity_rules prefix n) ->
  ValidPortableNodeID (Node_ID n) = true /\ Node_Name n <> "" /\ Node_DomainID n <> "" /\
  Node_Role n ∈ ["peer"; "router"; "relay"; "gateway"; "client"]%string /\ nodeNameCharset (Node_Name n) = true.
Proof.
  unfold node_identity_rules. rewrite !clean_app, !clean_if_error, !clean_when_error.
  intros ((_ & _ & H1%negb_false_iff) & (H2%String.eqb_neq & [_ H5%negb_false_iff]%orb_false_iff) & H3%String.eqb_neq & (_ & H4%negb_false_iff%member_true) & _).
  auto.
Qed.

Lemma quoted_class_clean prefix field code param charset value :
  clean (quoted_class_rule prefix field code param charset value) -> value <> "" -> charset value = true.
Proof. unfold quoted_class_rule. rewrite clean_when_error. intros H Hne%non_empty_true. rewrite Hne in H. by apply negb_false_iff in H. Qed.

Lemma node_rules_clean pp i n : clean (node_rules pp i n) -> node_schema_ok n.
Proof.
  unfold node_rules. rewrite !clean_app.
  intros ((? & ? & ? & ? & ?)%node_identity_clean & _ & _ & _ & _ & Hip & Hkey & Hmtu & _ & _ & _ & _ & _ & _ & _ & Hep). split; try done.
  - intros Hne%Z.eqb_neq. rewrite clean_when_error, Hne in Hmtu. cbn in Hmtu.
    apply orb_false_iff in Hmtu as [?%Z.ltb_ge ?%Z.ltb_ge]. done.
  - intros Hne%non_empty_true. rewrite clean_when_error, Hne in Hip. destruct (ParseIP _); [eauto|done].
  - by eapply quoted_class_clean.
  - intros ep (k & Hk)%list_elem_of_lookup. eapply quoted_class_clean. by apply (proj1 (clean_for_each _ _) Hep k ep Hk).
Qed.

(** ** Bounds *)

Lemma bounds_findings_error topo : topologyExceedsBounds topo = true -> ~ clean (bounds_findings topo).
Proof.
  unfold topologyExceedsBounds, bounds_findings. rewrite !clean_app, !clean_when_error, clean_for_each.
  intros H (H1 & H2 & H3 & H4 & H5). rewrite H1, H2, H3, H4 in H. cbn [orb] in H.
  apply existsb_exists in H as (d & Hd%list_elem_of_In & Hb). apply list_elem_of_lookup in Hd as [i Hi].
  specialize (H5 i d Hi). rewrite clean_when_error in H5. cbv beta in *. by rewrite Hb in H5.
Qed.

Lemma imap_length_fst {A B C} (f : nat -> A -> B * C) xs : length (fst <$> imap f xs) = length xs.
Proof. by rewrite length_fmap, length_imap. Qed.

Lemma domain_rules_ranges i d : Domain_ReservedRanges (domain_rules i d).1 = Domain_ReservedRanges d.
Proof. unfold domain_rules. cbn [fst]. destruct (String.eqb _ _); by destruct d. Qed.

Lemma existsb_imap_fst {A C} (p : A -> bool) (f : nat -> A -> A * C) xs :
  (forall i x, p (f i x).1 = p x) -> existsb p (fst <$> imap f xs) = existsb p xs.
Proof.
  intros Hp. revert f Hp. induction xs as [|x xs IH]; intros f Hp; [done|].
  rewrite imap_cons. cbn. rewrite Hp. f_equal. apply (IH (f ∘ S)). intros. apply Hp.
Qed.

(** The topology schema validation leaves behind, within the bounds. *)
Definition defaulted (topo : Topology) : Topology :=
  mkTopology (Topology_Project topo) (fst <$> imap domain_rules (Topology_Domains topo)) (Topology_Nodes topo)
    (fst <$> imap edge_rules (Topology_Edges topo)) (Topology_RoutePolicies topo) (Topology_AllocSchemaVersion topo).

Lemma defaulted_bounds topo : topologyExceedsBounds (defaulted topo) = topologyExceedsBounds topo.
Proof.
  unfold topologyExceedsBounds, defaulted. cbn [Topology_AllocSchemaVersion Topology_Nodes Topology_Edges Topology_Domains].
  rewrite !imap_length_fst. f_equal. apply existsb_imap_fst. intros i d. by rewrite domain_rules_ranges.
Qed.

Lemma ValidateSchema_unfold pp topo :
  ValidateSchema pp topo =
  if topologyExceedsBounds topo then (topo, bounds_findings topo)
  else (defaulted topo, validateProjectSchema topo ++ (validateDomainsSchema topo).2 ++
                        validateNodesSchema pp topo ++ (validateEdgesSchema topo).2).
Proof.
  unfold ValidateSchema, defaulted, validateDomainsSchema, validateEdgesSchema.
  destruct (topologyExceedsBounds topo); [done|]. destruct (Topology_Domains topo); done.
Qed.

(** ** Defaults are stable *)

Lemma imap_fst_stable {A C} (f : nat -> A -> A * C) xs :
  (forall i x, f i (f i x).1 = f i x) -> imap f (fst <$> imap f xs) = imap f xs.
Proof.
  revert f. induction xs as [|x xs IH]; intros f Hf; [done|].
  rewrite imap_cons. cbn. rewrite Hf. f_equal. apply (IH (f ∘ S)). intros. apply Hf.
Qed.

Lemma edge_rules_stable i e : edge_rules i (edge_rules i e).1 = edge_rules i e.
Proof.
  unfold edge_rules. cbn [fst]. destruct (String.eqb (Edge_Transport e) "") eqn:E; [|by rewrite E].
  replace (String.eqb (Edge_Transport (set_Transport "udp" e)) "") with false by (by destruct e). done.
Qed.

Lemma domain_rules_stable i d : domain_rules i (domain_rules i d).1 = domain_rules i d.
Proof.
  unfold domain_rules. cbn [fst]. destruct (String.eqb (Domain_RoutingMode d) "") eqn:E; [|by rewrite E].
  replace (String.eqb (Domain_RoutingMode (set_RoutingMode "babel" d)) "") with false by (by destruct d). done.
Qed.

(** ** The pass as a whole *)

Lemma ValidateSchema_ok pp topo t1 fs :
  ValidateSchema pp topo = (t1, fs) -> IsValid fs = true -> schema_ok t1.
Proof.
  rewrite ValidateSchema_unfold, IsValid_clean. destruct (topologyExceedsBounds topo) eqn:B; intros [= <- <-] H.
  - by apply bounds_findings_error in H.
  - rewrite !clean_app in H. destruct H as (_ & Hd & Hn & He). split.
    + by rewrite defaulted_bounds.
    + intros d (i & d0 & Hi & ->)%elem_of_imap_pairs. apply domain_rules_clean. unfold validateDomainsSchema in Hd.
      destruct (Nat.eqb_spec (length (Topology_Domains topo)) 0); [by apply clean_AddError in Hd|].
      by apply (proj1 (clean_imap_pairs domain_rules _) Hd).
    + intros n (i & Hi)%list_elem_of_lookup. eapply (node_rules_clean pp). by eapply (proj1 (clean_for_each (node_rules pp) _) Hn).
    + intros e (i & e0 & Hi & ->)%elem_of_imap_pairs. apply edge_rules_clean. unfold validateEdgesSchema in He.
      by apply (proj1 (clean_imap_pairs edge_rules _) He).
Qed.

(** Schema validation is stable: it fills its defaults once, and a second
    run leaves the topology as it is and reports exactly the same findings,
    valid or not. *)
Theorem ValidateSchema_idempotent pp topo :
  ValidateSchema pp (ValidateSchema pp topo).1 = ValidateSchema pp topo.
Proof.
  rewrite (ValidateSchema_unfold pp topo). destruct (topologyExceedsBounds topo) eqn:B; cbn [fst].
  - by rewrite ValidateSchema_unfold, B.
  - rewrite ValidateSchema_unfold, defaulted_bounds, B.
    assert (imap domain_rules (fst <$> imap domain_rules (Topology_Domains topo)) = imap domain_rules (Topology_Domains topo)) as Ed
      by apply imap_fst_stable, domain_rules_stable.
    assert (imap edge_rules (fst <$> imap edge_rules (Topology_Edges topo)) = imap edge_rules (Topology_Edges topo)) as Ee
      by apply imap_fst_stable, edge_rules_stable.
    unfold validateDomainsSchema, validateEdgesSchema, defaulted. cbn [Topology_Domains Topology_Edges].
    rewrite imap_length_fst, Ed, Ee. done.
Qed.
