(* ===== verification/Pipeline.v ===== *)
(** * The compile entry point ([CompileAt] of [internal/compiler/compiler.go])
    and what validation guarantees to the later passes

    [CompileAt] composes schema validation, semantic validation and
    [compile_passes].  The lemmas turn "no error was reported" into the facts the
    passes rely on: resolvable edges, distinct IDs, no self loops, pins that are
    complete, in range and free of collisions, distinct interface names. *)

From stdpp Require Import base gmap strings list sets fin_sets.
From Stdlib Require Import ZArith Lia.
From S2P Require Import Prelude GoLib GoNet Model LinkID Allocator PeersAlloc PeersAllocProps PeersAllocCorrect Peers PeersProps Compiler CompilerProps Normalize Findings Semantic Schema.

Local Open Scope Z_scope.

(** ** [CompileAt] *)

Inductive compile_error :=
| TopologyValidationError (phase : string) (fs : findings)
| CompileFailed (e : goerror).

(** The topology as the call leaves it (schema validation fills defaults in
    place), and the outcome: [None] is a panic. *)
Definition CompileAt (probe : list TelemetryProbe -> option string) (ctx : Ctx) (topo : Topology)
    (keys : gmap string KeyPair) (reserved : option pools) (mimicFallbackDefault : string)
  : Topology * option (result compile_error (CompileResult * findings)) :=
  let '(topo1, schemaResult) := ValidateSchema probe topo in
  (topo1,
   if negb (IsValid schemaResult) then Some (Err (TopologyValidationError "schema" (Errors schemaResult)))
   else
     let semanticResult := ValidateSemantic topo1 in
     if negb (IsValid semanticResult) then Some (Err (TopologyValidationError "semantic" (Errors semanticResult)))
     else
       match compile_passes ctx topo1 keys reserved mimicFallbackDefault with
       | None => None
       | Some (Err e) => Some (Err (CompileFailed e))
       | Some (Ok r) => Some (Ok (r, Warnings schemaResult ++ Warnings semanticResult))
       end).

(** ** Loops with a table *)

Lemma fold_report_clean {S A} (P : list A -> S -> Prop) (f : S -> nat -> A -> S * findings) xs i s :
  P [] s ->
  (forall pre x post k s1, xs = pre ++ x :: post -> P pre s1 -> clean (f s1 k x).2 -> P (pre ++ [x]) (f s1 k x).1) ->
  clean (fold_report f i s xs).2 -> P xs (fold_report f i s xs).1.
Proof.
  intros H0 Hstep.
  enough (forall done rest j s1, xs = done ++ rest -> P done s1 ->
            clean (fold_report f j s1 rest).2 -> P xs (fold_report f j s1 rest).1) as Hgen by (eapply (Hgen []); eauto).
  intros done rest; revert done; induction rest as [|x rest IH]; intros done j s1 Hxs HP; cbn.
  - intros _. by rewrite app_nil_r in Hxs; subst.
  - destruct (f s1 j x) as [s2 r1] eqn:E1. destruct (fold_report f (Datatypes.S j) s2 rest) as [s3 r2] eqn:E2. cbn.
    rewrite clean_app. intros [C1 C2]. specialize (IH (done ++ [x]) (Datatypes.S j) s2).
    rewrite E2 in IH. cbn in IH. apply IH; [by rewrite <- app_assoc| |done].
    pose proof (Hstep done x rest j s1 Hxs HP) as Hx. rewrite E1 in Hx. by apply Hx.
Qed.

(** ** Pins *)

(** The link that holds a claim, according to the tables of the pin rules. *)
Definition port_owner (t : gmap string (list nodePortPin)) (node : string) (port : Z) : option string :=
  np_linkID <$> List.find (fun p => np_port p =? port) (default [] (t !! node)).

Definition owner_of (t : pin_tables) (c : claim) : option string :=
  match c with
  | inl (node, port) => port_owner (portsByNode t) node port
  | inr (inl v) => po_linkID <$> transitByValue t !! v
  | inr (inr v) => po_linkID <$> linkLocalByValue t !! v
  end.

Lemma find_app_l {A} (p : A -> bool) (l1 l2 : list A) x : List.find p l1 = Some x -> List.find p (l1 ++ l2) = Some x.
Proof. induction l1 as [|y l1 IH]; [done|]. cbn. by destruct (p y). Qed.

Lemma find_app_r {A} (p : A -> bool) (l1 l2 : list A) : List.find p l1 = None -> List.find p (l1 ++ l2) = List.find p l2.
Proof. induction l1 as [|y l1 IH]; [done|]. cbn. by destruct (p y). Qed.

Lemma checkDuplicatePort_owner prefix node port link id t :
  clean (checkDuplicatePortOnNode prefix node port link id t).2 ->
  let t' := (checkDuplicatePortOnNode prefix node port link id t).1 in
  (port <> 0 -> port_owner t' node port = Some link) /\
  (forall n q l, port_owner t n q = Some l -> port_owner t' n q = Some l).
Proof.
  unfold checkDuplicatePortOnNode. destruct (Z.eqb_spec port 0) as [->|Hp]; [cbn; intros _; split; [done|auto]|].
  destruct (List.find (fun existing => np_port existing =? port) (default [] (t !! node))) as [ex|] eqn:E.
  - destruct (String.eqb_spec (np_linkID ex) link) as [<-|]; cbn; [|done]. intros _. split; [|auto].
    intros _. unfold port_owner. by rewrite E.
  - cbn. intros _. unfold port_owner. split.
    + intros _. rewrite lookup_insert_eq. cbn. rewrite find_app_r by done. cbn. by rewrite Z.eqb_refl.
    + intros n q l. destruct (decide (n = node)) as [->|].
      * rewrite lookup_insert_eq. cbn. intros (x & Hx & ->)%fmap_Some. by rewrite (find_app_l _ _ _ _ Hx).
      * by rewrite lookup_insert_ne.
Qed.

Lemma checkDuplicateValue_owner code prefix value link id t :
  clean (checkDuplicateValue code prefix value link id t).2 ->
  let t' := (checkDuplicateValue code prefix value link id t).1 in
  (value <> "" -> po_linkID <$> t' !! canonicalIP value = Some link) /\
  (forall v l, po_linkID <$> t !! v = Some l -> po_linkID <$> t' !! v = Some l).
Proof.
  unfold checkDuplicateValue. destruct (String.eqb_spec value "") as [->|Hv]; [cbn; intros _; split; [done|auto]|].
  destruct (t !! canonicalIP value) as [o|] eqn:E.
  - destruct (String.eqb_spec (po_linkID o) link) as [<-|]; cbn; [|done]. intros _. split; [by rewrite E|auto].
  - cbn. intros _. split; [intros _; by rewrite lookup_insert_eq|]. intros v l Hl.
    destruct (decide (v = canonicalIP value)) as [->|]; [by rewrite E in Hl|]. by rewrite lookup_insert_ne.
Qed.

(** Every pin of an edge on its own, paired or not. *)
Definition raw_claim (e : Edge) (c : claim) : Prop :=
  match c with
  | inl (n, q) => q <> 0 /\ ((n = Edge_FromNodeID e /\ q = Edge_PinnedFromPort e) \/ (n = Edge_ToNodeID e /\ q = Edge_PinnedToPort e))
  | inr (inl v) => exists x, x <> ""%string /\ v = canonicalIP x /\ (x = Edge_PinnedFromTransitIP e \/ x = Edge_PinnedToTransitIP e)
  | inr (inr v) => exists x, x <> ""%string /\ v = canonicalIP x /\ (x = Edge_PinnedFromLinkLocal e \/ x = Edge_PinnedToLinkLocal e)
  end.

(** What a clean report of the pin rules says about one edge. *)
Record edge_pins_ok (topo : Topology) (e : Edge) (f t : Node) : Prop := {
  po_client : (is_client f = true -> Edge_PinnedFromPort e = 0) /\ (is_client t = true -> Edge_PinnedToPort e = 0);
  po_ports : is_client f = false -> is_client t = false -> (Edge_PinnedFromPort e = 0 <-> Edge_PinnedToPort e = 0);
  po_transit : Edge_PinnedFromTransitIP e = "" <-> Edge_PinnedToTransitIP e = "";
  po_ll : Edge_PinnedFromLinkLocal e = "" <-> Edge_PinnedToLinkLocal e = "";
  po_range : forall q, q = Edge_PinnedFromPort e \/ q = Edge_PinnedToPort e -> q <> 0 -> MinPinnedPort <= q <= 65535;
  po_transit_ip : forall x, x = Edge_PinnedFromTransitIP e \/ x = Edge_PinnedToTransitIP e -> x <> "" -> is_Some (ParseIP x) }.

Lemma xorb_non_empty a b : xorb (non_empty a) (non_empty b) = false -> (a = ""%string <-> b = ""%string).
Proof.
  unfold non_empty. destruct (String.eqb_spec a ""), (String.eqb_spec b ""); cbn; try done; intros _; split; done.
Qed.

Lemma validatePinnedPortRange_clean prefix field q node :
  clean (validatePinnedPortRange prefix field q node) -> q <> 0 -> MinPinnedPort <= q <= 65535.
Proof.
  unfold validatePinnedPortRange. rewrite clean_when_error. intros H Hq.
  destruct (Z.eqb_spec q 0); [done|]. cbn in H. apply orb_false_iff in H as [H1 H2].
  apply Z.ltb_ge in H1. apply Z.ltb_ge in H2. lia.
Qed.

Lemma validatePinnedTransitInCIDR_clean prefix field value cidr :
  clean (validatePinnedTransitInCIDR prefix field value cidr) -> value <> "" -> is_Some (ParseIP value).
Proof.
  unfold validatePinnedTransitInCIDR. intros H Hne%String.eqb_neq. rewrite Hne in H. destruct (ParseIP value); [eauto|by apply clean_AddError in H].
Qed.

Lemma validatePinPairCompleteness_clean prefix e req :
  clean (validatePinPairCompleteness prefix e req) ->
  (req = true -> (Edge_PinnedFromPort e = 0 <-> Edge_PinnedToPort e = 0)) /\
  (Edge_PinnedFromTransitIP e = "" <-> Edge_PinnedToTransitIP e = "") /\
  (Edge_PinnedFromLinkLocal e = "" <-> Edge_PinnedToLinkLocal e = "").
Proof.
  unfold validatePinPairCompleteness. rewrite !clean_app, !clean_when_error. intros (H1 & H2 & H3).
  split_and!; [|by apply xorb_non_empty..]. intros ->. cbn in H1.
  destruct (Z.eqb_spec (Edge_PinnedFromPort e) 0), (Z.eqb_spec (Edge_PinnedToPort e) 0); done.
Qed.

(** One enabled edge with known endpoints. *)
Lemma pin_edge_rules_clean topo t i e f tn :
  Edge_IsEnabled e = true -> nodeMap topo (Edge_FromNodeID e) = Some f -> nodeMap topo (Edge_ToNodeID e) = Some tn ->
  clean (pin_edge_rules topo t i e).2 ->
  edge_pins_ok topo e f tn /\
  (forall c, raw_claim e c -> owner_of (pin_edge_rules topo t i e).1 c = Some (LinkKey e)) /\
  (forall c l, owner_of t c = Some l -> owner_of (pin_edge_rules topo t i e).1 c = Some l).
Proof.
  intros En F T. unfold pin_edge_rules. rewrite En, F, T. cbn [negb].
  destruct (checkDuplicatePortOnNode _ (Edge_FromNodeID e) _ _ _ _) as [p1 q1] eqn:E1.
  destruct (checkDuplicatePortOnNode _ (Edge_ToNodeID e) _ _ _ _) as [p2 q2] eqn:E2.
  destruct (checkDuplicateTransitIP _ (Edge_PinnedFromTransitIP e) _ _ _) as [t1 q3] eqn:E3.
  destruct (checkDuplicateTransitIP _ (Edge_PinnedToTransitIP e) _ _ _) as [t2 q4] eqn:E4.
  destruct (checkDuplicateLinkLocal _ (Edge_PinnedFromLinkLocal e) _ _ _) as [l1 q5] eqn:E5.
  destruct (checkDuplicateLinkLocal _ (Edge_PinnedToLinkLocal e) _ _ _) as [l2 q6] eqn:E6.
  cbn [fst snd]. rewrite !clean_app. intros ((H0 & Hc & Hr1 & Hr2 & Ht1 & Ht2) & C1 & C2 & C3 & C4 & C5 & C6).
  pose proof (checkDuplicatePort_owner (at_index "edges" i) (Edge_FromNodeID e) (Edge_PinnedFromPort e) (LinkKey e) (Edge_ID e) (portsByNode t)) as O1.
  rewrite E1 in O1. destruct (O1 C1) as [O1a O1b].
  pose proof (checkDuplicatePort_owner (at_index "edges" i) (Edge_ToNodeID e) (Edge_PinnedToPort e) (LinkKey e) (Edge_ID e) p1) as O2.
  rewrite E2 in O2. destruct (O2 C2) as [O2a O2b]. clear O1 O2.
  pose proof (checkDuplicateValue_owner CodePinTransitIPDuplicateCrossLink (at_index "edges" i) (Edge_PinnedFromTransitIP e) (LinkKey e) (Edge_ID e) (transitByValue t)) as O3.
  unfold checkDuplicateTransitIP in E3, E4. rewrite E3 in O3. destruct (O3 C3) as [O3a O3b].
  pose proof (checkDuplicateValue_owner CodePinTransitIPDuplicateCrossLink (at_index "edges" i) (Edge_PinnedToTransitIP e) (LinkKey e) (Edge_ID e) t1) as O4.
  rewrite E4 in O4. destruct (O4 C4) as [O4a O4b]. clear O3 O4.
  pose proof (checkDuplicateValue_owner CodePinLinkLocalDuplicateCrossLink (at_index "edges" i) (Edge_PinnedFromLinkLocal e) (LinkKey e) (Edge_ID e) (linkLocalByValue t)) as O5.
  unfold checkDuplicateLinkLocal in E5, E6. rewrite E5 in O5. destruct (O5 C5) as [O5a O5b].
  pose proof (checkDuplicateValue_owner CodePinLinkLocalDuplicateCrossLink (at_index "edges" i) (Edge_PinnedToLinkLocal e) (LinkKey e) (Edge_ID e) l1) as O6.
  rewrite E6 in O6. destruct (O6 C6) as [O6a O6b]. clear O5 O6. cbn [fst snd] in *.
  split; [|split].
  - apply clean_when_error, orb_false_iff in H0 as [Hf Ht]. apply validatePinPairCompleteness_clean in Hc as (Hp & Htr & Hll).
    split; try done.
    + split; intros Hcl; rewrite Hcl in *; cbn in Hf, Ht.
      * by apply negb_false_iff, Z.eqb_eq in Hf.
      * by apply negb_false_iff, Z.eqb_eq in Ht.
    + intros Hcf Hct. apply Hp. by rewrite Hcf, Hct.
    + intros q [->| ->]; by eapply validatePinnedPortRange_clean.
    + intros x [->| ->]; by eapply validatePinnedTransitInCIDR_clean.
  - intros [[n q]|[v|v]]; cbn.
    + intros (Hq & [[-> ->]|[-> ->]]); auto.
    + intros (x & Hx & -> & [->| ->]); auto.
    + intros (x & Hx & -> & [->| ->]); auto.
  - intros [[n q]|[v|v]] l; cbn; auto.
Qed.

Lemma pin_edge_rules_skip topo t i e : Edge_IsEnabled e = false -> pin_edge_rules topo t i e = (t, []).
Proof. intros H. unfold pin_edge_rules. by rewrite H. Qed.

(** The pin rules as a whole. *)
Lemma validateAllocationPins_clean topo :
  resolvable topo -> clean (validateAllocationPins topo) ->
  (forall e f t, e ∈ Topology_Edges topo -> Edge_IsEnabled e = true ->
     nodeMap topo (Edge_FromNodeID e) = Some f -> nodeMap topo (Edge_ToNodeID e) = Some t -> edge_pins_ok topo e f t) /\
  (forall e1 e2 c, e1 ∈ Topology_Edges topo -> e2 ∈ Topology_Edges topo ->
     Edge_IsEnabled e1 = true -> Edge_IsEnabled e2 = true -> raw_claim e1 c -> raw_claim e2 c -> LinkKey e1 = LinkKey e2).
Proof.
  intros Hres Hcl. unfold validateAllocationPins, report in Hcl.
  apply (fold_report_clean (fun pre t =>
    (forall e f tn, e ∈ pre -> Edge_IsEnabled e = true -> nodeMap topo (Edge_FromNodeID e) = Some f ->
       nodeMap topo (Edge_ToNodeID e) = Some tn -> edge_pins_ok topo e f tn) /\
    (forall e c, e ∈ pre -> Edge_IsEnabled e = true -> raw_claim e c -> owner_of t c = Some (LinkKey e)))) in Hcl.
  - destruct Hcl as [H1 H2]. split; [done|]. intros e1 e2 c I1 I2 E1 E2 C1 C2.
    pose proof (H2 e1 c I1 E1 C1). pose proof (H2 e2 c I2 E2 C2). congruence.
  - split; intros; set_solver.
  - intros pre e post k t Hpre [P1 P2] Hc. destruct (Edge_IsEnabled e) eqn:En.
    + destruct (Hres e) as [[f F] [tn T]]; [rewrite Hpre; set_solver|done|].
      destruct (pin_edge_rules_clean topo t k e f tn En F T Hc) as (Hok & Hown & Hmono). split.
      * intros e' f' tn' [He'| ->]%elem_of_snoc; [by apply P1|]. intros _ F' T'. by simplify_eq.
      * intros e' c [He'| ->]%elem_of_snoc En' Hr; [|by apply Hown]. apply Hmono. by apply P2.
    + rewrite pin_edge_rules_skip by done. cbn [fst]. split.
      * intros e' f' tn' [He'| ->]%elem_of_snoc; [by apply P1|congruence].
      * intros e' c [He'| ->]%elem_of_snoc; [by apply P2|congruence].
Qed.

(** What the heal looks at is among the pins the rules look at. *)
Lemma edge_claims_raw role e c : c ∈ edge_claims role e -> raw_claim e c.
Proof.
  unfold edge_claims. rewrite !elem_of_app. intros [H|[H|H]].
  - repeat match type of H with context [if ?b then _ else _] => destruct b eqn:?; try (by apply elem_of_nil in H) end;
    rewrite ?elem_of_cons, ?elem_of_nil in H; repeat match goal with X : _ && _ = true |- _ => apply andb_prop in X as [? ?] end;
    repeat match goal with X : (0 <? _) = true |- _ => apply Z.ltb_lt in X end;
    destruct_or?; subst; cbn; (split; [lia|]); first [by left | by right] || done.
  - destruct (_ && _) eqn:E in H; [|by apply elem_of_nil in H].
    apply andb_prop in E as [E1%non_empty_true E2%non_empty_true]. rewrite !elem_of_cons, elem_of_nil in H.
    destruct H as [->|[->|[]]]; cbn; eauto.
  - destruct (_ && _) eqn:E in H; [|by apply elem_of_nil in H].
    apply andb_prop in E as [E1%non_empty_true E2%non_empty_true]. rewrite !elem_of_cons, elem_of_nil in H.
    destruct H as [->|[->|[]]]; cbn; eauto.
Qed.

Lemma validated_collision_free topo :
  resolvable topo -> clean (validateAllocationPins topo) -> collision_free (roleByNode topo) (Topology_Edges topo).
Proof.
  intros Hres Hcl. destruct (validateAllocationPins_clean topo Hres Hcl) as [_ H].
  intros i j ei ej c Hi Hj Ei Ej Ci Cj.
  apply (H ei ej c); eauto using list_elem_of_lookup_2, edge_claims_raw.
Qed.

(** ** References and IDs *)

Lemma known_true topo id : known topo id = true <-> is_Some (nodeMap topo id).
Proof. unfold known. destruct (nodeMap topo id); split; [eauto|done|done|by intros [? ?]]. Qed.

Definition referenced (topo : Topology) : Prop :=
  forall e, e ∈ Topology_Edges topo -> is_Some (nodeMap topo (Edge_FromNodeID e)) /\ is_Some (nodeMap topo (Edge_ToNodeID e)).

Lemma validateEdgeNodeRefs_clean topo :
  clean (validateEdgeNodeRefs topo) ->
  (forall e, e ∈ Topology_Edges topo -> Edge_FromNodeID e <> "" /\ Edge_ToNodeID e <> "") -> referenced topo.
Proof.
  unfold validateEdgeNodeRefs. rewrite clean_for_each. intros H Hne e He.
  apply list_elem_of_lookup in He as Hi. destruct Hi as [i Hi]. specialize (H i e Hi).
  rewrite clean_app, !clean_when_error in H. destruct H as [H1 H2]. destruct (Hne e He) as [N1 N2].
  rewrite (proj2 (non_empty_true _) N1) in H1. rewrite (proj2 (non_empty_true _) N2) in H2. cbn in H1, H2.
  apply negb_false_iff in H1, H2. by rewrite <- !known_true.
Qed.

Lemma referenced_resolvable topo : referenced topo -> resolvable topo.
Proof. intros H e He _. by apply H. Qed.

Lemma node_id_step_seen st i n : (node_id_step st i n).1.1 = {[ Node_ID n ]} ∪ st.1.
Proof. destruct st as [s p]. unfold node_id_step. by repeat case_match. Qed.

Lemma node_id_step_clean st i n : clean (node_id_step st i n).2 -> Node_ID n ∉ st.1.
Proof.
  destruct st as [s p]. unfold node_id_step. cbn [fst].
  assert (forall r, clean (when (bool_decide (Node_ID n ∈ s))
    (AddError (at_index "nodes" i +:+ ".id") CodeNodeIDDuplicate [("id"%string, PStr (Node_ID n))]) ++ r) -> Node_ID n ∉ s) as Hc.
  { intros r. rewrite clean_app, clean_when_error. intros [H _]. by apply bool_decide_eq_false in H. }
  repeat case_match; cbn [snd]; intros Hcl; first [by eapply Hc | apply (Hc []); by rewrite app_nil_r].
Qed.

Lemma dup_ids_clean {A} (id : A -> string) name code xs : clean (dup_ids id name code xs) -> NoDup (id <$> xs).
Proof.
  unfold dup_ids, report. intros H. apply (fold_report_clean (fun pre st => NoDup (id <$> pre) /\ st = list_to_set (id <$> pre))) in H; [by apply H|by split; [constructor|]|].
  intros pre x post k st _ [Hnd ->] Hc. cbn [fst snd] in Hc |- *. rewrite clean_when_error in Hc. apply bool_decide_eq_false in Hc. rewrite elem_of_list_to_set in Hc.
  rewrite fmap_app. cbn [fmap list_fmap]. split; [|rewrite list_to_set_app_L; cbn; set_solver].
  apply NoDup_app. split_and!; [done| |apply NoDup_singleton]. intros y Hy Hx%list_elem_of_singleton. by subst y.
Qed.

Lemma validateIDUniqueness_domains topo : clean (validateIDUniqueness topo) -> NoDup (Domain_ID <$> Topology_Domains topo).
Proof. unfold validateIDUniqueness. rewrite !clean_app. intros (H & _). by eapply dup_ids_clean. Qed.

Lemma validateIDUniqueness_nodes topo :
  clean (validateIDUniqueness topo) -> NoDup (Node_ID <$> Topology_Nodes topo).
Proof.
  unfold validateIDUniqueness. rewrite !clean_app. intros (_ & H & _). unfold report in H.
  apply (fold_report_clean (fun pre st => NoDup (Node_ID <$> pre) /\ st.1 = list_to_set (Node_ID <$> pre))) in H.
  - apply H.
  - split; [constructor|done].
  - intros pre n post k st _ [Hnd Hs] Hc. rewrite node_id_step_seen, fmap_app. cbn [fmap list_fmap]. split.
    + apply NoDup_app. split_and!; [done| |apply NoDup_singleton].
      intros x Hx Hn%list_elem_of_singleton. subst x. apply node_id_step_clean in Hc.
      apply Hc. rewrite Hs. by apply elem_of_list_to_set.
    + rewrite Hs, list_to_set_app_L. cbn. set_solver.
Qed.

(** ** Interface names *)

(** An interface name the rules have registered. *)
Lemma register_end_clean topo e t node remote :
  clean (register_end topo e t node remote).2 ->
  let t' := (register_end topo e t node remote).1 in
  (is_client node = false -> t !! (Node_ID node, rule_iface e remote) = None /\
                            is_Some (t' !! (Node_ID node, rule_iface e remote))) /\
  (forall k, is_Some (t !! k) -> is_Some (t' !! k)) /\
  (forall k, is_Some (t' !! k) -> is_Some (t !! k) \/ (is_client node = false /\ k = (Node_ID node, rule_iface e remote))).
Proof.
  unfold register_end. destruct (is_client node); [cbn; intros _; split_and!; [done|auto|auto]|]. unfold register.
  destruct (t !! (Node_ID node, rule_iface e remote)) eqn:E; cbn [fst snd]; [by intros ?%clean_AddError|]. intros _. split_and!.
  - intros _. split; [done|]. rewrite lookup_insert_eq. eauto.
  - intros k Hk. rewrite lookup_insert_is_Some. destruct (decide ((Node_ID node, rule_iface e remote) = k)); auto.
  - intros k. rewrite lookup_insert_is_Some. intros [<-|[_ ?]]; auto.
Qed.

Lemma rule_iface_eq e remote : rule_iface e remote = WgInterfaceNameForEdge (Node_Name remote) (Edge_ID e) (IsBackup e).
Proof. unfold rule_iface, WgInterfaceNameForEdge. by destruct (IsBackup e). Qed.

(** The interfaces a link gives to its non-client ends. *)
Definition link_ifaces (l : linkEntity) : list (string * string) :=
  let e := lk_primaryEdge l in
  (if is_client (lk_fromNode l) then [] else [(Node_ID (lk_fromNode l), rule_iface e (lk_toNode l))]) ++
  (if is_client (lk_toNode l) then [] else [(Node_ID (lk_toNode l), rule_iface e (lk_fromNode l))]).

(** The two ends of one link, registered one after the other. *)
Lemma register_link_clean topo e f tn t :
  clean ((register_end topo e t f tn).2 ++ (register_end topo e (register_end topo e t f tn).1 tn f).2) ->
  let t2 := (register_end topo e (register_end topo e t f tn).1 tn f).1 in
  let ks := link_ifaces (link_of topo (e, f, tn)) in
  NoDup ks /\ (forall k, k ∈ ks -> t !! k = None) /\
  (forall k, is_Some (t2 !! k) <-> is_Some (t !! k) \/ k ∈ ks).
Proof.
  rewrite clean_app. intros [C1%register_end_clean C2%register_end_clean]. cbv zeta in *.
  destruct C1 as (A1 & A2 & A3), C2 as (B1 & B2 & B3). unfold link_ifaces. cbn [link_of lk_primaryEdge lk_fromNode lk_toNode].
  destruct (is_client f) eqn:Ef, (is_client tn) eqn:Et; cbn [app].
  - split_and!; [constructor|set_solver|]. intros k. split; [|intros [?|H]; [by apply B2, A2|by apply elem_of_nil in H]].
    intros [Hk|[? _]]%B3; [|done]. apply A3 in Hk as [?|[? _]]; [by left|done].
  - destruct (B1 eq_refl) as [N2 S2]. split_and!.
    + apply NoDup_singleton.
    + intros k ->%list_elem_of_singleton. apply eq_None_not_Some. intros Hs%A2. rewrite N2 in Hs. by destruct Hs.
    + intros k. rewrite list_elem_of_singleton. split; [|intros [?| ->]; [by apply B2, A2|done]].
      intros [Hk|[_ ->]]%B3; [|by right]. apply A3 in Hk as [?|[? _]]; [by left|done].
  - destruct (A1 eq_refl) as [N1 S1]. split_and!.
    + apply NoDup_singleton.
    + by intros k ->%list_elem_of_singleton.
    + intros k. rewrite list_elem_of_singleton. split; [|intros [?| ->]; [by apply B2, A2|by apply B2]].
      intros [Hk|[? _]]%B3; [|done]. apply A3 in Hk as [?|[_ ->]]; [by left|by right].
  - destruct (A1 eq_refl) as [N1 S1], (B1 eq_refl) as [N2 S2]. split_and!.
    + apply NoDup_cons. split; [|apply NoDup_singleton]. intros H%list_elem_of_singleton. rewrite <- H in N2. rewrite N2 in S1. by destruct S1.
    + intros k. rewrite elem_of_cons, list_elem_of_singleton. intros [->| ->]; [done|].
      apply eq_None_not_Some. intros Hs%A2. rewrite N2 in Hs. by destruct Hs.
    + intros k. rewrite elem_of_cons, list_elem_of_singleton. split.
      * intros [Hk|[_ ->]]%B3; [|by right; right]. apply A3 in Hk as [?|[_ ->]]; [by left|by right; left].
      * intros [?|[->| ->]]; [by apply B2, A2|by apply B2|done].
Qed.

Lemma iface_step_fst topo seen t k x :
  iface_step topo (seen, t) k x =
  if bool_decide (LinkKey x.1.1 ∈ seen) then ((seen, t), [])
  else
    let e1 := register_end topo x.1.1 t x.1.2 x.2 in
    let e2 := register_end topo x.1.1 e1.1 x.2 x.1.2 in
    (({[ LinkKey x.1.1 ]} ∪ seen, e2.1), e1.2 ++ e2.2).
Proof.
  destruct x as [[e f] tn]. unfold iface_step. cbn [fst snd]. case_bool_decide; [done|].
  destruct (register_end topo e t f tn) as [t1 r1]. cbn [fst snd]. by destruct (register_end topo e t1 tn f).
Qed.

(** A clean report means no interface name occurs twice on a node. *)
Lemma validateInterfaceNameUniqueness_clean topo :
  clean (validateInterfaceNameUniqueness topo) -> NoDup (groupLinks topo ≫= link_ifaces).
Proof.
  intros H. unfold validateInterfaceNameUniqueness, report in H.
  change (groupLinks topo) with (group_from topo (enabledEdges topo)).
  apply (fold_report_clean (fun pre (st : gset string * iface_table) =>
    st.1 = list_to_set (lk_linkKey <$> group_from topo pre) /\
    NoDup (group_from topo pre ≫= link_ifaces) /\
    forall k, is_Some (st.2 !! k) <-> k ∈ group_from topo pre ≫= link_ifaces)) in H.
  - apply H.
  - split_and!; [done|constructor|]. intros k. cbn [snd]. rewrite lookup_empty, elem_of_nil.
    split; [by intros [? ?]|done].
  - intros pre x post k [seen t] _ (Hseen & Hnd & Hdom) Hc. cbn [fst snd] in *. rewrite group_from_snoc.
    rewrite iface_step_fst in Hc |- *.
    destruct (find_link (group_from topo pre) (LinkKey x.1.1)) as [l|] eqn:E.
    + assert (LinkKey x.1.1 ∈ seen) as Hin.
      { rewrite Hseen. apply find_last_Some in E as [Hl <-]. by apply elem_of_list_to_set, list_elem_of_fmap_2. }
      rewrite (bool_decide_true _ Hin). cbn [fst snd]. by split_and!.
    + rewrite bool_decide_false in Hc |- * by (rewrite Hseen, elem_of_list_to_set; by apply find_link_keys).
      destruct x as [[e f] tn]. cbn [fst snd] in *. apply register_link_clean in Hc. cbv zeta in Hc.
      destruct Hc as (Hnd' & Hfresh & Hdom').
      rewrite bind_app. cbn [mbind list_bind]. rewrite app_nil_r. split_and!.
      * rewrite fmap_app, list_to_set_app_L, Hseen. cbn. set_solver.
      * apply NoDup_app. split_and!; [done| |done]. intros y Hy Hy'. apply Hdom in Hy. rewrite (Hfresh y Hy') in Hy. by destruct Hy.
      * intros y. by rewrite Hdom', elem_of_app, Hdom.
Qed.

(** ** Links of the allocated topology *)

Definition same_link_entity (l l' : linkEntity) : Prop :=
  lk_linkKey l' = lk_linkKey l /\ lk_backup l' = lk_backup l /\ lk_primaryEdge l' = lk_primaryEdge l /\
  same_node (lk_fromNode l) (lk_fromNode l') /\ same_node (lk_toNode l) (lk_toNode l') /\
  lk_transitCIDR l' = lk_transitCIDR l.

Section Related.
Context (t t' : Topology).
Hypothesis Hedges : Topology_Edges t' = Topology_Edges t.
Hypothesis Hdom : domainMap t' = domainMap t.
Hypothesis Hnodes : forall id, option_Forall2 same_node (nodeMap t id) (nodeMap t' id).

Definition same_triple (x x' : Edge * Node * Node) : Prop :=
  x'.1.1 = x.1.1 /\ same_node x.1.2 x'.1.2 /\ same_node x.2 x'.2.

Lemma enabledEdges_related : Forall2 same_triple (enabledEdges t) (enabledEdges t').
Proof.
  unfold enabledEdges. rewrite Hedges. generalize (Topology_Edges t). clear Hedges. intros es0. induction es0 as [|e es IH]; [constructor|].
  cbn -[nodeMap]. destruct (Edge_IsEnabled e); [|exact IH].
  destruct (Hnodes (Edge_FromNodeID e)) as [f f' Hf|]; [|exact IH].
  destruct (Hnodes (Edge_ToNodeID e)) as [n n' Hn|]; [|exact IH].
  constructor; [|exact IH]. by split_and!.
Qed.

Lemma group_from_related xs xs' :
  Forall2 same_triple xs xs' -> Forall2 same_link_entity (group_from t xs) (group_from t' xs').
Proof.
  revert xs'. induction xs as [|x xs IH] using rev_ind; intros xs' H.
  - apply Forall2_nil_inv_l in H as ->. constructor.
  - apply Forall2_app_inv_l in H as (ys & zs & Hys & Hzs & ->).
    apply Forall2_cons_inv_l in Hzs as (x' & zs' & Hx & Hz & ->). apply Forall2_nil_inv_l in Hz as ->.
    rewrite !group_from_snoc. specialize (IH ys Hys). destruct x as [[e f] n], x' as [[e' f'] n'].
    destruct Hx as (E & Hf & Hn). cbn in E, Hf, Hn |- *. subst e'.
    assert (option_Forall2 same_link_entity (find_link (group_from t xs) (LinkKey e)) (find_link (group_from t' ys) (LinkKey e))) as Hfind.
    { unfold find_link. apply find_last_Forall2; [|done]. by intros l l' (-> & _). }
    destruct Hfind as [l l' Hl|]; [done|]. apply Forall2_app; [done|]. constructor; [|constructor].
    split_and!; try done. cbn. destruct Hf as (_ & _ & _ & -> & _). by rewrite Hdom.
Qed.

Lemma groupLinks_related : Forall2 same_link_entity (groupLinks t) (groupLinks t').
Proof. apply group_from_related, enabledEdges_related. Qed.
End Related.

Lemma link_ifaces_related l l' : same_link_entity l l' -> link_ifaces l' = link_ifaces l.
Proof.
  intros (_ & _ & Hp & (Hf1 & Hf2 & Hf3 & _) & (Ht1 & Ht2 & Ht3 & _) & _).
  unfold link_ifaces, is_client, rule_iface. by rewrite Hp, Hf1, Hf2, Hf3, Ht1, Ht2, Ht3.
Qed.

Lemma allocated_link_ifaces ctx topo nodes :
  AllocateIPs ctx topo = Ok nodes ->
  groupLinks (allocated_topo topo nodes) ≫= link_ifaces = groupLinks topo ≫= link_ifaces.
Proof.
  intros Ha. pose proof (groupLinks_related topo (allocated_topo topo nodes) eq_refl eq_refl
    (fun id => allocated_nodeMap ctx topo nodes id Ha)) as H.
  induction H as [|l l' ls ls' Hl _ IH]; [done|]. rewrite !bind_cons, IH. f_equal. by apply link_ifaces_related.
Qed.
