(* ===== verification/PipelineProps.v ===== *)
(** * Guarantees of [CompileAt]

    Validation discharges every side condition of the pass-level theorems: a
    topology that [CompileAt] accepts is compiled without a panic into interfaces
    whose ports and names are distinct on every node. *)

From stdpp Require Import base gmap strings list sets fin_sets.
From Stdlib Require Import ZArith Lia.
From S2P Require Import Prelude GoLib GoNet Model LinkID Allocator PeersAlloc PeersAllocProps PeersAllocCorrect Peers PeersProps Compiler CompilerProps Normalize Findings Semantic Schema SchemaProps Pipeline.

Local Open Scope Z_scope.

(** ** What validation establishes *)

Record validated (t : Topology) : Prop := {
  va_schema : schema_ok t;
  va_referenced : referenced t;
  va_resolvable : resolvable t;
  va_ids : NoDup (Node_ID <$> Topology_Nodes t);
  va_domain_ids : NoDup (Domain_ID <$> Topology_Domains t);
  va_collision_free : collision_free (roleByNode t) (Topology_Edges t);
  va_pins : forall e f n, e ∈ Topology_Edges t -> Edge_IsEnabled e = true ->
    nodeMap t (Edge_FromNodeID e) = Some f -> nodeMap t (Edge_ToNodeID e) = Some n -> edge_pins_ok t e f n;
  va_ifaces : NoDup (groupLinks t ≫= link_ifaces);
  va_clients : clean (validateClientEdges t);
  va_domains : forall n, n ∈ Topology_Nodes t -> Node_DomainID n <> "" -> is_Some (domainMap t (Node_DomainID n)) }.

Lemma validateNodeDomainRefs_clean t :
  clean (validateNodeDomainRefs t) -> forall n, n ∈ Topology_Nodes t -> Node_DomainID n <> "" ->
  is_Some (domainMap t (Node_DomainID n)).
Proof.
  unfold validateNodeDomainRefs. rewrite clean_for_each. intros H n (i & Hi)%list_elem_of_lookup Hne.
  specialize (H i n Hi). cbv beta in H. rewrite clean_when_error, (proj2 (non_empty_true _) Hne) in H.
  destruct (domainMap t (Node_DomainID n)); [eauto|done].
Qed.

Lemma ValidateSemantic_clean t :
  schema_ok t -> IsValid (ValidateSemantic t) = true -> validated t.
Proof.
  intros Hs H. rewrite IsValid_clean in H. unfold ValidateSemantic in H. rewrite (so_bounds _ Hs) in H.
  rewrite !clean_app in H. destruct_and! H.
  assert (referenced t) as Href.
  { apply validateEdgeNodeRefs_clean; [done|]. intros e He. by destruct (so_edges _ Hs e He). }
  pose proof (referenced_resolvable t Href) as Hres.
  split; auto using validated_collision_free, validateIDUniqueness_nodes, validateIDUniqueness_domains, validateInterfaceNameUniqueness_clean, validateNodeDomainRefs_clean.
  by apply validateAllocationPins_clean.
Qed.

Lemma CompileAt_inv probe ctx topo keys reserved dflt t1 r ws :
  CompileAt probe ctx topo keys reserved dflt = (t1, Some (Ok (r, ws))) ->
  validated t1 /\ t1 = (ValidateSchema probe topo).1 /\ compile_passes ctx t1 keys reserved dflt = Some (Ok r).
Proof.
  unfold CompileAt. destruct (ValidateSchema probe topo) as [t fs] eqn:E. intros [= -> H].
  destruct (IsValid fs) eqn:V1; [|done]. destruct (IsValid (ValidateSemantic t1)) eqn:V2; [|done]. cbn [negb] in H.
  destruct (compile_passes ctx t1 keys reserved dflt) as [[r'|]|] eqn:C; try done. injection H as -> _.
  split_and!; [|done|done]. apply ValidateSemantic_clean; [|done]. by eapply ValidateSchema_ok.
Qed.

(** ** Links of a validated topology after address allocation *)

Lemma validated_no_self ctx t nodes l :
  validated t -> AllocateIPs ctx t = Ok nodes -> l ∈ groupLinks (allocated_topo t nodes) ->
  Node_ID (lk_fromNode l) <> Node_ID (lk_toNode l).
Proof.
  intros V Ha Hl. destruct (groupLinks_nodes _ _ Hl) as (_ & _ & -> & ->).
  destruct (groupLinks_inv (allocated_topo t nodes)) as (_ & _ & Hs).
  destruct (Hs l Hl) as ([[e f] n] & (He & _)%enabledEdges_spec & ->). cbn.
  apply (so_edges _ (va_schema _ V) e He).
Qed.

Lemma validated_node_ids ctx t nodes :
  validated t -> AllocateIPs ctx t = Ok nodes -> NoDup (Node_ID <$> Topology_Nodes (allocated_topo t nodes)).
Proof.
  intros V Ha. pose proof (AllocateIPs_same _ _ _ Ha) as Hs.
  replace (Node_ID <$> Topology_Nodes (allocated_topo t nodes)) with (Node_ID <$> Topology_Nodes t); [apply V|].
  cbn [allocated_topo Topology_Nodes]. induction Hs as [|x y xs ys (E & _) _ IH]; [done|]. cbn. by rewrite E, IH.
Qed.

Lemma validated_nodeMap ctx t nodes n :
  validated t -> AllocateIPs ctx t = Ok nodes -> n ∈ Topology_Nodes (allocated_topo t nodes) ->
  nodeMap (allocated_topo t nodes) (Node_ID n) = Some n.
Proof. intros V Ha Hn. apply (find_last_unique Node_ID); [by eapply validated_node_ids|done]. Qed.

Lemma allocated_node_fwd ctx t nodes id n :
  AllocateIPs ctx t = Ok nodes -> nodeMap t id = Some n ->
  exists n', nodeMap (allocated_topo t nodes) id = Some n' /\ same_node n n'.
Proof. intros Ha Hn. destruct (allocated_nodeMap ctx t nodes id Ha) as [x y Hs|]; [|done]. injection Hn as ->. eauto. Qed.

Lemma allocated_node_rev ctx t nodes id n' :
  AllocateIPs ctx t = Ok nodes -> nodeMap (allocated_topo t nodes) id = Some n' ->
  exists n, nodeMap t id = Some n /\ same_node n n'.
Proof. intros Ha Hn. destruct (allocated_nodeMap ctx t nodes id Ha) as [x y Hs|]; [|done]. injection Hn as ->. eauto. Qed.

(** Every interface of a non-client node is one its link registers. *)
Lemma link_peers_iface keys edges dflt l a id p :
  lk_backup l = IsBackup (lk_primaryEdge l) ->
  (id, p) ∈ link_peers keys edges dflt l a ->
  (Node_ID (lk_toNode l) = id -> is_client (lk_toNode l) = false) ->
  (id, Peer_InterfaceName p) ∈ link_ifaces l.
Proof.
  intros Hb Hp Hcl. unfold link_peers in Hp. unfold link_ifaces. rewrite !rule_iface_eq, <- Hb.
  destruct (is_client (lk_fromNode l)).
  - apply list_elem_of_singleton in Hp as [= -> ->]. rewrite Hcl by done. set_solver.
  - apply elem_of_cons in Hp as [[= -> ->]|Hp]; [set_solver|].
    destruct (is_client (lk_toNode l)); [set_solver|]. apply list_elem_of_singleton in Hp as [= -> ->]. set_solver.
Qed.

Lemma NoDup_bind_disjoint {A B} (f : A -> list B) xs x1 x2 y :
  NoDup (xs ≫= f) -> x1 ∈ xs -> x2 ∈ xs -> y ∈ f x1 -> y ∈ f x2 -> x1 = x2.
Proof.
  induction xs as [|x xs IH]; [set_solver|]. rewrite bind_cons, NoDup_app. intros (_ & Hd & Hnd) H1 H2 Y1 Y2.
  assert (forall z, z ∈ xs -> y ∈ f z -> y ∈ f x -> False) as Hno.
  { intros z Hz Hyz Hyx. apply (Hd y Hyx). apply list_elem_of_bind. eauto. }
  apply elem_of_cons in H1 as [->|H1], H2 as [->|H2]; [done|naive_solver..|by apply IH].
Qed.

Lemma pinned_alloc_port_sources l :
  (al_fromPort (pinned_alloc l) = 0 \/ al_fromPort (pinned_alloc l) = Edge_PinnedFromPort (lk_primaryEdge l)) /\
  (al_toPort (pinned_alloc l) = 0 \/ al_toPort (pinned_alloc l) = Edge_PinnedToPort (lk_primaryEdge l)).
Proof.
  pose proof (pinned_alloc_ports l) as H. cbv zeta in H.
  repeat (destruct (is_client _) in H); repeat (destruct (0 <? _) in H); injection H as -> ->; auto.
Qed.

Section Interfaces.
Context (ctx : Ctx) (t : Topology) (nodes : list Node) (keys : gmap string KeyPair) (reserved : option pools) (dflt : string)
  (m : gmap string pairAllocation) (n : Node).
Hypothesis V : validated t.
Hypothesis Ha : AllocateIPs ctx t = Ok nodes.
Hypothesis Hm : preallocateLinkResources (groupLinks (allocated_topo t nodes)) reserved = Ok m.
Hypothesis Hn : n ∈ Topology_Nodes (allocated_topo t nodes).
Hypothesis Hcl : is_client n = false.
Local Abbreviation t1 := (allocated_topo t nodes).

Lemma node_ifaces_distinct : NoDup (Peer_InterfaceName <$> peers_of keys t1 dflt m (Node_ID n)).
Proof.
  apply peers_of_NoDup; [by intros l; apply (validated_no_self ctx)|].
  intros l1 l2 a1 a2 p1 p2 H1 H2 Hne A1 A2 Hp1 Hp2 Heq. apply Hne. f_equal.
  pose proof (va_ifaces _ V) as Hnd. rewrite <- (allocated_link_ifaces ctx t nodes Ha) in Hnd.
  assert (forall l a p, l ∈ groupLinks t1 -> (Node_ID n, p) ∈ link_peers keys (build_edgeMap t1) dflt l a ->
    (Node_ID n, Peer_InterfaceName p) ∈ link_ifaces l) as Hin.
  { intros l a p Hl Hp. eapply link_peers_iface; eauto.
    - destruct (groupLinks_inv t1) as (_ & _ & Hs). by destruct (Hs l Hl) as ([[e f] tn] & _ & ->).
    - intros Hid. rewrite (groupLinks_to_node t1 l n); auto. by eapply validated_nodeMap. }
  eapply (NoDup_bind_disjoint link_ifaces); eauto. rewrite Heq. eauto.
Qed.

(** Listen ports are pinned ones the pin rules accepted, or gap-filled ones. *)
Lemma node_port_range p :
  p ∈ peers_of keys t1 dflt m (Node_ID n) -> MinPinnedPort <= Peer_ListenPort p <= 65535.
Proof.
  intros (l & a & Hl & A & Hp)%peers_of_elem.
  pose proof (node_peer_port t1 keys dflt m n l a p (preallocate_oriented _ _ _ Hm)
    (validated_nodeMap ctx t nodes n V Ha Hn) Hcl Hl A Hp) as Ho.
  destruct (preallocate_link_entry _ _ _ _ (groupLinks_NoDup t1) Hm Hl) as (a' & A' & _ & K).
  rewrite A in A'. injection A' as <-.
  assert (forall q, q = Edge_PinnedFromPort (lk_primaryEdge l) \/ q = Edge_PinnedToPort (lk_primaryEdge l) -> q <> 0 ->
    MinPinnedPort <= q <= 65535) as Hr.
  { destruct (groupLinks_inv t1) as (_ & _ & Hs).
    destruct (Hs l Hl) as ([[e f] tn] & (He & En & _ & _)%enabledEdges_spec & ->). cbn.
    destruct (va_resolvable _ V e He En) as [[f' F'] [tn' T']]. apply (po_range _ _ _ _ (va_pins _ V e f' tn' He En F' T')). }
  assert (0 < Peer_ListenPort p /\ (Peer_ListenPort p = al_fromPort a \/ Peer_ListenPort p = al_toPort a)) as [Hpos Hq]
    by (destruct Ho as [(_ & ? & ?)|(_ & ? & ?)]; auto).
  destruct (pinned_alloc_port_sources l) as [S1 S2].
  destruct (fresh_ports _ _ K _ Hq Hpos) as [E|[E|E]]; [| |unfold WGListenPortBase, MinPinnedPort in *; lia];
    apply Hr; lia.
Qed.

Lemma node_ports_distinct : NoDup (Peer_ListenPort <$> peers_of keys t1 dflt m (Node_ID n)).
Proof.
  eapply (derivePeers_ports_distinct t1 keys reserved dflt _ m n).
  - by rewrite derivePeers_unfold, Hm.
  - eapply allocated_pins_disjoint; eauto. apply V.
  - intros l. by apply (validated_no_self ctx).
  - by eapply validated_nodeMap.
  - done.
  - by rewrite (append_all_lookup _ _ _ _ (init_peerMap_lookup t1 n Hn)).
Qed.
End Interfaces.

(** ** Clients *)

Lemma filter_length_1 {A} (p : A -> bool) (xs : list A) :
  length (List.filter p xs) = 1%nat ->
  exists x, x ∈ xs /\ p x = true /\ forall y, y ∈ xs -> p y = true -> y = x.
Proof.
  intros H. destruct (List.filter p xs) as [|x [|? ?]] eqn:E; try done. exists x.
  assert (forall y, y ∈ [x] <-> y ∈ xs /\ p y = true) as Hin.
  { intros y. rewrite <- E, !list_elem_of_In. apply filter_In. }
  destruct (proj1 (Hin x)) as [? ?]; [set_solver|]. split_and!; [done..|].
  intros y Hy Hp. by apply list_elem_of_singleton, Hin.
Qed.

(** A validated client has exactly one uplink, to a node that is not a client,
    with a host to dial; and nothing dials it. *)
Lemma client_uplink t n :
  validated t -> n ∈ Topology_Nodes t -> is_client n = true ->
  exists e x, e ∈ Topology_Edges t /\ Edge_IsEnabled e = true /\ Edge_FromNodeID e = Node_ID n /\
    nodeMap t (Edge_ToNodeID e) = Some x /\ is_client x = false /\ Edge_EndpointHost e <> "" /\
    forall e', e' ∈ Topology_Edges t -> Edge_IsEnabled e' = true ->
      Edge_ToNodeID e' <> Node_ID n /\ (Edge_FromNodeID e' = Node_ID n -> e' = e).
Proof.
  intros V Hn Hcl. pose proof (find_last_unique Node_ID _ _ (va_ids _ V) Hn : nodeMap t (Node_ID n) = Some n) as Hnm.
  pose proof (va_clients _ V) as Hc. unfold validateClientEdges in Hc. rewrite clean_app, !clean_for_each in Hc.
  destruct Hc as [He Hc]. apply list_elem_of_lookup in Hn as [i Hi]. specialize (Hc i n Hi).
  cbv beta in Hc. rewrite Hcl in Hc. cbn [when] in Hc. rewrite clean_app in Hc. destruct Hc as [Hc _].
  rewrite clean_if_error in Hc. destruct Hc as [H0%Nat.eqb_neq Hc]. rewrite clean_if_error in Hc. destruct Hc as [H1%Nat.ltb_ge _].
  assert (clientOutbound t (Node_ID n) = 1%nat) as H1' by lia.
  apply filter_length_1 in H1' as (e & Hin & Hp & Huniq).
  apply andb_prop in Hp as [En Hp]. destruct (nodeMap t (Edge_FromNodeID e)) as [f|] eqn:F; [|done].
  apply andb_prop in Hp as [Hfc Hfid%String.eqb_eq].
  assert (Edge_FromNodeID e = Node_ID n) as Hfrom by (apply find_last_Some in F as [_ <-]; done).
  destruct (va_resolvable _ V e Hin En) as [_ [x X]].
  assert (forall e', e' ∈ Topology_Edges t -> Edge_IsEnabled e' = true -> Edge_ToNodeID e' <> Node_ID n) as Hto.
  { intros e' (j & Hj)%list_elem_of_lookup En' E. specialize (He j e' Hj). unfold client_edge_rules in He.
    rewrite En', E, Hnm in He. cbn [negb] in He. rewrite clean_app, clean_when_error in He. destruct He. congruence. }
  pose proof Hin as (j & Hj)%list_elem_of_lookup. specialize (He j e Hj). unfold client_edge_rules in He.
  rewrite En, X, F, Hfc in He. cbn [negb when] in He. rewrite !clean_app, !clean_when_error in He. destruct_and! He.
  exists e, x. split_and!; try done; [by apply String.eqb_neq|].
  intros e' Hin' En'. split; [by apply Hto|]. intros Hf'. apply Huniq; [done|]. by rewrite En', Hf', Hnm, Hcl, String.eqb_refl.
Qed.

Lemma validated_portable t e : validated t -> e ∈ Topology_Edges t -> Edge_IsEnabled e = true -> portable_ends e.
Proof.
  intros V He En. destruct (va_resolvable _ V e He En) as [[f F] [x X]].
  apply find_last_Some in F as [Hf Ef], X as [Hx Ex]. unfold portable_ends. rewrite <- Ef, <- Ex.
  split; by apply nso_id, (so_nodes _ (va_schema _ V)).
Qed.

(** The uplink of a client drives its link. *)
Lemma uplink_drives t t1 n x e :
  validated t -> Topology_Edges t1 = Topology_Edges t -> e ∈ Topology_Edges t -> Edge_IsEnabled e = true ->
  nodeMap t1 (Edge_FromNodeID e) = Some n -> nodeMap t1 (Edge_ToNodeID e) = Some x ->
  (forall e', e' ∈ Topology_Edges t -> Edge_IsEnabled e' = true ->
     Edge_ToNodeID e' <> Edge_FromNodeID e /\ (Edge_FromNodeID e' = Edge_FromNodeID e -> e' = e)) ->
  link_of t1 (e, n, x) ∈ groupLinks t1.
Proof.
  intros V Hed He En F X Hu. destruct (groupLinks_inv t1) as (_ & Hcov & Hs).
  destruct (Hcov (e, n, x)) as (l & Hl & Hk); [apply enabledEdges_spec; rewrite Hed; auto|].
  destruct (Hs l Hl) as ([[e' f'] x'] & (He' & En' & F' & X')%enabledEdges_spec & ->). cbn in Hk.
  rewrite Hed in He'. destruct (Hu e' He' En') as [Hto Hfr].
  apply LinkKey_eq_iff in Hk as [[[E1 E2]|[E1 E2]] _]; [|by rewrite E2 in Hto|by eapply validated_portable..].
  rewrite (Hfr E1) in *. congruence.
Qed.

(** ** Claims *)

(** C1. End to end: whatever topology is submitted, when [CompileAt] succeeds,
    every node of the compiled topology that is not a client has its interfaces
    in the result, no two of them share a listen port or an interface name, and
    every listen port is between 1024 and 65535.  No assumption is made about the
    input: validation establishes all that is needed. *)
Theorem CompileAt_interfaces_distinct probe ctx topo keys reserved dflt t1 r ws n :
  CompileAt probe ctx topo keys reserved dflt = (t1, Some (Ok (r, ws))) ->
  n ∈ Topology_Nodes (CR_Topology r) -> is_client n = false ->
  exists ps, CR_PeerMap r !! Node_ID n = Some ps /\
    NoDup (Peer_ListenPort <$> ps) /\ NoDup (Peer_InterfaceName <$> ps) /\
    forall p, p ∈ ps -> MinPinnedPort <= Peer_ListenPort p <= 65535.
Proof.
  intros (V & _ & (nodes & m & Ha & Hm & ->)%compile_passes_inv)%CompileAt_inv Hn Hcl. cbn [CR_Topology CR_PeerMap] in *.
  change (n ∈ Topology_Nodes (allocated_topo t1 nodes)) in Hn.
  eexists. split; [by apply (append_all_lookup _ _ _ _ (init_peerMap_lookup _ n Hn))|].
  split_and!; [by eapply node_ports_distinct|by eapply node_ifaces_distinct|by intros p; eapply node_port_range].
Qed.


(** [CompileAt] never panics: whatever the input, it returns a result or an
    error. *)
Theorem CompileAt_no_panic probe ctx topo keys reserved dflt :
  exists outcome, (CompileAt probe ctx topo keys reserved dflt).2 = Some outcome.
Proof.
  unfold CompileAt. destruct (ValidateSchema probe topo) as [t fs]. cbn [snd].
  destruct (IsValid fs); [|eauto]. destruct (IsValid (ValidateSemantic t)); [|eauto]. cbn [negb].
  unfold compile_passes. destruct (AllocateIPs ctx t); [|eauto]. rewrite derivePeers_unfold.
  destruct (preallocateLinkResources _ _); cbn [rbind]; eauto.
Qed.

(** ** Witnesses *)

(** [probepolicy.Validate] on nodes without probes is never consulted; any
    verdict serves. *)
Definition ex_probe (_ : list TelemetryProbe) : option string := None.

Lemma ex_CompileAt :
  CompileAt ex_probe Background ex_compile_topo ex_keys None "" = (ex_compile_topo, Some (Ok (ex_result, []))).
Proof. vm_compute. reflexivity. Qed.

Lemma CompileAt_interfaces_distinct_witness :
  exists ps, CR_PeerMap ex_result !! "a"%string = Some ps /\ length ps = 2%nat /\
    NoDup (Peer_ListenPort <$> ps) /\ NoDup (Peer_InterfaceName <$> ps).
Proof.
  destruct (CompileAt_interfaces_distinct ex_probe Background ex_compile_topo ex_keys None "" ex_compile_topo ex_result []
    (infer_caps (ex_node "a" "router" "d" "10.11.0.1" (ex_caps true true))) ex_CompileAt) as (ps & Hps & Hp & Hi & _).
  - apply list_elem_of_In. vm_compute. left. reflexivity.
  - reflexivity.
  - exists ps. split; [exact Hps|]. split; [|split; [exact Hp|exact Hi]].
    vm_compute in Hps. injection Hps as <-. reflexivity.
Defined.


(** ** Transit pools that overlap *)

(** Two domains whose transit pools overlap, one link in each. *)
Definition ex_overlap_topo : Topology :=
  ex_topology [mkDomain "d1" "d1" "10.11.0.0/24" "" "auto" "babel" [] "10.10.0.0/24";
               mkDomain "d2" "d2" "10.12.0.0/24" "" "auto" "babel" [] "10.10.0.0/16"]
    [ex_node "a" "router" "d1" "" (ex_caps true true); ex_node "b" "router" "d1" "" (ex_caps true true);
     ex_node "c" "router" "d2" "" (ex_caps true true); ex_node "e" "router" "d2" "" (ex_caps true true)]
    [ex_edge "e1" "a" "b" "b.example" "" no_pins; ex_edge "e2" "c" "e" "e.example" "" no_pins].

(** The codes of the errors of a report. *)
Definition error_codes (r : findings) : list string := VE_Code <$> Errors r.

(** Transit pools are told apart by the text of their CIDR only and nothing
    checks that they are disjoint: a topology with the pools 10.10.0.0/24 and
    10.10.0.0/16 is accepted, its two links get the same transit addresses, and
    the compiled topology is rejected by the validator that accepted its source,
    with a cross-link duplicate for each address.  Healing it and compiling again
    ends in the same collision. *)
Theorem overlapping_transit_pools_collide :
  exists r, CompileAt ex_probe Background ex_overlap_topo ∅ None "" = (ex_overlap_topo, Some (Ok (r, []))) /\
    (Edge_PinnedFromTransitIP <$> Topology_Edges (CR_Topology r)) = ["10.10.0.1"; "10.10.0.1"]%string /\
    error_codes (ValidateSemantic (CR_Topology r)) =
      [CodePinTransitIPDuplicateCrossLink; CodePinTransitIPDuplicateCrossLink] /\
    exists r', CompileAt ex_probe Background (HealCollidingPins (CR_Topology r)).1 ∅ None "" =
                 ((HealCollidingPins (CR_Topology r)).1, Some (Ok (r', []))) /\
      Topology_Edges (CR_Topology r') = Topology_Edges (CR_Topology r).
Proof.
  eexists. split; [vm_compute; reflexivity|]. split; [vm_compute; reflexivity|]. split; [vm_compute; reflexivity|].
  eexists. split; vm_compute; reflexivity.
Qed.

(** ** Pins in another spelling *)

Definition ex_respelled_topo : Topology :=
  ex_topology [mkDomain "d" "d" "10.11.0.0/24" "" "auto" "babel" [] "10.10.0.0/24"]
    [ex_node "a" "router" "d" "" (ex_caps true true); ex_node "b" "router" "d" "" (ex_caps true true); ex_node "c" "router" "d" "" (ex_caps true true)]
    [ex_edge "e1" "a" "b" "b.example" "" (mkPins 0 0 "::ffff:10.10.0.1" "::ffff:10.10.0.2" "fe80:0::1" "fe80:0::2");
     ex_edge "e2" "b" "c" "c.example" "" no_pins].

(** The pools of the allocator hold texts: a pin that spells an address another way
    reserves nothing, and a new link is given the very addresses that the pinned link
    has.  The validator, which compares addresses, then rejects the compiled topology. *)
Theorem respelled_pin_collides :
  exists r, CompileAt ex_probe Background ex_respelled_topo ∅ None "" = (ex_respelled_topo, Some (Ok (r, []))) /\
    (Edge_PinnedFromTransitIP <$> Topology_Edges (CR_Topology r)) = ["::ffff:10.10.0.1"; "10.10.0.1"]%string /\
    (Edge_PinnedFromLinkLocal <$> Topology_Edges (CR_Topology r)) = ["fe80:0::1"; "fe80::1"]%string /\
    ParseIP "::ffff:10.10.0.1" = ParseIP "10.10.0.1" /\ ParseIP "fe80:0::1" = ParseIP "fe80::1" /\
    error_codes (ValidateSemantic (CR_Topology r)) =
      [CodePinTransitIPDuplicateCrossLink; CodePinTransitIPDuplicateCrossLink; CodePinLinkLocalDuplicateCrossLink; CodePinLinkLocalDuplicateCrossLink].
Proof. eexists. split; [vm_compute; reflexivity|]. split; [vm_compute; reflexivity|]. split; [vm_compute; reflexivity|]. split; [vm_compute; reflexivity|]. split; vm_compute; reflexivity. Qed.
