(* ===== verification/CompileStable.v ===== *)
(** * Stability of [CompileAt] under recompilation

    A compiled topology is stored and compiled again, as it is or with domains,
    nodes and edges added.  [CompileAt_idempotent] gives the outcome of the first
    case, [CompileAt_stable] what the second keeps, and [prepended_edge_moves_pins]
    shows the condition on the order of edges that it needs. *)

From stdpp Require Import base gmap strings list sets fin_sets.
From Stdlib Require Import ZArith Lia.
From S2P Require Import Prelude GoLib GoNet Model LinkID Allocator PeersAlloc PeersAllocProps PeersAllocCorrect Peers PeersProps Compiler CompilerProps Normalize Findings Semantic Schema SchemaProps SemanticStable Pipeline PipelineProps.

Local Open Scope Z_scope.

(** ** The schema pass on a compiled topology *)

Lemma edge_rules_ident i e e' : edge_ident e = edge_ident e' -> (edge_rules i e).2 = (edge_rules i e').2.
Proof. destruct e, e'. unfold edge_ident. cbn. intros [= ]. subst. unfold edge_rules. cbn. by case_match. Qed.

Lemma edge_rules_set i e : edge_schema_ok e -> (edge_rules i e).1 = e.
Proof. intros [_ _ _ _ Ht _ _ _]. unfold edge_rules. cbn [fst]. by destruct (String.eqb_spec (Edge_Transport e) "") as [E|]; [rewrite E in Ht; set_solver|]. Qed.

Lemma domain_rules_set i d : domain_schema_ok d -> (domain_rules i d).1 = d.
Proof. intros [_ Hm _ _]. unfold domain_rules. cbn [fst]. by rewrite Hm. Qed.

Lemma imap_fst_id {A C} (f : nat -> A -> A * C) xs : (forall i x, x ∈ xs -> (f i x).1 = x) -> fst <$> imap f xs = xs.
Proof.
  revert f. induction xs as [|x xs IH]; intros f Hf; [done|]. rewrite imap_cons. cbn. rewrite Hf by set_solver. f_equal.
  apply (IH (f ∘ S)). intros i y Hy. apply Hf. set_solver.
Qed.

Lemma schema_ok_defaulted t : schema_ok t -> defaulted t = t.
Proof.
  intros Hs. unfold defaulted. rewrite !imap_fst_id; [by destruct t|..].
  - intros i e He. by apply edge_rules_set, (so_edges _ Hs).
  - intros i d Hd. by apply domain_rules_set, (so_domains _ Hs).
Qed.

(** Allocation and inference change nothing that the node rules read but the address. *)
Lemma node_rules_overlay pp i n ip :
  clean (node_rules pp i n) -> is_Some (ParseIP ip) -> clean (node_rules pp i (infer_caps (set_OverlayIP ip n))).
Proof.
  intros Hc [x Hx]. unfold node_rules in *. rewrite !clean_app in Hc |- *. destruct Hc as (H1 & H2 & H3 & H4 & H5 & _ & H7).
  destruct n. split_and!; try done; [..|apply H7]; try apply H7. rewrite clean_when_error. cbn. rewrite Hx. apply andb_false_r.
Qed.

Lemma allocated_address ctx topo nodes i n n' :
  AllocateIPs ctx topo = Ok nodes -> Topology_Nodes topo !! i = Some n -> nodes !! i = Some n' -> node_schema_ok n ->
  n' = set_OverlayIP (Node_OverlayIP n') n /\ is_Some (ParseIP (Node_OverlayIP n')).
Proof.
  intros Ha Hn Hn' Hs. destruct (AllocateIPs_sound _ _ _ Ha) as [_ H]. destruct (H i n n' Hn Hn') as [E Hip]. split; [done|].
  pose proof (AllocateIPs_settled _ _ _ Ha) as Hset. eapply Forall_lookup in Hset as [Hne _]; [|exact Hn'].
  destruct Hip as [[_ Hk]|(_ & (d & _ & Hf) & _)]; [rewrite Hk in *; by apply (nso_overlay _ Hs)|].
  destruct (lowest_free_contained _ _ _ _ Hf) as (_ & y & _ & Hy & _). by exists y.
Qed.

(** The address rule: the texts that it accepts are distinct, and it accepts
    distinct addresses that are inside their domains. *)
Lemma validateIPSemantics_distinct t :
  schema_ok t -> clean (validateIPSemantics t) ->
  forall i j n n', Topology_Nodes t !! i = Some n -> Topology_Nodes t !! j = Some n' -> i <> j -> Node_OverlayIP n <> "" -> Node_OverlayIP n <> Node_OverlayIP n'.
Proof.
  intros Hs H. unfold validateIPSemantics, report in H.
  set (P := fun (pre : list Node) (usage : gmap string string) => (forall n, n ∈ pre -> Node_OverlayIP n <> "" -> is_Some (usage !! Node_OverlayIP n)) /\
    forall i j n n', pre !! i = Some n -> pre !! j = Some n' -> i <> j -> Node_OverlayIP n <> "" -> Node_OverlayIP n <> Node_OverlayIP n').
  apply (fold_report_clean P) in H; [exact (proj2 H)|split; [set_solver|by intros]|]. intros pre x post k usage Hxs [Hin Hd] Hc.
  assert (x ∈ Topology_Nodes t) as Hx by (rewrite Hxs; set_solver). destruct (String.eqb_spec (Node_OverlayIP x) "") as [He|He]; cbn [fst snd] in *.
  - split.
    + intros n [Hn| ->]%elem_of_snoc; [by apply Hin|done].
    + intros i j n n' Hi Hj. revert Hi Hj. rewrite !lookup_snoc_Some. intros [[_ Hi]|[_ <-]] [[_ Hj]|[_ <-]] Hij Hn; [by eapply Hd|congruence|done..].
  - destruct (nso_overlay _ (so_nodes _ Hs x Hx) He) as [ip Hip]. rewrite Hip in Hc |- *. destruct (usage !! Node_OverlayIP x) as [y|] eqn:Hu; cbn [fst snd] in *.
    { rewrite clean_app, clean_AddError in Hc. by destruct Hc. }
    assert (forall n, n ∈ pre -> Node_OverlayIP n <> Node_OverlayIP x) as Hnew.
    { intros n Hn E. destruct (Hin n Hn) as [z Hz]; [congruence|]. rewrite E in Hz. congruence. }
    split.
    + intros n [Hn| ->]%elem_of_snoc Hne; [|by rewrite lookup_insert_eq; eauto]. rewrite lookup_insert_ne by (intros E; by apply (Hnew n Hn)). by apply Hin.
    + intros i j n n' Hi Hj. revert Hi Hj. rewrite !lookup_snoc_Some. intros [[_ Hi]|[-> <-]] [[_ Hj]|[-> <-]] Hij Hn; [by eapply Hd| | |done].
      * apply Hnew. by eapply list_elem_of_lookup_2.
      * apply not_eq_sym, Hnew. by eapply list_elem_of_lookup_2.
Qed.

Lemma validateIPSemantics_settled t :
  (forall n, n ∈ Topology_Nodes t -> settled t n) -> NoDup (Node_OverlayIP <$> Topology_Nodes t) -> clean (validateIPSemantics t).
Proof.
  intros Hset Hnd. unfold validateIPSemantics. apply (report_all (fun pre (usage : gmap string string) => forall ip, is_Some (usage !! ip) -> ip ∈ Node_OverlayIP <$> pre)).
  { intros ip. rewrite lookup_empty. by intros []. }
  intros pre x post k usage Hxs Hu. destruct (Hset x) as [Hne Hst]; [rewrite Hxs; set_solver|]. apply String.eqb_neq in Hne as Heq. rewrite Heq.
  unfold clear_stale in Hst. rewrite Heq in Hst.
  assert (forall ip, ip ∈ Node_OverlayIP <$> pre -> ip ∈ Node_OverlayIP <$> (pre ++ [x])) as Hsub by (intros ip; rewrite fmap_app; set_solver).
  destruct (ParseIP (Node_OverlayIP x)) as [ip|] eqn:Hip; cbn [fst snd]; [|by split; [apply clean_nil|intros ip Hi; apply Hsub, Hu]].
  set (r1 := match domainMap t _ with Some _ => _ | None => _ end). assert (clean r1) as Hr1.
  { unfold r1. destruct (domainMap t (Node_DomainID x)) as [d|]; [|apply clean_nil]. destruct (non_empty (Domain_CIDR d)); [|apply clean_nil].
    destruct (ParseCIDR (Domain_CIDR d)) as [net|]; [|apply clean_nil]. apply clean_when_error. destruct (Contains net ip); [done|]. exfalso. apply Hne. rewrite <- Hst. apply OverlayIP_set. }
  destruct (usage !! Node_OverlayIP x) as [y|] eqn:Hy; cbn [fst snd].
  - exfalso. rewrite Hxs, fmap_app, NoDup_app in Hnd. destruct Hnd as (_ & Hd & _). apply (Hd (Node_OverlayIP x)); [apply Hu; eauto|]. cbn. set_solver.
  - split; [done|]. intros ip'. destruct (decide (ip' = Node_OverlayIP x)) as [->|Hn]; [|rewrite lookup_insert_ne by done; intros Hi; by apply Hsub, Hu].
    intros _. rewrite fmap_app. cbn. set_solver.
Qed.

(** What a successful [CompileAt] leaves in the topology that it returns. *)
Section Compiled.
Context (probe : list TelemetryProbe -> option string) (ctx : Ctx) (topo t1 : Topology) (keys : gmap string KeyPair) (reserved : option pools) (dflt : string)
  (r : CompileResult) (ws : findings).
Hypothesis Hcomp : CompileAt probe ctx topo keys reserved dflt = (t1, Some (Ok (r, ws))).
#[local] Abbreviation T := (CR_Topology r).

Lemma compiled_schema : IsValid (ValidateSchema probe t1).2 = true /\ (ValidateSchema probe t1).1 = t1.
Proof.
  pose proof Hcomp as Hc. unfold CompileAt in Hc. destruct (ValidateSchema probe topo) as [t fs] eqn:E. injection Hc as -> Hc.
  destruct (IsValid fs) eqn:V; [|done]. pose proof (ValidateSchema_idempotent probe topo) as Hi. rewrite E in Hi. cbn [fst] in Hi. by rewrite Hi.
Qed.

Lemma compiled_shape : exists nodes m, AllocateIPs ctx t1 = Ok nodes /\
  preallocateLinkResources (groupLinks (allocated_topo t1 nodes)) reserved = Ok m /\
  T = map_edges (write_back (roleByNode (allocated_topo t1 nodes)) m) (allocated_topo t1 nodes).
Proof. destruct (CompileAt_inv _ _ _ _ _ _ _ _ _ Hcomp) as (_ & _ & (nodes & m & Ha & Hm & ->)%compile_passes_inv). by exists nodes, m. Qed.

(** The schema pass accepts the compiled topology and leaves it as it is. *)
Lemma compiled_schema_again : exists fs, ValidateSchema probe T = (T, fs) /\ IsValid fs = true.
Proof.
  destruct (CompileAt_inv _ _ _ _ _ _ _ _ _ Hcomp) as (V & _). destruct compiled_shape as (nodes & m & Ha & _ & HT). destruct compiled_schema as [Hfs _].
  pose proof (va_schema _ V) as Hs. rewrite ValidateSchema_unfold, (so_bounds _ Hs), IsValid_clean in Hfs. cbn [snd] in Hfs. rewrite !clean_app in Hfs. destruct Hfs as (F1 & F2 & F3 & F4).
  set (g := write_back _ m) in HT. assert (Topology_Domains T = Topology_Domains t1) as HD by (by rewrite HT).
  assert (Topology_Edges T = g <$> Topology_Edges t1) as HE by (by rewrite HT). assert (Topology_Nodes T = infer_caps <$> nodes) as HN by (by rewrite HT).
  assert (topologyExceedsBounds T = false) as HB.
  { pose proof (so_bounds _ Hs) as Hb. unfold topologyExceedsBounds in *. rewrite HD, HE, HN, !length_fmap. rewrite (proj1 (AllocateIPs_nodes _ _ _ Ha)).
    replace (Topology_AllocSchemaVersion T) with 1 by (by rewrite HT). cbn -[Z.ltb Nat.ltb existsb]. by destruct (CurrentAllocSchemaVersion <? _). }
  assert (clean (validateNodesSchema probe T)) as FN.
  { unfold validateNodesSchema in *. rewrite clean_for_each in F3 |- *. intros i n' Hi. rewrite HN, list_lookup_fmap in Hi. destruct (nodes !! i) as [n1|] eqn:H1; [|done]. injection Hi as <-.
    destruct (lookup_lt_is_Some_2 (Topology_Nodes t1) i) as [n Hn]; [rewrite <- (proj1 (AllocateIPs_nodes _ _ _ Ha)); by eapply lookup_lt_Some|].
    destruct (allocated_address _ _ _ _ _ _ Ha Hn H1) as [E1 Hip]; [by eapply (so_nodes _ Hs), list_elem_of_lookup_2|]. rewrite E1. apply node_rules_overlay; [by apply F3|done]. }
  assert (clean (validateEdgesSchema T).2) as FE.
  { unfold validateEdgesSchema in *. cbn [snd] in *. rewrite clean_imap_pairs in F4 |- *. intros i e Hi. rewrite HE, list_lookup_fmap in Hi. destruct (_ !! i) as [e0|] eqn:H0; [|done].
    injection Hi as <-. rewrite (edge_rules_ident i _ e0) by apply edge_ident_write_back. by apply F4. }
  assert (clean (validateDomainsSchema T).2) as FD by (unfold validateDomainsSchema in *; by rewrite HD).
  rewrite ValidateSchema_unfold, HB. assert (IsValid (validateProjectSchema T ++ (validateDomainsSchema T).2 ++ validateNodesSchema probe T ++ (validateEdgesSchema T).2) = true) as HV.
  { rewrite IsValid_clean, !clean_app. split_and!; [|done..]. unfold validateProjectSchema in *. by rewrite HT. }
  eexists. split; [|exact HV]. f_equal. unfold defaulted. rewrite HD, HE, !imap_fst_id; [by rewrite <- HD, <- HE; destruct T|..].
  - intros i e (e0 & -> & He0)%list_elem_of_fmap. pose proof (so_edges _ Hs e0 He0) as [_ _ _ _ Ht _ _ _]. unfold edge_rules. cbn [fst].
    destruct (edge_ident_fields _ _ (edge_ident_write_back (roleByNode (allocated_topo t1 nodes)) m e0)) as (_ & _ & _ & _ & _ & _ & _ & _ & Et & _). fold g in Et.
    destruct (String.eqb_spec (Edge_Transport (g e0)) "") as [E|]; [rewrite Et in E; rewrite E in Ht; set_solver|done].
  - intros i d Hd. by apply domain_rules_set, (so_domains _ Hs).
Qed.

Lemma compiled_schema_ok : schema_ok T.
Proof. destruct compiled_schema_again as (fs & Hfs & Hv). by eapply ValidateSchema_ok. Qed.

Lemma compiled_node n : n ∈ Topology_Nodes T -> settled T n /\ infer_caps n = n.
Proof.
  destruct compiled_shape as (nodes & m & Ha & _ & ->). cbn [map_edges allocated_topo set_Edges Topology_Nodes]. intros (n0 & -> & Hn0)%list_elem_of_fmap.
  pose proof (AllocateIPs_settled _ _ _ Ha) as Hs. eapply Forall_forall in Hs as [Hne Hst]; [|exact Hn0]. split; [split|apply set_Capabilities_idem].
  - by destruct (infer_caps_fields n0) as (_ & -> & _).
  - rewrite (clear_stale_domains t1) by done. by rewrite clear_stale_infer, Hst.
Qed.

Lemma compiled_domain n : n ∈ Topology_Nodes T -> is_Some (domainMap T (Node_DomainID n)).
Proof.
  destruct (CompileAt_inv _ _ _ _ _ _ _ _ _ Hcomp) as (V & _). pose proof compiled_schema_ok as Hs. intros Hn. pose proof (nso_domain _ (so_nodes _ Hs n Hn)) as Hne.
  destruct compiled_shape as (nodes & m & Ha & _ & HT). rewrite HT in Hn |- *. change (n ∈ infer_caps <$> nodes) in Hn. apply list_elem_of_fmap in Hn as (n0 & -> & (i & Hi)%list_elem_of_lookup).
  destruct (lookup_lt_is_Some_2 (Topology_Nodes t1) i) as [n1 Hn1]; [rewrite <- (proj1 (AllocateIPs_nodes _ _ _ Ha)); by eapply lookup_lt_Some|].
  destruct (proj2 (AllocateIPs_sound _ _ _ Ha) i n1 n0 Hn1 Hi) as [E _]. destruct (infer_caps_fields n0) as (_ & _ & E'). rewrite E' in *. rewrite E, DomainID_set in *.
  by apply (va_domains _ V n1 (list_elem_of_lookup_2 _ _ _ Hn1)).
Qed.

Lemma compiled_referenced : referenced T.
Proof.
  destruct (CompileAt_inv _ _ _ _ _ _ _ _ _ Hcomp) as (V & _). destruct compiled_shape as (nodes & m & Ha & _ & ->). intros e He. rewrite map_edges_Edges in He.
  rewrite map_edges_nodeMap. apply list_elem_of_fmap in He as (e0 & -> & He0). change (e0 ∈ Topology_Edges t1) in He0.
  destruct (edge_ident_fields _ _ (edge_ident_write_back (roleByNode (allocated_topo t1 nodes)) m e0)) as (_ & -> & -> & _).
  destruct (va_referenced _ V e0 He0) as [[f F] [n N]]. destruct (allocated_node_fwd _ _ _ _ _ Ha F) as (f' & -> & _). destruct (allocated_node_fwd _ _ _ _ _ Ha N) as (n' & -> & _). eauto.
Qed.

(** The links of the compiled topology carry their whole allocation, and writing it back changes nothing. *)
Lemma compiled_fixed :
  exists m, (forall l, l ∈ groupLinks T -> m !! lk_linkKey l = Some (pinned_alloc l) /\ complete l (pinned_alloc l)) /\
    forall e, e ∈ Topology_Edges T -> write_back (roleByNode T) m e = e.
Proof.
  destruct compiled_shape as (nodes & m & Ha & Hm & ->). set (ta := allocated_topo t1 nodes) in *. set (g := write_back (roleByNode ta) m). exists m. split.
  - intros l' Hl'. rewrite groupLinks_map in Hl' by apply edge_ident_write_back. apply list_elem_of_fmap in Hl' as (l & -> & Hl).
    destruct (preallocate_link_entry _ _ _ _ (groupLinks_NoDup ta) Hm Hl) as (a & Hma & Hc & _). unfold g. rewrite (pinned_alloc_write_back ta m l a) by done.
    split; [exact Hma|by apply complete_map_link].
  - intros e He. rewrite map_edges_Edges in He. apply list_elem_of_fmap in He as (e0 & -> & _). apply write_back_idem.
Qed.

(** *** The semantic pass on the compiled topology *)

Lemma compiled_semantic : IsValid (ValidateSemantic t1) = true.
Proof.
  pose proof Hcomp as Hc. unfold CompileAt in Hc. destruct (ValidateSchema probe topo) as [t fs]. injection Hc as -> Hc.
  destruct (IsValid fs); [|done]. by destruct (IsValid (ValidateSemantic t1)).
Qed.

Lemma compiled_nodes_of : exists nodes, AllocateIPs ctx t1 = Ok nodes /\ Topology_Nodes T = infer_caps <$> nodes /\
  forall i n, Topology_Nodes t1 !! i = Some n -> exists n', nodes !! i = Some n' /\ n' = set_OverlayIP (Node_OverlayIP n') n.
Proof.
  destruct compiled_shape as (nodes & m & Ha & _ & HT). exists nodes. split; [done|]. split; [by rewrite HT|]. intros i n Hn. destruct (AllocateIPs_sound _ _ _ Ha) as [Hlen H].
  destruct (lookup_lt_is_Some_2 nodes i) as [n' Hn']; [rewrite Hlen; by eapply lookup_lt_Some|]. exists n'. split; [done|]. by apply (H i n n').
Qed.

Lemma compiled_node_pairs : Forall2 more_capable (Topology_Nodes t1) (Topology_Nodes T).
Proof.
  destruct compiled_nodes_of as (nodes & Ha & HN & H). rewrite HN. apply Forall2_same_length_lookup. split; [rewrite length_fmap; symmetry; apply (AllocateIPs_nodes _ _ _ Ha)|].
  intros i n n' Hn Hn'. rewrite list_lookup_fmap in Hn'. destruct (H i n Hn) as (n1 & H1 & E). rewrite H1 in Hn'. injection Hn' as <-. rewrite E. clear.
  destruct n as [? ? ? ? role ? ? ? ? ? ? ? [c1 c2 c3 c4] ? ? ? pe ? ? ? ? ? ? ? ?]. split; [done| |]; cbn; unfold is_client, InferCapabilitiesFromRole; cbn.
  - intros ->. by repeat case_match.
  - intros Hcl ->. rewrite Hcl. by repeat case_match.
Qed.

Lemma compiled_skeleton : skeleton T = skeleton t1.
Proof.
  pose proof compiled_node_pairs as Hp. destruct compiled_shape as (nodes & m & _ & _ & HT). unfold skeleton. f_equal.
  - by rewrite HT.
  - by rewrite HT.
  - induction Hp as [|n n' ns ns' [Hb _ _] _ IH]; [done|]. cbn. by rewrite Hb, IH.
  - rewrite HT, map_edges_Edges, <- list_fmap_compose. apply list_fmap_ext. intros i e _. apply edge_ident_write_back.
  - by rewrite HT.
Qed.

Lemma compiled_capable id : option_Forall2 more_capable (nodeMap t1 id) (nodeMap T id).
Proof.
  unfold nodeMap. apply find_last_Forall2; [|exact compiled_node_pairs]. intros n n' Hm. symmetry. by apply more_capable_fields.
Qed.

Lemma compiled_addresses : NoDup (Node_OverlayIP <$> Topology_Nodes T).
Proof.
  destruct (CompileAt_inv _ _ _ _ _ _ _ _ _ Hcomp) as (V & _). pose proof compiled_semantic as Hsem. rewrite IsValid_clean in Hsem. unfold ValidateSemantic in Hsem.
  rewrite (so_bounds _ (va_schema _ V)), !clean_app in Hsem. destruct Hsem as (_ & _ & Hip & _).
  pose proof (validateIPSemantics_distinct t1 (va_schema _ V) Hip) as Hdist. destruct compiled_nodes_of as (nodes & Ha & -> & _). rewrite <- list_fmap_compose.
  apply NoDup_alt. intros i j ip Hi Hj. destruct (decide (i = j)) as [|Hne]; [done|exfalso]. rewrite list_lookup_fmap in Hi, Hj.
  destruct (nodes !! i) as [x|] eqn:Ei; [|done]. destruct (nodes !! j) as [y|] eqn:Ej; [|done]. cbn in Hi, Hj. injection Hi as Hx. injection Hj as Hy.
  destruct (infer_caps_fields x) as (_ & Ex & _). destruct (infer_caps_fields y) as (_ & Ey & _). assert (Node_OverlayIP x = Node_OverlayIP y) as Hxy by congruence. clear Hx Hy Ex Ey.
  destruct (AllocateIPs_sound _ _ _ Ha) as [Hlen H]. destruct (lookup_lt_is_Some_2 (Topology_Nodes t1) i) as [n Hn]; [rewrite <- Hlen; by eapply lookup_lt_Some|].
  destruct (lookup_lt_is_Some_2 (Topology_Nodes t1) j) as [n' Hn']; [rewrite <- Hlen; by eapply lookup_lt_Some|].
  destruct (H i n x Hn Ei) as [_ [[Hk1 Hk2]|(_ & _ & Hf)]]; [|by apply (Hf j y (not_eq_sym Hne) Ej)].
  destruct (H j n' y Hn' Ej) as [_ [[Hk3 Hk4]|(_ & _ & Hf)]]; [|by apply (Hf i x Hne Ei)].
  pose proof (AllocateIPs_settled _ _ _ Ha) as Hset. eapply Forall_lookup in Hset as [Hnx _]; [|exact Ei].
  apply (Hdist i j n n' Hn Hn' Hne); congruence.
Qed.

Lemma compiled_ip_semantics : clean (validateIPSemantics T).
Proof. apply validateIPSemantics_settled; [|exact compiled_addresses]. intros n Hn. by apply compiled_node. Qed.

(** Of all the rules, only those for pins can object to a compiled topology. *)
Lemma compiled_errors : Errors (ValidateSemantic T) = Errors (validateAllocationPins T).
Proof.
  destruct (CompileAt_inv _ _ _ _ _ _ _ _ _ Hcomp) as (V & _). pose proof compiled_semantic as Hsem. rewrite IsValid_clean in Hsem. unfold ValidateSemantic in Hsem |- *.
  rewrite (so_bounds _ (va_schema _ V)), !clean_app in Hsem. rewrite (so_bounds _ compiled_schema_ok).
  destruct Hsem as (H1 & H2 & _ & H4 & H5 & H6 & _ & H8 & H9 & H10 & _ & _ & H13 & H14 & H15 & H16 & _ & _ & H19).
  rewrite <- (skeleton_domain_refs t1) in H1. rewrite <- (skeleton_node_refs t1) in H2. rewrite <- (skeleton_ids t1) in H4. rewrite <- (skeleton_names t1) in H5.
  rewrite <- (skeleton_port_ranges t1) in H6. rewrite <- (skeleton_mimic t1) in H10. rewrite <- (skeleton_ifaces t1) in H13.
  rewrite <- (skeleton_primary t1) in H14. rewrite <- (skeleton_backup t1) in H15. rewrite <- (skeleton_direction t1) in H16.
  pose proof (reachability_mono t1 T compiled_skeleton compiled_capable H9 H8) as H8'. rewrite <- (skeleton_clients t1) in H9.
  rewrite <- compiled_skeleton in H1, H2, H4, H5, H6, H9, H10, H13, H14, H15, H16.
  rewrite skeleton_domain_refs in H1. rewrite skeleton_node_refs in H2. rewrite skeleton_ids in H4. rewrite skeleton_names in H5.
  rewrite skeleton_port_ranges in H6. rewrite skeleton_clients in H9. rewrite skeleton_mimic in H10. rewrite skeleton_ifaces in H13.
  rewrite skeleton_primary in H14. rewrite skeleton_backup in H15. rewrite skeleton_direction in H16.
  assert (clean (validateRoutePoliciesReserved T)) as H19'.
  { unfold validateRoutePoliciesReserved in *. by replace (Topology_RoutePolicies T) with (Topology_RoutePolicies t1) by (symmetry; exact (f_equal Topology_RoutePolicies compiled_skeleton)). }
  pose proof compiled_ip_semantics as H3. pose proof (clean_isolated T) as H7. pose proof (clean_endpoints T) as H11. pose proof (clean_duplicates T) as H12. pose proof (clean_costs T) as H17.
  unfold clean, Errors in *. rewrite !List.filter_app, H1, H2, H3, H4, H5, H6, H7, H8', H9, H10, H11, H12, H13, H14, H15, H16, H17, H19'. by rewrite app_nil_r.
Qed.
End Compiled.

(** ** Recompiling *)

(** C11. Recompiling is stable.  When [CompileAt] succeeds, the topology that it
    returns is compiled again, under any reserved set and with an uncancelled first
    poll.  The schema pass accepts it and leaves it as it is, and of the semantic rules
    only those for pins can object: the call returns their errors if there are any, and
    otherwise succeeds with exactly the same result: topology (pins, ports and addresses
    included), peers and client configurations.  No other outcome is possible. *)
Theorem CompileAt_idempotent probe ctx ctx' topo keys reserved reserved' dflt t1 r ws :
  CompileAt probe ctx topo keys reserved dflt = (t1, Some (Ok (r, ws))) -> ctx' 0%nat = None ->
  exists ws', CompileAt probe ctx' (CR_Topology r) keys reserved' dflt =
    (CR_Topology r, Some (if IsValid (validateAllocationPins (CR_Topology r)) then Ok (r, ws')
                          else Err (TopologyValidationError "semantic" (Errors (validateAllocationPins (CR_Topology r)))))).
Proof.
  intros Hc Hctx. destruct (compiled_schema_again _ _ _ _ _ _ _ _ _ Hc) as (fs & Hfs & Hv). destruct (CompileAt_inv _ _ _ _ _ _ _ _ _ Hc) as (_ & _ & Hp).
  pose proof (compiled_errors _ _ _ _ _ _ _ _ _ Hc) as He. assert (IsValid (ValidateSemantic (CR_Topology r)) = IsValid (validateAllocationPins (CR_Topology r))) as Hval by (unfold IsValid; by rewrite He).
  eexists. unfold CompileAt. rewrite Hfs, Hv. cbn [negb]. rewrite Hval, He. f_equal. destruct (IsValid (validateAllocationPins (CR_Topology r))); cbn [negb]; [|done].
  by rewrite (compile_idempotent _ ctx' _ _ _ reserved' _ _ Hp Hctx).
Qed.

(** ** Extending a compiled topology *)

(** The edge that drives the link [key]: the first enabled one of the link. *)
Definition driver (t : Topology) (key : string) : option Edge :=
  List.find (fun e => Edge_IsEnabled e && String.eqb (LinkKey e) key) (Topology_Edges t).

Lemma find_snoc {A} (p : A -> bool) xs x :
  List.find p (xs ++ [x]) = match List.find p xs with Some y => Some y | None => if p x then Some x else None end.
Proof. induction xs as [|y xs IH]; [done|]. cbn. by destruct (p y). Qed.

Lemma find_link_group t xs k :
  find_link (group_from t xs) k = link_of t <$> List.find (fun x => String.eqb (LinkKey x.1.1) k) xs.
Proof.
  induction xs as [|x xs IH] using rev_ind; [done|]. rewrite group_from_snoc, find_snoc. destruct (find_link (group_from t xs) (LinkKey x.1.1)) as [l|] eqn:E.
  - rewrite IH. destruct (List.find _ xs) as [y|] eqn:F; [done|]. destruct (String.eqb_spec (LinkKey x.1.1) k) as [<-|]; [|done]. by rewrite IH in E.
  - assert (lk_linkKey (link_of t x) = LinkKey x.1.1) as Hx by (by destruct x as [[??]?]).
    unfold find_link in *. rewrite find_last_app, IH. cbn. rewrite Hx. destruct (String.eqb_spec (LinkKey x.1.1) k) as [<-|].
    + rewrite IH in E. destruct (List.find _ xs); [done|]. done.
    + by destruct (List.find _ xs).
Qed.

(** The link of a key is made of its driver and the nodes of the driver. *)
Lemma find_driver t k :
  resolvable t ->
  List.find (fun x => String.eqb (LinkKey x.1.1) k) (enabledEdges t) =
  match driver t k with
  | Some d => match nodeMap t (Edge_FromNodeID d), nodeMap t (Edge_ToNodeID d) with Some f, Some n => Some (d, f, n) | _, _ => None end
  | None => None
  end.
Proof.
  unfold resolvable, enabledEdges, driver. induction (Topology_Edges t) as [|e es IH]; intros Hr; [done|]. cbn [omap list_omap List.find].
  assert (forall x, x ∈ es -> Edge_IsEnabled x = true -> is_Some (nodeMap t (Edge_FromNodeID x)) /\ is_Some (nodeMap t (Edge_ToNodeID x))) as Hr' by (intros x Hx; apply Hr; set_solver).
  destruct (Edge_IsEnabled e) eqn:En; cbn [andb]; [|by apply IH]. destruct (Hr e) as [[f F] [n N]]; [set_solver|done|]. rewrite F, N. cbn [List.find fst].
  destruct (String.eqb (LinkKey e) k); [by rewrite F, N|by apply IH].
Qed.

Lemma group_driver t k l :
  resolvable t -> (find_link (groupLinks t) k = Some l <->
    exists d f n, driver t k = Some d /\ nodeMap t (Edge_FromNodeID d) = Some f /\ nodeMap t (Edge_ToNodeID d) = Some n /\ l = link_of t (d, f, n)).
Proof.
  intros Hr. change (groupLinks t) with (group_from t (enabledEdges t)). rewrite find_link_group, find_driver by done. split.
  - destruct (driver t k) as [d|]; [|done]. destruct (nodeMap t _) as [f|] eqn:F; [|done]. destruct (nodeMap t (Edge_ToNodeID d)) as [n|] eqn:N; [|done].
    intros [= <-]. by exists d, f, n.
  - intros (d & f & n & -> & -> & -> & ->). done.
Qed.

(** The second topology holds the domains and the nodes of the first; its edges
    are its own. *)
Record extends (t t2 : Topology) : Prop := {
  ext_domains : Topology_Domains t ⊆ Topology_Domains t2;
  ext_nodes : Topology_Nodes t ⊆ Topology_Nodes t2 }.

Section Extended.
Context (t t0 t2 : Topology) (ctx : Ctx) (nodes : list Node).
Hypothesis Hs : schema_ok t.
Hypothesis Hnode : forall n, n ∈ Topology_Nodes t -> settled t n /\ infer_caps n = n.
Hypothesis Hdom : forall n, n ∈ Topology_Nodes t -> is_Some (domainMap t (Node_DomainID n)).
Hypothesis V : validated t2.
Hypothesis Hdef : t2 = defaulted t0.
Hypothesis Ha : AllocateIPs ctx t2 = Ok nodes.
Hypothesis Hext : extends t t0.
#[local] Abbreviation ta := (allocated_topo t2 nodes).

Lemma elem_of_defaulted {A C} (f : nat -> A -> A * C) (xs : list A) x : x ∈ xs -> (forall i, (f i x).1 = x) -> x ∈ fst <$> imap f xs.
Proof. intros (i & Hi)%list_elem_of_lookup Hf. apply list_elem_of_fmap. exists (f i x). split; [by rewrite Hf|]. by apply elem_of_lookup_imap_2. Qed.

Lemma ext_domainMap n : n ∈ Topology_Nodes t -> domainMap t2 (Node_DomainID n) = domainMap t (Node_DomainID n).
Proof.
  intros Hn. destruct (Hdom n Hn) as [d Hd]. rewrite Hd. apply find_last_Some in Hd as [Hin <-]. apply find_last_unique; [apply V|].
  rewrite Hdef. apply elem_of_defaulted; [by apply (ext_domains _ _ Hext)|]. intros i. by apply domain_rules_set, (so_domains _ Hs).
Qed.

Lemma ext_node i n : Topology_Nodes t0 !! i = Some n -> n ∈ Topology_Nodes t -> Topology_Nodes ta !! i = Some n.
Proof.
  intros Hi Hn. destruct (Hnode n Hn) as [[Hne Hst] Hcaps]. destruct (AllocateIPs_nodes _ _ _ Ha) as [_ Hspec].
  destruct (Hspec i n) as (n' & Hn' & Hstep); [by rewrite Hdef|]. assert (clear_stale t2 n = n) as Hk by (unfold clear_stale in *; by rewrite ext_domainMap).
  rewrite Hk in Hstep. destruct Hstep as [[_ ->]|[? _]]; [|done]. cbn [allocated_topo Topology_Nodes]. rewrite list_lookup_fmap, Hn'. cbn. by rewrite Hcaps.
Qed.

Lemma ext_nodeMap id n : nodeMap t id = Some n -> nodeMap ta id = Some n.
Proof.
  intros [Hn <-]%find_last_Some. apply find_last_unique; [by eapply validated_node_ids|]. pose proof (ext_nodes _ _ Hext n Hn) as (i & Hi)%list_elem_of_lookup.
  by eapply list_elem_of_lookup_2, ext_node.
Qed.

Lemma ext_link_of d f n : nodeMap t (Edge_FromNodeID d) = Some f -> link_of ta (d, f, n) = link_of t (d, f, n).
Proof. intros [Hf _]%find_last_Some. cbn. by rewrite <- (ext_domainMap f Hf). Qed.

Lemma ext_edge i e : Topology_Edges t0 !! i = Some e -> e ∈ Topology_Edges t -> Topology_Edges ta !! i = Some e.
Proof. intros Hi He. change (Topology_Edges t2 !! i = Some e). rewrite Hdef. cbn [defaulted Topology_Edges]. rewrite list_lookup_fmap, list_lookup_imap, Hi. cbn [fmap option_fmap option_map]. f_equal. by apply edge_rules_set, (so_edges _ Hs). Qed.

Lemma ext_driver k : driver ta k = (fun e => (edge_rules 0 e).1) <$> driver t0 k.
Proof.
  unfold driver. change (Topology_Edges ta) with (Topology_Edges t2). rewrite Hdef. cbn [defaulted Topology_Edges].
  replace (fst <$> imap edge_rules (Topology_Edges t0)) with ((fun e => (edge_rules 0 e).1) <$> Topology_Edges t0).
  - induction (Topology_Edges t0) as [|e es IH]; [done|]. cbn [fmap list_fmap List.find]. rewrite IH.
    replace (Edge_IsEnabled (edge_rules 0 e).1) with (Edge_IsEnabled e) by (unfold edge_rules; destruct e; cbn; by case_match).
    replace (LinkKey (edge_rules 0 e).1) with (LinkKey e) by (unfold edge_rules; destruct e; cbn; by case_match). by destruct (_ && _).
  - apply list_eq. intros i. rewrite !list_lookup_fmap, list_lookup_imap. by destruct (Topology_Edges t0 !! i).
Qed.

(** A link with the same driver is the same link. *)
Lemma ext_link l :
  referenced t -> l ∈ groupLinks t -> driver t0 (lk_linkKey l) = driver t (lk_linkKey l) -> l ∈ groupLinks ta.
Proof.
  intros Href Hl Hd. pose proof (find_last_unique lk_linkKey _ _ (groupLinks_NoDup t) Hl) as Hfl.
  pose proof (proj1 (group_driver t (lk_linkKey l) l (referenced_resolvable _ Href)) Hfl) as (d & f & n & Hdr & F & N & Hlk).
  assert (find_link (groupLinks ta) (lk_linkKey l) = Some l) as H; [|by apply find_last_Some in H as [? _]].
  assert (resolvable ta) as Hr.
  { intros e He En. destruct (va_resolvable _ V e He En) as [[x X] [y Y]]. destruct (allocated_node_fwd _ _ _ _ _ Ha X) as (x' & -> & _).
    destruct (allocated_node_fwd _ _ _ _ _ Ha Y) as (y' & -> & _). eauto. }
  apply group_driver; [done|]. exists d, f, n. rewrite ext_driver, Hd, Hdr. cbn [fmap option_fmap option_map]. split_and!.
  - f_equal. apply edge_rules_set, (so_edges _ Hs). unfold driver in Hdr. by apply find_some in Hdr as [?%list_elem_of_In _].
  - by apply ext_nodeMap.
  - by apply ext_nodeMap.
  - by rewrite ext_link_of.
Qed.
End Extended.

(** C12. What a recompile keeps.  A compiled topology is extended: every domain and
    every node of it is still there, nodes and domains may be added anywhere, and the
    edges are any list.  When the extended topology compiles too, every old node keeps
    its address and every other field; and every old edge that is still listed keeps
    all its pins and its compiled port, if it is disabled or the link that it belongs
    to is still driven by the same edge, that is, its first enabled edge is the same. *)
Theorem CompileAt_stable probe ctx ctx' topo keys keys' reserved reserved' dflt dflt' t1 r ws topo2 t2 r2 ws2 :
  CompileAt probe ctx topo keys reserved dflt = (t1, Some (Ok (r, ws))) ->
  CompileAt probe ctx' topo2 keys' reserved' dflt' = (t2, Some (Ok (r2, ws2))) -> extends (CR_Topology r) topo2 ->
  (forall i n, Topology_Nodes topo2 !! i = Some n -> n ∈ Topology_Nodes (CR_Topology r) -> Topology_Nodes (CR_Topology r2) !! i = Some n) /\
  (forall j e, Topology_Edges topo2 !! j = Some e -> e ∈ Topology_Edges (CR_Topology r) ->
     (Edge_IsEnabled e = true -> driver topo2 (LinkKey e) = driver (CR_Topology r) (LinkKey e)) ->
     Topology_Edges (CR_Topology r2) !! j = Some e).
Proof.
  intros H1 H2 Hext. pose proof (compiled_schema_ok _ _ _ _ _ _ _ _ _ H1) as Hs. pose proof (compiled_node _ _ _ _ _ _ _ _ _ H1) as Hnode.
  pose proof (compiled_domain _ _ _ _ _ _ _ _ _ H1) as Hdom. pose proof (compiled_referenced _ _ _ _ _ _ _ _ _ H1) as Href.
  destruct (compiled_fixed _ _ _ _ _ _ _ _ _ H1) as (m & Hm & Hfix). destruct (CompileAt_inv _ _ _ _ _ _ _ _ _ H2) as (V & E2 & _).
  destruct (compiled_shape _ _ _ _ _ _ _ _ _ H2) as (nodes & m2 & Ha & Hm2 & ->). set (t := CR_Topology r) in *.
  assert (t2 = defaulted topo2) as Hdef.
  { rewrite ValidateSchema_unfold in E2. destruct (topologyExceedsBounds topo2) eqn:B; [|exact E2]. cbn [fst] in E2. subst t2. by rewrite (so_bounds _ (va_schema _ V)) in B. }
  split; [by intros i n; apply (ext_node t topo2 t2 ctx' nodes)|]. intros j e Hj He Hd. rewrite map_edges_Edges, list_lookup_fmap, (ext_edge t topo2 t2 nodes Hs Hdef j e Hj He).
  cbn [fmap option_fmap option_map]. f_equal. rewrite <- (Hfix e He) at 2. destruct (Href e He) as [[f F] [n N]].
  pose proof (ext_nodeMap t topo2 t2 ctx' nodes Hs Hnode Hdom V Hdef Ha Hext) as Hmap.
  apply write_back_ext; [unfold roleByNode; by rewrite F, (Hmap _ _ F)|unfold roleByNode; by rewrite N, (Hmap _ _ N)|].
  unfold edge_alloc. destruct (Edge_IsEnabled e) eqn:En; [|done]. destruct (groupLinks_inv t) as (_ & Hcov & _).
  destruct (Hcov (e, f, n)) as (l & Hl & Hk); [by apply enabledEdges_spec|]. cbn [fst] in Hk. rewrite <- Hk in *. destruct (Hm l Hl) as [-> Hc].
  pose proof (ext_link t topo2 t2 ctx' nodes Hs Hnode Hdom V Hdef Ha Hext l Href Hl (Hd eq_refl)) as Hl2.
  destruct (preallocate_link_entry _ _ _ _ (groupLinks_NoDup _) Hm2 Hl2) as (b & -> & Hcb & Hkb). f_equal. by apply (complete_pins_kept l).
Qed.

(** Edges that are appended change no driver, so they keep every old edge. *)
Lemma appended_driver t t2 extra e :
  Topology_Edges t2 = Topology_Edges t ++ extra -> e ∈ Topology_Edges t -> Edge_IsEnabled e = true -> driver t2 (LinkKey e) = driver t (LinkKey e).
Proof.
  intros E He En. unfold driver. rewrite E. clear E. induction (Topology_Edges t) as [|x xs IH]; [set_solver|]. cbn [app List.find].
  destruct (_ && _) eqn:Hx; [done|]. apply IH. apply elem_of_cons in He as [<-|He]; [|done]. by rewrite En, String.eqb_refl in Hx.
Qed.

(** ** Witnesses *)

Lemma CompileAt_idempotent_witness :
  exists ws', CompileAt ex_probe Background (CR_Topology ex_result) ex_keys None "" = (CR_Topology ex_result, Some (Ok (ex_result, ws'))).
Proof.
  destruct (CompileAt_idempotent ex_probe Background Background ex_compile_topo ex_keys None None "" ex_compile_topo ex_result [] ex_CompileAt eq_refl) as [ws' Hw].
  exists ws'. assert (IsValid (validateAllocationPins (CR_Topology ex_result)) = true) as Hv by (vm_compute; reflexivity). rewrite Hv in Hw. exact Hw.
Defined.

(** A node and its link are put in front, a backup link at the end. *)
Definition ex_grown : Topology :=
  match CR_Topology ex_result with
  | mkTopology pr ds ns es ps v =>
      mkTopology pr ds (ex_node "x" "router" "d" "" (ex_caps true true) :: ns)
        (ex_edge "e9" "x" "a" "a.example" "" no_pins :: es ++ [ex_edge "e0" "a" "b" "b.example" "backup" no_pins]) ps v
  end.
Definition ex_grown_result : CompileResult :=
  match (CompileAt ex_probe Background ex_grown ex_keys None "").2 with Some (Ok (r, _)) => r | _ => ex_result end.

Lemma CompileAt_stable_witness :
  exists n e, Topology_Nodes (CR_Topology ex_result) !! 0%nat = Some n /\ Topology_Nodes (CR_Topology ex_grown_result) !! 1%nat = Some n /\
    Topology_Edges (CR_Topology ex_result) !! 0%nat = Some e /\ Topology_Edges (CR_Topology ex_grown_result) !! 1%nat = Some e.
Proof.
  assert (exists ws, CompileAt ex_probe Background ex_grown ex_keys None "" = (ex_grown, Some (Ok (ex_grown_result, ws)))) as [ws H2] by (eexists; vm_compute; reflexivity).
  assert (extends (CR_Topology ex_result) ex_grown) as Hext.
  { split.
    - replace (Topology_Domains ex_grown) with (Topology_Domains (CR_Topology ex_result)) by (vm_compute; reflexivity). done.
    - replace (Topology_Nodes ex_grown) with (ex_node "x" "router" "d" "" (ex_caps true true) :: Topology_Nodes (CR_Topology ex_result)) by (vm_compute; reflexivity). intros z Hz. by apply list_elem_of_further. }
  destruct (CompileAt_stable ex_probe Background Background ex_compile_topo ex_keys ex_keys None None "" "" ex_compile_topo ex_result [] ex_grown ex_grown ex_grown_result ws ex_CompileAt H2 Hext) as [Hn He].
  destruct (Topology_Nodes (CR_Topology ex_result) !! 0%nat) as [n|] eqn:E0; [|vm_compute in E0; discriminate E0].
  destruct (Topology_Edges (CR_Topology ex_result) !! 0%nat) as [e|] eqn:E1; [|vm_compute in E1; discriminate E1].
  exists n, e. split; [reflexivity|]. split; [|split; [reflexivity|]].
  - apply Hn; [|by eapply list_elem_of_lookup_2]. rewrite <- E0. vm_compute. reflexivity.
  - apply He; [rewrite <- E1; vm_compute; reflexivity|by eapply list_elem_of_lookup_2|]. intros _.
    assert (LinkKey <$> Topology_Edges (CR_Topology ex_result) !! 0%nat = Some (PinKey "a" "b")) as Hk by (vm_compute; reflexivity).
    rewrite E1 in Hk. injection Hk as ->. vm_compute. reflexivity.
Defined.

(** One link, compiled; then an edge in the other direction is put before it. *)
Definition ex_single : Topology :=
  ex_topology [mkDomain "d" "d" "10.11.0.0/24" "" "auto" "babel" [] "10.10.0.0/24"]
    [ex_node "a" "router" "d" "" (ex_caps true true); ex_node "b" "router" "d" "" (ex_caps true true)]
    [ex_edge "e1" "a" "b" "b.example" "" no_pins].
Definition ex_prepended (t : Topology) : Topology := set_Edges (ex_edge "e2" "b" "a" "a.example" "" no_pins :: Topology_Edges t) t.

(** The condition on the driver is needed.  A link is compiled and pinned; a reverse
    edge without pins is listed before it, and the compile succeeds and gives the link
    new transit and link-local addresses: the pins are read from the first edge of a
    link only, so the position of an edge decides whether they count. *)
Theorem prepended_edge_moves_pins :
  exists r r2, CompileAt ex_probe Background ex_single ∅ None "" = (ex_single, Some (Ok (r, []))) /\
    CompileAt ex_probe Background (ex_prepended (CR_Topology r)) ∅ None "" = (ex_prepended (CR_Topology r), Some (Ok (r2, []))) /\
    (pins_of <$> Topology_Edges (CR_Topology r)) = [mkPins 51820 51820 "10.10.0.1" "10.10.0.2" "fe80::1" "fe80::2"] /\
    (pins_of <$> Topology_Edges (CR_Topology r2)) =
      [mkPins 51820 51820 "10.10.0.1" "10.10.0.2" "fe80::1" "fe80::2"; mkPins 51820 51820 "10.10.0.2" "10.10.0.1" "fe80::2" "fe80::1"].
Proof. eexists _, _. split; [vm_compute; reflexivity|]. split; [vm_compute; reflexivity|]. split; vm_compute; reflexivity. Qed.

(** ** A link between two transit pools *)

Definition ex_two_pools : Topology :=
  ex_topology [mkDomain "d" "d" "10.11.0.0/24" "" "auto" "babel" [] "10.10.0.0/24"; mkDomain "f" "f" "10.12.0.0/24" "" "auto" "babel" [] "10.20.0.0/24"]
    [ex_node "a" "router" "d" "" (ex_caps true true); ex_node "b" "router" "f" "" (ex_caps true true)]
    [ex_edge "e1" "a" "b" "b.example" "" no_pins; ex_edge "e2" "b" "a" "a.example" "" no_pins].

(** The pin rules do object to some compiled topologies.  A link between domains with
    different transit pools is allocated from the pool of its first edge's source and
    the pair is written to both directions, but the validator wants the pins of an edge
    in the pool of that edge's own source: the compiled topology is rejected, and healing
    does not help.  Overlapping pools are the other case
    ([PipelineProps.overlapping_transit_pools_collide]). *)
Theorem two_pool_link_rejected :
  exists r, CompileAt ex_probe Background ex_two_pools ∅ None "" = (ex_two_pools, Some (Ok (r, []))) /\
    error_codes (ValidateSemantic (CR_Topology r)) = [CodePinTransitIPOutOfCIDR; CodePinTransitIPOutOfCIDR] /\
    (HealCollidingPins (CR_Topology r)).1 = CR_Topology r.
Proof. eexists. split; [vm_compute; reflexivity|]. split; vm_compute; reflexivity. Qed.
