(* ===== verification/PipelineErrors.v ===== *)
(** * The error paths of [CompileAt]

    After validation only capacity can stop a compile: the overlay addresses of a
    domain, the scan budget of an oversized domain, or a transit pool.  Ports
    never run out, no reference dangles and no CIDR fails to parse. *)

From stdpp Require Import base gmap strings list sets fin_sets.
From Stdlib Require Import ZArith Lia.
From S2P Require Import Prelude GoLib GoNet Model LinkID Allocator PeersAlloc PeersAllocProps PeersAllocCorrect PortCapacity Peers PeersProps Compiler CompilerProps Normalize Findings Semantic Schema SchemaProps Pipeline PipelineProps.

Local Open Scope Z_scope.

(** ** Overlay allocation *)

(** A domain whose CIDR has no host part to scan (a /32, say). *)
Definition no_host_part (d : Domain) : Prop :=
  exists n, ParseCIDR (Domain_CIDR d) = Some n /\ ~ 0 < net_bits n - net_ones n < 32.

Definition overlay_capacity (t : Topology) (e : goerror) : Prop :=
  error_code e = Some "compile_overlay_pool_exhausted"%string \/
  error_code e = Some "compile_overlay_scan_budget_exceeded"%string \/
  (error_code e = None /\ exists d, d ∈ Topology_Domains t /\ no_host_part d).

Lemma scan_host_Background tick sh nip used nets singles h t r :
  scan_host Background tick sh nip used nets singles h = Some (t, r) -> exists ip, r = Ok ip.
Proof.
  unfold scan_host, Background. destruct (_ =? 0); cbv zeta; cbn match; repeat case_match; intros [= _ <-]; eauto.
Qed.

Lemma allocateFromCIDR_Err t d tick used t' e :
  d ∈ Topology_Domains t -> domain_schema_ok d ->
  allocateFromCIDR Background tick (Domain_CIDR d) (Domain_ReservedRanges d) used = (t', Err e) -> overlay_capacity t e.
Proof.
  intros Hd [_ _ (n & b & Hp & Hb & _) _]. unfold allocateFromCIDR, ipToUint32. rewrite Hp, Hb.
  destruct (split_reserved _) as [nets singles].
  destruct (Z.eqb_spec (net_bits n - net_ones n) 0) as [E0|E0].
  { intros [= _ <-]. right. right. split; [done|]. exists d. split; [done|]. exists n. split; [done|]. lia. }
  destruct (Z.leb_spec 32 (net_bits n - net_ones n)) as [E1|E1].
  { intros [= _ <-]. right. right. split; [done|]. exists d. split; [done|]. exists n. split; [done|]. lia. }
  cbv zeta. match goal with |- context [maxOverlayScanBudget <? ?x] => destruct (maxOverlayScanBudget <? x) end.
  { intros [= _ <-]. right. by left. }
  match goal with |- context [first_from ?f ?s ?k] => destruct (first_from f s k) as [[t2 r]|] eqn:F end.
  - intros [= _ ->]. apply first_from_Some in F as (i & _ & Hs & _). by apply scan_host_Background in Hs as [? ?].
  - intros [= _ <-]. by left.
Qed.

Lemma overlay_capacity_Wrapped t msg e : overlay_capacity t e -> overlay_capacity t (Wrapped msg e).
Proof. done. Qed.

Lemma alloc_nodes_Err t tick used nodes e :
  (forall d, d ∈ Topology_Domains t -> domain_schema_ok d) ->
  (forall n, n ∈ nodes -> is_Some (domainMap t (Node_DomainID n))) ->
  alloc_nodes Background t tick used nodes = Err e -> overlay_capacity t e.
Proof.
  intros Hds. revert tick used. induction nodes as [|n nodes IH]; intros tick used Hn; [done|]. cbn [alloc_nodes].
  assert (forall tick used f, rbind (alloc_nodes Background t tick used nodes) (fun out => Ok (f :: out)) = Err e ->
    overlay_capacity t e) as Hrest.
  { intros tick' used' f. destruct (alloc_nodes Background t tick' used' nodes) eqn:E; [done|]. intros [= ->].
    eapply IH; eauto. intros; apply Hn; by right. }
  destruct (negb _); [apply Hrest|]. destruct (Hn n) as [d Hd]; [by left|]. rewrite Hd.
  destruct (allocateFromCIDR _ _ _ _ _) as [t' [ip|e']] eqn:E; [apply Hrest|]. intros [= <-].
  apply overlay_capacity_Wrapped. eapply allocateFromCIDR_Err; eauto.
  - by apply find_last_Some in Hd as [? _].
  - apply Hds. by apply find_last_Some in Hd as [? _].
Qed.

Lemma AllocateIPs_Err t e :
  validated t -> AllocateIPs Background t = Err e -> overlay_capacity t e.
Proof.
  intros V. unfold AllocateIPs. cbn [Background]. apply alloc_nodes_Err; [apply (so_domains _ (va_schema _ V))|].
  intros n (n0 & -> & Hn)%list_elem_of_fmap.
  assert (Node_DomainID (clear_stale t n0) = Node_DomainID n0) as ->
    by (destruct (clear_stale_cases t n0) as [->| ->]; [done|by destruct n0]).
  apply (va_domains _ V); [done|]. by apply nso_domain, (so_nodes _ (va_schema _ V)).
Qed.

(** ** Link allocation *)

Lemma length_group_from t xs : (length (group_from t xs) <= length xs)%nat.
Proof.
  induction xs as [|x xs IH] using rev_ind; [done|]. rewrite group_from_snoc, length_app. cbn [length].
  destruct (find_link _ _); rewrite ?length_app; cbn [length]; lia.
Qed.

Lemma length_enabledEdges t : (length (enabledEdges t) <= length (Topology_Edges t))%nat.
Proof.
  unfold enabledEdges. induction (Topology_Edges t) as [|e es IH]; [done|]. cbn -[nodeMap].
  repeat case_match; cbn [length] in *; lia.
Qed.

Lemma length_groupLinks t : (length (groupLinks t) <= length (Topology_Edges t))%nat.
Proof.
  change (groupLinks t) with (group_from t (enabledEdges t)). pose proof (length_group_from t (enabledEdges t)).
  pose proof (length_enabledEdges t). lia.
Qed.

Lemma validated_edges_bound t : validated t -> (length (Topology_Edges t) <= maxTopologyEdges)%nat.
Proof.
  intros V. pose proof (so_bounds _ (va_schema _ V)) as H. unfold topologyExceedsBounds in H.
  repeat (apply orb_false_iff in H as [H ?]). by apply Nat.ltb_ge.
Qed.

(** The pool of a link of a validated topology is an IPv4 network. *)
Lemma validated_transit ctx t nodes l :
  validated t -> AllocateIPs ctx t = Ok nodes -> l ∈ groupLinks (allocated_topo t nodes) ->
  exists k, transitPoolPairCount (lk_transitCIDR l) = Ok k.
Proof.
  intros V Ha Hl. destruct (groupLinks_inv (allocated_topo t nodes)) as (_ & _ & Hs).
  destruct (Hs l Hl) as ([[e f] n] & _ & ->). cbn [link_of lk_transitCIDR].
  assert (exists k, transitPoolPairCount DefaultTransitCIDR = Ok k) as Hdef by (eexists; vm_compute; reflexivity).
  unfold transitCIDRForNode. change (domainMap (allocated_topo t nodes)) with (domainMap t).
  destruct (domainMap t (Node_DomainID f)) as [d|] eqn:Hd; [|done].
  destruct (non_empty (Domain_TransitCIDR d)) eqn:Hne; [|done].
  apply find_last_Some in Hd as [Hin _]. apply non_empty_true in Hne as Hne'.
  destruct (dso_transit _ (so_domains _ (va_schema _ V) d Hin) Hne') as (net & b & Hp & Hb & _).
  unfold transitPoolPairCount, default_transit. rewrite Hne, Hp, Hb. destruct (_ <? 2); eauto.
Qed.

Lemma gapFillTransitPair_Err cidr used k e :
  transitPoolPairCount cidr = Ok k -> gapFillTransitPair cidr used = Err e ->
  error_code e = Some "compile_transit_pool_exhausted"%string.
Proof.
  intros Hk. unfold gapFillTransitPair. rewrite Hk. cbn [rbind]. destruct (k <=? 0); [by intros [= <-]|].
  destruct (first_from _ _ _); [done|]. by intros [= <-].
Qed.

(** ** Claim *)

(** C27. Why a compile can fail: once a topology passed validation, a full
    compile under a context that is not cancelled fails only because the overlay
    addresses of a domain are exhausted, because a domain is larger than the
    scan budget, because a domain's CIDR has no host part, or because a transit
    pool is exhausted.  In particular listen ports never run out. *)
Theorem CompileAt_failure_causes probe topo keys dflt t1 e :
  CompileAt probe Background topo keys None dflt = (t1, Some (Err (CompileFailed e))) ->
  overlay_capacity t1 e \/ error_code e = Some "compile_transit_pool_exhausted"%string.
Proof.
  unfold CompileAt. destruct (ValidateSchema probe topo) as [t fs] eqn:E. intros [= -> H].
  destruct (IsValid fs) eqn:V1; [|done]. destruct (IsValid (ValidateSemantic t1)) eqn:V2; [|done]. cbn [negb] in H.
  assert (validated t1) as V by (apply ValidateSemantic_clean; [by eapply ValidateSchema_ok|done]).
  destruct (compile_passes _ _ _ _ _) as [[r|e']|] eqn:C; try done. injection H as ->. revert C.
  unfold compile_passes. destruct (AllocateIPs Background t1) as [nodes|ea] eqn:Ha.
  - rewrite derivePeers_unfold. destruct (preallocateLinkResources _ _) as [m|ep] eqn:Hm; cbn [rbind]; [done|].
    intros [= <-]. right. cbn [error_code].
    apply preallocate_Err in Hm as (l & used & err & Hl & Hg & ->); cbn [error_code].
    + destruct (validated_transit _ _ _ _ V Ha Hl) as [k Hk]. by eapply gapFillTransitPair_Err.
    + apply groupLinks_NoDup.
    + intros l. by apply (validated_no_self Background).
    + pose proof (length_groupLinks (allocated_topo t1 nodes)) as H1. pose proof (validated_edges_bound t1 V) as H2.
      change (Topology_Edges (allocated_topo t1 nodes)) with (Topology_Edges t1) in H1.
      unfold maxTopologyEdges, port_range, WGListenPortBase, seed in *. cbn [default usedPorts empty_pools]. rewrite size_empty. lia.
  - intros [= <-]. left. apply overlay_capacity_Wrapped. by apply AllocateIPs_Err.
Qed.

(** Two nodes on a /31 whose two addresses are reserved. *)
Definition ex_full_topo : Topology :=
  ex_topology [mkDomain "d" "d" "10.11.0.0/31" "" "auto" "babel" ["10.11.0.0/31"] ""]
    [ex_node "a" "router" "d" "" (ex_caps true true); ex_node "b" "router" "d" "" (ex_caps true true)]
    [ex_edge "e1" "a" "b" "b.example" "" no_pins].

Lemma CompileAt_failure_causes_witness :
  exists e, CompileAt ex_probe Background ex_full_topo ex_keys None "" = (ex_full_topo, Some (Err (CompileFailed e))) /\
    overlay_capacity ex_full_topo e.
Proof.
  eexists. split; [vm_compute; reflexivity|].
  edestruct (CompileAt_failure_causes ex_probe ex_full_topo ex_keys "" ex_full_topo) as [H|H];
    [vm_compute; reflexivity|exact H|vm_compute in H; discriminate H].
Defined.
