(* ===== verification/StoreTypes.v ===== *)
(** * Records of the controller's store ([internal/controller/store.go])

    One record per struct.  Times are nanoseconds since the Unix epoch.  The
    marshalled form of a record is a [value]: what the source relies on in
    [encoding/json] is that a record it wrote reads back as itself
    ([JSONRecord]); bytes that are not such a record are [VGarbage]. *)

From stdpp Require Import base gmap strings list.
From Stdlib Require Import ZArith.
From S2P Require Import Prelude.

Local Open Scope Z_scope.

Definition TenantID : Type := string.

(** [runtimecontract.Condition] *)
Record Condition := mkCondition {
  Condition_Type : string;
  Condition_Status : string;
  Condition_Reason : string;
  Condition_Message : string;
  Condition_Since : string }.

Record NodeCondition := mkNodeCondition {
  NodeCondition_Condition : Condition;
  NodeCondition_ObservedAt : Z }.

Definition NodePending : string := "pending".
Definition NodeApproved : string := "approved".
Definition NodeRevoked : string := "revoked".

Record RegistryNode := mkRegistryNode {
  RN_NodeID : string;
  RN_WGPublicKey : string;
  RN_APITokenHash : string;
  RN_Status : string;
  RN_DesiredGeneration : Z;
  RN_AppliedGeneration : Z;
  RN_LastChecksum : string;
  RN_LastHealth : string;
  RN_LastAgentVersion : string;
  RN_Conditions : list NodeCondition;
  RN_Telemetry : list (string * string);
  RN_LastSeen : Z;
  RN_EnrolledAt : Z;
  RN_RekeyRequested : bool }.

Definition set_APITokenHash (h : string) (n : RegistryNode) : RegistryNode :=
  match n with mkRegistryNode a b _ d e f g i j k l m o p => mkRegistryNode a b h d e f g i j k l m o p end.
Definition set_DesiredGeneration (v : Z) (n : RegistryNode) : RegistryNode :=
  match n with mkRegistryNode a b c d _ f g i j k l m o p => mkRegistryNode a b c d v f g i j k l m o p end.

Record TopologyRecord := mkTopologyRecord {
  TR_Version : Z;
  TR_JSON : string;
  TR_UpdatedAt : Z }.

Definition TopologyHistoryLimit : Z := 10.

Record TopologyVersionInfo := mkVersionInfo {
  TVI_Version : Z;
  TVI_UpdatedAt : Z;
  TVI_Bytes : Z }.

Record SignedBundle := mkSignedBundle {
  SB_NodeID : string;
  SB_Generation : Z;
  SB_Files : list (string * string);
  SB_IsStaged : bool;
  SB_IsCurrent : bool;
  SB_CreatedAt : Z }.

Definition set_flags (staged current : bool) (b : SignedBundle) : SignedBundle :=
  match b with mkSignedBundle i g f _ _ c => mkSignedBundle i g f staged current c end.

Record AuditEntry := mkAuditEntry {
  AE_Seq : Z;
  AE_Timestamp : Z;
  AE_Actor : string;
  AE_Action : string;
  AE_NodeID : string;
  AE_EventID : string;
  AE_PrevHash : string;
  AE_Hash : string }.

Record OperatorCredential := mkOperatorCredential {
  OC_Alg : string;
  OC_CredentialID : string;
  OC_PublicKeyPEM : string;
  OC_RPID : string;
  OC_Origin : string }.

Record PendingKeystoneTransition := mkPending {
  PKT_Expected : option OperatorCredential;
  PKT_Next : OperatorCredential;
  PKT_Audit : AuditEntry }.

Record StoredTrustList := mkTrustList {
  TL_TrustListJSON : string;
  TL_SignatureJSON : string;
  TL_Epoch : Z;
  TL_PromotedGeneration : Z }.

Definition set_PromotedGeneration (g : Z) (sl : StoredTrustList) : StoredTrustList :=
  match sl with mkTrustList a b c _ => mkTrustList a b c g end.

Record StagedSet := mkStagedSet {
  SS_Generation : Z;
  SS_Bundles : list SignedBundle;
  SS_TrustList : option StoredTrustList }.

Record ServedConfig := mkServedConfig {
  SC_Bundle : SignedBundle;
  SC_KeystoneOn : bool;
  SC_TrustList : option StoredTrustList }.

Record EnrollmentToken := mkEnrollmentToken {
  ET_TokenHash : string;
  ET_NodeID : string;
  ET_ExpiresAt : Z;
  ET_ConsumedAt : option Z }.

Record LoginCredential := mkLoginCredential {
  LC_Alg : string;
  LC_CredentialID : string;
  LC_PublicKeyPEM : string;
  LC_RPID : string;
  LC_Origin : string }.

Record Operator := mkOperator {
  OP_Username : string;
  OP_PasswordHash : string;
  OP_CreatedAt : Z;
  OP_UpdatedAt : Z;
  OP_TOTPSecret : string;
  OP_TOTPLastUsedStep : Z;
  OP_LoginCredential : option LoginCredential }.

Record TOTPState := mkTOTPState {
  TOTP_Secret : string;
  TOTP_LastUsedStep : Z }.

Record AssertionChallenge := mkChallenge {
  AC_ChallengeHash : string;
  AC_Subject : string;
  AC_ExpiresAt : Z }.

Record Session := mkSession {
  SE_TokenHash : string;
  SE_Operator : string;
  SE_CreatedAt : Z;
  SE_ExpiresAt : Z }.

Record SigningAnchor := mkSigningAnchor { SA_PubKeyPEM : string }.

(** [apiTokenIndex] and [stagedSetSeal] of the core. *)
Record apiTokenIndex := mkTokenIndex { TI_NodeID : string }.

Record stagedSetSeal := mkSeal {
  Seal_Generation : Z;
  Seal_NodeIDs : list string;
  Seal_Historical : bool;
  Seal_HasTrustList : bool;
  Seal_TrustListSHA256 : string;
  Seal_TrustListEpoch : Z }.

(** [internal/model/artifact.go] *)
Record Artifact := mkArtifact { Artifact_Asset : string; Artifact_SHA256 : string }.
Record MimicDebPin := mkMimicDebPin { MDP_Asset : string; MDP_SHA256 : string; MDP_DKMSAsset : string; MDP_DKMSSHA256 : string }.

Record ControllerSettings := mkSettings {
  CS_PublicAgentURL : string;
  CS_GithubProxy : string;
  CS_AgentReleaseBaseURL : string;
  CS_MimicVersion : string;
  CS_MimicReleaseBase : string;
  CS_MimicDebs : gmap string MimicDebPin;
  CS_MimicFallbackDefault : string;
  CS_TargetAgentVersion : string;
  CS_MinAgentVersion : string;
  CS_AgentBins : gmap string Artifact;
  CS_AgentCanaryNodeIDs : list string;
  CS_AgentRolloutFleetWide : bool;
  CS_Translucency : option bool;
  CS_TelemetryHistoryCap : option Z }.

#[export] Instance OperatorCredential_eq_dec : EqDecision OperatorCredential.
Proof. solve_decision. Defined.
#[export] Instance LoginCredential_eq_dec : EqDecision LoginCredential.
Proof. solve_decision. Defined.
#[export] Instance TOTPState_eq_dec : EqDecision TOTPState.
Proof. solve_decision. Defined.
#[export] Instance AuditEntry_eq_dec : EqDecision AuditEntry.
Proof. solve_decision. Defined.
#[export] Instance PendingKeystoneTransition_eq_dec : EqDecision PendingKeystoneTransition.
Proof. solve_decision. Defined.

(** ** Stored bytes *)

Inductive value :=
| VNode (n : RegistryNode)
| VBundle (b : SignedBundle)
| VTopology (r : TopologyRecord)
| VToken (t : EnrollmentToken)
| VChallenge (c : AssertionChallenge)
| VTokenIndex (i : apiTokenIndex)
| VOperator (o : Operator)
| VSession (s : Session)
| VCredential (c : OperatorCredential)
| VPending (p : PendingKeystoneTransition)
| VTrustList (sl : StoredTrustList)
| VSeal (s : stagedSetSeal)
| VAnchor (a : SigningAnchor)
| VSettings (cs : ControllerSettings)
| VGarbage (bytes : string).

(** What the core needs of [json.MarshalIndent] and [json.Unmarshal]. *)
Class JSONRecord (A : Type) := {
  to_json : A -> value;
  of_json : value -> option A;
  of_to_json : forall a, of_json (to_json a) = Some a }.

#[export] Instance RegistryNode_json : JSONRecord RegistryNode.
Proof. refine {| to_json := VNode; of_json v := match v with VNode n => Some n | _ => None end |}; done. Defined.
#[export] Instance SignedBundle_json : JSONRecord SignedBundle.
Proof. refine {| to_json := VBundle; of_json v := match v with VBundle b => Some b | _ => None end |}; done. Defined.
#[export] Instance TopologyRecord_json : JSONRecord TopologyRecord.
Proof. refine {| to_json := VTopology; of_json v := match v with VTopology b => Some b | _ => None end |}; done. Defined.
#[export] Instance EnrollmentToken_json : JSONRecord EnrollmentToken.
Proof. refine {| to_json := VToken; of_json v := match v with VToken b => Some b | _ => None end |}; done. Defined.
#[export] Instance AssertionChallenge_json : JSONRecord AssertionChallenge.
Proof. refine {| to_json := VChallenge; of_json v := match v with VChallenge b => Some b | _ => None end |}; done. Defined.
#[export] Instance apiTokenIndex_json : JSONRecord apiTokenIndex.
Proof. refine {| to_json := VTokenIndex; of_json v := match v with VTokenIndex b => Some b | _ => None end |}; done. Defined.
#[export] Instance Operator_json : JSONRecord Operator.
Proof. refine {| to_json := VOperator; of_json v := match v with VOperator b => Some b | _ => None end |}; done. Defined.
#[export] Instance Session_json : JSONRecord Session.
Proof. refine {| to_json := VSession; of_json v := match v with VSession b => Some b | _ => None end |}; done. Defined.
#[export] Instance OperatorCredential_json : JSONRecord OperatorCredential.
Proof. refine {| to_json := VCredential; of_json v := match v with VCredential b => Some b | _ => None end |}; done. Defined.
#[export] Instance PendingKeystoneTransition_json : JSONRecord PendingKeystoneTransition.
Proof. refine {| to_json := VPending; of_json v := match v with VPending b => Some b | _ => None end |}; done. Defined.
#[export] Instance StoredTrustList_json : JSONRecord StoredTrustList.
Proof. refine {| to_json := VTrustList; of_json v := match v with VTrustList b => Some b | _ => None end |}; done. Defined.
#[export] Instance stagedSetSeal_json : JSONRecord stagedSetSeal.
Proof. refine {| to_json := VSeal; of_json v := match v with VSeal b => Some b | _ => None end |}; done. Defined.
#[export] Instance SigningAnchor_json : JSONRecord SigningAnchor.
Proof. refine {| to_json := VAnchor; of_json v := match v with VAnchor b => Some b | _ => None end |}; done. Defined.
#[export] Instance ControllerSettings_json : JSONRecord ControllerSettings.
Proof. refine {| to_json := VSettings; of_json v := match v with VSettings b => Some b | _ => None end |}; done. Defined.
