(* ===== verification/StoreMonad.v ===== *)
(** * Storage port, faults and crashes ([internal/controller/kv.go])

    [KVBackend] is the record port the core is written over, [KVLaws] what the
    core may assume of a backend.  A store operation is an [Act]: it runs under a
    schedule of faults that decides, for every call of a primitive, whether it
    works, returns an error (with or without having taken effect) or the process
    dies there.  [withLock] makes each operation one step, so histories are
    sequences of operations, each complete, failed or cut short by a crash. *)

From stdpp Require Import base gmap strings list sorting.
From Stdlib Require Import ZArith Lia.
From S2P Require Import Prelude GoLib StoreTypes.

Local Open Scope Z_scope.

(** ** The port *)

Class KVBackend (S : Type) := {
  kv_get : TenantID -> string -> string -> S -> option value;
  kv_put : TenantID -> string -> string -> value -> S -> S;
  kv_del : TenantID -> string -> string -> S -> S;
  kv_list : TenantID -> string -> S -> list (string * value);
  kv_generation : TenantID -> S -> Z;
  kv_setGeneration : TenantID -> Z -> S -> S }.

(** [get] after [put] and [del], [list] as the sorted view of [get], and the
    independence of records and generation. *)
Class KVLaws (S : Type) `{KVBackend S} := {
  get_put : forall s t c k v t' c' k',
    kv_get t' c' k' (kv_put t c k v s) =
    if decide (t' = t /\ c' = c /\ k' = k) then Some v else kv_get t' c' k' s;
  get_del : forall s t c k t' c' k',
    kv_get t' c' k' (kv_del t c k s) =
    if decide (t' = t /\ c' = c /\ k' = k) then None else kv_get t' c' k' s;
  get_setGeneration : forall s t g t' c' k', kv_get t' c' k' (kv_setGeneration t g s) = kv_get t' c' k' s;
  generation_put : forall s t c k v t', kv_generation t' (kv_put t c k v s) = kv_generation t' s;
  generation_del : forall s t c k t', kv_generation t' (kv_del t c k s) = kv_generation t' s;
  generation_setGeneration : forall s t g t',
    kv_generation t' (kv_setGeneration t g s) = if decide (t' = t) then g else kv_generation t' s;
  elem_of_kv_list : forall s t c k v, (k, v) ∈ kv_list t c s <-> kv_get t c k s = Some v;
  kv_list_NoDup : forall s t c, NoDup (kv_list t c s).*1;
  kv_list_sorted : forall s t c, StronglySorted String.le (kv_list t c s).*1 }.

Definition collNodes : string := "nodes".
Definition collStaged : string := "staged".
Definition collCurrent : string := "current".
Definition collTokens : string := "tokens".
Definition collLoginChal : string := "loginchal".
Definition collAPITokens : string := "apitokens".
Definition collOperators : string := "operators".
Definition collSessions : string := "sessions".
Definition collTopoHistory : string := "topohistory".
Definition collTopology : string := "topology".
Definition collOperatorCred : string := "operatorcred".
Definition collKeystoneTransition : string := "keystonetransition".
Definition collStagedTL : string := "stagedtl".
Definition collStagedTLHist : string := "stagedtlhist".
Definition collStagedSeal : string := "stagedseal".
Definition collServedTL : string := "servedtl".
Definition collSigningAnchor : string := "signinganchor".
Definition collSettings : string := "settings".

(** ** Errors *)

(** The sentinels of [store.go], and the errors that wrap or surround them. *)
Inductive store_error :=
| ErrNotFound
| ErrNoStagedBundle
| ErrIncompleteStagedSet (reason : string)
| ErrIncompleteStagedSetBy (reason : string) (inner : store_error)
| ErrTokenInvalid
| ErrTokenConsumed
| ErrChallengeInvalid
| ErrOperatorCredentialChanged
| ErrLoginCredentialChanged
| ErrTopologyChanged
| ErrTOTPStateChanged
| ErrPendingKeystoneTransitionConflict (unresolved other : string)
| ErrUncommittedPromotion (what : string) (generation committed : Z)
| ErrKeystoneAuditRequired
| ErrDuplicateWGKey
| ErrInvalidWGKey
| ErrNodeRevoked
| ErrNoPinnedCredential
| ErrNoStagedManifest
| ErrStagedManifestMismatch
| ErrManifestSignatureInvalid
| ErrTelemetryProbesRequireKeystone
| CodedError (code : string) (params : list (string * string))
| JoinedError (a b : store_error)
| PlainError (msg : string)
| WrappedError (msg : string) (inner : store_error)
| ParseError (coll key : string)
| BackendError (msg : string)
| ContextError (reason : string).

(** [errors.Is(err, ErrNotFound)] *)
Fixpoint is_not_found (e : store_error) : bool :=
  match e with ErrNotFound => true | WrappedError _ i => is_not_found i | JoinedError a b => is_not_found a || is_not_found b | _ => false end.

(** ** Actions *)

(** What happens at one call of a primitive. *)
Inductive fault :=
| NoFault
| Fails (applied : bool) (msg : string)
| Crashes (applied : bool).

Definition Faults : Type := nat -> fault.
Definition no_faults : Faults := fun _ => NoFault.

Inductive outcome (S A : Type) :=
| Done (a : A) (s : S) (calls : nat)
| Failed (e : store_error) (s : S) (calls : nat)
| Crashed (s : S).
Arguments Done {S A} a s calls.
Arguments Failed {S A} e s calls.
Arguments Crashed {S A} s.

(** The state the store is left in. *)
Definition outcome_state {S A} (o : outcome S A) : S :=
  match o with Done _ s _ | Failed _ s _ | Crashed s => s end.

Definition Act (S A : Type) : Type := Faults -> S -> nat -> outcome S A.

Definition ret {S A} (a : A) : Act S A := fun _ s n => Done a s n.
Definition fail {S A} (e : store_error) : Act S A := fun _ s n => Failed e s n.
Definition abind {S A B} (m : Act S A) (k : A -> Act S B) : Act S B :=
  fun fs s n =>
    match m fs s n with
    | Done a s' n' => k a fs s' n'
    | Failed e s' n' => Failed e s' n'
    | Crashed s' => Crashed s'
    end.

(** The error of [m] as a value, for the [switch err := ...] idiom. *)
Definition attempt {S A} (m : Act S A) : Act S (result store_error A) :=
  fun fs s n =>
    match m fs s n with
    | Done a s' n' => Done (Ok a) s' n'
    | Failed e s' n' => Done (Err e) s' n'
    | Crashed s' => Crashed s'
    end.

Declare Scope store_scope.
Delimit Scope store_scope with store.
Notation "'do!' x '<-' m 'in' k" := (abind m (fun x => k))
  (at level 10, x pattern, m at level 100, k at level 200) : store_scope.
Notation "m ';;!' k" := (abind m (fun _ => k)) (at level 100, k at level 200, right associativity) : store_scope.
Local Open Scope store_scope.

(** [if err := ctx.Err(); err != nil { return err }] *)
Definition check_ctx {S} (ctx : option string) : Act S unit :=
  match ctx with Some r => fail (ContextError r) | None => ret tt end.

(** [for _, x := range xs { if err := f(x); err != nil { return err } }] *)
Fixpoint for_all {S A} (f : A -> Act S unit) (xs : list A) : Act S unit :=
  match xs with
  | [] => ret tt
  | x :: xs' => f x ;;! for_all f xs'
  end.

(** [_ = m]: the error is dropped. *)
Definition ignore {S A} (m : Act S A) : Act S unit := attempt m ;;! ret tt.

(** A whole operation runs under the store lock. *)
Definition withLock {S A} (m : Act S A) : Act S A := m.

Section Primitives.
Context {S : Type} `{KVBackend S}.

Definition prim_read {A} (f : S -> A) : Act S A :=
  fun fs s n =>
    match fs n with
    | NoFault => Done (f s) s (n + 1)%nat
    | Fails _ msg => Failed (BackendError msg) s (n + 1)%nat
    | Crashes _ => Crashed s
    end.

Definition prim_write (f : S -> S) : Act S unit :=
  fun fs s n =>
    match fs n with
    | NoFault => Done tt (f s) (n + 1)%nat
    | Fails applied msg => Failed (BackendError msg) (if applied then f s else s) (n + 1)%nat
    | Crashes applied => Crashed (if applied then f s else s)
    end.

Definition get (t : TenantID) (coll key : string) : Act S (option value) := prim_read (kv_get t coll key).
Definition put (t : TenantID) (coll key : string) (v : value) : Act S unit := prim_write (kv_put t coll key v).
Definition del (t : TenantID) (coll key : string) : Act S unit := prim_write (kv_del t coll key).
Definition list_records (t : TenantID) (coll : string) : Act S (list (string * value)) := prim_read (kv_list t coll).
Definition generation (t : TenantID) : Act S Z := prim_read (kv_generation t).
Definition setGeneration (t : TenantID) (g : Z) : Act S unit := prim_write (kv_setGeneration t g).

Definition loadJSON {A} `{JSONRecord A} (t : TenantID) (coll key : string) : Act S A :=
  do! b <- get t coll key in
  match b with
  | None => fail ErrNotFound
  | Some v => match of_json v with Some a => ret a | None => fail (ParseError coll key) end
  end.

Definition saveJSON {A} `{JSONRecord A} (t : TenantID) (coll key : string) (a : A) : Act S unit :=
  put t coll key (to_json a).
End Primitives.

(** ** Reasoning

    [spec m P Q E C]: from a state in [P], whatever the faults, [m] ends in [Q]
    when it returns a value, in [E] when it returns an error and in [C] when the
    process dies. *)

Definition spec {S A} (m : Act S A) (P : S -> Prop) (Q : A -> S -> Prop) (E : store_error -> S -> Prop) (C : S -> Prop) : Prop :=
  forall fs s n, P s ->
    match m fs s n with
    | Done a s' _ => Q a s'
    | Failed e s' _ => E e s'
    | Crashed s' => C s'
    end.

(** [m] keeps [I] however it ends. *)
Definition keeps {S A} (m : Act S A) (I : S -> Prop) : Prop := spec m I (fun _ => I) (fun _ => I) I.

Section Rules.
Context {S : Type}.

Lemma spec_ret {A} (a : A) (P : S -> Prop) Q E C : (forall s, P s -> Q a s) -> spec (ret a) P Q E C.
Proof. intros H fs s n Hs. by apply H. Qed.

Lemma spec_fail {A} e (P : S -> Prop) (Q : A -> S -> Prop) E C : (forall s, P s -> E e s) -> spec (fail e) P Q E C.
Proof. intros H fs s n Hs. by apply H. Qed.

Lemma spec_bind {A B} (m : Act S A) (k : A -> Act S B) P R Q E C :
  spec m P R E C -> (forall a, spec (k a) (R a) Q E C) -> spec (abind m k) P Q E C.
Proof.
  intros Hm Hk fs s n Hs. unfold abind. specialize (Hm fs s n Hs). destruct (m fs s n) as [a s' n'|e s' n'|s']; [|done..].
  by apply Hk.
Qed.

Lemma spec_attempt {A} (m : Act S A) P (Q : result store_error A -> S -> Prop) E C :
  spec m P (fun a => Q (Ok a)) (fun e => Q (Err e)) C -> spec (attempt m) P Q E C.
Proof. intros Hm fs s n Hs. unfold attempt. specialize (Hm fs s n Hs). by destruct (m fs s n). Qed.

Lemma spec_weaken {A} (m : Act S A) (P P' : S -> Prop) (Q Q' : A -> S -> Prop) (E E' : store_error -> S -> Prop) (C C' : S -> Prop) :
  spec m P' Q' E' C' -> (forall s, P s -> P' s) -> (forall a s, Q' a s -> Q a s) -> (forall e s, E' e s -> E e s) ->
  (forall s, C' s -> C s) -> spec m P Q E C.
Proof.
  intros Hm HP HQ HE HC fs s n Hs. specialize (Hm fs s n (HP s Hs)). destruct (m fs s n); auto.
Qed.

(** Sequencing after a specification with stronger error and crash conditions. *)
Lemma spec_seq {A B} (m : Act S A) (k : A -> Act S B) (P P' : S -> Prop) R Q (E E' : store_error -> S -> Prop) (C C' : S -> Prop) :
  spec m P' R E' C' -> (forall s, P s -> P' s) -> (forall e s, E' e s -> E e s) -> (forall s, C' s -> C s) ->
  (forall a, spec (k a) (R a) Q E C) -> spec (abind m k) P Q E C.
Proof. intros Hm HP HE HC Hk. eapply spec_bind; [|exact Hk]. by eapply spec_weaken. Qed.

(** A state-independent precondition. *)
Lemma spec_pure {A} (m : Act S A) (phi : Prop) (P : S -> Prop) Q E C : (phi -> spec m P Q E C) -> spec m (fun s => P s /\ phi) Q E C.
Proof. intros Hm fs s n [Hs Hphi]. by apply Hm. Qed.

Lemma spec_ctx {A} ctx (m : Act S A) P Q (E : store_error -> S -> Prop) C :
  (forall r s, ctx = Some r -> P s -> E (ContextError r) s) -> spec m P Q E C -> spec (check_ctx ctx ;;! m) P Q E C.
Proof. intros HE Hm. destruct ctx as [r|]; [|exact Hm]. intros fs s n Hs. by apply HE. Qed.

Lemma spec_ignore {A} (m : Act S A) P (Q : S -> Prop) E C :
  spec m P (fun _ => Q) (fun _ => Q) C -> spec (ignore m) P (fun _ => Q) E C.
Proof.
  intros Hm. unfold ignore. apply (spec_bind _ _ _ (fun _ => Q)); [by apply spec_attempt|]. intros r. by apply spec_ret.
Qed.

Lemma spec_for_all {A} (f : A -> Act S unit) xs (I : list A -> S -> Prop) E C :
  (forall pre x post, xs = pre ++ x :: post -> spec (f x) (I pre) (fun _ => I (pre ++ [x])) E C) ->
  spec (for_all f xs) (I []) (fun _ => I xs) E C.
Proof.
  intros Hf. enough (forall rest pre, xs = pre ++ rest -> spec (for_all f rest) (I pre) (fun _ => I xs) E C) as H by (by apply (H xs [])).
  intros rest. induction rest as [|x rest IH]; intros pre Hxs; cbn [for_all].
  - apply spec_ret. rewrite app_nil_r in Hxs. by rewrite Hxs.
  - eapply spec_bind; [by eapply Hf|]. intros u. apply IH. by rewrite <- app_assoc.
Qed.

Lemma spec_read {A} (f : S -> A) (P : S -> Prop) (Q : A -> S -> Prop) (E : store_error -> S -> Prop) (C : S -> Prop) :
  (forall s, P s -> Q (f s) s) -> (forall msg s, P s -> E (BackendError msg) s) -> (forall s, P s -> C s) ->
  spec (prim_read f) P Q E C.
Proof. intros HQ HE HC fs s n Hs. unfold prim_read. destruct (fs n); auto. Qed.

Lemma spec_write (f : S -> S) (P : S -> Prop) (Q : unit -> S -> Prop) (E : store_error -> S -> Prop) (C : S -> Prop) :
  (forall s, P s -> Q tt (f s)) ->
  (forall msg s, P s -> E (BackendError msg) s /\ E (BackendError msg) (f s)) -> (forall s, P s -> C s /\ C (f s)) ->
  spec (prim_write f) P Q E C.
Proof.
  intros HQ HE HC fs s n Hs. unfold prim_write. destruct (fs n) as [|[] msg|[]]; auto; by apply HE || by apply HC.
Qed.
End Rules.
