(* ===== verification/MemKV.v ===== *)
(** * The in-memory backend ([internal/controller/memstore.go])

    [memkv] keeps tenant -> collection -> key -> bytes in nested maps, created on
    the first write, and the generation counters.  It implements the port and its
    laws, so every theorem about the core holds of the store the tests run. *)

From stdpp Require Import base gmap strings list sorting.
From Stdlib Require Import ZArith.
From S2P Require Import Prelude StoreTypes StoreMonad.

Local Open Scope Z_scope.

Record memkv := mkMemkv {
  mk_data : gmap TenantID (gmap string (gmap string value));
  mk_gen : gmap TenantID Z }.

Definition newMemkv : memkv := mkMemkv ∅ ∅.

(** [collMap]: an absent path reads as an empty map. *)
Definition collMap (t : TenantID) (coll : string) (m : memkv) : gmap string value :=
  default ∅ (default ∅ (mk_data m !! t) !! coll).

Definition set_coll (t : TenantID) (coll : string) (byKey : gmap string value) (m : memkv) : memkv :=
  mkMemkv (<[ t := <[ coll := byKey ]> (default ∅ (mk_data m !! t)) ]> (mk_data m)) (mk_gen m).

Definition mem_get (t : TenantID) (coll key : string) (m : memkv) : option value := collMap t coll m !! key.
Definition mem_put (t : TenantID) (coll key : string) (v : value) (m : memkv) : memkv :=
  set_coll t coll (<[ key := v ]> (collMap t coll m)) m.
Definition mem_del (t : TenantID) (coll key : string) (m : memkv) : memkv :=
  match mk_data m !! t with
  | None => m
  | Some byColl => match byColl !! coll with
                   | None => m
                   | Some byKey => set_coll t coll (delete key byKey) m
                   end
  end.
Definition mem_list (t : TenantID) (coll : string) (m : memkv) : list (string * value) :=
  sort_by fst (map_to_list (collMap t coll m)).
Definition mem_generation (t : TenantID) (m : memkv) : Z := default 0 (mk_gen m !! t).
Definition mem_setGeneration (t : TenantID) (g : Z) (m : memkv) : memkv := mkMemkv (mk_data m) (<[ t := g ]> (mk_gen m)).

#[export] Instance memkv_backend : KVBackend memkv := {|
  kv_get := mem_get; kv_put := mem_put; kv_del := mem_del; kv_list := mem_list;
  kv_generation := mem_generation; kv_setGeneration := mem_setGeneration |}.

Lemma collMap_set_coll t c byKey m t' c' :
  collMap t' c' (set_coll t c byKey m) = if decide (t' = t /\ c' = c) then byKey else collMap t' c' m.
Proof.
  unfold collMap, set_coll. cbn [mk_data]. destruct (decide (t' = t)) as [->|Ht].
  - rewrite lookup_insert_eq. cbn [from_option id]. destruct (decide (c' = c)) as [->|Hc].
    + rewrite lookup_insert_eq. by destruct (decide (t = t /\ c = c)); [|tauto].
    + rewrite lookup_insert_ne by done. by destruct (decide (t = t /\ c' = c)) as [[_ ?]|].
  - rewrite lookup_insert_ne by done. by destruct (decide (t' = t /\ c' = c)) as [[? _]|].
Qed.

Lemma mem_del_set_coll t c k m t' c' :
  collMap t' c' (mem_del t c k m) = if decide (t' = t /\ c' = c) then delete k (collMap t c m) else collMap t' c' m.
Proof.
  unfold mem_del. destruct (mk_data m !! t) as [byColl|] eqn:Et.
  - destruct (byColl !! c) as [byKey|] eqn:Ec.
    + rewrite collMap_set_coll. unfold collMap. rewrite Et. cbn [from_option id]. by rewrite Ec.
    + destruct (decide _) as [[-> ->]|]; [|done]. unfold collMap. rewrite Et. cbn [from_option id]. rewrite Ec. cbn [from_option id]. by rewrite delete_empty.
  - destruct (decide _) as [[-> ->]|]; [|done]. unfold collMap. rewrite Et. cbn [from_option id]. rewrite lookup_empty. cbn [from_option id]. by rewrite delete_empty.
Qed.

Lemma StronglySorted_keys {A} (key : A -> string) (xs : list A) :
  StronglySorted (key_le key) xs -> StronglySorted String.le (key <$> xs).
Proof.
  induction 1 as [|x xs _ IH Hx]; cbn; constructor; [done|]. apply Forall_fmap. exact Hx.
Qed.

#[export] Instance memkv_laws : KVLaws memkv.
Proof.
  split; cbn [kv_get kv_put kv_del kv_list kv_generation kv_setGeneration memkv_backend]; intros.
  - unfold mem_get, mem_put. rewrite collMap_set_coll. destruct (decide (t' = t /\ c' = c)) as [[-> ->]|Hn].
    + destruct (decide (k' = k)) as [->|Hk].
      * rewrite lookup_insert_eq. by destruct (decide _); [|tauto].
      * rewrite lookup_insert_ne by done. by destruct (decide _) as [(_ & _ & ?)|].
    + by destruct (decide _) as [(? & ? & _)|]; [destruct Hn|].
  - unfold mem_get. rewrite mem_del_set_coll. destruct (decide (t' = t /\ c' = c)) as [[-> ->]|Hn].
    + destruct (decide (k' = k)) as [->|Hk].
      * rewrite lookup_delete_eq. by destruct (decide _); [|tauto].
      * rewrite lookup_delete_ne by done. by destruct (decide _) as [(_ & _ & ?)|].
    + by destruct (decide _) as [(? & ? & _)|]; [destruct Hn|].
  - done.
  - done.
  - unfold mem_generation, mem_del. by repeat case_match.
  - unfold mem_generation, mem_setGeneration. cbn [mk_gen]. destruct (decide (t' = t)) as [->|].
    + by rewrite lookup_insert_eq.
    + by rewrite lookup_insert_ne.
  - unfold mem_list, mem_get. by rewrite sort_by_perm, elem_of_map_to_list.
  - unfold mem_list. rewrite sort_by_perm. apply NoDup_fst_map_to_list.
  - apply (StronglySorted_keys fst), sort_by_sorted.
Qed.
