(* ===== verification/StoreCore.v ===== *)
(** * The store core ([internal/controller/storecore.go])

    Every operation of the core over the record port: registry, topology history,
    enrollment tokens, assertion challenges, node API tokens, keystone
    credentials, operators and sessions.  Operations take their context as the
    error a first [ctx.Err()] returns, and the clock reading they stamp.  The
    telemetry overlay and the settings cache are not part of this model. *)

From stdpp Require Import base gmap strings list sorting.
From Stdlib Require Import ZArith Lia Ascii.
From S2P Require Import Prelude GoLib GoSha LinkID StoreTypes StoreMonad.

Local Open Scope Z_scope.
Local Open Scope store_scope.

(** [strconv.ParseInt(s, 10, 64)] *)
Definition strconv_ParseInt (s : string) : option Z :=
  let '(neg, body) :=
    match s with
    | String c r => if bool_decide (c = "-"%char) then (true, r)
                    else if bool_decide (c = "+"%char) then (false, r) else (false, s)
    | EmptyString => (false, s)
    end in
  if String.eqb body "" || negb (str_forall is_digit body) then None
  else
    let v := if (neg : bool) then - digits_val 10 0 body else digits_val 10 0 body in
    if (- 2 ^ 63 <=? v) && (v <? 2 ^ 63) then Some v else None.

(** [switch err := loadJSON(...)]: a missing record is [None]. *)
Definition load_optional {S} `{KVBackend S} {A} `{JSONRecord A} (t : TenantID) (coll key : string) : Act S (option A) :=
  do! r <- attempt (loadJSON t coll key) in
  match r with
  | Ok a => ret (Some a)
  | Err e => if is_not_found e then ret None else fail e
  end.

Section Core.
Context {S : Type} `{KVBackend S}.

(** ** Registry *)

Definition UpsertNode (ctx : option string) (t : TenantID) (n : RegistryNode) : Act S unit :=
  check_ctx ctx ;;! withLock (saveJSON t collNodes (RN_NodeID n) n).

Definition GetNodeRecord (ctx : option string) (t : TenantID) (nodeID : string) : Act S RegistryNode :=
  check_ctx ctx ;;! withLock (loadJSON t collNodes nodeID).

(** ** Topology *)

Definition loadTopologyForWriteLocked (t : TenantID) : Act S TopologyRecord :=
  do! r <- load_optional t collTopology "" in
  ret (match r with Some prev => prev | None => mkTopologyRecord 0 "" 0 end).

(** The pruning loop drops its errors; a listing error ends it. *)
Definition prune_history (t : TenantID) (cutoff : Z) : Act S unit :=
  if 0 <? cutoff then
    do! r <- attempt (list_records t collTopoHistory) in
    match r with
    | Err _ => ret tt
    | Ok recs =>
        for_all (fun r : string * value =>
          match strconv_ParseInt r.1 with
          | Some v => if v <=? cutoff then ignore (del t collTopoHistory r.1) else ret tt
          | None => ret tt
          end) recs
    end
  else ret tt.

Definition backfill (t : TenantID) (prev : TopologyRecord) : Act S unit :=
  if 0 <? TR_Version prev then
    do! b <- get t collTopoHistory (strconv_Itoa (TR_Version prev)) in
    match b with
    | None => saveJSON t collTopoHistory (strconv_Itoa (TR_Version prev)) prev
    | Some _ => ret tt
    end
  else ret tt.

Definition putTopologyAfterLocked (t : TenantID) (prev : TopologyRecord) (jsonBytes : string) (now : Z) : Act S TopologyRecord :=
  let rec := mkTopologyRecord (i64 (TR_Version prev + 1)) jsonBytes now in
  backfill t prev ;;!
  saveJSON t collTopoHistory (strconv_Itoa (TR_Version rec)) rec ;;!
  saveJSON t collTopology "" rec ;;!
  prune_history t (i64 (TR_Version rec - TopologyHistoryLimit)) ;;!
  ret rec.

Definition PutTopology (ctx : option string) (t : TenantID) (jsonBytes : string) (now : Z) : Act S TopologyRecord :=
  check_ctx ctx ;;!
  withLock (do! prev <- loadTopologyForWriteLocked t in putTopologyAfterLocked t prev jsonBytes now).

Definition CompareAndSetTopology (ctx : option string) (t : TenantID) (expectedVersion : Z) (jsonBytes : string) (now : Z)
  : Act S TopologyRecord :=
  check_ctx ctx ;;!
  withLock (
    do! prev <- loadTopologyForWriteLocked t in
    if negb (TR_Version prev =? expectedVersion) then fail ErrTopologyChanged
    else if String.eqb (TR_JSON prev) jsonBytes then ret prev
    else putTopologyAfterLocked t prev jsonBytes now).

Definition GetTopology (ctx : option string) (t : TenantID) : Act S TopologyRecord :=
  check_ctx ctx ;;! withLock (loadJSON t collTopology "").

(** One record of the history listing: its version info, unless it is skipped. *)
Definition version_info (cur : TopologyRecord) (r : string * value) : option TopologyVersionInfo :=
  match strconv_ParseInt r.1 with
  | Some v =>
      if (v <=? 0) || (TR_Version cur <? v) then None
      else match of_json r.2 with
           | Some h => if TR_Version h =? v
                       then Some (mkVersionInfo (TR_Version h) (TR_UpdatedAt h) (Z.of_nat (String.length (TR_JSON h))))
                       else None
           | None => None
           end
  | None => None
  end.

(** Newest first. *)
Definition newer (a b : TopologyVersionInfo) : Prop := TVI_Version b <= TVI_Version a.
#[export] Instance newer_dec : RelDecision newer.
Proof. intros a b. unfold newer. apply _. Defined.

Definition ListTopologyVersions (ctx : option string) (t : TenantID) : Act S (list TopologyVersionInfo) :=
  check_ctx ctx ;;!
  withLock (
    do! r <- load_optional t collTopology "" in
    match r with
    | None => ret []
    | Some cur =>
        do! recs <- list_records t collTopoHistory in
        let out := omap (version_info cur) recs in
        let sawCurrent := existsb (fun i => TVI_Version i =? TR_Version cur) out in
        let out' := if sawCurrent then out
                    else out ++ [mkVersionInfo (TR_Version cur) (TR_UpdatedAt cur) (Z.of_nat (String.length (TR_JSON cur)))] in
        ret (merge_sort newer out')
    end).

Definition GetTopologyVersion (ctx : option string) (t : TenantID) (version : Z) : Act S TopologyRecord :=
  check_ctx ctx ;;!
  if version <=? 0 then fail ErrNotFound
  else
    withLock (
      do! cur <- loadJSON t collTopology "" in
      if TR_Version cur <? version then fail ErrNotFound
      else if version =? TR_Version cur then ret cur
      else loadJSON t collTopoHistory (strconv_Itoa version)).

(** ** Bundles and generation (reads) *)

Definition GetCurrentBundle (ctx : option string) (t : TenantID) (nodeID : string) : Act S SignedBundle :=
  check_ctx ctx ;;! withLock (loadJSON t collCurrent nodeID).

Definition CurrentGeneration (ctx : option string) (t : TenantID) : Act S Z :=
  check_ctx ctx ;;! withLock (generation t).

(** ** Enrollment tokens *)

Definition CreateEnrollmentToken (ctx : option string) (t : TenantID) (tok : EnrollmentToken) : Act S unit :=
  check_ctx ctx ;;! withLock (saveJSON t collTokens (ET_TokenHash tok) tok).

(** [switch loadJSON]: the record, or the error a miss stands for. *)
Definition load_or {A} `{JSONRecord A} (t : TenantID) (coll key : string) (miss : store_error) : Act S A :=
  do! r <- load_optional t coll key in
  match r with Some a => ret a | None => fail miss end.

Definition ConsumeEnrollmentToken (ctx : option string) (t : TenantID) (tokenHash nodeID : string) (now : Z) : Act S unit :=
  check_ctx ctx ;;!
  withLock (
    do! tok <- load_or t collTokens tokenHash ErrTokenInvalid in
    if negb (String.eqb (ET_NodeID tok) nodeID) || negb (now <? ET_ExpiresAt tok) then fail ErrTokenInvalid
    else match ET_ConsumedAt tok with
         | Some _ => fail ErrTokenConsumed
         | None => saveJSON t collTokens tokenHash (mkEnrollmentToken (ET_TokenHash tok) (ET_NodeID tok) (ET_ExpiresAt tok) (Some now))
         end).

(** The count of a run that fails half-way is returned with its error in the
    source; callers see the error. *)
Fixpoint purge_tokens (t : TenantID) (nodeID : string) (recs : list (string * value)) (n : Z) : Act S Z :=
  match recs with
  | [] => ret n
  | r :: rest =>
      match of_json r.2 with
      | Some tok =>
          if String.eqb (ET_NodeID tok) nodeID
          then del t collTokens r.1 ;;! purge_tokens t nodeID rest (n + 1)
          else purge_tokens t nodeID rest n
      | None => purge_tokens t nodeID rest n
      end
  end.

Definition PurgeEnrollmentTokensForNode (ctx : option string) (t : TenantID) (nodeID : string) : Act S Z :=
  check_ctx ctx ;;!
  withLock (do! recs <- list_records t collTokens in purge_tokens t nodeID recs 0).

(** ** Assertion challenges *)

Definition createAssertionChallenge (ctx : option string) (t : TenantID) (challenge : AssertionChallenge) (now : Z)
    (replaceSubject : bool) : Act S unit :=
  check_ctx ctx ;;!
  withLock (
    do! recs <- list_records t collLoginChal in
    for_all (fun r : string * value =>
      match of_json r.2 with
      | None => ret tt
      | Some prior =>
          if negb (now <? AC_ExpiresAt prior) || (replaceSubject && String.eqb (AC_Subject prior) (AC_Subject challenge))
          then del t collLoginChal r.1 else ret tt
      end) recs ;;!
    saveJSON t collLoginChal (AC_ChallengeHash challenge) challenge).

Definition CreateAssertionChallenge (ctx : option string) (t : TenantID) (challenge : AssertionChallenge) (now : Z) : Act S unit :=
  createAssertionChallenge ctx t challenge now false.
Definition ReplaceAssertionChallengeForSubject (ctx : option string) (t : TenantID) (challenge : AssertionChallenge) (now : Z) : Act S unit :=
  createAssertionChallenge ctx t challenge now true.

Definition ConsumeAssertionChallenge (ctx : option string) (t : TenantID) (challengeHash subject : string) (now : Z) : Act S unit :=
  check_ctx ctx ;;!
  withLock (
    do! challenge <- load_or t collLoginChal challengeHash ErrChallengeInvalid in
    if negb (now <? AC_ExpiresAt challenge) then del t collLoginChal challengeHash ;;! fail ErrChallengeInvalid
    else if negb (String.eqb (AC_Subject challenge) subject) then fail ErrChallengeInvalid
    else del t collLoginChal challengeHash).

(** ** Node API tokens *)

Definition IssueNodeAPIToken (ctx : option string) (t : TenantID) (nodeID tokenHash : string) : Act S unit :=
  check_ctx ctx ;;!
  withLock (
    do! n <- loadJSON t collNodes nodeID in
    (if negb (String.eqb (RN_APITokenHash n) "") && negb (String.eqb (RN_APITokenHash n) tokenHash)
     then del t collAPITokens (RN_APITokenHash n) else ret tt) ;;!
    saveJSON t collNodes nodeID (set_APITokenHash tokenHash n) ;;!
    saveJSON t collAPITokens tokenHash (mkTokenIndex nodeID)).

Definition LookupNodeByAPIToken (ctx : option string) (t : TenantID) (tokenHash : string) : Act S RegistryNode :=
  check_ctx ctx ;;!
  withLock (
    do! idx <- load_or t collAPITokens tokenHash ErrTokenInvalid in
    do! n <- load_or t collNodes (TI_NodeID idx) ErrTokenInvalid in
    if negb (String.eqb (RN_APITokenHash n) tokenHash) || negb (String.eqb (RN_Status n) NodeApproved)
    then fail ErrTokenInvalid else ret n).

Definition RevokeNodeAPIToken (ctx : option string) (t : TenantID) (nodeID : string) : Act S unit :=
  check_ctx ctx ;;!
  withLock (
    do! r <- load_optional t collNodes nodeID in
    match r with
    | None => ret tt
    | Some n =>
        if String.eqb (RN_APITokenHash n) "" then ret tt
        else
          saveJSON t collNodes nodeID (set_APITokenHash "" n) ;;!
          del t collAPITokens (RN_APITokenHash n)
    end).

(** ** Keystone credential *)

Definition CompareAndSetOperatorCredential (ctx : option string) (t : TenantID) (expected : option OperatorCredential)
    (next : OperatorCredential) : Act S unit :=
  check_ctx ctx ;;!
  withLock (
    do! current <- load_optional t collOperatorCred "" in
    match expected, current with
    | None, Some _ => fail ErrOperatorCredentialChanged
    | None, None => saveJSON t collOperatorCred "" next
    | Some _, None => fail ErrOperatorCredentialChanged
    | Some e, Some c =>
        if negb (bool_decide (c = e)) then fail ErrOperatorCredentialChanged
        else if bool_decide (c = next) then ret tt
        else saveJSON t collOperatorCred "" next
    end).

Definition GetOperatorCredential (ctx : option string) (t : TenantID) : Act S OperatorCredential :=
  check_ctx ctx ;;! withLock (loadJSON t collOperatorCred "").

(** The zero [time.Time], year 1, as nanoseconds of Unix time. *)
Definition zero_time : Z := -62135596800 * 1000000000.

Definition CreatePendingKeystoneTransition (ctx : option string) (t : TenantID) (pending : PendingKeystoneTransition) : Act S unit :=
  check_ctx ctx ;;!
  if String.eqb (AE_EventID (PKT_Audit pending)) "" || (AE_Timestamp (PKT_Audit pending) =? zero_time) then
    fail (PlainError "controller: pending keystone transition requires an audit event id and timestamp")
  else
    withLock (
      do! current <- load_optional t collKeystoneTransition "" in
      match current with
      | Some c =>
          if String.eqb (AE_EventID (PKT_Audit c)) (AE_EventID (PKT_Audit pending)) && bool_decide (c = pending) then ret tt
          else fail (ErrPendingKeystoneTransitionConflict (AE_EventID (PKT_Audit c)) (AE_EventID (PKT_Audit pending)))
      | None => saveJSON t collKeystoneTransition "" pending
      end).

Definition GetPendingKeystoneTransition (ctx : option string) (t : TenantID) : Act S PendingKeystoneTransition :=
  check_ctx ctx ;;! withLock (loadJSON t collKeystoneTransition "").

Definition DeletePendingKeystoneTransition (ctx : option string) (t : TenantID) (eventID : string) : Act S unit :=
  check_ctx ctx ;;!
  if String.eqb eventID "" then fail (PlainError "controller: pending keystone transition deletion requires an event id")
  else
    withLock (
      do! current <- load_optional t collKeystoneTransition "" in
      match current with
      | None => ret tt
      | Some c =>
          if negb (String.eqb (AE_EventID (PKT_Audit c)) eventID)
          then fail (ErrPendingKeystoneTransitionConflict (AE_EventID (PKT_Audit c)) eventID)
          else del t collKeystoneTransition ""
      end).

(** ** Operators and sessions *)

Definition PutOperator (ctx : option string) (t : TenantID) (op : Operator) : Act S unit :=
  check_ctx ctx ;;! withLock (saveJSON t collOperators (OP_Username op) op).

Definition CompareAndSetLoginCredential (ctx : option string) (t : TenantID) (username : string)
    (expected next : option LoginCredential) (now : Z) : Act S unit :=
  check_ctx ctx ;;!
  withLock (
    do! op <- loadJSON t collOperators username in
    if negb (bool_decide (OP_LoginCredential op = expected)) then fail ErrLoginCredentialChanged
    else saveJSON t collOperators username
           (mkOperator (OP_Username op) (OP_PasswordHash op) (OP_CreatedAt op) now (OP_TOTPSecret op) (OP_TOTPLastUsedStep op) next)).

Definition CompareAndSetTOTPState (ctx : option string) (t : TenantID) (username : string) (expected next : TOTPState) (now : Z)
  : Act S unit :=
  check_ctx ctx ;;!
  withLock (
    do! op <- loadJSON t collOperators username in
    if negb (bool_decide (mkTOTPState (OP_TOTPSecret op) (OP_TOTPLastUsedStep op) = expected)) then fail ErrTOTPStateChanged
    else saveJSON t collOperators username
           (mkOperator (OP_Username op) (OP_PasswordHash op) (OP_CreatedAt op) now (TOTP_Secret next) (TOTP_LastUsedStep next)
              (OP_LoginCredential op))).

Definition GetOperator (ctx : option string) (t : TenantID) (username : string) : Act S Operator :=
  check_ctx ctx ;;! withLock (loadJSON t collOperators username).

(** [out = append(out, x)] over the listing; an unreadable record is an error. *)
Fixpoint decode_all {A} `{JSONRecord A} (coll : string) (recs : list (string * value)) : result store_error (list A) :=
  match recs with
  | [] => Ok []
  | r :: rest =>
      match of_json r.2 with
      | None => Err (ParseError coll r.1)
      | Some a => match decode_all coll rest with Ok xs => Ok (a :: xs) | Err e => Err e end
      end
  end.

Definition ListOperators (ctx : option string) (t : TenantID) : Act S (list Operator) :=
  check_ctx ctx ;;!
  withLock (
    do! recs <- list_records t collOperators in
    match decode_all collOperators recs with Ok out => ret out | Err e => fail e end).

Definition DeleteOperator (ctx : option string) (t : TenantID) (username : string) : Act S unit :=
  check_ctx ctx ;;! withLock (del t collOperators username).

Definition AdvanceTOTPStep (ctx : option string) (t : TenantID) (username : string) (step : Z) : Act S bool :=
  check_ctx ctx ;;!
  withLock (
    do! op <- loadJSON t collOperators username in
    if step <=? OP_TOTPLastUsedStep op then ret false
    else
      saveJSON t collOperators username
        (mkOperator (OP_Username op) (OP_PasswordHash op) (OP_CreatedAt op) (OP_UpdatedAt op) (OP_TOTPSecret op) step
           (OP_LoginCredential op)) ;;!
      ret true).

Definition CreateSession (ctx : option string) (t : TenantID) (sess : Session) : Act S unit :=
  check_ctx ctx ;;! withLock (saveJSON t collSessions (SE_TokenHash sess) sess).

Definition LookupSession (ctx : option string) (t : TenantID) (tokenHash : string) (now : Z) : Act S Session :=
  check_ctx ctx ;;!
  withLock (
    do! sess <- load_or t collSessions tokenHash ErrTokenInvalid in
    if negb (now <? SE_ExpiresAt sess) then del t collSessions tokenHash ;;! fail ErrTokenInvalid
    else ret sess).

Definition DeleteSession (ctx : option string) (t : TenantID) (tokenHash : string) : Act S unit :=
  check_ctx ctx ;;! withLock (del t collSessions tokenHash).

Definition GetSigningAnchor (ctx : option string) (t : TenantID) : Act S SigningAnchor :=
  check_ctx ctx ;;! withLock (loadJSON t collSigningAnchor "").

Definition PutSigningAnchor (ctx : option string) (t : TenantID) (a : SigningAnchor) : Act S unit :=
  check_ctx ctx ;;! withLock (saveJSON t collSigningAnchor "" a).

(** The settings as a record; the retention limit they also publish to the telemetry
    history belongs to that buffer. *)
Definition GetSettings (ctx : option string) (t : TenantID) : Act S ControllerSettings :=
  check_ctx ctx ;;! withLock (loadJSON t collSettings "").

Definition PutSettings (ctx : option string) (t : TenantID) (cs : ControllerSettings) : Act S unit :=
  check_ctx ctx ;;! withLock (saveJSON t collSettings "" cs).
End Core.
