(* ===== verification/StoreLogic.v ===== *)
(** * Reasoning about store operations

    [answer m s] is what [m] returns from [s] when nothing fails; [readonly m]
    says that [m] never changes the state and returns its answer unless the
    backend fails.  [spec] is correctness under every schedule of faults; with
    [clean] it gives total correctness of a run without faults ([spec_run]). *)

From stdpp Require Import base gmap strings list sorting.
From Stdlib Require Import ZArith Lia.
From S2P Require Import Prelude GoLib StoreTypes StoreMonad StoreCore.

Local Open Scope Z_scope.
Local Open Scope store_scope.

(** Errors that come from the backend. *)
Fixpoint backend_error (e : store_error) : Prop :=
  match e with
  | BackendError _ => True
  | ErrIncompleteStagedSetBy _ i | WrappedError _ i => backend_error i
  | JoinedError a b => backend_error a /\ backend_error b
  | _ => False
  end.

Lemma backend_error_not_found e : backend_error e -> is_not_found e = false.
Proof. induction e as [| | | | | | | | | | | | | | | | | | | | | | |a IHa b IHb| | | | |]; try done. cbn. intros [Ha Hb]. by rewrite IHa, IHb. Qed.

Definition answer {S A} (m : Act S A) (s : S) : result store_error A :=
  match m no_faults s 0%nat with
  | Done a _ _ => Ok a
  | Failed e _ _ => Err e
  | Crashed _ => Err (PlainError "crashed")
  end.

Record readonly {S A} (m : Act S A) : Prop := {
  readonly_any : forall fs s n,
    match m fs s n with
    | Done a s' _ => s' = s /\ answer m s = Ok a
    | Failed e s' _ => s' = s /\ (answer m s = Err e \/ backend_error e)
    | Crashed s' => s' = s
    end;
  readonly_clean : forall s n, exists n',
    m no_faults s n = match answer m s with Ok a => Done a s n' | Err e => Failed e s n' end }.

Section ReadOnly.
Context {S : Type}.

Lemma answer_ret {A} (a : A) (s : S) : answer (ret a) s = Ok a.
Proof. done. Qed.
Lemma answer_fail {A} e (s : S) : answer (@fail S A e) s = Err e.
Proof. done. Qed.

Lemma readonly_ret {A} (a : A) : readonly (@ret S A a).
Proof. split; intros; cbn; eauto. Qed.
Lemma readonly_fail {A} e : readonly (@fail S A e).
Proof. split; intros; cbn; eauto. Qed.

Lemma answer_bind {A B} (m : Act S A) (k : A -> Act S B) s :
  readonly m -> (forall a, readonly (k a)) -> answer (abind m k) s = rbind (answer m s) (fun a => answer (k a) s).
Proof.
  intros Hm Hk. destruct (readonly_clean _ Hm s 0%nat) as [n' Hn]. unfold answer at 1, abind. rewrite Hn.
  destruct (answer m s) as [a|e]; [|done]. destruct (readonly_clean _ (Hk a) s n') as [n2 Hn2]. rewrite Hn2. cbn [rbind].
  by destruct (answer (k a) s).
Qed.

Lemma readonly_bind {A B} (m : Act S A) (k : A -> Act S B) :
  readonly m -> (forall a, readonly (k a)) -> readonly (abind m k).
Proof.
  intros Hm Hk. split.
  - intros fs s n. pose proof (answer_bind m k s Hm Hk) as Ha. unfold abind at 1. pose proof (readonly_any _ Hm fs s n) as H1.
    destruct (m fs s n) as [a s1 n1|e s1 n1|s1]; [|..].
    + destruct H1 as [-> H1]. rewrite H1 in Ha. cbn [rbind] in Ha. rewrite Ha. apply (readonly_any _ (Hk a)).
    + destruct H1 as [-> [H1|H1]]; [|eauto]. rewrite H1 in Ha. eauto.
    + done.
  - intros s n. rewrite (answer_bind m k s Hm Hk). destruct (readonly_clean _ Hm s n) as [n1 H1]. unfold abind. rewrite H1.
    destruct (answer m s) as [a|e]; cbn [rbind]; [|eauto]. apply (readonly_clean _ (Hk a)).
Qed.

Lemma answer_attempt {A B} (m : Act S A) (k : result store_error A -> Act S B) s :
  readonly m -> (forall r, readonly (k r)) -> answer (abind (attempt m) k) s = answer (k (answer m s)) s.
Proof.
  intros Hm Hk. destruct (readonly_clean _ Hm s 0%nat) as [n' Hn]. unfold answer at 1, abind, attempt. rewrite Hn.
  destruct (answer m s) as [a|e].
  - destruct (readonly_clean _ (Hk (Ok a)) s n') as [n2 Hn2]. rewrite Hn2. by destruct (answer (k (Ok a)) s).
  - destruct (readonly_clean _ (Hk (Err e)) s n') as [n2 Hn2]. rewrite Hn2. by destruct (answer (k (Err e)) s).
Qed.

(** The error handler passes a backend error on. *)
Definition passes {A B} (k : result store_error A -> Act S B) : Prop :=
  forall e, backend_error e -> exists e', k (Err e) = fail e' /\ backend_error e'.

Lemma readonly_attempt {A B} (m : Act S A) (k : result store_error A -> Act S B) :
  readonly m -> (forall r, readonly (k r)) -> passes k -> readonly (abind (attempt m) k).
Proof.
  intros Hm Hk Hp. split.
  - intros fs s n. rewrite (answer_attempt m k s Hm Hk). unfold abind, attempt. pose proof (readonly_any _ Hm fs s n) as H1.
    destruct (m fs s n) as [a s1 n1|e s1 n1|s1]; [|..].
    + destruct H1 as [-> ->]. apply (readonly_any _ (Hk (Ok a))).
    + destruct H1 as [-> [->|He]]; [apply (readonly_any _ (Hk (Err e)))|].
      destruct (Hp e He) as (e' & -> & He'). cbn. eauto.
    + done.
  - intros s n. rewrite (answer_attempt m k s Hm Hk). destruct (readonly_clean _ Hm s n) as [n1 H1].
    unfold abind, attempt. rewrite H1. destruct (answer m s) as [a|e]; apply (readonly_clean _ (Hk _)).
Qed.

Lemma answer_read {A} (f : S -> A) s : answer (prim_read f) s = Ok (f s).
Proof. done. Qed.
Lemma readonly_read {A} (f : S -> A) : readonly (prim_read f).
Proof.
  split; intros; rewrite answer_read.
  - unfold prim_read. destruct (fs n); cbn; eauto.
  - cbn. eauto.
Qed.

(** A read-only action in the two logics. *)
Lemma spec_readonly {A} (m : Act S A) (P : S -> Prop) (Q : A -> S -> Prop) (E : store_error -> S -> Prop) (C : S -> Prop) :
  readonly m -> (forall s a, P s -> answer m s = Ok a -> Q a s) -> (forall s e, P s -> answer m s = Err e \/ backend_error e -> E e s) ->
  (forall s, P s -> C s) -> spec m P Q E C.
Proof.
  intros Hm HQ HE HC fs s n Hs. pose proof (readonly_any _ Hm fs s n) as H1.
  destruct (m fs s n) as [a s1 n1|e s1 n1|s1]; [destruct H1 as [-> ?]|destruct H1 as [-> ?]|subst s1]; eauto.
Qed.

(** [m] fails without faults only for reasons of its own. *)
Definition clean {A} (m : Act S A) : Prop :=
  forall s n, match m no_faults s n with
              | Done _ _ _ => True
              | Failed e _ _ => ~ backend_error e
              | Crashed _ => False
              end.

Lemma clean_ret {A} (a : A) : clean (ret a).
Proof. done. Qed.
Lemma clean_fail {A} e : ~ backend_error e -> clean (@fail S A e).
Proof. by intros He s n. Qed.
Lemma clean_read {A} (f : S -> A) : clean (prim_read f).
Proof. done. Qed.
Lemma clean_write (f : S -> S) : clean (prim_write f).
Proof. done. Qed.

Lemma clean_bind {A B} (m : Act S A) (k : A -> Act S B) : clean m -> (forall a, clean (k a)) -> clean (abind m k).
Proof. intros Hm Hk s n. unfold abind. specialize (Hm s n). destruct (m no_faults s n); [apply Hk|done..]. Qed.

Lemma clean_attempt {A B} (m : Act S A) (k : result store_error A -> Act S B) :
  clean m -> (forall a, clean (k (Ok a))) -> (forall e, ~ backend_error e -> clean (k (Err e))) -> clean (abind (attempt m) k).
Proof. intros Hm Hk He s n. unfold abind, attempt. specialize (Hm s n). destruct (m no_faults s n); [apply Hk|by apply He|done]. Qed.

Lemma clean_for_all {A} (f : A -> Act S unit) xs : (forall x, clean (f x)) -> clean (for_all f xs).
Proof. intros Hf. induction xs; cbn [for_all]; [apply clean_ret|by apply clean_bind]. Qed.

Lemma clean_ignore {A} (m : Act S A) : clean m -> clean (ignore m).
Proof. intros Hm. apply clean_attempt; [done|..]; intros; apply clean_ret. Qed.

Lemma clean_check_ctx ctx : clean (@check_ctx S ctx).
Proof. destruct ctx; [apply clean_fail|apply clean_ret]; auto. Qed.

(** Total correctness without faults, from the specification under faults. *)
Lemma spec_run {A} (m : Act S A) P Q E C s n :
  spec m P Q E C -> clean m -> P s -> (forall e s', E e s' -> ~ backend_error e -> False) ->
  exists a s' n', m no_faults s n = Done a s' n' /\ Q a s'.
Proof.
  intros Hm Hc Hs He. specialize (Hm no_faults s n Hs). specialize (Hc s n).
  destruct (m no_faults s n) as [a s' n'|e s' n'|s']; [eauto|by destruct (He e s')|done].
Qed.
End ReadOnly.

(** ** Loads *)

Section Loads.
Context {S : Type} `{KVBackend S} {A : Type} `{JSONRecord A}.

Definition decode (coll key : string) (v : option value) : result store_error A :=
  match v with
  | None => Err ErrNotFound
  | Some v => match of_json v with Some a => Ok a | None => Err (ParseError coll key) end
  end.

Definition decode_optional (coll key : string) (v : option value) : result store_error (option A) :=
  match v with
  | None => Ok None
  | Some v => match of_json v with Some a => Ok (Some a) | None => Err (ParseError coll key) end
  end.

Lemma readonly_loadJSON t coll key : readonly (loadJSON (A:=A) t coll key : Act S A).
Proof.
  apply readonly_bind; [apply readonly_read|]. intros [v|]; [|apply readonly_fail].
  destruct (of_json v); [apply readonly_ret|apply readonly_fail].
Qed.

Lemma answer_loadJSON t coll key s : answer (loadJSON t coll key) s = decode coll key (kv_get t coll key s).
Proof. unfold answer, loadJSON, abind, get, prim_read, no_faults, decode. destruct (kv_get t coll key s) as [v|]; [|done]. by destruct (of_json v). Qed.

Lemma readonly_load_optional t coll key : readonly (load_optional t coll key : Act S (option A)).
Proof.
  apply readonly_attempt.
  - apply readonly_loadJSON.
  - intros [a|e]; [apply readonly_ret|]. destruct (is_not_found e); [apply readonly_ret|apply readonly_fail].
  - intros e He. rewrite (backend_error_not_found e He). eauto.
Qed.

Lemma answer_load_optional t coll key s : answer (load_optional t coll key) s = decode_optional coll key (kv_get t coll key s).
Proof.
  unfold load_optional. rewrite answer_attempt.
  - rewrite answer_loadJSON. unfold decode, decode_optional. destruct (kv_get t coll key s) as [v|]; [|done]. by destruct (of_json v).
  - apply readonly_loadJSON.
  - intros [a|e]; [apply readonly_ret|]. destruct (is_not_found e); [apply readonly_ret|apply readonly_fail].
Qed.

Lemma readonly_load_or t coll key miss : readonly (load_or t coll key miss : Act S A).
Proof. apply readonly_bind; [apply readonly_load_optional|]. intros [a|]; [apply readonly_ret|apply readonly_fail]. Qed.
End Loads.

Lemma readonly_check_ctx {S} ctx : readonly (@check_ctx S ctx).
Proof. destruct ctx; [apply readonly_fail|apply readonly_ret]. Qed.

Lemma readonly_for_all {S A} (f : A -> Act S unit) xs : (forall x, readonly (f x)) -> readonly (for_all f xs).
Proof. intros Hf. induction xs; cbn [for_all]; [apply readonly_ret|by apply readonly_bind]. Qed.

(** A loop of checks passes when every check does. *)
Lemma answer_for_all {S A} (f : A -> Act S unit) xs s :
  (forall x, readonly (f x)) -> answer (for_all f xs) s = Ok tt <-> Forall (fun x => answer (f x) s = Ok tt) xs.
Proof.
  intros Hf. induction xs as [|x xs IH]; cbn [for_all]; [split; [by constructor|done]|].
  rewrite answer_bind; [|done|intros; by apply readonly_for_all]. rewrite Forall_cons, <- IH.
  destruct (answer (f x) s) as [[]|]; cbn [rbind]; [tauto|]. split; [done|]. by intros [? _].
Qed.

Section Reads.
Context {S : Type} `{KVBackend S}.
Lemma readonly_get t c k : readonly (get t c k : Act S _).
Proof. apply readonly_read. Qed.
Lemma readonly_list t c : readonly (list_records t c : Act S _).
Proof. apply readonly_read. Qed.
Lemma readonly_generation t : readonly (generation t : Act S _).
Proof. apply readonly_read. Qed.
Lemma answer_list t c s : answer (list_records t c) s = Ok (kv_list t c s).
Proof. done. Qed.
Lemma answer_generation t s : answer (generation t) s = Ok (kv_generation t s).
Proof. done. Qed.
End Reads.

Create HintDb readonly.
#[export] Hint Resolve readonly_ret readonly_fail readonly_get readonly_list readonly_generation readonly_loadJSON : readonly.
#[export] Hint Resolve readonly_load_optional readonly_load_or readonly_check_ctx readonly_for_all : readonly.

(** Decides [readonly] of an action by its structure, leaving the handlers of
    [attempt] to be checked. *)
Ltac readonly :=
  repeat first
    [ progress intros
    | match goal with |- readonly (abind (attempt _) _) => eapply readonly_attempt end
    | match goal with |- readonly (abind _ _) => eapply readonly_bind end
    | match goal with |- readonly (withLock _) => unfold withLock end
    | solve [eauto with readonly nocore]
    | match goal with |- readonly (match ?x with _ => _ end) => destruct x eqn:? end ].

Create HintDb clean.

(** Decides [clean] the same way. *)
Ltac clean :=
  repeat first
    [ progress intros
    | match goal with |- clean (abind (attempt _) _) => apply clean_attempt end
    | match goal with |- clean (abind _ _) => apply clean_bind end
    | match goal with |- clean (withLock _) => unfold withLock end
    | match goal with |- clean (for_all _ _) => apply clean_for_all end
    | match goal with |- clean (ignore _) => apply clean_ignore end
    | apply clean_ret | apply clean_check_ctx
    | apply clean_read | apply clean_write
    | apply clean_fail; first [assumption | exact (fun H => H)]
    | solve [eauto with clean nocore]
    | match goal with |- clean (match ?x with _ => _ end) => destruct x eqn:? end ].

Section Clean.
Context {S : Type} `{KVBackend S} {A : Type} `{JSONRecord A}.
Lemma clean_loadJSON t c k : clean (loadJSON t c k : Act S A).
Proof. unfold loadJSON, get. clean. Qed.
Lemma clean_load_optional t c k : clean (load_optional t c k : Act S (option A)).
Proof. unfold load_optional, loadJSON, get. clean. Qed.
End Clean.
#[export] Hint Resolve clean_loadJSON clean_load_optional : clean.

(** Reads through writes. *)
Ltac kv_simp :=
  repeat match goal with
    | |- context [kv_get _ _ _ (kv_put _ _ _ _ _)] => rewrite get_put
    | |- context [kv_get _ _ _ (kv_del _ _ _ _)] => rewrite get_del
    | |- context [kv_get _ _ _ (kv_setGeneration _ _ _)] => rewrite get_setGeneration
    | |- context [kv_generation _ (kv_put _ _ _ _ _)] => rewrite generation_put
    | |- context [kv_generation _ (kv_del _ _ _ _)] => rewrite generation_del
    | |- context [kv_generation _ (kv_setGeneration _ _ _)] => rewrite generation_setGeneration
    | |- context [@decide ?P ?D] =>
        let Hkv := fresh "Hkv" in
        lazymatch P with
        | ?a = _ /\ _ => destruct (@decide P D) as [(? & ? & Hkv)|Hkv]; [try discriminate; try subst a|]
        | _ => destruct (@decide P D) as [Hkv|Hkv]; [try discriminate|]
        end
    end.
