(* ===== verification/StoreStage.v ===== *)
(** * The staged-set transaction protocol ([internal/controller/storecore_stage.go])

    A candidate is a set of staged bundles and an optional trust-list, made
    promotable by a seal written last.  Promotion writes the live records and
    commits them by the generation counter.  The reads that serve a node
    ([GetServedConfig] and its relatives of [storecore.go]) are here too, since
    their guards are the other half of the protocol. *)

From stdpp Require Import base gmap strings list sorting.
From Stdlib Require Import ZArith Lia.
From S2P Require Import Prelude GoLib GoSha StoreTypes StoreMonad StoreCore.

Local Open Scope Z_scope.
Local Open Scope store_scope.

Definition trustListSHA256 (canonical : string) : string := sha256_hex canonical.

Fixpoint sameStringSet (a b : list string) : bool :=
  match a, b with
  | [], [] => true
  | x :: a', y :: b' => String.eqb x y && sameStringSet a' b'
  | _, _ => false
  end.

(** [sort.StringsAreSorted] *)
Fixpoint StringsAreSorted (ids : list string) : bool :=
  match ids with
  | x :: (y :: _) as rest => bool_decide (String.le x y) && StringsAreSorted rest
  | _ => true
  end.

(** No empty identifier and no two equal neighbours. *)
Fixpoint ids_wellformed (prev : option string) (ids : list string) : bool :=
  match ids with
  | [] => true
  | id :: rest => negb (String.eqb id "") && negb (bool_decide (prev = Some id)) && ids_wellformed (Some id) rest
  end.

(** The non-promotable marker that keeps the last trust-list readable. *)
Definition historical_seal (generation : Z) (sl : StoredTrustList) : stagedSetSeal :=
  mkSeal generation [] true true (trustListSHA256 (TL_TrustListJSON sl)) (TL_Epoch sl).

Section Stage.
Context {S : Type} `{KVBackend S}.

(** ** Guards and helpers *)

Definition require_bundle_committed (committed : Z) (r : string * value) : Act S unit :=
  match of_json r.2 with
  | None => fail (ParseError collCurrent r.1)
  | Some b =>
      if negb (String.eqb (SB_NodeID b) r.1) then fail (PlainError "controller: current bundle key contains another node id")
      else if committed <? SB_Generation b then fail (ErrUncommittedPromotion r.1 (SB_Generation b) committed)
      else ret tt
  end.

Definition requireCompletedPromotionLocked (t : TenantID) (committed : Z) : Act S unit :=
  do! recs <- list_records t collCurrent in
  for_all (require_bundle_committed committed) recs ;;!
  do! served <- load_optional t collServedTL "" in
  match served with
  | Some sl =>
      if committed <? TL_PromotedGeneration sl
      then fail (ErrUncommittedPromotion "served trust-list" (TL_PromotedGeneration sl) committed) else ret tt
  | None => ret tt
  end.

Fixpoint collect_staged (gen : Z) (recs : list (string * value)) : result store_error (list SignedBundle) :=
  match recs with
  | [] => Ok []
  | r :: rest =>
      match of_json r.2 with
      | None => Err (ParseError collStaged r.1)
      | Some b =>
          if negb (String.eqb (SB_NodeID b) r.1) then Err (PlainError "controller: staged bundle key contains another node id")
          else match collect_staged gen rest with
               | Err e => Err e
               | Ok bs => Ok (if SB_Generation b =? gen then b :: bs else bs)
               end
      end
  end.

(** The bundles and their keys, which are their node ids. *)
Definition stagedBundlesForGenerationLocked (t : TenantID) (gen : Z) : Act S (list SignedBundle * list string) :=
  do! recs <- list_records t collStaged in
  match collect_staged gen recs with
  | Ok bundles => ret (bundles, map SB_NodeID bundles)
  | Err e => fail e
  end.

Definition check_seal (seal : stagedSetSeal) : Act S stagedSetSeal :=
  if Seal_Generation seal <=? 0 then fail (ErrIncompleteStagedSet "seal has a non-positive generation")
  else if negb (StringsAreSorted (Seal_NodeIDs seal)) then fail (ErrIncompleteStagedSet "seal node ids are not canonical")
  else if Seal_Historical seal && (negb (Nat.eqb (length (Seal_NodeIDs seal)) 0) || negb (Seal_HasTrustList seal))
  then fail (ErrIncompleteStagedSet "historical seal must contain only a trust-list")
  else if negb (ids_wellformed None (Seal_NodeIDs seal))
  then fail (ErrIncompleteStagedSet "seal contains an empty or duplicate node id")
  else if Bool.eqb (Seal_HasTrustList seal) (String.eqb (Seal_TrustListSHA256 seal) "")
  then fail (ErrIncompleteStagedSet "seal trust-list fields are inconsistent")
  else ret seal.

Definition loadSealLocked (t : TenantID) : Act S stagedSetSeal :=
  do! r <- attempt (loadJSON t collStagedSeal "") in
  match r with
  | Err e => if is_not_found e then fail e else fail (ErrIncompleteStagedSetBy "cannot read staged-set seal: " e)
  | Ok seal => check_seal seal
  end.

Definition loadSealedTrustListLocked (t : TenantID) (seal : stagedSetSeal) : Act S (option StoredTrustList) :=
  if negb (Seal_HasTrustList seal) then ret None
  else
    do! r <- attempt (loadJSON t collStagedTL "") in
    match r with
    | Err e => if is_not_found e then fail (ErrIncompleteStagedSet "sealed trust-list record is absent")
               else fail (ErrIncompleteStagedSetBy "cannot read sealed trust-list: " e)
    | Ok sl =>
        if negb (TL_Epoch sl =? Seal_TrustListEpoch seal)
           || negb (String.eqb (trustListSHA256 (TL_TrustListJSON sl)) (Seal_TrustListSHA256 seal))
        then fail (ErrIncompleteStagedSet "staged trust-list bytes or epoch do not match the seal")
        else ret (Some sl)
    end.

Definition candidate_seal (gen : Z) (ids : list string) (sl : option StoredTrustList) : stagedSetSeal :=
  match sl with
  | Some sl => mkSeal gen ids false true (trustListSHA256 (TL_TrustListJSON sl)) (TL_Epoch sl)
  | None => mkSeal gen ids false false "" 0
  end.

Definition saveSealForGenerationLocked (t : TenantID) (gen : Z) (sl : option StoredTrustList) (allowEmpty : bool) : Act S unit :=
  do! r <- stagedBundlesForGenerationLocked t gen in
  let ids := r.2 in
  let empty := Nat.eqb (length ids) 0 in
  if empty && bool_decide (sl = None) then ret tt
  else if empty && negb allowEmpty then ret tt
  else saveJSON t collStagedSeal "" (candidate_seal gen ids sl).

(** Errors read as no manifest. *)
Definition pendingSealedTrustListLocked (t : TenantID) (nextGeneration : Z) : Act S (option StoredTrustList) :=
  do! r <- attempt (loadSealLocked t) in
  match r with
  | Err _ => ret None
  | Ok seal =>
      if Seal_Historical seal || negb (Seal_Generation seal =? nextGeneration) || negb (Seal_HasTrustList seal) then ret None
      else
        do! m <- attempt (loadSealedTrustListLocked t seal) in
        match m with Ok sl => ret sl | Err _ => ret None end
  end.

(** ** Staging *)

Definition StageBundle (ctx : option string) (t : TenantID) (b : SignedBundle) : Act S unit :=
  check_ctx ctx ;;!
  if String.eqb (SB_NodeID b) "" || (SB_Generation b <=? 0)
  then fail (PlainError "controller: staged bundle requires a node id and positive generation")
  else
    withLock (
      do! cur <- generation t in
      requireCompletedPromotionLocked t cur ;;!
      let next := i64 (cur + 1) in
      do! manifest <- pendingSealedTrustListLocked t next in
      del t collStagedSeal "" ;;!
      saveJSON t collStaged (SB_NodeID b) (set_flags true false b) ;;!
      saveSealForGenerationLocked t next manifest false).

(** [for _, r := range recs { if keep[r.key] { continue }; del }]: the purged keys. *)
Fixpoint prune_staged (t : TenantID) (keep : list string) (recs : list (string * value)) : Act S (list string) :=
  match recs with
  | [] => ret []
  | r :: rest =>
      if bool_decide (r.1 ∈ keep) then prune_staged t keep rest
      else
        do! d <- attempt (del t collStaged r.1) in
        match d with
        | Err e => fail (WrappedError "controller: prune staged bundle" e)
        | Ok _ => do! purged <- prune_staged t keep rest in ret (r.1 :: purged)
        end
  end.

(** The shape check of the caller's set, which also flags the bundles. *)
Fixpoint check_bundles (gen : Z) (seen : list string) (bundles : list SignedBundle) : result store_error (list SignedBundle) :=
  match bundles with
  | [] => Ok []
  | b :: rest =>
      if String.eqb (SB_NodeID b) "" || negb (SB_Generation b =? gen)
      then Err (PlainError "controller: staged bundle has another generation")
      else if bool_decide (SB_NodeID b ∈ seen) then Err (PlainError "controller: duplicate staged bundle for node")
      else match check_bundles gen (SB_NodeID b :: seen) rest with
           | Err e => Err e
           | Ok bs => Ok (set_flags true false b :: bs)
           end
  end.

Definition wrap {A} (msg : string) (m : Act S A) : Act S A :=
  do! r <- attempt m in
  match r with Ok a => ret a | Err e => fail (WrappedError msg e) end.

Definition replace_manifest (t : TenantID) (empty : bool) (tl : option StoredTrustList) : Act S unit :=
  match tl with
  | None =>
      (if empty then
         do! prior <- load_optional t collStagedTL "" in
         match prior with
         | Some p => saveJSON t collStagedTLHist "" (p : StoredTrustList)
         | None => ret tt
         end
       else ret tt) ;;!
      del t collStagedTL ""
  | Some sl =>
      wrap "controller: storing staged manifest" (saveJSON t collStagedTL "" sl) ;;!
      wrap "controller: storing staged manifest history" (saveJSON t collStagedTLHist "" sl)
  end.

(** An empty stage keeps the last manifest readable behind a historical seal. *)
Definition restore_history (t : TenantID) (cur : Z) : Act S unit :=
  do! history <- load_optional t collStagedTLHist "" in
  match history with
  | Some h =>
      saveJSON t collStagedTL "" (h : StoredTrustList) ;;!
      saveJSON t collStagedSeal "" (historical_seal (if cur <=? 0 then 1 else cur) h)
  | None => ret tt
  end.

Definition publish_seal (t : TenantID) (gen : Z) (tl : option StoredTrustList) (expected : list string) : Act S unit :=
  wrap "controller: sealing staged set" (saveSealForGenerationLocked t gen tl false) ;;!
  do! seal <- loadSealLocked t in
  if negb (sameStringSet (Seal_NodeIDs seal) expected)
  then ignore (del t collStagedSeal "") ;;! fail (ErrIncompleteStagedSet "sealed node set differs from the replacement candidate")
  else ret tt.

Definition replace_locked (t : TenantID) (set : StagedSet) (bundles : list SignedBundle) : Act S (list string) :=
  let empty := Nat.eqb (length bundles) 0 in
  do! cur <- generation t in
  requireCompletedPromotionLocked t cur ;;!
  if negb empty && negb (SS_Generation set =? i64 (cur + 1))
  then fail (PlainError "controller: staged set generation is stale")
  else
    del t collStagedSeal "" ;;!
    for_all (fun b => wrap "controller: staging bundle" (saveJSON t collStaged (SB_NodeID b) b)) bundles ;;!
    do! recs <- list_records t collStaged in
    do! purged <- prune_staged t (map SB_NodeID bundles) recs in
    replace_manifest t empty (SS_TrustList set) ;;!
    (if empty then restore_history t cur
     else publish_seal t (SS_Generation set) (SS_TrustList set) (map SB_NodeID bundles)) ;;!
    ret purged.

(** The purged keys come in key order from the listing. *)
Definition ReplaceStagedSet (ctx : option string) (t : TenantID) (set : StagedSet) : Act S (list string) :=
  check_ctx ctx ;;!
  let empty := Nat.eqb (length (SS_Bundles set)) 0 in
  if negb empty && (SS_Generation set <=? 0)
  then fail (PlainError "controller: a non-empty staged set requires a positive generation")
  else if empty && negb (bool_decide (SS_TrustList set = None))
  then fail (PlainError "controller: cannot stage a trust-list without any changed bundle")
  else
    match check_bundles (SS_Generation set) [] (sort_by SB_NodeID (SS_Bundles set)) with
    | Err e => fail e
    | Ok bundles =>
        do! purged <- withLock (replace_locked t set bundles) in
        ret (sort_by id purged)
    end.

Definition PruneStagedBundles (ctx : option string) (t : TenantID) (keepIDs : list string) : Act S (list string) :=
  check_ctx ctx ;;!
  do! purged <- withLock (
    do! cur <- generation t in
    requireCompletedPromotionLocked t cur ;;!
    let next := i64 (cur + 1) in
    do! manifest <- pendingSealedTrustListLocked t next in
    del t collStagedSeal "" ;;!
    do! recs <- list_records t collStaged in
    do! purged <- prune_staged t keepIDs recs in
    saveSealForGenerationLocked t next manifest false ;;!
    ret purged) in
  ret (sort_by id purged).

(** ** Promotion *)

Definition set_desired (t : TenantID) (newGen : Z) (nodeID : string) : Act S unit :=
  do! n <- load_optional t collNodes nodeID in
  match n with
  | Some n => saveJSON t collNodes nodeID (set_DesiredGeneration newGen n)
  | None => ret tt
  end.

Definition promote_bundle (t : TenantID) (newGen : Z) (b : SignedBundle) : Act S unit :=
  saveJSON t collCurrent (SB_NodeID b) (set_flags false true b) ;;!
  set_desired t newGen (SB_NodeID b).

(** The served slot is written only for a signed manifest, tagged with its
    generation; the manifest as later written to history carries the tag too. *)
Definition tag_served (newGen : Z) (sl : StoredTrustList) : StoredTrustList :=
  if Nat.eqb (String.length (TL_SignatureJSON sl)) 0 then sl else set_PromotedGeneration newGen sl.

Definition promote_trustlist (t : TenantID) (newGen : Z) (stagedTL : option StoredTrustList) : Act S unit :=
  match stagedTL with
  | Some sl =>
      if Nat.eqb (String.length (TL_SignatureJSON sl)) 0 then ret tt
      else saveJSON t collServedTL "" (set_PromotedGeneration newGen sl)
  | None => ret tt
  end.

(** Every live-state write before the commit. *)
Definition write_live (t : TenantID) (newGen : Z) (staged : list SignedBundle) (stagedTL : option StoredTrustList) : Act S unit :=
  for_all (promote_bundle t newGen) staged ;;! promote_trustlist t newGen stagedTL.

(** Best-effort, after the commit. *)
Definition promote_cleanup (t : TenantID) (newGen : Z) (ids : list string) (stagedTL : option StoredTrustList) : Act S unit :=
  for_all (fun id => ignore (del t collStaged id)) ids ;;!
  match stagedTL with
  | None =>
      ignore (del t collStagedSeal "") ;;!
      ignore (del t collStagedTL "")
  | Some sl =>
      ignore (saveJSON t collStagedTLHist "" (tag_served newGen sl)) ;;!
      ignore (saveJSON t collStagedSeal "" (historical_seal newGen sl))
  end.

(** The sealed candidate for [newGen], fully checked. *)
Definition sealed_candidate (t : TenantID) (newGen : Z) : Act S (list SignedBundle * list string * option StoredTrustList) :=
  do! sr <- attempt (loadSealLocked t) in
  match sr with
  | Err e =>
      if is_not_found e then
        do! recs <- list_records t collStaged in
        if negb (Nat.eqb (length recs) 0)
        then fail (ErrIncompleteStagedSet "staged bundle records exist without a durable seal")
        else fail ErrNoStagedBundle
      else fail e
  | Ok seal =>
      if negb (Seal_Generation seal =? newGen) then fail ErrNoStagedBundle
      else if Seal_Historical seal || Nat.eqb (length (Seal_NodeIDs seal)) 0 then fail ErrNoStagedBundle
      else
        do! st <- attempt (stagedBundlesForGenerationLocked t newGen) in
        match st with
        | Err e => fail (ErrIncompleteStagedSetBy "" e)
        | Ok (staged, ids) =>
            if negb (sameStringSet ids (Seal_NodeIDs seal))
            then fail (ErrIncompleteStagedSet "staged bundle records do not exactly match the sealed node set")
            else do! stagedTL <- loadSealedTrustListLocked t seal in ret (staged, ids, stagedTL)
        end
  end.

Definition PromoteStaged (ctx : option string) (t : TenantID) : Act S Z :=
  check_ctx ctx ;;!
  withLock (
    do! cur <- generation t in
    let newGen := i64 (cur + 1) in
    do! c <- sealed_candidate t newGen in
    let staged := c.1.1 in
    let ids := c.1.2 in
    let stagedTL := c.2 in
    write_live t newGen staged stagedTL ;;!
    setGeneration t newGen ;;!
    promote_cleanup t newGen ids stagedTL ;;!
    ret newGen).

(** [storecore.go]: a wake that deploys nothing. *)
Definition bump_history (t : TenantID) : Act S (option StoredTrustList) :=
  do! h <- load_optional t collStagedTLHist "" in
  match h with
  | Some h => ret (Some h)
  | None => load_optional t collStagedTL ""
  end.

Definition BumpGeneration (ctx : option string) (t : TenantID) : Act S Z :=
  check_ctx ctx ;;!
  withLock (
    do! cur <- generation t in
    requireCompletedPromotionLocked t cur ;;!
    let newGen := i64 (cur + 1) in
    do! history <- bump_history t in
    del t collStagedSeal "" ;;!
    match history with
    | Some h =>
        saveJSON t collStagedTLHist "" h ;;!
        saveJSON t collStagedTL "" h ;;!
        saveJSON t collStagedSeal "" (historical_seal newGen h)
    | None => del t collStagedTL ""
    end ;;!
    setGeneration t newGen ;;!
    ret newGen).

(** ** Trust-list *)

Definition PutSignedTrustList (ctx : option string) (t : TenantID) (sl : StoredTrustList) : Act S unit :=
  check_ctx ctx ;;!
  withLock (
    do! cur <- generation t in
    requireCompletedPromotionLocked t cur ;;!
    let next := i64 (cur + 1) in
    do! sr <- attempt (loadSealLocked t) in
    let same :=
      match sr with
      | Ok seal => (Seal_Historical seal || (Seal_Generation seal =? next)) && Seal_HasTrustList seal
                   && (Seal_TrustListEpoch seal =? TL_Epoch sl)
                   && String.eqb (Seal_TrustListSHA256 seal) (trustListSHA256 (TL_TrustListJSON sl))
      | Err _ => false
      end in
    if same then
      saveJSON t collStagedTLHist "" sl ;;!
      saveJSON t collStagedTL "" sl
    else
      del t collStagedSeal "" ;;!
      saveJSON t collStagedTL "" sl ;;!
      saveJSON t collStagedTLHist "" sl ;;!
      saveSealForGenerationLocked t next (Some sl) true).

Definition GetCurrentSignedTrustList (ctx : option string) (t : TenantID) : Act S StoredTrustList :=
  check_ctx ctx ;;!
  withLock (
    do! seal <- loadSealLocked t in
    do! sealed <- loadSealedTrustListLocked t seal in
    match sealed with Some sl => ret sl | None => fail ErrNotFound end).

Definition GetLastStagedTrustList (ctx : option string) (t : TenantID) : Act S StoredTrustList :=
  check_ctx ctx ;;!
  withLock (
    do! h <- load_optional t collStagedTLHist "" in
    match h with
    | Some sl => ret sl
    | None =>
        do! active <- load_optional t collStagedTL "" in
        match active with
        | Some sl => ret sl
        | None => loadJSON t collServedTL ""
        end
    end).

Definition GetServedTrustList (ctx : option string) (t : TenantID) : Act S StoredTrustList :=
  check_ctx ctx ;;!
  withLock (
    do! sl <- loadJSON t collServedTL "" in
    do! committed <- generation t in
    if committed <? TL_PromotedGeneration sl
    then fail (ErrUncommittedPromotion "served trust-list" (TL_PromotedGeneration sl) committed)
    else ret sl).

(** ** What a node is served *)

Definition served_trustlist (t : TenantID) (committed : Z) (keystoneOn : bool) : Act S (option StoredTrustList) :=
  if keystoneOn then
    do! r <- load_optional t collServedTL "" in
    match r with
    | Some sl =>
        if committed <? TL_PromotedGeneration sl
        then fail (ErrUncommittedPromotion "served trust-list" (TL_PromotedGeneration sl) committed)
        else ret (if Nat.eqb (String.length (TL_SignatureJSON sl)) 0 then None else Some sl)
    | None => ret None
    end
  else ret None.

Definition GetServedConfig (ctx : option string) (t : TenantID) (nodeID : string) : Act S ServedConfig :=
  check_ctx ctx ;;!
  withLock (
    do! b <- loadJSON t collCurrent nodeID in
    do! committed <- generation t in
    if committed <? SB_Generation b
    then fail (ErrUncommittedPromotion "bundle" (SB_Generation b) committed)
    else
      do! cred <- load_optional t collOperatorCred "" in
      let keystoneOn := bool_decide ((cred : option OperatorCredential) <> None) in
      do! sl <- served_trustlist t committed keystoneOn in
      ret (mkServedConfig b keystoneOn sl)).
End Stage.
