(* ===== verification/StageProps.v ===== *)
(** * Promotion is atomic and can be resumed

    The reads of the staged-set protocol in closed form, then what a promotion
    does to the live records under every schedule of faults. *)

From stdpp Require Import base gmap strings list sorting.
From Stdlib Require Import ZArith Lia.
From S2P Require Import Prelude GoLib GoSha StoreTypes StoreMonad StoreCore StoreLogic StoreStage MemKV.

Local Open Scope Z_scope.
Local Open Scope store_scope.
Local Open Scope go_scope.

Section Reads.
Context {S : Type} `{KVBackend S}.

Lemma readonly_require_bundle g r : readonly (require_bundle_committed g r : Act S unit).
Proof. unfold require_bundle_committed. readonly. Qed.
#[local] Hint Resolve readonly_require_bundle : readonly.

Lemma readonly_requireCompleted t g : readonly (requireCompletedPromotionLocked t g : Act S unit).
Proof. unfold requireCompletedPromotionLocked. readonly. Qed.

Lemma readonly_stagedBundles t g : readonly (stagedBundlesForGenerationLocked t g : Act S _).
Proof. unfold stagedBundlesForGenerationLocked. readonly. Qed.

Lemma readonly_check_seal seal : readonly (check_seal seal : Act S _).
Proof. unfold check_seal. readonly. Qed.
#[local] Hint Resolve readonly_stagedBundles readonly_check_seal : readonly.

Lemma readonly_loadSeal t : readonly (loadSealLocked t : Act S _).
Proof. unfold loadSealLocked. readonly. intros e He. rewrite (backend_error_not_found e He). eauto. Qed.

Lemma readonly_loadSealedTrustList t seal : readonly (loadSealedTrustListLocked t seal : Act S _).
Proof. unfold loadSealedTrustListLocked. readonly. intros e He. rewrite (backend_error_not_found e He). eauto. Qed.
#[local] Hint Resolve readonly_loadSeal readonly_loadSealedTrustList : readonly.

Lemma readonly_sealed_candidate t g : readonly (sealed_candidate t g : Act S _).
Proof.
  unfold sealed_candidate. readonly.
  - intros e' He. by eexists.
  - intros e He. rewrite (backend_error_not_found e He). eauto.
Qed.

Lemma readonly_served_trustlist t g on : readonly (served_trustlist t g on : Act S _).
Proof. unfold served_trustlist. readonly. Qed.
#[local] Hint Resolve readonly_served_trustlist : readonly.

Lemma readonly_GetServedConfig ctx t id : readonly (GetServedConfig ctx t id : Act S _).
Proof. unfold GetServedConfig. readonly. Qed.
End Reads.
#[export] Hint Resolve readonly_require_bundle readonly_requireCompleted readonly_stagedBundles readonly_check_seal readonly_loadSeal : readonly.
#[export] Hint Resolve readonly_loadSealedTrustList readonly_sealed_candidate readonly_served_trustlist readonly_GetServedConfig : readonly.

(** ** What a node is served, in closed form *)

Definition refused {A} (r : result store_error A) : Prop :=
  exists what g committed, r = Err (ErrUncommittedPromotion what g committed).

(** From the node's current record, the generation, the credential and the
    served trust-list. *)
Definition served_view (id : string) (cur : option value) (committed : Z) (cred tl : option value) : result store_error ServedConfig :=
  let! b := decode collCurrent id cur in
  if committed <? SB_Generation b then Err (ErrUncommittedPromotion "bundle" (SB_Generation b) committed)
  else
    let! c := decode_optional (A:=OperatorCredential) collOperatorCred "" cred in
    let on := bool_decide (c <> None) in
    let! sl :=
      (if on then
         let! r := decode_optional collServedTL "" tl in
         match r with
         | Some sl =>
             if committed <? TL_PromotedGeneration sl
             then Err (ErrUncommittedPromotion "served trust-list" (TL_PromotedGeneration sl) committed)
             else Ok (if Nat.eqb (String.length (TL_SignatureJSON sl)) 0 then None else Some sl)
         | None => Ok None
         end
       else Ok None) in
    Ok (mkServedConfig b on sl).

Section Served.
Context {S : Type} `{KVBackend S}.

(** What a node is served in a state. *)
Definition served (t : TenantID) (id : string) (s : S) : result store_error ServedConfig := answer (GetServedConfig None t id) s.

Lemma answer_served_trustlist t g on s :
  answer (served_trustlist t g on) s =
  if on then
    let! r := decode_optional collServedTL "" (kv_get t collServedTL "" s) in
    match r with
    | Some sl =>
        if g <? TL_PromotedGeneration sl
        then Err (ErrUncommittedPromotion "served trust-list" (TL_PromotedGeneration sl) g)
        else Ok (if Nat.eqb (String.length (TL_SignatureJSON sl)) 0 then None else Some sl)
    | None => Ok None
    end
  else Ok None.
Proof.
  destruct on; [|done]. unfold served_trustlist. rewrite answer_bind; [|auto with readonly|readonly].
  rewrite answer_load_optional. destruct (decode_optional _ _ _) as [[sl|]|]; cbn [rbind]; [|done..]. by case_match.
Qed.

Lemma served_closed t id s :
  served t id s = served_view id (kv_get t collCurrent id s) (kv_generation t s) (kv_get t collOperatorCred "" s) (kv_get t collServedTL "" s).
Proof.
  unfold served, GetServedConfig, withLock, served_view. rewrite answer_bind; [cbn [check_ctx rbind answer ret]|auto with readonly|readonly].
  rewrite answer_bind; [|auto with readonly|readonly]. rewrite answer_loadJSON. destruct (decode _ _ _) as [b|]; cbn [rbind]; [|done].
  rewrite answer_bind; [|auto with readonly|readonly]. rewrite answer_generation. cbn [rbind]. case_match; [done|].
  rewrite answer_bind; [|auto with readonly|readonly]. rewrite answer_load_optional.
  destruct (decode_optional _ _ _) as [c|]; cbn [rbind]; [|done].
  rewrite answer_bind; [|auto with readonly|readonly]. rewrite answer_served_trustlist.
  by destruct (if bool_decide _ then _ else _) as [sl|].
Qed.
End Served.

(** ** The sealed candidate, in closed form *)

Section Candidate.
Context {S : Type} `{KVBackend S}.

Definition seal_view (v : option value) : result store_error stagedSetSeal :=
  match decode (A:=stagedSetSeal) collStagedSeal "" v with
  | Err e => if is_not_found e then Err e else Err (ErrIncompleteStagedSetBy "cannot read staged-set seal: " e)
  | Ok seal => answer (check_seal seal : Act unit _) tt
  end.

Lemma answer_check_seal seal (s : S) : answer (check_seal seal) s = answer (check_seal seal : Act unit _) tt.
Proof. unfold check_seal. by repeat case_match. Qed.

Lemma answer_loadSeal t s : answer (loadSealLocked t) s = seal_view (kv_get t collStagedSeal "" s).
Proof.
  unfold loadSealLocked, seal_view. rewrite answer_attempt; [|auto with readonly|readonly]. rewrite answer_loadJSON.
  destruct (decode _ _ _) as [seal|e]; [apply answer_check_seal|]. by case_match.
Qed.

Definition manifest_view (seal : stagedSetSeal) (v : option value) : result store_error (option StoredTrustList) :=
  if negb (Seal_HasTrustList seal) then Ok None
  else match decode (A:=StoredTrustList) collStagedTL "" v with
       | Err e => if is_not_found e then Err (ErrIncompleteStagedSet "sealed trust-list record is absent")
                  else Err (ErrIncompleteStagedSetBy "cannot read sealed trust-list: " e)
       | Ok sl =>
           if negb (TL_Epoch sl =? Seal_TrustListEpoch seal)
              || negb (String.eqb (trustListSHA256 (TL_TrustListJSON sl)) (Seal_TrustListSHA256 seal))
           then Err (ErrIncompleteStagedSet "staged trust-list bytes or epoch do not match the seal")
           else Ok (Some sl)
       end.

Lemma answer_loadSealedTrustList t seal s :
  answer (loadSealedTrustListLocked t seal) s = manifest_view seal (kv_get t collStagedTL "" s).
Proof.
  unfold loadSealedTrustListLocked, manifest_view. destruct (negb (Seal_HasTrustList seal)); [done|].
  rewrite answer_attempt; [|auto with readonly|readonly]. rewrite answer_loadJSON.
  destruct (decode _ _ _) as [sl|e]; by case_match.
Qed.

(** A candidate is what the seal, the staged records and the manifest record make of it. *)
Definition candidate_view (g : Z) (seal : option value) (recs : list (string * value)) (manifest : option value)
  : result store_error (list SignedBundle * list string * option StoredTrustList) :=
  match seal_view seal with
  | Err e => if is_not_found e
             then Err (if negb (Nat.eqb (length recs) 0)
                       then ErrIncompleteStagedSet "staged bundle records exist without a durable seal" else ErrNoStagedBundle)
             else Err e
  | Ok seal =>
      if negb (Seal_Generation seal =? g) then Err ErrNoStagedBundle
      else if Seal_Historical seal || Nat.eqb (length (Seal_NodeIDs seal)) 0 then Err ErrNoStagedBundle
      else match collect_staged g recs with
           | Err e => Err (ErrIncompleteStagedSetBy "" e)
           | Ok staged =>
               if negb (sameStringSet (map SB_NodeID staged) (Seal_NodeIDs seal))
               then Err (ErrIncompleteStagedSet "staged bundle records do not exactly match the sealed node set")
               else let! tl := manifest_view seal manifest in Ok (staged, map SB_NodeID staged, tl)
           end
  end.

Lemma answer_stagedBundles t g s :
  answer (stagedBundlesForGenerationLocked t g) s =
  let! bs := collect_staged g (kv_list t collStaged s) in Ok (bs, map SB_NodeID bs).
Proof.
  unfold stagedBundlesForGenerationLocked. rewrite answer_bind; [|auto with readonly|readonly]. rewrite answer_list. cbn [rbind].
  by case_match.
Qed.

Lemma answer_sealed_candidate t g s :
  answer (sealed_candidate t g) s =
  candidate_view g (kv_get t collStagedSeal "" s) (kv_list t collStaged s) (kv_get t collStagedTL "" s).
Proof.
  unfold sealed_candidate, candidate_view. rewrite answer_attempt; [|auto with readonly|readonly; by eexists].
  rewrite answer_loadSeal. destruct (seal_view _) as [seal|e].
  - case_match; [done|]. case_match; [done|]. rewrite answer_attempt; [|auto with readonly|readonly].
    rewrite answer_stagedBundles. destruct (collect_staged _ _) as [staged|e]; cbn [rbind]; [|done].
    case_match; [done|]. rewrite answer_bind; [|auto with readonly|readonly]. rewrite answer_loadSealedTrustList.
    by destruct (manifest_view _ _).
  - destruct (is_not_found e); [|done]. rewrite answer_bind; [|auto with readonly|readonly]. rewrite answer_list. cbn [rbind]. by case_match.
Qed.
End Candidate.

(** ** Listings *)

Section Listing.
Context {S : Type} `{KVLaws S}.

Lemma kv_list_key_sorted t c s : StronglySorted (key_le fst) (kv_list t c s).
Proof.
  pose proof (kv_list_sorted s t c) as Hsort. induction (kv_list t c s) as [|x xs IH]; [constructor|].
  cbn [fmap list_fmap] in Hsort. apply StronglySorted_inv in Hsort as [Hsort Hx]. constructor; [by apply IH|]. exact (proj1 (Forall_fmap _ _ _) Hx).
Qed.

Lemma kv_list_unique t c s (l : list (string * value)) :
  StronglySorted (key_le fst) l -> NoDup l.*1 -> (forall k v, (k, v) ∈ l <-> kv_get t c k s = Some v) -> kv_list t c s = l.
Proof.
  intros Hl Hnd Hk. eapply StronglySorted_unique_strong; [|apply kv_list_key_sorted|exact Hl|].
  - intros [k1 v1] [k2 v2] H1 H2 Hle Hge. apply elem_of_kv_list in H1. apply Hk in H2.
    unfold key_le in Hle, Hge. cbn [fst] in Hle, Hge. assert (k1 = k2) as -> by (by apply (anti_symm String.le)). congruence.
  - apply NoDup_Permutation.
    + eapply NoDup_fmap_1, kv_list_NoDup.
    + by eapply NoDup_fmap_1.
    + intros [k v]. by rewrite elem_of_kv_list, Hk.
Qed.

Lemma kv_list_ext t c t' c' s s' : (forall k, kv_get t c k s = kv_get t' c' k s') -> kv_list t c s = kv_list t' c' s'.
Proof.
  intros Hk. apply kv_list_unique; [apply kv_list_key_sorted|apply kv_list_NoDup|].
  intros k v. by rewrite elem_of_kv_list, Hk.
Qed.

(** The collected bundles are exactly the records of the generation. *)
Lemma collect_staged_Ok g recs bs :
  collect_staged g recs = Ok bs ->
  (forall b, b ∈ bs <-> SB_Generation b = g /\ (SB_NodeID b, VBundle b) ∈ recs) /\
  (forall r, r ∈ recs -> exists b, r = (SB_NodeID b, VBundle b)) /\
  sublist (map SB_NodeID bs) recs.*1.
Proof.
  revert bs. induction recs as [|[k v] recs IH]; cbn [collect_staged]; intros bs Hbs.
  - injection Hbs as <-. split_and!; [intros b; split; [by intros ?%elem_of_nil|by intros [_ ?%elem_of_nil]]|by intros r ?%elem_of_nil|constructor].
  - cbn [fst snd] in Hbs. destruct (of_json v) as [b|] eqn:Ev; [|done]. destruct v; try done. injection Ev as ->.
    destruct (String.eqb_spec (SB_NodeID b) k) as [<-|]; [|done]. cbn [negb] in Hbs.
    destruct (collect_staged g recs) as [bs'|]; [|done]. destruct (IH bs' eq_refl) as (H1 & H2 & H3). injection Hbs as <-.
    split_and!.
    + intros b'. rewrite elem_of_cons. destruct (Z.eqb_spec (SB_Generation b) g) as [Hg|Hg]; [rewrite elem_of_cons|]; rewrite H1.
      * split; [intros [->|[? ?]]; auto|]. intros [? [Heq|?]]; [injection Heq as _ ->; auto|auto].
      * split; [intros [? ?]; auto|]. intros [? [Heq|?]]; [injection Heq as _ ->; done|auto].
    + intros r [->|Hr]%elem_of_cons; [by exists b|auto].
    + cbn. destruct (_ =? _); [by constructor|by apply sublist_cons].
Qed.

Lemma collect_staged_NoDup t g s bs : collect_staged g (kv_list t collStaged s) = Ok bs -> NoDup (map SB_NodeID bs).
Proof.
  intros (_ & _ & Hsub)%collect_staged_Ok. eapply sublist_NoDup; [apply kv_list_NoDup|apply Hsub].
Qed.

Lemma sealed_candidate_ext t g s s' :
  kv_get t collStagedSeal "" s = kv_get t collStagedSeal "" s' ->
  (forall k, kv_get t collStaged k s = kv_get t collStaged k s') ->
  kv_get t collStagedTL "" s = kv_get t collStagedTL "" s' ->
  answer (sealed_candidate t g) s = answer (sealed_candidate t g) s'.
Proof. intros H1 H2 H3. rewrite !answer_sealed_candidate, H1, H3. by rewrite (kv_list_ext _ _ t collStaged _ s' H2). Qed.
End Listing.

(** The facts a promotion has checked. *)
Lemma seal_view_pos v seal : seal_view v = Ok seal -> 0 < Seal_Generation seal /\ v = Some (VSeal seal).
Proof.
  unfold seal_view, decode. destruct v as [v|]; [|done]. destruct (of_json v) as [sl|] eqn:Ev; [|done]. destruct v; try done. injection Ev as ->.
  unfold check_seal. destruct (Z.leb_spec (Seal_Generation sl) 0); [done|]. repeat (case_match; [done|]). intros [= ->]. by split; [lia|].
Qed.

(** ** The live records during a promotion *)

Section Promotion.
Context {S : Type} `{KVLaws S}.
Context (t : TenantID) (g : Z) (staged : list SignedBundle) (tl : option StoredTrustList).

Definition promoted (b : SignedBundle) : value := VBundle (set_flags false true b).
Definition desired (v : option value) : option value :=
  match v with Some (VNode n) => Some (VNode (set_DesiredGeneration g n)) | _ => v end.
Definition served_slot (old : option value) : option value :=
  match tl with
  | Some sl => if Nat.eqb (String.length (TL_SignatureJSON sl)) 0 then old else Some (VTrustList (set_PromotedGeneration g sl))
  | None => old
  end.

Definition live_key (t' c k : string) : Prop :=
  t' = t /\ (c = collCurrent \/ c = collNodes \/ (c = collServedTL /\ k = "")).

(** Current bundles [cs] and node records [ns] are written, the served slot holds
    [slot], and nothing else has changed since [s0]. *)
Record upto (cs : list SignedBundle) (ns : list string) (slot : option value) (s0 s : S) : Prop := {
  upto_gen : forall t', kv_generation t' s = kv_generation t' s0;
  upto_frame : forall t' c k, ~ live_key t' c k -> kv_get t' c k s = kv_get t' c k s0;
  upto_new : forall b, b ∈ cs -> kv_get t collCurrent (SB_NodeID b) s = Some (promoted b);
  upto_old : forall k, k ∉ map SB_NodeID cs -> kv_get t collCurrent k s = kv_get t collCurrent k s0;
  upto_desired : forall k, k ∈ ns -> kv_get t collNodes k s = desired (kv_get t collNodes k s0);
  upto_nodes : forall k, k ∉ ns -> kv_get t collNodes k s = kv_get t collNodes k s0;
  upto_served : kv_get t collServedTL "" s = slot }.

(** Every live record is the old or the new one. *)
Record mid (s0 s : S) : Prop := {
  mid_gen : forall t', kv_generation t' s = kv_generation t' s0;
  mid_frame : forall t' c k, ~ live_key t' c k -> kv_get t' c k s = kv_get t' c k s0;
  mid_current : forall k, kv_get t collCurrent k s = kv_get t collCurrent k s0 \/
    exists b, b ∈ staged /\ SB_NodeID b = k /\ kv_get t collCurrent k s = Some (promoted b);
  mid_nodes : forall k, kv_get t collNodes k s = kv_get t collNodes k s0 \/
    k ∈ map SB_NodeID staged /\ kv_get t collNodes k s = desired (kv_get t collNodes k s0);
  mid_served : kv_get t collServedTL "" s = kv_get t collServedTL "" s0 \/
    kv_get t collServedTL "" s = served_slot (kv_get t collServedTL "" s0) }.

Lemma live_current k : live_key t collCurrent k.
Proof. by split; [|left]. Qed.
Lemma live_nodes k : live_key t collNodes k.
Proof. by split; [|right; left]. Qed.
Lemma live_served : live_key t collServedTL "".
Proof. by split; [|right; right]. Qed.

#[local] Arguments upto_gen {_ _ _ _ _} _.
#[local] Arguments upto_frame {_ _ _ _ _} _.
#[local] Arguments upto_new {_ _ _ _ _} _.
#[local] Arguments upto_old {_ _ _ _ _} _.
#[local] Arguments upto_desired {_ _ _ _ _} _.
#[local] Arguments upto_nodes {_ _ _ _ _} _.
#[local] Arguments upto_served {_ _ _ _ _} _.

Lemma upto_start s : upto [] [] (kv_get t collServedTL "" s) s s.
Proof. split; try done; by intros ? ?%elem_of_nil. Qed.

Lemma upto_mid cs ns slot s0 s :
  upto cs ns slot s0 s -> cs ⊆ staged -> ns ⊆ map SB_NodeID staged ->
  slot = kv_get t collServedTL "" s0 \/ slot = served_slot (kv_get t collServedTL "" s0) -> mid s0 s.
Proof.
  intros Hu Hcs Hns Hslot. split; [apply (upto_gen Hu)|apply (upto_frame Hu)|..].
  - intros k. destruct (decide (k ∈ map SB_NodeID cs)) as [Hk|Hk]; [|left; by apply (upto_old Hu)].
    right. apply list_elem_of_fmap in Hk as (b & -> & Hb). exists b. split_and!; [by apply Hcs|done|by apply (upto_new Hu)].
  - intros k. destruct (decide (k ∈ ns)) as [Hk|Hk]; [|left; by apply (upto_nodes Hu)]. right. split; [by apply Hns|by apply (upto_desired Hu)].
  - by rewrite (upto_served Hu).
Qed.

Ltac upto_old_parts Hu :=
  lazymatch goal with
  | |- forall t', kv_generation _ _ = _ => intros ?; kv_simp; apply (upto_gen Hu)
  | |- forall t' c k, ~ live_key _ _ _ -> _ =>
      let Hk := fresh "Hk" in intros ? ? ? Hk; kv_simp; [destruct Hk; subst; auto using live_current, live_nodes, live_served|by apply (upto_frame Hu)]
  | |- forall b, b ∈ _ -> kv_get _ collCurrent _ _ = _ => intros ? ?; kv_simp; by apply (upto_new Hu)
  | |- forall k, _ -> kv_get _ collCurrent _ _ = _ => intros ? ?; kv_simp; by apply (upto_old Hu)
  | |- forall k, k ∈ _ -> kv_get _ collNodes _ _ = _ => intros ? ?; kv_simp; by apply (upto_desired Hu)
  | |- forall k, _ -> kv_get _ collNodes _ _ = _ => intros ? ?; kv_simp; by apply (upto_nodes Hu)
  | |- kv_get _ collServedTL _ _ = _ => kv_simp; by apply (upto_served Hu)
  end.

Lemma upto_put_current cs ns slot s0 s b :
  upto cs ns slot s0 s -> SB_NodeID b ∉ map SB_NodeID cs ->
  upto (cs ++ [b]) ns slot s0 (kv_put t collCurrent (SB_NodeID b) (promoted b) s).
Proof.
  intros Hu Hb. split; try solve [upto_old_parts Hu].
  - intros b' Hb'. kv_simp.
    + apply elem_of_snoc in Hb' as [Hb'| ->]; [|done]. destruct Hb. rewrite <- Hkv. by apply list_elem_of_fmap_2.
    + apply elem_of_snoc in Hb' as [Hb'| ->]; [by apply (upto_new Hu)|]. by destruct Hkv.
  - intros k Hk. rewrite map_app, elem_of_app in Hk. kv_simp; [|apply (upto_old Hu); contradict Hk; by left].
    destruct Hk. right. subst. by apply list_elem_of_singleton.
Qed.

Lemma upto_put_node cs ns slot s0 s k n :
  upto cs ns slot s0 s -> k ∉ ns -> kv_get t collNodes k s = Some (VNode n) ->
  upto cs (ns ++ [k]) slot s0 (kv_put t collNodes k (VNode (set_DesiredGeneration g n)) s).
Proof.
  intros Hu Hk Hn. split; try solve [upto_old_parts Hu].
  - intros k' Hk'. rewrite elem_of_snoc in Hk'. kv_simp; [subst k'|destruct Hk' as [Hk'| ->]; [by apply (upto_desired Hu)|by destruct Hkv]].
    rewrite <- (upto_nodes Hu) by done. by rewrite Hn.
  - intros k'. rewrite elem_of_snoc. intros Hk'. kv_simp; [destruct Hk'; by right|]. apply (upto_nodes Hu). contradict Hk'; by left.
Qed.

Lemma upto_skip_node cs ns slot s0 s k :
  upto cs ns slot s0 s -> k ∉ ns -> kv_get t collNodes k s = None -> upto cs (ns ++ [k]) slot s0 s.
Proof.
  intros Hu Hk Hn. split; [apply (upto_gen Hu)|apply (upto_frame Hu)|apply (upto_new Hu)|apply (upto_old Hu)| | |apply (upto_served Hu)].
  - intros k' [Hk'| ->]%elem_of_snoc; [by apply (upto_desired Hu)|]. rewrite <- (upto_nodes Hu) by done. by rewrite Hn.
  - intros k'. rewrite elem_of_snoc. intros Hk'. apply (upto_nodes Hu). contradict Hk'; by left.
Qed.

Lemma upto_put_served cs ns slot s0 s v :
  upto cs ns slot s0 s -> upto cs ns (Some v) s0 (kv_put t collServedTL "" v s).
Proof. intros Hu. split; try solve [upto_old_parts Hu]. kv_simp; [done|by destruct Hkv]. Qed.

(** ** One run of the promotion loop *)

(** A node record that does not parse stops the promotion. *)
Definition nodes_readable (s : S) : Prop :=
  forall k, k ∈ map SB_NodeID staged -> is_Ok (decode_optional (A:=RegistryNode) collNodes k (kv_get t collNodes k s)).

Definition interrupted (s0 : S) (e : store_error) (s : S) : Prop :=
  mid s0 s /\ (backend_error e \/ ~ nodes_readable s0).

Lemma decode_optional_node k v (o : option RegistryNode) :
  decode_optional collNodes k v = Ok o -> v = VNode <$> o.
Proof. by destruct v as [[]|]; cbn; intros [= <-]. Qed.

Lemma spec_set_desired pre b post s0 :
  NoDup (map SB_NodeID staged) -> staged = pre ++ b :: post ->
  spec (set_desired t g (SB_NodeID b)) (upto (pre ++ [b]) (map SB_NodeID pre) (kv_get t collServedTL "" s0) s0)
    (fun _ => upto (pre ++ [b]) (map SB_NodeID (pre ++ [b])) (kv_get t collServedTL "" s0) s0) (interrupted s0) (mid s0).
Proof.
  intros Hnd Hst. set (slot := kv_get t collServedTL "" s0).
  assert (SB_NodeID b ∉ map SB_NodeID pre) as Hb.
  { rewrite Hst, map_app in Hnd. apply NoDup_app in Hnd as (_ & Hnd & _). intros Hin. apply (Hnd _ Hin). by left. }
  assert (pre ++ [b] ⊆ staged) as Hsub by (rewrite Hst; set_solver).
  assert (forall ns s, upto (pre ++ [b]) ns slot s0 s -> ns ⊆ map SB_NodeID (pre ++ [b]) -> mid s0 s) as Hmid.
  { intros ns s Hu Hns. eapply upto_mid; [done|done| |by left]. etrans; [done|]. rewrite Hst, !map_app. cbn [map]. set_solver. }
  assert (map SB_NodeID pre ⊆ map SB_NodeID (pre ++ [b])) as Hpre by (rewrite map_app; set_solver).
  unfold set_desired. eapply spec_bind with (R := fun (o : option RegistryNode) s => upto (pre ++ [b]) (map SB_NodeID pre) slot s0 s /\
    decode_optional collNodes (SB_NodeID b) (kv_get t collNodes (SB_NodeID b) s) = Ok o).
  - apply spec_readonly; [auto with readonly|..].
    + intros s o Hu. rewrite answer_load_optional. auto.
    + intros s e Hu He. split; [eauto|]. destruct He as [He|He]; [|by left]. right. intros Hr.
      destruct (Hr (SB_NodeID b)) as [o Ho]; [rewrite Hst, map_app; set_solver|].
      rewrite answer_load_optional, (upto_nodes Hu) in He by done. congruence.
    + eauto.
  - intros [n|].
    + assert (forall s, upto (pre ++ [b]) (map SB_NodeID pre) slot s0 s /\
          decode_optional collNodes (SB_NodeID b) (kv_get t collNodes (SB_NodeID b) s) = Ok (Some n) ->
        upto (pre ++ [b]) (map SB_NodeID (pre ++ [b])) slot s0
          (kv_put t collNodes (SB_NodeID b) (VNode (set_DesiredGeneration g n)) s)) as Hput.
      { intros s [Hu Hn%decode_optional_node]. rewrite map_app. by apply upto_put_node. }
      apply spec_write; [done|..].
      * intros msg s Hs. split; split; [destruct Hs; eauto|by left|eauto|by left].
      * intros s Hs. split; [destruct Hs; eauto|eauto].
    + apply spec_ret. intros s [Hu Hn%decode_optional_node]. rewrite map_app. by apply upto_skip_node.
Qed.

Lemma spec_promote_bundle pre b post s0 :
  NoDup (map SB_NodeID staged) -> staged = pre ++ b :: post ->
  spec (promote_bundle t g b) (upto pre (map SB_NodeID pre) (kv_get t collServedTL "" s0) s0)
    (fun _ => upto (pre ++ [b]) (map SB_NodeID (pre ++ [b])) (kv_get t collServedTL "" s0) s0) (interrupted s0) (mid s0).
Proof.
  intros Hnd Hst. unfold promote_bundle.
  assert (SB_NodeID b ∉ map SB_NodeID pre) as Hb.
  { rewrite Hst, map_app in Hnd. apply NoDup_app in Hnd as (_ & Hnd & _). intros Hin. apply (Hnd _ Hin). by left. }
  assert (forall cs s, upto cs (map SB_NodeID pre) (kv_get t collServedTL "" s0) s0 s -> cs ⊆ pre ++ [b] -> mid s0 s) as Hmid.
  { intros cs s Hu Hcs. eapply upto_mid; [done|set_solver| |by left]. rewrite Hst, map_app. set_solver. }
  assert (pre ⊆ pre ++ [b]) by set_solver.
  eapply spec_bind; [|intros u; by eapply spec_set_desired]. cbn beta.
  apply spec_write.
  - intros s Hu. by apply upto_put_current.
  - intros msg s Hu. split; (split; [|by left]); [eauto|]. eapply Hmid; [by apply upto_put_current|done].
  - intros s Hu. split; [eauto|]. eapply Hmid; [by apply upto_put_current|done].
Qed.

(** All live records written, not yet committed. *)
Definition written (s0 s : S) : Prop := upto staged (map SB_NodeID staged) (served_slot (kv_get t collServedTL "" s0)) s0 s.

Lemma written_mid s0 s : written s0 s -> mid s0 s.
Proof. intros Hw. eapply upto_mid; [exact Hw|done|done|by right]. Qed.

Lemma spec_write_live s0 :
  NoDup (map SB_NodeID staged) ->
  spec (write_live t g staged tl) (eq s0) (fun _ => written s0) (interrupted s0) (mid s0).
Proof.
  intros Hnd. eapply spec_bind with (R := fun _ => upto staged (map SB_NodeID staged) (kv_get t collServedTL "" s0) s0).
  - apply spec_weaken with (P' := upto [] (map SB_NodeID []) (kv_get t collServedTL "" s0) s0)
      (Q' := fun _ => upto staged (map SB_NodeID staged) (kv_get t collServedTL "" s0) s0) (E' := interrupted s0) (C' := mid s0); [|by intros s <-; apply upto_start|done..].
    apply (spec_for_all (promote_bundle t g) staged (fun pre => upto pre (map SB_NodeID pre) (kv_get t collServedTL "" s0) s0)).
    intros pre b post Hst. by eapply spec_promote_bundle.
  - intros u.
    assert (forall s, upto staged (map SB_NodeID staged) (kv_get t collServedTL "" s0) s0 s -> mid s0 s) as Hold.
    { intros s Hu. eapply upto_mid; [done|done|done|by left]. }
    assert (forall slot s, slot = served_slot (kv_get t collServedTL "" s0) ->
      upto staged (map SB_NodeID staged) slot s0 s -> mid s0 s /\ written s0 s) as Hnew.
    { intros slot s -> Hu. split; [by apply written_mid|done]. }
    unfold promote_trustlist, served_slot in *. destruct tl as [sl|] eqn:Etl; [|apply spec_ret; intros s Hu; by apply (Hnew _ s eq_refl)].
    destruct (Nat.eqb _ 0) eqn:Esig; [apply spec_ret; intros s Hu; by apply (Hnew _ s eq_refl)|].
    assert (forall s, upto staged (map SB_NodeID staged) (kv_get t collServedTL "" s0) s0 s ->
      let s' := kv_put t collServedTL "" (VTrustList (set_PromotedGeneration g sl)) s in mid s0 s' /\ written s0 s') as Hput.
    { intros s Hu. apply (Hnew _ _ eq_refl). by eapply upto_put_served. }
    apply spec_write.
    + intros s Hu. by apply Hput.
    + intros msg s Hu. split; (split; [|by left]); [auto|]. by apply Hput.
    + intros s Hu. split; [auto|]. by apply Hput.
Qed.

(** ** The commit and the clean-up *)

Definition staging_key (t' c : string) : Prop :=
  t' = t /\ (c = collStaged \/ c = collStagedSeal \/ c = collStagedTL \/ c = collStagedTLHist).

(** The seal no longer authorises a later generation. *)
Definition spent (s0 s : S) : Prop :=
  kv_get t collStagedSeal "" s = kv_get t collStagedSeal "" s0 \/ kv_get t collStagedSeal "" s = None \/
  exists sl, kv_get t collStagedSeal "" s = Some (VSeal (historical_seal g sl)).

Record committed (s0 s : S) : Prop := {
  com_gen : forall t', kv_generation t' s = if decide (t' = t) then g else kv_generation t' s0;
  com_frame : forall t' c k, ~ live_key t' c k -> ~ staging_key t' c -> kv_get t' c k s = kv_get t' c k s0;
  com_new : forall b, b ∈ staged -> kv_get t collCurrent (SB_NodeID b) s = Some (promoted b);
  com_old : forall k, k ∉ map SB_NodeID staged -> kv_get t collCurrent k s = kv_get t collCurrent k s0;
  com_desired : forall k, k ∈ map SB_NodeID staged -> kv_get t collNodes k s = desired (kv_get t collNodes k s0);
  com_nodes : forall k, k ∉ map SB_NodeID staged -> kv_get t collNodes k s = kv_get t collNodes k s0;
  com_served : kv_get t collServedTL "" s = served_slot (kv_get t collServedTL "" s0);
  com_seal : spent s0 s }.

Lemma written_commit s0 s : written s0 s -> committed s0 (kv_setGeneration t g s).
Proof.
  intros Hw. split.
  - intros t'. rewrite generation_setGeneration. destruct (decide (t' = t)); [done|]. apply (upto_gen Hw).
  - intros t' c k Hk _. rewrite get_setGeneration. by apply (upto_frame Hw).
  - intros b Hb. rewrite get_setGeneration. by apply (upto_new Hw).
  - intros k Hk. rewrite get_setGeneration. by apply (upto_old Hw).
  - intros k Hk. rewrite get_setGeneration. by apply (upto_desired Hw).
  - intros k Hk. rewrite get_setGeneration. by apply (upto_nodes Hw).
  - rewrite get_setGeneration. apply (upto_served Hw).
  - left. rewrite get_setGeneration. apply (upto_frame Hw). intros [_ [?|[?|[? _]]]]; discriminate.
Qed.

(** A change confined to the staging records of the tenant. *)
Lemma committed_staging s0 s s' :
  committed s0 s -> (forall t', kv_generation t' s' = kv_generation t' s) ->
  (forall t' c k, ~ staging_key t' c -> kv_get t' c k s' = kv_get t' c k s) -> spent s0 s' -> committed s0 s'.
Proof.
  intros Hc Hg Hk Hs. destruct Hc. split.
  - intros t'. by rewrite Hg.
  - intros t' c k Hl Hst. rewrite Hk by done. auto.
  - intros b Hb. rewrite Hk; [auto|]. intros [_ [?|[?|[?|?]]]]; discriminate.
  - intros k Hb. rewrite Hk; [auto|]. intros [_ [?|[?|[?|?]]]]; discriminate.
  - intros k Hb. rewrite Hk; [auto|]. intros [_ [?|[?|[?|?]]]]; discriminate.
  - intros k Hb. rewrite Hk; [auto|]. intros [_ [?|[?|[?|?]]]]; discriminate.
  - rewrite Hk; [auto|]. intros [_ [?|[?|[?|?]]]]; discriminate.
  - done.
Qed.

Lemma committed_put c k v s0 s :
  staging_key t c -> (c = collStagedSeal -> k = "" -> exists sl, v = VSeal (historical_seal g sl)) ->
  committed s0 s -> committed s0 (kv_put t c k v s).
Proof.
  intros Hst Hv Hc. eapply committed_staging; [done| | |].
  - intros t'. by rewrite generation_put.
  - intros t' c' k' Hn. rewrite get_put. destruct (decide _) as [(-> & -> & ->)|]; [by destruct Hn|done].
  - unfold spent. rewrite !get_put. destruct (decide _) as [(_ & Hcc & Hkk)|].
    + right; right. destruct (Hv (eq_sym Hcc) (eq_sym Hkk)) as [sl ->]. by exists sl.
    + apply (com_seal _ _ Hc).
Qed.

Lemma committed_del c k s0 s : staging_key t c -> committed s0 s -> committed s0 (kv_del t c k s).
Proof.
  intros Hst Hc. eapply committed_staging; [done| | |].
  - intros t'. by rewrite generation_del.
  - intros t' c' k' Hn. rewrite get_del. destruct (decide _) as [(-> & -> & ->)|]; [by destruct Hn|done].
  - unfold spent. rewrite !get_del. destruct (decide _) as [(_ & Hcc & Hkk)|]; [auto|]. apply (com_seal _ _ Hc).
Qed.

Lemma spec_ignore_write (f : S -> S) (P : S -> Prop) E : (forall s, P s -> P (f s)) -> spec (ignore (prim_write f)) P (fun _ => P) E P.
Proof. intros Hf. apply spec_ignore, spec_write; auto. Qed.

Lemma spec_cleanup ids E s0 : spec (promote_cleanup t g ids tl) (committed s0) (fun _ => committed s0) E (committed s0).
Proof.
  assert (staging_key t collStaged /\ staging_key t collStagedSeal /\ staging_key t collStagedTL /\ staging_key t collStagedTLHist)
    as (H1 & H2 & H3 & H4) by (unfold staging_key; split_and!; auto).
  unfold promote_cleanup. eapply spec_bind with (R := fun _ => committed s0).
  - apply (spec_for_all _ ids (fun _ => committed s0)). intros pre x post _. apply spec_ignore_write. intros s. by apply committed_del.
  - intros u. destruct tl as [sl|]; (eapply spec_bind; [apply spec_ignore_write|intros u'; apply spec_ignore_write]); intros s Hc.
    + apply committed_put; [done| |done]. done.
    + apply committed_put; [done|by intros; exists sl|done].
    + by apply committed_del.
    + by apply committed_del.
Qed.
End Promotion.

(** ** The whole operation *)

Section PromoteStaged.
Context {S : Type} `{KVLaws S}.

Definition next_generation (t : TenantID) (s : S) : Z := i64 (kv_generation t s + 1).
Definition candidate (t : TenantID) (s : S) := answer (sealed_candidate t (next_generation t s)) s.

Lemma candidate_Ok t s staged ids tl :
  candidate t s = Ok (staged, ids, tl) ->
  ids = map SB_NodeID staged /\ NoDup (map SB_NodeID staged) /\ staged <> [] /\
  Forall (fun b => SB_Generation b = next_generation t s) staged /\ 0 < next_generation t s /\
  (exists seal, kv_get t collStagedSeal "" s = Some (VSeal seal) /\ Seal_Generation seal = next_generation t s).
Proof.
  unfold candidate. rewrite answer_sealed_candidate. unfold candidate_view.
  destruct (seal_view _) as [seal|e] eqn:Eseal; [|by case_match]. apply seal_view_pos in Eseal as [Hpos Hseal].
  destruct (Z.eqb_spec (Seal_Generation seal) (next_generation t s)) as [Hg|]; [|done]. cbn [negb].
  destruct (Seal_Historical seal || _) eqn:Eh; [done|]. apply orb_false_iff in Eh as [_ Eh].
  destruct (collect_staged _ _) as [bs|] eqn:Ec; [|done].
  destruct (sameStringSet _ _) eqn:Es; [|done]. cbn [negb]. destruct (manifest_view _ _) as [tl'|]; [|done].
  intros [= <- <- <-]. split_and!; [done|by eapply collect_staged_NoDup|..].
  - intros ->. cbn in Es. by destruct (Seal_NodeIDs seal).
  - apply Forall_forall. intros b Hb. apply collect_staged_Ok in Ec as [Hin _]. by apply Hin.
  - lia.
  - eauto.
Qed.

(** How a promotion that found its candidate ends. *)
Definition promotion (t : TenantID) (s0 : S) (P : list SignedBundle -> option StoredTrustList -> Prop) : Prop :=
  exists staged ids tl, candidate t s0 = Ok (staged, ids, tl) /\ P staged tl.

Lemma spec_PromoteStaged ctx t s0 :
  spec (PromoteStaged ctx t) (eq s0)
    (fun g s => g = next_generation t s0 /\ promotion t s0 (fun staged tl => committed t g staged tl s0 s))
    (fun e s => (s = s0 /\ (backend_error e \/ candidate t s0 = Err e \/ ctx <> None)) \/
       promotion t s0 (fun staged tl => interrupted t (next_generation t s0) staged tl s0 e s \/
                                        backend_error e /\ committed t (next_generation t s0) staged tl s0 s))
    (fun s => s = s0 \/ promotion t s0 (fun staged tl => mid t (next_generation t s0) staged tl s0 s \/
                                                       committed t (next_generation t s0) staged tl s0 s)).
Proof.
  unfold PromoteStaged, withLock. apply spec_ctx. { intros r s -> <-. auto. }
  eapply spec_bind with (R := fun cur s => s0 = s /\ cur = kv_generation t s0).
  { apply spec_readonly; [auto with readonly|..].
    - intros s a <-. rewrite answer_generation. intros [= <-]. done.
    - intros s e <- He. left. split; [done|]. rewrite answer_generation in He. destruct He as [He|He]; [done|by left].
    - intros s <-. by left. }
  intros cur. set (g := next_generation t s0).
  eapply spec_bind with (R := fun c s => s0 = s /\ cur = kv_generation t s0 /\ candidate t s0 = Ok c).
  { apply spec_readonly; [auto with readonly|..].
    - intros s c [<- ->] Hc. done.
    - intros s e [<- ->] [He|He]; left; auto.
    - intros s [<- _]. by left. }
  intros [[staged ids] tl]. cbn [fst snd].
  intros fs s n (<- & -> & Hc). revert fs s0 n g Hc. intros fs s0 n g Hc.
  change (i64 (kv_generation t s0 + 1)) with g.
  assert (forall P : list SignedBundle -> option StoredTrustList -> Prop, P staged tl -> promotion t s0 P) as Hp by (intros P ?; exists staged, ids, tl; auto).
  destruct (candidate_Ok _ _ _ _ _ Hc) as (-> & Hnd & _).
  enough (spec (write_live t g staged tl ;;! setGeneration t g ;;! promote_cleanup t g (map SB_NodeID staged) tl ;;! ret g) (eq s0)
    (fun g' s => g' = g /\ committed t g staged tl s0 s)
    (fun e s => interrupted t g staged tl s0 e s \/ backend_error e /\ committed t g staged tl s0 s)
    (fun s => mid t g staged tl s0 s \/ committed t g staged tl s0 s)) as Hspec.
  { specialize (Hspec fs s0 n eq_refl). cbn beta. destruct (abind _ _ fs s0 n) as [g' s1 n1|e s1 n1|s1].
    - destruct Hspec as [-> Hcom]. auto.
    - right. auto.
    - right. auto. }
  eapply spec_bind with (R := fun _ => written t g staged tl s0).
  { eapply spec_weaken; [by apply spec_write_live|done|done|auto|auto]. }
  intros u'. eapply spec_bind with (R := fun _ => committed t g staged tl s0).
  { apply spec_write.
    - intros s. apply written_commit.
    - intros msg s Hw. split; [left; split; [by apply written_mid|by left]|right; split; [done|by apply written_commit]].
    - intros s Hw. split; [left; by apply written_mid|right; by apply written_commit]. }
  intros u2. eapply spec_bind with (R := fun _ => committed t g staged tl s0).
  { eapply spec_weaken; [by apply spec_cleanup|done|done|intros e s Hcom|auto]. exact Hcom. }
  intros u3. by apply spec_ret.
Qed.
End PromoteStaged.
