(* ===== verification/Promotion.v ===== *)
(** * Promotion: what nodes are served, whatever fails *)

From stdpp Require Import base gmap strings list sorting.
From Stdlib Require Import ZArith Lia.
From S2P Require Import Prelude GoLib GoSha StoreTypes StoreMonad StoreCore StoreLogic StoreStage StageProps MemKV.

Local Open Scope Z_scope.
Local Open Scope store_scope.
Local Open Scope go_scope.

Section Atomic.
Context {S : Type} `{KVLaws S}.
Implicit Types (s : S) (t : TenantID).

(** The current record of a node once [staged] is promoted. *)
Definition new_current (staged : list SignedBundle) (id : string) (old : option value) : option value :=
  match list_find (fun b => SB_NodeID b = id) staged with Some (_, b) => Some (promoted b) | None => old end.

Lemma next_generation_gt t s : is_i64 (kv_generation t s) -> 0 < next_generation t s -> next_generation t s = kv_generation t s + 1.
Proof. apply i64_succ_pos. Qed.

Lemma SB_Generation_set_flags x y b : SB_Generation (set_flags x y b) = SB_Generation b.
Proof. by destruct b. Qed.
Lemma TL_PromotedGeneration_set g sl : TL_PromotedGeneration (set_PromotedGeneration g sl) = g.
Proof. by destruct sl. Qed.

(** Between the first write and the commit, a node is served what it was served
    before or nothing. *)
Lemma served_mid t g staged tl s0 s id :
  mid t g staged tl s0 s -> kv_generation t s0 < g -> Forall (fun b => SB_Generation b = g) staged ->
  served t id s = served t id s0 \/ refused (served t id s).
Proof.
  intros Hm Hg Hst. rewrite !served_closed, (mid_gen _ _ _ _ _ _ Hm).
  rewrite (mid_frame _ _ _ _ _ _ Hm t collOperatorCred) by (intros [_ [?|[?|[? _]]]]; discriminate).
  assert (forall gen, gen = g -> (kv_generation t s0 <? gen) = true) as Hlt by (intros gen ->; by apply Z.ltb_lt).
  destruct (mid_current _ _ _ _ _ _ Hm id) as [->|(b & Hb & _ & ->)].
  - destruct (mid_served _ _ _ _ _ _ Hm) as [->| ->]; [by left|]. unfold served_slot.
    destruct tl as [sl|]; [|by left]. destruct (Nat.eqb _ 0); [by left|].
    unfold served_view. destruct (decode _ _ _) as [b|]; cbn [rbind]; [|by left]. destruct (_ <? _); [by left|].
    destruct (decode_optional collOperatorCred _ _) as [c|]; cbn [rbind]; [|by left]. destruct (bool_decide _); [|by left].
    right. cbn. rewrite TL_PromotedGeneration_set, Hlt by done. cbn. by repeat eexists.
  - right. unfold served_view. cbn. rewrite SB_Generation_set_flags, Hlt; [by repeat eexists|]. by eapply Forall_forall in Hst.
Qed.

Lemma new_current_in staged id b old : NoDup (map SB_NodeID staged) -> b ∈ staged -> SB_NodeID b = id -> new_current staged id old = Some (promoted b).
Proof.
  intros Hnd Hb Hid. unfold new_current. destruct (list_find _ _) as [[i b']|] eqn:E.
  - apply list_find_Some in E as (Hi & Hb' & _). apply list_elem_of_lookup_2 in Hi. do 2 f_equal.
    eapply (NoDup_fmap_inj_on SB_NodeID staged); eauto. congruence.
  - apply list_find_None in E. eapply Forall_forall in E; [|done]. done.
Qed.

Lemma new_current_out staged id old : id ∉ map SB_NodeID staged -> new_current staged id old = old.
Proof.
  intros Hid. unfold new_current. destruct (list_find _ _) as [[i b']|] eqn:E; [|done].
  apply list_find_Some in E as (Hi & Hb' & _). apply list_elem_of_lookup_2 in Hi. destruct Hid. rewrite <- Hb'. by apply list_elem_of_fmap_2.
Qed.

Lemma committed_current t g staged tl s0 s id :
  NoDup (map SB_NodeID staged) -> committed t g staged tl s0 s ->
  kv_get t collCurrent id s = new_current staged id (kv_get t collCurrent id s0).
Proof.
  intros Hnd Hc. destruct (decide (id ∈ map SB_NodeID staged)) as [Hin|Hout].
  - apply list_elem_of_fmap in Hin as (b & -> & Hb). rewrite (com_new _ _ _ _ _ _ Hc b Hb). by erewrite new_current_in.
  - by rewrite (com_old _ _ _ _ _ _ Hc), new_current_out.
Qed.

Lemma served_committed t g staged tl s0 s id :
  NoDup (map SB_NodeID staged) -> committed t g staged tl s0 s ->
  served t id s = served_view id (new_current staged id (kv_get t collCurrent id s0)) g
                    (kv_get t collOperatorCred "" s0) (served_slot g tl (kv_get t collServedTL "" s0)).
Proof.
  intros Hnd Hc. rewrite served_closed, (committed_current _ _ _ _ _ _ _ Hnd Hc), (com_gen _ _ _ _ _ _ Hc), (com_served _ _ _ _ _ _ Hc).
  destruct (decide (t = t)); [|done]. f_equal. apply (com_frame _ _ _ _ _ _ Hc).
  - intros [_ [?|[?|[? _]]]]; discriminate.
  - intros [_ [?|[?|[?|?]]]]; discriminate.
Qed.

(** C5. Promotion is atomic under every schedule of backend errors and crashes.
    Either the generation did not move, no success was reported, and every node is
    served exactly what it was served before or is refused as uncommitted; or the
    generation moved by one and every node is served as if the whole sealed
    candidate had been installed at once: the promoted bundles for the sealed
    nodes, the old bundles for the others, with the candidate's signed
    trust-list. *)
Theorem promote_atomic ctx t fs s n :
  is_i64 (kv_generation t s) ->
  let o := PromoteStaged ctx t fs s n in
  let s' := outcome_state o in
  (kv_generation t s' = kv_generation t s /\ (forall g s1 k, o <> Done g s1 k) /\
   forall id, served t id s' = served t id s \/ refused (served t id s')) \/
  (exists staged ids tl, candidate t s = Ok (staged, ids, tl) /\
     let g := kv_generation t s + 1 in
     kv_generation t s' = g /\ (forall g' s1 k, o = Done g' s1 k -> g' = g) /\
     forall id, served t id s' =
       served_view id (new_current staged id (kv_get t collCurrent id s)) g
         (kv_get t collOperatorCred "" s) (served_slot g tl (kv_get t collServedTL "" s))).
Proof.
  intros Hi o s'. pose proof (spec_PromoteStaged ctx t s fs s n eq_refl) as Hspec. fold o in Hspec.
  assert (forall staged ids tl, candidate t s = Ok (staged, ids, tl) ->
    next_generation t s = kv_generation t s + 1 /\ NoDup (map SB_NodeID staged) /\ Forall (fun b => SB_Generation b = next_generation t s) staged) as Hcand.
  { intros staged ids tl (_ & Hnd & _ & Hall & Hpos & _)%candidate_Ok. split_and!; [by apply next_generation_gt|done|done]. }
  assert (forall staged ids tl, candidate t s = Ok (staged, ids, tl) -> mid t (next_generation t s) staged tl s s' ->
    kv_generation t s' = kv_generation t s /\ forall id, served t id s' = served t id s \/ refused (served t id s')) as Hmid.
  { intros staged ids tl (Hg & _ & Hall)%Hcand Hm. split; [apply (mid_gen _ _ _ _ _ _ Hm)|]. intros id. eapply served_mid; [done|lia|done]. }
  assert (forall staged ids tl, candidate t s = Ok (staged, ids, tl) -> committed t (next_generation t s) staged tl s s' ->
    let g := kv_generation t s + 1 in kv_generation t s' = g /\
     forall id, served t id s' = served_view id (new_current staged id (kv_get t collCurrent id s)) g
         (kv_get t collOperatorCred "" s) (served_slot g tl (kv_get t collServedTL "" s))) as Hcom.
  { intros staged ids tl (Hg & Hnd & _)%Hcand Hc. rewrite <- Hg. cbn. split; [|by intros id; apply served_committed].
    rewrite (com_gen _ _ _ _ _ _ Hc). by destruct (decide (t = t)). }
  unfold s' in *. clearbody o. destruct o as [g s1 k|e s1 k|s1]; cbn [outcome_state] in *.
  - destruct Hspec as (-> & staged & ids & tl & Hc & Hcm). right. exists staged, ids, tl.
    destruct (Hcom _ _ _ Hc Hcm) as [Hg Hs]. destruct (Hcand _ _ _ Hc) as (Hn & _). split_and!; [done|done| |done]. by intros ? ? ? [= <- _ _].
  - destruct Hspec as [[-> _]|(staged & ids & tl & Hc & [[Hm _]|[_ Hcm]])].
    + left. split_and!; auto; by intros.
    + left. destruct (Hmid _ _ _ Hc Hm). split_and!; auto; by intros.
    + right. exists staged, ids, tl. destruct (Hcom _ _ _ Hc Hcm). split_and!; auto; by intros.
  - destruct Hspec as [-> |(staged & ids & tl & Hc & [Hm|Hcm])].
    + left. split_and!; auto; by intros.
    + left. destruct (Hmid _ _ _ Hc Hm). split_and!; auto; by intros.
    + right. exists staged, ids, tl. destruct (Hcom _ _ _ Hc Hcm). split_and!; auto; by intros.
Qed.

(** ** Attempts one after the other *)

Lemma desired_idem g v : desired g (desired g v) = desired g v.
Proof. destruct v as [[n| | | | | | | | | | | | | |]|]; try done. cbn. by destruct n. Qed.
Lemma served_slot_idem g tl v : served_slot g tl (served_slot g tl v) = served_slot g tl v.
Proof. unfold served_slot. repeat case_match; congruence. Qed.

Lemma mid_refl t g staged tl s : mid t g staged tl s s.
Proof. split; auto. Qed.

Lemma mid_trans t g staged tl s0 s1 s2 : mid t g staged tl s0 s1 -> mid t g staged tl s1 s2 -> mid t g staged tl s0 s2.
Proof.
  intros H1 H2. split.
  - intros t'. by rewrite (mid_gen _ _ _ _ _ _ H2), (mid_gen _ _ _ _ _ _ H1).
  - intros t' c k Hk. by rewrite (mid_frame _ _ _ _ _ _ H2), (mid_frame _ _ _ _ _ _ H1).
  - intros k. destruct (mid_current _ _ _ _ _ _ H2 k) as [->|?]; [apply (mid_current _ _ _ _ _ _ H1)|by right].
  - intros k. destruct (mid_nodes _ _ _ _ _ _ H2 k) as [->|[Hk ->]]; [apply (mid_nodes _ _ _ _ _ _ H1)|]. right. split; [done|].
    destruct (mid_nodes _ _ _ _ _ _ H1 k) as [->|[_ ->]]; [done|apply desired_idem].
  - destruct (mid_served _ _ _ _ _ _ H2) as [->| ->]; [apply (mid_served _ _ _ _ _ _ H1)|]. right.
    destruct (mid_served _ _ _ _ _ _ H1) as [->| ->]; [done|apply served_slot_idem].
Qed.

Lemma mid_committed t g staged tl s0 s1 s2 : mid t g staged tl s0 s1 -> committed t g staged tl s1 s2 -> committed t g staged tl s0 s2.
Proof.
  intros H1 H2. split.
  - intros t'. by rewrite (com_gen _ _ _ _ _ _ H2), (mid_gen _ _ _ _ _ _ H1).
  - intros t' c k Hl Hs. by rewrite (com_frame _ _ _ _ _ _ H2), (mid_frame _ _ _ _ _ _ H1).
  - apply (com_new _ _ _ _ _ _ H2).
  - intros k Hk. rewrite (com_old _ _ _ _ _ _ H2) by done. destruct (mid_current _ _ _ _ _ _ H1 k) as [?|(b & Hb & <- & _)]; [done|].
    destruct Hk. by apply list_elem_of_fmap_2.
  - intros k Hk. rewrite (com_desired _ _ _ _ _ _ H2) by done. destruct (mid_nodes _ _ _ _ _ _ H1 k) as [->|[_ ->]]; [done|apply desired_idem].
  - intros k Hk. rewrite (com_nodes _ _ _ _ _ _ H2) by done. by destruct (mid_nodes _ _ _ _ _ _ H1 k) as [?|[? _]].
  - rewrite (com_served _ _ _ _ _ _ H2). destruct (mid_served _ _ _ _ _ _ H1) as [->| ->]; [done|apply served_slot_idem].
  - pose proof (com_seal _ _ _ _ _ _ H2) as Hs. unfold spent in *. rewrite (mid_frame _ _ _ _ _ _ H1 t collStagedSeal) in Hs; [done|].
    intros [_ [?|[?|[? _]]]]; discriminate.
Qed.

Lemma mid_candidate t g staged tl s0 s : mid t g staged tl s0 s -> candidate t s = candidate t s0.
Proof.
  intros Hm. unfold candidate, next_generation. rewrite (mid_gen _ _ _ _ _ _ Hm).
  apply sealed_candidate_ext; intros; apply (mid_frame _ _ _ _ _ _ Hm); intros [_ [?|[?|[? _]]]]; discriminate.
Qed.

Lemma mid_readable t g staged tl s0 s : mid t g staged tl s0 s -> nodes_readable t staged s0 -> nodes_readable t staged s.
Proof.
  intros Hm Hr k Hk. destruct (mid_nodes _ _ _ _ _ _ Hm k) as [->|[_ ->]]; [by apply Hr|].
  destruct (Hr k Hk) as [o Ho]. destruct (kv_get t collNodes k s0) as [[]|]; try done; by eexists.
Qed.

(** A committed promotion cannot be promoted again. *)
Lemma committed_spent t staged ids tl s0 s :
  is_i64 (kv_generation t s0) -> candidate t s0 = Ok (staged, ids, tl) ->
  committed t (next_generation t s0) staged tl s0 s -> exists e, candidate t s = Err e.
Proof.
  intros Hi Hc Hcm. destruct (candidate_Ok _ _ _ _ _ Hc) as (_ & _ & _ & _ & Hpos & seal & Hseal & Hsg).
  set (g := next_generation t s0) in *.
  assert (next_generation t s <> g) as Hne.
  { unfold next_generation. rewrite (com_gen _ _ _ _ _ _ Hcm). destruct (decide (t = t)); [|done].
    intros Heq. pose proof (i64_range (g + 1)). rewrite Heq in H1. rewrite i64_succ_pos in Heq; [lia|done|lia]. }
  unfold candidate. rewrite answer_sealed_candidate. unfold candidate_view.
  destruct (seal_view _) as [seal'|e] eqn:Ev; [|destruct (is_not_found e); eauto].
  apply seal_view_pos in Ev as [_ Ev]. assert (Seal_Generation seal' = g) as Hg'.
  { destruct (com_seal _ _ _ _ _ _ Hcm) as [Hs|[Hs|[sl Hs]]]; rewrite Hs in Ev; [congruence|done|by injection Ev as <-]. }
  destruct (Z.eqb_spec (Seal_Generation seal') (next_generation t s)); [congruence|]. by eexists.
Qed.

Lemma collect_staged_Err g recs e : collect_staged g recs = Err e -> ~ backend_error e.
Proof.
  revert e. induction recs as [|r recs IH]; cbn [collect_staged]; intros e; [done|].
  destruct (of_json r.2); [|intros [= <-]; exact id]. case_match; [intros [= <-]; exact id|].
  destruct (collect_staged g recs); [done|]. intros [= <-]. by apply IH.
Qed.

Lemma clean_PromoteStaged t : clean (PromoteStaged None t : Act S Z).
Proof.
  unfold PromoteStaged, generation, sealed_candidate, loadSealLocked, check_seal, list_records, stagedBundlesForGenerationLocked,
    loadSealedTrustListLocked, write_live, promote_bundle, set_desired, saveJSON, put, promote_trustlist, setGeneration, promote_cleanup, del.
  clean. apply clean_fail. by eapply collect_staged_Err.
Qed.

(** Without faults a readable candidate is promoted. *)
Lemma promote_succeeds t staged ids tl s n :
  candidate t s = Ok (staged, ids, tl) -> nodes_readable t staged s ->
  exists s' n', PromoteStaged None t no_faults s n = Done (next_generation t s) s' n' /\ committed t (next_generation t s) staged tl s s'.
Proof.
  intros Hc Hr.
  destruct (spec_run (PromoteStaged None t) _ _ _ _ s n (spec_PromoteStaged None t s) (clean_PromoteStaged t) eq_refl)
    as (g & s' & n' & Hrun & -> & staged' & ids' & tl' & Hc' & Hcm).
  - intros e s' [[_ [Hb|[Hb|Hb]]]|(staged' & ids' & tl' & Hc' & [[_ [Hb|Hb]]|[Hb _]])] Hnb; try done; [congruence|].
    assert (staged' = staged) as -> by congruence. done.
  - exists s', n'. split; [done|]. congruence.
Qed.

(** A sequence of attempts, each with its own faults, over restarts. *)
Definition attempts (t : TenantID) (fss : list Faults) (s : S) : S :=
  foldl (fun s fs => outcome_state (PromoteStaged None t fs s 0%nat)) s fss.

Lemma attempt_invariant t staged ids tl s0 s fs n :
  is_i64 (kv_generation t s0) -> candidate t s0 = Ok (staged, ids, tl) ->
  let g := next_generation t s0 in
  (mid t g staged tl s0 s \/ committed t g staged tl s0 s) ->
  let s' := outcome_state (PromoteStaged None t fs s n) in
  (mid t g staged tl s0 s' \/ committed t g staged tl s0 s') /\ (committed t g staged tl s0 s -> s' = s).
Proof.
  intros Hi Hc g Hs s'. pose proof (spec_PromoteStaged None t s fs s n eq_refl) as Hspec. unfold s'. clear s'.
  destruct Hs as [Hm|Hcm].
  - assert (candidate t s = Ok (staged, ids, tl)) as Hc' by (by rewrite (mid_candidate _ _ _ _ _ _ Hm)).
    assert (next_generation t s = g) as Hg by (unfold next_generation; by rewrite (mid_gen _ _ _ _ _ _ Hm)).
    assert (forall s', mid t g staged tl s s' -> mid t g staged tl s0 s') as Ht by (intros; by eapply mid_trans).
    assert (forall s', committed t g staged tl s s' -> committed t g staged tl s0 s') as Hk by (intros; by eapply mid_committed).
    assert (forall P, promotion t s P -> P staged tl) as Hp by (intros P (? & ? & ? & Hc2 & ?); congruence).
    assert (committed t g staged tl s0 s -> False) as Hno.
    { intros Hcm. destruct (committed_spent _ _ _ _ _ _ Hi Hc Hcm) as [e He]. congruence. }
    split; [|by intros ?%Hno]. rewrite Hg in Hspec.
    destruct (PromoteStaged None t fs s n) as [g' s' k|e s' k|s']; cbn [outcome_state].
    + destruct Hspec as [-> Hcm%Hp]. eauto.
    + destruct Hspec as [[-> _]|[[Hm' _]|[_ Hcm]]%Hp]; eauto.
    + destruct Hspec as [-> |[Hm'|Hcm]%Hp]; eauto.
  - destruct (committed_spent _ _ _ _ _ _ Hi Hc Hcm) as [e He].
    assert (forall P, promotion t s P -> False) as Hp by (intros P (? & ? & ? & ? & _); congruence).
    enough (outcome_state (PromoteStaged None t fs s n) = s) as -> by (split; [by right|done]).
    destruct (PromoteStaged None t fs s n) as [g' s' k|e' s' k|s']; cbn [outcome_state].
    + by destruct Hspec as [_ []%Hp].
    + by destruct Hspec as [[-> _]|[]%Hp].
    + by destruct Hspec as [-> |[]%Hp].
Qed.

Lemma attempts_invariant t staged ids tl s0 fss :
  is_i64 (kv_generation t s0) -> candidate t s0 = Ok (staged, ids, tl) ->
  let g := next_generation t s0 in
  mid t g staged tl s0 (attempts t fss s0) \/ committed t g staged tl s0 (attempts t fss s0).
Proof.
  intros Hi Hc g. unfold attempts.
  apply (foldl_inv (fun _ s => mid t g staged tl s0 s \/ committed t g staged tl s0 s)); [left; apply mid_refl|].
  intros pre fs post s _ Hs. by apply (attempt_invariant _ _ _ _ _ _ fs 0%nat Hi Hc Hs).
Qed.

(** The same configuration for every node and the same registry. *)
Definition live_equal (t : TenantID) (s s' : S) : Prop :=
  forall id, served t id s = served t id s' /\ kv_get t collNodes id s = kv_get t collNodes id s'.

Lemma committed_live t g staged tl s0 s1 s2 :
  NoDup (map SB_NodeID staged) -> committed t g staged tl s0 s1 -> committed t g staged tl s0 s2 -> live_equal t s1 s2.
Proof.
  intros Hnd H1 H2 id. split; [by rewrite (served_committed _ _ _ _ _ _ _ Hnd H1), (served_committed _ _ _ _ _ _ _ Hnd H2)|].
  destruct (decide (id ∈ map SB_NodeID staged)).
  - by rewrite (com_desired _ _ _ _ _ _ H1), (com_desired _ _ _ _ _ _ H2).
  - by rewrite (com_nodes _ _ _ _ _ _ H1), (com_nodes _ _ _ _ _ _ H2).
Qed.

(** C17. A promotion takes effect exactly once, over any sequence of attempts that
    fail or crash anywhere.  While the generation has not moved, one more attempt
    without faults succeeds and installs what an undisturbed promotion would have
    installed; once it has moved, that is what is installed already, and no further
    attempt, whatever its faults, changes anything. *)
Theorem promote_exactly_once t s staged ids tl (fss : list Faults) :
  is_i64 (kv_generation t s) -> candidate t s = Ok (staged, ids, tl) -> nodes_readable t staged s ->
  let g := kv_generation t s + 1 in
  let s' := attempts t fss s in
  exists s1 n1, PromoteStaged None t no_faults s 0%nat = Done g s1 n1 /\
    ((kv_generation t s' = kv_generation t s /\
      exists s2 n2, PromoteStaged None t no_faults s' 0%nat = Done g s2 n2 /\ live_equal t s2 s1) \/
     (kv_generation t s' = g /\ live_equal t s' s1 /\
      forall fs n, outcome_state (PromoteStaged None t fs s' n) = s')).
Proof.
  intros Hi Hc Hr g s'. destruct (candidate_Ok _ _ _ _ _ Hc) as (_ & Hnd & _ & _ & Hpos & _).
  assert (next_generation t s = g) as Hg by (by apply next_generation_gt).
  destruct (promote_succeeds _ _ _ _ _ 0%nat Hc Hr) as (s1 & n1 & Hrun1 & Hcm1). rewrite Hg in *. exists s1, n1. split; [done|].
  pose proof (attempts_invariant t staged ids tl s fss Hi Hc) as Hinv. cbn in Hinv. fold s' in Hinv. rewrite Hg in Hinv.
  destruct Hinv as [Hm|Hcm].
  - left. split; [apply (mid_gen _ _ _ _ _ _ Hm)|].
    assert (next_generation t s' = g) as Hg' by (unfold next_generation; rewrite (mid_gen _ _ _ _ _ _ Hm); done).
    destruct (promote_succeeds t staged ids tl s' 0%nat) as (s2 & n2 & Hrun2 & Hcm2).
    + by rewrite (mid_candidate _ _ _ _ _ _ Hm).
    + by eapply mid_readable.
    + rewrite Hg' in *. exists s2, n2. split; [done|]. eapply committed_live; [done|by eapply mid_committed|done].
  - right. split_and!.
    + rewrite (com_gen _ _ _ _ _ _ Hcm). by destruct (decide (t = t)).
    + by eapply committed_live.
    + intros fs n. rewrite <- Hg in Hcm. by apply (attempt_invariant t staged ids tl s s' fs n Hi Hc (or_intror Hcm)).
Qed.

(** ** An interrupted promotion blocks the staging operations *)

(** Live records ahead of the committed generation. *)
Definition unsettled (t : TenantID) (s : S) : Prop :=
  (exists k b, kv_get t collCurrent k s = Some (VBundle b) /\ kv_generation t s < SB_Generation b) \/
  (exists sl, kv_get t collServedTL "" s = Some (VTrustList sl) /\ kv_generation t s < TL_PromotedGeneration sl).

Lemma require_unsettled t s : unsettled t s -> answer (requireCompletedPromotionLocked t (kv_generation t s)) s <> Ok tt.
Proof.
  intros Hu. unfold requireCompletedPromotionLocked. rewrite answer_bind; [|auto with readonly|readonly].
  rewrite answer_list. cbn [rbind]. rewrite answer_bind; [|apply readonly_for_all, readonly_require_bundle|readonly].
  destruct (answer (for_all _ _) s) as [[]|] eqn:Eall; cbn [rbind]; [|done].
  rewrite answer_bind; [|auto with readonly|readonly]. rewrite answer_load_optional.
  destruct Hu as [(k & b & Hk & Hg)|(sl & Hk & Hg)].
  - apply answer_for_all in Eall; [|apply readonly_require_bundle]. apply elem_of_kv_list in Hk.
    eapply Forall_forall in Eall; [|exact Hk]. unfold require_bundle_committed in Eall. cbn [snd fst of_json SignedBundle_json] in Eall.
    destruct (String.eqb _ _); [|done]. cbn [negb] in Eall. apply Z.ltb_lt in Hg. by rewrite Hg in Eall.
  - rewrite Hk. cbn. apply Z.ltb_lt in Hg. by rewrite Hg.
Qed.

Lemma spec_blocked {A} t (k : Z -> Act S A) s0 :
  unsettled t s0 ->
  spec (do! cur <- generation t in requireCompletedPromotionLocked t cur ;;! k cur) (eq s0)
    (fun _ _ => False) (fun _ s => s = s0) (fun s => s = s0).
Proof.
  intros Hu. eapply spec_bind with (R := fun cur s => s0 = s /\ cur = kv_generation t s0).
  { apply spec_readonly; [auto with readonly|..]; [|by intros s e <-|by intros s <-].
    intros s a <-. rewrite answer_generation. by intros [= <-]. }
  intros cur. eapply spec_bind with (R := fun _ _ => False); [|by intros u fs s n].
  apply spec_readonly; [auto with readonly|..]; [|by intros s e [<- _]|by intros s [<- _]].
  intros s [] [<- ->] Ha. by apply require_unsettled in Ha.
Qed.

(** The operations that change the candidate or the generation without deploying. *)
Inductive staging_op :=
| OpStage (b : SignedBundle)
| OpReplace (set : StagedSet)
| OpPrune (keep : list string)
| OpBump
| OpPutTrustList (sl : StoredTrustList).

Definition run_staging (ctx : option string) (t : TenantID) (op : staging_op) : Act S unit :=
  match op with
  | OpStage b => StageBundle ctx t b
  | OpReplace set => ReplaceStagedSet ctx t set ;;! ret tt
  | OpPrune keep => PruneStagedBundles ctx t keep ;;! ret tt
  | OpBump => BumpGeneration ctx t ;;! ret tt
  | OpPutTrustList sl => PutSignedTrustList ctx t sl
  end.

(** After a promotion was interrupted between its first live write and its
    commit, no staging, replacement, pruning, trust-list or wake operation succeeds
    or changes a single record, whatever the backend does: the orphaned records
    cannot be committed by an unrelated operation, and the interrupted candidate
    stays there to be retried. *)
Theorem interrupted_promotion_blocks ctx t op fs s n :
  unsettled t s ->
  let o := run_staging ctx t op fs s n in
  outcome_state o = s /\ forall u s' k, o <> Done u s' k.
Proof.
  intros Hu o.
  enough (spec (run_staging ctx t op) (eq s) (fun _ _ => False) (fun _ s' => s' = s) (fun s' => s' = s)) as Hspec.
  { specialize (Hspec fs s n eq_refl). fold o in Hspec. by destruct o. }
  destruct op; cbn [run_staging].
  - apply spec_ctx; [by intros|]. destruct (_ || _); [by apply spec_fail|]. apply spec_blocked, Hu.
  - eapply spec_bind with (R := fun _ _ => False); [|by intros u f s' m]. apply spec_ctx; [by intros|]. cbn zeta.
    destruct (_ && _); [by apply spec_fail|]. destruct (_ && _); [by apply spec_fail|].
    destruct (check_bundles _ _ _); [|by apply spec_fail].
    eapply spec_bind with (R := fun _ _ => False); [|by intros u f s' m]. by apply spec_blocked.
  - eapply spec_bind with (R := fun _ _ => False); [|by intros u f s' m]. apply spec_ctx; [by intros|].
    eapply spec_bind with (R := fun _ _ => False); [|by intros u f s' m]. by apply spec_blocked.
  - eapply spec_bind with (R := fun _ _ => False); [|by intros u f s' m]. apply spec_ctx; [by intros|]. by apply spec_blocked.
  - apply spec_ctx; [by intros|]. by apply spec_blocked.
Qed.
End Atomic.

(** ** A tenant with two staged nodes *)

Definition ex_bundle (id : string) : SignedBundle := mkSignedBundle id 1 [("wg0.conf", "[Interface]")] false false 0.
Definition ex_manifest : StoredTrustList := mkTrustList "{}" "sig" 1 0.
Definition ex_set : StagedSet := mkStagedSet 1 [ex_bundle "b"; ex_bundle "a"] (Some ex_manifest).
Definition ex_node : RegistryNode := mkRegistryNode "a" "" "" NodeApproved 0 0 "" "" "" [] [] 0 0 false.
Definition ex_store : memkv :=
  outcome_state ((UpsertNode None "acme" ex_node ;;! ReplaceStagedSet None "acme" ex_set ;;! ret tt) no_faults newMemkv 0%nat).

(** The process dies at the [k]-th primitive, after its effect. *)
Definition crash_at (k : nat) : Faults := fun n => if Nat.eqb n k then Crashes true else NoFault.

Example ex_candidate :
  candidate "acme" ex_store = Ok ([set_flags true false (ex_bundle "a"); set_flags true false (ex_bundle "b")], ["a"; "b"], Some ex_manifest).
Proof. vm_compute. reflexivity. Qed.

(** A crash right after the first bundle: node "a" is refused, node "b" has nothing yet. *)
Example ex_torn :
  let s := outcome_state (PromoteStaged None "acme" (crash_at 4) ex_store 0%nat) in
  refused (served "acme" "a" s) /\ served "acme" "b" s = Err ErrNotFound /\ kv_generation "acme" s = 0.
Proof. vm_compute. split_and!; [by repeat eexists|done|done]. Qed.

Lemma promote_atomic_witness :
  is_i64 (kv_generation "acme" ex_store) /\
  let s' := outcome_state (PromoteStaged None "acme" (crash_at 4) ex_store 0%nat) in
  (kv_generation "acme" s' = 0 \/ kv_generation "acme" s' = 1).
Proof.
  assert (is_i64 (kv_generation "acme" ex_store)) as Hi by (vm_compute; split; congruence).
  split; [exact Hi|]. destruct (promote_atomic None "acme" (crash_at 4) ex_store 0%nat Hi) as [(Hg & _)|(staged & ids & tl & _ & Hg & _)].
  - left. exact Hg.
  - right. exact Hg.
Defined.

Lemma promote_exactly_once_witness :
  exists s1 n1, PromoteStaged None "acme" no_faults ex_store 0%nat = Done 1 s1 n1 /\
    let s' := attempts "acme" [crash_at 4; crash_at 9; crash_at 6] ex_store in
    ((exists s2 n2, PromoteStaged None "acme" no_faults s' 0%nat = Done 1 s2 n2 /\ live_equal "acme" s2 s1) \/ live_equal "acme" s' s1).
Proof.
  assert (is_i64 (kv_generation "acme" ex_store)) as Hi by (vm_compute; split; congruence).
  assert (nodes_readable "acme" [set_flags true false (ex_bundle "a"); set_flags true false (ex_bundle "b")] ex_store) as Hr.
  { intros k Hk. cbn in Hk. apply elem_of_cons in Hk as [->|Hk]; [vm_compute; by eexists|].
    apply elem_of_cons in Hk as [->|Hk]; [vm_compute; by eexists|]. by apply elem_of_nil in Hk. }
  destruct (promote_exactly_once "acme" ex_store _ _ _ [crash_at 4; crash_at 9; crash_at 6] Hi ex_candidate Hr)
    as (s1 & n1 & Hrun & [(_ & s2 & n2 & Hrun2 & Hl)|(_ & Hl & _)]); exists s1, n1; (split; [exact Hrun|]).
  - left. exists s2, n2. split; [exact Hrun2|exact Hl].
  - right. exact Hl.
Defined.

Lemma interrupted_promotion_blocks_witness :
  let s := outcome_state (PromoteStaged None "acme" (crash_at 4) ex_store 0%nat) in
  unsettled "acme" s /\ outcome_state (run_staging None "acme" OpBump no_faults s 0%nat) = s.
Proof.
  assert (unsettled "acme" (outcome_state (PromoteStaged None "acme" (crash_at 4) ex_store 0%nat))) as Hu.
  { left. exists "a", (set_flags false true (ex_bundle "a")). vm_compute. done. }
  split; [exact Hu|]. exact (proj1 (interrupted_promotion_blocks None "acme" OpBump no_faults _ 0%nat Hu)).
Defined.
