(* ===== verification/ReplaceProps.v ===== *)
(** * Replacing the staged set is all or nothing

    The seal is removed first and written last, so a replacement that stops
    anywhere leaves either the old candidate untouched, no candidate, or exactly
    the new one. *)

From stdpp Require Import base gmap strings list sorting.
From Stdlib Require Import ZArith Lia.
From S2P Require Import Prelude GoLib GoSha StoreTypes StoreMonad StoreCore StoreLogic StoreStage StageProps MemKV.

Local Open Scope Z_scope.
Local Open Scope store_scope.
Local Open Scope go_scope.

(** ** Canonical identifier lists *)

Lemma sameStringSet_refl ids : sameStringSet ids ids = true.
Proof. induction ids; cbn; [done|]. by rewrite String.eqb_refl. Qed.

Lemma StringsAreSorted_true ids : StronglySorted String.le ids -> StringsAreSorted ids = true.
Proof.
  induction 1 as [|x ids Hs IH Hx]; [done|]. destruct ids as [|y ids]; [done|].
  change (bool_decide (String.le x y) && StringsAreSorted (y :: ids) = true). rewrite IH, andb_true_r.
  apply bool_decide_eq_true. by apply Forall_inv in Hx.
Qed.

Lemma ids_wellformed_true ids prev :
  NoDup ids -> Forall (fun id => id <> "") ids -> (forall p, prev = Some p -> p ∉ ids) -> ids_wellformed prev ids = true.
Proof.
  revert prev. induction ids as [|id ids IH]; intros prev Hnd Hne Hp; cbn [ids_wellformed]; [done|].
  apply NoDup_cons in Hnd as [Hid Hnd]. apply Forall_cons in Hne as [Hn Hne].
  rewrite IH; [|done|done|by intros p [= <-]]. destruct (String.eqb_spec id ""); [done|]. cbn [negb andb].
  destruct (bool_decide (prev = Some id)) eqn:E; [|done]. apply bool_decide_eq_true in E. destruct (Hp _ E). by left.
Qed.

Section Bundles.
Context (gen : Z).

(** A canonical set of bundles: what the shape check lets through. *)
Record canonical (bs : list SignedBundle) : Prop := {
  can_sorted : StronglySorted (key_le SB_NodeID) bs;
  can_nodup : NoDup (map SB_NodeID bs);
  can_named : Forall (fun id => id <> "") (map SB_NodeID bs);
  can_gen : Forall (fun b => SB_Generation b = gen) bs }.

Lemma check_bundles_Ok seen bs out :
  check_bundles gen seen bs = Ok out ->
  out = map (set_flags true false) bs /\ NoDup (map SB_NodeID bs) /\ (forall id, id ∈ seen -> id ∉ map SB_NodeID bs) /\
  Forall (fun id => id <> "") (map SB_NodeID bs) /\ Forall (fun b => SB_Generation b = gen) bs.
Proof.
  revert seen out. induction bs as [|b bs IH]; intros seen out; cbn [check_bundles map].
  - intros [= <-]. split_and!; [done|constructor|by intros id _ ?%elem_of_nil|constructor|constructor].
  - destruct (String.eqb_spec (SB_NodeID b) ""); [done|]. destruct (Z.eqb_spec (SB_Generation b) gen); [|done]. cbn [orb negb].
    destruct (bool_decide _) eqn:E; [done|]. apply bool_decide_eq_false in E.
    destruct (check_bundles _ _ _) as [bs'|] eqn:Ec; [|done]. intros [= <-].
    apply IH in Ec as (-> & Hnd & Hseen & Hne & Hg). split_and!; [done| | |by constructor|by constructor].
    + constructor; [|done]. apply Hseen. by left.
    + intros id Hid [->|Hin]%elem_of_cons; [done|]. by apply (Hseen id); [right|].
Qed.

Lemma SB_NodeID_set_flags x y b : SB_NodeID (set_flags x y b) = SB_NodeID b.
Proof. by destruct b. Qed.

Lemma map_ids_flags x y bs : map SB_NodeID (map (set_flags x y) bs) = map SB_NodeID bs.
Proof. rewrite map_map. apply map_ext. intros b. apply SB_NodeID_set_flags. Qed.

Lemma check_bundles_canonical bs out :
  check_bundles gen [] (sort_by SB_NodeID bs) = Ok out -> out = map (set_flags true false) (sort_by SB_NodeID bs) /\ canonical out.
Proof.
  intros (-> & Hnd & _ & Hne & Hg)%check_bundles_Ok. split; [done|]. split.
  - pose proof (sort_by_sorted SB_NodeID bs) as Hs. induction Hs as [|b l _ IH Hb]; cbn [map]; constructor.
    + cbn [map] in *. apply NoDup_cons in Hnd as [_ ?]. apply Forall_cons in Hne as [_ ?]. apply Forall_cons in Hg as [_ ?]. auto.
    + apply Forall_map. eapply Forall_impl; [exact Hb|]. intros b' Hle. unfold key_le in *. by rewrite !SB_NodeID_set_flags.
  - by rewrite map_ids_flags.
  - by rewrite map_ids_flags.
  - apply Forall_map. eapply Forall_impl; [exact Hg|]. intros b' <-. by destruct b'.
Qed.

Lemma collect_staged_map bs :
  Forall (fun b => SB_Generation b = gen) bs -> collect_staged gen (map (fun b => (SB_NodeID b, VBundle b)) bs) = Ok bs.
Proof.
  induction 1 as [|b bs Hb _ IH]; [done|]. cbn [map collect_staged fst snd of_json SignedBundle_json].
  by rewrite String.eqb_refl, IH, Hb, Z.eqb_refl.
Qed.

Lemma candidate_seal_ids ids sl : Seal_NodeIDs (candidate_seal gen ids sl) = ids.
Proof. by destruct sl. Qed.

(** The seal of a canonical set reads back. *)
Lemma seal_view_candidate bs tl :
  0 < gen -> canonical bs -> seal_view (Some (VSeal (candidate_seal gen (map SB_NodeID bs) tl))) = Ok (candidate_seal gen (map SB_NodeID bs) tl).
Proof.
  intros Hg [Hs Hnd Hne _]. unfold seal_view, check_seal. cbn [decode of_json stagedSetSeal_json]. rewrite !candidate_seal_ids.
  replace (Seal_Generation _) with gen by (by destruct tl). destruct (Z.leb_spec gen 0); [lia|].
  rewrite StringsAreSorted_true; [|clear - Hs; induction Hs as [|b l _ IH Hb]; cbn; constructor; [done|by apply Forall_map]].
  cbn [negb]. replace (Seal_Historical _) with false by (by destruct tl). cbn [andb].
  rewrite (ids_wellformed_true _ None Hnd Hne (fun p (Hp : None = Some p) => match Hp with end)). cbn [negb].
  destruct tl as [sl|]; [|done]. cbn [candidate_seal Seal_HasTrustList Seal_TrustListSHA256]. pose proof (length_sha256_hex (TL_TrustListJSON sl)) as Hl. fold (trustListSHA256 (TL_TrustListJSON sl)) in Hl.
  by destruct (trustListSHA256 (TL_TrustListJSON sl)).
Qed.
End Bundles.

(** ** States reached by a replacement *)

Section Replace.
Context {S : Type} `{KVLaws S} (t : TenantID).
Implicit Types s : S.

(** Only staging records of the tenant differ. *)
Record staging_only (s0 s : S) : Prop := {
  so_gen : forall t', kv_generation t' s = kv_generation t' s0;
  so_frame : forall t' c k, ~ staging_key t t' c -> kv_get t' c k s = kv_get t' c k s0 }.

Lemma staging_only_refl s : staging_only s s.
Proof. by split. Qed.

Lemma staging_only_put s0 s c k v : staging_key t t c -> staging_only s0 s -> staging_only s0 (kv_put t c k v s).
Proof.
  intros Hst [Hg Hf]. split.
  - intros t'. by rewrite generation_put.
  - intros t' c' k' Hn. rewrite get_put. destruct (decide _) as [(-> & -> & ->)|]; [by destruct Hn|auto].
Qed.

Lemma staging_only_del s0 s c k : staging_key t t c -> staging_only s0 s -> staging_only s0 (kv_del t c k s).
Proof.
  intros Hst [Hg Hf]. split.
  - intros t'. by rewrite generation_del.
  - intros t' c' k' Hn. rewrite get_del. destruct (decide _) as [(-> & -> & ->)|]; [by destruct Hn|auto].
Qed.

Lemma staging_only_served s0 s id : staging_only s0 s -> served t id s = served t id s0.
Proof.
  intros [Hg Hf]. rewrite !served_closed, Hg, !Hf; [done|..]; intros [_ [?|[?|[?|?]]]]; discriminate.
Qed.

Lemma staging_only_next s0 s : staging_only s0 s -> next_generation t s = next_generation t s0.
Proof. intros [Hg _]. unfold next_generation. by rewrite Hg. Qed.

Lemma staging_keys : staging_key t t collStaged /\ staging_key t t collStagedSeal /\ staging_key t t collStagedTL /\ staging_key t t collStagedTLHist.
Proof. unfold staging_key. split_and!; auto. Qed.

(** A seal that authorises nothing. *)
Definition dead_seal (v : option value) : Prop := v = None \/ exists g sl, v = Some (VSeal (historical_seal g sl)).

Lemma dead_candidate s : dead_seal (kv_get t collStagedSeal "" s) -> exists e, candidate t s = Err e.
Proof.
  intros Hd. unfold candidate. rewrite answer_sealed_candidate. unfold candidate_view. destruct Hd as [->|(g & sl & ->)].
  - cbn. by eexists.
  - destruct (seal_view _) as [seal|e] eqn:E; [|destruct (is_not_found e); eauto].
    apply seal_view_pos in E as [_ [= <-]]. case_match; [eauto|]. cbn. eauto.
Qed.

(** Withdrawn: no authority, and nothing but staging records changed. *)
Definition withdrawn (s0 s : S) : Prop := staging_only s0 s /\ dead_seal (kv_get t collStagedSeal "" s).

(** The staged records hold the bundles of [pre], under a removed seal. *)
Definition holds (pre : list SignedBundle) (s0 s : S) : Prop :=
  staging_only s0 s /\ kv_get t collStagedSeal "" s = None /\
  forall b, b ∈ pre -> kv_get t collStaged (SB_NodeID b) s = Some (VBundle b).

Lemma holds_withdrawn pre s0 s : holds pre s0 s -> withdrawn s0 s.
Proof. intros (Hs & Hn & _). split; [done|by left]. Qed.

(** A write outside the seal and the staged bundles. *)
Lemma holds_frame pre s0 s s' :
  holds pre s0 s -> staging_only s0 s' -> kv_get t collStagedSeal "" s' = kv_get t collStagedSeal "" s ->
  (forall k, kv_get t collStaged k s' = kv_get t collStaged k s) -> holds pre s0 s'.
Proof. intros (_ & Hn & Hb) Hs He Hk. split_and!; [done|by rewrite He|]. intros b Hin. rewrite Hk. auto. Qed.

Lemma spec_wrap {A} msg (m : Act S A) P Q (E : store_error -> S -> Prop) C :
  spec m P Q (fun e => E (WrappedError msg e)) C -> spec (wrap msg m) P Q E C.
Proof.
  intros Hm fs s n Hs. unfold wrap, abind, attempt. specialize (Hm fs s n Hs). by destruct (m fs s n).
Qed.

Lemma spec_stage_loop bs s0 :
  NoDup (map SB_NodeID bs) ->
  spec (for_all (fun b => wrap "controller: staging bundle" (saveJSON t collStaged (SB_NodeID b) b)) bs) (holds [] s0) (fun _ => holds bs s0)
    (fun _ => withdrawn s0) (withdrawn s0).
Proof.
  intros Hnd. apply (spec_for_all _ bs (fun pre => holds pre s0)). intros pre b post Hbs. apply spec_wrap.
  assert (forall s, holds pre s0 s -> holds (pre ++ [b]) s0 (kv_put t collStaged (SB_NodeID b) (VBundle b) s)) as Hput.
  { intros s (Hs & Hn & Hb). split_and!.
    - apply staging_only_put; [apply staging_keys|done].
    - rewrite get_put. by destruct (decide _) as [(_ & ? & _)|].
    - intros b' Hin. apply elem_of_snoc in Hin as [Hin| ->]; rewrite get_put; destruct (decide _) as [(_ & _ & Heq)|Hne]; auto; [|by destruct Hne].
      destruct (NoDup_app (map SB_NodeID pre) (map SB_NodeID (b :: post))) as [Hap _]. rewrite Hbs, map_app in Hnd.
      destruct (Hap Hnd) as (_ & Hdis & _). destruct (Hdis (SB_NodeID b')); [by apply list_elem_of_fmap_2|]. rewrite Heq. by left. }
  apply spec_write; [done|..]; intros; split; eauto using holds_withdrawn.
Qed.

(** Pruning leaves the keys of [keep] and no other. *)
Lemma spec_prune bs recs s0 :
  spec (prune_staged t (map SB_NodeID bs) recs)
    (fun s => holds bs s0 s /\ forall k, is_Some (kv_get t collStaged k s) -> k ∈ map SB_NodeID bs \/ k ∈ recs.*1)
    (fun _ s => holds bs s0 s /\ forall k, is_Some (kv_get t collStaged k s) -> k ∈ map SB_NodeID bs)
    (fun _ => withdrawn s0) (withdrawn s0).
Proof.
  induction recs as [|[k v] recs IH]; cbn [prune_staged fst].
  - apply spec_ret. intros s [Hh Hk]. split; [done|]. intros k [?|Hin]%Hk; [done|]. by apply elem_of_nil in Hin.
  - destruct (bool_decide _) eqn:Ek.
    + apply bool_decide_eq_true in Ek. eapply spec_weaken; [exact IH| |done|done|done].
      intros s [Hh Hk]. split; [done|]. intros k' [?|[->|?]%elem_of_cons]%Hk; auto.
    + apply bool_decide_eq_false in Ek.
      assert (forall s, holds bs s0 s -> holds bs s0 (kv_del t collStaged k s)) as Hdel.
      { intros s (Hs & Hn & Hb). split_and!.
        - apply staging_only_del; [apply staging_keys|done].
        - rewrite get_del. by destruct (decide _) as [(_ & ? & _)|].
        - intros b Hin. rewrite get_del. destruct (decide _) as [(_ & _ & <-)|]; [|auto]. destruct Ek. by apply list_elem_of_fmap_2. }
      eapply spec_bind with (R := fun r s => holds bs s0 s /\
        (r = Ok tt -> forall k, is_Some (kv_get t collStaged k s) -> k ∈ map SB_NodeID bs \/ k ∈ recs.*1)).
      * apply spec_attempt, spec_write.
        -- intros s [Hh Hk]. split; [auto|]. intros _ k'. rewrite get_del. destruct (decide _) as [|Hne]; [by intros [? ?]|].
           intros [?|[->|?]%elem_of_cons]%Hk; auto. by destruct Hne.
        -- intros msg s [Hh Hk]. split; (split; [auto|done]).
        -- intros s [Hh Hk]. split; eauto using holds_withdrawn.
      * intros [[]|e]; [|apply spec_fail; intros s [Hh _]; by eapply holds_withdrawn].
        eapply spec_bind; [eapply spec_weaken; [exact IH| |intros a s Ha; exact Ha|done|done]|].
        -- intros s [Hh Hk]. auto.
        -- intros purged. by apply spec_ret.
Qed.

(** The staged records are exactly [bs]. *)
Definition exactly (bs : list SignedBundle) (s0 s : S) : Prop :=
  holds bs s0 s /\ forall k, is_Some (kv_get t collStaged k s) -> k ∈ map SB_NodeID bs.

Definition manifest_record (tl : option StoredTrustList) : option value := VTrustList <$> tl.

Lemma exactly_put c k v bs s0 s :
  staging_key t t c -> c <> collStagedSeal -> c <> collStaged -> exactly bs s0 s -> exactly bs s0 (kv_put t c k v s).
Proof.
  intros Hst H1 H2 [Hh Hk]. assert (forall k', kv_get t collStaged k' (kv_put t c k v s) = kv_get t collStaged k' s) as Hs.
  { intros k'. rewrite get_put. by destruct (decide _) as [(_ & ? & _)|]. }
  split; [|intros k'; rewrite Hs; auto]. eapply holds_frame; [done|by apply staging_only_put, Hh|..|done].
  rewrite get_put. by destruct (decide _) as [(_ & ? & _)|].
Qed.

Lemma exactly_del c k bs s0 s :
  staging_key t t c -> c <> collStagedSeal -> c <> collStaged -> exactly bs s0 s -> exactly bs s0 (kv_del t c k s).
Proof.
  intros Hst H1 H2 [Hh Hk]. assert (forall k', kv_get t collStaged k' (kv_del t c k s) = kv_get t collStaged k' s) as Hs.
  { intros k'. rewrite get_del. by destruct (decide _) as [(_ & ? & _)|]. }
  split; [|intros k'; rewrite Hs; auto]. eapply holds_frame; [done|by apply staging_only_del, Hh|..|done].
  rewrite get_del. by destruct (decide _) as [(_ & ? & _)|].
Qed.

Lemma exactly_withdrawn bs s0 s : exactly bs s0 s -> withdrawn s0 s.
Proof. intros [Hh _]. by eapply holds_withdrawn. Qed.
#[local] Hint Resolve exactly_withdrawn : core.

Lemma spec_manifest bs empty tl s0 :
  spec (replace_manifest t empty tl) (exactly bs s0)
    (fun _ s => exactly bs s0 s /\ kv_get t collStagedTL "" s = manifest_record tl) (fun _ => withdrawn s0) (withdrawn s0).
Proof.
  destruct staging_keys as (_ & _ & Htl & Hhist). unfold replace_manifest. destruct tl as [sl|].
  - assert (forall s, exactly bs s0 s -> exactly bs s0 (kv_put t collStagedTL "" (VTrustList sl) s)) as H1 by (intros; by apply exactly_put).
    assert (forall s, exactly bs s0 s -> exactly bs s0 (kv_put t collStagedTLHist "" (VTrustList sl) s)) as H2 by (intros; by apply exactly_put).
    eapply spec_bind with (R := fun _ s => exactly bs s0 s /\ kv_get t collStagedTL "" s = manifest_record (Some sl)).
    + apply spec_wrap, spec_write; [|intros; split; eauto..].
      intros s Hs. split; [auto|]. cbn [to_json StoredTrustList_json]. rewrite get_put. destruct (decide _) as [|Hn]; [done|by destruct Hn].
    + intros u. apply spec_wrap, spec_write; [|intros msg s [? _]; split; eauto|intros s [? _]; split; eauto].
      intros s [Hs Hm]. split; [auto|]. rewrite get_put. by destruct (decide _) as [(_ & ? & _)|].
  - eapply spec_bind with (R := fun _ => exactly bs s0).
    + destruct empty; [|by apply spec_ret]. eapply spec_bind with (R := fun _ => exactly bs s0).
      * apply spec_readonly; eauto with readonly.
      * intros [p|]; [|by apply spec_ret].
        assert (forall s, exactly bs s0 s -> exactly bs s0 (kv_put t collStagedTLHist "" (VTrustList p) s)) by (intros; by apply exactly_put).
        apply spec_write; [auto|intros; split; eauto..].
    + intros u. assert (forall s, exactly bs s0 s -> exactly bs s0 (kv_del t collStagedTL "" s)) by (intros; by apply exactly_del).
      apply spec_write; [|intros; split; eauto..]. intros s Hs. split; [auto|].
      rewrite get_del. destruct (decide _) as [|Hn]; [done|by destruct Hn].
Qed.

Lemma withdrawn_seal g sl s0 s : withdrawn s0 s -> withdrawn s0 (kv_put t collStagedSeal "" (VSeal (historical_seal g sl)) s).
Proof.
  intros [Hs _]. split; [apply staging_only_put; [apply staging_keys|done]|]. right. exists g, sl.
  rewrite get_put. destruct (decide _) as [|Hn]; [done|by destruct Hn].
Qed.

Lemma withdrawn_put c k v s0 s : staging_key t t c -> c <> collStagedSeal -> withdrawn s0 s -> withdrawn s0 (kv_put t c k v s).
Proof.
  intros Hst Hc [Hs Hd]. split; [by apply staging_only_put|]. rewrite get_put. by destruct (decide _) as [(_ & ? & _)|].
Qed.

Lemma spec_restore_history cur s0 : spec (restore_history t cur) (withdrawn s0) (fun _ => withdrawn s0) (fun _ => withdrawn s0) (withdrawn s0).
Proof.
  unfold restore_history. eapply spec_bind with (R := fun _ => withdrawn s0); [apply spec_readonly; eauto with readonly|].
  intros [h|]; [|by apply spec_ret]. eapply spec_bind with (R := fun _ => withdrawn s0).
  - assert (forall s, withdrawn s0 s -> withdrawn s0 (kv_put t collStagedTL "" (VTrustList h) s))
      by (intros; apply withdrawn_put; [apply staging_keys|done|done]).
    apply spec_write; auto.
  - intros u. pose proof (withdrawn_seal (if cur <=? 0 then 1 else cur) h s0). apply spec_write; auto.
Qed.

(** ** Sealing *)

Lemma exactly_list bs s0 s :
  StronglySorted (key_le SB_NodeID) bs -> NoDup (map SB_NodeID bs) -> exactly bs s0 s ->
  kv_list t collStaged s = map (fun b => (SB_NodeID b, VBundle b)) bs.
Proof.
  intros Hsort Hnd [(_ & _ & Hb) Hk]. apply kv_list_unique.
  - clear - Hsort. induction Hsort as [|b l _ IH Hb]; cbn; constructor; [done|by apply Forall_map].
  - by rewrite map_map.
  - intros k v. rewrite list_elem_of_fmap. split.
    + intros (b & [= -> ->] & Hin). auto.
    + intros Hv. assert (k ∈ map SB_NodeID bs) as (b & -> & Hin)%list_elem_of_fmap by eauto. exists b. split; [|done]. rewrite Hb in Hv by done. congruence.
Qed.

Context (gen : Z) (bs : list SignedBundle) (tl : option StoredTrustList).

(** The new candidate is in force. *)
Definition installed (s0 s : S) : Prop :=
  staging_only s0 s /\ candidate t s = Ok (bs, map SB_NodeID bs, tl).

Definition ready (s0 s : S) : Prop := exactly bs s0 s /\ kv_get t collStagedTL "" s = manifest_record tl.

Lemma manifest_view_candidate ids : manifest_view (candidate_seal gen ids tl) (manifest_record tl) = Ok tl.
Proof. destruct tl as [sl|]; [|done]. unfold manifest_view. cbn -[trustListSHA256]. by rewrite Z.eqb_refl, String.eqb_refl. Qed.

Lemma ready_installed s0 s :
  canonical gen bs -> bs <> [] -> 0 < gen -> gen = next_generation t s0 -> ready s0 s ->
  let s' := kv_put t collStagedSeal "" (VSeal (candidate_seal gen (map SB_NodeID bs) tl)) s in
  installed s0 s' /\ answer (loadSealLocked t) s' = Ok (candidate_seal gen (map SB_NodeID bs) tl).
Proof.
  intros Hcan Hne Hpos Hgen [Hex Htl] s'.
  assert (staging_only s0 s') as Hso by (apply staging_only_put; [apply staging_keys|apply Hex]).
  assert (kv_get t collStagedSeal "" s' = Some (VSeal (candidate_seal gen (map SB_NodeID bs) tl))) as Hseal.
  { unfold s'. rewrite get_put. destruct (decide _) as [|Hn]; [done|by destruct Hn]. }
  assert (answer (loadSealLocked t) s' = Ok (candidate_seal gen (map SB_NodeID bs) tl)) as Hload.
  { rewrite answer_loadSeal, Hseal. by apply seal_view_candidate. }
  split; [|done]. split; [done|]. unfold candidate. rewrite (staging_only_next _ _ Hso), <- Hgen, answer_sealed_candidate. unfold candidate_view.
  rewrite Hseal, seal_view_candidate by done.
  replace (Seal_Generation _) with gen by (by destruct tl). rewrite Z.eqb_refl. cbn [negb].
  replace (Seal_Historical _) with false by (by destruct tl). rewrite candidate_seal_ids.
  destruct (Nat.eqb_spec (length (map SB_NodeID bs)) 0) as [Hl|_]; [rewrite length_map in Hl; by destruct bs|]. cbn [orb].
  rewrite (kv_list_ext t collStaged t collStaged s' s).
  - rewrite (exactly_list bs s0 s), collect_staged_map by (done || apply Hcan). rewrite sameStringSet_refl. cbn [negb].
    replace (kv_get t collStagedTL "" s') with (manifest_record tl); [by rewrite manifest_view_candidate|].
    unfold s'. rewrite get_put. by destruct (decide _) as [(_ & ? & _)|].
  - intros k. unfold s'. rewrite get_put. by destruct (decide _) as [(_ & ? & _)|].
Qed.

Definition settled_by (s0 s : S) : Prop := withdrawn s0 s \/ installed s0 s.

Lemma ready_staged s0 s :
  canonical gen bs -> ready s0 s -> answer (stagedBundlesForGenerationLocked t gen) s = Ok (bs, map SB_NodeID bs).
Proof.
  intros Hcan [Hex _]. rewrite answer_stagedBundles, (exactly_list bs s0 s) by (done || apply Hcan).
  rewrite collect_staged_map by apply Hcan. done.
Qed.

Lemma spec_publish s0 :
  canonical gen bs -> bs <> [] -> 0 < gen -> gen = next_generation t s0 ->
  spec (publish_seal t gen tl (map SB_NodeID bs)) (ready s0) (fun _ => installed s0) (fun _ => settled_by s0) (settled_by s0).
Proof.
  intros Hcan Hne Hpos Hgen. unfold publish_seal, settled_by.
  assert (forall s, ready s0 s -> withdrawn s0 s) as Hr by (intros s [Hex _]; eauto).
  set (seal := candidate_seal gen (map SB_NodeID bs) tl).
  eapply spec_bind with (R := fun _ s => installed s0 s /\ answer (loadSealLocked t) s = Ok seal).
  - apply spec_wrap. unfold saveSealForGenerationLocked.
    eapply spec_bind with (R := fun r s => ready s0 s /\ r = (bs, map SB_NodeID bs)).
    + apply spec_readonly; [auto with readonly|..].
      * intros s r Hs. rewrite (ready_staged s0) by done. by intros [= <-].
      * eauto.
      * eauto.
    + intros r. apply spec_pure. intros ->. cbn [snd].
      destruct (Nat.eqb_spec (length (map SB_NodeID bs)) 0) as [Hl|_]; [rewrite length_map in Hl; by destruct bs|]. cbn [andb].
      pose proof (fun s => ready_installed s0 s Hcan Hne Hpos Hgen) as Hput. fold seal in Hput. apply spec_write.
      * intros s Hs. by apply Hput.
      * intros msg s Hs. split; [auto|]. right. by apply Hput.
      * intros s Hs. split; [auto|]. right. by apply Hput.
  - intros u. eapply spec_bind with (R := fun sl s => installed s0 s /\ sl = seal).
    + apply spec_readonly; [auto with readonly|..].
      * intros s sl [Hs Ha]. rewrite Ha. by intros [= <-].
      * intros s e [Hs _] _. by right.
      * intros s [Hs _]. by right.
    + intros sl fs s n [Hs ->]. unfold seal. by rewrite candidate_seal_ids, sameStringSet_refl.
Qed.
End Replace.

(** ** The whole operation *)

Section ReplaceStagedSet.
Context {S : Type} `{KVLaws S} (t : TenantID).
Implicit Types s : S.

(** The bundles as they are stored. *)
Definition stored_bundles (set : StagedSet) : list SignedBundle := map (set_flags true false) (sort_by SB_NodeID (SS_Bundles set)).

Definition replaced (set : StagedSet) (s0 s : S) : Prop :=
  withdrawn t s0 s \/ installed t (stored_bundles set) (SS_TrustList set) s0 s.

Lemma spec_del_seal s0 :
  spec (del t collStagedSeal "") (eq s0) (fun _ => holds t [] s0) (fun _ s => s = s0 \/ withdrawn t s0 s) (fun s => s = s0 \/ withdrawn t s0 s).
Proof.
  assert (forall s, s0 = s -> holds t [] s0 (kv_del t collStagedSeal "" s)) as Hdel.
  { intros s <-. split_and!; [apply staging_only_del; [apply staging_keys|apply staging_only_refl]| |by intros b ?%elem_of_nil].
    rewrite get_del. destruct (decide _) as [|Hn]; [done|by destruct Hn]. }
  apply spec_write; [auto|..]; intros; (split; [auto|]); right; eapply holds_withdrawn; eauto.
Qed.

Lemma spec_replace_body set bs cur s0 :
  bs = stored_bundles set -> canonical (SS_Generation set) bs ->
  (bs <> [] -> 0 < SS_Generation set /\ SS_Generation set = next_generation t s0) ->
  spec (for_all (fun b => wrap "controller: staging bundle" (saveJSON t collStaged (SB_NodeID b) b)) bs ;;!
        do! recs <- list_records t collStaged in
        do! purged <- prune_staged t (map SB_NodeID bs) recs in
        replace_manifest t (Nat.eqb (length bs) 0) (SS_TrustList set) ;;!
        (if Nat.eqb (length bs) 0 then restore_history t cur
         else publish_seal t (SS_Generation set) (SS_TrustList set) (map SB_NodeID bs)) ;;!
        ret purged)
    (holds t [] s0) (fun _ s => if Nat.eqb (length bs) 0 then withdrawn t s0 s else installed t bs (SS_TrustList set) s0 s)
    (fun _ => replaced set s0) (replaced set s0).
Proof.
  intros Hbs Hcan Hgen. assert (forall s, withdrawn t s0 s -> replaced set s0 s) as Hw by (by left).
  eapply spec_seq; [by apply spec_stage_loop, Hcan|done|by auto|by auto|]. intros u.
  eapply spec_bind with (R := fun recs s => holds t bs s0 s /\ recs = kv_list t collStaged s).
  { apply spec_readonly; [auto with readonly|..]; eauto using holds_withdrawn. intros s a Hs. rewrite answer_list. by intros [= <-]. }
  intros recs. eapply spec_seq; [apply (spec_prune t bs recs s0)| |by auto|by auto|].
  { intros s [Hh ->]. split; [done|]. intros k [v Hv]. right. apply elem_of_kv_list in Hv. by apply (list_elem_of_fmap_2 fst) in Hv. }
  intros purged. eapply spec_seq; [apply (spec_manifest t bs)|done|by auto|by auto|].
  intros u2. eapply spec_bind; [|intros u3; apply spec_ret; intros s Hs; exact Hs].
  destruct (Nat.eqb_spec (length bs) 0) as [Hl|Hl].
  - eapply spec_weaken; [apply (spec_restore_history t cur s0)| |done|by auto|by auto]. intros s [Hex _]. by eapply exactly_withdrawn.
  - assert (bs <> []) as Hne by (by intros ->). destruct (Hgen Hne) as [Hpos Hg].
    eapply spec_weaken; [by apply (spec_publish t (SS_Generation set) bs (SS_TrustList set))|done|auto|..];
      unfold replaced; rewrite <- Hbs; intros; done.
Qed.

Lemma spec_replace_locked set bs s0 :
  bs = stored_bundles set -> canonical (SS_Generation set) bs -> (bs <> [] -> 0 < SS_Generation set) ->
  spec (replace_locked t set bs) (eq s0)
    (fun _ s => if Nat.eqb (length bs) 0 then withdrawn t s0 s else installed t bs (SS_TrustList set) s0 s)
    (fun _ s => s = s0 \/ replaced set s0 s) (fun s => s = s0 \/ replaced set s0 s).
Proof.
  intros Hbs Hcan Hpos. unfold replace_locked. cbn zeta.
  eapply spec_bind with (R := fun cur s => s0 = s /\ cur = kv_generation t s0).
  { apply spec_readonly; [auto with readonly|..]; [|by intros s e <-; left|by intros s <-; left].
    intros s a <-. rewrite answer_generation. by intros [= <-]. }
  intros cur. apply spec_pure. intros ->. eapply spec_bind with (R := fun _ => eq s0).
  { apply spec_readonly; [auto with readonly|..]; [done|by intros s e <-; left|by intros s <-; left]. }
  intros u. destruct (negb _ && _) eqn:Estale; [apply spec_fail; by left|].
  eapply spec_seq; [apply spec_del_seal|done|..].
  - intros e s [?|?]; [by left|right; by left].
  - intros s [?|?]; [by left|right; by left].
  - intros u2. eapply spec_weaken; [apply (spec_replace_body set bs (kv_generation t s0) s0 Hbs Hcan)|done|done|auto|auto].
    intros Hne. split; [auto|]. destruct (Nat.eqb_spec (length bs) 0) as [Hl|]; [by destruct bs|]. cbn [negb andb] in Estale.
    by apply negb_false_iff, Z.eqb_eq in Estale.
Qed.

Lemma spec_ReplaceStagedSet ctx set s0 :
  spec (ReplaceStagedSet ctx t set) (eq s0)
    (fun _ s => if Nat.eqb (length (SS_Bundles set)) 0 then withdrawn t s0 s else installed t (stored_bundles set) (SS_TrustList set) s0 s)
    (fun _ s => s = s0 \/ replaced set s0 s) (fun s => s = s0 \/ replaced set s0 s).
Proof.
  assert (length (stored_bundles set) = length (SS_Bundles set)) as Hlen by (unfold stored_bundles; by rewrite length_map, sort_by_perm).
  apply spec_ctx; [by left|]. cbn zeta. destruct (negb _ && _) eqn:E1; [apply spec_fail; by left|].
  destruct (_ && negb _) eqn:E2; [apply spec_fail; by left|].
  destruct (check_bundles _ _ _) as [bs|] eqn:Ec; [|apply spec_fail; by left].
  apply check_bundles_canonical in Ec as [Hbs Hcan]. fold (stored_bundles set) in Hbs. rewrite <- Hlen, <- Hbs.
  eapply spec_bind; [apply (spec_replace_locked set bs s0 Hbs Hcan)|intros purged; apply spec_ret; intros s1 Hs1; exact Hs1].
  intros Hne. destruct (Nat.eqb_spec (length (SS_Bundles set)) 0) as [Hl|]; [rewrite Hbs, <- Hlen in *; by destruct (stored_bundles set)|].
  cbn [negb andb] in E1. by apply Z.leb_gt in E1.
Qed.

(** C20. Replacing the staged set is all or nothing, under every schedule of
    backend errors and crashes: afterwards the store is untouched, or nothing can
    be promoted, or exactly the caller's bundles and trust-list can be promoted.
    What nodes are served does not change.  A replacement that reports success has
    installed the caller's set, or withdrawn the old candidate when the set is
    empty. *)
Theorem replace_all_or_nothing ctx set fs s n :
  let o := ReplaceStagedSet ctx t set fs s n in
  let s' := outcome_state o in
  let new := Ok (stored_bundles set, map SB_NodeID (stored_bundles set), SS_TrustList set) in
  (forall id, served t id s' = served t id s) /\
  (s' = s \/ (exists e, candidate t s' = Err e) \/ candidate t s' = new) /\
  (forall purged s1 k, o = Done purged s1 k ->
     if Nat.eqb (length (SS_Bundles set)) 0 then exists e, candidate t s' = Err e else candidate t s' = new).
Proof.
  intros o s' new.
  pose proof (spec_ReplaceStagedSet ctx set s fs s n eq_refl) as Hspec. fold o in Hspec.
  assert (forall s1, withdrawn t s s1 -> (forall id, served t id s1 = served t id s) /\ exists e, candidate t s1 = Err e) as Hw.
  { intros s1 [Hso Hd]. split; [intros id; by apply staging_only_served|by apply dead_candidate]. }
  assert (forall s1, installed t (stored_bundles set) (SS_TrustList set) s s1 ->
    (forall id, served t id s1 = served t id s) /\ candidate t s1 = new) as Hi.
  { intros s1 [Hso Hd]. split; [intros id; by apply staging_only_served|done]. }
  unfold s'. clearbody o. destruct o as [p s1 k|e s1 k|s1]; cbn [outcome_state] in *.
  - destruct (Nat.eqb (length (SS_Bundles set)) 0).
    + destruct (Hw _ Hspec) as [? ?]. split_and!; auto.
    + destruct (Hi _ Hspec) as [? ?]. split_and!; auto.
  - destruct Hspec as [-> |[[? ?]%Hw|[? ?]%Hi]]; split_and!; auto; by intros.
  - destruct Hspec as [-> |[[? ?]%Hw|[? ?]%Hi]]; split_and!; auto; by intros.
Qed.
End ReplaceStagedSet.

Definition ex_replacement : StagedSet :=
  mkStagedSet 1 [mkSignedBundle "b" 1 [] false false 0; mkSignedBundle "a" 1 [] false false 0] None.

(** A replacement that dies while it writes the second bundle installs nothing. *)
Lemma replace_all_or_nothing_witness :
  let s' := outcome_state (ReplaceStagedSet None "acme" ex_replacement (fun n => if Nat.eqb n 5 then Crashes true else NoFault) newMemkv 0%nat) in
  s' = newMemkv \/ (exists e, candidate "acme" s' = Err e) \/
  candidate "acme" s' = Ok (stored_bundles ex_replacement, ["a"; "b"], None).
Proof.
  exact (proj1 (proj2 (replace_all_or_nothing "acme" None ex_replacement (fun n => if Nat.eqb n 5 then Crashes true else NoFault) newMemkv 0%nat))).
Defined.
