(* ===== verification/StoreFrame.v ===== *)
(** * Framing the operations of the core

    [run_op] is every operation of [StoreCore] and [StoreStage] as one step.  A
    property of the state that survives the writes to the collections an operation
    uses survives the operation, whatever fails. *)

From stdpp Require Import base gmap strings list sorting.
From Stdlib Require Import ZArith Lia.
From S2P Require Import Prelude GoLib StoreTypes StoreMonad StoreCore StoreLogic StoreStage.

Local Open Scope Z_scope.
Local Open Scope store_scope.

(** Every operation of the core, with its arguments and clock readings. *)
Inductive store_op :=
| OUpsertNode (n : RegistryNode) | OGetNodeRecord (id : string)
| OPutTopology (json : string) (now : Z) | OCompareAndSetTopology (expected : Z) (json : string) (now : Z)
| OGetTopology | OListTopologyVersions | OGetTopologyVersion (v : Z)
| OGetCurrentBundle (id : string) | OCurrentGeneration
| OCreateEnrollmentToken (tok : EnrollmentToken) | OConsumeEnrollmentToken (h id : string) (now : Z)
| OPurgeEnrollmentTokensForNode (id : string)
| OCreateAssertionChallenge (c : AssertionChallenge) (now : Z) | OReplaceAssertionChallengeForSubject (c : AssertionChallenge) (now : Z)
| OConsumeAssertionChallenge (h subject : string) (now : Z)
| OIssueNodeAPIToken (id h : string) | OLookupNodeByAPIToken (h : string) | ORevokeNodeAPIToken (id : string)
| OCompareAndSetOperatorCredential (expected : option OperatorCredential) (next : OperatorCredential) | OGetOperatorCredential
| OCreatePendingKeystoneTransition (p : PendingKeystoneTransition) | OGetPendingKeystoneTransition
| ODeletePendingKeystoneTransition (event : string)
| OPutOperator (op : Operator) | OGetOperator (u : string) | ODeleteOperator (u : string) | OListOperators
| OCompareAndSetLoginCredential (u : string) (expected next : option LoginCredential) (now : Z)
| OCompareAndSetTOTPState (u : string) (expected next : TOTPState) (now : Z) | OAdvanceTOTPStep (u : string) (step : Z)
| OCreateSession (sess : Session) | OLookupSession (h : string) (now : Z) | ODeleteSession (h : string)
| OGetSigningAnchor | OPutSigningAnchor (a : SigningAnchor) | OGetSettings | OPutSettings (cs : ControllerSettings)
| OStageBundle (b : SignedBundle) | OReplaceStagedSet (set : StagedSet) | OPruneStagedBundles (keep : list string)
| OPromoteStaged | OBumpGeneration
| OPutSignedTrustList (sl : StoredTrustList) | OGetCurrentSignedTrustList | OGetLastStagedTrustList | OGetServedTrustList
| OGetServedConfig (id : string).

Definition discard {S A} (m : Act S A) : Act S unit := m ;;! ret tt.

Definition run_op {S} `{KVBackend S} (ctx : option string) (t : TenantID) (op : store_op) : Act S unit :=
  match op with
  | OUpsertNode n => discard (UpsertNode ctx t n)
  | OGetNodeRecord id => discard (GetNodeRecord ctx t id)
  | OPutTopology j now => discard (PutTopology ctx t j now)
  | OCompareAndSetTopology v j now => discard (CompareAndSetTopology ctx t v j now)
  | OGetTopology => discard (GetTopology ctx t)
  | OListTopologyVersions => discard (ListTopologyVersions ctx t)
  | OGetTopologyVersion v => discard (GetTopologyVersion ctx t v)
  | OGetCurrentBundle id => discard (GetCurrentBundle ctx t id)
  | OCurrentGeneration => discard (CurrentGeneration ctx t)
  | OCreateEnrollmentToken tok => discard (CreateEnrollmentToken ctx t tok)
  | OConsumeEnrollmentToken h id now => discard (ConsumeEnrollmentToken ctx t h id now)
  | OPurgeEnrollmentTokensForNode id => discard (PurgeEnrollmentTokensForNode ctx t id)
  | OCreateAssertionChallenge c now => discard (CreateAssertionChallenge ctx t c now)
  | OReplaceAssertionChallengeForSubject c now => discard (ReplaceAssertionChallengeForSubject ctx t c now)
  | OConsumeAssertionChallenge h s now => discard (ConsumeAssertionChallenge ctx t h s now)
  | OIssueNodeAPIToken id h => discard (IssueNodeAPIToken ctx t id h)
  | OLookupNodeByAPIToken h => discard (LookupNodeByAPIToken ctx t h)
  | ORevokeNodeAPIToken id => discard (RevokeNodeAPIToken ctx t id)
  | OCompareAndSetOperatorCredential e c => discard (CompareAndSetOperatorCredential ctx t e c)
  | OGetOperatorCredential => discard (GetOperatorCredential ctx t)
  | OCreatePendingKeystoneTransition p => discard (CreatePendingKeystoneTransition ctx t p)
  | OGetPendingKeystoneTransition => discard (GetPendingKeystoneTransition ctx t)
  | ODeletePendingKeystoneTransition e => discard (DeletePendingKeystoneTransition ctx t e)
  | OPutOperator op => discard (PutOperator ctx t op)
  | OGetOperator u => discard (GetOperator ctx t u)
  | OListOperators => discard (ListOperators ctx t)
  | ODeleteOperator u => discard (DeleteOperator ctx t u)
  | OCompareAndSetLoginCredential u e c now => discard (CompareAndSetLoginCredential ctx t u e c now)
  | OCompareAndSetTOTPState u e c now => discard (CompareAndSetTOTPState ctx t u e c now)
  | OAdvanceTOTPStep u step => discard (AdvanceTOTPStep ctx t u step)
  | OCreateSession sess => discard (CreateSession ctx t sess)
  | OLookupSession h now => discard (LookupSession ctx t h now)
  | ODeleteSession h => discard (DeleteSession ctx t h)
  | OGetSigningAnchor => discard (GetSigningAnchor ctx t)
  | OPutSigningAnchor a => discard (PutSigningAnchor ctx t a)
  | OGetSettings => discard (GetSettings ctx t)
  | OPutSettings cs => discard (PutSettings ctx t cs)
  | OStageBundle b => discard (StageBundle ctx t b)
  | OReplaceStagedSet set => discard (ReplaceStagedSet ctx t set)
  | OPruneStagedBundles keep => discard (PruneStagedBundles ctx t keep)
  | OPromoteStaged => discard (PromoteStaged ctx t)
  | OBumpGeneration => discard (BumpGeneration ctx t)
  | OPutSignedTrustList sl => discard (PutSignedTrustList ctx t sl)
  | OGetCurrentSignedTrustList => discard (GetCurrentSignedTrustList ctx t)
  | OGetLastStagedTrustList => discard (GetLastStagedTrustList ctx t)
  | OGetServedTrustList => discard (GetServedTrustList ctx t)
  | OGetServedConfig id => discard (GetServedConfig ctx t id)
  end.

(** What a write of the core to an existing node keeps. *)
Definition same_identity (n n' : RegistryNode) : Prop :=
  RN_NodeID n' = RN_NodeID n /\ RN_WGPublicKey n' = RN_WGPublicKey n /\ RN_Status n' = RN_Status n.

Definition upserts (op : store_op) : bool := match op with OUpsertNode _ => true | _ => false end.

Section Frame.
Context {S : Type} `{KVLaws S}.
Implicit Types s : S.

(** [J] survives the tenant's writes to every collection but the registry, and
    rewrites of a registered node that keep its identity. *)
Context (t : TenantID) (J : S -> Prop)
  (J_put : forall c k v s, c <> collNodes -> J s -> J (kv_put t c k v s))
  (J_del : forall c k s, c <> collNodes -> J s -> J (kv_del t c k s))
  (J_generation : forall g s, J s -> J (kv_setGeneration t g s))
  (J_node : forall k n n' s, kv_get t collNodes k s = Some (VNode n) -> same_identity n n' -> J s -> J (kv_put t collNodes k (VNode n') s)).
Definition framed {A} (m : Act S A) : Prop := keeps m J.

Lemma framed_ret {A} (a : A) : framed (ret a).
Proof. by apply spec_ret. Qed.
Lemma framed_fail {A} e : framed (@fail S A e).
Proof. by apply spec_fail. Qed.
Lemma framed_bind {A B} (m : Act S A) (k : A -> Act S B) : framed m -> (forall a, framed (k a)) -> framed (abind m k).
Proof. intros Hm Hk. eapply spec_bind; [exact Hm|]. intros a. apply Hk. Qed.
Lemma framed_attempt {A} (m : Act S A) : framed m -> framed (attempt m).
Proof. intros Hm. by apply spec_attempt. Qed.
Lemma framed_ignore {A} (m : Act S A) : framed m -> framed (ignore m).
Proof. intros Hm. by apply spec_ignore. Qed.
Lemma framed_for_all {A} (f : A -> Act S unit) xs : (forall x, framed (f x)) -> framed (for_all f xs).
Proof. intros Hf. induction xs; cbn [for_all]; [apply framed_ret|by apply framed_bind]. Qed.
Lemma framed_read {A} (f : S -> A) : framed (prim_read f).
Proof. by apply spec_read. Qed.
Lemma framed_write (f : S -> S) : (forall s, J s -> J (f s)) -> framed (prim_write f).
Proof. intros Hf. apply spec_write; auto. Qed.
Lemma framed_check_ctx ctx : framed (check_ctx ctx).
Proof. destruct ctx; [apply framed_fail|apply framed_ret]. Qed.

Lemma framed_put c k v : c <> collNodes -> framed (put t c k v).
Proof. intros Hc. apply framed_write. eauto. Qed.
Lemma framed_del c k : c <> collNodes -> framed (del t c k).
Proof. intros Hc. apply framed_write. eauto. Qed.
Lemma framed_setGeneration g : framed (setGeneration t g).
Proof. apply framed_write. eauto. Qed.

Create HintDb framed.
#[local] Hint Resolve framed_ret framed_fail framed_read framed_check_ctx framed_setGeneration : framed.

Ltac framed :=
  repeat first
    [ progress intros
    | match goal with |- framed (abind _ _) => apply framed_bind end
    | match goal with |- framed (attempt _) => apply framed_attempt end
    | match goal with |- framed (ignore _) => apply framed_ignore end
    | match goal with |- framed (for_all _ _) => apply framed_for_all end
    | match goal with |- framed (withLock _) => unfold withLock end
    | match goal with |- framed (discard _) => unfold discard end
    | match goal with |- framed (saveJSON _ _ _ _) => unfold saveJSON end
    | match goal with |- framed (put _ _ _ _) => apply framed_put; discriminate end
    | match goal with |- framed (del _ _ _) => apply framed_del; discriminate end
    | match goal with |- framed (get _ _ _) => apply framed_read end
    | match goal with |- framed (list_records _ _) => apply framed_read end
    | match goal with |- framed (generation _) => apply framed_read end
    | solve [eauto with framed nocore]
    | match goal with |- framed (let x := ?v in _) => cbn zeta end
    | match goal with |- framed (match ?x with _ => _ end) => destruct x end ].

Lemma framed_loadJSON {A} `{JSONRecord A} c k : framed (loadJSON (A:=A) t c k).
Proof. unfold loadJSON. framed. Qed.
#[local] Hint Resolve framed_loadJSON : framed.
Lemma framed_load_optional {A} `{JSONRecord A} c k : framed (load_optional (A:=A) t c k).
Proof. unfold load_optional. framed. Qed.
#[local] Hint Resolve framed_load_optional : framed.
Lemma framed_load_or {A} `{JSONRecord A} c k e : framed (load_or (A:=A) t c k e).
Proof. unfold load_or. framed. Qed.
Lemma framed_purge id recs n : framed (purge_tokens t id recs n).
Proof. revert n. induction recs; intros n; cbn [purge_tokens]; framed; auto. Qed.
Lemma framed_prune_staged keep recs : framed (prune_staged t keep recs).
Proof. induction recs; cbn [prune_staged]; framed; auto. Qed.
Lemma framed_put_topology prev j now : framed (putTopologyAfterLocked t prev j now).
Proof. unfold putTopologyAfterLocked, backfill, prune_history. framed. Qed.
Lemma framed_require g : framed (requireCompletedPromotionLocked t g).
Proof. unfold requireCompletedPromotionLocked, require_bundle_committed. framed. Qed.
Lemma framed_staged g : framed (stagedBundlesForGenerationLocked t g).
Proof. unfold stagedBundlesForGenerationLocked. framed. Qed.
Lemma framed_loadSeal : framed (loadSealLocked t).
Proof. unfold loadSealLocked, check_seal. framed. Qed.
Lemma framed_loadSealedTrustList seal : framed (loadSealedTrustListLocked t seal).
Proof. unfold loadSealedTrustListLocked. framed. Qed.
#[local] Hint Resolve framed_load_or framed_purge framed_prune_staged framed_put_topology framed_require framed_staged : framed.
#[local] Hint Resolve framed_loadSeal framed_loadSealedTrustList : framed.
Lemma framed_saveSeal g tl b : framed (saveSealForGenerationLocked t g tl b).
Proof. unfold saveSealForGenerationLocked. framed. Qed.
Lemma framed_pending g : framed (pendingSealedTrustListLocked t g).
Proof. unfold pendingSealedTrustListLocked. framed. Qed.
#[local] Hint Resolve framed_saveSeal framed_pending : framed.
Lemma framed_wrap {A} msg (m : Act S A) : framed m -> framed (wrap msg m).
Proof. intros Hm. unfold wrap. apply framed_bind; [by apply framed_attempt|]. framed. Qed.
Lemma framed_replace set bs : framed (replace_locked t set bs).
Proof.
  unfold replace_locked, replace_manifest, restore_history, publish_seal. framed; apply framed_wrap; framed.
Qed.
(** The node as it was read, until it is written. *)
Definition at_node (k : string) (n : RegistryNode) (s : S) : Prop := J s /\ kv_get t collNodes k s = Some (VNode n).
Lemma of_json_node v (n : RegistryNode) : of_json v = Some n -> v = VNode n.
Proof. destruct v; cbn; try done. by intros [= ->]. Qed.

Lemma spec_load_node k Q E C (m : RegistryNode -> Act S unit) :
  (forall e s, J s -> E e s) -> (forall s, J s -> C s) -> (forall n, spec (m n) (at_node k n) Q E C) -> spec (do! n <- loadJSON t collNodes k in m n) J Q E C.
Proof.
  intros HE HC Hm. apply spec_bind with (R := at_node k); [|exact Hm]. apply spec_readonly; [apply readonly_loadJSON| |by intros; apply HE|done].
  intros s n Hs. rewrite answer_loadJSON. unfold decode. destruct (kv_get t collNodes k s) as [v|] eqn:Ev; [|done].
  destruct (of_json v) as [n'|] eqn:En; [|done]. intros [= ->]. apply of_json_node in En as ->. done.
Qed.

Lemma spec_load_optional_node k Q E C (m : option RegistryNode -> Act S unit) :
  (forall e s, J s -> E e s) -> (forall s, J s -> C s) -> spec (m None) J Q E C -> (forall n, spec (m (Some n)) (at_node k n) Q E C) ->
  spec (do! n <- load_optional t collNodes k in m n) J Q E C.
Proof.
  intros HE HC Hm0 Hm. apply spec_bind with (R := fun o => match o with Some n => at_node k n | None => J end); [|by intros [n|]].
  apply spec_readonly; [apply readonly_load_optional| |by intros; apply HE|done].
  intros s o Hs. rewrite answer_load_optional. unfold decode_optional. destruct (kv_get t collNodes k s) as [v|] eqn:Ev; [|by intros [= <-]].
  destruct (of_json v) as [n'|] eqn:En; [|done]. intros [= <-]. apply of_json_node in En as ->. done.
Qed.

Lemma spec_save_node k n n' Q : same_identity n n' -> (forall s, J s -> Q s) -> spec (saveJSON t collNodes k n') (at_node k n) (fun _ => Q) (fun _ => Q) Q.
Proof.
  intros Hid HQ. assert (forall s, at_node k n s -> Q s /\ Q (kv_put t collNodes k (VNode n') s)) as Hw by (intros s [Hs Hn]; split; eauto).
  apply spec_write; intros; by apply Hw.
Qed.

Lemma framed_set_desired g k : framed (set_desired t g k).
Proof.
  apply spec_load_optional_node; [done..|by apply spec_ret|]. intros n. apply spec_save_node; [|done]. by destruct n.
Qed.
#[local] Hint Resolve framed_set_desired : framed.
Lemma framed_promote ctx : framed (PromoteStaged ctx t).
Proof. unfold PromoteStaged, sealed_candidate, write_live, promote_bundle, promote_trustlist, promote_cleanup. framed. Qed.

Lemma framed_issue ctx id h : framed (IssueNodeAPIToken ctx t id h).
Proof.
  apply framed_bind; [apply framed_check_ctx|]. intros _. unfold withLock. apply spec_load_node; [done..|]. intros n.
  apply spec_bind with (R := fun _ s => J s /\ exists n', kv_get t collNodes id s = Some (VNode n') /\ n' = n).
  - destruct (_ && _); [|apply spec_ret; intros s [? ?]; eauto]. apply spec_weaken with (P' := at_node id n) (Q' := fun _ => at_node id n) (E' := fun _ => J) (C' := J).
    + unfold at_node. assert (forall s, at_node id n s -> J (kv_del t collAPITokens (RN_APITokenHash n) s)) as Hd by (intros s [Hs _]; by apply J_del).
      apply spec_write; [|intros msg s Hs|intros s Hs]; [|split; [apply Hs|by apply Hd]..]. intros s Hs. split; [by apply Hd|]. rewrite get_del.
      by destruct (decide _) as [(_ & ? & _)|]; [|apply Hs].
    + done.
    + intros _ s [? ?]. eauto.
    + done.
    + done.
  - intros _. apply spec_bind with (R := fun _ => J); [|intros _; by apply framed_put]. apply spec_weaken with (P' := at_node id n) (Q' := fun _ => J) (E' := fun _ => J) (C' := J);
      [apply spec_save_node; [by destruct n|done]|..]; try done. intros s (Hs & n' & Hn & ->). done.
Qed.

Lemma framed_revoke ctx id : framed (RevokeNodeAPIToken ctx t id).
Proof.
  apply framed_bind; [apply framed_check_ctx|]. intros _. unfold withLock. apply spec_load_optional_node; [done..|by apply spec_ret|]. intros n.
  destruct (String.eqb _ _); [by apply spec_ret; intros s [? _]|]. apply spec_bind with (R := fun _ => J); [|intros _; by apply framed_del].
  apply spec_save_node; [by destruct n|done].
Qed.
#[local] Hint Resolve framed_replace framed_promote framed_issue framed_revoke : framed.

Lemma framed_op ctx op : (forall n s, op = OUpsertNode n -> J s -> J (kv_put t collNodes (RN_NodeID n) (VNode n) s)) -> framed (run_op ctx t op).
Proof.
  intros Hn. destruct op; cbn [run_op]; [apply framed_bind; [|framed]; unfold UpsertNode, withLock, saveJSON; framed; apply framed_write; eauto|..]; unfold GetNodeRecord, PutTopology, CompareAndSetTopology, loadTopologyForWriteLocked, GetTopology,
    ListTopologyVersions, GetTopologyVersion, GetCurrentBundle, CurrentGeneration, CreateEnrollmentToken, ConsumeEnrollmentToken,
    PurgeEnrollmentTokensForNode, CreateAssertionChallenge, ReplaceAssertionChallengeForSubject, createAssertionChallenge,
    ConsumeAssertionChallenge, LookupNodeByAPIToken, CompareAndSetOperatorCredential,
    GetOperatorCredential, CreatePendingKeystoneTransition, GetPendingKeystoneTransition, DeletePendingKeystoneTransition, PutOperator,
    GetOperator, ListOperators, DeleteOperator, CompareAndSetLoginCredential, CompareAndSetTOTPState, AdvanceTOTPStep, CreateSession, LookupSession,
    DeleteSession, GetSigningAnchor, PutSigningAnchor, GetSettings, PutSettings, StageBundle, ReplaceStagedSet, PruneStagedBundles, BumpGeneration, bump_history,
    PutSignedTrustList, GetCurrentSignedTrustList, GetLastStagedTrustList, GetServedTrustList, GetServedConfig, served_trustlist; framed.
Qed.
End Frame.
