(* ===== verification/StoreProps.v ===== *)
(** * Single use, monotone steps and tenant isolation

    Theorems about the operations of [storecore.go], each under every schedule of
    faults. *)

From stdpp Require Import base gmap strings list sorting.
From Stdlib Require Import ZArith Lia.
From S2P Require Import Prelude GoLib StoreTypes StoreMonad StoreCore StoreLogic StoreStage StoreFrame StageProps MemKV.

Local Open Scope Z_scope.
Local Open Scope store_scope.

(** Whether an operation reported success. *)
Definition succeeded {S A} (o : outcome S A) : bool := match o with Done _ _ _ => true | _ => false end.

(** ** Enrollment tokens *)

Section Tokens.
Context {S : Type} `{KVLaws S}.
Implicit Types s : S.

Definition burnt (tok : EnrollmentToken) (now : Z) : EnrollmentToken :=
  mkEnrollmentToken (ET_TokenHash tok) (ET_NodeID tok) (ET_ExpiresAt tok) (Some now).

(** The token would be accepted. *)
Definition redeemable (nodeID : string) (now : Z) (tok : EnrollmentToken) : Prop :=
  ET_NodeID tok = nodeID /\ now < ET_ExpiresAt tok /\ ET_ConsumedAt tok = None.

Lemma answer_load_or {A} `{JSONRecord A} t coll key miss s :
  answer (load_or t coll key miss : Act S A) s =
  match decode_optional coll key (kv_get t coll key s) with Ok (Some a) => Ok a | Ok None => Err miss | Err e => Err e end.
Proof.
  unfold load_or. rewrite answer_bind; [|auto with readonly|readonly]. rewrite answer_load_optional.
  by destruct (decode_optional coll key _) as [[a|]|].
Qed.

Lemma spec_consume ctx t h nodeID now s0 :
  let used s := exists tok, kv_get t collTokens h s0 = Some (VToken tok) /\ redeemable nodeID now tok /\
                            s = kv_put t collTokens h (VToken (burnt tok now)) s0 in
  spec (ConsumeEnrollmentToken ctx t h nodeID now) (eq s0) (fun _ => used) (fun _ s => s = s0 \/ used s) (fun s => s = s0 \/ used s).
Proof.
  intros used. apply spec_ctx; [by left|]. unfold withLock.
  eapply spec_bind with (R := fun tok s => s0 = s /\ kv_get t collTokens h s0 = Some (VToken tok)).
  { apply spec_readonly; [auto with readonly|..]; [|by intros s e <-; left|by intros s <-; left].
    intros s tok <-. rewrite answer_load_or. destruct (kv_get t collTokens h s0) as [[]|]; cbn; try done. by intros [= ->]. }
  intros tok. apply spec_pure. intros Htok.
  destruct (String.eqb_spec (ET_NodeID tok) nodeID) as [Hn|]; cbn [negb orb]; [|apply spec_fail; by left].
  destruct (Z.ltb_spec now (ET_ExpiresAt tok)) as [He|]; cbn [negb orb]; [|apply spec_fail; by left].
  destruct (ET_ConsumedAt tok) as [c|] eqn:Ec; [apply spec_fail; by left|].
  assert (forall s, s0 = s -> used (kv_put t collTokens h (VToken (burnt tok now)) s)) as Hu.
  { intros s <-. exists tok. split_and!; done. }
  apply spec_write; auto.
Qed.

(** Attempts to redeem one token: who, when, and the faults met. *)
Definition redemption : Type := string * Z * Faults.

Fixpoint redeem (t : TenantID) (h : string) (rs : list redemption) (s : S) : list (redemption * bool) :=
  match rs with
  | [] => []
  | r :: rest =>
      let '(nodeID, now, fs) := r in
      let o := ConsumeEnrollmentToken None t h nodeID now fs s 0%nat in
      (r, succeeded o) :: redeem t h rest (outcome_state o)
  end.

Definition accepted (rs : list (redemption * bool)) : list redemption := omap (fun p : redemption * bool => if p.2 then Some p.1 else None) rs.

Lemma redeem_burnt t h rs s tok c :
  kv_get t collTokens h s = Some (VToken tok) -> ET_ConsumedAt tok = Some c -> accepted (redeem t h rs s) = [].
Proof.
  revert s. induction rs as [|[[nodeID now] fs] rs IH]; intros s Htok Hc; [done|].
  pose proof (spec_consume None t h nodeID now s fs s 0%nat eq_refl) as Hspec. unfold accepted in *. cbn [redeem].
  assert (forall s', (exists tok, kv_get t collTokens h s = Some (VToken tok) /\ redeemable nodeID now tok /\
    s' = kv_put t collTokens h (VToken (burnt tok now)) s) -> False) as Hno.
  { intros s' (tok' & Ht' & (_ & _ & Hn) & _). congruence. }
  destruct (ConsumeEnrollmentToken None t h nodeID now fs s 0%nat) as [u s' k|e s' k|s']; cbn [succeeded outcome_state omap list_omap snd].
  - by destruct (Hno s').
  - destruct Hspec as [-> |Hu]; [by apply IH|by destruct (Hno s')].
  - destruct Hspec as [-> |Hu]; [by apply IH|by destruct (Hno s')].
Qed.

(** An enrollment token is redeemed at most once, over any sequence of attempts
    with any backend errors and crashes, and the attempt that succeeds is by the node
    the stored token names, before its expiry, with the token unspent. *)
Theorem token_single_use t h rs s :
  (length (accepted (redeem t h rs s)) <= 1)%nat /\
  forall nodeID now fs, (nodeID, now, fs) ∈ accepted (redeem t h rs s) ->
    exists tok, kv_get t collTokens h s = Some (VToken tok) /\ redeemable nodeID now tok.
Proof.
  revert s. induction rs as [|[[nodeID now] fs] rs IH]; intros s; [split; [cbn; lia|by intros ? ? ? ?%elem_of_nil]|].
  pose proof (spec_consume None t h nodeID now s fs s 0%nat eq_refl) as Hspec. unfold accepted in *. cbn [redeem].
  assert (forall tok s', s' = kv_put t collTokens h (VToken (burnt tok now)) s -> accepted (redeem t h rs s') = []) as Hb.
  { intros tok s' ->. apply (redeem_burnt _ _ _ _ (burnt tok now) now); [|done]. rewrite get_put. destruct (decide _) as [|Hn]; [done|by destruct Hn]. }
  unfold accepted in Hb.
  destruct (ConsumeEnrollmentToken None t h nodeID now fs s 0%nat) as [u s' k|e s' k|s']; cbn [succeeded outcome_state omap list_omap snd fst].
  - destruct Hspec as (tok & Htok & Hr & Hs'). rewrite (Hb tok s' Hs'). split; [cbn; lia|].
    intros ? ? ? [[= -> -> ->]|?%elem_of_nil]%elem_of_cons; [eauto|done].
  - destruct Hspec as [-> |(tok & Htok & Hr & Hs')]; [apply IH|]. rewrite (Hb tok s' Hs'). split; [cbn; lia|by intros ? ? ? ?%elem_of_nil].
  - destruct Hspec as [-> |(tok & Htok & Hr & Hs')]; [apply IH|]. rewrite (Hb tok s' Hs'). split; [cbn; lia|by intros ? ? ? ?%elem_of_nil].
Qed.
End Tokens.

Definition ex_token : EnrollmentToken := mkEnrollmentToken "h" "n1" 100 None.

(** The first attempt reports an error after the token was burnt; nobody redeems it later. *)
Definition ex_redemptions : list redemption :=
  [("n1", 5, fun n => if Nat.eqb n 1 then Fails true "fsync" else NoFault); ("n1", 6, no_faults); ("n1", 7, no_faults)].
Definition ex_token_store : memkv := kv_put "acme" collTokens "h" (VToken ex_token) newMemkv.

Lemma token_single_use_witness : (length (accepted (redeem "acme" "h" ex_redemptions ex_token_store)) <= 1)%nat.
Proof. exact (proj1 (token_single_use "acme" "h" ex_redemptions ex_token_store)). Defined.

(** ** TOTP steps *)

Section TOTP.
Context {S : Type} `{KVLaws S}.
Implicit Types s : S.

Definition with_step (step : Z) (op : Operator) : Operator :=
  mkOperator (OP_Username op) (OP_PasswordHash op) (OP_CreatedAt op) (OP_UpdatedAt op) (OP_TOTPSecret op) step (OP_LoginCredential op).

Lemma spec_advance ctx t user step s0 :
  let moved s := exists op, kv_get t collOperators user s0 = Some (VOperator op) /\ OP_TOTPLastUsedStep op < step /\
                            s = kv_put t collOperators user (VOperator (with_step step op)) s0 in
  spec (AdvanceTOTPStep ctx t user step) (eq s0) (fun b s => if b : bool then moved s else s = s0)
    (fun _ s => s = s0 \/ moved s) (fun s => s = s0 \/ moved s).
Proof.
  intros moved. apply spec_ctx; [by left|]. unfold withLock.
  eapply spec_bind with (R := fun op s => s0 = s /\ kv_get t collOperators user s0 = Some (VOperator op)).
  { apply spec_readonly; [auto with readonly|..]; [|by intros s e <-; left|by intros s <-; left].
    intros s op <-. rewrite answer_loadJSON. destruct (kv_get t collOperators user s0) as [[]|]; cbn; try done. by intros [= ->]. }
  intros op. apply spec_pure. intros Hop. destruct (Z.leb_spec step (OP_TOTPLastUsedStep op)); [by apply spec_ret|].
  assert (forall s, s0 = s -> moved (kv_put t collOperators user (VOperator (with_step step op)) s)) as Hm.
  { intros s <-. exists op. split_and!; done. }
  eapply spec_bind with (R := fun _ => moved); [apply spec_write; auto|]. intros u. by apply spec_ret.
Qed.

(** The steps accepted in a sequence of logins, in order. *)
Fixpoint logins (t : TenantID) (user : string) (ls : list (Z * Faults)) (s : S) : list Z :=
  match ls with
  | [] => []
  | (step, fs) :: rest =>
      let o := AdvanceTOTPStep None t user step fs s 0%nat in
      let later := logins t user rest (outcome_state o) in
      match o with Done true _ _ => step :: later | _ => later end
  end.

Lemma logins_above t user ls s :
  StronglySorted Z.lt (logins t user ls s) /\
  forall op, kv_get t collOperators user s = Some (VOperator op) -> Forall (fun step => OP_TOTPLastUsedStep op < step) (logins t user ls s).
Proof.
  revert s. induction ls as [|[step fs] ls IH]; intros s; cbn [logins]; [split; [constructor|intros; constructor]|].
  pose proof (spec_advance None t user step s fs s 0%nat eq_refl) as Hspec. cbn zeta in Hspec.
  set (moved := fun s' => exists op, kv_get t collOperators user s = Some (VOperator op) /\ OP_TOTPLastUsedStep op < step /\
    s' = kv_put t collOperators user (VOperator (with_step step op)) s) in Hspec.
  assert (forall s', moved s' ->
    StronglySorted Z.lt (logins t user ls s') /\ Forall (fun x => step < x) (logins t user ls s') /\
    exists op, kv_get t collOperators user s = Some (VOperator op) /\ OP_TOTPLastUsedStep op < step) as Hm.
  { intros s' (op & Hop & Hlt & ->). destruct (IH (kv_put t collOperators user (VOperator (with_step step op)) s)) as [Hs Ha].
    split_and!; [done| |eauto]. apply (Ha (with_step step op)). rewrite get_put. destruct (decide _) as [|Hn]; [done|by destruct Hn]. }
  assert (forall s', moved s' -> StronglySorted Z.lt (logins t user ls s') /\
    forall op, kv_get t collOperators user s = Some (VOperator op) -> Forall (fun step => OP_TOTPLastUsedStep op < step) (logins t user ls s')) as Hm'.
  { intros s' (Hs & Ha & op & Hop & Hlt)%Hm. split; [done|]. intros op' Hop'. eapply Forall_impl; [exact Ha|]. intros x Hx.
    assert (op' = op) as -> by congruence. cbn in Hx. lia. }
  destruct (AdvanceTOTPStep None t user step fs s 0%nat) as [[] s' k|e s' k|s']; cbn [outcome_state].
  - destruct (Hm s' Hspec) as (Hs & Ha & op & Hop & Hlt). split; [by constructor|]. intros op' Hop'.
    assert (op' = op) as -> by congruence. constructor; [done|]. eapply Forall_impl; [exact Ha|]. intros x Hx. cbn in Hx. lia.
  - rewrite Hspec. apply IH.
  - destruct Hspec as [-> |Hs']; [apply IH|by apply Hm'].
  - destruct Hspec as [-> |Hs']; [apply IH|by apply Hm'].
Qed.

(** The time steps an operator's logins are granted strictly increase, over any
    sequence of logins with any backend errors and crashes, and all lie above the
    stored watermark: no one-time code is accepted twice, and none from before the
    last accepted one. *)
Theorem totp_steps_increase t user ls s :
  StronglySorted Z.lt (logins t user ls s) /\ NoDup (logins t user ls s) /\
  forall op, kv_get t collOperators user s = Some (VOperator op) -> Forall (fun step => OP_TOTPLastUsedStep op < step) (logins t user ls s).
Proof.
  destruct (logins_above t user ls s) as [Hs Ha]. split_and!; [done| |done].
  clear Ha. induction Hs as [|x l _ IH Hx]; constructor; [|done]. intros Hin. eapply Forall_forall in Hx; [|done]. lia.
Qed.
End TOTP.

Definition ex_operator : Operator := mkOperator "root" "" 0 0 "secret" 10 None.

Lemma totp_steps_increase_witness :
  NoDup (logins "acme" "root" [(11, no_faults); (11, no_faults); (9, no_faults); (12, no_faults)]
    (kv_put "acme" collOperators "root" (VOperator ex_operator) newMemkv)).
Proof.
  exact (proj1 (proj2 (totp_steps_increase "acme" "root" [(11, no_faults); (11, no_faults); (9, no_faults); (12, no_faults)]
    (kv_put "acme" collOperators "root" (VOperator ex_operator) newMemkv)))).
Defined.

(** ** Tenants are isolated *)

Section Isolation.
Context {S : Type} `{KVLaws S}.
Implicit Types s : S.

(** The records and the generation of a tenant. *)
Definition tenant_equal (t : TenantID) (s s' : S) : Prop :=
  kv_generation t s = kv_generation t s' /\ forall c k, kv_get t c k s = kv_get t c k s'.

Lemma untouched_op t t' s0 ctx op : t' <> t -> keeps (run_op ctx t op) (fun s => tenant_equal t' s s0).
Proof.
  intros Hne. assert (forall c k v s, tenant_equal t' s s0 -> tenant_equal t' (kv_put t c k v s) s0) as Hput.
  { intros c k v s [Hg Hk]. split; [by rewrite generation_put|]. intros c' k'. rewrite get_put. destruct (decide _) as [(? & _)|]; [done|auto]. }
  apply (framed_op t (fun s => tenant_equal t' s s0)); [by auto|..|by auto|by auto].
  - intros c k s _ [Hg Hk]. split; [by rewrite generation_del|]. intros c' k'. rewrite get_del. destruct (decide _) as [(? & _)|]; [done|auto].
  - intros g s [Hg Hk]. split; [rewrite generation_setGeneration; by destruct (decide _)|]. intros c' k'. by rewrite get_setGeneration.
Qed.
End Isolation.

(** Tenants are isolated: whatever operations run for one tenant, in any order,
    each with any backend errors and crashes, every record and the generation of
    every other tenant stay as they were. *)
Theorem tenant_isolation {S} `{KVLaws S} (t t' : TenantID) (run : list (option string * store_op * Faults)) (s : S) :
  t' <> t ->
  tenant_equal t' (foldl (fun s (r : option string * store_op * Faults) => outcome_state (run_op r.1.1 t r.1.2 r.2 s 0%nat)) s run) s.
Proof.
  intros Hne. apply (foldl_inv (fun _ s' => tenant_equal t' s' s)); [by split|].
  intros pre [[ctx op] fs] post s1 _ Hs1. cbn [fst snd]. pose proof (untouched_op t t' s ctx op Hne fs s1 0%nat Hs1) as Hop.
  by destruct (run_op ctx t op fs s1 0%nat).
Qed.

Lemma tenant_isolation_witness :
  tenant_equal "b" (foldl (fun s (r : option string * store_op * Faults) => outcome_state (run_op r.1.1 "a" r.1.2 r.2 s 0%nat)) newMemkv
    [(None, OPutTopology "{}" 1, no_faults); (None, OBumpGeneration, no_faults)]) newMemkv.
Proof. apply (tenant_isolation "a" "b"). discriminate. Defined.
