(* ===== verification/TopologyHistory.v ===== *)
(** * Topology writes keep the history through crashes *)

From stdpp Require Import base gmap strings list sorting.
From Stdlib Require Import ZArith Lia Ascii.
From S2P Require Import Prelude GoLib LinkID StoreTypes StoreMonad StoreCore StoreLogic MemKV.

Local Open Scope Z_scope.
Local Open Scope store_scope.

(** ** Version keys *)

Lemma ParseInt_Itoa v : 0 <= v < 2 ^ 63 -> strconv_ParseInt (strconv_Itoa v) = Some v.
Proof.
  intros Hv. unfold strconv_Itoa. destruct (Z.ltb_spec v 0); [lia|]. destruct (itoa10_cons v) as (c & rest & He & Hc & Hd); [lia|].
  unfold strconv_ParseInt. rewrite He.
  destruct (bool_decide (c = "-"%char)) eqn:E1; [apply bool_decide_eq_true in E1; by subst c|].
  destruct (bool_decide (c = "+"%char)) eqn:E2; [apply bool_decide_eq_true in E2; by subst c|].
  rewrite <- He. rewrite Hd. replace (String.eqb (itoa10 v) "") with false by (rewrite He; done). cbn [negb orb].
  rewrite itoa10_val by lia. destruct (Z.leb_spec (- 2 ^ 63) v); [|lia]. destruct (Z.ltb_spec v (2 ^ 63)); [done|lia].
Qed.

Lemma Itoa_inj v w : 0 <= v < 2 ^ 63 -> 0 <= w < 2 ^ 63 -> strconv_Itoa v = strconv_Itoa w -> v = w.
Proof. intros Hv Hw He. apply (f_equal strconv_ParseInt) in He. rewrite !ParseInt_Itoa in He by done. congruence. Qed.

Section History.
Context {S : Type} `{KVLaws S} (t : TenantID) (cur new : TopologyRecord).
Implicit Types s : S.
Local Abbreviation V := (TR_Version cur).
Local Abbreviation cutoff := (TR_Version new - TopologyHistoryLimit).
Hypothesis (Hpos : 0 < TR_Version cur) (Hmax : TR_Version cur + 1 < 2 ^ 63) (Hnew : TR_Version new = TR_Version cur + 1).

Definition hist (v : Z) (s : S) : option value := kv_get t collTopoHistory (strconv_Itoa v) s.

(** The history entry of the current version, if there is one, is that version. *)
Definition history_consistent (c : TopologyRecord) (s : S) : Prop :=
  hist (TR_Version c) s = None \/ hist (TR_Version c) s = Some (VTopology c).

(** The retained older versions are as in [s0]. *)
Definition retained (s0 s : S) : Prop := forall v, 0 < v -> cutoff < v < V -> hist v s = hist v s0.

(** Before and after the current record flips. *)
Definition before (s0 s : S) : Prop :=
  kv_get t collTopology "" s = Some (VTopology cur) /\ retained s0 s /\ history_consistent cur s.
Definition saved (s0 s : S) : Prop := before s0 s /\ hist V s = Some (VTopology cur).
Definition after (s0 s : S) : Prop :=
  kv_get t collTopology "" s = Some (VTopology new) /\ retained s0 s /\
  hist V s = Some (VTopology cur) /\ hist (TR_Version new) s = Some (VTopology new).

Lemma hist_put v w c s : 0 <= v < 2 ^ 63 -> 0 <= w < 2 ^ 63 ->
  hist v (kv_put t collTopoHistory (strconv_Itoa w) (VTopology c) s) = if decide (v = w) then Some (VTopology c) else hist v s.
Proof.
  intros Hv Hw. unfold hist. rewrite get_put. destruct (decide (v = w)) as [->|Hne]; destruct (decide _) as [(_ & _ & Heq)|Hn]; try done.
  - by destruct Hn.
  - by apply Itoa_inj in Heq.
Qed.

Lemma spec_backfill s0 :
  spec (backfill t cur) (before s0) (fun _ => saved s0) (fun _ => before s0) (before s0).
Proof.
  unfold backfill. destruct (Z.ltb_spec 0 V); [|lia].
  eapply spec_bind with (R := fun b s => before s0 s /\ b = hist V s).
  { apply spec_readonly; [auto with readonly|..]; [|done|done]. intros s b Hs Ha. by injection Ha as <-. }
  intros [v|].
  - apply spec_ret. intros s [Hb Hv]. split; [done|]. destruct Hb as (_ & _ & [Hn|Hc]); [congruence|done].
  - assert (forall s, before s0 s /\ None = hist V s -> saved s0 (kv_put t collTopoHistory (strconv_Itoa V) (VTopology cur) s)) as Hput.
    { intros s [(Hc & Hr & _) _]. assert (hist V (kv_put t collTopoHistory (strconv_Itoa V) (VTopology cur) s) = Some (VTopology cur)) as Hh.
      { rewrite hist_put by lia. by destruct (decide (V = V)). }
      split; [|done]. split_and!; [rewrite get_put; by destruct (decide _) as [(_ & ? & _)|]| |by right].
      intros v Hv Hvv. rewrite hist_put by lia. destruct (decide (v = V)); [lia|auto]. }
    apply spec_write; [auto|intros msg s Hs|intros s Hs]; (split; [apply Hs|by apply Hput]).
Qed.

Lemma saved_put_new s0 s :
  saved s0 s -> let s' := kv_put t collTopoHistory (strconv_Itoa (TR_Version new)) (VTopology new) s in
  saved s0 s' /\ hist (TR_Version new) s' = Some (VTopology new).
Proof.
  intros [(Hc & Hr & Hh) Hs] s'. assert (hist V s' = Some (VTopology cur)) as HV.
  { unfold s'. rewrite hist_put by lia. by destruct (decide _); [lia|]. }
  split; [|unfold s'; rewrite hist_put by lia; by destruct (decide _)]. split; [|done]. split_and!.
  - unfold s'. rewrite get_put. by destruct (decide _) as [(_ & ? & _)|].
  - intros v Hv Hvv. unfold s'. rewrite hist_put by lia. destruct (decide _); [lia|auto].
  - by right.
Qed.

Lemma flip s0 s :
  saved s0 s -> hist (TR_Version new) s = Some (VTopology new) -> after s0 (kv_put t collTopology "" (VTopology new) s).
Proof.
  intros [(_ & Hr & _) HV] Hn.
  assert (forall v, hist v (kv_put t collTopology "" (VTopology new) s) = hist v s) as Hh.
  { intros v. unfold hist. rewrite get_put. by destruct (decide _) as [(_ & ? & _)|]. }
  split_and!; [rewrite get_put; destruct (decide _) as [|He]; [done|by destruct He]| |by rewrite Hh|by rewrite Hh].
  intros v Hv Hvv. rewrite Hh. auto.
Qed.

Lemma spec_prune_history s0 E : spec (prune_history t cutoff) (after s0) (fun _ => after s0) E (after s0).
Proof.
  unfold prune_history. destruct (Z.ltb_spec 0 cutoff); [|by apply spec_ret].
  eapply spec_bind with (R := fun _ => after s0); [apply spec_attempt; apply spec_read; auto|].
  intros [recs|]; [|by apply spec_ret]. apply (spec_for_all _ recs (fun _ => after s0)). intros pre [k v] post _. cbn [fst].
  destruct (strconv_ParseInt k) as [w|] eqn:Ek; [|by apply spec_ret]. destruct (Z.leb_spec w cutoff) as [Hw|]; [|by apply spec_ret].
  assert (forall s, after s0 s -> after s0 (kv_del t collTopoHistory k s)) as Hdel.
  { intros s (Hc & Hr & HV & HN).
    assert (forall v', 0 <= v' < 2 ^ 63 -> cutoff < v' -> hist v' (kv_del t collTopoHistory k s) = hist v' s) as Hh.
    { intros v' Hv' Hcut. unfold hist. rewrite get_del. destruct (decide _) as [(_ & _ & He)|]; [|done].
      rewrite <- He, ParseInt_Itoa in Ek by done. injection Ek as <-. lia. }
    assert (TopologyHistoryLimit = 10) as Hlim by done. split_and!.
    - rewrite get_del. by destruct (decide _) as [(_ & ? & _)|].
    - intros v' Hv' Hvv. rewrite Hh by lia. auto.
    - rewrite Hh by lia. done.
    - rewrite Hh by lia. done. }
  apply spec_ignore, spec_write; auto.
Qed.

Lemma spec_put_topology json now s0 :
  new = mkTopologyRecord (i64 (V + 1)) json now ->
  spec (putTopologyAfterLocked t cur json now) (before s0) (fun r s => after s0 s /\ r = new)
    (fun _ s => before s0 s \/ after s0 s) (fun s => before s0 s \/ after s0 s).
Proof.
  intros He. unfold putTopologyAfterLocked. rewrite <- He. cbn zeta.
  eapply spec_seq; [apply spec_backfill|done|by auto|by auto|]. intros u.
  eapply spec_bind with (R := fun _ s => saved s0 s /\ hist (TR_Version new) s = Some (VTopology new)).
  { apply spec_write; [apply saved_put_new|intros msg s Hs|intros s Hs]; (split; left; [apply Hs|by apply saved_put_new]). }
  intros u1. eapply spec_bind with (R := fun _ => after s0).
  { apply spec_write; [intros s [? ?]; by apply flip|intros msg s [Hs ?]|intros s [Hs ?]]; (split; [left; apply Hs|right; by apply flip]). }
  intros u2. rewrite i64_small by (unfold is_i64, TopologyHistoryLimit; lia).
  eapply spec_seq; [apply (spec_prune_history s0 (fun _ => after s0))|done|by auto|by auto|]. intros u3. by apply spec_ret.
Qed.
End History.

(** ** The two writes *)

(** [PutTopology], or [CompareAndSetTopology] with the version it expects. *)
Inductive topology_write := Put | CompareAndSet (expected : Z).

Section Writes.
Context {S : Type} `{KVLaws S} (t : TenantID).
Implicit Types s : S.

Definition write_topology (ctx : option string) (w : topology_write) (json : string) (now : Z) : Act S TopologyRecord :=
  match w with
  | Put => PutTopology ctx t json now
  | CompareAndSet expected => CompareAndSetTopology ctx t expected json now
  end.

Lemma answer_GetTopology s : answer (GetTopology None t) s = decode collTopology "" (kv_get t collTopology "" s).
Proof. unfold GetTopology, withLock. rewrite <- answer_loadJSON. done. Qed.

Lemma answer_GetTopologyVersion v s c :
  kv_get t collTopology "" s = Some (VTopology c) ->
  answer (GetTopologyVersion None t v) s =
  if v <=? 0 then Err ErrNotFound
  else if TR_Version c <? v then Err ErrNotFound
  else if v =? TR_Version c then Ok c
  else decode collTopoHistory (strconv_Itoa v) (hist t v s).
Proof.
  intros Hc. unfold GetTopologyVersion, withLock. change (abind (check_ctx None) ?k) with (k tt). cbn beta.
  destruct (v <=? 0); [done|]. rewrite answer_bind; [|auto with readonly|readonly]. rewrite answer_loadJSON, Hc. cbn [decode of_json TopologyRecord_json rbind].
  destruct (_ <? _); [done|]. destruct (_ =? _); [done|]. apply answer_loadJSON.
Qed.

Lemma spec_write_topology ctx w json now s0 cur :
  let new := mkTopologyRecord (i64 (TR_Version cur + 1)) json now in
  kv_get t collTopology "" s0 = Some (VTopology cur) -> 0 < TR_Version cur -> TR_Version cur + 1 < 2 ^ 63 -> history_consistent t cur s0 ->
  spec (write_topology ctx w json now) (eq s0)
    (fun r s => (after t cur new s0 s /\ r = new \/ s = s0 /\ r = cur /\ TR_JSON cur = json /\ w <> Put) /\
                match w with Put => True | CompareAndSet e => e = TR_Version cur end)
    (fun _ s => before t cur new s0 s \/ after t cur new s0 s) (fun s => before t cur new s0 s \/ after t cur new s0 s).
Proof.
  intros new Hcur Hpos Hmax Hcons.
  assert (TR_Version new = TR_Version cur + 1) as Hnew by (cbn; apply i64_small; unfold is_i64; lia).
  assert (before t cur new s0 s0) as Hb by (split_and!; done).
  assert (forall k : TopologyRecord -> Act S TopologyRecord, forall Q,
    spec (k cur) (eq s0) Q (fun _ s => before t cur new s0 s \/ after t cur new s0 s) (fun s => before t cur new s0 s \/ after t cur new s0 s) ->
    spec (check_ctx ctx ;;! (do! prev <- loadTopologyForWriteLocked t in k prev)) (eq s0) Q
      (fun _ s => before t cur new s0 s \/ after t cur new s0 s) (fun s => before t cur new s0 s \/ after t cur new s0 s)) as Hload.
  { intros k Q Hk. apply spec_ctx; [by intros r s _ <-; left|]. eapply spec_bind with (R := fun prev s => s0 = s /\ prev = cur).
    - unfold loadTopologyForWriteLocked. eapply spec_bind with (R := fun r s => s0 = s /\ r = Some cur).
      + apply spec_readonly; [auto with readonly|..]; [|by intros s e <-; left|by intros s <-; left].
        intros s r <-. rewrite answer_load_optional, Hcur. by intros [= <-].
      + intros r. apply spec_pure. intros ->. by apply spec_ret.
    - intros prev. apply spec_pure. by intros ->. }
  assert (spec (putTopologyAfterLocked t cur json now) (eq s0) (fun r s => after t cur new s0 s /\ r = new)
    (fun _ s => before t cur new s0 s \/ after t cur new s0 s) (fun s => before t cur new s0 s \/ after t cur new s0 s)) as Hput.
  { eapply spec_weaken; [by apply (spec_put_topology t cur new Hpos Hmax Hnew json now s0)|by intros s <-|done|done|done]. }
  destruct w as [|e]; cbn [write_topology]; apply Hload.
  - eapply spec_weaken; [exact Hput|done| |done|done]. auto.
  - destruct (Z.eqb_spec (TR_Version cur) e) as [<-|]; cbn [negb]; [|apply spec_fail; by intros s <-; left].
    destruct (String.eqb_spec (TR_JSON cur) json); [apply spec_ret; intros s <-; split; [by right|done]|].
    eapply spec_weaken; [exact Hput|done| |done|done]. auto.
Qed.

(** What a reader sees in [s1], against [s]. *)
Definition sound_reads (cur new : TopologyRecord) (s s1 : S) : Prop :=
  (exists c, answer (GetTopology None t) s1 = Ok c /\ (c = cur \/ c = new) /\ history_consistent t c s1 /\
     forall r, answer (GetTopologyVersion None t (TR_Version cur + 1)) s1 = Ok r -> c = new) /\
  (forall v r, TR_Version new - TopologyHistoryLimit < v <= TR_Version cur ->
     answer (GetTopologyVersion None t v) s = Ok r -> answer (GetTopologyVersion None t v) s1 = Ok r).

Lemma before_reads cur new s s1 :
  kv_get t collTopology "" s = Some (VTopology cur) -> TR_Version new = TR_Version cur + 1 ->
  before t cur new s s1 -> sound_reads cur new s s1.
Proof.
  intros Hcur Hnew (Hc & Hr & Hh). split.
  - exists cur. rewrite answer_GetTopology, Hc. split_and!; [done|by left|done|]. intros r.
    rewrite (answer_GetTopologyVersion _ _ cur Hc). destruct (_ <=? 0); [done|]. destruct (Z.ltb_spec (TR_Version cur) (TR_Version cur + 1)); [done|lia].
  - intros v r Hv. rewrite (answer_GetTopologyVersion _ _ cur Hc), (answer_GetTopologyVersion _ _ cur Hcur).
    destruct (Z.leb_spec v 0); [done|]. destruct (_ <? _); [done|]. destruct (Z.eqb_spec v (TR_Version cur)); [done|].
    by rewrite Hr by lia.
Qed.

Lemma after_reads cur new s s1 :
  kv_get t collTopology "" s = Some (VTopology cur) -> TR_Version new = TR_Version cur + 1 ->
  after t cur new s s1 -> sound_reads cur new s s1 /\ answer (GetTopology None t) s1 = Ok new.
Proof.
  intros Hcur Hnew (Hc & Hr & HV & HN). split; [|by rewrite answer_GetTopology, Hc]. split.
  - exists new. rewrite answer_GetTopology, Hc. split_and!; [done|by right|by right|done].
  - intros v r Hv. rewrite (answer_GetTopologyVersion _ _ new Hc), (answer_GetTopologyVersion _ _ cur Hcur).
    destruct (Z.leb_spec v 0); [done|]. destruct (Z.ltb_spec (TR_Version cur) v); [done|].
    destruct (Z.ltb_spec (TR_Version new) v); [lia|]. destruct (Z.eqb_spec v (TR_Version new)); [lia|].
    destruct (Z.eqb_spec v (TR_Version cur)) as [->|]; [by rewrite HV|]. by rewrite Hr by lia.
Qed.

(** C36. A topology write survives any backend error or crash.  Afterwards the
    current topology is the old record or the complete new one, the version of an
    unfinished write is not visible, and every version inside the retention window
    that could be read before reads the same; the store can take the next write.  A
    write that reports success has installed its record, and a compare-and-set
    succeeds only over the version it expected. *)
Theorem topology_write_crash_safe ctx w json now fs s n cur :
  kv_get t collTopology "" s = Some (VTopology cur) -> 0 < TR_Version cur -> TR_Version cur + 1 < 2 ^ 63 -> history_consistent t cur s ->
  let o := write_topology ctx w json now fs s n in
  let s' := outcome_state o in
  let new := mkTopologyRecord (TR_Version cur + 1) json now in
  (exists c, answer (GetTopology None t) s' = Ok c /\ (c = cur \/ c = new) /\ history_consistent t c s' /\
     forall r, answer (GetTopologyVersion None t (TR_Version cur + 1)) s' = Ok r -> c = new) /\
  (forall v r, TR_Version new - TopologyHistoryLimit < v <= TR_Version cur ->
     answer (GetTopologyVersion None t v) s = Ok r -> answer (GetTopologyVersion None t v) s' = Ok r) /\
  (forall r s1 k, o = Done r s1 k ->
     answer (GetTopology None t) s' = Ok r /\
     match w with Put => r = new | CompareAndSet e => e = TR_Version cur /\ (r = new \/ r = cur /\ TR_JSON cur = json) end).
Proof.
  intros Hcur Hpos Hmax Hcons o s' new.
  assert (i64 (TR_Version cur + 1) = TR_Version cur + 1) as Hi by (apply i64_small; unfold is_i64; lia).
  pose proof (spec_write_topology ctx w json now s cur Hcur Hpos Hmax Hcons fs s n eq_refl) as Hspec. rewrite Hi in Hspec. fold new o in Hspec.
  pose proof (fun s1 => before_reads cur new s s1 Hcur eq_refl) as Hbefore.
  pose proof (fun s1 => after_reads cur new s s1 Hcur eq_refl) as Hafter. unfold sound_reads in *.
  assert (before t cur new s s) as Hbs by (split_and!; done).
  unfold s'. clearbody o. destruct o as [r s1 k|e s1 k|s1]; cbn [outcome_state].
  - destruct Hspec as [[[Ha ->]|(-> & -> & Hj & Hw)] He].
    + destruct (Hafter _ Ha) as [[H1 H2] H3]. split_and!; [done|done|]. intros r s2 k2 [= <- _ _]. destruct w; auto.
    + destruct (Hbefore _ Hbs) as (H1 & H2). split_and!; [done|done|]. intros r s2 k2 [= <- _ _].
      split; [by rewrite answer_GetTopology, Hcur|]. destruct w; [done|auto].
  - destruct Hspec as [Hb|Ha]; [destruct (Hbefore _ Hb) as (H1 & H2)|destruct (Hafter _ Ha) as [[H1 H2] _]]; split_and!; done.
  - destruct Hspec as [Hb|Ha]; [destruct (Hbefore _ Hb) as (H1 & H2)|destruct (Hafter _ Ha) as [[H1 H2] _]]; split_and!; done.
Qed.
End Writes.

Definition ex_topology : TopologyRecord := mkTopologyRecord 1 "{}" 5.
Definition ex_topology_store : memkv := kv_put "acme" collTopology "" (VTopology ex_topology) newMemkv.

(** A write that dies right after the history entry, over a store without history. *)
Lemma topology_write_crash_safe_witness :
  exists c, answer (GetTopology None "acme")
              (outcome_state (write_topology "acme" None Put "{1}" 6 (fun n => if Nat.eqb n 3 then Crashes true else NoFault) ex_topology_store 0%nat)) = Ok c /\
            (c = ex_topology \/ c = mkTopologyRecord 2 "{1}" 6).
Proof.
  destruct (topology_write_crash_safe "acme" None Put "{1}" 6 (fun n => if Nat.eqb n 3 then Crashes true else NoFault) ex_topology_store 0%nat ex_topology)
    as [(c & Hc & Hor & _) _]; [reflexivity|reflexivity|reflexivity|left; reflexivity|]. exists c. split; [exact Hc|exact Hor].
Defined.
