(* ===== verification/AuditLog.v ===== *)
(** * The audit chain ([internal/controller/audit.go])

    Canonical bytes, the hash chain and its verification, with what the source
    uses of [time.Time.Format], and the log of the in-memory backend
    ([memstore.go]). *)

From stdpp Require Import base gmap strings list sorting.
From Stdlib Require Import ZArith Lia Ascii.
From S2P Require Import Prelude GoLib GoSha LinkID StoreTypes.

Local Open Scope Z_scope.

(** ** [Timestamp.UTC().Format(time.RFC3339Nano)] *)

(** [appendInt(x, width)] of the [time] package. *)
Fixpoint zeros (k : nat) : string := match k with O => "" | S k' => String "0"%char (zeros k') end.
Definition appendInt (x : Z) (width : nat) : string :=
  let u := itoa10 (Z.abs x) in
  ((if (x <? 0)%Z then "-" else "") +:+ zeros (width - String.length u) +:+ u)%string.

(** Proleptic Gregorian date of a day number since 1970-01-01: year, month, day. *)
Definition civil (days : Z) : Z * Z * Z :=
  let z := days + 719468 in
  let era := z / 146097 in
  let doe := z mod 146097 in
  let yoe := (doe - doe / 1460 + doe / 36524 - doe / 146096) / 365 in
  let doy := doe - (365 * yoe + yoe / 4 - yoe / 100) in
  let mp := (5 * doy + 2) / 153 in
  let d := doy - (153 * mp + 2) / 5 + 1 in
  let mth := if mp <? 10 then mp + 3 else mp - 9 in
  ((yoe + era * 400 + (if mth <=? 2 then 1 else 0)), mth, d).

(** The nine digits of the fraction without its trailing zeros. *)
Fixpoint trim_zeros (k : nat) (n : Z) : string :=
  match k with
  | O => ""
  | S k' => if n mod 10 =? 0 then trim_zeros k' (n / 10) else appendInt n k
  end.
Definition appendNano (nanos : Z) : string := if nanos =? 0 then "" else ("." +:+ trim_zeros 9 nanos)%string.

Definition formatRFC3339Nano (ts : Z) : string :=
  let secs := ts / 1000000000 in
  let day := secs / 86400 in
  let sod := secs mod 86400 in
  let '(y, mth, d) := civil day in
  (appendInt y 4 +:+ "-" +:+ appendInt mth 2 +:+ "-" +:+ appendInt d 2 +:+ "T" +:+
   appendInt (sod / 3600) 2 +:+ ":" +:+ appendInt (sod / 60 mod 60) 2 +:+ ":" +:+ appendInt (sod mod 60) 2 +:+
   appendNano (ts mod 1000000000) +:+ "Z")%string.

Example format_epoch : formatRFC3339Nano 0 = "1970-01-01T00:00:00Z".
Proof. reflexivity. Qed.
Example format_nanos : formatRFC3339Nano 1709210096120000000 = "2024-02-29T12:34:56.12Z".
Proof. reflexivity. Qed.
Example format_zero_time : formatRFC3339Nano (-62135596800 * 1000000000) = "0001-01-01T00:00:00Z".
Proof. reflexivity. Qed.

(** ** The chain *)

Definition auditRetain : nat := Z.to_nat 10000.
Definition auditRotateAt : nat := Z.to_nat 12000.

Definition nl : string := String "010"%char "".

(** [fmt.Sprintf("%s\n%s\n...")] *)
Fixpoint join_lines (fields : list string) : string :=
  match fields with [] => "" | f :: rest => (f +:+ nl +:+ join_lines rest)%string end.

Definition canonicalAuditBytes (e : AuditEntry) : string :=
  if String.eqb (AE_EventID e) "" then
    join_lines [strconv_Itoa (AE_Seq e); formatRFC3339Nano (AE_Timestamp e); AE_Actor e; AE_Action e; AE_NodeID e; AE_PrevHash e]
  else
    join_lines ["v2"; strconv_Itoa (AE_Seq e); formatRFC3339Nano (AE_Timestamp e); AE_Actor e; AE_Action e; AE_NodeID e; AE_EventID e; AE_PrevHash e].

Definition set_PrevHash (h : string) (e : AuditEntry) : AuditEntry :=
  match e with mkAuditEntry s ts a ac n ev _ hash => mkAuditEntry s ts a ac n ev h hash end.
Definition set_Hash (h : string) (e : AuditEntry) : AuditEntry :=
  match e with mkAuditEntry s ts a ac n ev p _ => mkAuditEntry s ts a ac n ev p h end.
Definition set_Seq (seq : Z) (e : AuditEntry) : AuditEntry :=
  match e with mkAuditEntry _ ts a ac n ev p h => mkAuditEntry seq ts a ac n ev p h end.

Definition chainAudit (e : AuditEntry) (prevHash : string) : AuditEntry :=
  let e1 := set_PrevHash prevHash e in
  set_Hash (sha256_hex (canonicalAuditBytes e1)) e1.

Fixpoint verify_from (i : Z) (prev : string) (entries : list AuditEntry) : Z :=
  match entries with
  | [] => -1
  | e :: rest =>
      if negb (String.eqb (AE_PrevHash e) prev) then i
      else if negb (String.eqb (AE_Hash (chainAudit e prev)) (AE_Hash e)) then i
      else verify_from (i + 1) (AE_Hash e) rest
  end.

Definition VerifyAuditChain (entries : list AuditEntry) : Z :=
  match entries with
  | [] => -1
  | e :: _ => verify_from 0 (AE_PrevHash e) entries
  end.

(** ** The log of the in-memory backend *)

Record memAuditLog := mkAuditLog {
  al_entries : list AuditEntry;
  al_nextSeq : Z;
  al_lastHash : string }.

Definition newAuditLog : memAuditLog := mkAuditLog [] 1 "".

(** One log per tenant, created on first use. *)
Definition auditLogLocked (t : TenantID) (audit : gmap TenantID memAuditLog) : memAuditLog := default newAuditLog (audit !! t).

Definition append_entry (log : memAuditLog) (e : AuditEntry) : memAuditLog * AuditEntry :=
  let entry := chainAudit (set_Seq (al_nextSeq log) e) (al_lastHash log) in
  let entries := al_entries log ++ [entry] in
  let kept := if (auditRotateAt <? length entries)%nat then drop (length entries - auditRetain) entries else entries in
  (mkAuditLog kept (i64 (al_nextSeq log + 1)) (AE_Hash entry), entry).

Definition mem_appendAudit (t : TenantID) (e : AuditEntry) (audit : gmap TenantID memAuditLog) : gmap TenantID memAuditLog * AuditEntry :=
  let '(log, entry) := append_entry (auditLogLocked t audit) e in (<[ t := log ]> audit, entry).

Definition by_seq (a b : AuditEntry) : Prop := AE_Seq a <= AE_Seq b.
#[export] Instance by_seq_dec : RelDecision by_seq.
Proof. intros a b. unfold by_seq. apply _. Defined.
#[export] Instance by_seq_total : Total by_seq.
Proof. intros a b. unfold by_seq. lia. Qed.
#[export] Instance by_seq_trans : Transitive by_seq.
Proof. intros a b c. unfold by_seq. lia. Qed.

Definition mem_listAudit (t : TenantID) (audit : gmap TenantID memAuditLog) : list AuditEntry :=
  match audit !! t with None => [] | Some log => merge_sort by_seq (al_entries log) end.

(** ** Linked entries *)

(** Each entry carries the hash of the one before and its own. *)
Fixpoint linked (prev : string) (es : list AuditEntry) : Prop :=
  match es with
  | [] => True
  | e :: rest => AE_PrevHash e = prev /\ AE_Hash e = sha256_hex (canonicalAuditBytes e) /\ linked (AE_Hash e) rest
  end.

Lemma AE_Hash_chainAudit e prev : AE_PrevHash e = prev -> AE_Hash (chainAudit e prev) = sha256_hex (canonicalAuditBytes e).
Proof. intros <-. by destruct e. Qed.

Lemma chainAudit_linked e prev : AE_PrevHash (chainAudit e prev) = prev /\ AE_Hash (chainAudit e prev) = sha256_hex (canonicalAuditBytes (chainAudit e prev)).
Proof. by destruct e. Qed.

Lemma verify_from_linked i prev es : 0 <= i -> verify_from i prev es = -1 <-> linked prev es.
Proof.
  revert i prev. induction es as [|e es IH]; intros i prev Hi; cbn [verify_from linked]; [done|].
  destruct (String.eqb_spec (AE_PrevHash e) prev) as [Hp|]; cbn [negb]; [|split; [lia|tauto]].
  rewrite (AE_Hash_chainAudit _ _ Hp). destruct (String.eqb_spec (sha256_hex (canonicalAuditBytes e)) (AE_Hash e)) as [Hh|Hh]; cbn [negb].
  - rewrite IH by lia. split; [done|tauto].
  - split; [lia|]. intros (_ & He & _). congruence.
Qed.

Lemma VerifyAuditChain_linked es : VerifyAuditChain es = -1 <-> match es with [] => True | e :: _ => linked (AE_PrevHash e) es end.
Proof. destruct es; [done|]. unfold VerifyAuditChain. by rewrite verify_from_linked. Qed.

Lemma linked_app prev es1 es2 :
  linked prev (es1 ++ es2) <-> linked prev es1 /\ linked (default prev (AE_Hash <$> last es1)) es2.
Proof.
  revert prev. induction es1 as [|e es IH]; intros prev; cbn [app linked]; [tauto|]. rewrite IH.
  replace (default prev (AE_Hash <$> last (e :: es))) with (default (AE_Hash e) (AE_Hash <$> last es)); [tauto|].
  destruct es as [|e' es]; [done|]. cbn [last]. by destruct (last (e' :: es)) eqn:E; [|apply last_None in E].
Qed.

Lemma linked_verify prev es : linked prev es -> VerifyAuditChain es = -1.
Proof. rewrite VerifyAuditChain_linked. destruct es; [done|]. intros Hl. pose proof Hl as [-> _]. done. Qed.

Lemma linked_drop prev k es : linked prev es -> exists prev', linked prev' (drop k es).
Proof. rewrite <- (take_drop k es) at 1. rewrite linked_app. intros [_ ?]. eauto. Qed.

(** ** The in-memory log *)

(** The whole history of a log that starts at [seq] after [prev]. *)
Fixpoint history (seq : Z) (prev : string) (es : list AuditEntry) : list AuditEntry :=
  match es with
  | [] => []
  | e :: rest => let entry := chainAudit (set_Seq seq e) prev in entry :: history (seq + 1) (AE_Hash entry) rest
  end.

Lemma AE_Seq_chain seq e prev : AE_Seq (chainAudit (set_Seq seq e) prev) = seq.
Proof. by destruct e. Qed.

Lemma history_linked seq prev es : linked prev (history seq prev es).
Proof.
  revert seq prev. induction es as [|e es IH]; intros seq prev; cbn [history linked]; [done|].
  destruct (chainAudit_linked (set_Seq seq e) prev) as [Hp Hh]. exact (conj Hp (conj Hh (IH _ _))).
Qed.

Lemma history_sorted seq prev es :
  StronglySorted by_seq (history seq prev es) /\ NoDup (AE_Seq <$> history seq prev es) /\ Forall (fun e => seq <= AE_Seq e) (history seq prev es).
Proof.
  revert seq prev. induction es as [|e es IH]; intros seq prev; cbn [history]; [split_and!; constructor|].
  set (entry := chainAudit (set_Seq seq e) prev). destruct (IH (seq + 1) (AE_Hash entry)) as (Hs & Hn & Hf).
  assert (AE_Seq entry = seq) as Hseq by apply AE_Seq_chain.
  split_and!.
  - constructor; [done|]. eapply Forall_impl; [exact Hf|]. intros e' He'. unfold by_seq. cbn in He'. lia.
  - cbn. constructor; [|done]. intros (e' & He' & Hin)%list_elem_of_fmap. eapply Forall_forall in Hf; [|exact Hin]. cbn in Hf. lia.
  - constructor; [lia|]. eapply Forall_impl; [exact Hf|]. cbn. intros; lia.
Qed.

Lemma history_snoc seq prev es e :
  history seq prev (es ++ [e]) =
  history seq prev es ++ [chainAudit (set_Seq (seq + Z.of_nat (length es)) e) (default prev (AE_Hash <$> last (history seq prev es)))].
Proof.
  revert seq prev. induction es as [|e' es IH]; intros seq prev; cbn [app history]; [by rewrite Z.add_0_r|].
  set (entry := chainAudit (set_Seq seq e') prev). rewrite IH. cbn [app length].
  replace (seq + Z.of_nat (S (length es))) with (seq + 1 + Z.of_nat (length es)) by lia.
  replace (default prev (AE_Hash <$> last (entry :: history (seq + 1) (AE_Hash entry) es)))
    with (default (AE_Hash entry) (AE_Hash <$> last (history (seq + 1) (AE_Hash entry) es))); [done|].
  clearbody entry. destruct (history (seq + 1) _ es) as [|x l]; [done|]. cbn [last].
  by destruct (last (x :: l)) eqn:E2; [|apply last_None in E2].
Qed.

Lemma length_history seq prev es : length (history seq prev es) = length es.
Proof. revert seq prev. induction es; intros; cbn [history length]; auto. Qed.

(** The log after a list of appends is a window of the whole history. *)
Definition append_all (t : TenantID) (es : list AuditEntry) (audit : gmap TenantID memAuditLog) : gmap TenantID memAuditLog :=
  foldl (fun m e => (mem_appendAudit t e m).1) audit es.

Definition log_inv (es : list AuditEntry) (log : memAuditLog) : Prop :=
  al_nextSeq log = 1 + Z.of_nat (length es) /\ al_lastHash log = default "" (AE_Hash <$> last (history 1 "" es)) /\
  exists k, al_entries log = drop k (history 1 "" es) /\ (length (al_entries log) <= auditRotateAt)%nat /\
            (k = 0%nat \/ auditRetain <= length (al_entries log))%nat.

Lemma audit_bounds : (0 < auditRetain < auditRotateAt)%nat.
Proof. unfold auditRetain, auditRotateAt. lia. Qed.

Lemma log_inv_append es e log :
  Z.of_nat (length es) + 2 < 2 ^ 63 -> log_inv es log -> log_inv (es ++ [e]) (append_entry log e).1.
Proof.
  intros Hlen (Hseq & Hlast & k & Hk & Hle & Hret). pose proof audit_bounds as Hb.
  unfold append_entry. cbn [fst]. rewrite Hseq, Hlast.
  pose proof (history_snoc 1 "" es e) as Hsnoc. set (entry := chainAudit _ _) in *. clearbody entry.
  unfold log_inv. cbn [al_nextSeq al_lastHash al_entries]. rewrite Hsnoc, last_snoc. cbn [fmap option_fmap option_map default].
  split_and!; [rewrite i64_small by (unfold is_i64; lia); rewrite length_app; cbn; lia|done|].
  destruct (decide (k <= length (history 1 "" es))%nat) as [Hkl|Hkl].
  - assert (drop k (history 1 "" es ++ [entry]) = al_entries log ++ [entry]) as Hd by (rewrite drop_app_le by done; by rewrite Hk).
    rewrite <- Hd. clear Hd. assert (length (al_entries log) = (length (history 1 "" es) - k)%nat) as Hal by (by rewrite Hk, length_drop).
    rewrite length_drop, length_app. cbn [length].
    destruct (Nat.ltb_spec auditRotateAt (length (history 1 "" es) + 1 - k)).
    + eexists. rewrite drop_drop. split_and!; [reflexivity|rewrite length_drop, length_app; cbn [length]; lia|].
      right. rewrite length_drop, length_app. cbn [length]. lia.
    + exists k. split_and!; [done|rewrite length_drop, length_app; cbn [length]; lia|].
      destruct Hret as [->|Hret]; [by left|right; rewrite length_drop, length_app; cbn [length]; lia].
  - exfalso. rewrite Hk, length_drop in Hret. lia.
Qed.

Lemma append_all_inv t es audit :
  Z.of_nat (length es) + 2 < 2 ^ 63 -> log_inv [] (auditLogLocked t audit) -> log_inv es (auditLogLocked t (append_all t es audit)).
Proof.
  intros Hlen H0. unfold append_all. induction es as [|e es IH] using rev_ind; [done|]. rewrite foldl_snoc.
  rewrite length_app in Hlen. cbn [length] in Hlen. unfold mem_appendAudit at 1. 
  destruct (append_entry _ e) as [log entry] eqn:Ea. cbn [fst]. unfold auditLogLocked at 1. rewrite lookup_insert_eq. cbn [default].
  change log with (log, entry).1. rewrite <- Ea. apply log_inv_append; [lia|]. apply IH. lia.
Qed.

Lemma merge_sort_sorted (es : list AuditEntry) :
  StronglySorted by_seq es -> NoDup (AE_Seq <$> es) -> merge_sort by_seq es = es.
Proof.
  intros Hs Hn. eapply StronglySorted_unique_strong; [|apply StronglySorted_merge_sort; apply _|exact Hs|apply merge_sort_Permutation].
  intros x y Hx Hy Hxy Hyx. rewrite merge_sort_Permutation in Hx. eapply (NoDup_fmap_inj_on AE_Seq es); eauto.
  unfold by_seq in *. lia.
Qed.

Lemma StronglySorted_drop {A} (R : A -> A -> Prop) k (l : list A) : StronglySorted R l -> StronglySorted R (drop k l).
Proof. revert l. induction k as [|k IH]; intros l Hl; [done|]. destruct Hl; cbn [drop]; [constructor|by apply IH]. Qed.

(** The in-memory audit log: after any appends to a fresh tenant, the listed log
    passes verification, also once its oldest entries were rotated out; it is a tail
    window of the whole chained history, complete or at least [auditRetain] long, and
    never longer than [auditRotateAt]. *)
Theorem audit_log_verifies t es audit :
  audit !! t = None -> Z.of_nat (length es) + 2 < 2 ^ 63 ->
  let out := mem_listAudit t (append_all t es audit) in
  VerifyAuditChain out = -1 /\ (length out <= auditRotateAt)%nat /\
  exists k, out = drop k (history 1 "" es) /\ (k = 0 \/ auditRetain <= length out)%nat.
Proof.
  intros Hfresh Hlen out.
  assert (log_inv [] (auditLogLocked t audit)) as H0.
  { unfold auditLogLocked. rewrite Hfresh. split_and!; [done|done|]. exists 0%nat. split_and!; [done|cbn; lia|by left]. }
  pose proof (append_all_inv t es audit Hlen H0) as (_ & _ & k & Hk & Hle & Hret).
  destruct (history_sorted 1 "" es) as (Hs & Hn & _).
  assert (out = drop k (history 1 "" es)) as Hout.
  { unfold out, mem_listAudit. unfold auditLogLocked in Hk. destruct (append_all t es audit !! t) as [log|].
    - cbn [from_option id] in Hk. rewrite Hk. apply merge_sort_sorted; [by apply StronglySorted_drop|].
      rewrite fmap_drop. eapply sublist_NoDup; [exact Hn|]. apply sublist_drop.
    - cbn in Hk. done. }
  assert (al_entries (auditLogLocked t (append_all t es audit)) = out) as Heq by (by rewrite Hk, Hout). rewrite Heq in Hle, Hret.
  split_and!; [|done|by exists k]. rewrite Hout. destruct (linked_drop "" k (history 1 "" es) (history_linked 1 "" es)) as [prev Hl].
  by eapply linked_verify.
Qed.

Definition ex_event (actor action : string) : AuditEntry := mkAuditEntry 0 1000000000 actor action "n1" "" "" "".

Lemma audit_log_verifies_witness :
  VerifyAuditChain (mem_listAudit "acme" (append_all "acme" [ex_event "operator:root" "login"; ex_event "operator:root" "logout"] ∅)) = -1.
Proof.
  exact (proj1 (audit_log_verifies "acme" [ex_event "operator:root" "login"; ex_event "operator:root" "logout"] ∅ (lookup_empty "acme") eq_refl)).
Defined.

(** ** What the hash binds *)

Definition newline : ascii := "010"%char.
Definition one_line (s : string) : Prop := has_byte newline s = false.

(** The fields as they are written. *)
Definition written_fields (e : AuditEntry) : list string :=
  [strconv_Itoa (AE_Seq e); formatRFC3339Nano (AE_Timestamp e); AE_Actor e; AE_Action e; AE_NodeID e; AE_EventID e; AE_PrevHash e].

Definition plain (e : AuditEntry) : Prop :=
  one_line (AE_Actor e) /\ one_line (AE_Action e) /\ one_line (AE_NodeID e) /\ one_line (AE_EventID e) /\ one_line (AE_PrevHash e).

Lemma one_line_app a b : one_line a -> one_line b -> one_line (a +:+ b)%string.
Proof. unfold one_line. rewrite has_byte_append. intros -> ->. done. Qed.

Lemma one_line_digits s : str_forall is_digit s = true -> one_line s.
Proof.
  unfold one_line. induction s as [|c s IH]; [done|]. cbn [str_forall has_byte]. intros [Hc Hs]%andb_true_iff.
  destruct (decide (c = newline)) as [->|]; [by vm_compute in Hc|auto].
Qed.

Lemma one_line_itoa10 n : 0 <= n -> one_line (itoa10 n).
Proof. intros Hn. apply one_line_digits. by destruct (itoa10_cons n Hn) as (_ & _ & _ & _ & Hd). Qed.

Lemma one_line_zeros k : one_line (zeros k).
Proof. induction k; [done|]. unfold one_line in *. cbn. by destruct (decide _). Qed.

Lemma one_line_appendInt x w : one_line (appendInt x w).
Proof.
  unfold appendInt. apply one_line_app; [by destruct (_ <? _)|]. apply one_line_app; [apply one_line_zeros|apply one_line_itoa10; lia].
Qed.

Lemma one_line_trim k n : one_line (trim_zeros k n).
Proof. revert n. induction k as [|k IH]; intros n; cbn [trim_zeros]; [done|]. case_match; [apply IH|apply one_line_appendInt]. Qed.

Lemma one_line_format ts : one_line (formatRFC3339Nano ts).
Proof.
  unfold formatRFC3339Nano, appendNano. destruct (civil _) as [[y mth] d].
  repeat (apply one_line_app; [first [apply one_line_appendInt|done|destruct (_ =? _); [done|apply one_line_app; [done|apply one_line_trim]]]|]). done.
Qed.

Lemma one_line_Itoa n : one_line (strconv_Itoa n).
Proof.
  unfold strconv_Itoa. destruct (Z.ltb_spec n 0); [|by apply one_line_itoa10].
  apply (one_line_app "-"); [done|]. apply one_line_itoa10. lia.
Qed.

Lemma join_lines_inj fs gs :
  Forall one_line fs -> Forall one_line gs -> length fs = length gs -> join_lines fs = join_lines gs -> fs = gs.
Proof.
  revert gs. induction fs as [|f fs IH]; intros [|g gs] Hf Hg Hl He; try done.
  apply Forall_cons in Hf as [Hf Hfs]. apply Forall_cons in Hg as [Hg Hgs]. cbn [join_lines] in He.
  apply (cut_inj newline) in He as [-> He]; [|done|done]. f_equal. apply IH; [done|done|by injection Hl|done].
Qed.

(** Entries whose text fields have no line breaks are told apart by their bytes. *)
Lemma canonical_inj e e' : plain e -> plain e' -> canonicalAuditBytes e = canonicalAuditBytes e' -> written_fields e = written_fields e'.
Proof.
  intros (H1 & H2 & H3 & H4 & H5) (G1 & G2 & G3 & G4 & G5).
  pose proof (one_line_Itoa (AE_Seq e)) as Hs. pose proof (one_line_Itoa (AE_Seq e')) as Hs'.
  pose proof (one_line_format (AE_Timestamp e)) as Ht. pose proof (one_line_format (AE_Timestamp e')) as Ht'.
  assert (forall n, strconv_Itoa n <> "v2") as Hv.
  { intros n. unfold strconv_Itoa. destruct (Z.ltb_spec n 0); [done|]. destruct (itoa10_cons n) as (c & r & -> & Hc & _); [done|].
    intros [= -> _]. by vm_compute in Hc. }
  unfold canonicalAuditBytes, written_fields. destruct (String.eqb_spec (AE_EventID e) "") as [E|E], (String.eqb_spec (AE_EventID e') "") as [E'|E'].
  - intros He. apply join_lines_inj in He; [|repeat constructor; done|repeat constructor; done|done]. injection He as -> -> -> -> -> ->. by rewrite E, E'.
  - intros He. exfalso. cbn [join_lines] in He. apply (cut_inj newline) in He as [Hbad _]; [by apply Hv in Hbad|done|done].
  - intros He. exfalso. cbn [join_lines] in He. apply (cut_inj newline) in He as [Hbad _]; [by apply (Hv (AE_Seq e'))|done|done].
  - intros He. apply join_lines_inj in He; [|repeat constructor; done|repeat constructor; done|done]. injection He as -> -> -> -> -> -> ->. done.
Qed.


(** Somewhere the entries of the two logs have different bytes and one digest. *)
Definition entries_collide (es es' : list AuditEntry) : Prop :=
  exists i e e', es !! i = Some e /\ es' !! i = Some e' /\ collides (canonicalAuditBytes e) (canonicalAuditBytes e').

Lemma entries_collide_app es es' xs xs' : entries_collide es es' -> entries_collide (es ++ xs) (es' ++ xs').
Proof. intros (i & e & e' & Hi & Hi' & Hc). exists i, e, e'. split_and!; [by apply lookup_app_l_Some|by apply lookup_app_l_Some|done]. Qed.

Lemma linked_same prev prev' es es' :
  linked prev es -> linked prev' es' -> Forall plain es -> Forall plain es' -> length es = length es' -> AE_Hash <$> last es = AE_Hash <$> last es' ->
  (map written_fields es = map written_fields es' /\ map AE_Hash es = map AE_Hash es') \/ entries_collide es es'.
Proof.
  revert es'. induction es as [|e es IH] using rev_ind; intros es' Hl Hl' Hp Hp' Hlen Hlast.
  - destruct es'; [by left|done].
  - destruct es' as [|e' es' _] using rev_ind; [rewrite length_app in Hlen; cbn in Hlen; lia|].
    rewrite !last_snoc in Hlast. injection Hlast as Hh. rewrite !length_app in Hlen. cbn [length] in Hlen.
    apply linked_app in Hl as [Hl [Hprev [He _]]]. apply linked_app in Hl' as [Hl' [Hprev' [He' _]]].
    apply Forall_app in Hp as [Hp [Hpe _]%Forall_cons]. apply Forall_app in Hp' as [Hp' [Hpe' _]%Forall_cons].
    destruct (decide (canonicalAuditBytes e = canonicalAuditBytes e')) as [Heq|Hne]; [|right; exists (length es), e, e'; split_and!; [by apply list_lookup_middle|by apply list_lookup_middle; lia|split; congruence]].
    pose proof (canonical_inj _ _ Hpe Hpe' Heq) as Hf.
    destruct (IH es' Hl Hl' Hp Hp') as [[Hm1 Hm2]|Hc]; [lia| |left|right; by apply entries_collide_app].
    + assert (AE_PrevHash e = AE_PrevHash e') as Hpp by (unfold written_fields in Hf; by injection Hf).
      destruct (last es) as [a|] eqn:Ea, (last es') as [b|] eqn:Eb; cbn [fmap option_fmap option_map from_option id] in *; [congruence|..|done].
      * apply last_None in Eb. subst es'. apply last_Some in Ea as [? ->]. rewrite length_app in Hlen. cbn in Hlen. lia.
      * apply last_None in Ea. subst es. apply last_Some in Eb as [? ->]. rewrite length_app in Hlen. cbn in Hlen. lia.
    + rewrite !map_app, Hm1, Hm2. cbn [map]. by rewrite Hf, Hh.
Qed.

(** C37. Two verified logs of the same length that end in the same hash agree entry by
    entry in everything the hash covers, unless at some position the canonical bytes of
    the two entries are different and have the same SHA-256: from the last hash on, any
    change of a recorded entry is evident.  The text fields are assumed free of line
    breaks. *)
Theorem audit_tamper_evident es es' :
  VerifyAuditChain es = -1 -> VerifyAuditChain es' = -1 -> Forall plain es -> Forall plain es' ->
  length es = length es' -> AE_Hash <$> last es = AE_Hash <$> last es' ->
  (map written_fields es = map written_fields es' /\ map AE_Hash es = map AE_Hash es') \/ entries_collide es es'.
Proof.
  rewrite !VerifyAuditChain_linked. intros Hv Hv'. destruct es as [|e es], es' as [|e' es']; try done; [by left|]. by apply (linked_same (AE_PrevHash e) (AE_PrevHash e')).
Qed.

Lemma audit_tamper_evident_witness :
  let log := history 1 "" [ex_event "operator:root" "login"; ex_event "operator:root" "logout"] in
  (map written_fields log = map written_fields log /\ map AE_Hash log = map AE_Hash log) \/ entries_collide log log.
Proof.
  set (log := history 1 "" [ex_event "operator:root" "login"; ex_event "operator:root" "logout"]).
  assert (Forall plain log) as Hp by (vm_compute; repeat constructor).
  assert (VerifyAuditChain log = -1) as Hv by (vm_compute; reflexivity).
  exact (audit_tamper_evident log log Hv Hv Hp Hp eq_refl eq_refl).
Defined.

(** Without that assumption the bytes do not separate the fields: an entry as the
    login handler writes it for a user name with line breaks has the bytes of an
    entry with another actor, action and node. *)
Example audit_fields_shift :
  let shown := mkAuditEntry 0 1000000000 "operator:eve" "promote" "n1
login-lockout
" "" "" "" in
  let stored := mkAuditEntry 0 1000000000 "operator:eve
promote
n1" "login-lockout" "" "" "" "" in
  canonicalAuditBytes (chainAudit shown "") = canonicalAuditBytes (chainAudit stored "").
Proof. vm_compute. reflexivity. Qed.
