(* ===== verification/FileAudit.v ===== *)
(** * The audit log of the file backend ([internal/controller/filestore_audit.go])

    A JSONL file that is appended to in place, an in-memory tail cache, healing of
    a torn last line, migration of the legacy array and rotation.  One line is
    three writes here, a proper prefix of its JSON, the rest of it and the newline,
    so that an append can stop after any of them. *)

From stdpp Require Import base gmap strings list sorting.
From Stdlib Require Import ZArith Lia.
From S2P Require Import Prelude GoLib GoSha StoreTypes StoreMonad StoreLogic AuditLog.

Local Open Scope Z_scope.
Local Open Scope store_scope.

(** What stands between two newlines: the JSON of an entry, the proper prefix of
    one, or other bytes that do not parse. *)
Inductive piece := JSON (e : AuditEntry) | Prefix (e : AuditEntry) | Junk.

(** Terminated lines, and what follows the last newline. *)
Record logfile := mkLogfile { lf_lines : list piece; lf_rest : option piece }.

Record auditTail := mkAuditTail { at_seq : Z; at_hash : string; at_count : Z }.

(** One tenant: [audit.jsonl], [audit.json] (with [None] for an unreadable one) and
    the cached tail, which does not survive a restart. *)
Record fileaudit := mkFileAudit {
  fa_jsonl : option logfile;
  fa_legacy : option (option (list AuditEntry));
  fa_tail : option auditTail }.

Definition fresh : fileaudit := mkFileAudit None None None.
Definition set_jsonl (f : option logfile) (s : fileaudit) : fileaudit := mkFileAudit f (fa_legacy s) (fa_tail s).
Definition set_legacy (l : option (option (list AuditEntry))) (s : fileaudit) : fileaudit := mkFileAudit (fa_jsonl s) l (fa_tail s).
Definition set_tail (a : option auditTail) (s : fileaudit) : fileaudit := mkFileAudit (fa_jsonl s) (fa_legacy s) a.
Definition restart (s : fileaudit) : fileaudit := set_tail None s.

(** ** Calls into the file system *)

Inductive io_call := CDir | CStat | CLegacy | CMigrate | CRemove | CRead | CHeal | COpen | CPrefix | CBody | CNewline | CSync | CClose | CRotateRead | CRotate.

Definition io_index (c : io_call) : nat :=
  match c with
  | CDir => 0 | CStat => 1 | CLegacy => 2 | CMigrate => 3 | CRemove => 4 | CRead => 5 | CHeal => 6 | COpen => 7
  | CPrefix => 8 | CBody => 9 | CNewline => 10 | CSync => 11 | CClose => 12 | CRotateRead => 13 | CRotate => 14
  end.

(** The fault of a call is looked up under its name. *)
Definition call {A} (c : io_call) (m : Act fileaudit A) : Act fileaudit A := fun fs s _ => m fs s (io_index c).
(** Memory, which does not fail. *)
Definition modify (f : fileaudit -> fileaudit) : Act fileaudit unit := fun _ s n => Done tt (f s) n.
Definition inspect {A} (f : fileaudit -> A) : Act fileaudit A := fun _ s n => Done (f s) s n.

(** [O_APPEND] writes. *)
Definition touch (s : fileaudit) : fileaudit := match fa_jsonl s with None => set_jsonl (Some (mkLogfile [] None)) s | Some _ => s end.
Definition with_rest (f : option piece -> option piece) (s : fileaudit) : fileaudit :=
  match fa_jsonl s with Some l => set_jsonl (Some (mkLogfile (lf_lines l) (f (lf_rest l)))) s | None => s end.
Definition write_prefix (e : AuditEntry) : fileaudit -> fileaudit :=
  with_rest (fun r => match r with None => Some (Prefix e) | Some _ => Some Junk end).
Definition write_body (e : AuditEntry) : fileaudit -> fileaudit :=
  with_rest (fun r => match r with Some (Prefix _) => Some (JSON e) | _ => Some Junk end).
Definition write_newline (s : fileaudit) : fileaudit :=
  match fa_jsonl s with
  | Some (mkLogfile ls (Some p)) => set_jsonl (Some (mkLogfile (ls ++ [p]) None)) s
  | _ => s
  end.

(** ** Reading *)

(** A malformed last line is dropped and reported; any other is an error. *)
Fixpoint parse_lines (ps : list piece) : result store_error (list AuditEntry * bool) :=
  match ps with
  | [] => Ok ([], false)
  | JSON e :: rest => match parse_lines rest with Ok (es, torn) => Ok (e :: es, torn) | Err err => Err err end
  | _ :: [] => Ok ([], true)
  | _ :: _ => Err (PlainError "controller: parse audit.jsonl")
  end.

Definition readAuditJSONL (f : option logfile) : result store_error (option (list AuditEntry) * bool) :=
  match f with
  | None => Ok (None, false)
  | Some l =>
      match parse_lines (lf_lines l ++ option_list (lf_rest l)) with
      | Ok (es, torn) => Ok (Some es, torn)
      | Err e => Err e
      end
  end.

Definition readAudit (s : fileaudit) : result store_error (list AuditEntry) :=
  match readAuditJSONL (fa_jsonl s) with
  | Err e => Err e
  | Ok (Some es, _) => Ok es
  | Ok (None, _) =>
      match fa_legacy s with
      | None => Ok []
      | Some None => Err (PlainError "controller: parse audit.json")
      | Some (Some es) => Ok es
      end
  end.

Definition listAudit : Act fileaudit (list AuditEntry) :=
  do! r <- call CRead (prim_read readAudit) in
  match r with Ok es => ret es | Err e => fail e end.

(** ** Writing *)

Definition whole (es : list AuditEntry) : option logfile := Some (mkLogfile (map JSON es) None).

(** [writeAuditJSONL]: the whole file, atomically. *)
Definition writeAuditJSONL (es : list AuditEntry) : Act fileaudit unit := prim_write (set_jsonl (whole es)).

Definition tail_of (es : list AuditEntry) : auditTail :=
  match last es with
  | Some e => mkAuditTail (AE_Seq e) (AE_Hash e) (Z.of_nat (length es))
  | None => mkAuditTail 0 "" (Z.of_nat (length es))
  end.

Definition migrate : Act fileaudit unit :=
  do! exists_ <- call CStat (prim_read (fun s => bool_decide (is_Some (fa_jsonl s)))) in
  if (exists_ : bool) then ret tt
  else
    do! legacy <- call CLegacy (prim_read fa_legacy) in
    match legacy with
    | None => ret tt
    | Some None => fail (PlainError "controller: parse audit.json")
    | Some (Some es) =>
        call CMigrate (writeAuditJSONL es) ;;!
        call CRemove (prim_write (set_legacy None))
    end.

Definition loadAuditTail : Act fileaudit auditTail :=
  do! cached <- inspect fa_tail in
  match cached with
  | Some tail => ret tail
  | None =>
      migrate ;;!
      do! r <- call CRead (prim_read (fun s => readAuditJSONL (fa_jsonl s))) in
      match r with
      | Err e => fail e
      | Ok (entries, torn) =>
          let es := default [] entries in
          (if (torn : bool) then call CHeal (writeAuditJSONL es) else ret tt) ;;!
          modify (set_tail (Some (tail_of es))) ;;!
          ret (tail_of es)
      end
  end.

Definition set_count (n : Z) (s : fileaudit) : fileaudit :=
  match fa_tail s with Some a => set_tail (Some (mkAuditTail (at_seq a) (at_hash a) n)) s | None => s end.

Definition rotateAudit : Act fileaudit unit :=
  do! r <- call CRotateRead (prim_read (fun s => readAuditJSONL (fa_jsonl s))) in
  match r with
  | Err e => fail e
  | Ok (entries, _) =>
      let es := default [] entries in
      if (length es <=? auditRetain)%nat then modify (set_count (Z.of_nat (length es)))
      else
        let kept := drop (length es - auditRetain) es in
        call CRotate (writeAuditJSONL kept) ;;!
        modify (set_count (Z.of_nat (length kept)))
  end.

Definition append_line (e : AuditEntry) : Act fileaudit unit :=
  call COpen (prim_write touch) ;;!
  call CPrefix (prim_write (write_prefix e)) ;;!
  call CBody (prim_write (write_body e)) ;;!
  call CNewline (prim_write write_newline) ;;!
  call CSync (prim_read (fun _ => tt)) ;;!
  call CClose (prim_read (fun _ => tt)).

Definition appendAudit (e : AuditEntry) : Act fileaudit AuditEntry :=
  call CDir (prim_read (fun _ => tt)) ;;!
  do! tail <- loadAuditTail in
  let e1 := chainAudit (set_Seq (i64 (at_seq tail + 1)) e) (at_hash tail) in
  append_line e1 ;;!
  let count := at_count tail + 1 in
  modify (set_tail (Some (mkAuditTail (AE_Seq e1) (AE_Hash e1) count))) ;;!
  (if Z.of_nat auditRotateAt <? count then ignore rotateAudit else ret tt) ;;!
  ret e1.

(** ** Histories of the log *)

(** The process restarts after a crash. *)
Definition next_state {A} (o : outcome fileaudit A) : fileaudit :=
  match o with Done _ s _ | Failed _ s _ => s | Crashed s => restart s end.

(** Appends with their faults; the state reached and the entries that were acknowledged. *)
Fixpoint run_appends (calls : list (AuditEntry * Faults)) (s : fileaudit) : fileaudit * list AuditEntry :=
  match calls with
  | [] => (s, [])
  | (e, fs) :: rest =>
      let o := appendAudit e fs s 0%nat in
      let r := run_appends rest (next_state o) in
      (r.1, match o with Done entry _ _ => entry :: r.2 | _ => r.2 end)
  end.

Definition fault_at (c : io_call) (f : fault) : Faults := fun n => if Nat.eqb n (io_index c) then f else NoFault.

Definition ex_entry (actor : string) : AuditEntry := mkAuditEntry 0 1000000000 actor "login" "" "" "" "".

(** Two faults the file log does not survive.  When [fsync] fails after the bytes
    reached the file, the error leaves the cached tail behind the file, the next
    append reuses the number and the previous hash, and verification reports the
    duplicate.  When a crash loses only the newline of a line, the line still parses,
    so nothing is healed and the next line is glued to it: after one more restart the
    acknowledged entry is gone, and after one more append the log cannot be read at
    all. *)
Theorem file_audit_faults :
  (let run := run_appends [(ex_entry "a", no_faults); (ex_entry "b", fault_at CSync (Fails true "io")); (ex_entry "c", no_faults)] fresh in
   length run.2 = 2%nat /\ match answer listAudit run.1 with Ok out => VerifyAuditChain out = 2 | Err _ => False end) /\
  (let run := run_appends [(ex_entry "a", fault_at CNewline (Crashes false)); (ex_entry "b", no_faults)] fresh in
   length run.2 = 1%nat /\ answer listAudit (restart run.1) = Ok []) /\
  (let run := run_appends [(ex_entry "a", fault_at CNewline (Crashes false)); (ex_entry "b", no_faults); (ex_entry "c", no_faults)] fresh in
   length run.2 = 2%nat /\ answer listAudit run.1 = Err (PlainError "controller: parse audit.jsonl")).
Proof. split; [|split]; split; vm_compute; reflexivity. Qed.

(** ** Crash safety

    The faults the log does survive: errors before the first byte of the line is
    written, a failed rotation, and a crash anywhere except between the last byte of
    the JSON and its newline. *)

Definition survivable (fs : Faults) : Prop :=
  (forall c applied msg, c ∈ [CPrefix; CBody; CNewline; CSync; CClose] -> fs (io_index c) <> Fails applied msg) /\
  fs (io_index CBody) <> Crashes true /\ fs (io_index CNewline) <> Crashes false.

(** An action under one schedule. *)
Definition under {A} (fs : Faults) (m : Act fileaudit A) : Act fileaudit A := fun _ s n => m fs s n.

Section Under.
Context (fs : Faults).

Lemma under_bind {A B} (m : Act fileaudit A) (k : A -> Act fileaudit B) P R Q E C :
  spec (under fs m) P R E C -> (forall a, spec (under fs (k a)) (R a) Q E C) -> spec (under fs (abind m k)) P Q E C.
Proof. exact (spec_bind (under fs m) (fun a => under fs (k a)) P R Q E C). Qed.

Lemma under_ret {A} (a : A) (P : fileaudit -> Prop) Q E C : (forall s, P s -> Q a s) -> spec (under fs (ret a)) P Q E C.
Proof. exact (spec_ret a P Q E C). Qed.

Lemma under_modify f (P : fileaudit -> Prop) (Q : unit -> fileaudit -> Prop) E C : (forall s, P s -> Q tt (f s)) -> spec (under fs (modify f)) P Q E C.
Proof. intros H gs s n Hs. by apply H. Qed.

Lemma under_inspect {A} (f : fileaudit -> A) (P : fileaudit -> Prop) (Q : A -> fileaudit -> Prop) E C :
  (forall s, P s -> Q (f s) s) -> spec (under fs (inspect f)) P Q E C.
Proof. intros H gs s n Hs. by apply H. Qed.

Lemma under_read {A} c (f : fileaudit -> A) (P : fileaudit -> Prop) (Q : A -> fileaudit -> Prop) (E : store_error -> fileaudit -> Prop) (C : fileaudit -> Prop) :
  (forall s, P s -> Q (f s) s) -> (forall applied msg s, fs (io_index c) = Fails applied msg -> P s -> E (BackendError msg) s) -> (forall s, P s -> C s) ->
  spec (under fs (call c (prim_read f))) P Q E C.
Proof. intros HQ HE HC gs s n Hs. unfold under, call, prim_read. destruct (fs (io_index c)) eqn:Ef; eauto. Qed.

Lemma under_write c f (P : fileaudit -> Prop) (Q : unit -> fileaudit -> Prop) (E : store_error -> fileaudit -> Prop) (C : fileaudit -> Prop) :
  (forall s, P s -> Q tt (f s)) ->
  (forall applied msg s, fs (io_index c) = Fails applied msg -> P s -> E (BackendError msg) (if applied : bool then f s else s)) ->
  (forall applied s, fs (io_index c) = Crashes applied -> P s -> C (if applied : bool then f s else s)) ->
  spec (under fs (call c (prim_write f))) P Q E C.
Proof. intros HQ HE HC gs s n Hs. unfold under, call, prim_write. destruct (fs (io_index c)) eqn:Ef; eauto. Qed.

Lemma under_ignore {A} (m : Act fileaudit A) P (Q : fileaudit -> Prop) E C :
  spec (under fs m) P (fun _ => Q) (fun _ => Q) C -> spec (under fs (ignore m)) P (fun _ => Q) E C.
Proof. exact (spec_ignore (under fs m) P Q E C). Qed.
End Under.

(** The file holds a tail window of [hist], and perhaps a torn line. *)
Record holds_log (hist : list AuditEntry) (rest : option piece) (s : fileaudit) : Prop := {
  hl_linked : linked "" hist;
  hl_legacy : fa_legacy s = None;
  hl_file : exists k, fa_jsonl s = Some (mkLogfile (map JSON (drop k hist)) rest) /\ (k = 0 \/ auditRetain <= length hist - k)%nat \/
                      fa_jsonl s = None /\ hist = [] /\ rest = None }.

(** Between calls: no complete line is unterminated, and the cache, if there is one,
    is the end of the history of an intact file. *)
Definition log_ok (hist : list AuditEntry) (s : fileaudit) : Prop :=
  exists rest, holds_log hist rest s /\ (forall e, rest <> Some (JSON e)) /\
    forall a, fa_tail s = Some a -> rest = None /\ at_seq a = at_seq (tail_of hist) /\ at_hash a = at_hash (tail_of hist).

Lemma holds_log_tail hist rest a s : holds_log hist rest s -> holds_log hist rest (set_tail a s).
Proof. intros [? ? ?]. by split. Qed.

Lemma log_ok_restart hist rest s : holds_log hist rest s -> (forall e, rest <> Some (JSON e)) -> log_ok hist (restart s).
Proof. intros Hh Hr. exists rest. split_and!; [by apply holds_log_tail|done|done]. Qed.

Lemma parse_lines_JSON es rest :
  (forall e, rest <> Some (JSON e)) ->
  parse_lines (map JSON es ++ option_list rest) = Ok (es, bool_decide (is_Some rest)).
Proof.
  intros Hr. induction es as [|e es IH]; cbn [map app parse_lines]; [|by rewrite IH].
  destruct rest as [[e|e|]|]; [by destruct (Hr e)|done..].
Qed.

Lemma read_holds hist rest s :
  holds_log hist rest s -> (forall e, rest <> Some (JSON e)) ->
  exists o torn, readAuditJSONL (fa_jsonl s) = Ok (o, torn) /\ torn = bool_decide (is_Some rest) /\
    ((exists k, default [] o = drop k hist /\ (k = 0 \/ auditRetain <= length hist - k)%nat) /\ (o = None -> hist = [])).
Proof.
  intros [_ _ Hf] Hr. destruct Hf as (k & [[Hf Hk]|(Hf & -> & ->)]); rewrite Hf; cbn [readAuditJSONL].
  - cbn [lf_lines lf_rest]. rewrite parse_lines_JSON by done. eexists _, _. split_and!; [done|done|by exists k|done].
  - eexists _, _. split_and!; [done|done|exists 0%nat; split; [done|by left]|done].
Qed.

(** The tail of a window is the tail of the history. *)
Lemma tail_of_drop k hist :
  (k = 0 \/ auditRetain <= length hist - k)%nat ->
  at_seq (tail_of (drop k hist)) = at_seq (tail_of hist) /\ at_hash (tail_of (drop k hist)) = at_hash (tail_of hist).
Proof.
  intros Hk. pose proof audit_bounds. assert (last (drop k hist) = last hist) as Hl.
  { destruct Hk as [->|Hk]; [done|]. rewrite <- (take_drop k hist) at 2. rewrite last_app.
    destruct (last (drop k hist)) eqn:E; [done|]. apply last_None in E. apply (f_equal length) in E. rewrite length_drop in E. cbn in E. lia. }
  unfold tail_of. rewrite Hl. by destruct (last hist).
Qed.

Section Append.
Context (fs : Faults) (Hfs : survivable fs) (hist : list AuditEntry).

(** The cache is loaded and the file is intact. *)
Definition primed (a : auditTail) (s : fileaudit) : Prop :=
  holds_log hist None s /\ at_seq a = at_seq (tail_of hist) /\ at_hash a = at_hash (tail_of hist).

Lemma primed_ok a s : primed a s -> fa_tail s = Some a \/ fa_tail s = None -> log_ok hist s.
Proof.
  intros (Hh & Hs & Hha) Ht. exists None. split_and!; [done|done|]. intros a' Ha'. destruct Ht as [Ht|Ht]; rewrite Ht in Ha'; [|done].
  by injection Ha' as <-.
Qed.

Lemma spec_migrate :
  spec (under fs migrate) (fun s => log_ok hist s /\ fa_tail s = None) (fun _ s => log_ok hist s /\ fa_tail s = None)
    (fun _ => log_ok hist) (fun s => log_ok hist (restart s)).
Proof.
  assert (forall s, log_ok hist s -> log_ok hist (restart s)) as Hrs.
  { intros s (rest & Hh & Hr & _). by eapply log_ok_restart. }
  unfold migrate. eapply under_bind with (R := fun b s => (log_ok hist s /\ fa_tail s = None) /\ b = bool_decide (is_Some (fa_jsonl s))).
  { apply under_read; intros; destruct_and?; auto. }
  intros [|]; [by apply under_ret; intros s [? _]|].
  eapply under_bind with (R := fun l s => (log_ok hist s /\ fa_tail s = None) /\ l = None).
  { apply under_read; intros; destruct_and?; auto. split; [done|]. destruct H as (rest & Hh & _). apply (hl_legacy _ _ _ Hh). }
  intros l gs s n [Hs ->]. done.
Qed.

Lemma spec_load :
  spec (under fs loadAuditTail) (log_ok hist) (fun a s => primed a s /\ fa_tail s = Some a) (fun _ => log_ok hist) (fun s => log_ok hist (restart s)).
Proof.
  unfold loadAuditTail. eapply under_bind with (R := fun o s => log_ok hist s /\ o = fa_tail s).
  { apply under_inspect. auto. }
  intros [a|].
  - apply under_ret. intros s [(rest & Hh & Hr & Ht) Ha]. destruct (Ht a) as (-> & ? & ?); [done|]. repeat (split; [done|]). done.
  - eapply under_bind; [eapply spec_weaken; [exact spec_migrate| |intros u s Hs; exact Hs|auto|auto]|].
    { intros s [? ?]. auto. }
    intros u. eapply under_bind with (R := fun r s => exists rest o torn, holds_log hist rest s /\ (forall e, rest <> Some (JSON e)) /\ fa_tail s = None /\
      r = Ok (o, torn) /\ torn = bool_decide (is_Some rest) /\ (exists k, default [] o = drop k hist /\ (k = 0 \/ auditRetain <= length hist - k)%nat)).
    { apply under_read.
      - intros s [(rest & Hh & Hr & _) Hn]. destruct (read_holds _ _ _ Hh Hr) as (o & torn & Ho & Htorn & Hk & _). exists rest, o, torn. auto 10.
      - intros applied msg s _ [Hs _]. done.
      - intros s [(rest & Hh & Hr & _) _]. by eapply log_ok_restart. }
    intros r gs s n (rest & o & torn & Hh & Hr & Hn & -> & Ht & k & Hk & Hw).
    assert (forall s', holds_log hist None s' -> primed (tail_of (default [] o)) (set_tail (Some (tail_of (default [] o))) s')) as Hp.
    { intros s' Hs'. rewrite Hk. destruct (tail_of_drop k hist Hw). split_and!; [by apply holds_log_tail|done|done]. }
    assert (holds_log hist None (set_jsonl (whole (default [] o)) s)) as Hheal.
    { destruct Hh as [Hl Hleg _]. split; [done|done|]. rewrite Hk. exists k. by left. }
    assert (forall s', holds_log hist None s' -> fa_tail s' = None -> log_ok hist s' /\ log_ok hist (restart s')) as Hok.
    { intros s' Hs' Hn'. split; [|by eapply log_ok_restart]. exists None. split_and!; [done|done|]. intros a. by rewrite Hn'. }
    assert (log_ok hist s /\ log_ok hist (restart s)) as [Hs1 Hs2].
    { split; [|by eapply log_ok_restart]. exists rest. split_and!; [done|done|]. intros a. by rewrite Hn. }
    subst torn. unfold under, abind. destruct (bool_decide (is_Some rest)) eqn:Erest.
    + unfold call, writeAuditJSONL, prim_write. destruct (Hok _ Hheal Hn) as [? ?].
      destruct (fs (io_index CHeal)) as [|[] msg|[]]; cbn; auto.
    + apply bool_decide_eq_false in Erest. assert (rest = None) as -> by (destruct rest; [by destruct Erest|done]). cbn. auto.
Qed.

(** ** The line *)

Context (e1 : AuditEntry) (Hnext : linked "" (hist ++ [e1])).

Lemma spec_append_line a :
  spec (under fs (append_line e1)) (fun s => primed a s /\ fa_tail s = Some a) (fun _ s => holds_log (hist ++ [e1]) None s)
    (fun _ => log_ok hist) (fun s => log_ok hist (restart s) \/ log_ok (hist ++ [e1]) (restart s)).
Proof.
  destruct Hfs as (Hnf & Hbody & Hnl).
  assert (forall c applied msg, c ∈ [CPrefix; CBody; CNewline; CSync; CClose] -> fs (io_index c) = Fails applied msg -> False) as Hno.
  { intros c applied msg Hc Hf. by apply (Hnf c applied msg Hc). }
  assert (forall s, primed a s -> primed a (touch s) /\ exists k, fa_jsonl (touch s) = Some (mkLogfile (map JSON (drop k hist)) None) /\ (k = 0 \/ auditRetain <= length hist - k)%nat) as Htouch.
  { intros s ([Hl Hleg (k & [[Hf Hk]|(Hf & Hh & _)])] & Hs & Hha); unfold touch; rewrite Hf.
    - split; [|by exists k]. split_and!; [|done|done]. split; [done|done|]. exists k. by left.
    - assert (drop 0 hist = []) as H0 by (by rewrite Hh).
      split; [|exists 0%nat; rewrite H0; by split; [|left]]. split_and!; [|done|done]. split; [done|done|]. exists 0%nat. left. rewrite H0. by split; [|left]. }
  unfold append_line.
  eapply under_bind with (R := fun _ s => fa_legacy s = None /\ exists k, fa_jsonl s = Some (mkLogfile (map JSON (drop k hist)) None) /\ (k = 0 \/ auditRetain <= length hist - k)%nat).
  { apply under_write.
    - intros s [Hp _]. destruct (Htouch s Hp) as [(Hh & _) ?]. split; [apply (hl_legacy _ _ _ Hh)|done].
    - intros applied msg s _ [Hp Ht]. destruct applied; [|eapply primed_ok; eauto]. eapply primed_ok; [by apply Htouch|]. left. unfold touch. by case_match.
    - intros applied s _ [Hp Ht]. left. destruct applied; (apply (log_ok_restart _ None); [|done]); [by apply Htouch|apply Hp]. }
  assert (forall rest s, (forall e, rest <> Some (JSON e)) -> fa_legacy s = None ->
    (exists k, fa_jsonl s = Some (mkLogfile (map JSON (drop k hist)) rest) /\ (k = 0 \/ auditRetain <= length hist - k)%nat) -> log_ok hist (restart s)) as Hre.
  { intros rest s Hr Hleg (k & Hf & Hk). eapply log_ok_restart; [|exact Hr]. split; [exact (proj1 (proj1 (linked_app _ _ _) Hnext))|done|]. exists k. by left. }
  intros u. eapply under_bind with (R := fun _ s => fa_legacy s = None /\ exists k, fa_jsonl s = Some (mkLogfile (map JSON (drop k hist)) (Some (Prefix e1))) /\ (k = 0 \/ auditRetain <= length hist - k)%nat).
  { assert (forall s, (fa_legacy s = None /\ exists k, fa_jsonl s = Some (mkLogfile (map JSON (drop k hist)) None) /\ (k = 0 \/ auditRetain <= length hist - k)%nat) ->
      fa_legacy (write_prefix e1 s) = None /\ exists k, fa_jsonl (write_prefix e1 s) = Some (mkLogfile (map JSON (drop k hist)) (Some (Prefix e1))) /\ (k = 0 \/ auditRetain <= length hist - k)%nat) as Hw.
    { intros s (Hleg & k & Hf & Hk). unfold write_prefix, with_rest. rewrite Hf. split; [done|]. by exists k. }
    apply under_write; [auto|intros applied msg s Hf; exfalso; eapply (Hno CPrefix); [by left|exact Hf]|].
    intros applied s _ Hs. left. destruct applied; [destruct (Hw s Hs); by apply (Hre (Some (Prefix e1)))|destruct Hs; by apply (Hre None)]. }
  intros u2. eapply under_bind with (R := fun _ s => fa_legacy s = None /\ exists k, fa_jsonl s = Some (mkLogfile (map JSON (drop k hist)) (Some (JSON e1))) /\ (k = 0 \/ auditRetain <= length hist - k)%nat).
  { apply under_write; [|intros applied msg s Hf; exfalso; eapply (Hno CBody); [by right; left|exact Hf]|].
    - intros s (Hleg & k & Hf & Hk). unfold write_body, with_rest. rewrite Hf. split; [done|]. by exists k.
    - intros [] s Hc [Hleg Hk]; [done|]. left. by apply (Hre (Some (Prefix e1))). }
  intros u3. eapply under_bind with (R := fun _ s => holds_log (hist ++ [e1]) None s).
  { assert (forall s, (fa_legacy s = None /\ exists k, fa_jsonl s = Some (mkLogfile (map JSON (drop k hist)) (Some (JSON e1))) /\ (k = 0 \/ auditRetain <= length hist - k)%nat) ->
      holds_log (hist ++ [e1]) None (write_newline s)) as Hw.
    { intros s (Hleg & k & Hf & Hk). unfold write_newline. rewrite Hf. split; [done|done|]. cbn [fa_jsonl set_jsonl].
      destruct (decide (k <= length hist)%nat) as [Hkl|Hkl].
      - exists k. left. rewrite drop_app_le by done. rewrite map_app, length_app. cbn [length map]. split; [done|lia].
      - exfalso. pose proof audit_bounds. lia. }
    apply under_write; [auto|intros applied msg s Hf; exfalso; eapply (Hno CNewline); [by right; right; left|exact Hf]|].
    intros [] s Hc Hs; [|done]. right. apply (log_ok_restart _ None); [by apply Hw|done]. }
  intros u4. eapply under_bind with (R := fun _ s => holds_log (hist ++ [e1]) None s).
  { apply under_read; [done|intros applied msg s Hf; exfalso; eapply (Hno CSync); [by do 3 right; left|exact Hf]|]. intros s Hs. right. by apply (log_ok_restart _ None). }
  intros u5. apply under_read; [done|intros applied msg s Hf; exfalso; eapply (Hno CClose); [by do 4 right; left|exact Hf]|]. intros s Hs. right. by apply (log_ok_restart _ None).
Qed.
End Append.

(** ** The call *)

Definition settled (hist : list AuditEntry) (s : fileaudit) : Prop := exists a, primed hist a s /\ fa_tail s = Some a.

Lemma settled_ok hist s : settled hist s -> log_ok hist s.
Proof. intros (a & Hp & Ht). eapply primed_ok; eauto. Qed.

Lemma settled_restart hist s : settled hist s -> log_ok hist (restart s).
Proof. intros (a & [Hh _] & _). by apply (log_ok_restart _ None). Qed.

Lemma settled_count hist n s : settled hist s -> settled hist (set_count n s).
Proof.
  intros (a & (Hh & Hs & Hha) & Ht). unfold set_count. rewrite Ht. eexists. split; [|reflexivity].
  split_and!; [by apply holds_log_tail|done|done].
Qed.

(** The last [auditRetain] entries of a window are a window. *)
Lemma settled_trim hist k s :
  (k = 0 \/ auditRetain <= length hist - k)%nat -> (auditRetain < length (drop k hist))%nat -> settled hist s ->
  settled hist (set_jsonl (whole (drop (length (drop k hist) - auditRetain) (drop k hist))) s).
Proof.
  intros Hk Hlen (a & (Hh & Hs & Hha) & Ht). exists a. split; [|done]. split_and!; [|done|done].
  split; [apply Hh|apply Hh|]. rewrite drop_drop. eexists. left. split; [reflexivity|]. rewrite length_drop in *. lia.
Qed.

Lemma spec_rotate fs hist :
  spec (under fs rotateAudit) (settled hist) (fun _ => settled hist) (fun _ => settled hist) (fun s => log_ok hist (restart s)).
Proof.
  unfold rotateAudit.
  eapply under_bind with (R := fun r s => settled hist s /\ exists o torn k, r = Ok (o, torn) /\ default [] o = drop k hist /\ (k = 0 \/ auditRetain <= length hist - k)%nat).
  { apply under_read; [|done|apply settled_restart]. intros s Hs. split; [done|]. destruct Hs as (a & [Hh _] & _).
    destruct (read_holds _ _ _ Hh) as (o & torn & Ho & _ & (k & Hk & Hw) & _); [done|]. exists o, torn, k. done. }
  intros r gs s n (Hs & o & torn & k & -> & Hk & Hw). cbn zeta. rewrite Hk. revert gs s n Hs. change (spec (under fs
    (if (length (drop k hist) <=? auditRetain)%nat then modify (set_count (Z.of_nat (length (drop k hist))))
     else call CRotate (writeAuditJSONL (drop (length (drop k hist) - auditRetain) (drop k hist))) ;;!
          modify (set_count (Z.of_nat (length (drop (length (drop k hist) - auditRetain) (drop k hist)))))))
    (settled hist) (fun _ => settled hist) (fun _ => settled hist) (fun s => log_ok hist (restart s))).
  destruct (Nat.leb_spec (length (drop k hist)) auditRetain).
  - apply under_modify. intros s. apply settled_count.
  - eapply under_bind; [|intros u; apply under_modify; intros s; apply settled_count].
    apply under_write; [intros s; by apply settled_trim|..]; intros applied ? s; [intros _|]; destruct applied; intros Hs.
    all: first [done | by apply settled_trim | by apply settled_restart | apply settled_restart; by apply settled_trim].
Qed.

(** The entry that follows [hist]. *)
Definition next_entry (hist : list AuditEntry) (e : AuditEntry) : AuditEntry :=
  chainAudit (set_Seq (i64 (at_seq (tail_of hist) + 1)) e) (at_hash (tail_of hist)).

Lemma next_entry_linked hist e : linked "" hist -> linked "" (hist ++ [next_entry hist e]).
Proof.
  intros Hl. apply linked_app. split; [done|]. unfold next_entry.
  replace (default "" (AE_Hash <$> last hist)) with (at_hash (tail_of hist)) by (unfold tail_of; by destruct (last hist)).
  destruct (chainAudit_linked (set_Seq (i64 (at_seq (tail_of hist) + 1)) e) (at_hash (tail_of hist))) as [Hp Hh]. exact (conj Hp (conj Hh I)).
Qed.

Lemma spec_appendAudit fs hist e :
  survivable fs ->
  spec (under fs (appendAudit e)) (log_ok hist) (fun a s => a = next_entry hist e /\ log_ok (hist ++ [next_entry hist e]) s)
    (fun _ => log_ok hist) (fun s => log_ok hist (restart s) \/ log_ok (hist ++ [next_entry hist e]) (restart s)).
Proof.
  intros Hfs.
  assert (forall s, log_ok hist s -> log_ok hist (restart s)) as Hre by (intros s (rest & Hh & Hr & _); by eapply log_ok_restart).
  unfold appendAudit. eapply under_bind; [apply (under_read _ _ _ _ (fun _ => log_ok hist)); auto|]. intros u.
  eapply under_bind with (R := fun a s => primed hist a s /\ fa_tail s = Some a); [eapply spec_weaken; [apply (spec_load fs hist)|auto..]|].
  intros a gs s n [Hp Ht]. assert (linked "" hist) as Hl by apply Hp.
  assert (chainAudit (set_Seq (i64 (at_seq a + 1)) e) (at_hash a) = next_entry hist e) as He.
  { destruct Hp as (_ & -> & ->). done. }
  pose proof (next_entry_linked hist e Hl) as Hnext. cbn zeta. rewrite He. clear He. set (e1 := next_entry hist e) in *. clearbody e1.
  revert gs s n Hp Ht. enough (spec (under fs (append_line e1 ;;!
      modify (set_tail (Some (mkAuditTail (AE_Seq e1) (AE_Hash e1) (at_count a + 1)))) ;;!
      (if Z.of_nat auditRotateAt <? at_count a + 1 then ignore rotateAudit else ret tt) ;;! ret e1))
    (fun s => primed hist a s /\ fa_tail s = Some a) (fun r s => r = e1 /\ log_ok (hist ++ [e1]) s) (fun _ => log_ok hist)
    (fun s => log_ok hist (restart s) \/ log_ok (hist ++ [e1]) (restart s))) as Hx.
  { intros gs s n Hp Ht. exact (Hx gs s n (conj Hp Ht)). }
  eapply under_bind; [by apply spec_append_line|]. intros u2.
  eapply under_bind with (R := fun _ => settled (hist ++ [e1])).
  { apply under_modify. intros s Hs. eexists. split; [|reflexivity]. unfold primed, tail_of. rewrite last_snoc.
    split_and!; [by apply holds_log_tail|done|done]. }
  intros u3. eapply under_bind with (R := fun _ => settled (hist ++ [e1])); [|intros u4; apply under_ret; intros s Hs; split; [done|by apply settled_ok]].
  destruct (Z.of_nat auditRotateAt <? at_count a + 1); [|by apply under_ret].
  apply (under_ignore fs). eapply spec_weaken; [apply (spec_rotate fs (hist ++ [e1]))|auto..].
Qed.

(** ** Histories of calls *)

Lemma next_entry_history es e :
  Z.of_nat (length es) + 2 < 2 ^ 63 -> history 1 "" es ++ [next_entry (history 1 "" es) e] = history 1 "" (es ++ [e]).
Proof.
  intros Hlen. rewrite history_snoc. unfold next_entry.
  replace (default "" (AE_Hash <$> last (history 1 "" es))) with (at_hash (tail_of (history 1 "" es))) by (unfold tail_of; by destruct (last _)).
  replace (i64 (at_seq (tail_of (history 1 "" es)) + 1)) with (1 + Z.of_nat (length es)); [done|].
  rewrite i64_small; [|]; destruct es as [|x l _] using rev_ind; [done| |done|]; rewrite history_snoc; unfold tail_of; rewrite last_snoc;
    unfold at_seq; rewrite AE_Seq_chain; rewrite length_app in *; cbn [length] in *; [lia|unfold is_i64; lia].
Qed.

(** What one call leaves: the history, or the history and the entry. *)
Lemma run_append_step e fs s es :
  survivable fs -> Z.of_nat (length es) + 2 < 2 ^ 63 -> log_ok (history 1 "" es) s ->
  match appendAudit e fs s 0%nat with
  | Done entry s' _ => history 1 "" (es ++ [e]) = history 1 "" es ++ [entry] /\ log_ok (history 1 "" (es ++ [e])) s'
  | o => log_ok (history 1 "" es) (next_state o) \/ log_ok (history 1 "" (es ++ [e])) (next_state o)
  end.
Proof.
  intros Hfs Hlen Hok. pose proof (spec_appendAudit fs _ e Hfs no_faults s 0%nat Hok) as Hsp. unfold under in Hsp.
  pose proof (next_entry_history es e Hlen) as Hn. rewrite <- Hn. set (e1 := next_entry _ e) in *. clearbody e1.
  destruct (appendAudit e fs s 0%nat) as [entry s' n|err s' n|s'].
  - destruct Hsp as [-> Hs']. done.
  - by left.
  - exact Hsp.
Qed.

Lemma run_appends_ok calls s es :
  Forall (fun c => survivable c.2) calls -> Z.of_nat (length es + length calls) + 2 < 2 ^ 63 -> log_ok (history 1 "" es) s ->
  exists es', es' `sublist_of` calls.*1 /\ log_ok (history 1 "" (es ++ es')) (run_appends calls s).1 /\
    exists new, history 1 "" (es ++ es') = history 1 "" es ++ new /\ (run_appends calls s).2 `sublist_of` new.
Proof.
  revert s es. induction calls as [|[e fs] calls IH]; intros s es Hf Hlen Hok.
  { exists []. rewrite app_nil_r. split_and!; [done|done|]. exists []. by rewrite app_nil_r. }
  inversion_clear Hf as [|? ? Hfs Hf']. cbn [snd] in Hfs. cbn [length] in Hlen. cbn [run_appends].
  pose proof (run_append_step e fs s es Hfs ltac:(lia) Hok) as Hstep. set (o := appendAudit e fs s 0%nat) in *. clearbody o.
  assert (forall s', log_ok (history 1 "" (es ++ [e])) s' -> exists es', es' `sublist_of` e :: calls.*1 /\ log_ok (history 1 "" (es ++ es')) (run_appends calls s').1 /\
    exists new, history 1 "" (es ++ es') = history 1 "" (es ++ [e]) ++ new /\ (run_appends calls s').2 `sublist_of` new) as Hadd.
  { intros s' Hs'. destruct (IH s' (es ++ [e]) Hf') as (es' & Hsub & Hl & new & Hn & Ha); [rewrite length_app; cbn [length]; lia|done|].
    exists (e :: es'). rewrite <- app_assoc in Hl, Hn. cbn [app] in Hl, Hn. split_and!; [by constructor|done|]. by exists new. }
  assert (forall s', log_ok (history 1 "" es) s' \/ log_ok (history 1 "" (es ++ [e])) s' -> exists es', es' `sublist_of` e :: calls.*1 /\ log_ok (history 1 "" (es ++ es')) (run_appends calls s').1 /\
    exists new, history 1 "" (es ++ es') = history 1 "" es ++ new /\ (run_appends calls s').2 `sublist_of` new) as Hany.
  { intros s' [Hs'|Hs'].
    - destruct (IH s' es Hf' ltac:(lia) Hs') as (es' & Hsub & Hl & Hrest). exists es'. split_and!; [by constructor|done|done].
    - destruct (Hadd s' Hs') as (es' & Hsub & Hl & new & Hn & Ha). rewrite history_snoc in Hn. exists es'. split_and!; [done|done|].
      rewrite <- app_assoc in Hn. eexists. split; [exact Hn|]. apply sublist_inserts_l. done. }
  destruct o as [entry s' n|err s' n|s']; cbn [next_state fst snd fmap list_fmap]; [|by apply Hany..].
  destruct Hstep as [He Hs']. destruct (Hadd s' Hs') as (es' & Hsub & Hl & new & Hn & Ha). rewrite He in Hn. exists es'. split_and!; [done|done|].
  rewrite <- app_assoc in Hn. eexists. split; [exact Hn|]. by constructor.
Qed.

Lemma listAudit_ok hist s :
  log_ok hist s -> exists k, answer listAudit s = Ok (drop k hist) /\ (k = 0 \/ auditRetain <= length hist - k)%nat /\ VerifyAuditChain (drop k hist) = -1.
Proof.
  intros (rest & Hh & Hr & _). destruct (read_holds _ _ _ Hh Hr) as (o & torn & Ho & _ & (k & Hk & Hw) & Hnone). exists k. split_and!; [|done|].
  - unfold answer, listAudit, abind, call, prim_read, no_faults, readAudit. rewrite Ho, <- Hk. destruct o; [done|].
    by rewrite (hl_legacy _ _ _ Hh).
  - destruct (linked_drop "" k hist (hl_linked _ _ _ Hh)) as [prev Hl]. by eapply linked_verify.
Qed.

(** C38. The file log is crash safe outside those faults.  After any appends to a fresh
    tenant, each under any schedule of errors before its line and of crashes except
    between a complete JSON line and its newline, the log reads back as a tail window
    (complete, or at least [auditRetain] long) of one chain from 1 without gaps over
    some of the requested entries in their order; every acknowledged entry is in that
    chain, and verification passes. *)
Theorem file_audit_crash_safe calls :
  Forall (fun c => survivable c.2) calls -> Z.of_nat (length calls) + 2 < 2 ^ 63 ->
  exists es k, es `sublist_of` calls.*1 /\ (run_appends calls fresh).2 `sublist_of` history 1 "" es /\
    answer listAudit (run_appends calls fresh).1 = Ok (drop k (history 1 "" es)) /\
    (k = 0 \/ auditRetain <= length (history 1 "" es) - k)%nat /\ VerifyAuditChain (drop k (history 1 "" es)) = -1.
Proof.
  intros Hf Hlen. destruct (run_appends_ok calls fresh [] Hf) as (es & Hsub & Hl & new & Hn & Ha); [done|..].
  { exists None. split_and!; [|done|done]. split; [done|done|]. exists 0%nat. by right. }
  cbn [app] in Hl, Hn. rewrite app_nil_l in Hn. destruct (listAudit_ok _ _ Hl) as (k & Hk). exists es, k. rewrite Hn at 1. done.
Qed.

Lemma survivable_crash c applied : (c, applied) ∉ [(CBody, true); (CNewline, false)] -> survivable (fault_at c (Crashes applied)).
Proof.
  intros Hc. split_and!.
  - intros c' ap msg _. unfold fault_at. by destruct (_ =? _)%nat.
  - unfold fault_at. destruct (Nat.eqb_spec (io_index CBody) (io_index c)) as [E|]; [|done]. intros [= ->]. apply Hc. destruct c; try done. by left.
  - unfold fault_at. destruct (Nat.eqb_spec (io_index CNewline) (io_index c)) as [E|]; [|done]. intros [= ->]. apply Hc. destruct c; try done. by right; left.
Defined.

Lemma file_audit_crash_safe_witness :
  let calls := [(ex_entry "a", fault_at CPrefix (Crashes true)); (ex_entry "b", fault_at CNewline (Crashes true)); (ex_entry "c", no_faults)] in
  exists es k, es `sublist_of` calls.*1 /\ (run_appends calls fresh).2 `sublist_of` history 1 "" es /\
    answer listAudit (run_appends calls fresh).1 = Ok (drop k (history 1 "" es)) /\
    (k = 0 \/ auditRetain <= length (history 1 "" es) - k)%nat /\ VerifyAuditChain (drop k (history 1 "" es)) = -1.
Proof.
  intros calls. apply file_audit_crash_safe; [|done]. constructor; [|constructor; [|constructor; [|constructor]]]; cbn [snd].
  - apply survivable_crash. set_solver.
  - apply survivable_crash. set_solver.
  - by split_and!.
Defined.
