(* ===== verification/GoText.v ===== *)
(** * What the source uses of [strings] and [strconv]

    [TrimSpace], [Split], [Index], [EqualFold], [ToLower] of hexadecimal text and
    [Atoi]. *)

From stdpp Require Import base strings list.
From Stdlib Require Import ZArith Lia Ascii.
From S2P Require Import Prelude GoLib LinkID.

Local Open Scope Z_scope.

(** ** [strings.TrimSpace] *)

(** The encodings of the runes [unicode.IsSpace] accepts. *)
Definition space_runes : list (list Z) :=
  [[9]; [10]; [11]; [12]; [13]; [32]; [194; 133]; [194; 160]; [225; 154; 128];
   [226; 128; 128]; [226; 128; 129]; [226; 128; 130]; [226; 128; 131]; [226; 128; 132]; [226; 128; 133];
   [226; 128; 134]; [226; 128; 135]; [226; 128; 136]; [226; 128; 137]; [226; 128; 138];
   [226; 128; 168]; [226; 128; 169]; [226; 128; 175]; [226; 129; 159]; [227; 128; 128]].
Definition spaces : list string := map string_of_bytes space_runes.

Fixpoint strip (p s : string) : option string :=
  match p, s with
  | EmptyString, _ => Some s
  | String a p', String b s' => if Ascii.eqb a b then strip p' s' else None
  | String _ _, EmptyString => None
  end.

Fixpoint str_rev_onto (s acc : string) : string :=
  match s with EmptyString => acc | String c s' => str_rev_onto s' (String c acc) end.
Definition str_rev (s : string) : string := str_rev_onto s "".

(** Drops prefixes out of [ps] as long as there is one; every step shortens [s]. *)
Fixpoint drop_while (fuel : nat) (ps : list string) (s : string) : string :=
  match fuel with
  | O => s
  | S fuel' => match list_find (fun p => is_Some (strip p s)) ps with
               | Some (_, p) => match strip p s with Some s' => drop_while fuel' ps s' | None => s end
               | None => s
               end
  end.

Definition trim_left (s : string) : string := drop_while (String.length s) spaces s.
Definition trim_right (s : string) : string := str_rev (drop_while (String.length s) (map str_rev spaces) (str_rev s)).
Definition TrimSpace (s : string) : string := trim_right (trim_left s).

Example trim_both : TrimSpace "  a b
 " = "a b".
Proof. vm_compute. reflexivity. Qed.
Example trim_nbsp : TrimSpace (string_of_bytes [194; 160; 97; 227; 128; 128]) = "a".
Proof. vm_compute. reflexivity. Qed.
Example trim_broken_rune : TrimSpace (string_of_bytes [97; 160; 32]) = string_of_bytes [97; 160].
Proof. vm_compute. reflexivity. Qed.

(** ** [strings.Split] on one byte *)

Fixpoint split_on (sep : ascii) (s : string) : list string :=
  match s with
  | EmptyString => [""]
  | String c s' =>
      if Ascii.eqb c sep then "" :: split_on sep s'
      else match split_on sep s' with
           | x :: xs => String c x :: xs
           | [] => [String c ""]
           end
  end.

Lemma split_on_cons sep s : exists x xs, split_on sep s = x :: xs.
Proof. destruct s; cbn [split_on]; [by eexists _, _|]. destruct (Ascii.eqb _ _); [by eexists _, _|]. destruct (split_on sep s); by eexists _, _. Qed.

Lemma split_on_app sep a s : has_byte sep a = false -> split_on sep (a +:+ String sep s) = a :: split_on sep s.
Proof.
  induction a as [|c a IH]; cbn [has_byte]; intros Ha.
  - change ("" +:+ String sep s)%string with (String sep s). cbn [split_on]. by rewrite Ascii.eqb_refl.
  - rewrite append_cons. cbn [split_on]. destruct (decide (c = sep)); [done|].
    destruct (Ascii.eqb_spec c sep); [done|]. by rewrite IH.
Qed.

Lemma split_on_whole sep a : has_byte sep a = false -> split_on sep a = [a].
Proof.
  induction a as [|c a IH]; cbn [has_byte]; intros Ha; [done|]. cbn [split_on].
  destruct (decide (c = sep)); [done|]. destruct (Ascii.eqb_spec c sep); [done|]. by rewrite IH.
Qed.

(** ** [strings.EqualFold], where one operand is ASCII

    Next to the two cases of a letter, the Kelvin sign folds to k and the long s to s. *)
Definition fold_rune (r : Z) : Z :=
  if (65 <=? r) && (r <=? 90) then r + 32 else if r =? 383 then 115 else if r =? 8490 then 107 else r.
Definition EqualFold (a b : string) : bool := bool_decide ((fold_rune <$> runes a) = (fold_rune <$> runes b)).
Lemma EqualFold_refl s : EqualFold s s = true.
Proof. unfold EqualFold. by apply bool_decide_eq_true. Qed.

(** [strings.ToLower] of ASCII text. *)
Fixpoint lower_ascii (s : string) : string :=
  match s with EmptyString => "" | String c s' => String (lower_byte c) (lower_ascii s') end.

(** ** [hex.DecodeString], whether it succeeds *)

Fixpoint all_hex (s : string) : bool :=
  match s with EmptyString => true | String c s' => bool_decide (is_Some (hex_val c)) && all_hex s' end.
Definition hex_decodes (s : string) : bool := Nat.even (String.length s) && all_hex s.

(** ** [strconv.Atoi] *)

Definition in_int64 (v : Z) : bool := (- 2 ^ 63 <=? v) && (v <? 2 ^ 63).
Definition parse_digits (s : string) : option Z :=
  match s with
  | EmptyString => None
  | String _ _ => if str_forall is_digit s then Some (digits_val 10 0 s) else None
  end.
Definition Atoi (s : string) : option Z :=
  match (match s with
         | String "+"%char d => parse_digits d
         | String "-"%char d => Z.opp <$> parse_digits d
         | _ => parse_digits s
         end) with
  | Some v => if in_int64 v then Some v else None
  | None => None
  end.

Example atoi_signs : (Atoi "-012", Atoi "+7", Atoi "1_0", Atoi "", Atoi "9223372036854775808") = (Some (-12), Some 7, None, None, None).
Proof. vm_compute. reflexivity. Qed.

(** ** What trimming keeps *)

(** A printable ASCII character that is not a space; no space rune has such a byte. *)
Definition solid (c : ascii) : bool := (33 <=? byte_val c) && (byte_val c <=? 126).
Definition hollow (p : string) : Prop := p <> "" /\ str_forall (fun c => negb (solid c)) p = true.

Lemma spaces_hollow : Forall hollow spaces /\ Forall hollow (map str_rev spaces).
Proof. split; repeat (apply Forall_cons; split; [split; [discriminate|vm_compute; reflexivity]|]); constructor. Qed.

Lemma str_rev_onto_app a b acc : str_rev_onto (a +:+ b) acc = str_rev_onto b (str_rev_onto a acc).
Proof. revert acc. induction a as [|c a IH]; intros acc; [done|]. rewrite append_cons. cbn [str_rev_onto]. apply IH. Qed.
Lemma str_rev_onto_acc a acc acc' : str_rev_onto a (acc +:+ acc') = (str_rev_onto a acc +:+ acc')%string.
Proof. revert acc. induction a as [|c a IH]; intros acc; [done|]. cbn [str_rev_onto]. rewrite <- append_cons. apply IH. Qed.
Lemma str_rev_app a b : str_rev (a +:+ b) = (str_rev b +:+ str_rev a)%string.
Proof. unfold str_rev. rewrite str_rev_onto_app. apply (str_rev_onto_acc b "" (str_rev_onto a "")). Qed.
Lemma str_rev_involutive s : str_rev (str_rev s) = s.
Proof.
  assert (forall s acc t, str_rev_onto (str_rev_onto s acc) t = str_rev_onto acc (s +:+ t)) as H.
  { clear s. induction s as [|c s IH]; intros acc t; [done|]. cbn [str_rev_onto]. rewrite IH. cbn [str_rev_onto]. by rewrite append_cons. }
  unfold str_rev. rewrite H. cbn [str_rev_onto]. apply append_nil_r.
Qed.

Lemma strip_eq p s r : strip p s = Some r -> s = (p +:+ r)%string.
Proof.
  revert s. induction p as [|c p IH]; intros s; [by intros [= ->]|]. destruct s as [|d s]; [done|]. cbn [strip].
  destruct (Ascii.eqb_spec c d) as [->|]; [|done]. intros Hs%IH. by rewrite Hs.
Qed.

Lemma drop_while_solid n ps c r : Forall hollow ps -> solid c = true -> drop_while n ps (String c r) = String c r.
Proof.
  intros Hps Hc. destruct n; [done|]. cbn [drop_while]. rewrite (proj2 (list_find_None _ _)); [done|].
  eapply Forall_impl; [exact Hps|]. intros p [Hne Hh] [x Hx%strip_eq]. destruct p as [|d p]; [done|]. rewrite append_cons in Hx. injection Hx as <- _.
  cbn [str_forall] in Hh. by rewrite Hc in Hh.
Qed.

(** A hollow prefix ends before the first solid character. *)
Lemma hollow_prefix p a c r s' : str_forall (fun d => negb (solid d)) p = true -> solid c = true -> (a +:+ String c r = p +:+ s')%string ->
  exists a', s' = (a' +:+ String c r)%string.
Proof.
  intros Hp Hc. revert a. induction p as [|d p IH]; intros a He; [by exists a|]. cbn [str_forall] in Hp. apply andb_true_iff in Hp as [Hd Hp].
  destruct a as [|d' a]; [injection He as -> _; by rewrite Hc in Hd|]. rewrite !append_cons in He. injection He as _ He. by apply (IH Hp a).
Qed.

Lemma drop_while_keeps n ps a c r : Forall hollow ps -> solid c = true -> exists b, drop_while n ps (a +:+ String c r) = (b +:+ String c r)%string.
Proof.
  intros Hps Hc. revert a. induction n as [|n IH]; intros a; [by exists a|]. cbn [drop_while].
  destruct (list_find _ ps) as [[i p]|] eqn:Hf; [|by exists a]. apply list_find_Some in Hf as (Hp & _ & _). apply list_elem_of_lookup_2 in Hp.
  destruct (strip p (a +:+ String c r)) as [s'|] eqn:Hs; [|by exists a]. apply strip_eq in Hs.
  rewrite Forall_forall in Hps. destruct (Hps p Hp) as [_ Hh]. destruct (hollow_prefix p a c r s' Hh Hc Hs) as [a' ->]. apply IH.
Qed.

Lemma trim_left_solid c r : solid c = true -> trim_left (String c r) = String c r.
Proof. apply drop_while_solid, spaces_hollow. Qed.

(** Text between two solid characters stays. *)
Lemma TrimSpace_keep c p d z : solid c = true -> solid d = true -> exists y, TrimSpace (String c (p +:+ String d z)) = String c (p +:+ String d y).
Proof.
  intros Hc Hd. unfold TrimSpace. rewrite trim_left_solid by done. unfold trim_right.
  set (n := String.length _). clearbody n. change (String c (p +:+ String d z)) with (String c p +:+ String d z)%string. rewrite str_rev_app.
  assert (forall x, str_rev (String d x) = (str_rev x +:+ String d "")%string) as Hcons by (intros x; apply (str_rev_app (String d "") x)).
  rewrite Hcons, append_assoc. destruct (drop_while_keeps n (map str_rev spaces) (str_rev z) d (str_rev (String c p))) as [b Hb]; [apply spaces_hollow|done|].
  change ("" +:+ ?x)%string with x. rewrite append_cons. change ("" +:+ ?x)%string with x. rewrite Hb. exists (str_rev b).
  rewrite str_rev_app, Hcons, str_rev_involutive, append_assoc. done.
Qed.

Lemma TrimSpace_solid c p d : solid c = true -> solid d = true -> TrimSpace (String c (p +:+ String d "")) = String c (p +:+ String d "").
Proof.
  intros Hc Hd. unfold TrimSpace. rewrite trim_left_solid by done. unfold trim_right. set (n := String.length _). clearbody n.
  change (String c (p +:+ String d "")) with (String c p +:+ String d "")%string. rewrite str_rev_app. change (str_rev (String d "")) with (String d "").
  rewrite append_cons. rewrite drop_while_solid; [|apply spaces_hollow|done].
  change (String d ("" +:+ str_rev (String c p))) with (str_rev (String d "") +:+ str_rev (String c p))%string. by rewrite <- str_rev_app, str_rev_involutive.
Qed.

Lemma TrimSpace_space c p d : solid c = true -> solid d = true -> TrimSpace (String " " (String c (p +:+ String d ""))) = String c (p +:+ String d "").
Proof.
  intros Hc Hd. unfold TrimSpace. assert (forall s, trim_left (String " " (String c s)) = String c s) as ->.
  { intros s. unfold trim_left. change (String.length (String " " (String c s))) with (S (String.length (String c s))). set (n := String.length (String c s)). clearbody n. cbn [drop_while].
    assert (list_find (fun p => is_Some (strip p (String " " (String c s)))) spaces = Some (5%nat, " "%string)) as -> by reflexivity.
    change (strip " " (String " " (String c s))) with (Some (String c s)). cbn iota. apply drop_while_solid; [apply spaces_hollow|done]. }
  pose proof (TrimSpace_solid c p d Hc Hd) as Ht. unfold TrimSpace in Ht. by rewrite trim_left_solid in Ht.
Qed.

(** A line of solid characters is read back without its line break. *)
Lemma str_forall_rev (p : ascii -> bool) s : str_forall p s = true -> str_forall p (str_rev s) = true.
Proof.
  unfold str_rev. assert (forall acc, str_forall p s = true -> str_forall p acc = true -> str_forall p (str_rev_onto s acc) = true) as H; [|intros; by apply H].
  induction s as [|c s IH]; intros acc Hs Ha; [done|]. cbn [str_forall str_rev_onto] in *. apply andb_true_iff in Hs as [Hc Hs]. apply IH; [done|]. cbn [str_forall]. by rewrite Hc.
Qed.

Lemma TrimSpace_line s : str_forall solid s = true -> TrimSpace (s +:+ String "010" "") = s.
Proof.
  intros Hs. destruct s as [|c r]; [vm_compute; reflexivity|]. pose proof Hs as [Hc _]%andb_true_iff. unfold TrimSpace. rewrite append_cons, trim_left_solid by done.
  unfold trim_right. rewrite <- append_cons, length_append, Nat.add_1_r, str_rev_app. change (str_rev (String "010" "")) with (String "010" "").
  rewrite append_cons. set (n := String.length _). clearbody n. set (rest := str_rev (String c r)). cbn [drop_while].
  assert (list_find (fun p => is_Some (strip p (String "010" ("" +:+ rest)))) (map str_rev spaces) = Some (1%nat, String "010" "")) as -> by reflexivity.
  change (strip (String "010" "") (String "010" ("" +:+ rest))) with (Some rest). cbn iota.
  pose proof (str_forall_rev _ _ Hs) as Hr. fold rest in Hr. rewrite <- (str_rev_involutive (String c r)). fold rest. f_equal.
  destruct rest as [|d rest]; [by destruct n|]. cbn [str_forall] in Hr. apply andb_true_iff in Hr as [Hd _]. apply drop_while_solid; [apply spaces_hollow|done].
Qed.
