(* ===== verification/Semver.v ===== *)
(** * Version order ([internal/version/version.go], [internal/agent/version.go])

    [Compare] decides which agent version is newer for self-update, its floor and
    the controller's rollout guard.  It is proved a total preorder, so that these
    checks can be chained. *)

From stdpp Require Import base strings list.
From Stdlib Require Import ZArith Lia Ascii.
From S2P Require Import Prelude GoLib LinkID GoText.

Local Open Scope Z_scope.

(** ** Definitions *)

Definition atoiOrZero (s : string) : Z := default 0 (Atoi (TrimSpace s)).

(** [strings.IndexByte] and the two slices around it. *)
Definition cut_at (c : ascii) (s : string) : string * string := default (s, "") (str_cut c s).

Definition splitVersion (v : string) : string * string :=
  let v := match v with String "v"%char v' => v' | _ => v end in
  let v := (cut_at "+" v).1 in
  cut_at "-" v.

Definition cmp_int (a b : Z) : Z := if a =? b then 0 else if a <? b then -1 else 1.
Definition cmp_str (a b : string) : Z := if String.eqb a b then 0 else if bool_decide (String.le a b) then -1 else 1.

(** The numeric fields in order, for as many rounds as the longer core has; missing
    fields are 0. *)
Definition core_field (l : list string) : Z := match l with [] => 0 | x :: _ => atoiOrZero x end.
Fixpoint cmp_core (n : nat) (a b : list string) : Z :=
  match n with
  | O => 0
  | S n' => let c := cmp_int (core_field a) (core_field b) in if c =? 0 then cmp_core n' (tail a) (tail b) else c
  end.
Definition compareReleaseCore (a b : string) : Z :=
  let xs := split_on "." a in
  let ys := split_on "." b in
  cmp_core (Nat.max (length xs) (length ys)) xs ys.

Definition comparePreField (a b : string) : Z :=
  match Atoi a, Atoi b with
  | Some an, Some bn => cmp_int an bn
  | Some _, None => -1
  | None, Some _ => 1
  | None, None => cmp_str a b
  end.

(** More identifiers win when all shared ones are equal. *)
Fixpoint cmp_pre (a b : list string) : Z :=
  match a, b with
  | [], [] => 0
  | [], _ :: _ => -1
  | _ :: _, [] => 1
  | x :: a', y :: b' => let c := comparePreField x y in if c =? 0 then cmp_pre a' b' else c
  end.
Definition comparePrerelease (a b : string) : Z := cmp_pre (split_on "." a) (split_on "." b).

Definition compare_tagged (preA preB : string) : Z :=
  match preA, preB with
  | "", "" => 0
  | "", _ => 1
  | _, "" => -1
  | _, _ => comparePrerelease preA preB
  end%string.

Definition Compare (a0 b0 : string) : Z :=
  let a := TrimSpace a0 in
  let b := TrimSpace b0 in
  if String.eqb a b then 0
  else if String.eqb a "" then -1
  else if String.eqb b "" then 1
  else
    let c := compareReleaseCore (splitVersion a).1 (splitVersion b).1 in
    if negb (c =? 0) then c
    else compare_tagged (splitVersion a).2 (splitVersion b).2.

Definition compareVersions (a b : string) : Z := Compare a b.
Definition sameVersion (a b : string) : bool := compareVersions a b =? 0.

Example semver_examples :
  (Compare "1.0.0-beta" "v1.0.0", Compare "2.0.0-beta.2" "2.0.0-beta.10", Compare "1.2" "1.2.0+build7", Compare "" "0.0.0-a",
   Compare "1.0.0-alpha.1" "1.0.0-alpha.beta", Compare "1.0.0-rc.1" "1.0.0-rc") = (-1, -1, 0, -1, -1, 1).
Proof. vm_compute. reflexivity. Qed.

(** ** Comparators *)

Class Comparator {A} (f : A -> A -> Z) : Prop := {
  cmp_range x y : -1 <= f x y <= 1;
  cmp_refl x : f x x = 0;
  cmp_flip x y : f y x = - f x y;
  cmp_trans x y z : f x y <= 0 -> f y z <= 0 -> f x z <= 0 }.

(** Equality of a comparator is a congruence for it. *)
Lemma cmp_congr {A} (f : A -> A -> Z) `{!Comparator f} x y z : f x y = 0 -> f x z = f y z.
Proof.
  intros H. pose proof (cmp_flip (f := f) x y). pose proof (cmp_range (f := f) x z). pose proof (cmp_range (f := f) y z).
  pose proof (cmp_flip (f := f) x z). pose proof (cmp_flip (f := f) y z).
  pose proof (cmp_trans (f := f) y x z). pose proof (cmp_trans (f := f) x y z).
  pose proof (cmp_trans (f := f) z x y). pose proof (cmp_trans (f := f) z y x). lia.
Qed.

(** Transitivity of a lexicographic comparison. *)
Lemma cmp_lex {A} (f : A -> A -> Z) `{!Comparator f} x y z (p q r : Z) :
  (p <= 0 -> q <= 0 -> r <= 0) ->
  (if f x y =? 0 then p else f x y) <= 0 -> (if f y z =? 0 then q else f y z) <= 0 -> (if f x z =? 0 then r else f x z) <= 0.
Proof.
  pose proof (cmp_congr f x y z). pose proof (cmp_congr f z y x). pose proof (cmp_congr f x z y).
  pose proof (cmp_flip (f := f) y z). pose proof (cmp_flip (f := f) x z). pose proof (cmp_flip (f := f) x y).
  pose proof (cmp_trans (f := f) x y z).
  destruct (Z.eqb_spec (f x y) 0), (Z.eqb_spec (f y z) 0), (Z.eqb_spec (f x z) 0); lia.
Qed.

(** First one comparator, then another. *)
Definition cmp_then {A} (f g : A -> A -> Z) (x y : A) : Z := if f x y =? 0 then g x y else f x y.

#[export] Instance cmp_then_ok {A} (f g : A -> A -> Z) `{!Comparator f} `{!Comparator g} : Comparator (cmp_then f g).
Proof.
  split; unfold cmp_then.
  - intros x y. pose proof (cmp_range (f := f) x y). pose proof (cmp_range (f := g) x y). destruct (f x y =? 0); lia.
  - intros x. by rewrite cmp_refl, Z.eqb_refl, cmp_refl.
  - intros x y. rewrite (cmp_flip (f := f) x y), (cmp_flip (f := g) x y).
    destruct (Z.eqb_spec (f x y) 0), (Z.eqb_spec (- f x y) 0); lia.
  - intros x y z. apply (cmp_lex f). apply cmp_trans.
Qed.

(** A comparator of images. *)
Definition cmp_on {A B} (h : A -> B) (f : B -> B -> Z) (x y : A) : Z := f (h x) (h y).
#[export] Instance cmp_on_ok {A B} (h : A -> B) (f : B -> B -> Z) `{!Comparator f} : Comparator (cmp_on h f).
Proof.
  split; unfold cmp_on; intros; [apply cmp_range|apply cmp_refl|apply cmp_flip|by eapply cmp_trans].
Qed.

#[export] Instance cmp_int_ok : Comparator cmp_int.
Proof. split; unfold cmp_int; intros; repeat case_match; lia. Qed.

#[export] Instance cmp_str_ok : Comparator cmp_str.
Proof.
  assert (forall x y, cmp_str x y <= 0 <-> String.le x y) as Hle.
  { intros x y. unfold cmp_str. destruct (String.eqb_spec x y) as [->|Hne]; [split; [done|lia]|].
    case_bool_decide; split; (done || lia). }
  split.
  - intros x y. unfold cmp_str. repeat case_match; lia.
  - intros x. unfold cmp_str. by rewrite String.eqb_refl.
  - intros x y. unfold cmp_str. rewrite (String.eqb_sym y x). destruct (String.eqb_spec x y) as [->|Hne]; [done|].
    destruct (total String.le x y) as [H|H]; repeat case_bool_decide; try done; exfalso; apply Hne; by apply (anti_symm String.le).
  - intros x y z. rewrite !Hle. by etrans.
Qed.

#[export] Instance comparePreField_ok : Comparator comparePreField.
Proof.
  split.
  - intros x y. unfold comparePreField. pose proof (cmp_range (f := cmp_str) x y). repeat case_match; try lia. apply cmp_range.
  - intros x. unfold comparePreField. case_match; apply cmp_refl.
  - intros x y. unfold comparePreField. repeat case_match; try lia; apply cmp_flip.
  - intros x y z. unfold comparePreField. destruct (Atoi x), (Atoi y), (Atoi z); try lia; apply cmp_trans.
Qed.

#[export] Instance cmp_pre_ok : Comparator cmp_pre.
Proof.
  split.
  - induction x as [|a x IH]; intros [|b y]; cbn [cmp_pre]; try lia. case_match; [apply IH|apply cmp_range].
  - induction x as [|a x IH]; cbn [cmp_pre]; [done|]. by rewrite cmp_refl.
  - induction x as [|a x IH]; intros [|b y]; cbn [cmp_pre]; try lia. rewrite (cmp_flip a b), IH.
    destruct (Z.eqb_spec (comparePreField a b) 0), (Z.eqb_spec (- comparePreField a b) 0); lia.
  - induction x as [|a x IH]; intros [|b y] [|c z]; cbn [cmp_pre]; try lia. apply (cmp_lex comparePreField). apply IH.
Qed.

#[export] Instance cmp_core_ok n : Comparator (cmp_core n).
Proof.
  induction n as [|n IH]; [split; intros; cbn; lia|].
  exact (cmp_then_ok (cmp_on core_field cmp_int) (cmp_on tail (cmp_core n))).
Qed.

(** More rounds than both cores have fields change nothing. *)
Lemma cmp_core_more n k a b : (length a <= n)%nat -> (length b <= n)%nat -> cmp_core (n + k) a b = cmp_core n a b.
Proof.
  revert a b. induction n as [|n IH]; intros a b Ha Hb.
  - destruct a, b; cbn in *; try lia. clear. induction k as [|k IH]; [done|]. cbn. done.
  - cbn [Nat.add cmp_core]. rewrite IH; [done|destruct a; cbn in *; lia|destruct b; cbn in *; lia].
Qed.

#[export] Instance compareReleaseCore_ok : Comparator compareReleaseCore.
Proof.
  assert (forall N x y, (length (split_on "." x) <= N)%nat -> (length (split_on "." y) <= N)%nat ->
    compareReleaseCore x y = cmp_core N (split_on "." x) (split_on "." y)) as Hup.
  { intros N x y Hx Hy. unfold compareReleaseCore. cbn zeta. set (n := Nat.max _ _).
    replace N with (n + (N - n))%nat by lia. symmetry. apply cmp_core_more; lia. }
  split.
  - intros x y. exact (cmp_range (f := cmp_core _) _ _).
  - intros x. exact (cmp_refl (f := cmp_core _) _).
  - intros x y. unfold compareReleaseCore. cbn zeta. rewrite Nat.max_comm. apply cmp_flip.
  - intros x y z. set (N := Nat.max (length (split_on "." x)) (Nat.max (length (split_on "." y)) (length (split_on "." z)))).
    rewrite !(Hup N) by lia. apply (cmp_trans (f := cmp_core N)).
Qed.

#[export] Instance compare_tagged_ok : Comparator compare_tagged.
Proof.
  assert (forall x y, x <> "" -> y <> "" -> compare_tagged x y = comparePrerelease x y) as Hne by (intros [|? ?] [|? ?]; done).
  assert (forall x, x <> "" -> compare_tagged x "" = -1 /\ compare_tagged "" x = 1) as He by (intros [|? ?]; done).
  assert (Comparator comparePrerelease) as Hp by (exact (cmp_on_ok (split_on ".") cmp_pre)).
  split.
  - intros [|? ?] [|? ?]; try (cbn; lia). rewrite Hne by done. apply cmp_range.
  - intros [|? ?]; [done|]. rewrite Hne by done. apply cmp_refl.
  - intros [|? ?] [|? ?]; try (cbn; lia). rewrite !Hne by done. apply cmp_flip.
  - intros [|? ?] [|? ?] [|? ?]; try (cbn; lia). rewrite !Hne by done. apply cmp_trans.
Qed.

(** Two versions that are not empty. *)
Definition cmp_real : string -> string -> Z :=
  cmp_then (cmp_on (fun v => (splitVersion v).1) compareReleaseCore) (cmp_on (fun v => (splitVersion v).2) compare_tagged).

Lemma Compare_real a b : TrimSpace a <> "" -> TrimSpace b <> "" -> Compare a b = cmp_real (TrimSpace a) (TrimSpace b).
Proof.
  intros Ha Hb. unfold Compare. cbn zeta. destruct (String.eqb_spec (TrimSpace a) (TrimSpace b)) as [->|_]; [symmetry; apply cmp_refl|].
  destruct (String.eqb_spec (TrimSpace a) ""); [done|]. destruct (String.eqb_spec (TrimSpace b) ""); [done|].
  unfold cmp_real, cmp_then, cmp_on. by destruct (compareReleaseCore _ _ =? 0).
Qed.

Lemma Compare_empty a b :
  TrimSpace a = "" -> Compare a b = (if String.eqb (TrimSpace b) "" then 0 else -1) /\ Compare b a = if String.eqb (TrimSpace b) "" then 0 else 1.
Proof.
  intros Ha. unfold Compare. rewrite Ha. cbn zeta. destruct (String.eqb_spec (TrimSpace b) "") as [Hb|Hb]; [by rewrite Hb|].
  destruct (String.eqb_spec "" (TrimSpace b)) as [Hb'|]; [by destruct Hb|done].
Qed.

(** [Compare] orders versions: every two are comparable, reversing the arguments
    negates the answer, and the order is transitive. *)
#[export] Instance Compare_ok : Comparator Compare.
Proof.
  assert (forall a, TrimSpace a = "" \/ TrimSpace a <> "") as Hd by (intros a; destruct (decide (TrimSpace a = "")); auto).
  split.
  - intros a b. destruct (Hd a) as [Ha|Ha]; [|destruct (Hd b) as [Hb|Hb]].
    + destruct (Compare_empty a b Ha) as [-> _]. case_match; lia.
    + destruct (Compare_empty b a Hb) as [_ ->]. case_match; lia.
    + rewrite Compare_real by done. apply cmp_range.
  - intros a. unfold Compare. by rewrite String.eqb_refl.
  - intros a b. destruct (Hd a) as [Ha|Ha]; [|destruct (Hd b) as [Hb|Hb]].
    + destruct (Compare_empty a b Ha) as [-> ->]. by case_match.
    + destruct (Compare_empty b a Hb) as [-> ->]. by case_match.
    + rewrite !Compare_real by done. apply cmp_flip.
  - intros a b c. destruct (Hd a) as [Ha|Ha], (Hd b) as [Hb|Hb], (Hd c) as [Hc|Hc];
      repeat match goal with
      | H : TrimSpace ?x = "" |- context [Compare ?x ?y] => rewrite (proj1 (Compare_empty x y H))
      | H : TrimSpace ?x = "" |- context [Compare ?y ?x] => rewrite (proj2 (Compare_empty x y H))
      end; rewrite ?Compare_real by done; repeat match goal with |- context [String.eqb (TrimSpace ?x) ""] => destruct (String.eqb_spec (TrimSpace x) ""); try done end; try lia.
    apply cmp_trans.
Qed.

(** [Compare] is a total preorder on version strings, with the empty version
    below all others: its answer is -1, 0 or 1, swapping the arguments negates it, it
    is transitive, and versions it calls equal compare alike to any third. *)
Theorem compare_order a b c :
  (-1 <= Compare a b <= 1) /\ Compare b a = - Compare a b /\ (Compare a b <= 0 -> Compare b c <= 0 -> Compare a c <= 0) /\
  (Compare a b = 0 -> Compare a c = Compare b c) /\ Compare "" a <= 0.
Proof.
  split_and!; [apply cmp_range..|apply cmp_flip|apply cmp_trans|apply cmp_congr, _|].
  destruct (Compare_empty "" a) as [-> _]; [done|]. case_match; lia.
Qed.
