(* ===== verification/GoJSON.v ===== *)
(** * [encoding/json] strings and integers

    What [json.Encoder] writes for a string with HTML escaping off, and a reader
    that gets the string back, so that an encoding determines the text. *)

From stdpp Require Import base strings list.
From Stdlib Require Import ZArith Lia Ascii.
From S2P Require Import Prelude GoLib LinkID.

Local Open Scope Z_scope.

Definition quote : ascii := "034"%char.
Definition backslash : ascii := "092"%char.
Definition dq : string := String quote "".

Definition hex_digit (v : Z) : ascii := digit_of v.
Definition escape_u (a b c d : ascii) : string := String backslash (String "u" (String a (String b (String c (String d ""))))).

(** One byte below 128. *)
Definition escape_ascii (c : ascii) : string :=
  let v := byte_val c in
  if (v =? 34) || (v =? 92) then String backslash (String c "")
  else if v =? 8 then String backslash "b"
  else if v =? 12 then String backslash "f"
  else if v =? 10 then String backslash "n"
  else if v =? 13 then String backslash "r"
  else if v =? 9 then String backslash "t"
  else if v <? 32 then escape_u "0" "0" (hex_digit (v / 16)) (hex_digit (v mod 16))
  else String c "".

(** U+2028 and U+2029 in UTF-8. *)
Definition line_separator (c : ascii) (rest : string) : option ascii :=
  match rest with
  | String c1 (String c2 _) =>
      if (byte_val c =? 226) && (byte_val c1 =? 128) then
        if byte_val c2 =? 168 then Some "8"%char else if byte_val c2 =? 169 then Some "9"%char else None
      else None
  | _ => None
  end.

(** [skip] bytes of the current rune are left: copied if [copy], else dropped. *)
Fixpoint json_chars (skip : nat) (copy : bool) (s : string) : string :=
  match s with
  | EmptyString => ""
  | String c rest =>
      match skip with
      | S k => if copy then String c (json_chars k copy rest) else json_chars k copy rest
      | O =>
          if byte_val c <? 128 then (escape_ascii c +:+ json_chars 0 true rest)%string
          else
            let '(r, n) := decode_rune c rest in
            if (r =? rune_error) && (n =? 0)%nat then (escape_u "f" "f" "f" "d" +:+ json_chars 0 true rest)%string
            else match line_separator c rest with
                 | Some d => (escape_u "2" "0" "2" d +:+ json_chars n false rest)%string
                 | None => String c (json_chars n true rest)
                 end
      end
  end.

Definition json_string (s : string) : string := (dq +:+ json_chars 0 true s +:+ dq)%string.
Definition json_key (k : string) : string := (dq +:+ k +:+ dq +:+ ":")%string.

(** [utf8.ValidString] *)
Fixpoint valid_skip (skip : nat) (s : string) : bool :=
  match s with
  | EmptyString => true
  | String c rest =>
      match skip with
      | S k => valid_skip k rest
      | O => let '(r, n) := decode_rune c rest in
             if (r =? rune_error) && (n =? 0)%nat then false else valid_skip n rest
      end
  end.
Definition ValidString (s : string) : bool := valid_skip 0 s.

Example json_escapes :
  json_chars 0 true (string_of_bytes [97; 34; 92; 10; 7; 60; 127; 226; 128; 168; 195; 169; 255]) =
  string_of_bytes [97; 92; 34; 92; 92; 92; 110; 92; 117; 48; 48; 48; 55; 60; 127; 92; 117; 50; 48; 50; 56; 195; 169; 92; 117; 102; 102; 102; 100].
Proof. vm_compute. reflexivity. Qed.

(** ** Reading it back *)

Definition hex2 (a b : ascii) : option ascii :=
  match hex_val a, hex_val b with Some x, Some y => Some (byte_of (16 * x + y)) | _, _ => None end.

(** The text up to the closing quote, and what follows it. *)
Fixpoint unquote (s : string) : option (string * string) :=
  match s with
  | EmptyString => None
  | String c rest =>
      if Ascii.eqb c quote then Some ("", rest)%string
      else if Ascii.eqb c backslash then
        match rest with
        | String "b" r => prod_map (String "008") id <$> unquote r
        | String "f" r => prod_map (String "012") id <$> unquote r
        | String "n" r => prod_map (String "010") id <$> unquote r
        | String "r" r => prod_map (String "013") id <$> unquote r
        | String "t" r => prod_map (String "009") id <$> unquote r
        | String "u" (String "0" (String "0" (String a (String b r)))) =>
            match hex2 a b with Some x => prod_map (String x) id <$> unquote r | None => None end
        | String "u" (String "2" (String "0" (String "2" (String d r)))) =>
            prod_map (fun s => String "226" (String "128" (String (if Ascii.eqb d "8" then "168" else "169")%char s))) id <$> unquote r
        | String x r => prod_map (String x) id <$> unquote r
        | EmptyString => None
        end
      else prod_map (String c) id <$> unquote rest
  end.

(** Continuation bytes follow a rune. *)
Fixpoint high_bytes (k : nat) (s : string) : bool :=
  match k, s with
  | O, _ => true
  | S k', String c s' => (128 <=? byte_val c) && high_bytes k' s'
  | S _, EmptyString => false
  end.

Lemma cont_byte_high c : cont_byte c = true -> 128 <=? byte_val c = true.
Proof. unfold cont_byte. intros [? _]%andb_true_iff. done. Qed.

Lemma decode_rune_high c rest r n : decode_rune c rest = (r, n) -> high_bytes n rest = true.
Proof.
  unfold decode_rune. repeat case_match; intros [= <- <-]; try done; cbn [high_bytes];
    repeat match goal with H : _ && _ = true |- _ => apply andb_true_iff in H as [? ?] end;
    repeat match goal with H : cont_byte _ = true |- _ => apply cont_byte_high in H end;
    repeat match goal with H : (_ <=? _) = true |- _ => rewrite H end; try done;
    repeat match goal with H : (?a <=? _) = true |- _ => apply Z.leb_le in H end;
    repeat match goal with |- context [?a <=? ?b] => destruct (Z.leb_spec a b); try lia end; done.
Qed.

Lemma unquote_plain c s : 128 <=? byte_val c = true -> unquote (String c s) = prod_map (String c) id <$> unquote s.
Proof. intros Hc. destruct c as [[] [] [] [] [] [] [] []]; done. Qed.

Lemma unquote_escape c s : byte_val c <? 128 = true -> unquote (escape_ascii c +:+ s) = prod_map (String c) id <$> unquote s.
Proof. intros Hc. destruct c as [[] [] [] [] [] [] [] []]; done. Qed.

Lemma line_separator_bytes c rest d :
  line_separator c rest = Some d ->
  exists rest', rest = String "128" (String (if Ascii.eqb d "8" then "168" else "169")%char rest') /\ c = "226"%char /\
    decode_rune c rest = (if Ascii.eqb d "8" then 8232 else 8233, 2%nat).
Proof.
  assert (forall (x : ascii) v, byte_val x =? Z.of_nat v = true -> (v < 256)%nat -> x = ascii_of_nat v) as Hb.
  { intros x v H Hv. apply Z.eqb_eq in H. unfold byte_val in H. rewrite <- (ascii_nat_embedding x). f_equal. lia. }
  unfold line_separator. destruct rest as [|c1 [|c2 rest]]; try done.
  destruct (byte_val c =? 226) eqn:E; [|done]. destruct (byte_val c1 =? 128) eqn:E1; [|done]. cbn [andb].
  apply (Hb _ 226%nat) in E; [|lia]. apply (Hb _ 128%nat) in E1; [|lia]. subst.
  destruct (byte_val c2 =? 168) eqn:E2; [apply (Hb _ 168%nat) in E2; [|lia]; subst; intros [= <-]; by eexists|].
  destruct (byte_val c2 =? 169) eqn:E3; [|done]. apply (Hb _ 169%nat) in E3; [|lia]. subst. intros [= <-]. by eexists.
Qed.

Lemma unquote_separator d s :
  unquote (escape_u "2" "0" "2" d +:+ s) =
  prod_map (fun s => String "226" (String "128" (String (if Ascii.eqb d "8" then "168" else "169")%char s))) id <$> unquote s.
Proof. done. Qed.

Lemma unquote_json_chars s k r :
  valid_skip k s = true -> high_bytes k s = true -> unquote (json_chars k true s +:+ String quote r) = Some (s, r).
Proof.
  enough (forall n s k, (String.length s <= n)%nat -> valid_skip k s = true -> high_bytes k s = true -> unquote (json_chars k true s +:+ String quote r) = Some (s, r)) as H by (apply (H (String.length s)); done).
  clear. induction n as [|n IH]; intros s k Hlen Hv Hh; destruct s as [|c rest]; cbn [String.length] in Hlen; [destruct k; done|lia|destruct k; done|].
  cbn [json_chars]. destruct k as [|k].
  - cbn [valid_skip] in Hv. destruct (byte_val c <? 128) eqn:Ec.
    + rewrite append_assoc, unquote_escape by done.
      assert (decode_rune c rest = (byte_val c, 0%nat)) as Hd by (unfold decode_rune; by rewrite Ec). rewrite Hd in Hv.
      destruct (Z.eqb_spec (byte_val c) rune_error) as [E|_]; [apply Z.ltb_lt in Ec; unfold rune_error in E; lia|].
      by rewrite (IH rest 0%nat) by (done || lia).
    + destruct (decode_rune c rest) as [rn m] eqn:Hd. destruct ((rn =? rune_error) && (m =? 0)%nat) eqn:He; [done|].
      destruct (line_separator c rest) as [d|] eqn:Hl.
      * apply line_separator_bytes in Hl as (rest' & -> & -> & Hd'). rewrite Hd in Hd'. injection Hd' as _ ->. cbn [valid_skip] in Hv.
        cbn [json_chars]. rewrite append_assoc, unquote_separator.
        assert (json_chars 0 false rest' = json_chars 0 true rest') as -> by (by destruct rest').
        rewrite (IH rest' 0%nat); [done|cbn [String.length] in Hlen; lia|done|done].
      * rewrite append_cons, unquote_plain by (apply Z.leb_le; apply Z.ltb_ge in Ec; done). rewrite IH; [done|lia|done|].
        by eapply decode_rune_high.
  - cbn [high_bytes] in Hh. apply andb_true_iff in Hh as [Hc Hh]. rewrite append_cons, unquote_plain by done. by rewrite (IH rest k) by (done || lia).
Qed.

(** A quoted string ends at its own closing quote. *)
Lemma json_string_inj s s' r r' :
  ValidString s = true -> ValidString s' = true -> (json_string s +:+ r = json_string s' +:+ r')%string -> s = s' /\ r = r'.
Proof.
  intros Hs Hs' H. unfold json_string, dq in H. rewrite !append_assoc, !append_cons in H. cbn in H. injection H as H.
  assert (unquote (json_chars 0 true s +:+ String quote r) = Some (s, r)) as H1 by (by apply unquote_json_chars).
  assert (unquote (json_chars 0 true s' +:+ String quote r') = Some (s', r')) as H2 by (by apply unquote_json_chars).
  assert (Some (s, r) = Some (s', r')) as [= -> ->]; [|done]. rewrite <- H1, <- H2. f_equal. exact H.
Qed.

(** A decimal number ends at the first byte that is not a digit. *)
Fixpoint take_digits (s : string) : string * string :=
  match s with
  | EmptyString => ("", "")%string
  | String c s' => if is_digit c then prod_map (String c) id (take_digits s') else ("", s)%string
  end.

Definition stops (r : string) : Prop := match r with String c _ => is_digit c = false | EmptyString => True end.

Lemma take_digits_app a r : str_forall is_digit a = true -> stops r -> take_digits (a +:+ r) = (a, r).
Proof.
  induction a as [|c a IH]; cbn [str_forall]; intros Ha Hr.
  - change ("" +:+ r)%string with r. destruct r as [|c r]; [done|]. cbn [take_digits]. by rewrite Hr.
  - apply andb_true_iff in Ha as [Hc Ha]. rewrite append_cons. cbn [take_digits]. by rewrite Hc, IH.
Qed.

Lemma strconv_Itoa_inj a b r r' : stops r -> stops r' -> (strconv_Itoa a +:+ r = strconv_Itoa b +:+ r')%string -> a = b /\ r = r'.
Proof.
  intros Hr Hr'. assert (forall n, exists c t, itoa10 (Z.abs n) = String c t /\ is_digit c = true /\ str_forall is_digit (itoa10 (Z.abs n)) = true) as Hd
    by (intros n; apply itoa10_cons; lia).
  assert (forall m n, (itoa10 (Z.abs m) +:+ r = itoa10 (Z.abs n) +:+ r')%string -> Z.abs m = Z.abs n /\ r = r') as Hpos.
  { intros m n H. apply (f_equal take_digits) in H. destruct (Hd m) as (_ & _ & _ & _ & Hm), (Hd n) as (_ & _ & _ & _ & Hn).
    rewrite !take_digits_app in H by done. injection H as H ->. split; [|done]. apply itoa10_inj; [lia..|done]. }
  unfold strconv_Itoa. destruct (Z.ltb_spec a 0), (Z.ltb_spec b 0); intros H'.
  - rewrite !append_cons in H'. injection H' as H'. destruct (Hpos a b); [rewrite !Z.abs_neq by lia; exact H'|split; [lia|done]].
  - exfalso. destruct (Hd b) as (c & t & Hb & Hc & _). rewrite Z.abs_eq in Hb by lia. rewrite Hb, !append_cons in H'. injection H' as <- _. done.
  - exfalso. destruct (Hd a) as (c & t & Ha & Hc & _). rewrite Z.abs_eq in Ha by lia. rewrite Ha, !append_cons in H'. injection H' as -> _. done.
  - destruct (Hpos a b); [rewrite !Z.abs_eq by lia; exact H'|split; [lia|done]].
Qed.
