(* ===== verification/GoBase64.v ===== *)
(** * [encoding/base64]

    [RawURLEncoding] and the decoder of [StdEncoding], over byte values.  Both
    decoders skip line breaks and leave unused low bits unchecked, as Go's do. *)

From stdpp Require Import base strings list.
From Stdlib Require Import ZArith Lia Ascii.
From S2P Require Import Prelude GoLib LinkID GoText.

Local Open Scope Z_scope.

Definition is_byte (b : Z) : Prop := 0 <= b < 256.

(** ** Groups of six bits *)

Fixpoint to_sextets (bs : list Z) : list Z :=
  match bs with
  | a :: b :: c :: rest => a / 4 :: a mod 4 * 16 + b / 16 :: b mod 16 * 4 + c / 64 :: c mod 64 :: to_sextets rest
  | [a; b] => [a / 4; a mod 4 * 16 + b / 16; b mod 16 * 4]
  | [a] => [a / 4; a mod 4 * 16]
  | [] => []
  end.

Fixpoint of_sextets (vs : list Z) : option (list Z) :=
  match vs with
  | a :: b :: c :: d :: rest => (fun bs => a * 4 + b / 16 :: b mod 16 * 16 + c / 4 :: c mod 4 * 64 + d :: bs) <$> of_sextets rest
  | [a; b; c] => Some [a * 4 + b / 16; b mod 16 * 16 + c / 4]
  | [a; b] => Some [a * 4 + b / 16]
  | [_] => None
  | [] => Some []
  end.

Lemma of_to_sextets bs : Forall is_byte bs -> of_sextets (to_sextets bs) = Some bs.
Proof.
  assert (forall a, is_byte a -> a / 4 * 4 + a mod 4 = a) as H4 by (intros a ?; pose proof (Z.div_mod a 4); lia).
  assert (forall n bs, (length bs <= n)%nat -> Forall is_byte bs -> of_sextets (to_sextets bs) = Some bs) as H; [|apply (H (length bs)); done].
  clear bs. induction n as [|n IH]; intros bs Hn Hf; destruct bs as [|a [|b [|c rest]]]; cbn [length] in Hn; try lia; try done;
    repeat match goal with H : Forall _ (_ :: _) |- _ => inversion_clear H end; unfold is_byte in *; cbn [to_sextets of_sextets].
  - repeat f_equal. Z.div_mod_to_equations; lia.
  - repeat f_equal; Z.div_mod_to_equations; lia.
  - rewrite IH by (done || lia). cbn [fmap option_fmap option_map]. repeat f_equal; Z.div_mod_to_equations; lia.
Qed.

Lemma to_sextets_range bs : Forall is_byte bs -> Forall (fun v => 0 <= v < 64) (to_sextets bs).
Proof.
  assert (forall n bs, (length bs <= n)%nat -> Forall is_byte bs -> Forall (fun v => 0 <= v < 64) (to_sextets bs)) as H; [|apply (H (length bs)); done].
  clear bs. induction n as [|n IH]; intros bs Hn Hf; destruct bs as [|a [|b [|c rest]]]; cbn [length] in Hn; try lia; try (constructor; fail);
    repeat match goal with H : Forall _ (_ :: _) |- _ => inversion_clear H end; unfold is_byte in *; cbn [to_sextets];
    repeat constructor; try (Z.div_mod_to_equations; lia). all: apply IH; (done || lia).
Qed.

(** ** Alphabets *)

Definition b64_char (c62 c63 : ascii) (v : Z) : ascii :=
  if v <? 26 then byte_of (v + 65) else if v <? 52 then byte_of (v + 71) else if v <? 62 then byte_of (v - 4) else if v =? 62 then c62 else c63.
Definition b64_val (c62 c63 c : ascii) : option Z :=
  if is_upper c then Some (byte_val c - 65) else if is_lower c then Some (byte_val c - 71) else if is_digit c then Some (byte_val c + 4)
  else if Ascii.eqb c c62 then Some 62 else if Ascii.eqb c c63 then Some 63 else None.

Definition url_char : Z -> ascii := b64_char "-" "_".
Definition url_val : ascii -> option Z := b64_val "-" "_".
Definition std_val : ascii -> option Z := b64_val "+" "/".

(** What a test finds for every value below 64. *)
Lemma below_64 (p : Z -> bool) v : forallb p (map Z.of_nat (seq 0 64)) = true -> 0 <= v < 64 -> p v = true.
Proof.
  rewrite forallb_forall. intros H Hv. apply H, in_map_iff. exists (Z.to_nat v). split; [lia|]. apply in_seq. lia.
Qed.

Lemma url_val_char v : 0 <= v < 64 -> url_val (url_char v) = Some v.
Proof.
  intros Hv. apply (below_64 (fun v => bool_decide (url_val (url_char v) = Some v))) in Hv; [by apply bool_decide_eq_true in Hv|].
  vm_compute. reflexivity.
Qed.

Fixpoint str_of (cs : list ascii) : string := match cs with [] => "" | c :: cs' => String c (str_of cs') end.
Fixpoint chars (s : string) : list ascii := match s with EmptyString => [] | String c s' => c :: chars s' end.
Lemma chars_str_of cs : chars (str_of cs) = cs.
Proof. induction cs as [|c cs IH]; cbn; [done|by rewrite IH]. Qed.

Definition is_break (c : ascii) : bool := (byte_val c =? 10) || (byte_val c =? 13).
Definition skip_breaks (cs : list ascii) : list ascii := filter (fun c => is_break c = false) cs.

(** ** The encodings *)

Definition RawURL_EncodeToString (bs : list Z) : string := str_of (map url_char (to_sextets bs)).
Definition RawURL_DecodeString (s : string) : option (list Z) := mapM url_val (skip_breaks (chars s)) ≫= of_sextets.

(** The padding of [StdEncoding]: one or two [=] complete the last group of four. *)
Definition unpad (cs : list ascii) : option (list ascii) :=
  if negb (Nat.eqb (length cs mod 4) 0) then None
  else match rev cs with
       | "="%char :: "="%char :: rest => Some (rev rest)
       | "="%char :: rest => Some (rev rest)
       | _ => Some cs
       end.
Definition Std_DecodeString (s : string) : option (list Z) :=
  unpad (skip_breaks (chars s)) ≫= fun cs => mapM std_val cs ≫= of_sextets.

Example base64_examples :
  (RawURL_EncodeToString [251; 255; 0; 7], RawURL_DecodeString "-_8ABw", RawURL_DecodeString "-_8AB", Std_DecodeString "+/8ABw==", Std_DecodeString "+/8ABw=") =
  ("-_8ABw"%string, Some [251; 255; 0; 7], None, Some [251; 255; 0; 7], None).
Proof. vm_compute. reflexivity. Qed.

Lemma url_chars_read vs : Forall (fun v => 0 <= v < 64) vs -> mapM url_val (skip_breaks (map url_char vs)) = Some vs.
Proof.
  unfold skip_breaks. induction 1 as [|v vs Hv _ IH]; [done|]. cbn [map]. rewrite filter_cons_True.
  - cbn [mapM]. rewrite url_val_char by done. cbn. by rewrite IH.
  - apply negb_true_iff. by apply (below_64 (fun v => negb (is_break (url_char v)))).
Qed.

Lemma RawURL_round_trip bs : Forall is_byte bs -> RawURL_DecodeString (RawURL_EncodeToString bs) = Some bs.
Proof.
  intros Hb. unfold RawURL_DecodeString, RawURL_EncodeToString. rewrite chars_str_of, url_chars_read by (by apply to_sextets_range).
  cbn. by apply of_to_sextets.
Qed.

Lemma RawURL_EncodeToString_inj bs bs' :
  Forall is_byte bs -> Forall is_byte bs' -> RawURL_EncodeToString bs = RawURL_EncodeToString bs' -> bs = bs'.
Proof. intros Hb Hb' H. apply (f_equal RawURL_DecodeString) in H. rewrite !RawURL_round_trip in H by done. by injection H. Qed.

(** ** [StdEncoding.EncodeToString] *)

Definition std_char : Z -> ascii := b64_char "+" "/".
Definition padding (n : nat) : list ascii := match n mod 4 with 2 => ["="; "="]%char | 3 => ["="%char] | _ => [] end%nat.
Definition Std_EncodeToString (bs : list Z) : string := let vs := to_sextets bs in str_of (map std_char vs ++ padding (length vs)).

Lemma std_char_facts v : 0 <= v < 64 -> std_val (std_char v) = Some v /\ is_break (std_char v) = false /\ std_char v <> "="%char.
Proof.
  intros Hv. apply (below_64 (fun v => bool_decide (std_val (std_char v) = Some v) && negb (is_break (std_char v)) && negb (Ascii.eqb (std_char v) "="))) in Hv;
    [|vm_compute; reflexivity].
  apply andb_true_iff in Hv as [[H1 H2]%andb_true_iff H3]. apply bool_decide_eq_true in H1. apply negb_true_iff in H2, H3. split; [done|]. split; [done|]. by apply Ascii.eqb_neq.
Qed.

Lemma std_chars_read vs : Forall (fun v => 0 <= v < 64) vs -> mapM std_val (map std_char vs) = Some vs.
Proof. induction 1 as [|v vs Hv _ IH]; [done|]. cbn [map mapM]. destruct (std_char_facts v Hv) as (-> & _). cbn. by rewrite IH. Qed.
Lemma std_no_breaks vs pad : Forall (fun v => 0 <= v < 64) vs -> Forall (fun c => is_break c = false) pad -> skip_breaks (map std_char vs ++ pad) = map std_char vs ++ pad.
Proof.
  intros Hvs Hpad. assert (Forall (fun c => is_break c = false) (map std_char vs ++ pad)) as H.
  { apply Forall_app. split; [|done]. apply Forall_fmap. eapply Forall_impl; [exact Hvs|]. intros v Hv. by destruct (std_char_facts v Hv) as (_ & ? & _). }
  unfold skip_breaks. induction H as [|c cs Hc _ IH]; [done|]. rewrite filter_cons_True by done. by rewrite IH.
Qed.

Lemma to_sextets_length bs : (length (to_sextets bs) mod 4 <> 1)%nat.
Proof.
  assert (forall n bs, (length bs <= n)%nat -> (length (to_sextets bs) mod 4 <> 1)%nat) as H; [|apply (H (length bs)); done].
  clear bs. induction n as [|n IH]; intros bs Hn; destruct bs as [|a [|b [|c rest]]]; cbn [length] in Hn; try lia; try done.
  cbn [to_sextets length]. change (S (S (S (S (length (to_sextets rest)))))) with (4 + length (to_sextets rest))%nat.
  rewrite <- (Nat.Div0.add_mod_idemp_l 4). change (4 mod 4)%nat with 0%nat. apply IH. lia.
Qed.

Lemma unpad_padding vs : Forall (fun v => 0 <= v < 64) vs -> (length vs mod 4 <> 1)%nat -> unpad (map std_char vs ++ padding (length vs)) = Some (map std_char vs).
Proof.
  intros Hvs Hl. pose proof (Nat.mod_upper_bound (length vs) 4 ltac:(lia)) as Hb. unfold unpad, padding. rewrite length_app, length_map, rev_app_distr.
  assert (forall k, ((length vs + k) mod 4 = (length vs mod 4 + k) mod 4)%nat) as Hm by (intros k; by rewrite Nat.Div0.add_mod_idemp_l).
  destruct (length vs mod 4)%nat as [|[|[|[|r]]]] eqn:E; try lia.
  - cbn [length]. rewrite Hm. change (negb (Nat.eqb ((0 + 0) mod 4) 0)) with false. cbn iota. cbn [rev app]. rewrite app_nil_r, <- map_rev.
    destruct (rev vs) as [|v r] eqn:Er; [done|]. assert (Forall (fun v => 0 <= v < 64) (v :: r)) as [Hv _]%Forall_cons by (rewrite <- Er; by apply Forall_rev).
    cbn [map]. destruct (std_char_facts v Hv) as (_ & _ & Hne). destruct (std_char v) as [[] [] [] [] [] [] [] []]; done.
  - cbn [length]. rewrite Hm. change (negb (Nat.eqb ((2 + 2) mod 4) 0)) with false. cbn iota. cbn [rev app]. by rewrite rev_involutive.
  - cbn [length]. rewrite Hm. change (negb (Nat.eqb ((3 + 1) mod 4) 0)) with false. cbn iota. cbn [rev app]. rewrite <- (rev_involutive (map std_char vs)) at 2. rewrite <- map_rev.
    destruct (rev vs) as [|v r] eqn:Er; [by apply (f_equal length) in Er; rewrite length_rev in Er; rewrite Er in E|].
    assert (Forall (fun v => 0 <= v < 64) (v :: r)) as [Hv _]%Forall_cons by (rewrite <- Er; by apply Forall_rev).
    cbn [map]. destruct (std_char_facts v Hv) as (_ & _ & Hne). destruct (std_char v) as [[] [] [] [] [] [] [] []]; done.
Qed.

Lemma Std_round_trip bs : Forall is_byte bs -> Std_DecodeString (Std_EncodeToString bs) = Some bs.
Proof.
  intros Hb. pose proof (to_sextets_range bs Hb) as Hr. unfold Std_DecodeString, Std_EncodeToString. cbn zeta. rewrite chars_str_of, std_no_breaks by
    (try done; unfold padding; destruct (_ mod 4)%nat as [|[|[|[|?]]]]; repeat constructor).
  rewrite unpad_padding by (done || apply to_sextets_length). cbn [mbind option_bind]. rewrite std_chars_read by done. cbn. by apply of_to_sextets.
Qed.

Lemma Std_solid bs : Forall is_byte bs -> str_forall solid (Std_EncodeToString bs) = true.
Proof.
  intros Hb. pose proof (to_sextets_range bs Hb) as Hr. unfold Std_EncodeToString. cbn zeta.
  assert (Forall (fun c => solid c = true) (map std_char (to_sextets bs) ++ padding (length (to_sextets bs)))) as H.
  { apply Forall_app. split; [apply Forall_fmap; eapply Forall_impl; [exact Hr|]; intros v Hv|unfold padding; destruct (_ mod 4)%nat as [|[|[|[|?]]]]; repeat constructor].
    apply (below_64 (fun v => solid (std_char v))); [vm_compute; reflexivity|done]. }
  induction H as [|c cs Hc _ IH]; [done|]. cbn [str_of str_forall]. by rewrite Hc.
Qed.

(** A line with an encoding is decoded after trimming. *)
Lemma Std_line bs : Forall is_byte bs -> Std_DecodeString (TrimSpace (Std_EncodeToString bs +:+ String "010" "")) = Some bs.
Proof. intros Hb. rewrite TrimSpace_line by (by apply Std_solid). by apply Std_round_trip. Qed.
