(* ===== verification/TrustList.v ===== *)
(** * Trust lists ([internal/trustlist], [bundlesig.Verify])

    The document an operator signs off-host, its canonical bytes, and the
    verification of the two kinds of signature over them: a raw Ed25519 signature
    and a WebAuthn assertion whose challenge is the hash of the bytes. *)

From stdpp Require Import base strings list sorting.
From Stdlib Require Import ZArith Lia Ascii.
From S2P Require Import Prelude GoLib GoSha LinkID GoJSON GoBase64.

Local Open Scope Z_scope.
Local Open Scope go_scope.

(** ** Documents *)

Record Member := mkMember { M_NodeID : string; M_WGPublicKey : string; M_BundleSHA256 : string }.
Record TrustList := mkTrustList { TL_SchemaVersion : Z; TL_Tenant : string; TL_Epoch : Z; TL_Members : list Member }.

#[export] Instance Member_eq_dec : EqDecision Member.
Proof. solve_decision. Defined.

Record SignedTrustList := mkSigned {
  S_Alg : string; S_CredentialID : string; S_PublicKey : string; S_Signature : string;
  S_AuthenticatorData : string; S_ClientDataJSON : string }.

Definition AlgEd25519 : string := "ed25519".
Definition AlgWebAuthnES256 : string := "webauthn-es256".
Definition AlgWebAuthnEdDSA : string := "webauthn-eddsa".

Inductive tl_error :=
| ErrAlgMismatch (pinned artifact : string)
| ErrUnsupportedAlg (alg : string)
| ErrBadSignature
| ErrChallengeMismatch
| ErrMissingPin
| ErrUserVerification
| TLError (msg : string).

(** ** Canonical bytes *)

Definition member_le (a b : Member) : Prop := String.le (M_NodeID a) (M_NodeID b).
#[export] Instance member_le_dec : RelDecision member_le.
Proof. intros a b. unfold member_le. apply _. Defined.
#[export] Instance member_le_total : Total member_le.
Proof. intros a b. unfold member_le. apply (total String.le). Qed.
#[export] Instance member_le_trans : Transitive member_le.
Proof. intros a b c. unfold member_le. by etrans. Qed.

Fixpoint adjacent_dup (ms : list Member) : option string :=
  match ms with
  | a :: ((b :: _) as rest) => if String.eqb (M_NodeID b) (M_NodeID a) then Some (M_NodeID b) else adjacent_dup rest
  | _ => None
  end.

Definition json_member (m : Member) : string :=
  ("{" +:+ json_key "node_id" +:+ json_string (M_NodeID m) +:+
   "," +:+ json_key "wg_public_key" +:+ json_string (M_WGPublicKey m) +:+
   "," +:+ json_key "bundle_sha256" +:+ json_string (M_BundleSHA256 m) +:+ "}")%string.

Fixpoint json_members (ms : list Member) : string :=
  match ms with
  | [] => ""
  | [m] => json_member m
  | m :: rest => (json_member m +:+ "," +:+ json_members rest)%string
  end.

Definition newline_str : string := String "010" "".

Definition json_trustlist (tl : TrustList) : string :=
  ("{" +:+ json_key "schema_version" +:+ strconv_Itoa (TL_SchemaVersion tl) +:+
   "," +:+ json_key "tenant" +:+ json_string (TL_Tenant tl) +:+
   "," +:+ json_key "epoch" +:+ strconv_Itoa (TL_Epoch tl) +:+
   "," +:+ json_key "members" +:+ "[" +:+ json_members (TL_Members tl) +:+ "]" +:+ "}" +:+ newline_str)%string.

Definition sorted_members (tl : TrustList) : list Member := merge_sort member_le (TL_Members tl).

Definition Canonical (tl : TrustList) : result tl_error string :=
  let members := sorted_members tl in
  match adjacent_dup members with
  | Some _ => Err (TLError "trustlist: duplicate node_id")
  | None => Ok (json_trustlist (mkTrustList (TL_SchemaVersion tl) (TL_Tenant tl) (TL_Epoch tl) members))
  end.

Definition Challenge (tl : TrustList) : result tl_error (list Z) :=
  match Canonical tl with Err e => Err e | Ok c => Ok (sha256_sum (bytes_of c)) end.

(** ** Signatures *)

(** What the source takes from [crypto], [x509], [pem] and [json.Unmarshal]. *)
Record clientData := mkClientData { CD_Type : string; CD_Challenge : string; CD_Origin : string }.

Class Crypto := {
  ECKey : Type;
  on_P256 : ECKey -> bool;
  ed25519_Verify : list Z -> list Z -> list Z -> bool;
  ecdsa_VerifyASN1 : ECKey -> list Z -> list Z -> bool;
  parse_ed25519_pem : string -> option (list Z);
  parse_ecdsa_pem : string -> option ECKey;
  unmarshal_clientData : list Z -> option clientData;
  unmarshal_challenge : list Z -> option string }.

Section Verification.
Context `{Crypto}.

Record PinnedCredential := mkPin {
  P_Alg : string; P_CredentialID : string; P_Ed25519Pub : list Z; P_ES256Pub : option ECKey; P_RPID : string; P_Origin : string }.

(** [bundlesig.Verify] *)
Definition sig_Verify (canonical sig pub : list Z) : bool :=
  if negb (Nat.eqb (length pub) 32) || negb (Nat.eqb (length sig) 64) then false else ed25519_Verify pub canonical sig.

Definition ParseEd25519PinPEM (data : string) : result tl_error (list Z) :=
  match parse_ed25519_pem data with Some pub => Ok pub | None => Err (TLError "trustlist: ed25519 pin") end.
Definition ParseES256Pin (data : string) : result tl_error ECKey :=
  match parse_ecdsa_pem data with
  | None => Err (TLError "trustlist: ES256 pin")
  | Some pub => if on_P256 pub then Ok pub else Err (TLError "trustlist: ES256 pin is not on P-256")
  end.

Definition verifyEd25519 (tl : TrustList) (art : SignedTrustList) (pin : PinnedCredential) : result tl_error unit :=
  match P_Ed25519Pub pin with
  | [] => Err ErrMissingPin
  | _ =>
      let! c := Canonical tl in
      match RawURL_DecodeString (S_Signature art) with
      | None => Err (TLError "trustlist: decode ed25519 signature")
      | Some sig => if sig_Verify (bytes_of c) sig (P_Ed25519Pub pin) then Ok tt else Err ErrBadSignature
      end
  end.

(** Accumulates the differences of all bytes. *)
Definition constEqual (a b : list Z) : bool :=
  if negb (Nat.eqb (length a) (length b)) then false
  else foldl (fun v p => Z.lor v (Z.lxor p.1 p.2)) 0 (zip a b) =? 0.

Definition authDataMinLen : nat := 37.
Definition flagUserPresent : Z := 1.
Definition flagUserVerified : Z := 4.

Definition check_signature (pin : PinnedCredential) (signed sig : list Z) : result tl_error unit :=
  if String.eqb (P_Alg pin) AlgWebAuthnES256 then
    match P_ES256Pub pin with
    | Some key => if on_P256 key then (if ecdsa_VerifyASN1 key (sha256_sum signed) sig then Ok tt else Err ErrBadSignature) else Err ErrMissingPin
    | None => Err ErrMissingPin
    end
  else if String.eqb (P_Alg pin) AlgWebAuthnEdDSA then
    if negb (Nat.eqb (length (P_Ed25519Pub pin)) 32) then Err ErrMissingPin
    else if ed25519_Verify (P_Ed25519Pub pin) signed sig then Ok tt else Err ErrBadSignature
  else Err (ErrUnsupportedAlg (P_Alg pin)).

Definition decode_field (name s : string) : result tl_error (list Z) :=
  match RawURL_DecodeString s with Some bs => Ok bs | None => Err (TLError ("trustlist: decode " +:+ name)%string) end.

Definition check (b : bool) (e : tl_error) : result tl_error unit := if b then Ok tt else Err e.

Definition verifyAssertion (art : SignedTrustList) (pin : PinnedCredential) (wantChallenge : list Z) : result tl_error unit :=
  let! _ := check (negb (String.eqb (P_RPID pin) "")) (TLError "trustlist: webauthn pin has empty RPID") in
  let! authData := decode_field "authenticator_data" (S_AuthenticatorData art) in
  let! cData := decode_field "client_data_json" (S_ClientDataJSON art) in
  let! _ := check (authDataMinLen <=? length authData)%nat (TLError "trustlist: authenticator_data too short") in
  let! cd := match unmarshal_clientData cData with Some cd => Ok cd | None => Err (TLError "trustlist: parse client_data_json") end in
  let! _ := check (String.eqb (CD_Type cd) "webauthn.get") (TLError "trustlist: client_data type") in
  let! _ := check (String.eqb (CD_Challenge cd) (RawURL_EncodeToString wantChallenge)) ErrChallengeMismatch in
  let! _ := check (constEqual (take 32 authData) (sha256_sum (bytes_of (P_RPID pin)))) (TLError "trustlist: rpIdHash mismatch") in
  let! _ := check (negb (Z.land (nth 32 authData 0) flagUserPresent =? 0)) (TLError "trustlist: User-Present flag not set") in
  let! _ := check (String.eqb (P_Origin pin) "" || String.eqb (CD_Origin cd) (P_Origin pin)) (TLError "trustlist: client_data origin") in
  let! sig := decode_field "webauthn signature" (S_Signature art) in
  check_signature pin (authData ++ sha256_sum cData) sig.

Definition verifyWebAuthn (tl : TrustList) (art : SignedTrustList) (pin : PinnedCredential) : result tl_error unit :=
  let! chal := Challenge tl in verifyAssertion art pin chal.

Definition VerifyAssertion (art : SignedTrustList) (pin : PinnedCredential) (challenge : list Z) : result tl_error unit :=
  if negb (String.eqb (S_Alg art) (P_Alg pin)) then Err (ErrAlgMismatch (P_Alg pin) (S_Alg art))
  else if String.eqb (P_Alg pin) AlgWebAuthnES256 || String.eqb (P_Alg pin) AlgWebAuthnEdDSA then verifyAssertion art pin challenge
  else Err (ErrUnsupportedAlg (P_Alg pin)).

Definition VerifyUserVerifiedAssertion (art : SignedTrustList) (pin : PinnedCredential) (challenge : list Z) : result tl_error unit :=
  if String.eqb (P_CredentialID pin) "" || negb (String.eqb (S_CredentialID art) (P_CredentialID pin))
  then Err (TLError "trustlist: enrollment proof credential_id")
  else
    let! _ := VerifyAssertion art pin challenge in
    let! authData := decode_field "authenticator_data" (S_AuthenticatorData art) in
    let! _ := check (authDataMinLen <=? length authData)%nat (TLError "trustlist: authenticator_data too short") in
    check (negb (Z.land (nth 32 authData 0) flagUserVerified =? 0)) ErrUserVerification.

Definition AssertionChallenge (art : SignedTrustList) : result tl_error string :=
  let! cData := decode_field "client_data_json" (S_ClientDataJSON art) in
  match unmarshal_challenge cData with Some chal => Ok chal | None => Err (TLError "trustlist: parse client_data_json") end.

Definition Verify (tl : TrustList) (art : SignedTrustList) (pin : PinnedCredential) : result tl_error unit :=
  if negb (String.eqb (S_Alg art) (P_Alg pin)) then Err (ErrAlgMismatch (P_Alg pin) (S_Alg art))
  else if String.eqb (P_Alg pin) AlgEd25519 then verifyEd25519 tl art pin
  else if String.eqb (P_Alg pin) AlgWebAuthnES256 || String.eqb (P_Alg pin) AlgWebAuthnEdDSA then verifyWebAuthn tl art pin
  else Err (ErrUnsupportedAlg (P_Alg pin)).
End Verification.

(** ** The canonical bytes determine the list *)

Definition valid_member (m : Member) : Prop :=
  ValidString (M_NodeID m) = true /\ ValidString (M_WGPublicKey m) = true /\ ValidString (M_BundleSHA256 m) = true.
Definition valid_text (tl : TrustList) : Prop := ValidString (TL_Tenant tl) = true /\ Forall valid_member (TL_Members tl).

Ltac peel H := repeat match type of H with (?p +:+ _ = ?p +:+ _)%string => apply append_inj_l in H end.

Lemma json_member_inj m m' r r' :
  valid_member m -> valid_member m' -> (json_member m +:+ r = json_member m' +:+ r')%string -> m = m' /\ r = r'.
Proof.
  intros (H1 & H2 & H3) (H1' & H2' & H3') H. destruct m as [n w b], m' as [n' w' b']. cbn [M_NodeID M_WGPublicKey M_BundleSHA256] in *.
  unfold json_member in H. cbn [M_NodeID M_WGPublicKey M_BundleSHA256] in H. rewrite !append_assoc in H.
  peel H. apply json_string_inj in H as [-> H]; [|done..]. peel H. apply json_string_inj in H as [-> H]; [|done..].
  peel H. apply json_string_inj in H as [-> H]; [|done..]. peel H. done.
Qed.

Lemma json_members_head m ms : exists t, json_members (m :: ms) = String "{" t.
Proof. destruct ms; by eexists. Qed.

Lemma json_members_inj ms ms' r r' :
  Forall valid_member ms -> Forall valid_member ms' -> (json_members ms +:+ "]" +:+ r = json_members ms' +:+ "]" +:+ r')%string -> ms = ms' /\ r = r'.
Proof.
  intros Hms. revert ms'. induction Hms as [|m ms Hm Hms IH]; intros ms' Hms' H.
  - destruct ms' as [|m' ms']; [split; [done|]; by injection H|]. destruct (json_members_head m' ms') as [t Ht]. rewrite Ht in H. done.
  - destruct Hms' as [|m' ms' Hm' Hms']; [destruct (json_members_head m ms) as [t Ht]; rewrite Ht in H; done|].
    destruct ms as [|m2 ms], ms' as [|m2' ms'].
    + cbn [json_members] in H. apply json_member_inj in H as [-> H]; [|done..]. peel H. by rewrite H.
    + change (json_members (m' :: m2' :: ms')) with (json_member m' +:+ "," +:+ json_members (m2' :: ms'))%string in H.
      cbn [json_members] in H. rewrite !append_assoc in H. apply json_member_inj in H as [_ H]; done.
    + change (json_members (m :: m2 :: ms)) with (json_member m +:+ "," +:+ json_members (m2 :: ms))%string in H.
      rewrite !append_assoc in H. apply json_member_inj in H as [_ H]; done.
    + change (json_members (m :: m2 :: ms)) with (json_member m +:+ "," +:+ json_members (m2 :: ms))%string in H.
      change (json_members (m' :: m2' :: ms')) with (json_member m' +:+ "," +:+ json_members (m2' :: ms'))%string in H.
      rewrite !append_assoc in H. apply json_member_inj in H as [-> H]; [|done..]. peel H.
      destruct (IH (m2' :: ms') Hms' H) as [-> ->]. done.
Qed.

Lemma json_trustlist_inj tl tl' : valid_text tl -> valid_text tl' -> json_trustlist tl = json_trustlist tl' -> tl = tl'.
Proof.
  destruct tl as [v t e ms], tl' as [v' t' e' ms']. intros [Ht Hms] [Ht' Hms'] H. cbn [TL_Tenant TL_Members] in *.
  unfold json_trustlist in H. cbn [TL_SchemaVersion TL_Tenant TL_Epoch TL_Members] in H. peel H.
  apply strconv_Itoa_inj in H as [-> H]; [|done..]. peel H. apply json_string_inj in H as [-> H]; [|done..]. peel H.
  apply strconv_Itoa_inj in H as [-> H]; [|done..]. peel H. apply json_members_inj in H as [-> _]; done.
Qed.

(** What two lists agree in when their canonical bytes are the same: everything but
    the order of the members. *)
Definition same_list (tl tl' : TrustList) : Prop :=
  TL_SchemaVersion tl = TL_SchemaVersion tl' /\ TL_Tenant tl = TL_Tenant tl' /\ TL_Epoch tl = TL_Epoch tl' /\ TL_Members tl ≡ₚ TL_Members tl'.

Lemma Canonical_Ok tl c :
  Canonical tl = Ok c <-> adjacent_dup (sorted_members tl) = None /\ c = json_trustlist (mkTrustList (TL_SchemaVersion tl) (TL_Tenant tl) (TL_Epoch tl) (sorted_members tl)).
Proof. unfold Canonical. cbn zeta. destruct (adjacent_dup (sorted_members tl)); split; [done|by intros [? ?]|by intros [= <-]|by intros [_ ->]]. Qed.

Lemma Canonical_same tl tl' c : valid_text tl -> valid_text tl' -> Canonical tl = Ok c -> Canonical tl' = Ok c -> same_list tl tl'.
Proof.
  rewrite !Canonical_Ok. intros [Ht Hms] [Ht' Hms'] [_ ->] [_ H]. apply json_trustlist_inj in H.
  - injection H as Hv Htt He Hm. split_and!; [congruence..|]. unfold sorted_members in Hm. rewrite <- (merge_sort_Permutation member_le (TL_Members tl)), Hm.
    apply merge_sort_Permutation.
  - split; [done|]. cbn. unfold sorted_members. by rewrite merge_sort_Permutation.
  - split; [done|]. cbn. unfold sorted_members. by rewrite merge_sort_Permutation.
Qed.

(** Conversely the order in which members are given does not matter. *)
Lemma sorted_NoDup ms : StronglySorted member_le ms -> adjacent_dup ms = None -> NoDup (M_NodeID <$> ms).
Proof.
  induction 1 as [|a ms Hs IH Hf]; intros Hd; [constructor|]. cbn [fmap list_fmap].
  destruct ms as [|b ms]; [constructor; [by intros ?%elem_of_nil|constructor]|]. cbn [adjacent_dup] in Hd.
  destruct (String.eqb_spec (M_NodeID b) (M_NodeID a)) as [|Hne]; [done|]. constructor; [|by apply IH].
  intros (x & Hx & Hin)%list_elem_of_fmap. apply Hne. apply elem_of_cons in Hin as [->|Hin]; [done|].
  apply (anti_symm String.le); [|by inversion_clear Hf].
  rewrite Hx. inversion_clear Hs as [|? ? ? Hb]. rewrite Forall_forall in Hb. by apply Hb.
Qed.

Lemma adjacent_NoDup ms : NoDup (M_NodeID <$> ms) -> adjacent_dup ms = None.
Proof.
  induction ms as [|a ms IH]; [done|]. cbn [fmap list_fmap]. intros [Ha Hn]%NoDup_cons. destruct ms as [|b ms]; [done|].
  cbn [adjacent_dup]. destruct (String.eqb_spec (M_NodeID b) (M_NodeID a)) as [E|_]; [|by apply IH].
  exfalso. apply Ha. rewrite <- E. by left.
Qed.

Lemma sorted_members_perm tl tl' :
  TL_Members tl ≡ₚ TL_Members tl' -> adjacent_dup (sorted_members tl) = None -> sorted_members tl' = sorted_members tl.
Proof.
  intros Hp Hd. assert (StronglySorted member_le (sorted_members tl)) as Hs by (apply StronglySorted_merge_sort; apply _).
  pose proof (sorted_NoDup _ Hs Hd) as Hn.
  eapply StronglySorted_unique_strong; [|apply StronglySorted_merge_sort; apply _|exact Hs|unfold sorted_members; by rewrite !merge_sort_Permutation].
  intros x y Hx Hy Hxy Hyx. unfold sorted_members in Hx, Hy, Hn. rewrite merge_sort_Permutation in Hx, Hy, Hn. rewrite <- Hp in Hx.
  eapply (NoDup_fmap_inj_on M_NodeID (TL_Members tl)); eauto. by apply (anti_symm String.le).
Qed.

Lemma Canonical_perm tl tl' c : same_list tl tl' -> Canonical tl = Ok c -> Canonical tl' = Ok c.
Proof.
  intros (Hv & Ht & He & Hp). rewrite !Canonical_Ok. intros [Hd ->]. rewrite (sorted_members_perm tl tl') by done. by rewrite <- Hv, <- Ht, <- He.
Qed.

(** The canonical bytes identify a trust list: two lists have the same bytes
    exactly when they differ at most in the order of their members. *)
Theorem canonical_identifies tl tl' c :
  valid_text tl -> valid_text tl' -> Canonical tl = Ok c -> Canonical tl' = Ok c <-> same_list tl tl'.
Proof. intros Hv Hv' Hc. split; [by apply Canonical_same|intros Hs; by apply (Canonical_perm tl tl')]. Qed.

Definition ex_alpha : Member := mkMember "alpha" "pubA" "00ff".
Definition ex_beta : Member := mkMember "beta" "pubB" "11ee".
Definition ex_list (ms : list Member) : TrustList := mkTrustList 1 "acme" 7 ms.

Lemma canonical_identifies_witness :
  match Canonical (ex_list [ex_alpha; ex_beta]) with
  | Ok c => Canonical (ex_list [ex_beta; ex_alpha]) = Ok c <-> same_list (ex_list [ex_alpha; ex_beta]) (ex_list [ex_beta; ex_alpha])
  | Err _ => False
  end.
Proof.
  assert (forall ms, ms = [ex_alpha; ex_beta] \/ ms = [ex_beta; ex_alpha] -> valid_text (ex_list ms)) as Hv.
  { intros ms [-> | ->]; (split; [reflexivity|repeat constructor]). }
  destruct (Canonical (ex_list [ex_alpha; ex_beta])) as [c|e] eqn:E; [|discriminate E].
  exact (canonical_identifies (ex_list [ex_alpha; ex_beta]) (ex_list [ex_beta; ex_alpha]) c (Hv _ (or_introl eq_refl)) (Hv _ (or_intror eq_refl)) E).
Defined.

(** ** What a WebAuthn assertion binds *)

Section Binding.
Context `{Crypto}.

(** The bits of a byte difference. *)
Lemma constEqual_loop l v :
  foldl (fun v (p : Z * Z) => Z.lor v (Z.lxor p.1 p.2)) v l = 0 <-> v = 0 /\ Forall (fun p : Z * Z => p.1 = p.2) l.
Proof.
  revert v. induction l as [|[a b] l IH]; intros v; cbn [foldl]; [split; [done|by intros [? _]]|]. rewrite IH, Z.lor_eq_0_iff, Z.lxor_eq_0_iff, Forall_cons. cbn. tauto.
Qed.

Lemma constEqual_spec a b : constEqual a b = true <-> a = b.
Proof.
  unfold constEqual. destruct (Nat.eqb_spec (length a) (length b)) as [Hl|Hl]; cbn [negb]; [|split; [done|by intros ->]].
  rewrite Z.eqb_eq, constEqual_loop. split; [intros [_ Hf]|intros ->; split; [done|]].
  - revert b Hl Hf. induction a as [|x a IH]; intros [|y b] Hl Hf; try done. cbn [zip zip_with] in Hf. apply Forall_cons in Hf as [Hx Hf]. cbn in Hx. f_equal; [done|]. apply IH; [by injection Hl|done].
  - clear. induction b as [|y b IH]; cbn; constructor; auto.
Qed.

Lemma sha256_sum_bytes m : Forall is_byte (sha256_sum m).
Proof.
  unfold sha256_sum. cbn zeta. set (l := blocks _ _ _). clearbody l. induction l as [|x l IH]; [constructor|].
  apply (Forall_app_2 _ (be_bytes 4 x)); [apply be_bytes_range|exact IH].
Qed.

Lemma check_Ok b e u : check b e = Ok u -> b = true.
Proof. by destruct b. Qed.

Lemma assertion_challenge art pin want :
  verifyAssertion art pin want = Ok tt ->
  exists cData cd, RawURL_DecodeString (S_ClientDataJSON art) = Some cData /\ unmarshal_clientData cData = Some cd /\ CD_Challenge cd = RawURL_EncodeToString want.
Proof.
  unfold verifyAssertion. intros H0. repeat (apply rbind_Ok_inv in H0 as (? & ? & H0)).
  unfold decode_field in *. repeat (case_match; try done); simplify_eq. 
  match goal with Hc : check (String.eqb (CD_Challenge _) _) _ = _ |- _ => apply check_Ok, String.eqb_eq in Hc end. eauto 10.
Qed.

(** The canonical bytes of the two lists are different and have one digest. *)
Definition canonical_collision (tl tl' : TrustList) : Prop := exists c c', Canonical tl = Ok c /\ Canonical tl' = Ok c' /\ collides c c'.

Lemma webauthn_one_list tl tl' art pin :
  valid_text tl -> valid_text tl' -> verifyWebAuthn tl art pin = Ok tt -> verifyWebAuthn tl' art pin = Ok tt -> same_list tl tl' \/ canonical_collision tl tl'.
Proof.
  unfold verifyWebAuthn, Challenge. intros Hv Hv'. destruct (Canonical tl) as [c|] eqn:Ec; [|done]. destruct (Canonical tl') as [c'|] eqn:Ec'; [|done].
  cbn [rbind]. intros (cData & cd & Hd & Hu & Hc)%assertion_challenge (cData' & cd' & Hd' & Hu' & Hc')%assertion_challenge.
  rewrite Hd in Hd'. injection Hd' as <-. rewrite Hu in Hu'. injection Hu' as <-. rewrite Hc in Hc'.
  apply RawURL_EncodeToString_inj in Hc'; [|apply sha256_sum_bytes..]. apply sum_collides in Hc' as [<-|]; [|right; by exists c, c']. left. by eapply Canonical_same.
Qed.

(** A WebAuthn signature authorises one trust list: an artifact that verifies
    against a pinned passkey for two lists shows that they are the same up to the
    order of their members, or that their canonical bytes are a collision of SHA-256. *)
Theorem assertion_binds_list tl tl' art pin :
  valid_text tl -> valid_text tl' -> P_Alg pin <> AlgEd25519 ->
  Verify tl art pin = Ok tt -> Verify tl' art pin = Ok tt -> same_list tl tl' \/ canonical_collision tl tl'.
Proof.
  intros Hv Hv' Hp. unfold Verify. case_match; [done|]. destruct (String.eqb_spec (P_Alg pin) AlgEd25519); [done|].
  case_match; [|done]. by apply webauthn_one_list.
Qed.
End Binding.

(** ** A concrete instance

    Toy cryptography for examples: a signature repeats the hash of key and message,
    a PEM block parses to its hash, client data is its challenge. *)

Definition toy_sign (pub msg : list Z) : list Z := let h := sha256_sum (pub ++ msg) in h ++ h.

Definition toy_crypto : Crypto := {|
  ECKey := list Z;
  on_P256 := fun key => Nat.eqb (length key) 32;
  ed25519_Verify := fun pub msg sig => bool_decide (sig = toy_sign pub msg);
  ecdsa_VerifyASN1 := fun key digest sig => bool_decide (sig = toy_sign key digest);
  parse_ed25519_pem := fun s => if String.eqb s "" then None else Some (sha256_sum (bytes_of s));
  parse_ecdsa_pem := fun s => if String.eqb s "" then None else Some (sha256_sum (bytes_of s));
  unmarshal_clientData := fun bs => Some (mkClientData "webauthn.get" (string_of_bytes bs) "");
  unmarshal_challenge := fun bs => Some (string_of_bytes bs) |}.

Definition ex_passkey : @PinnedCredential toy_crypto :=
  @mkPin toy_crypto AlgWebAuthnEdDSA "cred" (sha256_sum [1]) None "panel.example" "".

(** What an authenticator returns for the list. *)
Definition ex_assertion (tl : TrustList) : SignedTrustList :=
  let challenge := match Challenge tl with Ok c => c | Err _ => [] end in
  let cData := bytes_of (RawURL_EncodeToString challenge) in
  let authData := sha256_sum (bytes_of "panel.example") ++ [1; 0; 0; 0; 0] in
  mkSigned AlgWebAuthnEdDSA "cred" "" (RawURL_EncodeToString (toy_sign (sha256_sum [1]) (authData ++ sha256_sum cData)))
    (RawURL_EncodeToString authData) (RawURL_EncodeToString cData).

Lemma assertion_binds_list_witness :
  let tl := ex_list [ex_alpha; ex_beta] in
  let tl' := ex_list [ex_beta; ex_alpha] in
  @Verify toy_crypto tl (ex_assertion tl) ex_passkey = Ok tt /\ (same_list tl tl' \/ canonical_collision tl tl').
Proof.
  intros tl tl'.
  assert (@Verify toy_crypto tl (ex_assertion tl) ex_passkey = Ok tt) as Hv by (vm_compute; reflexivity).
  assert (@Verify toy_crypto tl' (ex_assertion tl) ex_passkey = Ok tt) as Hv' by (vm_compute; reflexivity).
  split; [exact Hv|].
  apply (@assertion_binds_list toy_crypto tl tl' (ex_assertion tl) ex_passkey); [| |discriminate|exact Hv|exact Hv'].
  - split; [reflexivity|repeat constructor].
  - split; [reflexivity|repeat constructor].
Defined.
