(* ===== verification/Bundle.v ===== *)
(** * Bundles as an agent verifies them ([internal/agent/verify.go],
    [bundlesig.Canonicalize], the path checks of [internal/agent/agent.go])

    A bundle is a map from paths to contents.  [checksums.sha256] lists the digest
    of every file that matters, a signature covers its bytes, and a signed trust
    list binds its digest to the node. *)

From stdpp Require Import base gmap strings list sorting.
From Stdlib Require Import ZArith Lia Ascii.
From S2P Require Import Prelude GoLib GoSha LinkID GoText GoJSON GoBase64 TrustList.

Local Open Scope Z_scope.
Local Open Scope go_scope.

Abbreviation files := (gmap string string).

(** An error is its message; parameters in the text are left out. *)
Inductive agent_error := AgentError (msg : string).
Definition fails {A} (msg : string) : result agent_error A := Err (AgentError msg).

(** ** checksums.sha256 *)

(** The text around the first two spaces. *)
Fixpoint cut_two_spaces (s : string) : option (string * string) :=
  match s with
  | EmptyString => None
  | String c rest =>
      match strip "  " s with
      | Some after => Some (""%string, after)
      | None => prod_map (String c) id <$> cut_two_spaces rest
      end
  end.

Definition checksum_line (out : gmap string string) (line : string) : result agent_error (gmap string string) :=
  if String.eqb line "" then Ok out
  else match cut_two_spaces line with
       | None => fails "missing two-space separator"
       | Some (hexSum, path) =>
           if negb (Nat.eqb (String.length hexSum) 64) then fails "digest length"
           else if negb (hex_decodes hexSum) then fails "digest is not hex"
           else if String.eqb path "" then fails "empty path"
           else match out !! path with
                | Some _ => fails "duplicate path"
                | None => Ok (<[ path := lower_ascii hexSum ]> out)
                end
       end.

Definition newline_byte : ascii := "010"%char.

Definition parseChecksums (data : string) : result agent_error (gmap string string) :=
  let! out := foldM checksum_line ∅ (split_on newline_byte data) in
  if decide (out = ∅) then fails "checksums.sha256 lists no files" else Ok out.

(** [bundlesig.Canonicalize]: the paths in order, each with its digest. *)
Definition canonical_line (f : files) (path : string) : string :=
  (sha256_hex (default "" (f !! path)) +:+ "  " +:+ path +:+ newline_str)%string.
Definition Canonicalize (f : files) : string :=
  foldr (fun path acc => canonical_line f path +:+ acc)%string ""%string (merge_sort String.le (map_to_list f).*1).

(** ** Verification against checksums and signature *)

Definition policyFileName : string := "telemetry.json".
Definition policySuccessorFileName : string := "telemetry-policy.json".

Record VerifyResult := mkVerify { VR_Signed : bool; VR_FileCount : Z }.

Definition present (f : files) (path : string) : bool := bool_decide (is_Some (f !! path)).

(** The manifest parts the agent reads, and the parsers that are not modelled. *)
Record manifestInfo := mkManifest { MI_NodeID : string; MI_CompiledAt : string; MI_Checksum : string }.

Record binPin := mkBinPin { BP_Asset : string; BP_SHA256 : string }.
Record agentCatalog := mkCatalog { AC_Version : string; AC_MinVersion : string; AC_ReleaseURL : string; AC_Bins : gmap string binPin }.

Class Codec := {
  unmarshal_trustlist : string -> option TrustList;
  unmarshal_signed : string -> option SignedTrustList;
  unmarshal_manifest : string -> option manifestInfo;
  unmarshal_catalog : string -> option agentCatalog;
  public_key_der : string -> option (list Z);
  canonical_probe_policy : string -> option string;
  canonical_successor_policy : string -> option string;
  ToLower : string -> string }.

Section Bundle.
Context `{Crypto} `{Codec}.

Definition parsePinnedPublicKey (pem : string) : result agent_error (list Z) :=
  match parse_ed25519_pem pem with Some pub => Ok pub | None => fails "agent: public key" end.

Definition credFingerprint (pem : string) : result agent_error string :=
  match public_key_der pem with Some der => Ok (hex_encode (sha256_sum der)) | None => fails "agent: credential" end.

(** The three cases of the policy: signed, unsigned although a key is pinned, unsigned. *)
Definition verify_signature (f : files) (checksums pinned : string) : result agent_error bool :=
  match f !! "bundle.sig", f !! "signing-pubkey.pem" with
  | Some sigB64, Some bundlePub =>
      match Std_DecodeString (TrimSpace sigB64) with
      | None => fails "agent: decode bundle.sig"
      | Some sig =>
          let! pub := parsePinnedPublicKey (if String.eqb pinned "" then bundlePub else pinned) in
          if sig_Verify (bytes_of checksums) sig pub then Ok true else fails "agent: bundle signature verification failed"
      end
  | _, _ => if String.eqb pinned "" then Ok false else fails "agent: signing key pinned but bundle has no signature"
  end.

(** One entry of the loop over the listed files. *)
Definition check_file (f : files) (n : Z) (e : string * string) : result agent_error Z :=
  match f !! e.1 with
  | None => fails "agent: checksums lists a file that is missing from the bundle"
  | Some content => if String.eqb (sha256_hex content) e.2 then Ok (n + 1) else fails "agent: checksum mismatch"
  end.

Definition covered_if_present (f : files) (listed : gmap string string) (path : string) : result agent_error unit :=
  if present f path && negb (present listed path) then fails "agent: file present but not covered by checksums.sha256" else Ok tt.

Definition VerifyBundle (f : files) (pinned : string) : result agent_error VerifyResult :=
  match f !! "checksums.sha256" with
  | None => fails "agent: bundle has no checksums.sha256"
  | Some checksums =>
      let! listed := parseChecksums checksums in
      if present f policyFileName && present f policySuccessorFileName then fails "agent: bundle contains both telemetry policies"
      else
        let! signed := verify_signature f checksums pinned in
        let! count := foldM (check_file f) 0 (map_to_list listed) in
        if negb (present f "install.sh") then fails "agent: bundle has no install.sh"
        else if negb (present listed "install.sh") then fails "agent: checksums.sha256 does not cover install.sh"
        else
          let! _ := covered_if_present f listed "artifacts.json" in
          let! _ := covered_if_present f listed policyFileName in
          let! _ := covered_if_present f listed policySuccessorFileName in
          Ok (mkVerify signed count)
  end.

(** ** The keys of the peers a bundle configures *)

Definition splitConfKV (line : string) : option (string * string) :=
  prod_map TrimSpace TrimSpace <$> str_cut "=" line.

(** The state of the scan: inside a peer block, and the keys seen. *)
Definition conf_line (st : bool * gset string) (raw : string) : result agent_error (bool * gset string) :=
  let line := TrimSpace raw in
  if String.eqb line "" || has_prefix "#" line then Ok st
  else if has_prefix "[" line && has_suffix "]" line then Ok (EqualFold line "[Peer]", st.2)
  else if negb st.1 then Ok st
  else match splitConfKV line with
       | None => Ok st
       | Some (key, val) =>
           if negb (EqualFold key "PublicKey") then Ok st
           else if String.eqb val "" then fails "agent: empty [Peer] PublicKey"
           else Ok (st.1, {[ val ]} ∪ st.2)
       end.

Definition conf_keys (seen : gset string) (e : string * string) : result agent_error (gset string) :=
  if negb (has_prefix "wireguard/" e.1) || negb (has_suffix ".conf" e.1) then Ok seen
  else let! st := foldM conf_line (false, seen) (split_on newline_byte e.2) in Ok st.2.

Definition collectBundlePeerKeys (f : files) : result agent_error (list string) :=
  let! seen := foldM conf_keys ∅ (map_to_list f) in Ok (merge_sort String.le (elements seen)).

(** ** Membership *)

Record MembershipConfig := mkMembership {
  MC_NodeID : string; MC_OperatorCredPEM : string; MC_OperatorCredAlg : string; MC_OperatorRPID : string; MC_OperatorOrigin : string }.

Definition pinnedCredential (cfg : MembershipConfig) : result agent_error PinnedCredential :=
  let alg := MC_OperatorCredAlg cfg in
  if String.eqb alg AlgEd25519 || String.eqb alg AlgWebAuthnEdDSA then
    match ParseEd25519PinPEM (MC_OperatorCredPEM cfg) with
    | Ok pub => Ok (mkPin alg "" pub None (MC_OperatorRPID cfg) (MC_OperatorOrigin cfg))
    | Err _ => fails "agent: parse pinned operator credential"
    end
  else if String.eqb alg AlgWebAuthnES256 then
    match ParseES256Pin (MC_OperatorCredPEM cfg) with
    | Ok pub => Ok (mkPin alg "" [] (Some pub) (MC_OperatorRPID cfg) (MC_OperatorOrigin cfg))
    | Err _ => fails "agent: parse pinned operator credential"
    end
  else fails "agent: unsupported operator credential alg".

(** The last member with the node's identifier. *)
Definition find_self (nodeID : string) (ms : list Member) : option Member :=
  foldl (fun self m => if String.eqb (M_NodeID m) nodeID then Some m else self) None ms.
Definition member_keys (ms : list Member) : gset string :=
  list_to_set (filter (fun k => k <> ""%string) (M_WGPublicKey <$> ms)).

Definition require_file (f : files) (path msg : string) : result agent_error string :=
  match f !! path with Some c => Ok c | None => fails msg end.
Definition require_some {A} (o : option A) (msg : string) : result agent_error A :=
  match o with Some a => Ok a | None => fails msg end.
Definition require (b : bool) (msg : string) : result agent_error unit := if b then Ok tt else fails msg.

Definition VerifyMembership (f : files) (cfg : MembershipConfig) (prevEpoch : Z) : result agent_error Z :=
  if String.eqb (MC_OperatorCredPEM cfg) "" then Ok 0
  else
    let! tlJSON := require_file f "trustlist.json" "agent: operator credential pinned but bundle has no trustlist.json" in
    let! sigJSON := require_file f "trustlist.sig" "agent: operator credential pinned but bundle has no trustlist.sig" in
    let! checksums := require_file f "checksums.sha256" "agent: operator credential pinned but bundle has no checksums.sha256" in
    let! tl := require_some (unmarshal_trustlist tlJSON) "agent: parse trustlist.json" in
    let! signed := require_some (unmarshal_signed sigJSON) "agent: parse trustlist.sig" in
    let! canonical := match Canonical tl with Ok c => Ok c | Err _ => fails "agent: canonicalize trustlist" end in
    let! _ := require (String.eqb canonical tlJSON) "agent: trustlist.json is not its own canonical form" in
    let! pin := pinnedCredential cfg in
    let! _ := match Verify tl signed pin with Ok _ => Ok tt | Err _ => fails "agent: trust-list signature verification failed" end in
    let! self := require_some (find_self (MC_NodeID cfg) (TL_Members tl)) "agent: node is not a member of the signed trust-list" in
    let gotDigest := sha256_hex checksums in
    let! _ := require (negb (String.eqb (M_BundleSHA256 self) "")) "agent: signed trust-list member carries no bundle_sha256" in
    let! _ := require (EqualFold gotDigest (M_BundleSHA256 self)) "agent: bundle digest does not match the off-host-signed digest" in
    let! peerKeys := collectBundlePeerKeys f in
    let! _ := require (forallb (fun pk => bool_decide (pk ∈ member_keys (TL_Members tl))) peerKeys) "agent: bundle peer public key is not a signed trust-list member" in
    let! _ := require (negb (TL_Epoch tl <? prevEpoch)) "agent: trust-list epoch is older than last applied" in
    Ok (TL_Epoch tl).
End Bundle.
