(* ===== verification/BundleProps.v ===== *)
(** * What a verified bundle guarantees *)

From stdpp Require Import base gmap strings list sorting.
From Stdlib Require Import ZArith Lia Ascii.
From S2P Require Import Prelude GoLib GoSha LinkID GoText GoJSON GoBase64 TrustList Bundle.

Local Open Scope Z_scope.
Local Open Scope go_scope.

(** ** Hexadecimal digests *)

Lemma hex_digit_cases v : 0 <= v < 16 -> exists n, (n < 16)%nat /\ v = Z.of_nat n.
Proof. intros Hv. exists (Z.to_nat v). lia. Qed.

(** Every byte of a digest passes a test that the sixteen digits pass. *)
Lemma str_forall_hex (p : ascii -> bool) :
  forallb (fun n => p (digit_of (Z.of_nat n))) (seq 0 16) = true -> forall x, str_forall p (sha256_hex x) = true.
Proof.
  intros Hp x. unfold sha256_hex. pose proof (sha256_sum_bytes (bytes_of x)) as Hb. rewrite forallb_forall in Hp.
  assert (forall v, 0 <= v < 16 -> p (digit_of v) = true) as Hd.
  { intros v (n & Hn & ->)%hex_digit_cases. apply Hp, in_seq. lia. }
  induction Hb as [|b bs Hb' _ IH]; [done|]. cbn [hex_encode foldr]. unfold is_byte in Hb'. change (foldr _ _ bs) with (hex_encode bs).
  unfold hex_byte. rewrite !append_cons. cbn [str_forall]. rewrite !Hd by (Z.div_mod_to_equations; lia). exact IH.
Qed.

Lemma all_hex_str s : all_hex s = str_forall (fun c => bool_decide (is_Some (hex_val c))) s.
Proof. induction s as [|c s IH]; [done|]. cbn [all_hex str_forall]. by rewrite IH. Qed.

Lemma hex_decodes_digest x : hex_decodes (sha256_hex x) = true.
Proof. unfold hex_decodes. rewrite length_sha256_hex, all_hex_str. cbn [Nat.even andb]. apply str_forall_hex. vm_compute. reflexivity. Qed.

Lemma str_forall_absent c s : str_forall (fun d => negb (Ascii.eqb d c)) s = true -> has_byte c s = false.
Proof.
  induction s as [|d s IH]; [done|]. cbn [str_forall has_byte]. intros [Hd Hs]%andb_true_iff.
  destruct (decide (d = c)) as [->|]; [by rewrite Ascii.eqb_refl in Hd|auto].
Qed.

Lemma lower_ascii_id s : str_forall (fun c => Ascii.eqb (lower_byte c) c) s = true -> lower_ascii s = s.
Proof. induction s as [|c s IH]; [done|]. cbn [str_forall lower_ascii]. intros [->%Ascii.eqb_eq Hs]%andb_true_iff. by rewrite IH. Qed.

Lemma lower_digest x : lower_ascii (sha256_hex x) = sha256_hex x.
Proof. apply lower_ascii_id, str_forall_hex. vm_compute. reflexivity. Qed.

(** ** Reading back what [Canonicalize] writes *)

Lemma cut_two_spaces_app a b : has_byte " " a = false -> cut_two_spaces (a +:+ "  " +:+ b) = Some (a, b).
Proof.
  induction a as [|c a IH]; cbn [has_byte]; intros Ha; [done|]. destruct (decide (c = " "%char)) as [|Hc]; [done|].
  rewrite append_cons. cbn [cut_two_spaces strip]. destruct (Ascii.eqb_spec " " c) as [<-|_]; [done|]. by rewrite IH.
Qed.

Definition plain_path (path : string) : Prop := path <> "" /\ has_byte newline_byte path = false.
Definition line_of (f : files) (path : string) : string := (sha256_hex (default "" (f !! path)) +:+ "  " +:+ path)%string.

Lemma line_no_newline f path : plain_path path -> has_byte newline_byte (line_of f path) = false.
Proof.
  intros [_ Hp]. unfold line_of. rewrite !has_byte_append, Hp, str_forall_absent; [done|]. apply str_forall_hex. vm_compute. reflexivity.
Qed.

Lemma split_lines f paths :
  Forall plain_path paths ->
  split_on newline_byte (foldr (fun path acc => canonical_line f path +:+ acc)%string ""%string paths) = map (line_of f) paths ++ [""].
Proof.
  induction 1 as [|path paths Hp _ IH]; [done|]. cbn [foldr map app]. rewrite <- IH.
  rewrite <- (split_on_app newline_byte (line_of f path)) by (by apply line_no_newline). f_equal.
  unfold canonical_line, line_of, newline_str. rewrite !append_assoc. done.
Qed.

Lemma checksum_line_ok f path out :
  plain_path path -> out !! path = None -> checksum_line out (line_of f path) = Ok (<[ path := sha256_hex (default "" (f !! path)) ]> out).
Proof.
  intros [Hp _] Hout. set (h := sha256_hex (default "" (f !! path))).
  assert (line_of f path <> "") as Hne.
  { intros E. apply (f_equal String.length) in E. unfold line_of in E. rewrite !length_append, length_sha256_hex in E. cbn in E. lia. }
  unfold checksum_line. destruct (String.eqb_spec (line_of f path) ""); [done|]. unfold line_of. fold h.
  rewrite cut_two_spaces_app by (apply str_forall_absent, str_forall_hex; vm_compute; reflexivity).
  unfold h at 1 2. rewrite length_sha256_hex, hex_decodes_digest. cbn [Nat.eqb negb].
  destruct (String.eqb_spec path ""); [done|]. rewrite Hout. unfold h. by rewrite lower_digest.
Qed.

Lemma checksum_lines_ok f paths out :
  Forall plain_path paths -> NoDup paths -> (forall p, p ∈ paths -> out !! p = None) ->
  foldM checksum_line out (map (line_of f) paths) = Ok (foldl (fun m p => <[ p := sha256_hex (default "" (f !! p)) ]> m) out paths).
Proof.
  intros Hf. revert out. induction Hf as [|p paths Hp _ IH]; intros out Hn Hout; [done|]. cbn [map foldM foldl]. apply NoDup_cons in Hn as [Hni Hn].
  rewrite checksum_line_ok by (done || apply Hout; by left). cbn [rbind]. apply IH; [done|]. intros q Hq.
  rewrite lookup_insert_ne by (intros ->; done). apply Hout. by right.
Qed.

Lemma foldl_insert_lookup {A} (g : string -> A) paths (m : gmap string A) q :
  foldl (fun m p => <[ p := g p ]> m) m paths !! q = if decide (q ∈ paths) then Some (g q) else m !! q.
Proof.
  revert m. induction paths as [|p paths IH]; intros m; cbn [foldl]; [by destruct (decide _) as [?%elem_of_nil|]|]. rewrite IH.
  destruct (decide (q ∈ paths)) as [Hq|Hq], (decide (q ∈ p :: paths)) as [Hq'|Hq']; try done; [by destruct Hq'; right| |].
  - apply elem_of_cons in Hq' as [->|]; [by rewrite lookup_insert_eq|done].
  - rewrite lookup_insert_ne; [done|]. intros ->. apply Hq'. by left.
Qed.

(** The agent reads back exactly the digests that the exporter writes: for every
    file set with plain paths, [parseChecksums] of [Canonicalize] is the map of their
    digests. *)
Theorem checksums_round_trip (f : files) :
  f <> ∅ -> (forall path content, f !! path = Some content -> plain_path path) -> parseChecksums (Canonicalize f) = Ok (sha256_hex <$> f).
Proof.
  intros Hne Hplain. unfold parseChecksums, Canonicalize. set (paths := merge_sort String.le (map_to_list f).*1).
  assert (forall p, p ∈ paths <-> is_Some (f !! p)) as Hin.
  { intros p. unfold paths. rewrite merge_sort_Permutation, list_elem_of_fmap. split.
    - intros ([q c] & -> & Hq%elem_of_map_to_list). by exists c.
    - intros [c Hc]. exists (p, c). split; [done|]. by apply elem_of_map_to_list. }
  assert (Forall plain_path paths) as Hp by (apply Forall_forall; intros p [c Hc]%Hin; by eapply Hplain).
  assert (NoDup paths) as Hn by (unfold paths; rewrite merge_sort_Permutation; apply NoDup_fst_map_to_list).
  rewrite split_lines by done. rewrite foldM_app, checksum_lines_ok; [|done|done|intros; apply lookup_empty]. cbn [rbind foldM checksum_line String.eqb].
  assert (foldl (fun m p => <[ p := sha256_hex (default "" (f !! p)) ]> m) ∅ paths = sha256_hex <$> f) as ->.
  { apply map_eq. intros q. rewrite (foldl_insert_lookup (fun p => sha256_hex (default "" (f !! p)))), lookup_fmap.
    destruct (decide (q ∈ paths)) as [[c Hc]%Hin|Hq]; [by rewrite Hc|]. rewrite Hin, <- eq_None_not_Some in Hq. by rewrite Hq. }
  destruct (decide (sha256_hex <$> f = ∅)) as [E|]; [|done]. by apply fmap_empty_inv in E.
Qed.

Definition ex_files : files := <[ "install.sh" := "#!/bin/sh" ]> (<[ "wireguard/wg0.conf" := "[Interface]" ]> ∅).

Lemma checksums_round_trip_witness : parseChecksums (Canonicalize ex_files) = Ok (sha256_hex <$> ex_files).
Proof.
  apply checksums_round_trip; [discriminate|]. intros path content Hp. unfold ex_files in Hp.
  apply lookup_insert_Some in Hp as [[<- _]|[_ Hp]]; [split; [discriminate|reflexivity]|].
  apply lookup_insert_Some in Hp as [[<- _]|[_ Hp]]; [split; [discriminate|reflexivity]|]. by rewrite lookup_empty in Hp.
Defined.

(** ** Verified bundles *)

Section Verified.
Context `{Crypto} `{Codec}.

(** The listed files are there with the listed digests, and what the agent acts on
    is listed. *)
Record covers (f : files) (listed : gmap string string) : Prop := {
  cov_listed : forall path d, listed !! path = Some d -> exists content, f !! path = Some content /\ sha256_hex content = d;
  cov_install : is_Some (listed !! "install.sh");
  cov_optional : forall path, path ∈ ["artifacts.json"; policyFileName; policySuccessorFileName] -> is_Some (f !! path) -> is_Some (listed !! path);
  cov_one_policy : ~ (is_Some (f !! policyFileName) /\ is_Some (f !! policySuccessorFileName)) }.

Lemma check_files_ok f l n n' : foldM (check_file f) n l = Ok n' -> forall e, e ∈ l -> exists content, f !! e.1 = Some content /\ sha256_hex content = e.2.
Proof.
  revert n. induction l as [|e l IH]; intros n Hl e' He'; [by apply elem_of_nil in He'|]. cbn [foldM] in Hl. apply rbind_Ok_inv in Hl as (m & Hm & Hl).
  apply elem_of_cons in He' as [->|He']; [|by eapply IH]. unfold check_file in Hm. destruct (f !! e.1) as [c|]; [|done]. exists c. split; [done|].
  by destruct (String.eqb_spec (sha256_hex c) e.2).
Qed.

Lemma covered_if_present_ok f listed path u : covered_if_present f listed path = Ok u -> is_Some (f !! path) -> is_Some (listed !! path).
Proof. unfold covered_if_present, present. intros Hc Hs. rewrite (bool_decide_eq_true_2 _ Hs) in Hc. by case_bool_decide. Qed.

Lemma VerifyBundle_Ok f pinned vr :
  VerifyBundle f pinned = Ok vr ->
  exists checksums listed, f !! "checksums.sha256" = Some checksums /\ parseChecksums checksums = Ok listed /\ covers f listed /\
    verify_signature f checksums pinned = Ok (VR_Signed vr).
Proof.
  unfold VerifyBundle. destruct (f !! "checksums.sha256") as [checksums|]; [|done]. intros Hv. apply rbind_Ok_inv in Hv as (listed & Hp & Hv).
  exists checksums, listed. split_and!; [done|done| |].
  - destruct (present f policyFileName && present f policySuccessorFileName) eqn:Hpol; [done|].
    apply rbind_Ok_inv in Hv as (signed & Hs & Hv). apply rbind_Ok_inv in Hv as (count & Hc & Hv).
    destruct (present f "install.sh") eqn:Hi; [|done]. cbn [negb] in Hv. destruct (present listed "install.sh") eqn:Hl; [|done]. cbn [negb] in Hv.
    apply rbind_Ok_inv in Hv as (u1 & Ha & Hv). apply rbind_Ok_inv in Hv as (u2 & Hb & Hv). apply rbind_Ok_inv in Hv as (u3 & Hd & Hv).
    split.
    + intros path d Hpath. destruct (check_files_ok f _ _ _ Hc (path, d)) as (c & ? & ?); [by apply elem_of_map_to_list|]. by exists c.
    + by apply bool_decide_eq_true in Hl.
    + intros path Hpath. repeat (apply elem_of_cons in Hpath as [->|Hpath]; [by eapply covered_if_present_ok|]). by apply elem_of_nil in Hpath.
    + unfold present in Hpol. intros [Hx Hy]. rewrite !bool_decide_eq_true_2 in Hpol by done. done.
  - case_match; [done|]. apply rbind_Ok_inv in Hv as (signed & Hs & Hv). rewrite Hs. apply rbind_Ok_inv in Hv as (count & _ & Hv).
    do 2 (case_match; [done|]). do 3 (apply rbind_Ok_inv in Hv as (? & _ & Hv)). by injection Hv as <-.
Qed.

(** A pinned key has signed the checksums. *)
Lemma verify_signature_pinned f checksums pinned signed :
  pinned <> "" -> verify_signature f checksums pinned = Ok signed ->
  signed = true /\ exists sig pub, parse_ed25519_pem pinned = Some pub /\ sig_Verify (bytes_of checksums) sig pub = true.
Proof.
  intros Hp. unfold verify_signature. destruct (String.eqb_spec pinned ""); [done|].
  destruct (f !! "bundle.sig"); [|done]. destruct (f !! "signing-pubkey.pem"); [|done]. destruct (Std_DecodeString _) as [sig|]; [|done].
  unfold parsePinnedPublicKey. destruct (parse_ed25519_pem pinned) as [pub|]; [|done]. cbn [rbind].
  destruct (sig_Verify _ _ _) eqn:Hs; [|done]. intros [= <-]. eauto.
Qed.

(** The two bundles have the same file under the path, or two contents there that collide. *)
Definition same_file (f f' : files) (path : string) : Prop :=
  f !! path = f' !! path \/ exists c c', f !! path = Some c /\ f' !! path = Some c' /\ collides c c'.

(** Two verified bundles with one list of checksums carry the same listed files. *)
Lemma covers_agree f f' listed path : covers f listed -> covers f' listed -> is_Some (listed !! path) -> same_file f f' path.
Proof.
  intros Hc Hc' [d Hd]. destruct (cov_listed _ _ Hc _ _ Hd) as (c & Hf & Hh), (cov_listed _ _ Hc' _ _ Hd) as (c' & Hf' & Hh').
  rewrite <- Hh' in Hh. destruct (hex_collides _ _ Hh) as [<-|]; [left; congruence|right; by exists c, c'].
Qed.

Lemma require_Ok b msg u : require b msg = Ok u -> b = true.
Proof. by destruct b. Qed.
Lemma require_some_Ok {A} (o : option A) msg a : require_some o msg = Ok a -> o = Some a.
Proof. destruct o; [by intros [= ->]|done]. Qed.
Lemma require_file_Ok f path msg c : require_file f path msg = Ok c -> f !! path = Some c.
Proof. unfold require_file. destruct (f !! path); [by intros [= ->]|done]. Qed.

(** What the keystone establishes: the list whose canonical bytes are in the bundle is
    signed by the pinned credential, the node's entry in it has the digest of the
    checksums, and its epoch is not older than the floor. *)
Record authorised (f : files) (cfg : MembershipConfig) (floor epoch : Z) (tl : TrustList) (self : Member) : Prop := {
  auth_parsed : exists bytes, f !! "trustlist.json" = Some bytes /\ unmarshal_trustlist bytes = Some tl /\ Canonical tl = Ok bytes;
  auth_signed : exists art pin, pinnedCredential cfg = Ok pin /\ Verify tl art pin = Ok tt;
  auth_self : find_self (MC_NodeID cfg) (TL_Members tl) = Some self;
  auth_digest : exists checksums, f !! "checksums.sha256" = Some checksums /\ EqualFold (sha256_hex checksums) (M_BundleSHA256 self) = true;
  auth_peers : exists keys, collectBundlePeerKeys f = Ok keys /\ Forall (fun k => k ∈ member_keys (TL_Members tl)) keys;
  auth_epoch : epoch = TL_Epoch tl /\ floor <= epoch }.

Lemma VerifyMembership_Ok f cfg floor epoch :
  MC_OperatorCredPEM cfg <> "" -> VerifyMembership f cfg floor = Ok epoch -> exists tl self, authorised f cfg floor epoch tl self.
Proof.
  intros Hcred. unfold VerifyMembership. destruct (String.eqb_spec (MC_OperatorCredPEM cfg) ""); [done|].
  intros (tlJSON & Ht%require_file_Ok & Hv)%rbind_Ok_inv. apply rbind_Ok_inv in Hv as (sigJSON & Hsig%require_file_Ok & Hv).
  apply rbind_Ok_inv in Hv as (checksums & Hc%require_file_Ok & Hv). apply rbind_Ok_inv in Hv as (tl & Htl%require_some_Ok & Hv).
  apply rbind_Ok_inv in Hv as (signed & Hsd%require_some_Ok & Hv). apply rbind_Ok_inv in Hv as (canonical & Hcan & Hv).
  apply rbind_Ok_inv in Hv as (u1 & Heq%require_Ok%String.eqb_eq & Hv). apply rbind_Ok_inv in Hv as (pin & Hpin & Hv).
  apply rbind_Ok_inv in Hv as (u2 & Hver & Hv). apply rbind_Ok_inv in Hv as (self & Hself%require_some_Ok & Hv). cbn zeta in Hv.
  apply rbind_Ok_inv in Hv as (u3 & _ & Hv). apply rbind_Ok_inv in Hv as (u4 & Hdig%require_Ok & Hv).
  apply rbind_Ok_inv in Hv as (keys & Hkeys & Hv). apply rbind_Ok_inv in Hv as (u5 & Hmem%require_Ok & Hv).
  apply rbind_Ok_inv in Hv as (u6 & Hep%require_Ok & Hv). injection Hv as <-.
  exists tl, self. split.
  - exists tlJSON. split_and!; [done..|]. subst canonical. by destruct (Canonical tl); simplify_eq.
  - exists signed, pin. split; [done|]. by destruct (Verify tl signed pin) as [[]|].
  - done.
  - by exists checksums.
  - exists keys. split; [done|]. apply Forall_forall. intros k Hk%list_elem_of_In. rewrite forallb_forall in Hmem. by apply Hmem, bool_decide_eq_true in Hk.
  - split; [done|]. apply negb_true_iff, Z.ltb_ge in Hep. lia.
Qed.

(** ** What the off-host signature covers *)

(** A digest is lower-case ASCII, so folding case leaves it as it is. *)
Lemma folded_digest x : (fold_rune <$> runes (sha256_hex x)) = bytes_of (sha256_hex x).
Proof.
  assert (str_forall (fun c => (fold_rune (byte_val c) =? byte_val c) && (byte_val c <? 128)) (sha256_hex x) = true) as Hs.
  { apply str_forall_hex. vm_compute. reflexivity. }
  revert Hs. generalize (sha256_hex x). intros s Hs.
  assert (ascii_only s = true) as Ha.
  { induction s as [|c s IH]; [done|]. cbn [str_forall ascii_only] in *. apply andb_true_iff in Hs as [[_ Hc]%andb_true_iff Hs]. rewrite Hc. by apply IH. }
  rewrite runes_ascii by done. clear Ha. induction s as [|c s IH]; [done|]. cbn [str_forall bytes_of] in *.
  apply andb_true_iff in Hs as [[Hc _]%andb_true_iff Hs]. cbn [fmap list_fmap]. f_equal; [by apply Z.eqb_eq|by apply IH].
Qed.

Lemma bytes_of_inj s s' : bytes_of s = bytes_of s' -> s = s'.
Proof.
  revert s'. induction s as [|c s IH]; intros [|c' s'] E; try done. cbn [bytes_of] in E. injection E as Hc Hs. f_equal; [|by apply IH].
  unfold byte_val in Hc. rewrite <- (ascii_nat_embedding c), <- (ascii_nat_embedding c'). f_equal. lia.
Qed.

Lemma EqualFold_digests x y s : EqualFold (sha256_hex x) s = true -> EqualFold (sha256_hex y) s = true -> x = y \/ collides x y.
Proof.
  unfold EqualFold. rewrite !bool_decide_eq_true, !folded_digest. intros Hx Hy. apply hex_collides, bytes_of_inj. congruence.
Qed.

(** Listed or acted upon, the files of two bundles with the same checksums agree. *)
Lemma covers_agree_optional f f' listed path :
  covers f listed -> covers f' listed -> path ∈ ["artifacts.json"; policyFileName; policySuccessorFileName] -> same_file f f' path.
Proof.
  intros Hc Hc' Hp. destruct (f !! path) as [c|] eqn:Ef; [|destruct (f' !! path) as [c'|] eqn:Ef'; [|left; congruence]].
  - eapply covers_agree; [done|done|]. apply (cov_optional _ _ Hc); [done|by rewrite Ef].
  - eapply covers_agree; [done|done|]. apply (cov_optional _ _ Hc'); [done|by rewrite Ef'].
Qed.

(** C6. The off-host signature covers what runs.  Two bundles that pass verification
    on a node under its operator credential and carry the same trust list have the
    same epoch and the same checksums, unless the two checksum files themselves are a
    collision of SHA-256; with the same checksums, every listed file, the root script,
    the self-update pins and the telemetry policy are the same in both, unless the two
    contents under that very path are a collision.  The list is signed by the pinned
    credential. *)
Theorem keystone_binds_bundle f f' cfg cfg' pinned pinned' floor floor' vr vr' epoch epoch' :
  MC_OperatorCredPEM cfg <> "" -> MC_OperatorCredPEM cfg' <> "" -> MC_NodeID cfg = MC_NodeID cfg' ->
  VerifyBundle f pinned = Ok vr -> VerifyMembership f cfg floor = Ok epoch ->
  VerifyBundle f' pinned' = Ok vr' -> VerifyMembership f' cfg' floor' = Ok epoch' ->
  f !! "trustlist.json" = f' !! "trustlist.json" ->
  (exists tl art pin, pinnedCredential cfg = Ok pin /\ Verify tl art pin = Ok tt /\ Canonical tl = Ok (default "" (f !! "trustlist.json"))) /\
  epoch = epoch' /\ same_file f f' "checksums.sha256" /\
  (f !! "checksums.sha256" = f' !! "checksums.sha256" ->
   forall path, (exists listed, parseChecksums (default "" (f !! "checksums.sha256")) = Ok listed /\ is_Some (listed !! path)) \/
                path ∈ ["install.sh"; "artifacts.json"; policyFileName; policySuccessorFileName] -> same_file f f' path).
Proof.
  intros Hk Hk' Hid Hb Hm Hb' Hm' Htl.
  apply VerifyBundle_Ok in Hb as (ck & listed & Hck & Hp & Hcov & _). apply VerifyBundle_Ok in Hb' as (ck' & listed' & Hck' & Hp' & Hcov' & _).
  apply VerifyMembership_Ok in Hm as (tl & self & [Hpar Hsig Hself Hdig _ [Hep _]]); [|done].
  apply VerifyMembership_Ok in Hm' as (tl' & self' & [Hpar' _ Hself' Hdig' _ [Hep' _]]); [|done].
  destruct Hpar as (bytes & Hbytes & Hun & Hcan), Hpar' as (bytes' & Hbytes' & Hun' & Hcan').
  rewrite Htl, Hbytes' in Hbytes. injection Hbytes as <-. rewrite Hun in Hun'. injection Hun' as <-. rewrite <- Hid, Hself in Hself'. injection Hself' as <-.
  split; [destruct Hsig as (art & pin & ? & ?); exists tl, art, pin; rewrite Htl, Hbytes'; done|].
  destruct Hdig as (ck0 & E & Hd), Hdig' as (ck0' & E' & Hd'). rewrite Hck in E. injection E as <-. rewrite Hck' in E'. injection E' as <-.
  split_and!; [congruence|destruct (EqualFold_digests _ _ _ Hd Hd') as [<-|]; [left; congruence|right; by exists ck, ck']|].
  rewrite Hck, Hck'. intros [= <-]. rewrite Hp in Hp'. injection Hp' as <-. intros path [(l & Hl & Hsome)|Hin].
  - eapply covers_agree; [done|done|]. cbn [default from_option id] in Hl. rewrite Hp in Hl. by injection Hl as <-.
  - apply elem_of_cons in Hin as [->|Hin]; [eapply covers_agree; [done|done|apply (cov_install _ _ Hcov)]|]. by eapply covers_agree_optional.
Qed.
End Verified.

(** ** A concrete bundle *)

Definition ex_checksums : string := Canonicalize ex_files.
Definition ex_trusted (epoch : Z) : TrustList := mkTrustList 1 "acme" epoch [mkMember "alpha" "pubA" (sha256_hex ex_checksums); ex_beta].
Definition ex_trusted_json (epoch : Z) : string := match Canonical (ex_trusted epoch) with Ok c => c | Err _ => "" end.

(** Toy encodings: trust lists are found among two, signature, manifest and catalog
    files hold the one value that varies. *)
Definition toy_codec : Codec := {|
  unmarshal_trustlist := fun s => if String.eqb s (ex_trusted_json 7) then Some (ex_trusted 7) else if String.eqb s (ex_trusted_json 6) then Some (ex_trusted 6) else None;
  unmarshal_signed := fun s => Some (mkSigned AlgEd25519 "" "" s "" "");
  unmarshal_manifest := fun s => Some (mkManifest "" s "sum");
  unmarshal_catalog := fun s => Some (mkCatalog s "" "" ∅);
  public_key_der := fun s => if String.eqb s "" then None else Some (bytes_of s);
  canonical_probe_policy := Some;
  canonical_successor_policy := Some;
  ToLower := lower_ascii |}.

Definition ex_membership : MembershipConfig := mkMembership "alpha" "operator key" AlgEd25519 "" "".
Definition ex_bundle (epoch : Z) (compiledAt : string) : files :=
  <[ "checksums.sha256" := ex_checksums ]> (<[ "trustlist.json" := ex_trusted_json epoch ]>
  (<[ "trustlist.sig" := RawURL_EncodeToString (toy_sign (sha256_sum (bytes_of "operator key")) (bytes_of (ex_trusted_json epoch))) ]>
  (<[ "manifest.json" := compiledAt ]> ex_files))).

Lemma keystone_binds_bundle_witness :
  let f := ex_bundle 7 "2026-01-01T00:00:00Z" in
  let f' := <[ "README" := "added" ]> f in
  same_file f f' "install.sh".
Proof.
  intros f f'.
  assert (VerifyBundle (H := toy_crypto) f "" = Ok (mkVerify false 2)) as Hb by (vm_compute; reflexivity).
  assert (VerifyBundle (H := toy_crypto) f' "" = Ok (mkVerify false 2)) as Hb' by (vm_compute; reflexivity).
  assert (VerifyMembership (H := toy_crypto) (H0 := toy_codec) f ex_membership 0 = Ok 7) as Hm by (vm_compute; reflexivity).
  assert (VerifyMembership (H := toy_crypto) (H0 := toy_codec) f' ex_membership 0 = Ok 7) as Hm' by (vm_compute; reflexivity).
  assert (f !! "trustlist.json" = f' !! "trustlist.json") as Ht by (vm_compute; reflexivity).
  assert (f !! "checksums.sha256" = f' !! "checksums.sha256") as Hck by (vm_compute; reflexivity).
  clearbody f'. clearbody f.
  assert (MC_OperatorCredPEM ex_membership <> "") as Hk by discriminate.
  destruct (@keystone_binds_bundle toy_crypto toy_codec f f' ex_membership ex_membership "" "" 0 0 (mkVerify false 2) (mkVerify false 2) 7 7 Hk Hk eq_refl Hb Hm Hb' Hm' Ht) as (_ & _ & _ & Hag).
  apply Hag; [exact Hck|]. right. by left.
Defined.
