(* ===== verification/AgentState.v ===== *)
(** * The agent's durable state ([internal/agent/state.go], [apply_intent.go],
    [conditions.go], [conditions_selfupdate.go])

    The record an agent keeps of what it applied, the write-ahead intent of a root
    action, the anti-rollback floors they imply and the checks on both. *)

From stdpp Require Import base gmap strings list.
From Stdlib Require Import ZArith Lia Ascii.
From S2P Require Import Prelude GoLib GoSha LinkID GoText TrustList Bundle StoreTypes.

Local Open Scope Z_scope.
Local Open Scope go_scope.

(** ** [time.Parse] for the layout 2006-01-02T15:04:05Z *)

Definition digit1 (s : string) : option (Z * string) :=
  match s with String c r => if is_digit c then Some (digit_val c, r) else None | EmptyString => None end.
Definition digits2 (s : string) : option (Z * string) :=
  match digit1 s with Some (a, r) => match digit1 r with Some (b, r') => Some (10 * a + b, r') | None => None end | None => None end.
(** The hour may have one digit. *)
Definition digits12 (s : string) : option (Z * string) :=
  match digits2 s with Some x => Some x | None => digit1 s end.
Definition digits4 (s : string) : option (Z * string) :=
  match digits2 s with Some (a, r) => match digits2 r with Some (b, r') => Some (100 * a + b, r') | None => None end | None => None end.

(** A fraction is accepted although the layout has none; nine digits count. *)
Fixpoint fraction (k : nat) (acc : Z) (s : string) : Z * string :=
  match s with
  | String c r => if is_digit c then match k with S k' => fraction k' (10 * acc + digit_val c) r | O => fraction O acc r end else (acc * 10 ^ Z.of_nat k, s)
  | EmptyString => (acc * 10 ^ Z.of_nat k, ""%string)
  end.
Definition opt_fraction (s : string) : Z * string :=
  match s with
  | String c (String d r) => if ((byte_val c =? 46) || (byte_val c =? 44)) && is_digit d then fraction 9 0 (String d r) else (0, s)
  | _ => (0, s)
  end.

Definition is_leap (y : Z) : bool := (y mod 4 =? 0) && (negb (y mod 100 =? 0) || (y mod 400 =? 0)).
Definition days_in (m y : Z) : Z :=
  if m =? 2 then (if is_leap y then 29 else 28) else if (m =? 4) || (m =? 6) || (m =? 9) || (m =? 11) then 30 else 31.
Definition days_from_civil (y0 m d : Z) : Z :=
  let y := if m <=? 2 then y0 - 1 else y0 in
  let doy := (153 * (if 2 <? m then m - 3 else m + 9) + 2) / 5 + d - 1 in
  365 * y + y / 4 - y / 100 + y / 400 + doy - 719468.

(** Nanoseconds since 1970. *)
Definition parse_compiled_at (s : string) : option Z :=
  '(y, s) ← digits4 s; s ← strip "-" s; '(m, s) ← digits2 s; s ← strip "-" s; '(d, s) ← digits2 s; s ← strip "T" s;
  '(hh, s) ← digits12 s; s ← strip ":" s; '(mm, s) ← digits2 s; s ← strip ":" s; '(ss, s) ← digits2 s;
  let '(ns, s) := opt_fraction s in
  s ← strip "Z" s;
  if String.eqb s "" && (1 <=? m) && (m <=? 12) && (1 <=? d) && (d <=? days_in m y) && (hh <? 24) && (mm <? 60) && (ss <? 60)
  then Some (((days_from_civil y m d * 24 + hh) * 60 + mm) * 60000000000 + ss * 1000000000 + ns) else None.

Example parse_examples :
  (parse_compiled_at "1970-01-02T00:00:01Z", parse_compiled_at "2024-02-29T1:02:03.5Z", parse_compiled_at "2023-02-29T00:00:00Z", parse_compiled_at " 1970-01-02T00:00:01Z") =
  (Some 86401000000000, Some 1709168523500000000, None, None).
Proof. vm_compute. reflexivity. Qed.

(** ** State *)

Record PendingApply := mkPendingApply {
  PA_CompiledAt : string; PA_ManifestChecksum : string; PA_BundleSHA256 : string; PA_Action : string; PA_MembershipEpoch : Z; PA_MembershipVerified : bool;
  PA_SigningKeyFingerprint : string; PA_OperatorCredentialFingerprint : string; PA_OperatorCredentialAlg : string; PA_OperatorRPID : string;
  PA_OperatorOrigin : string; PA_StartedAt : string }.

Record PendingUpdate := mkPendingUpdate { PU_From : string; PU_To : string; PU_Attempts : Z; PU_Confirmed : bool }.

Record State := mkState {
  A_NodeID : string; A_LastCompiledAt : string; A_LastChecksum : string; A_LastResult : string; A_LastAction : string; A_LastError : string; A_LastSigned : bool;
  A_MembershipEpoch : Z; A_MembershipVerified : bool; A_PendingApply : option PendingApply; A_AppliedAt : string; A_Health : string;
  A_AgentVersionFloor : string; A_PendingUpdate : option PendingUpdate; A_AbandonedAgentVersion : string; A_AbandonedReason : string;
  A_SelfUpdateBlocked : string; A_Conditions : list Condition; A_ActiveTelemetryPolicy : string }.

Definition zero_state : State := mkState "" "" "" "" "" "" false 0 false None "" "" "" None "" "" "" [] "".

Definition LastResultOK : string := "ok".
Definition LastResultPending : string := "pending".
Definition LastActionApply : string := "apply".
Definition LastActionUninstall : string := "uninstall".

(** The update of the self-update fields and of [Health]; everything else is kept. *)
Definition with_update (pu : option PendingUpdate) (floor abandoned reason blocked health : string) (st : State) : State :=
  mkState (A_NodeID st) (A_LastCompiledAt st) (A_LastChecksum st) (A_LastResult st) (A_LastAction st) (A_LastError st) (A_LastSigned st)
    (A_MembershipEpoch st) (A_MembershipVerified st) (A_PendingApply st) (A_AppliedAt st) health floor pu abandoned reason blocked (A_Conditions st)
    (A_ActiveTelemetryPolicy st).
Definition set_NodeID (id : string) (st : State) : State :=
  mkState id (A_LastCompiledAt st) (A_LastChecksum st) (A_LastResult st) (A_LastAction st) (A_LastError st) (A_LastSigned st)
    (A_MembershipEpoch st) (A_MembershipVerified st) (A_PendingApply st) (A_AppliedAt st) (A_Health st) (A_AgentVersionFloor st) (A_PendingUpdate st)
    (A_AbandonedAgentVersion st) (A_AbandonedReason st) (A_SelfUpdateBlocked st) (A_Conditions st) (A_ActiveTelemetryPolicy st).
Definition set_PendingUpdate (pu : option PendingUpdate) (st : State) : State :=
  with_update pu (A_AgentVersionFloor st) (A_AbandonedAgentVersion st) (A_AbandonedReason st) (A_SelfUpdateBlocked st) (A_Health st) st.
Definition set_SelfUpdateBlocked (reason : string) (st : State) : State :=
  with_update (A_PendingUpdate st) (A_AgentVersionFloor st) (A_AbandonedAgentVersion st) (A_AbandonedReason st) reason (A_Health st) st.

(** ** Configuration *)

Record SelfUpdateParams := mkSelfUpdate { SU_RunningVersion : string; SU_GithubProxy : string }.
Record Config := mkConfig {
  C_NodeID : string; C_PinnedPubPEM : string; C_OperatorCredPEM : string; C_OperatorCredAlg : string; C_OperatorRPID : string; C_OperatorOrigin : string;
  C_InstallArgs : list string; C_SelfUpdate : option SelfUpdateParams }.

Definition membership_of (cfg : Config) : MembershipConfig :=
  mkMembership (C_NodeID cfg) (C_OperatorCredPEM cfg) (C_OperatorCredAlg cfg) (C_OperatorRPID cfg) (C_OperatorOrigin cfg).
Definition keystone_on (cfg : Config) : bool := negb (String.eqb (C_OperatorCredPEM cfg) "").

(** ** Conditions *)

Definition ConditionMessageMax : nat := 160.

(** [string(r)] of a rune. *)
Definition encode_rune (r : Z) : string :=
  if r <? 128 then string_of_bytes [r]
  else if r <? 2048 then string_of_bytes [192 + r / 64; 128 + r mod 64]
  else if r <? 65536 then string_of_bytes [224 + r / 4096; 128 + r / 64 mod 64; 128 + r mod 64]
  else string_of_bytes [240 + r / 262144; 128 + r / 4096 mod 64; 128 + r / 64 mod 64; 128 + r mod 64].

Definition classify (condType status reason detail since : string) : Condition :=
  let rs := runes detail in
  let msg := if (ConditionMessageMax <? length rs)%nat then foldr (fun r s => encode_rune r +:+ s)%string ""%string (take ConditionMessageMax rs) else detail in
  mkCondition condType status reason msg since.

Definition configActionCondition (ok : bool) (action since : string) : Condition :=
  if ok then
    if String.eqb action LastActionUninstall then classify "configapply" "ok" "Uninstalled" "configuration uninstalled" since
    else classify "configapply" "ok" "Applied" "configuration applied" since
  else classify "configapply" "warn" "DegradedKeepingLastGood" "keeping last-good configuration" since.

Definition selfUpdateCondition (prev : State) (since : string) : option Condition :=
  match A_PendingUpdate prev with
  | Some pu =>
      if PU_Confirmed pu
      then Some (classify "selfupdate" "warn" "HealthConfirmedProbationary" ("self-update to " +:+ PU_To pu +:+ " health-confirmed; probationary until one clean cycle")%string since)
      else Some (classify "selfupdate" "warn" "Active" ("self-update to " +:+ PU_To pu +:+ " in flight (attempt " +:+ strconv_Itoa (PU_Attempts pu) +:+ ")")%string since)
  | None =>
      if negb (String.eqb (A_AbandonedAgentVersion prev) "") then
        Some (classify "selfupdate" "error" "Abandoned"
          ("self-update to " +:+ A_AbandonedAgentVersion prev +:+ " abandoned (rolled back)" +:+
           (if String.eqb (A_AbandonedReason prev) "" then "" else ": " +:+ A_AbandonedReason prev) +:+ "; change the target to retry")%string since)
      else match strip "self-updated to " (A_Health prev) with
           | Some v => Some (classify "selfupdate" "ok" "Updated" ("self-updated to " +:+ v)%string since)
           | None => if negb (String.eqb (A_SelfUpdateBlocked prev) "") then Some (classify "selfupdate" "warn" "Blocked" (A_SelfUpdateBlocked prev) since) else None
           end
  end.

(** [sampled]: what the WireGuard and mimic probes of the host reported. *)
Definition collectConditionsForAction (sampled : list Condition) (prev : State) (ok : bool) (action since : string) : list Condition :=
  configActionCondition ok action since :: option_list (selfUpdateCondition prev since) ++ sampled.
Definition collectConditions (sampled : list Condition) (prev : State) (ok : bool) (since : string) : list Condition :=
  collectConditionsForAction sampled prev ok (if ok && String.eqb (A_LastAction prev) LastActionUninstall then LastActionUninstall else LastActionApply) since.

(** ** Floors *)

Definition effectiveMembershipFloor (st : State) : Z :=
  match A_PendingApply st with
  | Some p => if A_MembershipEpoch st <? PA_MembershipEpoch p then PA_MembershipEpoch p else A_MembershipEpoch st
  | None => A_MembershipEpoch st
  end.

(** The compiled-at baseline that [CheckRollback] sees. *)
Definition effectiveRollbackState (st : State) : string :=
  match A_PendingApply st with
  | None => A_LastCompiledAt st
  | Some p =>
      match parse_compiled_at (PA_CompiledAt p), parse_compiled_at (A_LastCompiledAt st) with
      | Some pending, Some last_ => if last_ <? pending then PA_CompiledAt p else A_LastCompiledAt st
      | Some _, None => PA_CompiledAt p
      | None, _ => A_LastCompiledAt st
      end
  end.

Definition CheckRollback (baseline candidate : string) : result agent_error unit :=
  match parse_compiled_at (TrimSpace candidate) with
  | None => fails "agent: candidate compiled_at unparseable"
  | Some cand =>
      if String.eqb (TrimSpace baseline) "" then Ok tt
      else match parse_compiled_at (TrimSpace baseline) with
           | None => Ok tt
           | Some last_ => if cand <? last_ then fails "agent: anti-rollback: candidate compiled_at is older than last applied" else Ok tt
           end
  end.

(** ** The write-ahead intent *)

Definition validSHA256Hex (v : string) : bool := Nat.eqb (String.length v) 64 && hex_decodes v.

Definition verifiedBundleDigest (f : files) : result agent_error string :=
  match f !! "checksums.sha256" with Some c => Ok (sha256_hex c) | None => fails "agent: verified bundle has no checksums.sha256" end.

Section Intent.
Context `{Codec}.

Definition parseManifest (data : string) : result agent_error manifestInfo :=
  match unmarshal_manifest data with
  | None => fails "agent: parse manifest.json"
  | Some m => if String.eqb (TrimSpace (MI_CompiledAt m)) "" then fails "agent: manifest.json has no compiled_at" else Ok m
  end.

Definition validate_signing (cfg : Config) (p : PendingApply) : result agent_error unit :=
  if String.eqb (PA_SigningKeyFingerprint p) "" then Ok tt
  else
    let! _ := require (validSHA256Hex (PA_SigningKeyFingerprint p)) "agent: pending apply has invalid signing-key fingerprint" in
    let! _ := require (negb (String.eqb (C_PinnedPubPEM cfg) "")) "agent: pending apply used pinned signing key but no signing key is configured" in
    let! got := credFingerprint (C_PinnedPubPEM cfg) in
    require (EqualFold got (PA_SigningKeyFingerprint p)) "agent: refusing anchor change during recovery".

Definition validate_operator (cfg : Config) (p : PendingApply) : result agent_error unit :=
  if PA_MembershipVerified p then
    let! _ := require (validSHA256Hex (PA_OperatorCredentialFingerprint p)) "agent: pending verified apply has invalid operator-credential fingerprint" in
    let! _ := require (keystone_on cfg) "agent: pending apply verified keystone but no operator credential is configured" in
    let! got := credFingerprint (C_OperatorCredPEM cfg) in
    require (EqualFold got (PA_OperatorCredentialFingerprint p) && String.eqb (C_OperatorCredAlg cfg) (PA_OperatorCredentialAlg p) &&
             String.eqb (C_OperatorRPID cfg) (PA_OperatorRPID p) && String.eqb (C_OperatorOrigin cfg) (PA_OperatorOrigin p)) "agent: refusing recovery under a different keystone"
  else require (String.eqb (PA_OperatorCredentialFingerprint p) "" && String.eqb (PA_OperatorCredentialAlg p) "" &&
                String.eqb (PA_OperatorRPID p) "" && String.eqb (PA_OperatorOrigin p) "") "agent: pending non-keystone apply carries operator-credential metadata".

Definition validatePendingApply (cfg : Config) (st : State) : result agent_error unit :=
  match A_PendingApply st with
  | None => Ok tt
  | Some p =>
      let! _ := require_some (parse_compiled_at (PA_CompiledAt p)) "agent: pending apply has invalid compiled_at" in
      let! _ := require_some (parse_compiled_at (PA_StartedAt p)) "agent: pending apply has invalid started_at" in
      let! _ := require (String.eqb (PA_Action p) LastActionApply || String.eqb (PA_Action p) LastActionUninstall) "agent: pending apply has invalid action" in
      let! _ := require (validSHA256Hex (PA_BundleSHA256 p)) "agent: pending apply has invalid bundle_sha256" in
      let! _ := require (negb (PA_MembershipEpoch p <? 0)) "agent: pending apply has negative membership epoch" in
      let! _ := validate_signing cfg p in
      validate_operator cfg p
  end.

Definition validateCandidateAgainstPending (st : State) (man : manifestInfo) (f : files) (action : string) : result agent_error unit :=
  match A_PendingApply st with
  | None => Ok tt
  | Some p =>
      let! _ := require (String.eqb action (PA_Action p)) "agent: unresolved action exists" in
      let! candidate := require_some (parse_compiled_at (MI_CompiledAt man)) "candidate compiled_at" in
      let! pending := require_some (parse_compiled_at (PA_CompiledAt p)) "pending compiled_at" in
      if candidate =? pending then
        let! digest := verifiedBundleDigest f in
        require (EqualFold digest (PA_BundleSHA256 p) && String.eqb (MI_Checksum man) (PA_ManifestChecksum p)) "agent: refusing different same-version candidate"
      else Ok tt
  end.

(** The intent for a candidate. *)
Definition pending_for (cfg : Config) (man : manifestInfo) (f : files) (epoch : Z) (action now : string) : result agent_error PendingApply :=
  let! digest := verifiedBundleDigest f in
  let! signing := if String.eqb (C_PinnedPubPEM cfg) "" then Ok ""%string else credFingerprint (C_PinnedPubPEM cfg) in
  let! operator := if keystone_on cfg then credFingerprint (C_OperatorCredPEM cfg) else Ok ""%string in
  let on (s : string) := if keystone_on cfg then s else ""%string in
  Ok (mkPendingApply (MI_CompiledAt man) (MI_Checksum man) digest action epoch (keystone_on cfg) signing operator
        (on (C_OperatorCredAlg cfg)) (on (C_OperatorRPID cfg)) (on (C_OperatorOrigin cfg)) now).

Definition samePendingApply (a b : PendingApply) : bool :=
  String.eqb (PA_CompiledAt a) (PA_CompiledAt b) && String.eqb (PA_ManifestChecksum a) (PA_ManifestChecksum b) &&
  EqualFold (PA_BundleSHA256 a) (PA_BundleSHA256 b) && String.eqb (PA_Action a) (PA_Action b) && (PA_MembershipEpoch a =? PA_MembershipEpoch b) &&
  Bool.eqb (PA_MembershipVerified a) (PA_MembershipVerified b) && EqualFold (PA_SigningKeyFingerprint a) (PA_SigningKeyFingerprint b) &&
  EqualFold (PA_OperatorCredentialFingerprint a) (PA_OperatorCredentialFingerprint b) && String.eqb (PA_OperatorCredentialAlg a) (PA_OperatorCredentialAlg b) &&
  String.eqb (PA_OperatorRPID a) (PA_OperatorRPID b) && String.eqb (PA_OperatorOrigin a) (PA_OperatorOrigin b).

(** The state with the intent recorded; the last-known-good fields stay. *)
Definition with_intent (cfg : Config) (prev : State) (p : PendingApply) (conds : list Condition) : State :=
  mkState (C_NodeID cfg) (A_LastCompiledAt prev) (A_LastChecksum prev) LastResultPending (A_LastAction prev) "" (A_LastSigned prev)
    (A_MembershipEpoch prev) (A_MembershipVerified prev) (Some p) (PA_StartedAt p) "apply in progress; last-good retained"
    (A_AgentVersionFloor prev) (A_PendingUpdate prev) (A_AbandonedAgentVersion prev) (A_AbandonedReason prev) (A_SelfUpdateBlocked prev) conds
    (A_ActiveTelemetryPolicy prev).
End Intent.
