(* ===== verification/SelfUpdate.v ===== *)
(** * Signed self-update ([internal/agent/selfupdate.go], [selfupdate_retry.go])

    The decision, the swap of the binary under a crash-durable breadcrumb, and the
    reconciliation at start-up that confirms, finalises or rolls it back. *)

From stdpp Require Import base gmap strings list.
From Stdlib Require Import ZArith Lia Ascii.
From S2P Require Import Prelude GoLib GoSha GoText Semver TrustList Bundle StoreTypes StoreMonad AgentState.

Local Open Scope Z_scope.
Local Open Scope go_scope.
Local Open Scope store_scope.

(** ** The host *)

(** One run of the root script. *)
Record install := mkInstall { in_cfg : Config; in_files : files; in_man : manifestInfo; in_epoch : Z; in_action : string }.

(** The state file ([None]: absent, [Some None]: not readable), the binary at the
    executable path, its backup, and the root scripts that were started. *)
Record host := mkHost { h_state : option (option State); h_binary : string; h_bak : option string; h_installs : list install }.

Definition put_state (st : State) (h : host) : host := mkHost (Some (Some st)) (h_binary h) (h_bak h) (h_installs h).
Definition put_binary (b : string) (h : host) : host := mkHost (h_state h) b (h_bak h) (h_installs h).
Definition put_bak (b : option string) (h : host) : host := mkHost (h_state h) (h_binary h) b (h_installs h).
Definition put_install (i : install) (h : host) : host := mkHost (h_state h) (h_binary h) (h_bak h) (h_installs h ++ [i]).

Definition read_state (h : host) : result agent_error State :=
  match h_state h with None => Ok zero_state | Some (Some st) => Ok st | Some None => fails "agent: parse state" end.

(** A result as an action. *)
Definition lift {A} (r : result agent_error A) : Act host A := match r with Ok a => ret a | Err (AgentError msg) => fail (PlainError msg) end.
Definition message (e : store_error) : string := match e with PlainError m | BackendError m => m | _ => "" end.

Definition LoadState : Act host State := do! r <- prim_read read_state in lift r.
(** A synced temporary file renamed over the state file. *)
Definition SaveState (st : State) : Act host unit := prim_write (put_state st).

(** ** The decision *)

Inductive updateDecision := updateSkip | updateRefuse | updateForced | updateAfterApply.

Definition parseAgentCatalog `{Codec} (f : files) : option agentCatalog :=
  match f !! "artifacts.json" with
  | None => None
  | Some raw => match unmarshal_catalog raw with
                | None => None
                | Some c => if String.eqb (TrimSpace (AC_Version c)) "" then None else Some c
                end
  end.

Definition isForced (cat : option agentCatalog) (running : string) : bool :=
  match cat with
  | None => false
  | Some c => negb (String.eqb (TrimSpace (AC_MinVersion c)) "") && (compareVersions running (AC_MinVersion c) <? 0)
  end.

Definition decideSelfUpdate (cat : option agentCatalog) (running floor abandoned : string) : updateDecision :=
  match cat with
  | None => updateSkip
  | Some c =>
      if String.eqb (TrimSpace (AC_Version c)) "" then updateSkip
      else
        let desired := AC_Version c in
        let forced := isForced cat running in
        if (compareVersions desired running =? 0) && negb forced then updateSkip
        else if negb (String.eqb abandoned "") && (compareVersions desired abandoned =? 0) then updateRefuse
        else if compareVersions desired running <? 0 then updateRefuse
        else if negb (String.eqb floor "") && (compareVersions desired floor <? 0) then updateRefuse
        else if forced then (if compareVersions desired (AC_MinVersion c) <? 0 then updateRefuse else updateForced)
        else updateAfterApply
  end.

(** ** The swap *)

(** What the process finds outside: its architecture, what a download of a URL
    yields, what a binary prints for [version], and whether [exec] works. *)
Record world := mkWorld {
  w_arch : string; w_download : string -> option string; w_version_of : string -> option string; w_exec : bool }.

(** The process was replaced, or an error before or after the swap. *)
Inductive swap_end := Replaced | NotSwapped (msg : string) | SwappedOnly (msg : string).

Definition fetch_binary (w : world) (cat : agentCatalog) (pin : binPin) (ghProxy : string) : option string :=
  let direct := (AC_ReleaseURL cat +:+ "/" +:+ BP_Asset pin)%string in
  let urls := (if String.eqb (TrimSpace ghProxy) "" then [] else [(ghProxy +:+ direct)%string]) ++ [direct] in
  foldr (fun u next => match w_download w u with Some b => Some b | None => next end) None urls.

(** Truncated, then complete; a failed copy is removed. *)
Definition copy_to_bak : Act host unit :=
  prim_write (put_bak (Some "")) ;;!
  do! r <- attempt (prim_write (fun h => put_bak (Some (h_binary h)) h)) in
  match r with Ok _ => ret tt | Err e => ignore (prim_write (put_bak None)) ;;! fail e end.

Definition in_flight (st : State) : Act host unit :=
  match A_PendingUpdate st with Some pu => fail (PlainError ("self-update to " +:+ PU_To pu +:+ " already in flight; awaiting restart to reconcile")%string) | None => ret tt end.

(** Everything up to the swap; any error is before it. *)
Definition prepare_swap (w : world) (cfg : Config) (cat : agentCatalog) (running ghProxy : string) : Act host unit :=
  if negb (String.eqb (w_arch w) "amd64") && negb (String.eqb (w_arch w) "arm64") then fail (PlainError "self-update unsupported on arch")
  else
    do! st <- LoadState in
    in_flight st ;;!
    match AC_Bins cat !! ("linux-" +:+ w_arch w)%string with
    | None => fail (PlainError "no signed self-update pin")
    | Some pin =>
        if String.eqb (BP_Asset pin) "" || String.eqb (BP_SHA256 pin) "" then fail (PlainError "no signed self-update pin")
        else match fetch_binary w cat pin ghProxy with
             | None => fail (PlainError "download ")
             | Some new =>
                 if negb (EqualFold (sha256_hex new) (BP_SHA256 pin)) then fail (PlainError "self-update hash mismatch")
                 else match w_version_of w new with
                      | None => fail (PlainError "self-test of new binary failed")
                      | Some out =>
                          if negb (compareVersions (TrimSpace out) (AC_Version cat) =? 0) then fail (PlainError "self-test version differs")
                          else
                            do! st2 <- LoadState in
                            in_flight st2 ;;!
                            SaveState (set_PendingUpdate (Some (mkPendingUpdate running (AC_Version cat) 0 false)) (set_NodeID (C_NodeID cfg) st2)) ;;!
                            copy_to_bak ;;!
                            do! r <- attempt (prim_write (put_binary new)) in
                            match r with
                            | Ok _ => ret tt
                            | Err e => ignore (prim_write (put_bak None)) ;;! fail (PlainError "install new binary")
                            end
                      end
             end
    end.

Definition performSelfUpdate (w : world) (cfg : Config) (cat : agentCatalog) (running ghProxy : string) : Act host swap_end :=
  do! r <- attempt (prepare_swap w cfg cat running ghProxy) in
  match r with
  | Err e => ret (NotSwapped (message e))
  | Ok _ => ret (if w_exec w then Replaced else SwappedOnly "exec")
  end.

(** ** Reconciliation *)

Definition maxSelfUpdateAttempts : Z := 3.

Fixpoint contains (sub s : string) : bool :=
  match s with
  | EmptyString => String.eqb sub ""
  | String _ s' => has_prefix sub s || contains sub s'
  end.

Definition curateAbandonReason (reason : string) : string :=
  if String.eqb reason "" then ""
  else if contains "attempt cap" reason then "the update repeatedly failed to apply and hit the retry cap"
  else if contains "health gate" reason then "the updated binary failed its post-update health check and was rolled back"
  else "the update was rolled back".

(** The backup goes back in place before the breadcrumb is cleared.  The boolean of
    the result: the process was replaced by the restored binary. *)
Definition restore_backup (buildVersion : string) (pu : PendingUpdate) : Act host bool :=
  if negb (sameVersion buildVersion (PU_To pu)) then ret false
  else
    do! there <- attempt (prim_read h_bak) in
    match there with
    | Ok (Some good) =>
        do! r <- attempt (prim_write (fun h => put_bak None (put_binary good h))) in
        ret (match r with Ok _ => true | Err _ => false end)
    | _ => ret false
    end.

Definition rollbackAndAbandon (w : world) (buildVersion : string) (pu : PendingUpdate) (reason : string) : Act host bool :=
  do! rolledBack <- restore_backup buildVersion pu in
  let rexec := ret (rolledBack && w_exec w) in
  do! r <- attempt LoadState in
  match r with
  | Err _ => rexec
  | Ok st =>
      do! s <- attempt (SaveState (with_update None (A_AgentVersionFloor st) (PU_To pu) (curateAbandonReason reason) (A_SelfUpdateBlocked st)
                 ("self-update to " +:+ PU_To pu +:+ " abandoned: " +:+ reason)%string st)) in
      match s with
      | Err _ => rexec
      | Ok _ => if (rolledBack : bool) then rexec else ignore (prim_write (put_bak None)) ;;! ret false
      end
  end.

Definition bump_attempts (pu : PendingUpdate) : PendingUpdate := mkPendingUpdate (PU_From pu) (PU_To pu) (i64 (PU_Attempts pu + 1)) (PU_Confirmed pu).

Definition reconcileSelfUpdateEarlyLocked (w : world) (buildVersion : string) : Act host bool :=
  do! st <- LoadState in
  match A_PendingUpdate st with
  | None => ret false
  | Some pu0 =>
      let pu := bump_attempts pu0 in
      SaveState (set_PendingUpdate (Some pu) st) ;;!
      if maxSelfUpdateAttempts <? PU_Attempts pu then rollbackAndAbandon w buildVersion pu "attempt cap 3 exceeded" else ret false
  end.

(** [healthy]: whether the injected health check passes. *)
Definition ReconcileSelfUpdatePromote (buildVersion : string) (healthy : bool) : Act host unit :=
  do! r <- attempt LoadState in
  match r with
  | Err _ => ret tt
  | Ok st =>
      match A_PendingUpdate st with
      | None => ret tt
      | Some pu =>
          if negb (sameVersion buildVersion (PU_To pu)) then ret tt
          else if PU_Confirmed pu then ret tt
          else if negb healthy then fail (PlainError "self-update health gate failed")
          else SaveState (with_update (Some (mkPendingUpdate (PU_From pu) (PU_To pu) (PU_Attempts pu) true)) (A_AgentVersionFloor st)
                 (A_AbandonedAgentVersion st) (A_AbandonedReason st) (A_SelfUpdateBlocked st)
                 ("self-update to " +:+ PU_To pu +:+ " health-confirmed (probationary)")%string st)
      end
  end.

Definition FinalizeSelfUpdate (buildVersion : string) : Act host unit :=
  do! r <- attempt LoadState in
  match r with
  | Err _ => ret tt
  | Ok st =>
      match A_PendingUpdate st with
      | None => ret tt
      | Some pu =>
          if negb (PU_Confirmed pu) || negb (sameVersion buildVersion (PU_To pu)) then ret tt
          else
            do! s <- attempt (SaveState (with_update None (PU_To pu) "" "" "" ("self-updated to " +:+ PU_To pu)%string st)) in
            match s with Err _ => ret tt | Ok _ => ignore (prim_write (put_bak None)) end
      end
  end.

(** ** The deferred retry *)

Definition classifySelfUpdateBlock (msg : string) : string :=
  if contains "already in flight" msg then ""
  else if contains "self-test version" msg || contains "hash mismatch" msg then "the fetched agent binary does not match the rollout target version — re-arm the rollout so its pins point at the target build, then redeploy"
  else if contains "self-test of new binary failed" msg then "the fetched agent binary failed its self-test (it would not run) — re-arm the rollout with a good build, then redeploy"
  else if contains "no signed self-update pin" msg then "no signed self-update pin for this node's CPU architecture — add the arch to the rollout pins, then redeploy"
  else if contains "unsupported on arch" msg then "self-update is not supported on this node's CPU architecture"
  else if contains "download " msg then "could not download the update binary from the release — check the agent release base + the GitHub proxy"
  else "self-update was deferred and keeps being refused — check the agent logs (journalctl -u yaog-agent)".

Definition recordSelfUpdateBlocked (cfg : Config) (reason : string) : Act host unit :=
  do! r <- attempt LoadState in
  match r with Err _ => ret tt | Ok st => ignore (SaveState (set_SelfUpdateBlocked reason (set_NodeID (C_NodeID cfg) st))) end.

Definition clearSelfUpdateBlocked : Act host unit :=
  do! r <- attempt LoadState in
  match r with
  | Err _ => ret tt
  | Ok st => if String.eqb (A_SelfUpdateBlocked st) "" then ret tt else ignore (SaveState (set_SelfUpdateBlocked "" st))
  end.

(** [fetched]: the bundle behind [WithMembershipGate], which reads the floor. *)
Definition WithMembershipGate `{Crypto} `{Codec} (fetched : result agent_error files) (mc : MembershipConfig) : Act host files :=
  do! f <- lift fetched in
  do! st <- LoadState in
  do! _ <- lift (VerifyMembership f mc (effectiveMembershipFloor st)) in
  ret f.

Definition RetryDeferredSelfUpdate `{Crypto} `{Codec} (w : world) (p : SelfUpdateParams) (cfg : Config) (fetched : result agent_error files) : Act host (option swap_end) :=
  do! r <- attempt LoadState in
  match r with
  | Err _ => ret None
  | Ok st =>
      match A_PendingUpdate st, A_PendingApply st with
      | None, None =>
          if String.eqb (A_SelfUpdateBlocked st) "" then ret None
          else
            do! f <- WithMembershipGate fetched (membership_of cfg) in
            let cat := parseAgentCatalog f in
            match cat, decideSelfUpdate cat (SU_RunningVersion p) (A_AgentVersionFloor st) (A_AbandonedAgentVersion st) with
            | Some c, (updateAfterApply | updateForced) =>
                do! o <- performSelfUpdate w cfg c (SU_RunningVersion p) (SU_GithubProxy p) in
                match o with
                | NotSwapped msg =>
                    (if String.eqb (classifySelfUpdateBlock msg) "" then ret tt else recordSelfUpdateBlocked cfg (classifySelfUpdateBlock msg)) ;;!
                    fail (PlainError msg)
                | SwappedOnly msg => fail (PlainError msg)
                | Replaced => ret (Some Replaced)
                end
            | _, _ => clearSelfUpdateBlocked ;;! ret None
            end
      | _, _ => ret None
      end
  end.
