(* ===== verification/AgentRun.v ===== *)
(** * One run of the agent ([internal/agent/agent.go], [cycle.go])

    Pull, verify, check against the floors, record the intent, run the root script,
    commit.  [run] is the whole of [Run], with every write to the state file and the
    start of the root script as a step that can fail or be the last. *)

From stdpp Require Import base gmap strings list sorting.
From Stdlib Require Import ZArith Lia Ascii.
From S2P Require Import Prelude GoLib GoSha LinkID GoText Semver TrustList Bundle StoreTypes StoreMonad AgentState SelfUpdate.

Local Open Scope Z_scope.
Local Open Scope go_scope.
Local Open Scope store_scope.

(** ** Paths of a bundle *)

(** [path.Clean], by its segments. *)
Definition clean_step (rooted : bool) (stack : list string) (seg : string) : list string :=
  if String.eqb seg "" || String.eqb seg "." then stack
  else if String.eqb seg ".." then
    match stack with
    | top :: rest => if String.eqb top ".." then seg :: stack else rest
    | [] => if rooted then [] else [seg]
    end
  else seg :: stack.
Fixpoint join_slash (l : list string) : string :=
  match l with [] => "" | [x] => x | x :: rest => (x +:+ "/" +:+ join_slash rest)%string end.
Definition path_Clean (p : string) : string :=
  let rooted := has_prefix "/" p in
  let out := join_slash (rev (foldl (clean_step rooted) [] (split_on "/" p))) in
  if rooted then ("/" +:+ out)%string else if String.eqb out "" then "." else out.

(** [path.Dir]: everything before the last slash, cleaned. *)
Definition path_Dir (p : string) : string :=
  match rev (split_on "/" p) with
  | _ :: (_ :: _) as front => path_Clean (join_slash (rev (tail front)) +:+ (if has_prefix "/" p then "/" else ""))%string
  | _ => path_Clean ""
  end.

Definition drive_qualified (rel : string) : bool :=
  match rel with String c (String d _) => (is_upper c || is_lower c) && (byte_val d =? 58) | _ => false end.

Definition validateCanonicalBundlePath (rel : string) : result agent_error unit :=
  if String.eqb rel "" || has_byte "000" rel || has_byte "092" rel then fails "agent: unsafe bundle path"
  else if drive_qualified rel then fails "agent: volume-qualified paths are not allowed"
  else
    let clean := path_Clean rel in
    if has_prefix "/" rel || String.eqb clean "." || String.eqb clean ".." || has_prefix "../" clean || negb (String.eqb clean rel)
    then fails "agent: path must be canonical and slash-relative" else Ok tt.

Section Paths.
Context `{Codec}.

Definition normalized_path (rel : string) : string := ToLower (path_Clean rel).

Definition see_path (seen : gmap string string) (rel : string) : result agent_error (gmap string string) :=
  let! _ := validateCanonicalBundlePath rel in
  match seen !! normalized_path rel with
  | Some _ => fails "agent: bundle paths normalize to the same destination"
  | None => Ok (<[ normalized_path rel := rel ]> seen)
  end.

(** Whether a proper parent of the path is a file of the bundle; every step up
    shortens the path. *)
Fixpoint parent_taken (fuel : nat) (seen : gmap string string) (p : string) : bool :=
  match fuel with
  | O => false
  | S fuel' => let parent := path_Dir p in
               if String.eqb parent "." then false else present seen parent || parent_taken fuel' seen parent
  end.

Definition validateBundlePaths (f : files) : result agent_error (list string) :=
  let! seen := foldM see_path ∅ (map_to_list f).*1 in
  if forallb (fun e => negb (parent_taken (String.length e.1) seen e.1)) (map_to_list seen)
  then Ok (merge_sort String.le (map_to_list f).*1) else fails "agent: bundle path conflicts with child path".

(** ** Telemetry policy *)

Definition candidateTelemetryPolicy (f : files) (credentialConfigured : bool) : result agent_error string :=
  match f !! policyFileName, f !! policySuccessorFileName with
  | Some _, Some _ => fails "bundle contains both policies"
  | None, None => Ok ""%string
  | legacy, successor =>
      if negb credentialConfigured then fails "active telemetry policy requires a configured off-host operator credential"
      else match legacy, successor with
           | Some raw, _ => require_some (canonical_probe_policy raw) "parse telemetry policy"
           | _, Some raw => require_some (canonical_successor_policy raw) "parse telemetry policy"
           | None, None => Ok ""%string
           end
  end.
End Paths.

(** ** Recording the outcome *)

(** What a run meets outside: the bundle it fetches, the clock, host probes. *)
Record env := mkEnv { e_world : world; e_fetch : result agent_error files; e_now : string; e_since : string; e_sampled : list Condition; e_platform : bool }.

Definition persistAndReport (st : State) : Act host unit := SaveState st.

Definition failure_state (e : env) (cfg : Config) (prev : State) (detail : string) : State :=
  mkState (if String.eqb (A_NodeID prev) "" then C_NodeID cfg else A_NodeID prev) (A_LastCompiledAt prev) (A_LastChecksum prev) "error" (A_LastAction prev) detail
    (A_LastSigned prev) (A_MembershipEpoch prev) (A_MembershipVerified prev || (0 <? A_MembershipEpoch prev)) (A_PendingApply prev) (e_now e)
    "degraded: keeping last-good" (A_AgentVersionFloor prev) (A_PendingUpdate prev) (A_AbandonedAgentVersion prev) (A_AbandonedReason prev) ""
    (collectConditions (e_sampled e) prev false (e_since e)) (A_ActiveTelemetryPolicy prev).
Definition recordFailure (e : env) (cfg : Config) (prev : State) (detail : string) : Act host unit :=
  ignore (persistAndReport (failure_state e cfg prev detail)).

Definition action_of (cfg : Config) : string := if Nat.eqb (length (C_InstallArgs cfg)) 1 then LastActionUninstall else LastActionApply.

Definition success_state (e : env) (cfg : Config) (prev : State) (man : manifestInfo) (vr : VerifyResult) (epoch : Z) (policy : string) : State :=
  let uninstall := bool_decide (C_InstallArgs cfg = ["--uninstall"%string]) in
  let action := if uninstall then LastActionUninstall else LastActionApply in
  mkState (C_NodeID cfg) (MI_CompiledAt man) (MI_Checksum man) LastResultOK action "" (VR_Signed vr)
    (Z.max epoch (A_MembershipEpoch prev)) (keystone_on cfg || A_MembershipVerified prev || (0 <? A_MembershipEpoch prev)) None (e_now e)
    (if uninstall then "uninstalled" else "applied") (A_AgentVersionFloor prev) (A_PendingUpdate prev) (A_AbandonedAgentVersion prev) (A_AbandonedReason prev) ""
    (collectConditionsForAction (e_sampled e) prev true action (e_since e)) policy.
Definition recordSuccess (e : env) (cfg : Config) (prev : State) (man : manifestInfo) (vr : VerifyResult) (epoch : Z) (policy : string) : Act host unit :=
  persistAndReport (success_state e cfg prev man vr epoch policy).

Definition validateInstallArgs (args : list string) : result agent_error unit :=
  match args with
  | [] => Ok tt
  | [a] => if String.eqb a "--uninstall" then Ok tt else fails "agent: unsupported install.sh arguments"
  | _ => fails "agent: unsupported install.sh arguments"
  end.

(** ** The run *)

Inductive run_end := Applied (man : manifestInfo) (action : string) (epoch : Z) | Reexecuted.

Section Run.
Context `{Crypto} `{Codec}.

(** A failed check is recorded before it is returned. *)
Definition or_record {A} (e : env) (cfg : Config) (prev : State) (r : result agent_error A) : Act host A :=
  match r with Ok a => ret a | Err (AgentError msg) => recordFailure e cfg prev msg ;;! fail (PlainError msg) end.

Definition persistPendingApply (e : env) (cfg : Config) (prev : State) (man : manifestInfo) (f : files) (epoch : Z) (action : string) : Act host State :=
  do! pending <- lift (pending_for cfg man f epoch action (e_now e)) in
  if match A_PendingApply prev with Some p => samePendingApply p pending | None => false end
  then SaveState prev ;;! ret prev
  else
    let next := with_intent cfg prev pending (collectConditionsForAction (e_sampled e) prev false action (e_since e)) in
    SaveState next ;;! ret next.

(** The checks before anything is written, in order; what they establish. *)
Definition manifest_of (cfg : Config) (f : files) : result agent_error manifestInfo :=
  let! _ := validateBundlePaths f in
  let! manRaw := require_file f "manifest.json" "agent: bundle missing manifest.json" in
  let! man := parseManifest manRaw in
  let! _ := require (String.eqb (MI_NodeID man) "" || String.eqb (MI_NodeID man) (C_NodeID cfg)) "agent: bundle manifest node_id does not match configured node id" in
  Ok man.

Record verified := mkVerified { v_man : manifestInfo; v_result : VerifyResult; v_policy : string; v_epoch : Z }.

Definition verify_candidate (cfg : Config) (prev : State) (f : files) : result agent_error verified :=
  let! man := manifest_of cfg f in
  let! vr := VerifyBundle f (C_PinnedPubPEM cfg) in
  let! policy := candidateTelemetryPolicy f (keystone_on cfg) in
  let! epoch := VerifyMembership f (membership_of cfg) (effectiveMembershipFloor prev) in
  let! _ := CheckRollback (effectiveRollbackState prev) (MI_CompiledAt man) in
  let! _ := validateCandidateAgainstPending prev man f (action_of cfg) in
  Ok (mkVerified man vr policy epoch).

(** Self-update before the apply: [Some] ends the run, [None] goes on, with the
    catalogue for afterwards. *)
Definition forced_update (e : env) (cfg : Config) (prev : State) (f : files) : Act host (run_end + option agentCatalog) :=
  match C_SelfUpdate cfg with
  | None => ret (inr None)
  | Some su =>
      let cat := parseAgentCatalog f in
      let dec := decideSelfUpdate cat (SU_RunningVersion su) (A_AgentVersionFloor prev) (A_AbandonedAgentVersion prev) in
      match cat, isForced cat (SU_RunningVersion su) with
      | Some c, true =>
          match dec with
          | updateForced =>
              do! o <- performSelfUpdate (e_world e) cfg c (SU_RunningVersion su) (SU_GithubProxy su) in
              match o with
              | Replaced => ret (inl Reexecuted)
              | NotSwapped msg => recordFailure e cfg prev msg ;;! fail (PlainError msg)
              | SwappedOnly msg => fail (PlainError msg)
              end
          | _ => recordFailure e cfg prev "below min_version and cannot self-update" ;;! fail (PlainError "agent: below required min_version, cannot self-update")
          end
      | Some c, false => ret (inr (match dec with updateAfterApply => Some c | _ => None end))
      | None, _ => ret (inr None)
      end
  end.

Definition deferred_update (e : env) (cfg : Config) (cat : option agentCatalog) : Act host (option run_end) :=
  match cat, C_SelfUpdate cfg with
  | Some c, Some su =>
      do! o <- performSelfUpdate (e_world e) cfg c (SU_RunningVersion su) (SU_GithubProxy su) in
      match o with
      | Replaced => ret (Some Reexecuted)
      | NotSwapped msg | SwappedOnly msg =>
          (if String.eqb (classifySelfUpdateBlock msg) "" then ret tt else recordSelfUpdateBlocked cfg (classifySelfUpdateBlock msg)) ;;! ret None
      end
  | _, _ => ret None
  end.

(** From the staged bundle to the committed state. *)
Definition apply_candidate (e : env) (cfg : Config) (prev : State) (f : files) (v : verified) : Act host unit :=
  let action := action_of cfg in
  do! staged <- attempt (prim_read (fun _ => tt)) in
  match staged with
  | Err err => recordFailure e cfg prev "stage failed" ;;! fail err
  | Ok _ =>
      do! r <- attempt (persistPendingApply e cfg prev (v_man v) f (v_epoch v) action) in
      match r with
      | Err err => recordFailure e cfg prev (message err) ;;! fail err
      | Ok intentState =>
          do! a <- attempt (prim_write (put_install (mkInstall cfg f (v_man v) (v_epoch v) action))) in
          match a with
          | Err err => recordFailure e cfg intentState "install.sh failed" ;;! fail err
          | Ok _ => recordSuccess e cfg intentState (v_man v) (v_result v) (v_epoch v) (if String.eqb action LastActionUninstall then "" else v_policy v)
          end
      end
  end.

Definition run (e : env) (cfg : Config) : Act host run_end :=
  if String.eqb (TrimSpace (C_NodeID cfg)) "" then fail (PlainError "agent: empty node id")
  else
    lift (validateInstallArgs (C_InstallArgs cfg)) ;;!
    (if e_platform e then ret tt else fail (PlainError "agent: installer platform")) ;;!
    prim_read (fun _ => tt) ;;!
    do! prev <- LoadState in
    if negb (String.eqb (A_NodeID prev) "") && negb (String.eqb (A_NodeID prev) (C_NodeID cfg)) then fail (PlainError "agent: state belongs to another node")
    else
      lift (validatePendingApply cfg prev) ;;!
      if (A_MembershipVerified prev || (0 <? A_MembershipEpoch prev)) && negb (keystone_on cfg) then fail (PlainError "agent: refusing trust downgrade")
      else
        do! f <- or_record e cfg prev (e_fetch e) in
        do! v <- or_record e cfg prev (verify_candidate cfg prev f) in
        do! u <- forced_update e cfg prev f in
        match u with
        | inl ended => ret ended
        | inr later =>
            apply_candidate e cfg prev f v ;;!
            do! d <- deferred_update e cfg later in
            ret (match d with Some ended => ended | None => Applied (v_man v) (action_of cfg) (v_epoch v) end)
        end.
End Run.
