(* ===== verification/AgentLogic.v ===== *)
(** * Invariants of the state file ([internal/agent])

    A logic for the agent's operations: [StateInv I G] says that [I] is a property of
    the host that rests on a property [G] of the state file, and that [G] survives the
    edits that bookkeeping makes.  Every operation except the apply and the
    finalisation of an update keeps such an [I], however it ends. *)

From stdpp Require Import base gmap strings list sorting.
From Stdlib Require Import ZArith Lia Ascii.
From S2P Require Import Prelude GoLib GoSha LinkID GoText Semver TrustList Bundle StoreTypes StoreMonad AgentState SelfUpdate AgentRun.

Local Open Scope Z_scope.
Local Open Scope go_scope.
Local Open Scope store_scope.

(** ** Edits of the state *)

(** The state remembers that a trust list was verified. *)
Definition locked (st : State) : bool :=
  A_MembershipVerified st || (0 <? A_MembershipEpoch st) || match A_PendingApply st with Some p => PA_MembershipVerified p | None => false end.

(** The fields the floors depend on. *)
Definition same_custody (st st' : State) : Prop :=
  A_LastCompiledAt st' = A_LastCompiledAt st /\ A_MembershipEpoch st' = A_MembershipEpoch st /\ A_PendingApply st' = A_PendingApply st /\
  (locked st = true -> locked st' = true).

Lemma same_custody_update pu fl ab re bl he st : same_custody st (with_update pu fl ab re bl he st).
Proof. by split_and!. Qed.
Lemma same_custody_id id st : same_custody st (set_NodeID id st).
Proof. by split_and!. Qed.
Lemma same_custody_trans a b c : same_custody a b -> same_custody b c -> same_custody a c.
Proof. intros (? & ? & ? & ?) (? & ? & ? & ?). split_and!; [congruence..|auto]. Qed.
Lemma same_custody_failure e cfg st detail : same_custody st (failure_state e cfg st detail).
Proof.
  split_and!; [done..|]. unfold locked, failure_state. cbn [A_MembershipVerified A_MembershipEpoch A_PendingApply].
  by destruct (A_MembershipVerified st), (0 <? A_MembershipEpoch st).
Qed.

Create HintDb custody.
#[export] Hint Resolve same_custody_update same_custody_id same_custody_failure : custody.
#[export] Hint Extern 1 (same_custody _ (set_PendingUpdate _ _)) => unfold set_PendingUpdate : custody.
#[export] Hint Extern 1 (same_custody _ (set_SelfUpdateBlocked _ _)) => unfold set_SelfUpdateBlocked : custody.

(** An edit that keeps the floors, and that starts no update. *)
Record edits (st st' : State) : Prop := {
  ed_custody : same_custody st st';
  ed_floor : A_AgentVersionFloor st' = A_AgentVersionFloor st;
  ed_pending : forall pu', A_PendingUpdate st' = Some pu' -> exists pu, A_PendingUpdate st = Some pu /\ PU_To pu' = PU_To pu }.

Lemma edits_trans a b c : edits a b -> edits b c -> edits a c.
Proof.
  intros [? Hf Hp] [? Hf' Hp']. split; [by eapply same_custody_trans|congruence|]. intros pu (pu1 & H1 & E1)%Hp'. apply Hp in H1 as (pu2 & ? & ?). exists pu2. split; congruence.
Qed.
Lemma edits_id id st : edits st (set_NodeID id st).
Proof. split; [apply same_custody_id|done|eauto]. Qed.
Lemma edits_failure e cfg st detail : edits st (failure_state e cfg st detail).
Proof. split; [apply same_custody_failure|done|eauto]. Qed.
Lemma edits_blocked reason st : edits st (set_SelfUpdateBlocked reason st).
Proof. split; [apply same_custody_update|done|eauto]. Qed.
Lemma edits_abandon ab re bl he st : edits st (with_update None (A_AgentVersionFloor st) ab re bl he st).
Proof. split; [apply same_custody_update|done|done]. Qed.
Lemma edits_retarget pu pu' ab re bl he st :
  A_PendingUpdate st = Some pu -> PU_To pu' = PU_To pu -> edits st (with_update (Some pu') (A_AgentVersionFloor st) ab re bl he st).
Proof. intros Hst Hto. split; [apply same_custody_update|done|]. intros pu2 [= <-]. eauto. Qed.

#[export] Hint Resolve edits_id edits_failure edits_blocked edits_abandon edits_retarget : custody.
#[export] Hint Extern 2 (edits _ (set_SelfUpdateBlocked _ (set_NodeID _ _))) => eapply edits_trans; [apply edits_id|apply edits_blocked] : custody.
#[export] Hint Extern 2 (edits _ (set_PendingUpdate _ _)) => unfold set_PendingUpdate : custody.

(** ** Invariants *)

Definition proceeds (d : updateDecision) : bool := match d with updateForced | updateAfterApply => true | _ => false end.

(** An update to the catalogue's version may begin. *)
Definition begins (G : State -> Prop) (c : agentCatalog) : Prop :=
  forall id pu st, PU_To pu = AC_Version c -> G st -> G (set_PendingUpdate (Some pu) (set_NodeID id st)).

Class StateInv (I : host -> Prop) (G : State -> Prop) : Prop := {
  inv_read h st : I h -> read_state h = Ok st -> G st;
  inv_put st h : G st -> I h -> I (put_state st h);
  inv_binary b h : I h -> I (put_binary b h);
  inv_bak b h : I h -> I (put_bak b h);
  inv_edit st st' : edits st st' -> G st -> G st';
  inv_begin st c running : G st -> proceeds (decideSelfUpdate (Some c) running (A_AgentVersionFloor st) (A_AbandonedAgentVersion st)) = true -> begins G c }.

Section Keeps.
Context (I : host -> Prop).

Lemma keeps_ret {A} (a : A) : keeps (ret a) I.
Proof. by apply spec_ret. Qed.
Lemma keeps_fail {A} err : keeps (@fail host A err) I.
Proof. by apply spec_fail. Qed.
Lemma keeps_bind {A B} (m : Act host A) (k : A -> Act host B) : keeps m I -> (forall a, keeps (k a) I) -> keeps (abind m k) I.
Proof. apply spec_bind. Qed.
Lemma keeps_attempt {A} (m : Act host A) : keeps m I -> keeps (attempt m) I.
Proof. intros Hm. by apply spec_attempt. Qed.
Lemma keeps_ignore {A} (m : Act host A) : keeps m I -> keeps (ignore m) I.
Proof. intros Hm. by apply spec_ignore. Qed.
Lemma keeps_write f : (forall h, I h -> I (f h)) -> keeps (prim_write f) I.
Proof. intros Hf. apply spec_write; auto. Qed.
Lemma keeps_read {A} (f : host -> A) : keeps (prim_read f) I.
Proof. apply spec_read; auto. Qed.
Lemma keeps_lift {A} (r : result agent_error A) : keeps (lift r) I.
Proof. destruct r as [|[]]; [apply keeps_ret|apply keeps_fail]. Qed.

Context {G : State -> Prop} {HI : StateInv I G}.

Lemma keeps_save st : G st -> keeps (SaveState st) I.
Proof. intros Hst. apply keeps_write. intros h. by apply inv_put. Qed.
Lemma keeps_edit st st' : edits st st' -> G st -> keeps (SaveState st') I.
Proof. intros He Hst. apply keeps_save. by apply (inv_edit st). Qed.

(** After loading, the loaded state is in [G]. *)
Lemma spec_LoadState : spec LoadState I (fun st h => I h /\ G st) (fun _ => I) I.
Proof.
  unfold LoadState. eapply spec_bind with (R := fun r h => I h /\ forall st, r = Ok st -> G st).
  - apply spec_read; [|done|done]. intros h Hh. split; [done|]. intros st. by apply inv_read.
  - intros [st|[msg]]; [apply spec_ret; intros h [Hh Hst]; auto|apply spec_fail; by intros h [Hh _]].
Qed.

Lemma keeps_load {B} (k : State -> Act host B) : (forall st, G st -> keeps (k st) I) -> keeps (do! st <- LoadState in k st) I.
Proof. intros Hk. eapply spec_bind; [apply spec_LoadState|]. intros st. apply spec_pure. apply Hk. Qed.

Lemma keeps_try_load {B} (k : result store_error State -> Act host B) :
  (forall e, keeps (k (Err e)) I) -> (forall st, G st -> keeps (k (Ok st)) I) -> keeps (do! r <- attempt LoadState in k r) I.
Proof.
  intros He Hk. eapply spec_bind with (R := fun r h => I h /\ match r with Ok st => G st | Err _ => True end).
  - apply spec_attempt. eapply spec_weaken; [apply spec_LoadState|auto..].
  - intros [st|err]; apply spec_pure; [apply Hk|intros _; apply He].
Qed.
End Keeps.

Ltac keep_step :=
  lazymatch goal with
  | |- keeps (ret _) ?I => apply (keeps_ret I)
  | |- keeps (fail _) ?I => apply (keeps_fail I)
  | |- keeps (lift _) ?I => apply (keeps_lift I)
  | |- keeps (prim_read _) ?I => apply (keeps_read I)
  | |- keeps (ignore _) ?I => apply (keeps_ignore I)
  | |- keeps (attempt _) ?I => apply (keeps_attempt I)
  | |- keeps (abind LoadState _) ?I => eapply (keeps_load I); intros ? ?
  | |- keeps (abind (attempt LoadState) _) ?I => eapply (keeps_try_load I); [intros ?|intros ? ?]
  | |- keeps (abind _ _) ?I => apply (keeps_bind I); [|intros ?]
  | |- keeps (SaveState _) ?I => eapply (keeps_edit I); [|eassumption]; solve [eauto with custody]
  | |- keeps (prim_write _) ?I =>
      apply (keeps_write I); intros ? ?;
      repeat lazymatch goal with |- ?J (put_bak _ _) => apply (inv_bak (I := J)) | |- ?J (put_binary _ _) => apply (inv_binary (I := J)) end; assumption
  | |- keeps (match ?x with _ => _ end) _ => destruct x eqn:?
  | |- keeps (let _ := _ in _) _ => cbn zeta
  | |- forall _, keeps _ _ => intros ?
  | |- keeps _ _ => assumption
  end.
Ltac keep := repeat keep_step.

(** ** The operations *)

Section Operations.
Context `{Crypto} `{Codec} (I : host -> Prop) {G : State -> Prop} {HI : StateInv I G}.

Lemma keeps_copy : keeps copy_to_bak I.
Proof. unfold copy_to_bak. keep. Qed.
Lemma keeps_in_flight st : keeps (in_flight st) I.
Proof. unfold in_flight. keep. Qed.

Lemma keeps_prepare w cfg cat running proxy : begins G cat -> keeps (prepare_swap w cfg cat running proxy) I.
Proof.
  intros Hc. unfold prepare_swap. destruct (_ && _); [keep|]. eapply (keeps_load I). intros st Hst. apply keeps_bind; [apply keeps_in_flight|intros _].
  destruct (AC_Bins cat !! _) as [pin|]; [|keep]. destruct (_ || _); [keep|]. destruct (fetch_binary w cat pin proxy) as [new|]; [|keep].
  destruct (negb _); [keep|]. destruct (w_version_of w new) as [out|]; [|keep]. destruct (negb _); [keep|].
  eapply (keeps_load I). intros st2 Hst2. apply keeps_bind; [apply keeps_in_flight|intros _]. apply keeps_bind; [by eapply keeps_save, Hc|intros _].
  apply keeps_bind; [apply keeps_copy|intros _]. keep.
Qed.

Lemma keeps_perform w cfg cat running proxy : begins G cat -> keeps (performSelfUpdate w cfg cat running proxy) I.
Proof. intros Hc. unfold performSelfUpdate. apply keeps_bind; [by apply keeps_attempt, keeps_prepare|]. intros r. keep. Qed.

Lemma keeps_recordFailure e cfg prev detail : G prev -> keeps (recordFailure e cfg prev detail) I.
Proof. intros Hp. unfold recordFailure, persistAndReport. keep. Qed.
Lemma keeps_blocked cfg reason : keeps (recordSelfUpdateBlocked cfg reason) I.
Proof. unfold recordSelfUpdateBlocked. keep. Qed.
Lemma keeps_clear : keeps clearSelfUpdateBlocked I.
Proof. unfold clearSelfUpdateBlocked. keep. Qed.
Lemma keeps_or_record {A} e cfg prev (r : result agent_error A) : G prev -> keeps (or_record e cfg prev r) I.
Proof. intros Hp. destruct r as [a|[msg]]; cbn [or_record]; [keep|]. apply keeps_bind; [by apply keeps_recordFailure|]. keep. Qed.

(** An update that is left for after the apply may begin in the state before it. *)
Lemma spec_forced e cfg prev f :
  G prev -> spec (forced_update e cfg prev f) I (fun u h => I h /\ forall c, u = inr (Some c) -> begins G c) (fun _ => I) I.
Proof.
  intros Hp. assert (forall u : run_end + option agentCatalog, (forall c, u = inr (Some c) -> begins G c) ->
    spec (ret u) I (fun u h => I h /\ forall c, u = inr (Some c) -> begins G c) (fun _ => I) I) as Hret by (intros u Hu; apply spec_ret; auto).
  assert (forall detail msg, spec (recordFailure e cfg prev detail ;;! @fail host (run_end + option agentCatalog) (PlainError msg)) I (fun u h => I h /\ forall c, u = inr (Some c) -> begins G c) (fun _ => I) I) as Hfail.
  { intros detail msg. eapply spec_bind; [by apply keeps_recordFailure|]. intros ?. by apply spec_fail. }
  unfold forced_update. destruct (C_SelfUpdate cfg) as [su|]; [|by apply Hret]. cbn zeta. destruct (parseAgentCatalog f) as [c|]; [|by apply Hret].
  destruct (isForced _ _).
  - destruct (decideSelfUpdate _ _ _ _) eqn:Hd; try apply Hfail. eapply spec_bind; [apply keeps_perform, (inv_begin _ _ (SU_RunningVersion su) Hp); by rewrite Hd|].
    intros []; [by apply Hret|apply Hfail|by apply spec_fail].
  - apply Hret. intros c'. destruct (decideSelfUpdate _ _ _ _) eqn:Hd; try done. intros [= <-]. apply (inv_begin _ _ (SU_RunningVersion su) Hp). by rewrite Hd.
Qed.

Lemma keeps_deferred e cfg cat : (forall c, cat = Some c -> begins G c) -> keeps (deferred_update e cfg cat) I.
Proof.
  intros Hc. unfold deferred_update. destruct cat as [c|]; [|keep]. destruct (C_SelfUpdate cfg) as [su|]; [|keep]. apply keeps_bind; [by apply keeps_perform, Hc|].
  intros [|msg|msg]; [keep|..]; (apply keeps_bind; [destruct (String.eqb _ _); [keep|apply keeps_blocked]|keep]).
Qed.

Lemma keeps_restore v pu : keeps (restore_backup v pu) I.
Proof. unfold restore_backup. keep. Qed.
Lemma keeps_rollback w v pu reason : keeps (rollbackAndAbandon w v pu reason) I.
Proof. unfold rollbackAndAbandon. apply keeps_bind; [apply keeps_restore|]. intros rolled. keep. Qed.
Lemma keeps_early w v : keeps (reconcileSelfUpdateEarlyLocked w v) I.
Proof.
  unfold reconcileSelfUpdateEarlyLocked. eapply (keeps_load I). intros st Hst. destruct (A_PendingUpdate st) eqn:Hpu; [|keep]. cbn zeta.
  apply keeps_bind; [keep|intros _]. destruct (_ <? _); [apply keeps_rollback|keep].
Qed.
Lemma keeps_promote v healthy : keeps (ReconcileSelfUpdatePromote v healthy) I.
Proof. unfold ReconcileSelfUpdatePromote. keep. Qed.
Lemma keeps_retry w p cfg fetched : keeps (RetryDeferredSelfUpdate w p cfg fetched) I.
Proof.
  unfold RetryDeferredSelfUpdate. eapply (keeps_try_load I); [keep|]. intros st Hst. destruct (A_PendingUpdate st); [keep|]. destruct (A_PendingApply st); [keep|].
  destruct (String.eqb _ _); [keep|]. apply keeps_bind; [unfold WithMembershipGate; keep|]. intros f. cbn zeta.
  assert (keeps (clearSelfUpdateBlocked ;;! ret (@None swap_end)) I) as Hclear by (apply keeps_bind; [apply keeps_clear|keep]).
  destruct (parseAgentCatalog f) as [c|]; [|exact Hclear]. destruct (decideSelfUpdate _ _ _ _) eqn:Hd; try exact Hclear.
  all: apply keeps_bind; [apply keeps_perform, (inv_begin _ _ (SU_RunningVersion p) Hst); by rewrite Hd|]; intros [|msg|msg]; [keep| |keep]; (apply keeps_bind; [destruct (String.eqb _ _); [keep|apply keeps_blocked]|keep]).
Qed.
End Operations.
