(* ===== verification/AgentProps.v ===== *)
(** * The agent never goes back ([internal/agent])

    Invariants of the state file over any sequence of runs, errors and crashes: the
    floors in it cover every root script that was started. *)

From stdpp Require Import base gmap strings list sorting.
From Stdlib Require Import ZArith Lia Ascii.
From S2P Require Import Prelude GoLib GoSha LinkID GoText Semver TrustList Bundle BundleProps StoreTypes StoreMonad AgentState SelfUpdate AgentRun AgentLogic.

Local Open Scope Z_scope.
Local Open Scope go_scope.
Local Open Scope store_scope.

(** ** Time stamps that parse have no surrounding space *)

Definition suffix_of (r s : string) : Prop := exists a, s = (a +:+ r)%string.

Lemma suffix_refl s : suffix_of s s.
Proof. by exists "". Qed.
Lemma suffix_cons c r s : suffix_of r s -> suffix_of r (String c s).
Proof. intros [a ->]. by exists (String c a). Qed.
Lemma suffix_trans r s t : suffix_of r s -> suffix_of s t -> suffix_of r t.
Proof. intros [a ->] [b ->]. exists (b +:+ a)%string. by rewrite append_assoc. Qed.

Lemma digit1_suffix s a r : digit1 s = Some (a, r) -> suffix_of r s /\ exists c t, s = String c t /\ is_digit c = true.
Proof. destruct s as [|c t]; [done|]. cbn. destruct (is_digit c) eqn:E; [|done]. intros [= <- <-]. split; [apply suffix_cons, suffix_refl|eauto]. Qed.
Lemma digits2_suffix s a r : digits2 s = Some (a, r) -> suffix_of r s /\ exists c t, s = String c t /\ is_digit c = true.
Proof.
  unfold digits2. destruct (digit1 s) as [[x r1]|] eqn:E; [|done]. apply digit1_suffix in E as [Hs Hd]. destruct (digit1 r1) as [[y r2]|] eqn:E2; [|done].
  apply digit1_suffix in E2 as [Hs2 _]. intros [= <- <-]. split; [by eapply suffix_trans|done].
Qed.
Lemma digits4_suffix s a r : digits4 s = Some (a, r) -> suffix_of r s /\ exists c t, s = String c t /\ is_digit c = true.
Proof.
  unfold digits4. destruct (digits2 s) as [[x r1]|] eqn:E; [|done]. apply digits2_suffix in E as [Hs Hd]. destruct (digits2 r1) as [[y r2]|] eqn:E2; [|done].
  apply digits2_suffix in E2 as [Hs2 _]. intros [= <- <-]. split; [by eapply suffix_trans|done].
Qed.
Lemma digits12_suffix s a r : digits12 s = Some (a, r) -> suffix_of r s.
Proof. unfold digits12. destruct (digits2 s) as [[x r1]|] eqn:E; [intros [= <- <-]; by apply digits2_suffix in E as [? _]|]. by intros [? _]%digit1_suffix. Qed.
Lemma strip_tail p s r : strip p s = Some r -> suffix_of r s.
Proof. intros ->%strip_eq. by exists p. Qed.
Lemma fraction_suffix k acc s : suffix_of (fraction k acc s).2 s.
Proof.
  revert k acc. induction s as [|c s IH]; intros k acc; cbn [fraction]; [apply suffix_refl|]. destruct (is_digit c); [|apply suffix_refl].
  destruct k; apply suffix_cons, IH.
Qed.
Lemma opt_fraction_suffix s : suffix_of (opt_fraction s).2 s.
Proof. unfold opt_fraction. destruct s as [|c [|d r]]; try apply suffix_refl. case_match; [apply suffix_cons, fraction_suffix|apply suffix_refl]. Qed.

Lemma parse_shape s t : parse_compiled_at s = Some t -> (exists c r, s = String c r /\ is_digit c = true) /\ suffix_of "Z" s.
Proof.
  unfold parse_compiled_at. intros Hp.
  repeat match type of Hp with (?m ≫= _) = Some _ => let x := fresh "x" in let E := fresh "E" in destruct m as [x|] eqn:E; [cbn [mbind option_bind] in Hp; try destruct x as [? ?]|done] end.
  destruct (opt_fraction s5) as [ns r] eqn:Ef. pose proof (opt_fraction_suffix s5) as Hf. rewrite Ef in Hf. cbn [snd] in Hf.
  destruct (strip "Z" r) as [x4|] eqn:E10; [|done]. cbn [mbind option_bind] in Hp. destruct (String.eqb_spec x4 "") as [->|]; [|done].
  apply digits4_suffix in E as [H0 Hd]. split; [done|].
  apply strip_tail in E0, E2, E4, E6, E8. apply strip_eq in E10. apply digits2_suffix in E1 as [H1 _], E3 as [H3 _], E7 as [H7 _], E9 as [H9 _]. apply digits12_suffix in E5.
  subst r. do 11 (eapply suffix_trans; [eassumption|]). exact H0.
Qed.

Lemma digit_solid c : is_digit c = true -> solid c = true.
Proof. by destruct c as [[] [] [] [] [] [] [] []]. Qed.

Lemma TrimSpace_id c r a : is_digit c = true -> String c r = (a +:+ "Z")%string -> TrimSpace (String c r) = String c r.
Proof.
  intros Hc Hs. destruct a as [|c' a]; [injection Hs as -> _; discriminate Hc|]. rewrite append_cons in Hs. injection Hs as <- ->.
  apply TrimSpace_solid; [by apply digit_solid|done].
Qed.

Lemma parse_trimmed s t : parse_compiled_at s = Some t -> TrimSpace s = s.
Proof. intros [(c & r & -> & Hc) [a Ha]]%parse_shape. by eapply TrimSpace_id. Qed.

(** ** Floors *)

Definition time_of (s : string) : option Z := parse_compiled_at (TrimSpace s).
Definition time_floor (st : State) : option Z := time_of (effectiveRollbackState st).

(** The intent cannot be validated, so no run gets past it. *)
Definition wedged (st : State) : Prop := exists p, A_PendingApply st = Some p /\ parse_compiled_at (PA_CompiledAt p) = None.

(** The floors of [st] are not below a root script that was started. *)
Definition covered_by (st : State) (i : install) : Prop :=
  (keystone_on (in_cfg i) = true -> in_epoch i <= effectiveMembershipFloor st /\ locked st = true) /\
  exists t, time_of (MI_CompiledAt (in_man i)) = Some t /\ ((exists floor, time_floor st = Some floor /\ t <= floor) \/ wedged st).

(** One root script after another: no older list, no older bundle, and no way back
    from a signed list to none. *)
Definition not_older (i j : install) : Prop :=
  (keystone_on (in_cfg i) = true -> keystone_on (in_cfg j) = true /\ in_epoch i <= in_epoch j) /\
  exists t u, time_of (MI_CompiledAt (in_man i)) = Some t /\ time_of (MI_CompiledAt (in_man j)) = Some u /\ t <= u.

Lemma covered_same st st' i : same_custody st st' -> covered_by st i -> covered_by st' i.
Proof.
  intros (Hc & He & Hp & Hl) [Hk (t & Ht & Hf)]. split.
  - intros Hon. destruct (Hk Hon) as [Hle Hlock]. split; [|auto]. unfold effectiveMembershipFloor in *. by rewrite He, Hp.
  - exists t. split; [done|]. unfold time_floor, effectiveRollbackState, wedged in *. rewrite Hc, Hp. exact Hf.
Qed.


(** ** What the checks of a run establish *)

Section Checks.
Context `{Crypto} `{Codec}.

Lemma lift_Ok {A} (r : result agent_error A) a : r = Ok a -> lift r = ret a.
Proof. by intros ->. Qed.

Lemma validatePending_parses cfg st : validatePendingApply cfg st = Ok tt -> ~ wedged st.
Proof. intros Hv (p & Hp & Hn). unfold validatePendingApply in Hv. by rewrite Hp, Hn in Hv. Qed.

Lemma validatePending_keystone cfg st p :
  validatePendingApply cfg st = Ok tt -> A_PendingApply st = Some p -> PA_MembershipVerified p = true -> keystone_on cfg = true.
Proof.
  intros Hv Hp Hm. unfold validatePendingApply in Hv. rewrite Hp in Hv.
  do 6 (apply rbind_Ok_inv in Hv as (? & _ & Hv)). unfold validate_operator in Hv. rewrite Hm in Hv.
  apply rbind_Ok_inv in Hv as (? & _ & Hv). apply rbind_Ok_inv in Hv as (? & Hk & _). by apply require_Ok in Hk.
Qed.

(** The guards: an agent whose state is locked has an operator credential. *)
Lemma guards_locked cfg st :
  validatePendingApply cfg st = Ok tt -> (A_MembershipVerified st || (0 <? A_MembershipEpoch st)) && negb (keystone_on cfg) = false -> locked st = true -> keystone_on cfg = true.
Proof.
  intros Hv Hg Hl. unfold locked in Hl. destruct (A_MembershipVerified st || (0 <? A_MembershipEpoch st)); cbn [orb andb] in *; [by apply negb_false_iff|].
  destruct (A_PendingApply st) as [p|] eqn:Hp; [|done]. by eapply validatePending_keystone.
Qed.

Lemma CheckRollback_Ok baseline cand : CheckRollback baseline cand = Ok tt -> exists c, time_of cand = Some c /\ forall t, time_of baseline = Some t -> t <= c.
Proof.
  unfold CheckRollback, time_of. destruct (parse_compiled_at (TrimSpace cand)) as [c|]; [|done]. intros Hb. exists c. split; [done|]. intros t Ht.
  destruct (String.eqb_spec (TrimSpace baseline) "") as [E|_]; [by rewrite E in Ht|]. rewrite Ht in Hb. by destruct (Z.ltb_spec c t).
Qed.

(** A verified candidate: the bundle and its list pass, and it is not below the floors. *)
Record candidate (cfg : Config) (prev : State) (f : files) (v : verified) : Prop := {
  cand_manifest : manifest_of cfg f = Ok (v_man v);
  cand_bundle : VerifyBundle f (C_PinnedPubPEM cfg) = Ok (v_result v);
  cand_policy : candidateTelemetryPolicy f (keystone_on cfg) = Ok (v_policy v);
  cand_membership : VerifyMembership f (membership_of cfg) (effectiveMembershipFloor prev) = Ok (v_epoch v);
  cand_time : exists c, time_of (MI_CompiledAt (v_man v)) = Some c /\ forall t, time_floor prev = Some t -> t <= c;
  cand_pending : validateCandidateAgainstPending prev (v_man v) f (action_of cfg) = Ok tt }.

Lemma verify_candidate_Ok cfg prev f v : verify_candidate cfg prev f = Ok v -> candidate cfg prev f v.
Proof.
  unfold verify_candidate. intros (man & Hman & Hv)%rbind_Ok_inv. apply rbind_Ok_inv in Hv as (vr & Hvr & Hv). apply rbind_Ok_inv in Hv as (policy & Hpol & Hv).
  apply rbind_Ok_inv in Hv as (epoch & Hep & Hv). apply rbind_Ok_inv in Hv as ([] & Hroll & Hv). apply rbind_Ok_inv in Hv as ([] & Hpend & Hv). injection Hv as <-.
  split; try done. by apply CheckRollback_Ok.
Qed.

Lemma keystone_cred cfg : keystone_on cfg = true -> MC_OperatorCredPEM (membership_of cfg) <> "".
Proof. unfold keystone_on. intros Hk E. change (MC_OperatorCredPEM (membership_of cfg)) with (C_OperatorCredPEM cfg) in E. by rewrite E in Hk. Qed.

Lemma candidate_epoch cfg prev f v : candidate cfg prev f v -> keystone_on cfg = true -> effectiveMembershipFloor prev <= v_epoch v.
Proof.
  intros Hc Hk. destruct (VerifyMembership_Ok _ _ _ _ (keystone_cred _ Hk) (cand_membership _ _ _ _ Hc)) as (tl & self & Ha).
  by destruct (auth_epoch _ _ _ _ _ _ Ha).
Qed.

(** The new script is not older than any before it. *)
Lemma candidate_not_older cfg prev f v i action :
  validatePendingApply cfg prev = Ok tt -> (A_MembershipVerified prev || (0 <? A_MembershipEpoch prev)) && negb (keystone_on cfg) = false ->
  candidate cfg prev f v -> covered_by prev i -> not_older i (mkInstall cfg f (v_man v) (v_epoch v) action).
Proof.
  intros Hv Hg Hc [Hk (t & Ht & Hf)]. split; cbn [in_cfg in_epoch in_man].
  - intros Hon. destruct (Hk Hon) as [Hle Hlock]. pose proof (guards_locked _ _ Hv Hg Hlock) as Hkc. split; [done|].
    pose proof (candidate_epoch _ _ _ _ Hc Hkc). lia.
  - destruct (cand_time _ _ _ _ Hc) as (c & Hcc & Hfl). destruct Hf as [(fl & Hfl' & Hle)|Hw]; [|by destruct (validatePending_parses _ _ Hv)].
    exists t, c. split_and!; [done|done|]. specialize (Hfl _ Hfl'). lia.
Qed.

(** A state that covers a script covers every script before it. *)
Lemma covered_chain st i j : not_older i j -> covered_by st j -> covered_by st i.
Proof.
  intros [Hk (t & u & Ht & Hu & Hle)] [Hk' (u' & Hu' & Hf)]. rewrite Hu in Hu'. injection Hu' as <-. split.
  - intros Hon. destruct (Hk Hon) as [Hon' He]. destruct (Hk' Hon') as [? ?]. split; [lia|done].
  - exists t. split; [done|]. destruct Hf as [(fl & ? & ?)|]; [left; exists fl; split; [done|lia]|by right].
Qed.

(** The intent of a candidate on top of [prev]. *)
Record intends (cfg : Config) (prev : State) (v : verified) (st : State) (q : PendingApply) : Prop := {
  int_pending : A_PendingApply st = Some q;
  int_compiled : PA_CompiledAt q = MI_CompiledAt (v_man v);
  int_epoch : PA_MembershipEpoch q = v_epoch v;
  int_verified : PA_MembershipVerified q = keystone_on cfg;
  int_membership : A_MembershipEpoch st = A_MembershipEpoch prev;
  int_sticky : A_MembershipVerified st = A_MembershipVerified prev }.

Lemma intent_covers cfg prev f v st q action :
  candidate cfg prev f v -> intends cfg prev v st q -> covered_by st (mkInstall cfg f (v_man v) (v_epoch v) action).
Proof.
  intros Hc [Hp Hcomp Hep Hver _ _]. split; cbn [in_cfg in_epoch in_man].
  - intros Hon. unfold effectiveMembershipFloor, locked. rewrite Hp, Hep, Hver, Hon, !orb_true_r. split; [|done]. destruct (Z.ltb_spec (A_MembershipEpoch st) (v_epoch v)); lia.
  - destruct (cand_time _ _ _ _ Hc) as (c & Hcc & _). exists c. split; [done|]. unfold time_of in Hcc.
    destruct (parse_compiled_at (PA_CompiledAt q)) as [c'|] eqn:Eq; [|right; by exists q]. left.
    assert (time_of (PA_CompiledAt q) = Some c) as Hq by (unfold time_of; by rewrite Hcomp).
    unfold time_of in Hq. rewrite (parse_trimmed _ _ Eq), Eq in Hq. injection Hq as ->.
    unfold time_floor, effectiveRollbackState. rewrite Hp, Eq. destruct (parse_compiled_at (A_LastCompiledAt st)) as [l|] eqn:El.
    + destruct (Z.ltb_spec l c); [exists c; unfold time_of; by rewrite (parse_trimmed _ _ Eq)|]. exists l. unfold time_of. rewrite (parse_trimmed _ _ El). auto with lia.
    + exists c. unfold time_of. by rewrite (parse_trimmed _ _ Eq).
Qed.

Lemma success_covers e cfg prev f v st q vr policy action :
  candidate cfg prev f v -> intends cfg prev v st q -> covered_by (success_state e cfg st (v_man v) vr (v_epoch v) policy) (mkInstall cfg f (v_man v) (v_epoch v) action).
Proof.
  intros Hc Hi. split; cbn [in_cfg in_epoch in_man].
  - intros Hon. unfold effectiveMembershipFloor, locked, success_state. cbn [A_PendingApply A_MembershipEpoch A_MembershipVerified]. rewrite Hon. cbn [orb]. split; [lia|done].
  - destruct (cand_time _ _ _ _ Hc) as (c & Hcc & _). exists c. split; [done|]. left. exists c. split; [exact Hcc|lia].
Qed.

Lemma pending_for_Ok cfg man f epoch action now p :
  pending_for cfg man f epoch action now = Ok p ->
  PA_CompiledAt p = MI_CompiledAt man /\ PA_MembershipEpoch p = epoch /\ PA_MembershipVerified p = keystone_on cfg.
Proof. unfold pending_for. intros (d & _ & Hp)%rbind_Ok_inv. do 2 (apply rbind_Ok_inv in Hp as (? & _ & Hp)). by injection Hp as <-. Qed.

Lemma samePendingApply_fields a b :
  samePendingApply a b = true ->
  PA_CompiledAt a = PA_CompiledAt b /\ PA_MembershipEpoch a = PA_MembershipEpoch b /\ PA_MembershipVerified a = PA_MembershipVerified b.
Proof.
  unfold samePendingApply. rewrite !andb_true_iff, !String.eqb_eq, Z.eqb_eq, Bool.eqb_true_iff. intros H'. by destruct_and!.
Qed.

(** ** The invariant *)

(** A root script that was started: its bundle was verified, under the configured
    credential if there is one. *)
Definition verified_install (i : install) : Prop :=
  is_Ok (VerifyBundle (in_files i) (C_PinnedPubPEM (in_cfg i))) /\ (exists floor, VerifyMembership (in_files i) (membership_of (in_cfg i)) floor = Ok (in_epoch i)) /\
  manifest_of (in_cfg i) (in_files i) = Ok (in_man i).

Definition history_ok (L : list install) : Prop := Forall verified_install L /\ StronglySorted not_older L.

Record custody (L : list install) (h : host) : Prop := {
  cu_installs : h_installs h = L;
  cu_state : forall st, read_state h = Ok st -> Forall (covered_by st) L }.

Lemma custody_put L st h : Forall (covered_by st) L -> custody L h -> custody L (put_state st h).
Proof. intros Hst [Hi _]. split; [done|]. intros st' [= <-]. done. Qed.
Lemma custody_binary L b h : custody L h -> custody L (put_binary b h).
Proof. intros [Hi Hs]. by split. Qed.
Lemma custody_bak L b h : custody L h -> custody L (put_bak b h).
Proof. intros [Hi Hs]. by split. Qed.
End Checks.

(** The invariant rests on the fields that no bookkeeping touches. *)
Lemma covered_all L st st' : same_custody st st' -> Forall (covered_by st) L -> Forall (covered_by st') L.
Proof. intros Hs Hf. eapply Forall_impl; [exact Hf|]. intros i. by apply covered_same. Qed.

Lemma covered_begins L c : begins (fun st => Forall (covered_by st) L) c.
Proof. intros id pu st _. apply covered_all. eapply same_custody_trans; [apply same_custody_id|apply same_custody_update]. Qed.

#[export] Instance custody_inv L : StateInv (custody L) (fun st => Forall (covered_by st) L).
Proof.
  split.
  - intros h st [_ Hs]. apply Hs.
  - intros st h. apply custody_put.
  - intros b h. apply custody_binary.
  - intros b h. apply custody_bak.
  - intros st st' He. apply covered_all, He.
  - intros st c running _ _. apply covered_begins.
Qed.

Lemma keeps_finalize L v : keeps (FinalizeSelfUpdate v) (custody L).
Proof.
  unfold FinalizeSelfUpdate. eapply (keeps_try_load (custody L)); [keep|]. intros st Hst. destruct (A_PendingUpdate st) as [pu|]; [|keep].
  destruct (_ || _); [keep|]. apply keeps_bind; [|keep]. apply keeps_attempt, (keeps_save (custody L)). eapply covered_all; [apply same_custody_update|done].
Qed.

(** ** The run *)

Lemma keeps_or {A} (m : Act host A) (P Q : host -> Prop) : keeps m P -> keeps m Q -> keeps m (fun h => P h \/ Q h).
Proof.
  intros HP HQ fs h n [Hh|Hh]; [specialize (HP fs h n Hh)|specialize (HQ fs h n Hh)]; destruct (m fs h n); auto.
Qed.

Lemma StronglySorted_snoc {A} (R : A -> A -> Prop) l x : StronglySorted R l -> Forall (fun y => R y x) l -> StronglySorted R (l ++ [x]).
Proof.
  induction 1 as [|y l Hs IH Hy]; intros Hf; cbn [app]; [repeat constructor|]. apply Forall_cons in Hf as [? ?].
  constructor; [by apply IH|]. apply Forall_app. split; [done|]. by constructor.
Qed.

Section Candidate.
Context `{Crypto} `{Codec} (L : list install) (HL : history_ok L).
Context (e : env) (cfg : Config) (prev : State) (f : files) (v : verified).
Context (Hvalid : validatePendingApply cfg prev = Ok tt) (Hguard : (A_MembershipVerified prev || (0 <? A_MembershipEpoch prev)) && negb (keystone_on cfg) = false).
Context (Hcand : candidate cfg prev f v) (Hprev : Forall (covered_by prev) L).

Definition started : install := mkInstall cfg f (v_man v) (v_epoch v) (action_of cfg).

Lemma started_last : Forall (fun i => not_older i started) L.
Proof. eapply Forall_impl; [exact Hprev|]. intros i. by apply candidate_not_older. Qed.

Lemma history_started : history_ok (L ++ [started]).
Proof.
  destruct HL as [Hv Hs]. split.
  - apply Forall_app. split; [done|]. constructor; [|constructor]. split_and!; [eexists; apply (cand_bundle _ _ _ _ Hcand)|eexists; apply (cand_membership _ _ _ _ Hcand)|apply (cand_manifest _ _ _ _ Hcand)].
  - by apply StronglySorted_snoc, started_last.
Qed.

Lemma covers_started st : covered_by st started -> Forall (covered_by st) (L ++ [started]).
Proof.
  intros Hst. apply Forall_app. split; [|by constructor]. eapply Forall_impl; [exact started_last|]. intros i Hi. exact (covered_chain _ _ _ Hi Hst).
Qed.

Lemma custody_start st h q : intends cfg prev v st q -> h_state h = Some (Some st) -> custody L h -> custody (L ++ [started]) (put_install started h).
Proof.
  intros Hi Hst [Hin _]. split; [cbn; by rewrite Hin|]. intros st'. unfold read_state. cbn [h_state put_install]. rewrite Hst. intros [= <-].
  apply covers_started. by eapply intent_covers.
Qed.

(** The state on disk is the intent. *)
Definition armed (st : State) (h : host) : Prop := custody L h /\ h_state h = Some (Some st) /\ exists q, intends cfg prev v st q.

Lemma spec_persist :
  spec (persistPendingApply e cfg prev (v_man v) f (v_epoch v) (action_of cfg)) (custody L) armed (fun _ => custody L) (custody L).
Proof.
  assert (forall st q, intends cfg prev v st q -> spec (SaveState st ;;! ret st) (custody L) armed (fun _ => custody L) (custody L)) as Hsave.
  { intros st q Hi. assert (Forall (covered_by st) L) as Hc.
    { pose proof (covers_started st (intent_covers _ _ _ _ _ _ _ Hcand Hi)) as Hc. by apply Forall_app in Hc as [? _]. }
    eapply spec_bind with (R := fun _ => armed st); [|intros u; by apply spec_ret].
    apply spec_write; [|intros msg h Hh; split; [done|by apply custody_put]|intros h Hh; split; [done|by apply custody_put]].
    intros h Hh. split_and!; [by apply custody_put|done|by exists q]. }
  unfold persistPendingApply. eapply spec_bind with (R := fun p h => custody L h /\ pending_for cfg (v_man v) f (v_epoch v) (action_of cfg) (e_now e) = Ok p).
  { destruct (pending_for _ _ _ _ _ _) as [p|[msg]]; [by apply spec_ret|by apply spec_fail]. }
  intros p. apply spec_pure. intros (Hcomp & Hep & Hver)%pending_for_Ok. destruct (A_PendingApply prev) as [q|] eqn:Hq; [destruct (samePendingApply q p) eqn:Hs|].
  - apply samePendingApply_fields in Hs as (? & ? & ?). apply (Hsave prev q). split; [done|congruence..].
  - apply (Hsave _ p). by split.
  - apply (Hsave _ p). by split.
Qed.

Definition ended (h : host) : Prop := custody L h \/ custody (L ++ [started]) h.

Lemma keeps_failure_both st detail q : intends cfg prev v st q -> keeps (recordFailure e cfg st detail) ended.
Proof.
  intros Hi. pose proof (covers_started st (intent_covers _ _ _ _ _ _ _ Hcand Hi)) as Hc.
  apply keeps_or; [apply (keeps_recordFailure (custody L)); by apply Forall_app in Hc as [? _]|by apply (keeps_recordFailure (custody (L ++ [started])))].
Qed.

Lemma keeps_success st q vr policy : intends cfg prev v st q -> keeps (recordSuccess e cfg st (v_man v) vr (v_epoch v) policy) (custody (L ++ [started])).
Proof. intros Hi. apply (keeps_save (custody (L ++ [started]))), covers_started. by eapply success_covers. Qed.

Lemma spec_apply_candidate : spec (apply_candidate e cfg prev f v) (custody L) (fun _ => custody (L ++ [started])) (fun _ => ended) ended.
Proof.
  unfold apply_candidate. cbn zeta.
  assert (forall detail err, spec (recordFailure e cfg prev detail ;;! @fail host unit err) (custody L) (fun _ => custody (L ++ [started])) (fun _ => ended) ended) as Hfail.
  { intros detail err. eapply spec_bind with (R := fun _ => custody L); [|intros u; apply spec_fail; by left].
    eapply spec_weaken; [by apply (keeps_recordFailure (custody L))|done|done|intros ? ? ?; by left|intros ? ?; by left]. }
  eapply spec_bind with (R := fun _ => custody L); [eapply spec_weaken; [apply keeps_attempt, keeps_read|done|done|intros ? ? ?; by left|intros ? ?; by left]|].
  intros [u|err]; [|apply Hfail].
  eapply spec_bind with (R := fun r h => match r with Ok st => armed st h | Err _ => custody L h end).
  { apply spec_attempt. eapply spec_weaken; [apply spec_persist|done|done|done|intros ? ?; by left]. }
  intros [st|err]; [|apply Hfail].
  eapply spec_bind with (R := fun r h => (exists q, intends cfg prev v st q) /\ match r with Ok _ => custody (L ++ [started]) h | Err _ => ended h end).
  { apply spec_attempt. apply spec_write.
    - intros h (Hh & Hst & q & Hi). split; [by exists q|by eapply custody_start].
    - intros msg h (Hh & Hst & q & Hi). split; (split; [by exists q|]); [by left|right; by eapply custody_start].
    - intros h (Hh & Hst & q & Hi). split; [by left|right; by eapply custody_start]. }
  intros [u2|err] fs h n [(q & Hi) Hh].
  - pose proof (keeps_success st q (v_result v) (if String.eqb (action_of cfg) LastActionUninstall then "" else v_policy v) Hi fs h n Hh) as Hs.
    destruct (recordSuccess _ _ _ _ _ _ _ fs h n); [done|by right|by right].
  - pose proof (keeps_failure_both st "install.sh failed" q Hi fs h n Hh) as Hs. unfold abind. by destruct (recordFailure _ _ _ _ fs h n).
Qed.
End Candidate.

Section Histories.
Context `{Crypto} `{Codec}.

Definition after (L : list install) (h : host) : Prop := custody L h \/ exists i, history_ok (L ++ [i]) /\ custody (L ++ [i]) h.

(** A kept invariant is one way to end. *)
Lemma keeps_after {A} (m : Act host A) L (Q : A -> host -> Prop) :
  keeps m (custody L) -> (forall a h, custody L h -> Q a h) -> spec m (custody L) Q (fun _ => after L) (after L).
Proof. intros Hm HQ. eapply spec_weaken; [exact Hm|done|auto|intros ? ? ?; by left|intros ? ?; by left]. Qed.

Lemma spec_agent_run L e cfg : history_ok L -> spec (run e cfg) (custody L) (fun _ => after L) (fun _ => after L) (after L).
Proof.
  intros HL. assert (forall err, spec (@fail host run_end err) (custody L) (fun _ => after L) (fun _ => after L) (after L)) as Hfail
    by (intros err; apply spec_fail; by left).
  unfold run. destruct (String.eqb _ _); [apply Hfail|].
  eapply spec_bind with (R := fun _ => custody L); [apply keeps_after; [apply keeps_lift|done]|]. intros ?.
  eapply spec_bind with (R := fun _ => custody L); [apply keeps_after; [destruct (e_platform e); keep|done]|]. intros ?.
  eapply spec_bind with (R := fun _ => custody L); [apply keeps_after; [apply keeps_read|done]|]. intros ?.
  eapply spec_seq; [apply (spec_LoadState (custody L))|done|intros ? ? ?; by left|intros ? ?; by left|]. intros prev. apply spec_pure. intros Hprev.
  destruct (_ && _); [apply Hfail|]. destruct (validatePendingApply cfg prev) as [[]|[msg]] eqn:Hvalid; cbn [lift]; [|apply (Hfail (PlainError msg))].
  change (abind (ret tt) ?k) with (k tt). cbv beta.
  destruct ((A_MembershipVerified prev || (0 <? A_MembershipEpoch prev)) && negb (keystone_on cfg)) eqn:Hguard; [apply Hfail|].
  eapply spec_bind with (R := fun _ => custody L); [apply keeps_after; [by apply (keeps_or_record (custody L))|done]|]. intros f.
  eapply spec_bind with (R := fun v h => custody L h /\ candidate cfg prev f v).
  { destruct (verify_candidate cfg prev f) as [v|[msg]] eqn:Hv; cbn [or_record].
    - apply spec_ret. intros h Hh. split; [done|by apply verify_candidate_Ok].
    - eapply spec_bind with (R := fun _ => custody L); [apply keeps_after; [by apply (keeps_recordFailure (custody L))|done]|]. intros u. apply spec_fail. by left. }
  intros v. apply spec_pure. intros Hcand.
  eapply spec_seq; [by apply (spec_forced (custody L))|done|intros ? ? ?; by left|intros ? ?; by left|]. intros u. apply spec_pure. intros _. destruct u as [ended_|later]; [apply spec_ret; by left|].
  assert (forall h, ended L cfg f v h -> after L h) as Hended.
  { intros h [?|?]; [by left|right; eexists; split; [|eassumption]]. by eapply history_started. }
  eapply spec_seq; [by apply (spec_apply_candidate L e cfg prev f v)|done|auto|auto|]. intros ?.
  eapply spec_seq; [apply (keeps_deferred (custody (L ++ [started cfg f v]))); intros c _; apply covered_begins|done|intros ? ? ?; apply Hended; by right|intros ? ?; apply Hended; by right|].
  intros d. apply spec_ret. intros h Hh. apply Hended. by right.
Qed.

(** ** Histories *)

Inductive agent_op :=
| OpRun (e : env) (cfg : Config)
| OpBoot (w : world) (buildVersion : string)
| OpPromote (buildVersion : string) (healthy : bool)
| OpFinalize (buildVersion : string)
| OpRetry (w : world) (p : SelfUpdateParams) (cfg : Config) (fetched : result agent_error files).

Definition perform (o : agent_op) : Act host unit :=
  match o with
  | OpRun e cfg => run e cfg ;;! ret tt
  | OpBoot w v => reconcileSelfUpdateEarlyLocked w v ;;! ret tt
  | OpPromote v healthy => ReconcileSelfUpdatePromote v healthy
  | OpFinalize v => FinalizeSelfUpdate v
  | OpRetry w p cfg fetched => RetryDeferredSelfUpdate w p cfg fetched ;;! ret tt
  end.

(** Operations under the lease, one after the other, each with its faults; a crash
    leaves the files as they are. *)
Definition run_ops (ops : list (agent_op * Faults)) (h : host) : host :=
  foldl (fun h o => outcome_state (perform o.1 o.2 h 0%nat)) h ops.

Definition fresh_host (binary : string) : host := mkHost None binary None [].

Lemma perform_after L o : history_ok L -> spec (perform o) (custody L) (fun _ => after L) (fun _ => after L) (after L).
Proof.
  intros HL. destruct o as [e cfg|w v|v healthy|v|w p cfg fetched]; cbn [perform].
  - eapply spec_bind; [by apply spec_agent_run|]. intros r. by apply spec_ret.
  - apply keeps_after; [apply keeps_bind; [apply (keeps_early (custody L))|keep]|by left].
  - apply keeps_after; [apply (keeps_promote (custody L))|by left].
  - apply keeps_after; [apply keeps_finalize|by left].
  - apply keeps_after; [apply keeps_bind; [apply (keeps_retry (custody L))|keep]|by left].
Qed.

Lemma run_ops_ok ops h L : history_ok L -> custody L h -> exists L', history_ok L' /\ custody L' (run_ops ops h).
Proof.
  revert h L. induction ops as [|[o fs] ops IH]; intros h L HL Hh; [by exists L|]. cbn [run_ops foldl].
  pose proof (perform_after L o HL fs h 0%nat Hh) as Hp.
  assert (after L (outcome_state (perform o fs h 0%nat))) as [Hc|(i & HL' & Hc)] by (by destruct (perform o fs h 0%nat)).
  - by apply (IH _ L).
  - by apply (IH _ (L ++ [i])).
Qed.

(** C2. The agent never goes back.  Over any sequence of runs, start-up checks and
    update retries, with any bundles, configurations, errors and crashes, the root
    scripts that were started are each of a verified bundle, signed under the
    operator credential where one is configured; their list epochs and compile times
    never decrease; after one under a credential, none runs without.  The state file,
    when it is readable, has floors that cover them all; a compile time that an unresolved
    intent recorded in a form that does not parse gives no floor, and then no run gets
    past that intent ([wedged]). *)
Theorem agent_never_rolls_back ops binary :
  let h := run_ops ops (fresh_host binary) in
  Forall verified_install (h_installs h) /\ StronglySorted not_older (h_installs h) /\
  forall st, read_state h = Ok st -> Forall (covered_by st) (h_installs h).
Proof.
  intros h. destruct (run_ops_ok ops (fresh_host binary) []) as (L & [Hv Hs] & [Hi Hc]).
  - split; constructor.
  - split; [done|]. intros st _. constructor.
  - unfold h. rewrite Hi. done.
Qed.
End Histories.
