(* ===== verification/AgentRecovery.v ===== *)
(** * An interrupted apply can be completed, and one that cannot *)

From stdpp Require Import base gmap strings list sorting.
From Stdlib Require Import ZArith Lia Ascii.
From S2P Require Import Prelude GoLib GoSha LinkID GoText Semver GoBase64 TrustList Bundle BundleProps StoreTypes StoreMonad AgentState SelfUpdate AgentRun AgentLogic AgentProps.

Local Open Scope Z_scope.
Local Open Scope go_scope.
Local Open Scope store_scope.

(** ** States from which the same bundle goes through *)

Lemma valid_fingerprint der : validSHA256Hex (hex_encode (sha256_sum der)) = true.
Proof.
  unfold validSHA256Hex, hex_decodes. rewrite length_hex_encode, length_sha256_sum, all_hex_str. cbn [Nat.mul Nat.add Nat.eqb Nat.even andb].
  pose proof (sha256_sum_bytes der) as Hb. induction Hb as [|b bs Hb _ IH]; [done|]. change (hex_encode (b :: bs)) with (hex_byte b +:+ hex_encode bs)%string.
  unfold hex_byte. rewrite !append_cons. cbn [str_forall]. unfold is_byte in Hb.
  rewrite !hex_val_digit_of by (Z.div_mod_to_equations; lia). exact IH.
Qed.

Lemma valid_digest c : validSHA256Hex (sha256_hex c) = true.
Proof. apply valid_fingerprint. Qed.

Section Recovery.
Context `{Crypto} `{Codec}.

Lemma credFingerprint_valid pem fp : credFingerprint pem = Ok fp -> validSHA256Hex fp = true /\ fp <> "".
Proof.
  unfold credFingerprint. destruct (public_key_der pem) as [der|]; [|done]. intros [= <-]. split; [apply valid_fingerprint|].
  intros E. apply (f_equal String.length) in E. by rewrite length_hex_encode, length_sha256_sum in E.
Qed.

(** The guards pass and the bundle verifies as [v]. *)
Record resumable (cfg : Config) (f : files) (v : verified) (st : State) : Prop := {
  res_node : negb (String.eqb (A_NodeID st) "") && negb (String.eqb (A_NodeID st) (C_NodeID cfg)) = false;
  res_pending : validatePendingApply cfg st = Ok tt;
  res_guard : (A_MembershipVerified st || (0 <? A_MembershipEpoch st)) && negb (keystone_on cfg) = false;
  res_verified : verify_candidate cfg st f = Ok v }.

Lemma resumable_failure cfg f v st e detail : resumable cfg f v st -> resumable cfg f v (failure_state e cfg st detail).
Proof.
  intros [Hn Hp Hg Hv]. split; cbn.
  - destruct (String.eqb_spec (A_NodeID st) ""); cbn in *; [by rewrite String.eqb_refl, andb_false_r|]. destruct (String.eqb_spec (A_NodeID st) ""); done.
  - exact Hp.
  - rewrite <- Hg. f_equal. by destruct (A_MembershipVerified st), (0 <? A_MembershipEpoch st).
  - exact Hv.
Qed.

(** Bookkeeping of an update keeps what a resumed run reads. *)
Definition same_apply (st st' : State) : Prop :=
  A_PendingApply st' = A_PendingApply st /\ A_MembershipVerified st' = A_MembershipVerified st /\ A_MembershipEpoch st' = A_MembershipEpoch st /\
  A_LastCompiledAt st' = A_LastCompiledAt st /\ A_LastResult st' = A_LastResult st.

Lemma resumable_bookkeeping cfg f v st st' : A_NodeID st' = C_NodeID cfg -> same_apply st st' -> resumable cfg f v st -> resumable cfg f v st'.
Proof.
  intros Hid (Hp & Hmv & He & Hl & _) [Hn Hv Hg Hc]. split.
  - by rewrite Hid, String.eqb_refl, andb_false_r.
  - unfold validatePendingApply in *. by rewrite Hp.
  - by rewrite Hmv, He.
  - unfold verify_candidate, effectiveMembershipFloor, effectiveRollbackState, validateCandidateAgainstPending in *. by rewrite Hp, He, Hl.
Qed.

(** The update parameters play no part in it. *)
Definition set_SelfUpdate (su : option SelfUpdateParams) (cfg : Config) : Config :=
  match cfg with mkConfig a b c d e g h _ => mkConfig a b c d e g h su end.

Lemma resumable_SelfUpdate su cfg f v st : resumable cfg f v st -> resumable (set_SelfUpdate su cfg) f v st.
Proof. destruct cfg. intros [H1 H2 H3 H4]. split; [exact H1|exact H2|exact H3|exact H4]. Qed.

(** The bundle wants a newer agent before anything else. *)
Definition update_forced (cfg : Config) (f : files) : bool :=
  match C_SelfUpdate cfg with Some su => isForced (parseAgentCatalog f) (SU_RunningVersion su) | None => false end.

Lemma VerifyMembership_floor f cfg floor floor' epoch :
  (MC_OperatorCredPEM cfg <> "" -> floor' <= epoch) -> VerifyMembership f cfg floor = Ok epoch -> VerifyMembership f cfg floor' = Ok epoch.
Proof.
  intros Hle. unfold VerifyMembership. destruct (String.eqb_spec (MC_OperatorCredPEM cfg) "") as [|Hne]; [done|]. specialize (Hle Hne).
  intros (x1 & -> & Hv)%rbind_Ok_inv. cbn [rbind]. do 10 (apply rbind_Ok_inv in Hv as (? & -> & Hv); cbn [rbind]). cbn zeta in *.
  do 3 (apply rbind_Ok_inv in Hv as (? & -> & Hv); cbn [rbind]).
  apply rbind_Ok_inv in Hv as (u & _ & Hv). injection Hv as <-. match goal with |- context [?a <? floor'] => destruct (Z.ltb_spec a floor') end; [lia|done].
Qed.

(** ** What a run can leave on disk *)

Section Left.
Context (e : env) (cfg : Config) (f : files) (prev : State) (v : verified).
Context (Hprev : resumable cfg f v prev) (Hepoch : 0 <= A_MembershipEpoch prev).
Context (Hnow : is_Some (parse_compiled_at (e_now e))) (Hman : is_Some (parse_compiled_at (MI_CompiledAt (v_man v)))).

Lemma left_candidate : candidate cfg prev f v.
Proof. apply verify_candidate_Ok, Hprev. Qed.

Lemma epoch_bound : keystone_on cfg = true -> effectiveMembershipFloor prev <= v_epoch v.
Proof. intros Hk. exact (candidate_epoch _ _ _ _ left_candidate Hk). Qed.

Lemma floor_above st : A_MembershipEpoch st <= effectiveMembershipFloor st.
Proof. unfold effectiveMembershipFloor. destruct (A_PendingApply st) as [p|]; [|lia]. destruct (Z.ltb_spec (A_MembershipEpoch st) (PA_MembershipEpoch p)); lia. Qed.

Lemma epoch_nonneg : 0 <= v_epoch v.
Proof.
  destruct (keystone_on cfg) eqn:Hk; [pose proof (epoch_bound Hk); pose proof (floor_above prev); lia|].
  pose proof (cand_membership _ _ _ _ left_candidate) as Hm. unfold VerifyMembership in Hm. unfold keystone_on in Hk. apply negb_false_iff in Hk.
  change (MC_OperatorCredPEM (membership_of cfg)) with (C_OperatorCredPEM cfg) in Hm. rewrite Hk in Hm. injection Hm as <-. lia.
Qed.

(** The checks that do not depend on the state, again. *)
Lemma verify_again st :
  (keystone_on cfg = true -> effectiveMembershipFloor st <= v_epoch v) ->
  (forall c t, time_of (MI_CompiledAt (v_man v)) = Some c -> time_floor st = Some t -> t <= c) ->
  validateCandidateAgainstPending st (v_man v) f (action_of cfg) = Ok tt -> verify_candidate cfg st f = Ok v.
Proof.
  intros He Ht Hp. destruct left_candidate as [Hm Hb Hpol Hmem Hc _]. unfold verify_candidate. rewrite Hm. cbn [rbind]. rewrite Hb. cbn [rbind]. rewrite Hpol. cbn [rbind].
  assert (MC_OperatorCredPEM (membership_of cfg) <> "" -> effectiveMembershipFloor st <= v_epoch v) as Hle.
  { intros Hne. apply He. unfold keystone_on. by apply negb_true_iff, String.eqb_neq. }
  rewrite (VerifyMembership_floor _ _ _ (effectiveMembershipFloor st) _ Hle Hmem). cbn [rbind].
  destruct Hc as (c & Hcc & _). unfold CheckRollback. unfold time_of in Hcc. rewrite Hcc.
  assert ((if String.eqb (TrimSpace (effectiveRollbackState st)) "" then Ok tt
    else match parse_compiled_at (TrimSpace (effectiveRollbackState st)) with None => Ok tt | Some last_ => if c <? last_ then fails "agent: anti-rollback: candidate compiled_at is older than last applied" else Ok tt end) = Ok tt) as ->.
  { destruct (String.eqb _ _); [done|]. destruct (parse_compiled_at (TrimSpace (effectiveRollbackState st))) as [t|] eqn:Et; [|done].
    specialize (Ht c t Hcc Et). destruct (Z.ltb_spec c t); [lia|done]. }
  cbn [rbind]. rewrite Hp. by destruct v.
Qed.

Lemma action_valid : String.eqb (action_of cfg) LastActionApply || String.eqb (action_of cfg) LastActionUninstall = true.
Proof. unfold action_of. by destruct (Nat.eqb _ _). Qed.

(** The intent validates under the configuration that wrote it. *)
Lemma intent_validates p st :
  pending_for cfg (v_man v) f (v_epoch v) (action_of cfg) (e_now e) = Ok p -> A_PendingApply st = Some p -> validatePendingApply cfg st = Ok tt.
Proof.
  unfold pending_for. intros (digest & Hd & Hp)%rbind_Ok_inv Hst. apply rbind_Ok_inv in Hp as (signing & Hs & Hp). apply rbind_Ok_inv in Hp as (operator & Ho & Hp).
  injection Hp as <-. unfold validatePendingApply. rewrite Hst. cbn [PA_CompiledAt PA_StartedAt PA_Action PA_BundleSHA256 PA_MembershipEpoch].
  destruct Hman as [c ->], Hnow as [n ->]. cbn [require_some rbind]. rewrite action_valid. cbn [require rbind].
  assert (validSHA256Hex digest = true) as ->.
  { unfold verifiedBundleDigest in Hd. destruct (f !! "checksums.sha256"); [|done]. injection Hd as <-. apply valid_digest. }
  cbn [require rbind]. destruct (Z.ltb_spec (v_epoch v) 0); [pose proof epoch_nonneg; lia|]. cbn [negb require rbind].
  unfold validate_signing. cbn [PA_SigningKeyFingerprint]. destruct (String.eqb_spec (C_PinnedPubPEM cfg) "") as [E|Hne].
  - injection Hs as <-. cbn [String.eqb rbind]. unfold validate_operator. cbn [PA_MembershipVerified PA_OperatorCredentialFingerprint PA_OperatorCredentialAlg PA_OperatorRPID PA_OperatorOrigin].
    destruct (keystone_on cfg) eqn:Hk; [|injection Ho as <-; done].
    destruct (credFingerprint_valid _ _ Ho) as [-> _]. cbn [require rbind]. rewrite Ho. cbn [rbind]. by rewrite EqualFold_refl, !String.eqb_refl.
  - destruct (credFingerprint_valid _ _ Hs) as [Hvalid Hne']. destruct (String.eqb_spec signing ""); [done|]. rewrite Hvalid. cbn [require rbind negb].
    rewrite Hs. cbn [rbind]. rewrite EqualFold_refl. cbn [require rbind]. unfold validate_operator.
    cbn [PA_MembershipVerified PA_OperatorCredentialFingerprint PA_OperatorCredentialAlg PA_OperatorRPID PA_OperatorOrigin].
    destruct (keystone_on cfg) eqn:Hk; [|injection Ho as <-; done].
    destruct (credFingerprint_valid _ _ Ho) as [-> _]. cbn [require rbind]. rewrite Ho. cbn [rbind]. by rewrite EqualFold_refl, !String.eqb_refl.
Qed.

(** The baseline of [prev] is at most the candidate, so the baseline with the intent is. *)
Lemma last_below l c : parse_compiled_at (A_LastCompiledAt prev) = Some l -> time_of (MI_CompiledAt (v_man v)) = Some c -> l <= c.
Proof.
  intros Hl Hc. destruct (cand_time _ _ _ _ left_candidate) as (c' & Hc' & Hf). rewrite Hc in Hc'. injection Hc' as <-.
  assert (exists t, time_floor prev = Some t /\ l <= t) as (t & Ht & Hle); [|specialize (Hf t Ht); lia].
  assert (time_of (A_LastCompiledAt prev) = Some l) as Hl' by (unfold time_of; by rewrite (parse_trimmed _ _ Hl)).
  unfold time_floor, effectiveRollbackState. destruct (A_PendingApply prev) as [q|]; [|exists l; auto with lia].
  destruct (parse_compiled_at (PA_CompiledAt q)) as [t|] eqn:Eq; [|exists l; auto with lia]. rewrite Hl.
  destruct (Z.ltb_spec l t); [exists t; unfold time_of; rewrite (parse_trimmed _ _ Eq); auto with lia|exists l; auto with lia].
Qed.

Lemma resumable_intent p conds :
  pending_for cfg (v_man v) f (v_epoch v) (action_of cfg) (e_now e) = Ok p -> resumable cfg f v (with_intent cfg prev p conds).
Proof.
  intros Hp. pose proof (pending_for_Ok _ _ _ _ _ _ _ Hp) as (Hcomp & Hep & Hver). split; [by rewrite String.eqb_refl, andb_false_r|by eapply intent_validates|exact (res_guard _ _ _ _ Hprev)|].
  apply verify_again.
  - intros Hk. unfold effectiveMembershipFloor. cbn [A_PendingApply A_MembershipEpoch with_intent]. rewrite Hep.
    pose proof (epoch_bound Hk). pose proof (floor_above prev). destruct (Z.ltb_spec (A_MembershipEpoch prev) (v_epoch v)); lia.
  - intros c t Hc. unfold time_floor, effectiveRollbackState. cbn [A_PendingApply A_LastCompiledAt with_intent]. rewrite Hcomp. destruct Hman as [c' Hc'].
    rewrite Hc'. assert (c' = c) as -> by (unfold time_of in Hc; rewrite (parse_trimmed _ _ Hc') in Hc; congruence).
    destruct (parse_compiled_at (A_LastCompiledAt prev)) as [l|] eqn:El; [destruct (Z.ltb_spec l c)|]; intros Ht; [rewrite Hc in Ht; injection Ht as <-; lia| |rewrite Hc in Ht; injection Ht as <-; lia].
    unfold time_of in Ht. rewrite (parse_trimmed _ _ El), El in Ht. injection Ht as <-. by apply last_below.
  - unfold pending_for in Hp. apply rbind_Ok_inv in Hp as (digest & Hd & Hp). do 2 (apply rbind_Ok_inv in Hp as (? & _ & Hp)). injection Hp as <-.
    unfold validateCandidateAgainstPending. cbn [A_PendingApply with_intent PA_Action PA_CompiledAt PA_BundleSHA256 PA_ManifestChecksum]. rewrite String.eqb_refl. cbn [require rbind].
    destruct Hman as [c ->]. cbn [require_some rbind]. rewrite Z.eqb_refl, Hd. cbn [rbind]. by rewrite EqualFold_refl, String.eqb_refl.
Qed.

Lemma resumable_success st e' vr policy :
  A_MembershipEpoch st = A_MembershipEpoch prev -> A_MembershipVerified st = A_MembershipVerified prev ->
  resumable cfg f v (success_state e' cfg st (v_man v) vr (v_epoch v) policy).
Proof.
  intros He Hm. split.
  - cbn. by rewrite String.eqb_refl, andb_false_r.
  - done.
  - cbn [success_state A_MembershipVerified A_MembershipEpoch]. rewrite He, Hm. pose proof (res_guard _ _ _ _ Hprev) as Hg.
    destruct (keystone_on cfg) eqn:Hk; [by rewrite andb_false_r|]. rewrite andb_true_r in *. apply orb_false_iff in Hg as [-> Hlt]. rewrite Hlt. cbn [orb].
    pose proof (cand_membership _ _ _ _ left_candidate) as Hmem. unfold VerifyMembership in Hmem. unfold keystone_on in Hk. apply negb_false_iff in Hk.
    change (MC_OperatorCredPEM (membership_of cfg)) with (C_OperatorCredPEM cfg) in Hmem. rewrite Hk in Hmem. injection Hmem as <-. apply Z.ltb_ge in Hlt. apply Z.ltb_ge. lia.
  - apply verify_again.
    + intros Hk. cbn [effectiveMembershipFloor success_state A_PendingApply A_MembershipEpoch]. rewrite He. pose proof (epoch_bound Hk). pose proof (floor_above prev). lia.
    + intros c t Hc. unfold time_floor. cbn [effectiveRollbackState success_state A_PendingApply A_LastCompiledAt]. rewrite Hc. intros [= <-]. lia.
    + done.
Qed.
End Left.

(** ** One run, interrupted *)

Section Interrupted.
Context (L : list install) (e : env) (cfg : Config) (f : files).
Context (Hfetch : e_fetch e = Ok f) (Hnow : is_Some (parse_compiled_at (e_now e))).
Context (Hman : forall man, manifest_of cfg f = Ok man -> is_Some (parse_compiled_at (MI_CompiledAt man))).

Definition same_installs (h : host) : Prop := h_installs h = L.
(** Nothing was started, or the same bundle goes through. *)
Definition has_intent (v : verified) : Prop := is_Ok (pending_for cfg (v_man v) f (v_epoch v) (action_of cfg) (e_now e)).
Definition can_resume (h : host) : Prop := exists v st, h_state h = Some (Some st) /\ resumable cfg f v st /\ has_intent v /\ update_forced cfg f = false.
Definition left_over (h : host) : Prop := same_installs h \/ can_resume h.

Lemma keeps_installs st : keeps (SaveState st) same_installs.
Proof. by apply spec_write. Qed.
Lemma spec_failing prev detail err : spec (recordFailure e cfg prev detail ;;! @fail host unit err) same_installs (fun _ => left_over) (fun _ => left_over) left_over.
Proof.
  eapply spec_bind with (R := fun _ => same_installs); [|intros u; apply spec_fail; by left]. unfold recordFailure, persistAndReport. apply spec_ignore.
  eapply spec_weaken; [apply keeps_installs|done|done|done|intros ? ?; by left].
Qed.

#[local] Instance installs_inv : StateInv same_installs (fun _ => True).
Proof. by split. Qed.

(** A forced update ends the run, one way or another. *)
Lemma spec_forced_update prev :
  spec (forced_update e cfg prev f) same_installs (fun u h => same_installs h /\ forall l, u = inr l -> update_forced cfg f = false) (fun _ => same_installs) same_installs.
Proof.
  destruct (update_forced cfg f) eqn:Hf.
  2:{ eapply spec_weaken; [exact (spec_forced same_installs e cfg prev f I)|done| |done|done]. intros u h [Hh _]. by split. }
  unfold update_forced in Hf. unfold forced_update. destruct (C_SelfUpdate cfg) as [su|]; [|done]. cbn zeta. destruct (parseAgentCatalog f) as [c|]; [|done]. rewrite Hf.
  assert (forall detail msg, spec (recordFailure e cfg prev detail ;;! @fail host (run_end + option agentCatalog) (PlainError msg)) same_installs
    (fun u h => same_installs h /\ forall l, u = inr l -> true = false) (fun _ => same_installs) same_installs) as Hfail.
  { intros detail msg. eapply spec_bind; [exact (keeps_recordFailure same_installs e cfg prev detail I)|]. intros ?. by apply spec_fail. }
  destruct (decideSelfUpdate _ _ _ _); try apply Hfail. eapply spec_bind; [apply (keeps_perform same_installs (G := fun _ => True)); done|].
  intros []; [by apply spec_ret; intros h Hh; split|apply Hfail|by apply spec_fail].
Qed.

(** *** The update after the apply *)

Lemma spec_resuming st v : resumable cfg f v st -> has_intent v -> update_forced cfg f = false -> spec (SaveState st) can_resume (fun _ => can_resume) (fun _ => can_resume) can_resume.
Proof. intros Hr Hi Hu. apply spec_write; [|intros msg h Hh; split; [done|]|intros h Hh; split; [done|]]; try intros h Hh; by exists v, st. Qed.

Definition resuming (st : State) : Prop := exists v, resumable cfg f v st /\ has_intent v /\ update_forced cfg f = false.

Lemma spec_resuming_load : spec LoadState can_resume (fun st h => can_resume h /\ resuming st) (fun _ => can_resume) can_resume.
Proof.
  unfold LoadState. eapply spec_bind with (R := fun r h => can_resume h /\ forall st, r = Ok st -> resuming st).
  - apply spec_read; [|done|done]. intros h (v & st & Hs & Hr & Hi & Hu). split; [by exists v, st|]. unfold read_state. rewrite Hs. intros st' [= <-]. by exists v.
  - intros [st|[msg]]; [apply spec_ret; intros h [Hh Hst]; auto|apply spec_fail; by intros h [Hh _]].
Qed.

Lemma keeps_bookkeeping st st' : resuming st -> A_NodeID st' = C_NodeID cfg -> same_apply st st' -> keeps (SaveState st') can_resume.
Proof. intros (v & Hr & Hi & Hu) Hid Hsame. eapply spec_resuming; [by eapply resumable_bookkeeping|done|done]. Qed.

Lemma resuming_bak b h : can_resume h -> can_resume (put_bak b h).
Proof. intros (v & st & Hs & H'). by exists v, st. Qed.
Lemma resuming_binary b h : can_resume h -> can_resume (put_binary b h).
Proof. intros (v & st & Hs & H'). by exists v, st. Qed.

Ltac resume_step :=
  lazymatch goal with
  | |- keeps (ret _) ?I => apply (keeps_ret I)
  | |- keeps (fail _) ?I => apply (keeps_fail I)
  | |- keeps (ignore _) ?I => apply (keeps_ignore I)
  | |- keeps (attempt _) ?I => apply (keeps_attempt I)
  | |- keeps (abind LoadState _) ?I => eapply spec_bind; [apply spec_resuming_load|intros ?; apply spec_pure; intros ?]
  | |- keeps (abind _ _) ?I => apply (keeps_bind I); [|intros ?]
  | |- keeps (SaveState _) ?I => eapply keeps_bookkeeping; [eassumption|done|done]
  | |- keeps (prim_write _) ?I => apply (keeps_write I); intros ? ?; first [by apply resuming_bak|by apply resuming_binary]
  | |- keeps (match ?x with _ => _ end) _ => destruct x
  | |- spec ?m ?I _ _ _ => change (keeps m I)
  end.

Lemma resuming_perform w c running proxy : keeps (performSelfUpdate w cfg c running proxy) can_resume.
Proof. unfold performSelfUpdate, prepare_swap, in_flight, copy_to_bak. repeat resume_step. Qed.

Lemma resuming_blocked reason : keeps (recordSelfUpdateBlocked cfg reason) can_resume.
Proof.
  unfold recordSelfUpdateBlocked. eapply spec_bind with (R := fun r h => can_resume h /\ match r with Ok st => resuming st | Err _ => True end).
  - apply spec_attempt. eapply spec_weaken; [apply spec_resuming_load|auto..].
  - intros [st|err]; apply spec_pure; intros Hst; repeat resume_step.
Qed.

Lemma left_deferred cat : keeps (deferred_update e cfg cat) left_over.
Proof.
  apply keeps_or; [by apply (keeps_deferred same_installs (G := fun _ => True))|]. unfold deferred_update. destruct cat as [c|]; [|repeat resume_step].
  destruct (C_SelfUpdate cfg) as [su|]; [|repeat resume_step]. apply keeps_bind; [apply resuming_perform|]. intros [|msg|msg]; [repeat resume_step|..].
  all: apply keeps_bind; [destruct (String.eqb _ _); [repeat resume_step|apply resuming_blocked]|intros ?; repeat resume_step].
Qed.

Lemma spec_apply_left prev v :
  resumable cfg f v prev -> 0 <= A_MembershipEpoch prev -> manifest_of cfg f = Ok (v_man v) -> update_forced cfg f = false ->
  spec (apply_candidate e cfg prev f v) same_installs (fun _ => left_over) (fun _ => left_over) left_over.
Proof.
  intros Hprev He Hmv Hu. unfold apply_candidate. cbn zeta. specialize (Hman _ Hmv).
  eapply spec_bind with (R := fun _ => same_installs); [apply spec_attempt, spec_read; [done|done|intros; by left]|]. intros [u|err]; [|apply spec_failing].
  eapply spec_bind with (R := fun r h => match r with
    | Ok st => (same_installs h /\ has_intent v) /\ h_state h = Some (Some st) /\ resumable cfg f v st /\ A_MembershipEpoch st = A_MembershipEpoch prev /\ A_MembershipVerified st = A_MembershipVerified prev
    | Err _ => same_installs h end).
  { apply spec_attempt. unfold persistPendingApply. destruct (pending_for _ _ _ _ _ _) as [p|[msg]] eqn:Hp; cbn [lift]; [|by apply spec_fail].
    assert (has_intent v) as Hint by (by exists p).
    assert (forall st, resumable cfg f v st -> A_MembershipEpoch st = A_MembershipEpoch prev -> A_MembershipVerified st = A_MembershipVerified prev ->
      spec (SaveState st ;;! ret st) same_installs (fun a h => (same_installs h /\ has_intent v) /\ h_state h = Some (Some a) /\ resumable cfg f v a /\
        A_MembershipEpoch a = A_MembershipEpoch prev /\ A_MembershipVerified a = A_MembershipVerified prev) (fun _ => same_installs) left_over) as Hsave.
    { intros st Hr H1 H2. eapply spec_bind with (R := fun _ h => same_installs h /\ h_state h = Some (Some st)); [apply spec_write; [done|done|intros h Hh; split; by left]|].
      intros u0. apply spec_ret. intros h [Hh Hs]. done. }
    change (abind (ret p) ?k) with (k p). cbv beta.
    destruct (A_PendingApply prev) as [q|]; [destruct (samePendingApply q p)|]; [by apply Hsave|..].
    all: apply Hsave; [by eapply resumable_intent|done|done]. }
  intros [st|err]; [|apply spec_failing].
  eapply spec_bind with (R := fun r h => (resumable cfg f v st /\ has_intent v /\ A_MembershipEpoch st = A_MembershipEpoch prev /\ A_MembershipVerified st = A_MembershipVerified prev) /\
    match r with Ok _ => can_resume h | Err _ => left_over h end).
  { apply spec_attempt, spec_write.
    - intros h ((Hh & Hint) & Hs & Hr & ? & ?). split; [done|]. by exists v, st.
    - intros msg h ((Hh & Hint) & Hs & Hr & ? & ?). split; (split; [done|]); [by left|right; by exists v, st].
    - intros h ((Hh & Hint) & Hs & Hr & ? & ?). split; [by left|right; by exists v, st]. }
  intros [u2|err] fs h n [(Hr & Hint & H1 & H2) Hh].
  - assert (resumable cfg f v (success_state e cfg st (v_man v) (v_result v) (v_epoch v) (if String.eqb (action_of cfg) LastActionUninstall then "" else v_policy v))) as Hsucc
      by (eapply resumable_success; eauto).
    pose proof (spec_resuming _ v Hsucc Hint Hu fs h n Hh) as Hs. unfold recordSuccess, persistAndReport. destruct (SaveState _ fs h n); by right.
  - assert (spec (recordFailure e cfg st "install.sh failed") left_over (fun _ => left_over) (fun _ => left_over) left_over) as Hs.
    { apply keeps_or; unfold recordFailure, persistAndReport; apply spec_ignore; [apply keeps_installs|].
      eapply spec_resuming; [by apply resumable_failure|done|done]. }
    specialize (Hs fs h n Hh). unfold abind. by destruct (recordFailure _ _ _ _ fs h n).
Qed.

Lemma spec_run_left :
  spec (run e cfg) (fun h => same_installs h /\ forall st, read_state h = Ok st -> 0 <= A_MembershipEpoch st) (fun _ => left_over) (fun _ => left_over) left_over.
Proof.
  assert (forall err, spec (@fail host run_end err) same_installs (fun _ => left_over) (fun _ => left_over) left_over) as Hfail by (intros err; apply spec_fail; by left).
  set (P := fun h => same_installs h /\ forall st, read_state h = Ok st -> 0 <= A_MembershipEpoch st).
  assert (forall {A} (m : Act host A), (forall fs h n, match m fs h n with Done _ h' _ | Failed _ h' _ => h' = h | Crashed h' => h' = h end) -> spec m P (fun _ => P) (fun _ => left_over) left_over) as Hpure.
  { intros A m Hm fs h n Hh. specialize (Hm fs h n). destruct (m fs h n); subst; [done|left; apply Hh..]. }
  unfold run. destruct (String.eqb _ _); [apply spec_fail; intros h [? _]; by left|].
  eapply spec_bind; [apply Hpure; intros fs h n; by destruct (validateInstallArgs _) as [[]|[]]|intros ?].
  eapply spec_bind; [apply Hpure; intros fs h n; by destruct (e_platform e)|intros ?].
  eapply spec_bind; [apply Hpure; intros fs h n; unfold prim_read; by destruct (fs n)|intros ?].
  eapply spec_bind with (R := fun prev h => same_installs h /\ 0 <= A_MembershipEpoch prev).
  { unfold LoadState. eapply spec_bind with (R := fun r h => same_installs h /\ forall st, r = Ok st -> 0 <= A_MembershipEpoch st).
    - apply spec_read; [done|intros msg h [? _]; by left|intros h [? _]; by left].
    - intros [st|[msg]]; [apply spec_ret; intros h [Hh Hst]; auto|apply spec_fail; intros h [Hh _]; by left]. }
  intros prev. apply spec_pure. intros He. destruct (negb _ && negb _) eqn:Hnode; [apply Hfail|].
  destruct (validatePendingApply cfg prev) as [[]|[msg]] eqn:Hvalid; cbn [lift]; [|apply (Hfail (PlainError msg))]. change (abind (ret tt) ?k) with (k tt). cbv beta.
  destruct ((A_MembershipVerified prev || _) && _) eqn:Hguard; [apply Hfail|]. rewrite Hfetch. cbn [or_record]. change (abind (ret f) ?k) with (k f). cbv beta.
  destruct (verify_candidate cfg prev f) as [v|[msg]] eqn:Hv; cbn [or_record].
  2:{ eapply spec_bind with (R := fun _ _ => False); [eapply (spec_bind _ _ _ (fun _ => same_installs)); [|intros u; apply spec_fail; by left]|].
      - unfold recordFailure, persistAndReport. apply spec_ignore. eapply spec_weaken; [apply keeps_installs|done|done|done|intros ? ?; by left].
      - by intros u fs h n. }
  change (abind (ret v) ?k) with (k v). cbv beta.
  eapply spec_bind with (R := fun u h => same_installs h /\ forall l, u = inr l -> update_forced cfg f = false).
  { eapply spec_weaken; [apply spec_forced_update|done|done|intros ? ? ?; by left|intros ? ?; by left]. }
  intros [ended|later]; apply spec_pure; intros Hu; [apply spec_ret; intros h Hh; by left|]. specialize (Hu _ eq_refl).
  eapply spec_bind with (R := fun _ => left_over).
  - apply spec_apply_left; [by split|done| |done]. exact (cand_manifest _ _ _ _ (verify_candidate_Ok _ _ _ _ Hv)).
  - intros u. eapply spec_bind; [apply left_deferred|]. intros d. by apply spec_ret.
Qed.
End Interrupted.

(** ** The retry *)

Lemma load_now h st n : h_state h = Some (Some st) -> LoadState no_faults h n = Done st h (n + 1)%nat.
Proof. intros Hs. unfold LoadState, abind, prim_read, no_faults, read_state. by rewrite Hs. Qed.
Lemma save_now st h n : SaveState st no_faults h n = Done tt (put_state st h) (n + 1)%nat.
Proof. done. Qed.

Lemma pending_any_time cfg man f epoch action now now' : is_Ok (pending_for cfg man f epoch action now) -> is_Ok (pending_for cfg man f epoch action now').
Proof.
  intros [p Hp]. unfold pending_for in *. apply rbind_Ok_inv in Hp as (d & -> & Hp). cbn [rbind]. apply rbind_Ok_inv in Hp as (s & -> & Hp). cbn [rbind].
  apply rbind_Ok_inv in Hp as (o & -> & Hp). cbn [rbind]. by eexists.
Qed.

Lemma persist_now e cfg prev man f epoch action h n :
  is_Ok (pending_for cfg man f epoch action (e_now e)) ->
  exists st n', persistPendingApply e cfg prev man f epoch action no_faults h n = Done st (put_state st h) n'.
Proof.
  intros [p Hp]. unfold persistPendingApply. rewrite Hp. cbn [lift]. change (abind (ret p) ?k) with (k p). cbv beta. destruct (match A_PendingApply prev with Some q => samePendingApply q p | None => false end).
  all: unfold abind; rewrite save_now; by eexists _, _.
Qed.

(** *** An update without faults *)

(** Without faults [m] ends without a crash, and in [Q]; [sure] also excludes an error. *)
Section Sure.
Context (Q : host -> Prop).
Definition safe {A} (m : Act host A) : Prop := forall h n, Q h -> match m no_faults h n with Done _ h' _ | Failed _ h' _ => Q h' | Crashed _ => False end.
Definition sure {A} (m : Act host A) : Prop := forall h n, Q h -> exists a h' n', m no_faults h n = Done a h' n' /\ Q h'.

Lemma sure_safe {A} (m : Act host A) : sure m -> safe m.
Proof. intros Hm h n Hh. destruct (Hm h n Hh) as (a & h' & n' & -> & Hq). exact Hq. Qed.
Lemma sure_ret {A} (a : A) : sure (ret a).
Proof. intros h n Hh. by eexists _, _, _. Qed.
Lemma sure_bind {A B} (m : Act host A) (k : A -> Act host B) : sure m -> (forall a, sure (k a)) -> sure (abind m k).
Proof. intros Hm Hk h n Hh. destruct (Hm h n Hh) as (a & h1 & n1 & E & Hq). unfold abind. rewrite E. by apply Hk. Qed.
Lemma sure_attempt {A} (m : Act host A) : safe m -> sure (attempt m).
Proof. intros Hm h n Hh. specialize (Hm h n Hh). unfold attempt. destruct (m no_faults h n); [by eexists _, _, _..|done]. Qed.
Lemma sure_ignore {A} (m : Act host A) : safe m -> sure (ignore m).
Proof. intros Hm. apply sure_bind; [by apply sure_attempt|intros ?; apply sure_ret]. Qed.
Lemma safe_fail {A} err : safe (@fail host A err).
Proof. by intros h n Hh. Qed.
Lemma safe_bind {A B} (m : Act host A) (k : A -> Act host B) : safe m -> (forall a, safe (k a)) -> safe (abind m k).
Proof. intros Hm Hk h n Hh. specialize (Hm h n Hh). unfold abind. destruct (m no_faults h n); [by apply Hk|done..]. Qed.
Lemma sure_write g : (forall h, Q h -> Q (g h)) -> sure (prim_write g).
Proof. intros Hg h n Hh. eexists _, _, _. split; [done|by apply Hg]. Qed.
End Sure.

(** The committed state [st0], up to the bookkeeping of an update. *)
Definition committed (st0 : State) (installs : list install) (h : host) : Prop :=
  exists st, h_state h = Some (Some st) /\ same_apply st0 st /\ h_installs h = installs.

Lemma same_apply_refl st : same_apply st st.
Proof. done. Qed.
Lemma same_apply_trans a b c : same_apply a b -> same_apply b c -> same_apply a c.
Proof. intros (? & ? & ? & ? & ?) (? & ? & ? & ? & ?). split_and!; congruence. Qed.

Section Committed.
Context (st0 : State) (installs : list install).
#[local] Abbreviation Q := (committed st0 installs).

Lemma committed_load h n : Q h -> exists st, LoadState no_faults h n = Done st h (n + 1)%nat /\ same_apply st0 st.
Proof. intros (st & Hs & Ha & _). exists st. split; [by apply load_now|done]. Qed.

Lemma safe_load {A} (k : State -> Act host A) : (forall st, same_apply st0 st -> safe Q (k st)) -> safe Q (do! st <- LoadState in k st).
Proof. intros Hk h n Hh. destruct (committed_load h n Hh) as (st & E & Ha). unfold abind. rewrite E. by apply Hk. Qed.

Lemma sure_save st st' : same_apply st0 st -> same_apply st st' -> sure Q (SaveState st').
Proof. intros H1 H2. apply sure_write. intros h (s & _ & _ & Hi). exists st'. split_and!; [done|by eapply same_apply_trans|done]. Qed.

Lemma committed_bak b h : Q h -> Q (put_bak b h).
Proof. intros (st & ? & ? & ?). by exists st. Qed.
Lemma committed_binary b h : Q h -> Q (put_binary b h).
Proof. intros (st & ? & ? & ?). by exists st. Qed.

Ltac safe_step :=
  lazymatch goal with
  | |- safe _ (ret _) => apply sure_safe, sure_ret
  | |- safe _ (fail _) => apply safe_fail
  | |- safe _ (attempt _) => apply sure_safe, sure_attempt
  | |- safe _ (ignore _) => apply sure_safe, sure_ignore
  | |- safe _ (abind LoadState _) => apply safe_load; intros ? ?
  | |- safe _ (abind _ _) => apply safe_bind; [|intros ?]
  | |- safe _ (SaveState _) => eapply sure_safe, sure_save; [eassumption|done]
  | |- safe _ (prim_write _) => apply sure_safe, sure_write; intros ? ?; first [by apply committed_bak|by apply committed_binary]
  | |- safe _ (match ?x with _ => _ end) => destruct x
  end.

Lemma sure_perform w cfg c running proxy : sure Q (performSelfUpdate w cfg c running proxy).
Proof.
  unfold performSelfUpdate. apply sure_bind; [|intros [|]; apply sure_ret]. apply sure_attempt. unfold prepare_swap, in_flight, copy_to_bak. repeat safe_step.
Qed.

Lemma sure_blocked cfg reason : sure Q (recordSelfUpdateBlocked cfg reason).
Proof.
  intros h n Hh. unfold recordSelfUpdateBlocked. destruct (committed_load h n Hh) as (st & E & Ha). unfold abind at 1, attempt at 1. rewrite E.
  apply (sure_ignore Q); [|done]. repeat safe_step.
Qed.

Lemma sure_deferred e cfg cat : sure Q (deferred_update e cfg cat).
Proof.
  unfold deferred_update. destruct cat as [c|]; [|apply sure_ret]. destruct (C_SelfUpdate cfg) as [su|]; [|apply sure_ret]. apply sure_bind; [apply sure_perform|].
  intros [|msg|msg]; [apply sure_ret|..]; (apply sure_bind; [destruct (String.eqb _ _); [apply sure_ret|apply sure_blocked]|intros ?; apply sure_ret]).
Qed.
End Committed.

Lemma forced_passes e cfg prev f : update_forced cfg f = false -> exists later, forced_update e cfg prev f = ret (inr later) /\ (C_SelfUpdate cfg = None -> later = None).
Proof.
  unfold update_forced, forced_update. destruct (C_SelfUpdate cfg) as [su|]; [|by exists None]. cbn zeta. destruct (parseAgentCatalog f); [intros ->|]; by eexists.
Qed.

Lemma deferred_end e cfg cat fs h n r h' n' : deferred_update e cfg cat fs h n = Done (Some r) h' n' -> r = Reexecuted /\ C_SelfUpdate cfg <> None.
Proof.
  unfold deferred_update. destruct cat as [c|]; [|done]. destruct (C_SelfUpdate cfg) as [su|]; [|done]. unfold abind at 1. destruct (performSelfUpdate _ _ _ _ _ fs h n) as [[|msg|msg] h1 n1| |]; try done.
  - by intros [= <- _ _].
  - unfold abind. repeat case_match; done.
  - unfold abind. repeat case_match; done.
Qed.

(** Without faults the same bundle goes through and the intent is resolved. *)
Lemma resume_completes e e' cfg su f h :
  e_fetch e' = Ok f -> e_platform e' = true -> String.eqb (TrimSpace (C_NodeID cfg)) "" = false -> validateInstallArgs (C_InstallArgs cfg) = Ok tt ->
  update_forced (set_SelfUpdate su cfg) f = false -> can_resume e cfg f h ->
  exists man epoch r h' n st, run e' (set_SelfUpdate su cfg) no_faults h 0%nat = Done r h' n /\ read_state h' = Ok st /\
    A_PendingApply st = None /\ A_LastResult st = LastResultOK /\ A_LastCompiledAt st = MI_CompiledAt man /\
    h_installs h' = h_installs h ++ [mkInstall (set_SelfUpdate su cfg) f man epoch (action_of cfg)] /\ (r = Applied man (action_of cfg) epoch \/ r = Reexecuted /\ su <> None).
Proof.
  intros Hfetch Hplat Hid Hargs Hnf (v & st & Hst & Hres & Hint & _). apply (pending_any_time _ _ _ _ _ _ (e_now e')) in Hint.
  apply (resumable_SelfUpdate su) in Hres. set (cfg' := set_SelfUpdate su cfg) in *. destruct Hres as [Hnode Hpend Hguard Hver].
  assert (C_NodeID cfg' = C_NodeID cfg /\ C_InstallArgs cfg' = C_InstallArgs cfg /\ C_SelfUpdate cfg' = su) as (E1 & E2 & E3) by (unfold cfg'; by destruct cfg).
  assert (action_of cfg' = action_of cfg) as E4 by (unfold action_of; by rewrite E2).
  assert (is_Ok (pending_for cfg' (v_man v) f (v_epoch v) (action_of cfg') (e_now e'))) as Hint' by (rewrite E4; unfold cfg'; destruct cfg; exact Hint).
  destruct (forced_passes e' cfg' st f Hnf) as (later & Hforced & Hlater).
  unfold run. rewrite E1, E2, Hid, Hargs, Hplat. cbn [lift]. unfold abind at 1. cbn [ret]. unfold abind at 1. cbn [ret]. unfold abind at 1, prim_read at 1, no_faults at 1.
  unfold abind at 1. rewrite (load_now h st) by done. rewrite <- E1, Hnode, Hpend. cbn [lift]. unfold abind at 1. cbn [ret]. rewrite Hguard, Hfetch. cbn [or_record].
  unfold abind at 1. cbn [ret]. rewrite Hver. cbn [or_record]. unfold abind at 1. cbn [ret]. rewrite Hforced. unfold abind at 1. cbn [ret].
  unfold apply_candidate. cbn zeta. unfold abind at 1, abind at 1, attempt at 1, prim_read at 1, no_faults at 1. unfold abind at 1, attempt at 1.
  destruct (persist_now e' cfg' st (v_man v) f (v_epoch v) (action_of cfg') h (0 + 1 + 1 + 1)%nat Hint') as (st' & n' & ->). unfold abind at 1, attempt at 1, prim_write at 1, no_faults at 1.
  unfold recordSuccess, persistAndReport. rewrite save_now. unfold abind at 1.
  set (st2 := success_state _ _ _ _ _ _ _). set (h2 := put_state st2 _).
  destruct (sure_deferred st2 (h_installs h2) e' cfg' later h2 (n' + 1 + 1)%nat) as (d & h3 & n3 & Hd & (st3 & Hs3 & (P1 & _ & _ & P4 & P5) & Hi)); [by exists st2|].
  rewrite Hd. cbn [ret]. exists (v_man v), (v_epoch v). eexists _, h3, n3, st3. split; [reflexivity|]. unfold read_state. rewrite Hs3. split_and!; [done|by rewrite P1|by rewrite P5|by rewrite P4| |].
  - rewrite Hi, <- E4. done.
  - rewrite <- E4. destruct d as [r|]; [right|by left]. destruct (deferred_end _ _ _ _ _ _ _ _ _ Hd) as [-> Hsu]. by rewrite E3 in Hsu.
Qed.

(** C18. An interrupted apply can be completed.  Whatever errors or crash end a run
    after it started the root script, the next run of the same bundle goes through when
    nothing fails: the script is run again and committed as last good, and the intent is
    resolved, also when an update of the agent follows and replaces the process.  The
    second run may belong to another version of the agent, if the bundle does not force
    an update on it; for the same version that is no condition.  The clock and the
    compile time of the manifest must be texts that parse as they are recorded:
    [padded_compiled_at_wedges] shows a manifest where this fails. *)
Theorem interrupted_apply_recovers e e' cfg su f fs h :
  e_fetch e = Ok f -> e_fetch e' = Ok f -> e_platform e' = true -> is_Some (parse_compiled_at (e_now e)) ->
  (forall man, manifest_of cfg f = Ok man -> is_Some (parse_compiled_at (MI_CompiledAt man))) ->
  (forall st, read_state h = Ok st -> 0 <= A_MembershipEpoch st) ->
  su = C_SelfUpdate cfg \/ update_forced (set_SelfUpdate su cfg) f = false ->
  let left := outcome_state (run e cfg fs h 0%nat) in
  h_installs left <> h_installs h ->
  exists man epoch r h' n st, run e' (set_SelfUpdate su cfg) no_faults left 0%nat = Done r h' n /\ read_state h' = Ok st /\
    A_PendingApply st = None /\ A_LastResult st = LastResultOK /\ A_LastCompiledAt st = MI_CompiledAt man /\
    h_installs h' = h_installs left ++ [mkInstall (set_SelfUpdate su cfg) f man epoch (action_of cfg)] /\ (r = Applied man (action_of cfg) epoch \/ r = Reexecuted /\ su <> None).
Proof.
  intros Hf Hf' Hplat Hnow Hman Hep Hsu left Hstart.
  assert (String.eqb (TrimSpace (C_NodeID cfg)) "" = false) as Hid.
  { destruct (String.eqb (TrimSpace (C_NodeID cfg)) "") eqn:E; [|done]. unfold left, run in Hstart. by rewrite E in Hstart. }
  assert (validateInstallArgs (C_InstallArgs cfg) = Ok tt) as Hargs.
  { destruct (validateInstallArgs (C_InstallArgs cfg)) as [[]|[msg]] eqn:E; [done|]. unfold left, run in Hstart. by rewrite Hid, E in Hstart. }
  pose proof (spec_run_left (h_installs h) e cfg f Hf Hnow Hman fs h 0%nat (conj eq_refl Hep)) as Hl.
  assert (can_resume e cfg f left) as Hres by (unfold left in *; destruct (run e cfg fs h 0%nat); destruct Hl as [Hl|]; done).
  apply (resume_completes e e' cfg su f left); try done. destruct Hsu as [-> |]; [|done]. destruct Hres as (_ & _ & _ & _ & _ & Hu). by destruct cfg.
Qed.


(** A state with an intent that does not parse stops every run before it writes
    anything. *)
Lemma wedged_run e cfg fs h n st : read_state h = Ok st -> wedged st -> outcome_state (run e cfg fs h n) = h.
Proof.
  intros Hst Hw. unfold run. destruct (String.eqb _ _); [done|]. destruct (validateInstallArgs _) as [[]|[msg]]; cbn [lift]; [|done]. unfold abind at 1. cbn [ret].
  destruct (e_platform e); [|done]. unfold abind at 1. cbn [ret]. unfold abind at 1, prim_read at 1. destruct (fs n); [|done..].
  unfold abind at 1, LoadState, abind at 1, prim_read at 1. destruct (fs (n + 1)%nat); [|done..]. rewrite Hst. cbn [lift ret]. destruct (_ && _); [done|].
  destruct (validatePendingApply cfg st) as [[]|[msg]] eqn:Hv; [|done]. by destruct (validatePending_parses _ _ Hv).
Qed.
End Recovery.

(** ** Examples *)

Definition ex_world : world := mkWorld "amd64" (fun _ => None) (fun _ => None) true.
Definition ex_env (epoch : Z) (compiledAt : string) : env := mkEnv ex_world (Ok (ex_bundle epoch compiledAt)) "2026-01-02T00:00:00Z" "2026-01-02T00:00:00Z" [] true.
Definition ex_config : Config := mkConfig "alpha" "" "operator key" AlgEd25519 "" "" [] None.
(** The start of the root script is the fifth step of a run from a fresh state. *)
Definition script_fails : Faults := fun n => if Nat.eqb n 4 then Fails true "exit status 1" else NoFault.
Definition script_crashes : Faults := fun n => if Nat.eqb n 4 then Crashes true else NoFault.

#[local] Existing Instance toy_crypto.
#[local] Existing Instance toy_codec.

Lemma interrupted_apply_recovers_witness :
  let e := ex_env 7 "2026-01-01T00:00:00Z" in
  exists man epoch h' n st, run e ex_config no_faults (outcome_state (run e ex_config script_crashes (fresh_host "v1") 0%nat)) 0%nat = Done (Applied man "apply" epoch) h' n /\
    read_state h' = Ok st /\ A_PendingApply st = None /\ A_LastResult st = LastResultOK /\ A_LastCompiledAt st = MI_CompiledAt man.
Proof.
  set (e := ex_env 7 "2026-01-01T00:00:00Z").
  assert (length (h_installs (outcome_state (run e ex_config script_crashes (fresh_host "v1") 0%nat))) = 1%nat) as Hs by (vm_compute; reflexivity).
  assert (match manifest_of ex_config (ex_bundle 7 "2026-01-01T00:00:00Z") with Ok man => bool_decide (is_Some (parse_compiled_at (MI_CompiledAt man))) | Err _ => true end = true) as Hm by (vm_compute; reflexivity).
  destruct (interrupted_apply_recovers e e ex_config None (ex_bundle 7 "2026-01-01T00:00:00Z") script_crashes (fresh_host "v1")) as (man & epoch & r & h' & n & st & Hr & H1 & H2 & H3 & H4 & _ & He).
  - reflexivity.
  - reflexivity.
  - reflexivity.
  - eexists. vm_compute. reflexivity.
  - intros man E. rewrite E in Hm. by apply bool_decide_eq_true in Hm.
  - intros st [= <-]. discriminate.
  - left. reflexivity.
  - intros E. rewrite E in Hs. discriminate Hs.
  - exists man, epoch, h', n, st. destruct He as [-> |[_ Hn]]; [|by destruct Hn]. split; [exact Hr|]. split; [exact H1|]. split; [exact H2|]. split; [exact H3|exact H4].
Defined.

(** A bundle can wedge the agent.  [compiled_at] is compared after trimming but
    recorded as it is, and a recorded intent is validated without trimming.  When the
    root script of a bundle whose unsigned manifest pads [compiled_at] with a space
    fails, the intent that is left does not validate, and from then on no run with any
    bundle and any configuration does anything. *)
Theorem padded_compiled_at_wedges :
  let h := outcome_state (run (ex_env 7 " 2026-01-01T00:00:00Z") ex_config script_fails (fresh_host "v1") 0%nat) in
  length (h_installs h) = 1%nat /\ forall e cfg fs n, outcome_state (run e cfg fs h n) = h.
Proof.
  set (h := outcome_state _). split; [vm_compute; reflexivity|]. intros e cfg fs n.
  assert (match read_state h with
          | Ok st => match A_PendingApply st with Some p => bool_decide (parse_compiled_at (PA_CompiledAt p) = None) | None => false end
          | Err _ => false end = true) as Hb by (vm_compute; reflexivity).
  clearbody h. destruct (read_state h) as [st|] eqn:Hst; [|discriminate].
  destruct (A_PendingApply st) as [p|] eqn:Hp; [|discriminate].
  apply bool_decide_eq_true in Hb.
  apply (wedged_run _ _ _ _ _ st Hst). by exists p.
Qed.
