(* ===== verification/UpdateProps.v ===== *)
(** * Self-update: the floor never drops, a crash loop ends ([internal/agent/selfupdate.go]) *)

From stdpp Require Import base gmap strings list sorting.
From Stdlib Require Import ZArith Lia Ascii.
From S2P Require Import Prelude GoLib GoSha LinkID GoText Semver TrustList Bundle BundleProps StoreTypes StoreMonad AgentState SelfUpdate AgentRun AgentLogic AgentProps.

Local Open Scope Z_scope.
Local Open Scope go_scope.
Local Open Scope store_scope.

(** ** The floor *)

Lemma proceeds_above c running floor abandoned : proceeds (decideSelfUpdate (Some c) running floor abandoned) = true -> Compare floor (AC_Version c) <= 0.
Proof.
  unfold decideSelfUpdate, compareVersions. cbn zeta. destruct (String.eqb _ _); [done|]. destruct (_ && _); [done|]. destruct (_ && _); [done|].
  destruct (_ <? _); [done|]. destruct (String.eqb_spec floor "") as [->|Hne]; cbn [negb andb].
  - intros _. destruct (Compare_empty "" (AC_Version c)) as [-> _]; [done|]. case_match; lia.
  - destruct (Z.ltb_spec (Compare (AC_Version c) floor) 0); [done|]. intros _. rewrite cmp_flip. lia.
Qed.

(** The floor is [fl] and an update in flight does not go below it. *)
Definition floor_state (fl : string) (st : State) : Prop :=
  A_AgentVersionFloor st = fl /\ forall pu, A_PendingUpdate st = Some pu -> Compare fl (PU_To pu) <= 0.
Definition floor_host (fl : string) (h : host) : Prop := exists st, read_state h = Ok st /\ floor_state fl st.

#[export] Instance floor_inv fl : StateInv (floor_host fl) (floor_state fl).
Proof.
  split.
  - intros h st (st' & Hr & Hs) Hr'. rewrite Hr in Hr'. by injection Hr' as <-.
  - intros st h Hst _. by exists st.
  - intros b h (st & Hr & Hs). by exists st.
  - intros b h (st & Hr & Hs). by exists st.
  - intros st st' [_ Hf Hp] [Hfl Hto]. split; [congruence|]. intros pu (pu' & Hpu' & ->)%Hp. by apply Hto.
  - intros st c running [<- _] Hd id pu st' Hpu [Hfl _]. split; [done|]. intros pu' [= <-]. rewrite Hpu. by eapply proceeds_above.
Qed.

Section Floor.
Context `{Crypto} `{Codec} (fl : string).

(** The two states an apply writes keep the fields of the updater. *)
Lemma floor_state_fields st st' : A_AgentVersionFloor st' = A_AgentVersionFloor st -> A_PendingUpdate st' = A_PendingUpdate st -> floor_state fl st -> floor_state fl st'.
Proof. intros Hf Hp [? ?]. split; [congruence|]. rewrite Hp. auto. Qed.

Lemma spec_persist_floor e cfg prev man f epoch action :
  floor_state fl prev -> spec (persistPendingApply e cfg prev man f epoch action) (floor_host fl) (fun st h => floor_host fl h /\ floor_state fl st) (fun _ => floor_host fl) (floor_host fl).
Proof.
  assert (forall st, floor_state fl st -> spec (SaveState st ;;! ret st) (floor_host fl) (fun st h => floor_host fl h /\ floor_state fl st) (fun _ => floor_host fl) (floor_host fl)) as Hsave.
  { intros st Hst. eapply spec_bind; [by apply (keeps_save (floor_host fl))|]. intros ?. by apply spec_ret. }
  intros Hp. unfold persistPendingApply. eapply spec_bind; [apply (keeps_lift (floor_host fl))|]. intros pending. destruct (match A_PendingApply prev with Some _ => _ | None => _ end); [by apply Hsave|].
  cbn zeta. apply Hsave. by eapply floor_state_fields; [..|exact Hp].
Qed.

Lemma keeps_apply_floor e cfg prev f v : floor_state fl prev -> keeps (apply_candidate e cfg prev f v) (floor_host fl).
Proof.
  intros Hp. assert (forall st detail err, floor_state fl st -> keeps (recordFailure e cfg st detail ;;! @fail host unit err) (floor_host fl)) as Hfail.
  { intros st detail err Hst. apply keeps_bind; [by apply (keeps_recordFailure (floor_host fl))|]. keep. }
  unfold apply_candidate. cbn zeta. apply keeps_bind; [keep|]. intros [u|err]; [|by apply Hfail].
  eapply spec_bind with (R := fun r h => floor_host fl h /\ match r with Ok st => floor_state fl st | Err _ => True end).
  { apply spec_attempt. eapply spec_weaken; [by apply spec_persist_floor|auto..]. }
  intros [st|err]; apply spec_pure; [intros Hst|intros _; by apply Hfail].
  apply (keeps_bind (floor_host fl)); [apply keeps_attempt, keeps_write; by intros h|]. intros [u2|err]; [|by apply Hfail].
  apply (keeps_save (floor_host fl)). by eapply floor_state_fields; [..|exact Hst].
Qed.

Lemma keeps_run_floor e cfg : keeps (run e cfg) (floor_host fl).
Proof.
  unfold run. destruct (String.eqb _ _); [keep|]. apply keeps_bind; [keep|]. intros ?. apply keeps_bind; [keep|]. intros ?. apply keeps_bind; [keep|]. intros ?.
  eapply (keeps_load (floor_host fl)). intros prev Hp. destruct (_ && _); [keep|]. apply keeps_bind; [keep|]. intros ?. destruct (_ && _); [keep|].
  apply keeps_bind; [by apply (keeps_or_record (floor_host fl))|]. intros f. apply keeps_bind; [by apply (keeps_or_record (floor_host fl))|]. intros v.
  eapply spec_bind; [by apply (spec_forced (floor_host fl))|]. intros u. apply spec_pure. intros Hu. destruct u as [ended_|later]; [by apply spec_ret|].
  apply (keeps_bind (floor_host fl)); [by apply keeps_apply_floor|]. intros ?. apply keeps_bind; [|keep]. apply (keeps_deferred (floor_host fl)). intros c ->. by apply Hu.
Qed.

(** Only finalising an update moves the floor, to the version that was confirmed. *)
Definition floor_from (h : host) : Prop := exists fl', Compare fl fl' <= 0 /\ floor_host fl' h.

Lemma floor_here h : floor_host fl h -> floor_from h.
Proof. exists fl. by rewrite cmp_refl. Qed.

Lemma spec_finalize_floor v : spec (FinalizeSelfUpdate v) (floor_host fl) (fun _ => floor_from) (fun _ => floor_from) floor_from.
Proof.
  assert (spec (ret tt) (floor_host fl) (fun _ => floor_from) (fun _ => floor_from) floor_from) as Hret by (apply spec_ret; apply floor_here).
  unfold FinalizeSelfUpdate. eapply spec_seq with (P' := floor_host fl) (E' := fun _ => floor_host fl) (C' := floor_host fl)
    (R := fun r h => floor_host fl h /\ match r with Ok st => floor_state fl st | Err _ => True end); [|done|intros ?; apply floor_here|apply floor_here|].
  { apply spec_attempt. eapply spec_weaken; [apply (spec_LoadState (floor_host fl))|auto..]. }
  intros [st|err]; apply spec_pure; [intros [Hfl Hto]|by intros _]. destruct (A_PendingUpdate st) as [pu|]; [|done]. destruct (_ || _); [done|].
  assert (forall h, floor_host fl h -> floor_from (put_state (with_update None (PU_To pu) "" "" "" ("self-updated to " +:+ PU_To pu)%string st) h)) as Hput.
  { intros h Hh. exists (PU_To pu). split; [by apply Hto|]. eexists. split; [done|]. by split. }
  eapply spec_bind with (R := fun _ => floor_from).
  { apply spec_attempt. apply spec_write; [exact Hput|intros msg h Hh; split; [by apply floor_here|by apply Hput]|intros h Hh; split; [by apply floor_here|by apply Hput]]. }
  intros [?|?]; [|by apply spec_ret]. assert (keeps (ignore (prim_write (put_bak None))) floor_from) as Hk; [|exact Hk].
  apply keeps_ignore, keeps_write. intros h (fl' & Hle & Hh). exists fl'. split; [done|]. by apply (inv_bak (I := floor_host fl')).
Qed.

Lemma perform_floor o : spec (perform o) (floor_host fl) (fun _ => floor_from) (fun _ => floor_from) floor_from.
Proof.
  assert (forall m : Act host unit, keeps m (floor_host fl) -> spec m (floor_host fl) (fun _ => floor_from) (fun _ => floor_from) floor_from) as Hk.
  { intros m Hm. eapply spec_weaken; [exact Hm|done|intros ?; apply floor_here|intros ?; apply floor_here|apply floor_here]. }
  destruct o as [e cfg|w v|v healthy|v|w p cfg fetched]; cbn [perform]; [| | |apply spec_finalize_floor|]; apply Hk.
  - apply keeps_bind; [apply keeps_run_floor|keep].
  - apply keeps_bind; [apply (keeps_early (floor_host fl))|keep].
  - apply (keeps_promote (floor_host fl)).
  - apply keeps_bind; [apply (keeps_retry (floor_host fl))|keep].
Qed.
End Floor.

Section Histories.
Context `{Crypto} `{Codec}.

Lemma run_ops_floor ops h fl : floor_host fl h -> floor_from fl (run_ops ops h).
Proof.
  revert h fl. induction ops as [|[o fs] ops IH]; intros h fl Hh; [by apply floor_here|]. cbn [run_ops foldl].
  pose proof (perform_floor fl o fs h 0%nat Hh) as Hp.
  assert (floor_from fl (outcome_state (perform o fs h 0%nat))) as (fl' & Hle & Hf) by (by destruct (perform o fs h 0%nat)).
  destruct (IH _ fl' Hf) as (fl2 & Hle2 & Hf2). exists fl2. split; [by eapply cmp_trans|exact Hf2].
Qed.

(** C22. The version floor never drops.  Over any sequence of runs, start-up checks,
    confirmations and retries, with any errors and crashes, the state file stays
    readable, its floor only moves to versions that [Compare] does not put below it,
    and an update in flight is never to a version below the floor. *)
Theorem update_floor_monotone ops ops' binary :
  exists st st', read_state (run_ops ops (fresh_host binary)) = Ok st /\ read_state (run_ops ops' (run_ops ops (fresh_host binary))) = Ok st' /\
    Compare (A_AgentVersionFloor st) (A_AgentVersionFloor st') <= 0 /\
    forall pu, A_PendingUpdate st' = Some pu -> Compare (A_AgentVersionFloor st') (PU_To pu) <= 0.
Proof.
  destruct (run_ops_floor ops (fresh_host binary) "") as (fl & _ & st & Hr & Hs); [by exists zero_state|].
  destruct (run_ops_floor ops' (run_ops ops (fresh_host binary)) fl) as (fl' & Hle & st' & Hr' & Hf & Hp); [by exists st|].
  exists st, st'. split_and!; [done|done|by rewrite (proj1 Hs), Hf|]. by rewrite Hf.
Qed.
End Histories.

(** ** A crash loop *)

(** One start of the daemon that dies after its early reconciliation. *)
Definition boot (w : world) (buildVersion : string) (h : host) : host := outcome_state (reconcileSelfUpdateEarlyLocked w buildVersion no_faults h 0%nat).

Lemma boot_counts w v h st pu :
  read_state h = Ok st -> A_PendingUpdate st = Some pu -> 0 <= PU_Attempts pu < maxSelfUpdateAttempts ->
  boot w v h = put_state (set_PendingUpdate (Some (mkPendingUpdate (PU_From pu) (PU_To pu) (PU_Attempts pu + 1) (PU_Confirmed pu))) st) h.
Proof.
  unfold maxSelfUpdateAttempts. intros Hr Hpu Ha. unfold boot, reconcileSelfUpdateEarlyLocked, LoadState, abind, prim_read, no_faults. rewrite Hr. cbn [lift ret]. rewrite Hpu. cbn zeta.
  unfold SaveState, prim_write, bump_attempts, maxSelfUpdateAttempts. cbn [PU_Attempts]. rewrite i64_small by (unfold is_i64; lia). destruct (Z.ltb_spec 3 (PU_Attempts pu + 1)); [lia|done].
Qed.

Lemma boot_gives_up w v h st pu good :
  read_state h = Ok st -> A_PendingUpdate st = Some pu -> PU_Attempts pu = maxSelfUpdateAttempts -> sameVersion v (PU_To pu) = true -> h_bak h = Some good ->
  exists st', boot w v h = mkHost (Some (Some st')) good None (h_installs h) /\ A_PendingUpdate st' = None /\
    A_AbandonedAgentVersion st' = PU_To pu /\ A_AgentVersionFloor st' = A_AgentVersionFloor st /\ A_PendingApply st' = A_PendingApply st.
Proof.
  unfold maxSelfUpdateAttempts. intros Hr Hpu Ha Hv Hb. unfold boot, reconcileSelfUpdateEarlyLocked, LoadState, abind, prim_read, no_faults. rewrite Hr. cbn [lift ret]. rewrite Hpu. cbn zeta.
  unfold SaveState, prim_write. cbn [bump_attempts PU_Attempts]. rewrite Ha. change (maxSelfUpdateAttempts <? i64 (3 + 1)) with true. cbn iota.
  unfold rollbackAndAbandon, restore_backup. change (PU_To (bump_attempts pu)) with (PU_To pu). rewrite Hv. cbn [negb]. unfold abind, attempt, prim_read, prim_write. cbn [h_bak put_state]. rewrite Hb.
  cbn [ret]. eexists. split; [reflexivity|]. done.
Qed.

(** C39. A new binary that dies at every start is given up.  When an update is in
    flight with its attempts not used up and the backup in place, the process starts a
    bounded number of times as the new version before the early reconciliation puts the
    backup back, clears the breadcrumb and marks the version as abandoned; until then
    the binary stays, and afterwards no catalogue with that version is acted on again. *)
Theorem crash_loop_is_bounded w v h st pu good :
  read_state h = Ok st -> A_PendingUpdate st = Some pu -> 0 <= PU_Attempts pu <= maxSelfUpdateAttempts -> sameVersion v (PU_To pu) = true -> h_bak h = Some good ->
  let last := Z.to_nat (maxSelfUpdateAttempts - PU_Attempts pu) in
  (forall k, (k <= last)%nat -> h_binary (Nat.iter k (boot w v) h) = h_binary h /\ h_bak (Nat.iter k (boot w v) h) = Some good) /\
  exists st', Nat.iter (S last) (boot w v) h = mkHost (Some (Some st')) good None (h_installs h) /\ A_PendingUpdate st' = None /\
    A_AgentVersionFloor st' = A_AgentVersionFloor st /\ A_PendingApply st' = A_PendingApply st /\
    (PU_To pu <> "" -> forall cat running, compareVersions (AC_Version cat) (PU_To pu) = 0 ->
       proceeds (decideSelfUpdate (Some cat) running (A_AgentVersionFloor st') (A_AbandonedAgentVersion st')) = false).
Proof.
  intros Hr Hpu Ha Hv Hb last.
  assert (forall k, (k <= last)%nat -> exists st' pu', Nat.iter k (boot w v) h = mkHost (h_state (Nat.iter k (boot w v) h)) (h_binary h) (Some good) (h_installs h) /\
    read_state (Nat.iter k (boot w v) h) = Ok st' /\ A_PendingUpdate st' = Some pu' /\ PU_To pu' = PU_To pu /\ PU_Attempts pu' = PU_Attempts pu + Z.of_nat k /\
    A_AgentVersionFloor st' = A_AgentVersionFloor st /\ A_PendingApply st' = A_PendingApply st) as Hk.
  { induction k as [|k IH]; intros Hle.
    - exists st, pu. split_and!; [destruct h; cbn in *; by rewrite Hb|done|done|done|lia|done|done].
    - destruct IH as (st1 & pu1 & Hh1 & Hr1 & Hpu1 & Hto & Hat & Hfl & Hap); [lia|]. cbn [Nat.iter nat_rect].
      pose proof (boot_counts w v _ st1 pu1 Hr1 Hpu1 ltac:(unfold maxSelfUpdateAttempts in *; lia)) as E. unfold Nat.iter in *. rewrite E. eexists _, _.
      split_and!; try done; [rewrite Hh1; done|cbn; lia]. }
  split; [intros k Hle; destruct (Hk k Hle) as (? & ? & -> & _); done|].
  destruct (Hk last) as (st1 & pu1 & Hh1 & Hr1 & Hpu1 & Hto & Hat & Hfl & Hap); [lia|].
  destruct (boot_gives_up w v (Nat.iter last (boot w v) h) st1 pu1 good) as (st2 & E & Hn & Hab & Hfl2 & Hap2); [done|done|unfold maxSelfUpdateAttempts in *; lia|by rewrite Hto|by rewrite Hh1|].
  exists st2. split_and!; [change (Nat.iter (S last) (boot w v) h) with (boot w v (Nat.iter last (boot w v) h)); rewrite E, Hh1; done|done|congruence|congruence|].
  intros Hne cat running Hc. rewrite Hab, Hto. unfold decideSelfUpdate. cbn zeta. destruct (String.eqb _ _); [done|]. destruct (_ && _); [done|].
  destruct (String.eqb_spec (PU_To pu) ""); [done|]. by rewrite Hc.
Qed.

(** An update to v2 was swapped in and the new binary dies at once. *)
Lemma crash_loop_is_bounded_witness :
  let st := set_PendingUpdate (Some (mkPendingUpdate "v1.0.0" "2.0.0" 0 false)) zero_state in
  let h := mkHost (Some (Some st)) "new" (Some "old") [] in
  let w := mkWorld "amd64" (fun _ => None) (fun _ => None) true in
  exists st', Nat.iter 4 (boot w "v2.0.0") h = mkHost (Some (Some st')) "old" None [] /\ A_PendingUpdate st' = None.
Proof.
  intros st h w.
  destruct (crash_loop_is_bounded w "v2.0.0" h st (mkPendingUpdate "v1.0.0" "2.0.0" 0 false) "old") as [_ (st' & E & Hn & _)];
    [reflexivity|reflexivity|unfold maxSelfUpdateAttempts; cbn; lia|vm_compute; reflexivity|reflexivity|].
  exists st'. split; [exact E|exact Hn].
Defined.
