(* ===== verification/Renderer.v ===== *)
(** * Configuration files ([internal/renderer])

    The WireGuard, Babel and sysctl files of a node, with the exact text their
    templates produce, and the quoting of values for the generated scripts.  A text is
    given by its lines; a line of a template that a condition guards is a line that is
    there or not. *)

From stdpp Require Import base gmap strings list sorting.
From Stdlib Require Import ZArith Lia Ascii.
From S2P Require Import Prelude GoLib Model LinkID PeersAlloc Peers.

Local Open Scope Z_scope.
Local Open Scope go_scope.

(** ** Text *)

Definition lf : string := String "010" "".
Fixpoint unlines (ls : list string) : string :=
  match ls with [] => "" | l :: rest => (l +:+ lf +:+ unlines rest)%string end.
Definition line_if (b : bool) (l : string) : list string := if b then [l] else [].
Definition lines_if (b : bool) (ls : list string) : list string := if b then ls else [].
Definition non_blank (s : string) : bool := negb (String.eqb s "").

(** [strings.Join] *)
Fixpoint Join (sep : string) (l : list string) : string :=
  match l with [] => "" | [x] => x | x :: rest => (x +:+ sep +:+ Join sep rest)%string end.

(** [strings.ReplaceAll] of one byte. *)
Fixpoint replace_byte (old : ascii) (new s : string) : string :=
  match s with
  | EmptyString => ""
  | String c s' => if Ascii.eqb c old then (new +:+ replace_byte old new s')%string else String c (replace_byte old new s')
  end.

(** ** Quoting *)

Definition squote : ascii := "039".
Definition bslash : ascii := "092".
Definition dquote : ascii := "034".
Definition backtick : ascii := "096".
Definition dollar : ascii := "036".
Definition one (c : ascii) : string := String c "".

Definition bashSingleQuote (s : string) : string :=
  (one squote +:+ replace_byte squote (String squote (String bslash (String squote (one squote)))) s +:+ one squote)%string.

Definition powerShellArgQuote (s : string) : string :=
  let escaped := replace_byte backtick (String backtick (one backtick)) s in
  let escaped := replace_byte dquote (String backtick (one dquote)) escaped in
  let escaped := replace_byte dollar (String backtick (one dollar)) escaped in
  (one dquote +:+ escaped +:+ one dquote)%string.

Record ShellToken := mkToken { token_string : string }.
Definition ShellQuoted (v : string) : ShellToken := mkToken (bashSingleQuote v).
Definition ShellRaw (v : string) : ShellToken := mkToken v.
Definition shellRawSlice (vs : list string) : list ShellToken := ShellRaw <$> vs.

(** ** WireGuard *)

Record WireGuardPeer := mkWGPeer {
  WGP_Name : string; WGP_PublicKey : string; WGP_AllowedIPs : string; WGP_Endpoint : string; WGP_PersistentKeepalive : Z }.
Record WireGuardInterfaceConfig := mkWGInterface {
  WGI_NodeName : string; WGI_InterfaceName : string; WGI_PrivateKey : string; WGI_TransitIP : string; WGI_ListenPort : Z; WGI_MTU : Z;
  WGI_LocalLinkLocal : string; WGI_ClientOverlayIP : string; WGI_Peer : WireGuardPeer }.

Definition interface_lines (c : WireGuardInterfaceConfig) : list string :=
  [("# WireGuard per-peer interface: " +:+ WGI_InterfaceName c)%string;
   ("# Node: " +:+ WGI_NodeName c +:+ " -> Peer: " +:+ WGP_Name (WGI_Peer c))%string;
   "# Generated by Overlay Network Config Orchestrator"%string;
   ""%string;
   "[Interface]"%string;
   ("PrivateKey = " +:+ WGI_PrivateKey c)%string;
   ("Address = " +:+ WGI_TransitIP c +:+ "/32")%string;
   "Table = off"%string] ++
  line_if (0 <? WGI_ListenPort c) ("ListenPort = " +:+ strconv_Itoa (WGI_ListenPort c))%string ++
  line_if (0 <? WGI_MTU c) ("MTU = " +:+ strconv_Itoa (WGI_MTU c))%string ++
  [""%string;
   "# Add IPv6 link-local for Babel"%string;
   ("PostUp = ip -6 addr add " +:+ WGI_LocalLinkLocal c +:+ "/64 dev %i 2>/dev/null || true")%string;
   ("PostDown = ip -6 addr del " +:+ WGI_LocalLinkLocal c +:+ "/64 dev %i 2>/dev/null || true")%string] ++
  lines_if (non_blank (WGI_ClientOverlayIP c))
    ["# Route client overlay IP through this interface (discovered by Babel)"%string;
     ("PostUp = ip route replace " +:+ WGI_ClientOverlayIP c +:+ "/32 dev %i 2>/dev/null || true")%string;
     ("PostDown = ip route del " +:+ WGI_ClientOverlayIP c +:+ "/32 dev %i 2>/dev/null || true")%string] ++
  [""%string;
   ("# Peer: " +:+ WGP_Name (WGI_Peer c))%string].

Definition peer_lines (p : WireGuardPeer) : list string :=
  ["[Peer]"%string; ("PublicKey = " +:+ WGP_PublicKey p)%string; ("AllowedIPs = " +:+ WGP_AllowedIPs p)%string] ++
  line_if (non_blank (WGP_Endpoint p)) ("Endpoint = " +:+ WGP_Endpoint p)%string ++
  line_if (0 <? WGP_PersistentKeepalive p) ("PersistentKeepalive = " +:+ strconv_Itoa (WGP_PersistentKeepalive p))%string.

Definition wgPerPeerConfigTemplate (c : WireGuardInterfaceConfig) : string := unlines (interface_lines c ++ peer_lines (WGI_Peer c)).

Definition peer_config (node : Node) (peer : PeerInfo) (keys : KeyPair) : WireGuardInterfaceConfig :=
  mkWGInterface (Node_Name node) (Peer_InterfaceName peer) (PrivateKey keys) (Peer_LocalTransitIP peer) (Peer_ListenPort peer) (Peer_MTU peer)
    (Peer_LocalLinkLocal peer) (Peer_ClientOverlayIP peer)
    (mkWGPeer (Peer_NodeName peer) (Peer_PublicKey peer) (Join ", " (Peer_AllowedIPs peer)) (Peer_Endpoint peer) (Peer_PersistentKeepalive peer)).

Definition RenderPerPeerWireGuardConfig (node : Node) (peer : PeerInfo) (keys : KeyPair) : string :=
  wgPerPeerConfigTemplate (peer_config node peer keys).

Record WireGuardClientConfig := mkWGClient {
  WGC_NodeName : string; WGC_PrivateKey : string; WGC_OverlayIP : string; WGC_ListenPort : Z; WGC_MTU : Z; WGC_RouterPublicKey : string;
  WGC_RouterEndpoint : string; WGC_AllowedIPs : string }.

Definition client_lines (c : WireGuardClientConfig) : list string :=
  ["# WireGuard client interface: wg0"%string;
   ("# Node: " +:+ WGC_NodeName c +:+ " (client)")%string;
   "# Generated by Overlay Network Config Orchestrator"%string;
   ""%string;
   "[Interface]"%string;
   ("PrivateKey = " +:+ WGC_PrivateKey c)%string;
   ("Address = " +:+ WGC_OverlayIP c +:+ "/32")%string] ++
  line_if (0 <? WGC_ListenPort c) ("ListenPort = " +:+ strconv_Itoa (WGC_ListenPort c))%string ++
  line_if (0 <? WGC_MTU c) ("MTU = " +:+ strconv_Itoa (WGC_MTU c))%string ++
  [""%string; "# Peer: Router"%string].
Definition router_lines (c : WireGuardClientConfig) : list string :=
  ["[Peer]"%string; ("PublicKey = " +:+ WGC_RouterPublicKey c)%string; ("AllowedIPs = " +:+ WGC_AllowedIPs c)%string] ++
  line_if (non_blank (WGC_RouterEndpoint c)) ("Endpoint = " +:+ WGC_RouterEndpoint c)%string ++
  ["PersistentKeepalive = 25"%string].

Definition wgClientConfigTemplate (c : WireGuardClientConfig) : string := unlines (client_lines c ++ router_lines c).

Definition client_config (info : ClientPeerInfo) : WireGuardClientConfig :=
  let allowedIPs := Join ", " (Client_DomainCIDRs info) in
  mkWGClient (Client_NodeName info) (Client_PrivateKey info) (Client_OverlayIP info) (Client_ListenPort info) (Client_MTU info) (Client_RouterPublicKey info)
    (Client_RouterEndpoint info) (if String.eqb allowedIPs "" then "0.0.0.0/0"%string else allowedIPs).
Definition RenderClientWireGuardConfig (info : ClientPeerInfo) : string := wgClientConfigTemplate (client_config info).

(** One node of the loop over the peer map. *)
Definition render_node (topo : Topology) (keys : gmap string KeyPair) (configs : gmap string string) (e : string * list PeerInfo) : result goerror (gmap string string) :=
  match nodeMap topo e.1 with
  | None => Ok configs
  | Some node =>
      match keys !! e.1 with
      | None => Err (Plain ("node " +:+ e.1 +:+ " is missing its key")%string)
      | Some key => Ok (foldl (fun m p => <[ (e.1 +:+ ":" +:+ Peer_InterfaceName p)%string := RenderPerPeerWireGuardConfig node p key ]> m) configs e.2)
      end
  end.
Definition RenderAllWireGuardConfigs (topo : Topology) (peers : peerMap) (keys : gmap string KeyPair) : result goerror (gmap string string) :=
  foldM (render_node topo keys) ∅ (map_to_list peers).

(** ** Babel *)

Definition babelLocalPort : Z := 33123.
Definition defaultHelloInterval : Z := 4.
Definition defaultUpdateInterval : Z := 16.

Record BabelRolePreset := mkPreset { DefaultCost : Z; HelloInterval : Z; UpdateInterval : Z }.
Definition GetBabelRolePreset (role : string) : BabelRolePreset :=
  if String.eqb role "router" then mkPreset 0 defaultHelloInterval defaultUpdateInterval
  else if String.eqb role "relay" then mkPreset 96 defaultHelloInterval defaultUpdateInterval
  else if String.eqb role "gateway" then mkPreset 0 defaultHelloInterval defaultUpdateInterval
  else mkPreset 0 defaultHelloInterval defaultUpdateInterval.

Record BabelInterface := mkBabelInterface { BI_Name : string; BI_Type : string; BI_Cost : Z }.
Record BabelConfig := mkBabel {
  B_NodeName : string; B_NodeRole : string; B_RouterID : string; B_LocalPort : Z; B_HelloInterval : Z; B_UpdateInterval : Z;
  B_Interfaces : list BabelInterface; B_LocalRedistributePrefixes : list string; B_KernelRedistributePrefixes : list string; B_EnableForwarding : bool }.

Definition option_token (name : string) (n : Z) : string := if 0 <? n then (" " +:+ name +:+ " " +:+ strconv_Itoa n)%string else "".
Definition interface_line (c : BabelConfig) (i : BabelInterface) : string :=
  ("interface " +:+ BI_Name i +:+ " type " +:+ BI_Type i +:+ option_token "hello-interval" (B_HelloInterval c) +:+
   option_token "update-interval" (B_UpdateInterval c) +:+ option_token "rxcost" (BI_Cost i))%string.

Definition babelConfigTemplate (c : BabelConfig) : string :=
  unlines (
    [("# Babel configuration for " +:+ B_NodeName c)%string;
     "# Generated by Overlay Network Config Orchestrator"%string;
     ("# Role: " +:+ B_NodeRole c)%string;
     ""%string;
     ("router-id " +:+ B_RouterID c)%string;
     ("local-port " +:+ strconv_Itoa (B_LocalPort c))%string;
     "skip-kernel-setup false"%string;
     ""%string;
     "# Route redistribution"%string] ++
    ((fun p => ("redistribute local ip " +:+ p +:+ " allow")%string) <$> B_LocalRedistributePrefixes c) ++
    ((fun p => ("redistribute ip " +:+ p +:+ " allow")%string) <$> B_KernelRedistributePrefixes c) ++
    ["# Deny all other local routes"%string;
     "redistribute local deny"%string;
     ""%string;
     "# WireGuard tunnel interfaces"%string] ++
    (interface_line c <$> B_Interfaces c)).

Definition shouldRunBabel (node : Node) (domain : option Domain) : bool :=
  if String.eqb (Node_Role node) "client" then false
  else match domain with Some d => String.eqb (Domain_RoutingMode d) "babel" | None => true end.

Definition babel_interfaces (preset : BabelRolePreset) (sortedPeers : list PeerInfo) : list BabelInterface :=
  (fun p => mkBabelInterface (Peer_InterfaceName p) "tunnel" (if 0 <? Peer_LinkCost p then Peer_LinkCost p else DefaultCost preset)) <$>
  filter (fun p => Peer_IsClientPeer p = false) sortedPeers.

Definition client_routes (sortedPeers : list PeerInfo) : list string :=
  (fun p => Peer_ClientOverlayIP p +:+ "/32")%string <$> filter (fun p => Peer_IsClientPeer p && non_blank (Peer_ClientOverlayIP p) = true) sortedPeers.

Definition local_prefixes (node : Node) (domain : option Domain) (announce : BabelAnnouncePolicy) (sortedPeers : list PeerInfo) : list string :=
  line_if (AnnounceSelf announce && non_blank (Node_OverlayIP node)) (Node_OverlayIP node +:+ "/32")%string ++
  match domain with Some d => line_if (AnnounceDomainCIDR announce && non_blank (Domain_CIDR d)) (Domain_CIDR d) | None => [] end ++
  client_routes sortedPeers.

Definition kernel_prefixes (node : Node) (announce : BabelAnnouncePolicy) : list string :=
  lines_if (AnnounceExtraPrefixes announce) (Node_ExtraPrefixes node) ++ line_if (AnnounceDefault announce) "0.0.0.0/0".

Definition RenderBabelConfig (node : Node) (peers : list PeerInfo) (domain : option Domain) : string :=
  if negb (shouldRunBabel node domain) then ""
  else
    let semantics := DeriveRoleSemantics node in
    let preset := GetBabelRolePreset (Node_Role node) in
    let sortedPeers := sort_by Peer_InterfaceName peers in
    babelConfigTemplate
      (mkBabel (Node_Name node) (Node_Role node) (if String.eqb (Node_RouterID node) "" then GenerateRouterID (Node_ID node) else Node_RouterID node)
         babelLocalPort (HelloInterval preset) (UpdateInterval preset) (babel_interfaces preset sortedPeers)
         (local_prefixes node domain (BabelAnnounce semantics) sortedPeers) (kernel_prefixes node (BabelAnnounce semantics)) (EnableForwarding semantics)).

Definition RenderAllBabelConfigs (topo : Topology) (peers : peerMap) : gmap string string :=
  map_imap (fun nodeID ps =>
    match nodeMap topo nodeID with
    | None => None
    | Some node => let config := RenderBabelConfig node ps (domainMap topo (Node_DomainID node)) in if String.eqb config "" then None else Some config
    end) peers.

(** ** Sysctl *)

Definition sysctlConfigTemplate (nodeName : ShellToken) (enableForwarding : bool) : string :=
  unlines (
    [("# Sysctl configuration for " +:+ token_string nodeName)%string; "# Generated by Overlay Network Config Orchestrator"%string; ""%string] ++
    if enableForwarding then
      ["# Enable IPv4 forwarding"%string; "net.ipv4.ip_forward = 1"%string; ""%string;
       "# IPv6 forwarding (disabled by default)"%string; "# net.ipv6.conf.all.forwarding = 1"%string; ""%string;
       "# Loose reverse-path filtering (Babel needs asymmetric routes)"%string;
       "net.ipv4.conf.all.rp_filter = 0"%string; "net.ipv4.conf.default.rp_filter = 0"%string]
    else
      ["# Strict reverse-path filtering (pure peer node)"%string; "# rp_filter tightened; this is not a Babel forwarding node"%string;
       "net.ipv4.conf.all.rp_filter = 2"%string; "net.ipv4.conf.default.rp_filter = 2"%string]).
Definition RenderSysctlConfig (node : Node) : string := sysctlConfigTemplate (ShellRaw (Node_Name node)) (CanForward (Node_Capabilities node)).
Definition RenderAllSysctlConfigs (topo : Topology) : gmap string string :=
  foldl (fun m n => <[ Node_ID n := RenderSysctlConfig n ]> m) ∅ (Topology_Nodes topo).
