(* ===== verification/RenderProps.v ===== *)
(** * What the generated files say ([internal/renderer], [internal/agent/verify.go])

    A quoted value is one inert word of a POSIX shell; the Babel file does not depend
    on the order of the peers; the agent reads from a WireGuard file exactly the key
    that was rendered into it. *)

From stdpp Require Import base gmap strings list sorting.
From Stdlib Require Import ZArith Lia Ascii.
From S2P Require Import Prelude GoLib Model LinkID PeersAlloc Peers GoText AuditLog TrustList Bundle Renderer.

Local Open Scope Z_scope.
Local Open Scope go_scope.

(** ** Shell words *)

(** How a POSIX shell reads a word: inside single quotes everything up to the next
    quote is literal; outside, a backslash quotes the next character, blanks and
    operators end the word, and a dollar sign, backtick or double quote starts an
    expansion, which is [None].  The result is the value of the word and the text
    after it. *)
Definition ends_word (c : ascii) : bool := existsb (Ascii.eqb c) ["032"; "009"; "010"; "059"; "038"; "124"; "060"; "062"; "040"; "041"]%char.
Definition expands (c : ascii) : bool := existsb (Ascii.eqb c) [dollar; backtick; dquote].

Fixpoint sh_word (quoted : bool) (s : string) : option (string * string) :=
  match s with
  | EmptyString => if quoted then None else Some (""%string, ""%string)
  | String c s' =>
      if quoted then (if Ascii.eqb c squote then sh_word false s' else prod_map (String c) id <$> sh_word true s')
      else if Ascii.eqb c squote then sh_word true s'
      else if Ascii.eqb c bslash then
        match s' with
        | EmptyString => None
        | String d s'' => prod_map (String d) id <$> sh_word false s''
        end
      else if ends_word c then Some (""%string, s)
      else if expands c then None
      else prod_map (String c) id <$> sh_word false s'
  end.

Definition at_end (rest : string) : Prop := match rest with EmptyString => True | String c _ => ends_word c = true end.

Lemma sh_word_end rest : at_end rest -> sh_word false rest = Some (""%string, rest).
Proof.
  destruct rest as [|c r]; [done|]. cbn [at_end sh_word]. intros Hc. rewrite Hc.
  destruct (Ascii.eqb_spec c squote) as [->|_]; [discriminate Hc|]. destruct (Ascii.eqb_spec c bslash) as [->|_]; [discriminate Hc|]. done.
Qed.

(** A quoted value is one word with that value, for every value: nothing in it is
    expanded, ends the word or escapes the quotes. *)
Theorem quoted_word_is_inert s rest : at_end rest -> sh_word false (token_string (ShellQuoted s) +:+ rest) = Some (s, rest).
Proof.
  intros Hrest. set (q := String squote (String bslash (String squote (one squote)))).
  assert (forall s, sh_word true (replace_byte squote q s +:+ one squote +:+ rest) = Some (s, rest)) as Hq.
  { clear s. induction s as [|c s IH]; cbn [replace_byte].
    - change (sh_word true ("" +:+ one squote +:+ rest)) with (sh_word false rest). by apply sh_word_end.
    - destruct (Ascii.eqb_spec c squote) as [->|Hc].
      + rewrite append_assoc.
        change (sh_word true (q +:+ ?t)) with (prod_map (String squote) id <$> sh_word true t). by rewrite IH.
      + rewrite append_cons. cbn [sh_word]. destruct (Ascii.eqb_spec c squote); [done|]. by rewrite IH. }
  unfold ShellQuoted, bashSingleQuote. cbn [token_string]. rewrite append_assoc, append_assoc.
  change (sh_word false (one squote +:+ ?t)) with (sh_word true t). apply Hq.
Qed.

Lemma quoted_word_is_inert_witness :
  at_end " --force" /\ sh_word false (token_string (ShellQuoted "it's $(reboot); `x`") +:+ " --force") = Some ("it's $(reboot); `x`", " --force")%string.
Proof. split; [reflexivity|]. apply quoted_word_is_inert. reflexivity. Defined.

(** ** Babel *)

(** The Babel file of a node depends on the peers and not on the order in which the
    edges produced them, as long as the interfaces have different names. *)
Theorem babel_order_independent node domain ps ps' :
  NoDup (Peer_InterfaceName <$> ps) -> ps ≡ₚ ps' -> RenderBabelConfig node ps domain = RenderBabelConfig node ps' domain.
Proof. intros Hn Hp. unfold RenderBabelConfig. by rewrite (sort_by_unique Peer_InterfaceName ps ps'). Qed.

(** ** WireGuard files as the agent reads them *)

Definition single (s : string) : Prop := has_byte newline_byte s = false.

Lemma single_app a b : single a -> single b -> single (a +:+ b)%string.
Proof. unfold single. rewrite has_byte_append. by intros -> ->. Qed.
Lemma single_prefix p s : has_byte newline_byte p = false -> single s -> single (p +:+ s)%string.
Proof. apply single_app. Qed.

Lemma split_unlines ls : Forall single ls -> split_on newline_byte (unlines ls) = ls ++ [""%string].
Proof.
  induction 1 as [|l ls Hl Hls IH]; [done|]. cbn [unlines]. change (lf +:+ unlines ls)%string with (String newline_byte (unlines ls)).
  rewrite split_on_app by done. by rewrite IH.
Qed.

(** A key of the alphabet that WireGuard keys are written in. *)
Definition key_text (k : string) : Prop := exists c p d, k = String c (p +:+ String d "")%string /\ solid c = true /\ solid d = true /\ single k.

(** The three kinds of line that leave the scan as it is. *)
Lemma trim_head c r : solid c = true -> exists y, TrimSpace (String c r) = String c y.
Proof.
  intros Hc. unfold TrimSpace. rewrite trim_left_solid by done. unfold trim_right. set (n := String.length _). clearbody n.
  change (String c r) with (String c "" +:+ r)%string. rewrite str_rev_app. change (str_rev (String c "")) with (String c "").
  destruct (drop_while_keeps n (map str_rev spaces) (str_rev r) c "") as [b ->]; [apply spaces_hollow|done|]. rewrite str_rev_app. by exists (str_rev b).
Qed.

Lemma comment_line st r : conf_line st (String "#" r) = Ok st.
Proof. unfold conf_line. destruct (trim_head "#" r eq_refl) as [y ->]. by destruct y. Qed.

Lemma outside_line seen c r : solid c = true -> c <> "#"%char -> c <> "["%char -> conf_line (false, seen) (String c r) = Ok (false, seen).
Proof.
  intros Hc H1 H2. unfold conf_line. destruct (trim_head c r Hc) as [y ->]. cbn zeta. cbn [String.eqb orb].
  assert (forall d, c <> d -> has_prefix (String d "") (String c y) = false) as Hp.
  { intros d Hd. unfold has_prefix. cbn [String.prefix]. by destruct (ascii_dec d c) as [->|]. }
  by rewrite !Hp.
Qed.

Lemma other_key_line seen c k z :
  solid c = true -> c <> "#"%char -> c <> "["%char -> has_byte "=" (String c k) = false -> EqualFold (TrimSpace (String c k)) "PublicKey" = false ->
  conf_line (true, seen) (String c (k +:+ String "=" z)) = Ok (true, seen).
Proof.
  intros Hc H1 H2 Hk He. unfold conf_line. destruct (TrimSpace_keep c k "=" z Hc eq_refl) as [y ->]. cbn zeta. cbn [String.eqb orb].
  assert (forall d r, c <> d -> has_prefix (String d "") (String c r) = false) as Hp.
  { intros d r Hd. unfold has_prefix. cbn [String.prefix]. by destruct (ascii_dec d c) as [->|]. }
  rewrite !Hp by done. cbn [orb andb fst negb]. unfold splitConfKV.
  change (String c (k +:+ String "=" y)) with (String c k +:+ String "=" y)%string. rewrite str_cut_append by done.
  change (prod_map TrimSpace TrimSpace <$> Some (?a, ?b)) with (Some (TrimSpace a, TrimSpace b)). cbn iota. by rewrite He.
Qed.

Lemma public_key_line seen k : key_text k -> conf_line (true, seen) ("PublicKey = " +:+ k) = Ok (true, {[ k ]} ∪ seen).
Proof.
  intros (c & p & d & -> & Hc & Hd & _). unfold conf_line.
  assert (TrimSpace ("PublicKey = " +:+ String c (p +:+ String d "")) = ("PublicKey = " +:+ String c (p +:+ String d ""))%string) as ->.
  { apply (TrimSpace_solid "P" ("ublicKey = " +:+ String c p) d eq_refl Hd). }
  cbn zeta. change (("PublicKey = " +:+ String c (p +:+ String d ""))%string) with ("PublicKey " +:+ String "=" (String " " (String c (p +:+ String d ""))))%string.
  assert (forall t, has_prefix "#" ("PublicKey " +:+ t) = false) as -> by done.
  assert (forall t, has_prefix "[" ("PublicKey " +:+ t) = false) as -> by done.
  assert (forall t, String.eqb ("PublicKey " +:+ t) "" = false) as -> by done. cbn [orb andb fst negb snd].
  unfold splitConfKV. rewrite str_cut_append by done.
  change (prod_map TrimSpace TrimSpace <$> Some (?a, ?b)) with (Some (TrimSpace a, TrimSpace b)). cbn iota. rewrite TrimSpace_space by done.
  assert (EqualFold (TrimSpace "PublicKey ") "PublicKey" = true) as -> by (vm_compute; reflexivity). done.
Qed.

(** ** The scan of a rendered file *)

Lemma foldM_app_Ok {E A B} (f : A -> B -> result E A) a xs ys a' : foldM f a xs = Ok a' -> foldM f a (xs ++ ys) = foldM f a' ys.
Proof. intros H. rewrite foldM_app, H. done. Qed.

(** Lines after which the scan is outside a peer block, with the same keys. *)
Definition outside (l : string) : Prop := forall seen, conf_line (false, seen) l = Ok (false, seen).
(** Lines of a peer block that add no key. *)
Definition inside (l : string) : Prop := forall seen, conf_line (true, seen) l = Ok (true, seen).

Lemma outside_lines seen ls : Forall outside ls -> foldM conf_line (false, seen) ls = Ok (false, seen).
Proof. induction 1 as [|l ls Hl Hls IH]; [done|]. cbn [foldM]. by rewrite Hl. Qed.
Lemma inside_lines seen ls : Forall inside ls -> foldM conf_line (true, seen) ls = Ok (true, seen).
Proof. induction 1 as [|l ls Hl Hls IH]; [done|]. cbn [foldM]. by rewrite Hl. Qed.

Lemma Forall_line_if (P : string -> Prop) b l : P l -> Forall P (line_if b l).
Proof. destruct b; [by repeat constructor|constructor]. Qed.
Lemma Forall_lines_if (P : string -> Prop) b ls : Forall P ls -> Forall P (lines_if b ls).
Proof. by destruct b. Qed.

Lemma outside_blank : outside "".
Proof. by intros seen. Qed.
Lemma outside_header : outside "[Interface]".
Proof. by intros seen. Qed.
Lemma outside_comment r : outside (String "#" r).
Proof. intros seen. apply comment_line. Qed.
Lemma outside_key c r : solid c = true -> c <> "#"%char -> c <> "["%char -> outside (String c r).
Proof. intros H1 H2 H3 seen. by apply outside_line. Qed.

(** By the first character of the line. *)
Ltac outside_step :=
  lazymatch goal with
  | |- outside ?l =>
      let h := eval hnf in l in
      lazymatch h with
      | EmptyString => exact outside_blank
      | String "#" ?r => exact (outside_comment r)
      | String "[" _ => exact outside_header
      | String ?c ?r => refine (outside_key c r _ _ _); [reflexivity|discriminate|discriminate]
      end
  end.
Ltac outside_all :=
  repeat first [ apply Forall_app; split | apply Forall_line_if | apply Forall_lines_if | exact (List.Forall_nil _) | apply Forall_cons; split; [outside_step|] | outside_step ].

Lemma interface_outside c : Forall outside (interface_lines c).
Proof. unfold interface_lines. outside_all. Qed.
Lemma client_outside c : Forall outside (client_lines c).
Proof. unfold client_lines. outside_all. Qed.

Lemma inside_key c k z : solid c = true -> c <> "#"%char -> c <> "["%char -> has_byte "=" (String c k) = false -> EqualFold (TrimSpace (String c k)) "PublicKey" = false ->
  inside (String c (k +:+ String "=" z)).
Proof. intros H1 H2 H3 H4 H5 seen. by apply other_key_line. Qed.
Lemma allowed_inside z : inside ("AllowedIPs = " +:+ z).
Proof. by apply (inside_key "A" "llowedIPs " (String " " z)). Qed.
Lemma endpoint_inside z : inside ("Endpoint = " +:+ z).
Proof. by apply (inside_key "E" "ndpoint " (String " " z)). Qed.
Lemma keepalive_inside z : inside ("PersistentKeepalive = " +:+ z).
Proof. by apply (inside_key "P" "ersistentKeepalive " (String " " z)). Qed.

(** A block of lines outside, a peer header, the key, and lines inside. *)
Lemma conf_keys_file path seen before k after_ :
  has_prefix "wireguard/" path = true -> has_suffix ".conf" path = true -> Forall outside before -> key_text k -> Forall inside after_ ->
  Forall single (before ++ "[Peer]"%string :: ("PublicKey = " +:+ k)%string :: after_) ->
  conf_keys seen (path, unlines (before ++ "[Peer]"%string :: ("PublicKey = " +:+ k)%string :: after_)) = Ok ({[ k ]} ∪ seen).
Proof.
  intros Hp Hs Hb Hk Ha Hsingle. unfold conf_keys. cbn [fst snd]. rewrite Hp, Hs. cbn [negb orb]. rewrite split_unlines by done. rewrite <- app_assoc.
  rewrite (foldM_app_Ok _ _ _ _ _ (outside_lines seen before Hb)). cbn [app foldM].
  change (conf_line (false, seen) "[Peer]") with (@Ok agent_error _ (true, seen)). cbn [rbind]. rewrite public_key_line by done. cbn [rbind].
  rewrite (foldM_app_Ok _ _ _ _ _ (inside_lines ({[ k ]} ∪ seen) after_ Ha)). done.
Qed.

(** ** Rendered values *)

Lemma single_Itoa n : single (strconv_Itoa n).
Proof. exact (one_line_Itoa n). Qed.
Lemma single_Join sep l : single sep -> Forall single l -> single (Join sep l).
Proof.
  intros Hsep Hl. induction Hl as [|x l Hx Hl IH]; [done|]. destruct l as [|y l]; [done|].
  change (Join sep (x :: y :: l)) with (x +:+ sep +:+ Join sep (y :: l))%string. by repeat apply single_app.
Qed.

(** The values of a peer interface have no line break, and its key is a key. *)
Record printable (node : Node) (peer : PeerInfo) (keys : KeyPair) : Prop := {
  pr_node : single (Node_Name node);
  pr_private : single (PrivateKey keys);
  pr_name : single (Peer_NodeName peer);
  pr_key : key_text (Peer_PublicKey peer);
  pr_allowed : Forall single (Peer_AllowedIPs peer);
  pr_endpoint : single (Peer_Endpoint peer);
  pr_interface : single (Peer_InterfaceName peer);
  pr_transit : single (Peer_LocalTransitIP peer);
  pr_linklocal : single (Peer_LocalLinkLocal peer);
  pr_client : single (Peer_ClientOverlayIP peer) }.

Record printable_client (info : ClientPeerInfo) : Prop := {
  pc_node : single (Client_NodeName info);
  pc_private : single (Client_PrivateKey info);
  pc_overlay : single (Client_OverlayIP info);
  pc_key : key_text (Client_RouterPublicKey info);
  pc_endpoint : single (Client_RouterEndpoint info);
  pc_cidrs : Forall single (Client_DomainCIDRs info) }.

Lemma key_single k : key_text k -> single k.
Proof. by intros (c & p & d & -> & _ & _ & Hs). Qed.

Ltac single_step :=
  lazymatch goal with
  | |- Forall single (_ ++ _) => apply Forall_app; split
  | |- Forall single (line_if _ _) => apply Forall_line_if
  | |- Forall single (lines_if _ _) => apply Forall_lines_if
  | |- Forall single [] => exact (List.Forall_nil _)
  | |- Forall single (_ :: _) => apply Forall_cons; split
  | |- single (?a +:+ ?b) => apply (single_app a b)
  | |- single (strconv_Itoa ?n) => apply single_Itoa
  | |- single (Join _ _) => apply single_Join
  | |- single (if ?b then _ else _) => destruct b
  | |- single _ => first [assumption | reflexivity | apply key_single; assumption]
  | |- _ => assumption
  end.

(** The lines below the key. *)
Definition peer_rest (p : WireGuardPeer) : list string :=
  ("AllowedIPs = " +:+ WGP_AllowedIPs p)%string :: line_if (non_blank (WGP_Endpoint p)) ("Endpoint = " +:+ WGP_Endpoint p)%string ++
  line_if (0 <? WGP_PersistentKeepalive p) ("PersistentKeepalive = " +:+ strconv_Itoa (WGP_PersistentKeepalive p))%string.
Definition router_rest (c : WireGuardClientConfig) : list string :=
  ("AllowedIPs = " +:+ WGC_AllowedIPs c)%string :: line_if (non_blank (WGC_RouterEndpoint c)) ("Endpoint = " +:+ WGC_RouterEndpoint c)%string ++ ["PersistentKeepalive = 25"%string].

Lemma peer_rest_inside p : Forall inside (peer_rest p).
Proof. unfold peer_rest. apply Forall_cons. split; [apply allowed_inside|]. apply Forall_app. split; apply Forall_line_if; [apply endpoint_inside|apply keepalive_inside]. Qed.
Lemma router_rest_inside c : Forall inside (router_rest c).
Proof.
  unfold router_rest. apply Forall_cons. split; [apply allowed_inside|]. apply Forall_app. split; [apply Forall_line_if, endpoint_inside|].
  apply Forall_cons. split; [exact (keepalive_inside "25")|exact (List.Forall_nil _)].
Qed.

Lemma peer_file node peer keys path seen :
  printable node peer keys -> has_prefix "wireguard/" path = true -> has_suffix ".conf" path = true ->
  conf_keys seen (path, RenderPerPeerWireGuardConfig node peer keys) = Ok ({[ Peer_PublicKey peer ]} ∪ seen).
Proof.
  intros Hpr Hp Hs. destruct Hpr. set (c := peer_config node peer keys).
  refine (conf_keys_file path seen (interface_lines c) (Peer_PublicKey peer) (peer_rest (WGI_Peer c)) Hp Hs (interface_outside c) pr_key0 (peer_rest_inside _) _).
  unfold c, interface_lines, peer_config, peer_rest. cbn [WGI_NodeName WGI_InterfaceName WGI_PrivateKey WGI_TransitIP WGI_ListenPort WGI_MTU WGI_LocalLinkLocal WGI_ClientOverlayIP
    WGI_Peer WGP_Name WGP_PublicKey WGP_AllowedIPs WGP_Endpoint WGP_PersistentKeepalive].
  repeat single_step.
Qed.

Lemma client_file info path seen :
  printable_client info -> has_prefix "wireguard/" path = true -> has_suffix ".conf" path = true ->
  conf_keys seen (path, RenderClientWireGuardConfig info) = Ok ({[ Client_RouterPublicKey info ]} ∪ seen).
Proof.
  intros Hpr Hp Hs. destruct Hpr. set (c := client_config info).
  refine (conf_keys_file path seen (client_lines c) (Client_RouterPublicKey info) (router_rest c) Hp Hs (client_outside c) pc_key0 (router_rest_inside _) _).
  unfold c, client_lines, router_rest, client_config. cbn zeta. cbn [WGC_NodeName WGC_PrivateKey WGC_OverlayIP WGC_ListenPort WGC_MTU WGC_RouterPublicKey WGC_RouterEndpoint WGC_AllowedIPs].
  repeat single_step.
Qed.

(** ** The keys of a bundle *)

(** A file that a renderer wrote, and the key of the peer it configures. *)
Inductive rendered : string -> string -> Prop :=
| rendered_peer node peer keys : printable node peer keys -> rendered (RenderPerPeerWireGuardConfig node peer keys) (Peer_PublicKey peer)
| rendered_client info : printable_client info -> rendered (RenderClientWireGuardConfig info) (Client_RouterPublicKey info).

Definition is_conf (path : string) : bool := has_prefix "wireguard/" path && has_suffix ".conf" path.

Lemma rendered_conf path content k seen : is_conf path = true -> rendered content k -> conf_keys seen (path, content) = Ok ({[ k ]} ∪ seen).
Proof. intros [Hp Hs]%andb_true_iff [node peer keys Hpr|info Hpr]; [by apply peer_file|by apply client_file]. Qed.

Lemma rendered_key content k k' : rendered content k -> rendered content k' -> k = k'.
Proof.
  intros Hk Hk'. pose proof (rendered_conf "wireguard/x.conf" content k ∅ eq_refl Hk) as E. rewrite (rendered_conf "wireguard/x.conf" content k' ∅ eq_refl Hk') in E.
  apply (f_equal (fun r => match r with Ok ks => ks | Err _ => ∅ end)) in E. cbn iota beta in E. assert (k ∈ ({[ k' ]} ∪ ∅ : gset string)) as Hin by (rewrite E; by apply elem_of_union_l, elem_of_singleton).
  apply elem_of_union in Hin as [->%elem_of_singleton|?%elem_of_empty]; done.
Qed.

Lemma other_file path content seen : is_conf path = false -> conf_keys seen (path, content) = Ok seen.
Proof. intros Hc. unfold conf_keys. cbn [fst]. unfold is_conf in Hc. by destruct (has_prefix "wireguard/" path), (has_suffix ".conf" path). Qed.

Lemma collect_files (l : list (string * string)) seen :
  Forall (fun e => is_conf e.1 = true -> exists k, rendered e.2 k) l ->
  exists S, foldM conf_keys seen l = Ok S /\ forall k, k ∈ S <-> k ∈ seen \/ exists e, e ∈ l /\ is_conf e.1 = true /\ rendered e.2 k.
Proof.
  intros Hl. revert seen. induction Hl as [|[path content] l He Hl IH]; intros seen.
  - exists seen. split; [done|]. intros k. split; [by left|]. intros [?|(e & ?%elem_of_nil & _)]; done.
  - cbn [foldM]. destruct (is_conf path) eqn:Hc.
    + destruct (He Hc) as [k0 Hk0]. cbn [fst snd] in *. rewrite (rendered_conf path content k0 seen Hc Hk0). cbn [rbind]. destruct (IH ({[ k0 ]} ∪ seen)) as (S & -> & HS).
      exists S. split; [done|]. intros k. rewrite HS, elem_of_union, elem_of_singleton. split.
      * intros [[->|?]|(e & ? & ? & ?)]; [right; exists (path, content); split; [by left|done]|by left|right; exists e; split; [by right|done]].
      * intros [?|(e & [->|?]%elem_of_cons & Hce & Hr)]; [by left; right|left; left; by apply (rendered_key content)|right; by exists e].
    + rewrite other_file by done. cbn [rbind]. destruct (IH seen) as (S & -> & HS). exists S. split; [done|]. intros k. rewrite HS. split.
      * intros [?|(e & ? & ? & ?)]; [by left|right; exists e; split; [by right|done]].
      * intros [?|(e & [->|?]%elem_of_cons & Hce & Hr)]; [by left|cbn in Hce; congruence|right; by exists e].
Qed.

Lemma keys_collected (f : files) :
  (forall path content, f !! path = Some content -> is_conf path = true -> exists k, rendered content k) ->
  exists ks, collectBundlePeerKeys f = Ok ks /\ forall k, k ∈ ks <-> exists path content, f !! path = Some content /\ is_conf path = true /\ rendered content k.
Proof.
  intros Hf. destruct (collect_files (map_to_list f) ∅) as (S & HS & Hk).
  { apply Forall_forall. intros [path content] Hin%elem_of_map_to_list. by apply Hf. }
  unfold collectBundlePeerKeys. rewrite HS. cbn [rbind]. eexists. split; [reflexivity|]. intros k. rewrite merge_sort_Permutation, elem_of_elements, Hk. split.
  - intros [?%elem_of_empty|([path content] & Hin%elem_of_map_to_list & ? & ?)]; [done|]. by exists path, content.
  - intros (path & content & Hin & ? & ?). right. exists (path, content). split; [by apply elem_of_map_to_list|done].
Qed.

(** The agent checks the keys that the renderer wrote.  For a bundle whose
    WireGuard files are the output of the renderers for values without line breaks,
    [collectBundlePeerKeys] succeeds and returns exactly the public keys of the peers
    those files configure; names, comments and other values contribute nothing. *)
Theorem rendered_keys_collected (f : files) :
  (forall path content, f !! path = Some content -> is_conf path = true -> exists k, rendered content k) ->
  exists ks, collectBundlePeerKeys f = Ok ks /\ forall k, k ∈ ks <-> exists path content, f !! path = Some content /\ is_conf path = true /\ rendered content k.
Proof. apply keys_collected. Qed.

(** ** The golden file of a gateway *)

Definition ex_gateway : Node := ex_node "gw-edge" "gateway" "lan" "10.31.0.1" (mkNodeCapabilities true true false true).
Definition ex_router_peer : PeerInfo :=
  mkPeer "router-int" "router-int" "EfzbIf3tSjDfZagcqXt8je/qQtQBnDts32Tj+F4IPXA=" "10.31.0.2" ["0.0.0.0/0"; "::/0"]%string "router-int.example.com:51820" 0
    "wg-router-int" 51820 "10.10.0.2" "10.10.0.1" "fe80::2" "fe80::1" false "" 0 false "" 0.
Definition ex_keys : KeyPair := mkKeyPair "hQMW4zSJ8deeSQdDnksCuB0kLobFv7D5dX+nvrTpc0M=" "".

Example golden_wireguard : RenderPerPeerWireGuardConfig ex_gateway ex_router_peer ex_keys = "# WireGuard per-peer interface: wg-router-int
# Node: gw-edge -> Peer: router-int
# Generated by Overlay Network Config Orchestrator

[Interface]
PrivateKey = hQMW4zSJ8deeSQdDnksCuB0kLobFv7D5dX+nvrTpc0M=
Address = 10.10.0.2/32
Table = off
ListenPort = 51820

# Add IPv6 link-local for Babel
PostUp = ip -6 addr add fe80::2/64 dev %i 2>/dev/null || true
PostDown = ip -6 addr del fe80::2/64 dev %i 2>/dev/null || true

# Peer: router-int
[Peer]
PublicKey = EfzbIf3tSjDfZagcqXt8je/qQtQBnDts32Tj+F4IPXA=
AllowedIPs = 0.0.0.0/0, ::/0
Endpoint = router-int.example.com:51820
"%string.
Proof. vm_compute. reflexivity. Qed.

Lemma rendered_keys_collected_witness :
  let f : files := {[ "wireguard/wg-router-int.conf" := RenderPerPeerWireGuardConfig ex_gateway ex_router_peer ex_keys ]} in
  exists ks, collectBundlePeerKeys f = Ok ks /\ "EfzbIf3tSjDfZagcqXt8je/qQtQBnDts32Tj+F4IPXA="%string ∈ ks.
Proof.
  intros f. assert (printable ex_gateway ex_router_peer ex_keys) as Hpr.
  { split; try reflexivity; [|repeat constructor].
    exists "E"%char, "fzbIf3tSjDfZagcqXt8je/qQtQBnDts32Tj+F4IPXA"%string, "="%char. repeat split. }
  destruct (rendered_keys_collected f) as (ks & Hks & Hk).
  - intros path content [<- <-]%lookup_singleton_Some _. eexists. by apply rendered_peer.
  - exists ks. split; [exact Hks|]. apply Hk. exists "wireguard/wg-router-int.conf"%string, (RenderPerPeerWireGuardConfig ex_gateway ex_router_peer ex_keys).
    split; [apply lookup_singleton_eq|split; [reflexivity|exact (rendered_peer _ _ _ Hpr)]].
Defined.
