(* ===== verification/ConfigSafety.v ===== *)
(** * No injection into the WireGuard files

    A generated WireGuard file is parsed by root and its [PostUp] and [PostDown] values
    are run by a shell.  The schema's character classes and the address checks of the
    validator keep what a topology can put into such a file to single lines and, in the
    commands, to the characters of an address; the link-local pins are the one value
    that no rule looks at. *)

From stdpp Require Import base gmap strings list.
From Stdlib Require Import ZArith Lia Ascii.
From S2P Require Import Prelude GoLib GoNet Model LinkID Allocator PeersAlloc PeersAllocProps PeersAllocCorrect Peers PeersProps Compiler CompilerProps Normalize Findings Semantic Schema SchemaProps Pipeline PipelineProps AuditLog GoText Bundle BundleProps Renderer RenderProps.

Local Open Scope Z_scope.
Local Open Scope go_scope.

(** ** Texts of addresses *)

(** Hexadecimal digits, dots and colons. *)
Definition addr_byte (c : ascii) : bool := is_hex c || one_of ["."; ":"]%char c.
Definition addr_text (s : string) : Prop := str_forall addr_byte s = true.

Lemma single_forall p s : p newline_byte = false -> str_forall p s = true -> single s.
Proof.
  intros Hp. unfold single. induction s as [|c s IH]; [done|]. cbn [str_forall has_byte]. intros [Hc Hs]%andb_prop.
  destruct (decide (c = newline_byte)) as [->|]; [congruence|by apply IH].
Qed.
Lemma addr_single s : addr_text s -> single s.
Proof. by apply single_forall. Qed.
Lemma class_single p s : p newline_byte = false -> s <> "" -> class_plus p s = true -> single s.
Proof. intros Hp _ [_ Hs]%andb_prop. by eapply single_forall. Qed.

Lemma addr_app a b : addr_text a -> addr_text b -> addr_text (a +:+ b).
Proof. unfold addr_text. rewrite str_forall_append. by intros -> ->. Qed.
Lemma addr_cons c s : addr_byte c = true -> addr_text s -> addr_text (String c s).
Proof. unfold addr_text. cbn [str_forall]. by intros -> ->. Qed.

Lemma digit_addr c : is_digit c = true -> addr_byte c = true.
Proof. destruct c as [[] [] [] [] [] [] [] []]; vm_compute; congruence. Qed.
Lemma hex_addr c v : hex_val c = Some v -> addr_byte c = true.
Proof. intros Hv. unfold addr_byte, is_hex. by rewrite Hv. Qed.

(** ** What the parsers accept *)

Lemma ipv4_fields_addr s prev val dig fs out : parseIPv4Fields s prev val dig fs = Some out -> addr_text s.
Proof.
  revert prev val dig fs. induction s as [|c s IH]; intros prev val dig fs; [done|]. cbn [parseIPv4Fields].
  destruct (is_digit c) eqn:Hd.
  - destruct (_ && _); [done|]. destruct (_ <? _); [done|]. intros Hp. apply addr_cons; [by apply digit_addr|by eapply IH].
  - destruct (decide (c = "."%char)) as [->|]; [|done]. destruct prev as [p|]; [|done]. destruct s as [|c' s']; [done|].
    destruct (decide _); [done|]. destruct (_ =? _)%nat; [done|]. intros Hp. apply addr_cons; [done|by eapply IH].
Qed.

Lemma hex_group_addr s off acc v n rest : hex_group s off acc = Some (v, n, rest) -> addr_text rest -> addr_text s.
Proof.
  revert off acc. induction s as [|c s IH]; intros off acc; cbn [hex_group]; [by intros [= _ _ <-]|].
  destruct (hex_val c) as [x|] eqn:Hx; [|by intros [= _ _ <-]]. destruct (_ <? _)%nat; [done|]. destruct (_ <? _); [done|].
  intros Hg Hr. apply addr_cons; [by eapply hex_addr|by eapply IH].
Qed.

Lemma ipv6_groups_addr rounds s ip ell ip' ell' rest :
  parseIPv6Groups rounds s ip ell = Some (ip', ell', rest) -> addr_text rest -> addr_text s.
Proof.
  revert s ip ell. induction rounds as [|k IH]; intros s ip ell; cbn [parseIPv6Groups]; [by intros [= _ _ <-]|].
  destruct (hex_group s 0 0) as [[[acc n] r]|] eqn:Hg; [|done]. destruct n as [|n]; [done|].
  assert (forall t, addr_text r -> addr_text rest -> t = s -> addr_text t) as Hback by (intros t Hr _ ->; by eapply hex_group_addr).
  destruct r as [|c r]; [intros [= _ _ <-] _; by eapply hex_group_addr|].
  destruct (decide (c = "."%char)) as [->|Hdot].
  { destruct (match ell with None => _ | Some _ => _ end); [done|]. destruct (_ <? _)%nat; [done|].
    destruct (parseIPv4Fields s _ _ _ _) as [bs|] eqn:Hf; [|done]. intros _ _. by eapply ipv4_fields_addr. }
  destruct (decide (c = ":"%char)) as [->|Hcol].
  - intros Hp Hrest. eapply hex_group_addr; [exact Hg|]. apply addr_cons; [done|].
    destruct r as [|c' r]; [done|]. destruct (decide (c' = ":"%char)) as [->|Hc'].
    + apply addr_cons; [done|]. destruct ell; [done|]. destruct r as [|c2 r]; [done|].
      destruct (_ <? _)%nat; [by eapply IH|]. by injection Hp as _ _ <-.
    + assert ((if Nat.ltb (length (ip ++ [acc / 256; acc mod 256])) 16 then parseIPv6Groups k (String c' r) (ip ++ [acc / 256; acc mod 256]) ell
               else Some (ip ++ [acc / 256; acc mod 256], ell, String c' r)) = Some (ip', ell', rest)) as Hp'.
      { clear -Hp Hc'. cbn zeta in Hp. destruct c' as [[] [] [] [] [] [] [] []]; first [done|exact Hp]. }
      destruct (_ <? _)%nat; [by eapply IH|]. by injection Hp' as _ _ <-.
  - intros Hp. exfalso. clear -Hp Hdot Hcol. destruct c as [[] [] [] [] [] [] [] []]; first [discriminate Hp|done].
Qed.

(** The text after a leading ellipsis. *)
Lemma ellipsis_addr s :
  let p := match s with String ":" (String ":" s') => (s', Some 0%nat) | _ => (s, None) end in addr_text p.1 -> addr_text s.
Proof.
  destruct s as [|c s]; [done|]. destruct (decide (c = ":"%char)) as [->|Hc].
  - destruct s as [|c' s]; [done|]. destruct (decide (c' = ":"%char)) as [->|Hc']; [intros p Hs; by do 2 (apply addr_cons; [done|])|].
    intros p. subst p. clear -Hc'. destruct c' as [[] [] [] [] [] [] [] []]; by cbn.
  - intros p. subst p. clear -Hc. destruct c as [[] [] [] [] [] [] [] []]; by cbn.
Qed.

Lemma parseIPv6_addr s u : parseIPv6 s = Some u -> addr_text s.
Proof.
  unfold parseIPv6. destruct (has_byte _ s); [done|]. intros Hp. apply ellipsis_addr. cbv zeta. destruct (match s with String ":" (String ":" s') => _ | _ => _ end) as [s' ell].
  cbn [fst]. destruct s' as [|c s']; [done|]. destruct (parseIPv6Groups 8 _ _ _) as [[[ip ell'] rest]|] eqn:Hg; [|done]. destruct rest; [|done]. by eapply ipv6_groups_addr.
Qed.

Lemma ParseAddr_addr s a : ParseAddr s = Some a -> addr_text s.
Proof.
  unfold ParseAddr. destruct (family s) as [[]|]; [| |done].
  - unfold parseIPv4. destruct (parseIPv4Fields _ _ _ _ _) as [bs|] eqn:Hf; [|done]. intros _. by eapply ipv4_fields_addr.
  - destruct (parseIPv6 s) as [u|] eqn:Hp; [|done]. intros _. by eapply parseIPv6_addr.
Qed.

Lemma ParseIP_addr s : is_Some (ParseIP s) -> addr_text s.
Proof. unfold ParseIP. intros [x Hx]. destruct (ParseAddr s) as [a|] eqn:Ha; [|done]. by eapply ParseAddr_addr. Qed.

Lemma dtoi_addr s n i v k : dtoi s n i = Some (v, k, ""%string) -> addr_text s.
Proof.
  revert n i. induction s as [|c s IH]; intros n i; [done|]. cbn [dtoi]. destruct (is_digit c) eqn:Hd; [|destruct (_ =? _)%nat; done].
  destruct (_ <=? _); [done|]. intros Hp. apply addr_cons; [by apply digit_addr|by eapply IH].
Qed.

Lemma str_cut_eq sep s a b : str_cut sep s = Some (a, b) -> s = (a +:+ String sep b)%string.
Proof.
  revert a. induction s as [|x s IH]; intros a; [done|]. cbn [str_cut]. destruct (decide (x = sep)) as [->|]; [by intros [= <- <-]|].
  destruct (str_cut sep s) as [[a' b']|]; [|done]. intros [= <- <-]. by rewrite (IH a' eq_refl).
Qed.

Lemma ParseCIDR_single s n : ParseCIDR s = Some n -> single s.
Proof.
  unfold ParseCIDR. destruct (str_cut "/" s) as [[a m]|] eqn:Hc; [|done]. apply str_cut_eq in Hc as ->.
  destruct (ParseAddr a) as [ad|] eqn:Ha; [|done]. destruct (dtoi m 0 0) as [[[v k] rest]|] eqn:Hm; [|done]. destruct rest; [|done]. intros _.
  apply single_app; [by eapply addr_single, ParseAddr_addr|]. apply (single_app "/"); [done|]. by eapply addr_single, dtoi_addr.
Qed.

(** ** What the generators write *)

Lemma fmt_digits_addr fuel b n acc : 1 < b <= 16 -> addr_text acc -> addr_text (fmt_digits fuel b n acc).
Proof.
  intros Hb. revert n acc. induction fuel as [|k IH]; intros n acc Hacc; [done|]. cbn [fmt_digits].
  assert (addr_text (String (digit_of (n mod b)) acc)) as H'.
  { apply addr_cons; [|done]. eapply hex_addr, hex_val_digit_of. pose proof (Z.mod_pos_bound n b). lia. }
  destruct (_ =? _); [done|by apply IH].
Qed.

Lemma linkLocal_addr i l r : allocateLinkLocalPair i = (l, r) -> addr_text l /\ addr_text r.
Proof. intros [= <- <-]. split; apply addr_app; (done || by apply fmt_digits_addr). Qed.

Lemma ipv4_string_addr u : is_u32 u -> addr_text (ipv4_string u).
Proof. intros Hu. apply ParseIP_addr. rewrite ParseIP_ipv4_string by done. by eexists. Qed.

Lemma transitPair_addr i cidr l r : allocateTransitPair i cidr = Ok (l, r) -> addr_text l /\ addr_text r.
Proof.
  unfold allocateTransitPair. destruct (ParseCIDR _) as [n|]; [|done]. destruct (net_to4 n); [|done]. case_match; [done|]. case_match; [done|].
  intros [= <- <-]. split; apply ipv4_string_addr, u32_range.
Qed.

Lemma digit_byte_addr d : 0 <= d < 10 -> addr_byte (byte_of (48 + d)) = true.
Proof.
  intros Hd. assert (exists n : nat, d = Z.of_nat n /\ (n < 10)%nat) as (n & -> & Hn) by (exists (Z.to_nat d); lia).
  do 10 (destruct n as [|n]; [reflexivity|]). lia.
Qed.
Lemma itoa_addr n : addr_text (itoa n).
Proof.
  unfold itoa. destruct (n =? 0); [done|]. assert (forall fuel n acc, addr_text acc -> addr_text (itoa_loop fuel n acc)) as H; [|by apply H].
  intros fuel. induction fuel as [|k IH]; intros m acc Hacc; [done|]. cbn [itoa_loop]. destruct (_ <=? _); [done|]. apply IH, addr_cons; [|done].
  apply digit_byte_addr, Z.mod_pos_bound. lia.
Qed.

Lemma endpoint_single host port : single host -> single (formatEndpoint host port).
Proof.
  intros Hh. pose proof (addr_single _ (itoa_addr port)) as Hp. unfold formatEndpoint. destruct (isIPv6 host); repeat apply single_app; done.
Qed.

Lemma key_shape k : ValidWGPublicKey k = true -> exists c p, k = String c (p +:+ String "=" "")%string /\ is_base64 c = true /\ str_forall is_base64 p = true.
Proof.
  intros [[Hlen%Nat.eqb_eq Hb]%andb_prop Hsuf]%andb_prop. destruct k as [|c k]; [done|]. change (str_take 43 (String c k)) with (String c (str_take 42 k)) in Hb. cbn [str_forall] in Hb. apply andb_prop in Hb as [Hc Hb].
  assert (exists p d, k = (p +:+ String d "")%string /\ String.length p = 42%nat) as (p & d & -> & Hp).
  { assert (String.length k = 43%nat) as Hk by (cbn in Hlen; lia). clear -Hk. revert k Hk. generalize 42%nat as n. intros n. induction n as [|n IH]; intros [|x k] Hk; cbn in Hk; try lia.
    - destruct k; [|cbn in Hk; lia]. by exists "", x.
    - destruct (IH k) as (p & d & -> & Hp); [lia|]. exists (String x p), d. split; [done|]. cbn. lia. }
  assert (d = "="%char) as ->.
  { unfold has_suffix in Hsuf. cbn [String.length] in Hsuf. destruct (_ <? _)%nat; [done|]. apply String.eqb_eq in Hsuf.
    assert (String.length (String c (p +:+ String d "")) = 44%nat) as HL by exact Hlen. cbn [String.length] in HL. rewrite HL in Hsuf. clear -Hsuf Hp. cbn [Nat.sub] in Hsuf.
    change (String.substring 43 1 (String c (p +:+ String d ""))) with (String.substring 42 1 (p +:+ String d "")) in Hsuf.
    assert (forall q, String.substring (String.length q) 1 (q +:+ String d "") = String d "") as Hsub by (intros q; by induction q). rewrite <- Hp, Hsub in Hsuf. by injection Hsuf. }
  assert (str_take 42 (p +:+ String "=" "") = p) as Ht.
  { rewrite <- Hp. clear. induction p as [|x p IH]; [done|]. cbn. f_equal. exact IH. }
  rewrite Ht in Hb. by exists c, p.
Qed.

Lemma WireGuard_key_text k : ValidWGPublicKey k = true -> key_text k.
Proof.
  intros (c & p & -> & Hc & Hb)%key_shape.
  assert (forall x, is_base64 x = true -> solid x = true) as Hsolid by (intros [[] [] [] [] [] [] [] []]; vm_compute; congruence).
  exists c, p, "="%char. split_and!; [done|by apply Hsolid|done|]. apply (single_app (String c p) "="); [|done].
  apply (single_forall is_base64); [done|]. cbn [str_forall]. by rewrite Hc, Hb.
Qed.

(** ** The values of a compile *)

(** Every link-local pin that is set is an address.  The validator does not check it. *)
Definition link_local_pins_ok (t : Topology) : Prop :=
  forall e x, e ∈ Topology_Edges t -> x = Edge_PinnedFromLinkLocal e \/ x = Edge_PinnedToLinkLocal e -> x <> "" -> is_Some (ParseIP x).

(** Every node's public key is well formed and its private key is one line. *)
Definition keys_ok (t : Topology) (keys : gmap string KeyPair) : Prop :=
  forall n, n ∈ Topology_Nodes t -> ValidWGPublicKey (PublicKey (key_of keys (Node_ID n))) = true /\ single (PrivateKey (key_of keys (Node_ID n))).

Section Compiled.
Context (ctx : Ctx) (t : Topology) (nodes : list Node) (keys : gmap string KeyPair) (reserved : option pools) (dflt : string) (m : gmap string pairAllocation).
Hypothesis V : validated t.
Hypothesis Ha : AllocateIPs ctx t = Ok nodes.
Hypothesis Hm : preallocateLinkResources (groupLinks (allocated_topo t nodes)) reserved = Ok m.
Hypothesis Hll : link_local_pins_ok t.
Hypothesis Hkeys : keys_ok t keys.
Local Abbreviation t1 := (allocated_topo t nodes).

(** What the files take from a node. *)
Record node_text (n : Node) : Prop := {
  nt_name : single (Node_Name n);
  nt_overlay : addr_text (Node_OverlayIP n);
  nt_public : key_text (PublicKey (key_of keys (Node_ID n)));
  nt_private : single (PrivateKey (key_of keys (Node_ID n)));
  nt_hosts : forall ep, ep ∈ Node_PublicEndpoints n -> single (PublicEndpoint_Host ep) }.

Lemma host_single h : (h <> "" -> endpointHostCharset h = true) -> single h.
Proof. intros Hh. destruct (decide (h = "")) as [->|Hne]; [done|]. by eapply class_single; [| |apply Hh]. Qed.

Lemma allocated_node_text n' : n' ∈ Topology_Nodes t1 -> node_text n'.
Proof.
  intros (n0 & -> & (i & Hi)%list_elem_of_lookup)%list_elem_of_fmap. destruct (AllocateIPs_sound _ _ _ Ha) as [Hlen Hall].
  destruct (lookup_lt_is_Some_2 (Topology_Nodes t) i) as [n Hn]; [rewrite <- Hlen; by eapply lookup_lt_Some|].
  destruct (Hall i n n0 Hn Hi) as [Heq Hip]. apply list_elem_of_lookup_2 in Hn. pose proof (so_nodes _ (va_schema _ V) n Hn) as Hok. destruct (Hkeys n Hn) as [Hpub Hpriv].
  assert (addr_text (Node_OverlayIP n0)) as Haddr.
  { destruct Hip as [[Hne Hk]|(_ & (d & _ & Hf) & _)].
    - rewrite Hk. rewrite (clear_stale_kept _ _ Hne) in Hne. by apply ParseIP_addr, (nso_overlay _ Hok).
    - apply lowest_free_contained in Hf as (net & x & _ & Hx & _). apply ParseIP_addr. by eexists. }
  assert (Node_ID (infer_caps n0) = Node_ID n /\ Node_Name (infer_caps n0) = Node_Name n /\ Node_PublicEndpoints (infer_caps n0) = Node_PublicEndpoints n /\
          Node_OverlayIP (infer_caps n0) = Node_OverlayIP n0) as (E1 & E2 & E3 & E4) by (rewrite Heq; destruct n; cbn; done).
  split; rewrite ?E1, ?E2, ?E3, ?E4; [|done|by apply WireGuard_key_text|done|].
  - by eapply class_single; [|apply (nso_name _ Hok)|apply (nso_charset _ Hok)].
  - intros ep Hep. apply host_single, (nso_endpoints _ Hok), Hep.
Qed.

(** The addresses of an allocation. *)
Record alloc_text (a : pairAllocation) : Prop := {
  at_transit : addr_text (al_localTransit a) /\ addr_text (al_remoteTransit a);
  at_ll : addr_text (al_localLL a) /\ addr_text (al_remoteLL a) }.

Lemma link_edge l : l ∈ groupLinks t1 -> lk_primaryEdge l ∈ Topology_Edges t /\ Edge_IsEnabled (lk_primaryEdge l) = true.
Proof. intros Hl. destruct (groupLinks_inv t1) as (_ & _ & Hs). destruct (Hs l Hl) as ([[e f] tn] & (He & En & _)%enabledEdges_spec & ->). done. Qed.

Lemma allocation_text l a : l ∈ groupLinks t1 -> m !! lk_linkKey l = Some a -> alloc_text a.
Proof.
  intros Hl Hma. destruct (preallocate_link_entry _ _ _ _ (groupLinks_NoDup t1) Hm Hl) as (a' & A' & _ & K). rewrite Hma in A'. injection A' as <-.
  destruct (link_edge l Hl) as [He En]. destruct (va_resolvable _ V _ He En) as [[f F] [tn T]]. pose proof (va_pins _ V _ f tn He En F T) as Hpins.
  destruct (pinned_alloc_shape l) as (_ & _ & _ & Ht & Hl').
  split.
  - destruct (fresh_transit _ _ K) as [[-> ->]|(i & _ & Hi)]; [|by eapply transitPair_addr].
    destruct (non_empty _ && non_empty _) eqn:E; destruct Ht as [-> ->]; [|done]. apply andb_prop in E as [E1%non_empty_true E2%non_empty_true].
    split; apply ParseIP_addr; eapply (po_transit_ip _ _ _ _ Hpins); auto.
  - clear Ht. destruct (fresh_ll _ _ K) as [[-> ->]|(i & _ & Hi)]; [|symmetry in Hi; by eapply linkLocal_addr].
    destruct (non_empty _ && non_empty _) eqn:E; destruct Hl' as [-> ->]; [|done]. apply andb_prop in E as [E1%non_empty_true E2%non_empty_true].
    split; apply ParseIP_addr; eapply Hll; eauto.
Qed.

(** What the files take from a peer. *)
Record peer_text (p : PeerInfo) : Prop := {
  pt_owner : exists n, n ∈ Topology_Nodes t1 /\ Peer_NodeID p = Node_ID n /\ Peer_PublicKey p = PublicKey (key_of keys (Node_ID n)) /\ Peer_NodeName p = Node_Name n;
  pt_allowed : Forall single (Peer_AllowedIPs p);
  pt_endpoint : single (Peer_Endpoint p);
  pt_interface : single (Peer_InterfaceName p);
  pt_transit : addr_text (Peer_LocalTransitIP p);
  pt_linklocal : addr_text (Peer_LocalLinkLocal p);
  pt_client : addr_text (Peer_ClientOverlayIP p) }.

Lemma interface_single name id backup : single (WgInterfaceNameForEdge name id backup).
Proof. by eapply single_forall; [|apply WgInterfaceNameForEdge_bytes]. Qed.
Lemma edge_host_single e : e ∈ Topology_Edges t -> single (Edge_EndpointHost e).
Proof. intros He. apply host_single, (so_edges _ (va_schema _ V) e He). Qed.

Lemma forward_single e a : e ∈ Topology_Edges t -> single (forward_endpoint e a).
Proof. intros He. unfold forward_endpoint. destruct (non_empty _); [|done]. by apply endpoint_single, edge_host_single. Qed.
Lemma reverse_single a e f tn : node_text f -> single (reverse_endpoint (build_edgeMap t1) a e f tn).
Proof.
  intros Hf. unfold reverse_endpoint. cbv zeta.
  assert (single (match Node_PublicEndpoints f with pe :: _ => if HasPublicIP (Node_Capabilities f) then formatEndpoint (PublicEndpoint_Host pe) (al_fromPort a) else "" | [] => "" end)) as Hfall.
  { destruct (Node_PublicEndpoints f) as [|pe l] eqn:E; [done|]. destruct (HasPublicIP _); [|done]. apply endpoint_single, (nt_hosts _ Hf). rewrite E. by left. }
  destruct (negb _); [|done]. destruct (build_edgeMap t1 !! _) as [r|] eqn:Er; [|done]. destruct (non_empty _); [|done].
  apply build_edgeMap_Some in Er as (Hr & _). destruct (_ <? _); by apply endpoint_single, edge_host_single.
Qed.

Lemma oriented_text a b : alloc_text a -> addr_text (pin_from_transit (oriented a b)) /\ addr_text (pin_from_ll (oriented a b)).
Proof. intros [[? ?] [? ?]]. by destruct b. Qed.

Lemma peers_text id p : p ∈ peers_of keys t1 dflt m id -> peer_text p.
Proof.
  intros (l & a & Hl & A & Hp)%peers_of_elem. pose proof (allocation_text l a Hl A) as Hat. destruct (link_edge l Hl) as [He _].
  destruct (groupLinks_nodes _ _ Hl) as (Hf & Ht & _). pose proof (allocated_node_text _ Hf) as Tf. pose proof (allocated_node_text _ Ht) as Tt.
  pose proof (fun b => proj1 (oriented_text a b Hat)) as Htr. pose proof (fun b => proj2 (oriented_text a b Hat)) as Hlo.
  assert (forall n, node_text n -> single (Node_OverlayIP n +:+ "/32")) as H32 by (intros n Hn; apply single_app; [by apply addr_single, nt_overlay|done]).
  unfold link_peers in Hp. destruct (is_client (lk_fromNode l)).
  - apply list_elem_of_singleton in Hp as [= -> ->]. split; cbn -[oriented]; [by exists (lk_fromNode l)|by repeat constructor; apply H32|done|apply interface_single|apply Htr|apply Hlo|by apply nt_overlay].
  - apply elem_of_cons in Hp as [[= -> ->]|Hp].
    + split; cbn -[oriented]; [by exists (lk_toNode l)| |by apply forward_single|apply interface_single|apply Htr|apply Hlo|].
      * destruct (is_client _); repeat constructor; by apply H32.
      * destruct (is_client _); [by apply nt_overlay|done].
    + destruct (is_client (lk_toNode l)); [by apply elem_of_nil in Hp|]. apply list_elem_of_singleton in Hp as [= -> ->].
      split; cbn -[oriented]; [by exists (lk_fromNode l)|by repeat constructor|by apply reverse_single|apply interface_single|apply Htr|apply Hlo|done].
Qed.

(** *** Clients *)

Lemma appendCIDR_single l c : Forall single l -> single c -> Forall single (appendCIDR l c).
Proof. intros Hl Hc. unfold appendCIDR. destruct (_ || _); [done|]. apply Forall_app. split; [done|by repeat constructor]. Qed.
Lemma client_cidrs_single : Forall single (client_cidrs t1).
Proof.
  assert (forall xs acc, Forall single xs -> Forall single acc -> Forall single (foldl appendCIDR acc xs)) as Hfold.
  { intros xs. induction xs as [|x xs IH]; intros acc Hxs Hacc; [done|]. apply Forall_cons in Hxs as [Hx Hxs]. cbn. apply IH; [done|by apply appendCIDR_single]. }
  unfold client_cidrs. repeat apply Hfold; try done; apply Forall_forall; intros x (d & -> & Hd)%list_elem_of_fmap; pose proof (so_domains _ (va_schema _ V) d Hd) as Hok.
  - unfold default_transit. destruct (non_empty _) eqn:E; [|done]. apply non_empty_true in E. destruct (dso_transit _ Hok E) as (net & b & Hp & _). by eapply ParseCIDR_single.
  - destruct (dso_cidr _ Hok) as (net & b & Hp & _). by eapply ParseCIDR_single.
Qed.

Record client_text (info : ClientPeerInfo) : Prop := {
  ct_printable : printable_client info;
  ct_router : exists n, n ∈ Topology_Nodes t1 /\ Client_RouterPublicKey info = PublicKey (key_of keys (Node_ID n)) }.

Lemma clients_text id info : DeriveClientConfigs t1 keys m dflt !! id = Some info -> client_text info.
Proof.
  unfold DeriveClientConfigs. revert id info.
  apply (foldl_inv (fun pre configs => forall id info, configs !! id = Some info -> client_text info)); [intros id info; by rewrite lookup_empty|].
  intros pre n post configs Hpre IH id info. destruct (negb _); [apply IH|]. destruct (client_edge t1 n) as [e|] eqn:He; [|apply IH].
  destruct (nodeMap t1 (Edge_ToNodeID e)) as [router|] eqn:Hr; [|apply IH]. cbv zeta. rewrite lookup_insert_Some. intros [[_ <-]|[_ Hold]]; [|by eapply IH].
  assert (n ∈ Topology_Nodes t1) as Hn by (rewrite Hpre; set_solver). apply find_last_Some in Hr as [Hrouter _].
  pose proof (allocated_node_text _ Hn) as Tn. pose proof (allocated_node_text _ Hrouter) as Tr. split; [|by exists router].
  split; cbn; [by apply nt_name|by apply nt_private|by apply addr_single, nt_overlay|by apply nt_public| |apply client_cidrs_single].
  apply List.find_some in He as [He%list_elem_of_In _]. unfold client_endpoint. cbv zeta. destruct (non_empty _); [|done]. destruct (0 <? _); (destruct (0 <? _) || idtac); try done;
    repeat (destruct (0 <? _)); try done; by apply endpoint_single, edge_host_single.
Qed.

Lemma peer_printable n p : n ∈ Topology_Nodes t1 -> peer_text p -> printable n p (key_of keys (Node_ID n)).
Proof.
  intros Hn Hp. pose proof (allocated_node_text _ Hn) as Tn. destruct Hp as [(n' & Hn' & _ & Hk & Hname) ? ? ? ? ? ?]. pose proof (allocated_node_text _ Hn') as Tn'.
  split; try done; try (by apply addr_single); [by apply nt_name|by apply nt_private|rewrite Hname; by apply nt_name|rewrite Hk; by apply nt_public].
Qed.
End Compiled.

(** ** The commands of a file *)

(** The values that wg-quick hands to a shell. *)
Definition root_command (line : string) : option string :=
  match strip "PostUp = " line with Some v => Some v | None => strip "PostDown = " line end.
Definition root_commands (content : string) : list string := omap root_command (split_on newline_byte content).

(** The four commands of the template, for an address. *)
Definition inert_command (cmd : string) : Prop :=
  exists a, addr_text a /\ cmd ∈ [("ip -6 addr add " +:+ a +:+ "/64 dev %i 2>/dev/null || true")%string; ("ip -6 addr del " +:+ a +:+ "/64 dev %i 2>/dev/null || true")%string;
                                  ("ip route replace " +:+ a +:+ "/32 dev %i 2>/dev/null || true")%string; ("ip route del " +:+ a +:+ "/32 dev %i 2>/dev/null || true")%string].

(** The scan of the agent finds exactly this peer key, whatever the path. *)
Definition one_peer (content key : string) : Prop := forall path seen, is_conf path = true -> conf_keys seen (path, content) = Ok ({[ key ]} ∪ seen).

Lemma root_commands_lines ls P :
  Forall single ls -> Forall (fun l => forall v, root_command l = Some v -> P v) ls -> Forall P (root_commands (unlines ls)).
Proof.
  intros Hs Hl. unfold root_commands. rewrite split_unlines by done. rewrite omap_app. apply Forall_app. split; [|constructor].
  apply Forall_forall. intros v (l & Hin & Hv)%list_elem_of_omap. by apply (proj1 (Forall_forall _ _) Hl l Hin).
Qed.

(** By the first characters of a line that starts with a literal. *)
Ltac command_step :=
  lazymatch goal with
  | |- Forall _ (_ ++ _) => apply Forall_app; split
  | |- Forall _ (line_if _ _) => apply Forall_line_if
  | |- Forall _ (lines_if _ _) => apply Forall_lines_if
  | |- Forall _ [] => exact (List.Forall_nil _)
  | |- Forall _ (_ :: _) => apply Forall_cons; split
  | |- forall v, root_command _ = Some v -> _ => let E := fresh in intros ? E; first [discriminate E | cbn in E; injection E as <-]
  end.

Lemma interface_commands c : addr_text (WGI_LocalLinkLocal c) -> addr_text (WGI_ClientOverlayIP c) ->
  Forall (fun l => forall v, root_command l = Some v -> inert_command v) (interface_lines c ++ peer_lines (WGI_Peer c)).
Proof.
  intros Hl Ho. unfold interface_lines, peer_lines. repeat command_step.
  1: exists (WGI_LocalLinkLocal c); split; [done|by left].
  1: exists (WGI_LocalLinkLocal c); split; [done|by right; left].
  1: exists (WGI_ClientOverlayIP c); split; [done|by right; right; left].
  exists (WGI_ClientOverlayIP c); split; [done|by right; right; right; left].
Qed.
Lemma client_commands c : Forall (fun l => forall v, root_command l = Some v -> False) (client_lines c ++ router_lines c).
Proof. unfold client_lines, router_lines. repeat command_step. Qed.

Lemma peer_lines_single node peer keys : printable node peer keys -> let c := peer_config node peer keys in Forall single (interface_lines c ++ peer_lines (WGI_Peer c)).
Proof.
  intros []. unfold interface_lines, peer_config, peer_lines. cbn [WGI_NodeName WGI_InterfaceName WGI_PrivateKey WGI_TransitIP WGI_ListenPort WGI_MTU WGI_LocalLinkLocal WGI_ClientOverlayIP
    WGI_Peer WGP_Name WGP_PublicKey WGP_AllowedIPs WGP_Endpoint WGP_PersistentKeepalive]. repeat single_step.
Qed.
Lemma client_lines_single info : printable_client info -> Forall single (client_lines (client_config info) ++ router_lines (client_config info)).
Proof.
  intros []. unfold client_lines, router_lines, client_config. cbn zeta. cbn [WGC_NodeName WGC_PrivateKey WGC_OverlayIP WGC_ListenPort WGC_MTU WGC_RouterPublicKey WGC_RouterEndpoint WGC_AllowedIPs].
  repeat single_step.
Qed.

Lemma one_peer_rendered content k : rendered content k -> one_peer content k.
Proof. intros Hr path seen Hp. by apply rendered_conf. Qed.

(** The schema pass fills defaults and leaves pins and nodes alone. *)
Lemma schema_pins_ok probe topo : link_local_pins_ok topo -> link_local_pins_ok (ValidateSchema probe topo).1.
Proof.
  rewrite ValidateSchema_unfold. destruct (topologyExceedsBounds topo); [done|]. intros H e x (i & e0 & Hi & ->)%elem_of_imap_pairs. apply list_elem_of_lookup_2 in Hi.
  assert (Edge_PinnedFromLinkLocal (edge_rules i e0).1 = Edge_PinnedFromLinkLocal e0 /\ Edge_PinnedToLinkLocal (edge_rules i e0).1 = Edge_PinnedToLinkLocal e0) as [-> ->]
    by (unfold edge_rules; cbn [fst]; destruct (String.eqb _ _); by destruct e0).
  by apply H.
Qed.
Lemma schema_keys_ok probe topo keys : keys_ok topo keys -> keys_ok (ValidateSchema probe topo).1 keys.
Proof. rewrite ValidateSchema_unfold. by destruct (topologyExceedsBounds topo). Qed.

(** C4. Nothing can be injected into a WireGuard file.  When a compile succeeds for
    well-formed keys and link-local pins that are addresses, every file it yields has
    exactly one peer, with exactly the key of that peer, and the only commands in it
    that root runs are those of the template with an address in them, whatever names,
    endpoints and domains the topology has; the files of clients have none. *)
Theorem compiled_configs_inert probe ctx topo keys reserved dflt t1 r ws :
  CompileAt probe ctx topo keys reserved dflt = (t1, Some (Ok (r, ws))) -> link_local_pins_ok topo -> keys_ok topo keys ->
  (forall n ps p, n ∈ Topology_Nodes (CR_Topology r) -> CR_PeerMap r !! Node_ID n = Some ps -> p ∈ ps ->
     let conf := RenderPerPeerWireGuardConfig n p (key_of keys (Node_ID n)) in
     one_peer conf (Peer_PublicKey p) /\ Forall inert_command (root_commands conf)) /\
  (forall id info, CR_ClientConfigs r !! id = Some info ->
     let conf := RenderClientWireGuardConfig info in one_peer conf (Client_RouterPublicKey info) /\ root_commands conf = []).
Proof.
  intros (V & Et & (nodes & m & Ha & Hm & ->)%compile_passes_inv)%CompileAt_inv Hll%(schema_pins_ok probe) Hk%(schema_keys_ok probe). rewrite <- Et in Hll, Hk.
  cbn [CR_Topology CR_PeerMap CR_ClientConfigs]. split.
  - intros n ps p Hn Hps Hp. change (n ∈ Topology_Nodes (allocated_topo t1 nodes)) in Hn.
    rewrite (append_all_lookup _ _ _ _ (init_peerMap_lookup _ n Hn)) in Hps. injection Hps as <-.
    pose proof (peers_text ctx t1 nodes keys reserved dflt m V Ha Hm Hll Hk _ _ Hp) as Htext.
    pose proof (peer_printable ctx t1 nodes keys V Ha Hk n p Hn Htext) as Hpr.
    split; [by apply one_peer_rendered, rendered_peer|]. apply root_commands_lines; [by apply peer_lines_single|]. apply interface_commands; by destruct Htext.
  - intros id info Hi. pose proof (clients_text ctx t1 nodes keys reserved dflt m V Ha Hm Hll Hk id info Hi) as [Hpr _]. split; [by apply one_peer_rendered, rendered_client|].
    pose proof (root_commands_lines _ _ (client_lines_single info Hpr) (client_commands (client_config info))) as Hno. unfold RenderClientWireGuardConfig, wgClientConfigTemplate.
    destruct (root_commands _) as [|x l]; [done|]. by apply Forall_cons in Hno as [[] _].
Qed.

(** ** Examples *)

Definition ex_wg_key (c : ascii) : string := (String c "AAAAAAAAAAAAAAAAAAAAAAAAAAAAAAAAAAAAAAAAAA=")%string.
Definition ex_wg_keys : gmap string KeyPair :=
  list_to_map [("a", mkKeyPair "ka" (ex_wg_key "a")); ("b", mkKeyPair "kb" (ex_wg_key "b")); ("c", mkKeyPair "kc" (ex_wg_key "c"))]%string.

(** The result of a compile, or an empty one. *)
Definition compiled (topo : Topology) : CompileResult :=
  match (CompileAt ex_probe Background topo ex_wg_keys None "").2 with Some (Ok (r, _)) => r | _ => mkCompileResult topo ∅ ∅ "" "" "" 0 end.
Definition compiled_file (topo : Topology) (id : string) : option string :=
  match CR_PeerMap (compiled topo) !! id with
  | Some (p :: _) => (fun n => RenderPerPeerWireGuardConfig n p (key_of ex_wg_keys id)) <$> nodeMap (CR_Topology (compiled topo)) id
  | _ => None
  end.

Lemma compiled_Some topo : match (CompileAt ex_probe Background topo ex_wg_keys None "").2 with Some (Ok _) => true | _ => false end = true ->
  exists ws, CompileAt ex_probe Background topo ex_wg_keys None "" = ((CompileAt ex_probe Background topo ex_wg_keys None "").1, Some (Ok (compiled topo, ws))).
Proof. unfold compiled. destruct (CompileAt ex_probe Background topo ex_wg_keys None "") as [t1 [[[r ws]|]|]]; cbn; [by exists ws|done..]. Qed.

Lemma compiled_configs_inert_witness :
  exists info, CR_ClientConfigs (compiled ex_compile_topo) !! "c"%string = Some info /\ one_peer (RenderClientWireGuardConfig info) (ex_wg_key "a") /\
    root_commands (RenderClientWireGuardConfig info) = [].
Proof.
  destruct (compiled_Some ex_compile_topo) as [ws Hc]; [vm_compute; reflexivity|].
  assert (link_local_pins_ok ex_compile_topo) as Hll.
  { intros e x He Hx Hne. exfalso. apply Hne. apply list_elem_of_In in He. destruct He as [<-|[<-|[<-|[]]]]; by destruct Hx as [-> | ->]. }
  assert (keys_ok ex_compile_topo ex_wg_keys) as Hk.
  { intros n Hn. apply list_elem_of_In in Hn. destruct Hn as [<-|[<-|[<-|[]]]]; split; vm_compute; reflexivity. }
  assert (exists info, CR_ClientConfigs (compiled ex_compile_topo) !! "c"%string = Some info /\ Client_RouterPublicKey info = ex_wg_key "a") as (info & Hi & Hr).
  { set (o := CR_ClientConfigs (compiled ex_compile_topo) !! "c"%string). assert (match o with Some info => String.eqb (Client_RouterPublicKey info) (ex_wg_key "a") | None => false end = true) as Hb by (vm_compute; reflexivity).
    clearbody o. destruct o as [info|]; [|discriminate Hb]. apply String.eqb_eq in Hb. exists info. split; [reflexivity|exact Hb]. }
  destruct (compiled_configs_inert ex_probe Background ex_compile_topo ex_wg_keys None "" _ _ ws Hc Hll Hk) as [_ Hclients]. specialize (Hclients "c"%string info Hi) as [H1 H2].
  rewrite Hr in H1. exists info. split; [exact Hi|]. split; [exact H1|exact H2].
Defined.

(** A link whose near end has a pin that is not an address. *)
Definition ex_hostile_topo : Topology :=
  ex_topology [mkDomain "d" "d" "10.11.0.0/24" "" "auto" "babel" [] ""]
    [ex_node "a" "router" "d" "" (ex_caps true true); ex_node "b" "router" "d" "" (ex_caps true true)]
    [ex_edge "e1" "a" "b" "b.example" "" (mkPins 0 0 "" "" "::1/128 dev lo; reboot #" "fe80::2")].

(** Link-local pins reach a root shell unchecked.  A topology whose pinned
    link-local address is a shell command is accepted by both validation passes, and
    the file of the node runs that command as root when the interface comes up. *)
Theorem pinned_link_local_injects :
  (exists t1 r ws, CompileAt ex_probe Background ex_hostile_topo ex_wg_keys None "" = (t1, Some (Ok (r, ws)))) /\
  root_commands <$> compiled_file ex_hostile_topo "a" =
    Some ["ip -6 addr add ::1/128 dev lo; reboot #/64 dev %i 2>/dev/null || true"%string; "ip -6 addr del ::1/128 dev lo; reboot #/64 dev %i 2>/dev/null || true"%string].
Proof.
  split; [|vm_compute; reflexivity]. destruct (compiled_Some ex_hostile_topo) as [ws Hc]; [vm_compute; reflexivity|]. eauto.
Qed.
