(* ===== verification/CoreState.v ===== *)
(** * The core with its overlay and audit log ([internal/controller/storecore.go],
    [storecore_telemetry.go], [internal/telemetrymetric])

    [storeCore] holds the backend, the volatile telemetry overlay of every node and
    the telemetry history, of which only the samples handed to it are kept here.  It
    is itself a backend, so the operations of [StoreCore] and [StoreStage] apply to
    it.  [AuditBackend] is the audit half of the port of [kv.go]. *)

From stdpp Require Import base gmap strings list sorting.
From Stdlib Require Import ZArith Lia Ascii.
From S2P Require Import Prelude GoLib LinkID GoText StoreTypes StoreMonad MemKV StoreCore StoreLogic AuditLog.

Local Open Scope Z_scope.
Local Open Scope store_scope.

(** ** The audit half of the port *)

Class AuditBackend (S : Type) := {
  kv_appendAudit : TenantID -> AuditEntry -> S -> S * AuditEntry;
  kv_listAudit : TenantID -> S -> list AuditEntry }.

(** The fields of an entry that its author sets. *)
Definition event (e : AuditEntry) : Z * string * string * string * string :=
  (AE_Timestamp e, AE_Actor e, AE_Action e, AE_NodeID e, AE_EventID e).

(** Appending adds one entry with the fields it was given; rotation may drop others,
    but not while the log is short.  Records and log do not affect each other. *)
Class AuditLaws (S : Type) `{KVBackend S} `{AuditBackend S} := {
  get_append : forall s t e t' c k, kv_get t' c k (kv_appendAudit t e s).1 = kv_get t' c k s;
  generation_append : forall s t e t', kv_generation t' (kv_appendAudit t e s).1 = kv_generation t' s;
  list_put : forall s t c k v t', kv_listAudit t' (kv_put t c k v s) = kv_listAudit t' s;
  list_del : forall s t c k t', kv_listAudit t' (kv_del t c k s) = kv_listAudit t' s;
  list_setGeneration : forall s t g t', kv_listAudit t' (kv_setGeneration t g s) = kv_listAudit t' s;
  list_append : forall s t e,
    exists dropped, dropped ++ kv_listAudit t (kv_appendAudit t e s).1 ≡ₚ (kv_appendAudit t e s).2 :: kv_listAudit t s /\
      ((length (kv_listAudit t s) < auditRotateAt)%nat -> dropped = []);
  list_append_ne : forall s t e t', t' <> t -> kv_listAudit t' (kv_appendAudit t e s).1 = kv_listAudit t' s;
  event_append : forall s t e, event (kv_appendAudit t e s).2 = event e }.

(** A call that updates the log and returns the entry it wrote. *)
Definition prim_update {S A} (f : S -> S * A) : Act S A :=
  fun fs s n =>
    match fs n with
    | NoFault => Done (f s).2 (f s).1 (n + 1)%nat
    | Fails applied msg => Failed (BackendError msg) (if applied then (f s).1 else s) (n + 1)%nat
    | Crashes applied => Crashed (if applied then (f s).1 else s)
    end.

Definition AppendAudit {S} `{AuditBackend S} (ctx : option string) (t : TenantID) (e : AuditEntry) : Act S AuditEntry :=
  check_ctx ctx ;;! prim_update (kv_appendAudit t e).
Definition ListAudit {S} `{AuditBackend S} (ctx : option string) (t : TenantID) : Act S (list AuditEntry) :=
  check_ctx ctx ;;! prim_read (kv_listAudit t).

(** ** The metric catalog *)

Definition ProbeResultsKey : string := "probe_results".
Definition ProbeSamplesKey : string := "probe_samples".
Definition ResourceKey : string := "resource".
Definition WireGuardPeersKey : string := "wireguard_peers".
Definition NativeXDPKey : string := "native_xdp".
Definition MimicCapabilityKey : string := "mimic_capability".
Definition AgentCapabilitiesKey : string := "agent_capabilities".
Definition DeviceInventoryKey : string := "device_inventory".
Definition DeviceSamplesKey : string := "device_samples".
Definition MaxAgentCapabilities : Z := 16.

Inductive HistoryDisposition := HistoryCharted | HistoryLiveOnly.
Inductive ChartFamily := ChartFamilyResource | ChartFamilyProbe | ChartFamilyDevice.
Inductive LiveSurfaceDisposition := LiveSurfaceVisible | LiveSurfaceHistoryOnly.

(** [metric_definition] is [Definition] of the catalog, without the prose of
    [LiveOnlyReason]; a live-only metric has no family. *)
Record metric_definition := mkMetric {
  Metric_Key : string; Metric_History : HistoryDisposition; Metric_ChartFamily : option ChartFamily; Metric_HistoryPriority : Z;
  Metric_LiveSurface : LiveSurfaceDisposition }.

Definition charted (key : string) (family : ChartFamily) (priority : Z) (surface : LiveSurfaceDisposition) : metric_definition :=
  mkMetric key HistoryCharted (Some family) priority surface.
Definition live_only (key : string) : metric_definition := mkMetric key HistoryLiveOnly None 0 LiveSurfaceVisible.

Definition catalogDefinitions : list metric_definition :=
  [charted ProbeResultsKey ChartFamilyProbe 30 LiveSurfaceVisible;
   charted ProbeSamplesKey ChartFamilyProbe 20 LiveSurfaceHistoryOnly;
   charted ResourceKey ChartFamilyResource 10 LiveSurfaceVisible;
   live_only WireGuardPeersKey; live_only NativeXDPKey; live_only MimicCapabilityKey; live_only AgentCapabilitiesKey; live_only DeviceInventoryKey;
   charted DeviceSamplesKey ChartFamilyDevice 40 LiveSurfaceVisible].

Definition visible (d : metric_definition) : bool := match Metric_LiveSurface d with LiveSurfaceVisible => true | LiveSurfaceHistoryOnly => false end.
Definition VisibleOnLiveSurface (key : string) : bool :=
  match List.find (fun d => String.eqb (Metric_Key d) key) catalogDefinitions with Some d => visible d | None => true end.

(** [regexp.MustCompile(`^[a-z0-9][a-z0-9-]{0,62}$`)] *)
Definition cap_head (c : ascii) : bool := let n := nat_of_ascii c in ((97 <=? n) && (n <=? 122) || (48 <=? n) && (n <=? 57))%nat.
Definition cap_char (c : ascii) : bool := cap_head c || Ascii.eqb c "-"%char.
Definition agentCapabilityPattern (s : string) : bool :=
  match s with
  | EmptyString => false
  | String c rest => cap_head c && str_forall cap_char rest && (String.length rest <=? 62)%nat
  end.

Fixpoint distinct_capabilities (seen : list string) (input : list string) : list string :=
  match input with
  | [] => []
  | c :: rest =>
      if negb (agentCapabilityPattern c) || bool_decide (c ∈ seen) then distinct_capabilities seen rest
      else c :: distinct_capabilities (c :: seen) rest
  end.
Definition NormalizeAgentCapabilities (input : list string) : list string :=
  take (Z.to_nat MaxAgentCapabilities) (sort_by id (distinct_capabilities [] input)).

(** [capabilities[i-1] >= capability] *)
Definition str_lt (a b : string) : bool := match String.compare a b with Lt => true | _ => false end.
Fixpoint sorted_capabilities (i : Z) (prev : option string) (cs : list string) : result string unit :=
  match cs with
  | [] => Ok tt
  | c :: rest =>
      if negb (agentCapabilityPattern c) then Err ("agent capability " +:+ strconv_Itoa i +:+ " is invalid")%string
      else if match prev with Some p => negb (str_lt p c) | None => false end then Err "agent capabilities are not sorted unique"%string
      else sorted_capabilities (i + 1) (Some c) rest
  end.
(** The argument is [None] for a nil slice. *)
Definition ValidateAgentCapabilities (capabilities : option (list string)) : result string unit :=
  match capabilities with
  | None => Err "agent capabilities field is missing or null"%string
  | Some cs => if MaxAgentCapabilities <? Z.of_nat (length cs) then Err "agent capabilities exceed 16 entries"%string else sorted_capabilities 0 None cs
  end.

(** ** The overlay *)

Definition metrics : Type := gmap string string.

Record telemetrySequenceCursor := mkCursor { cu_highestSequence : Z; cu_lastSampledAt : Z; cu_lastReceivedAt : Z }.

Record volatileTelemetry := mkVolatile {
  vt_writtenAt : Z;
  vt_conditions : list NodeCondition;
  vt_telemetry : metrics;
  vt_agentVersion : string;
  vt_telemetrySet : bool;
  vt_lastSeen : Z;
  vt_lastSeenSet : bool;
  vt_sequenceCursors : gmap string telemetrySequenceCursor;
  vt_retiredBoots : gmap string Z;
  vt_activeBootID : string;
  vt_activeSampledAt : Z }.

Definition newVolatile : volatileTelemetry := mkVolatile zero_time [] ∅ "" false zero_time false ∅ ∅ "" zero_time.

Definition set_live (at_ : Z) (cs : list NodeCondition) (m : metrics) (version : string) (v : volatileTelemetry) : volatileTelemetry :=
  mkVolatile at_ cs m version true (vt_lastSeen v) (vt_lastSeenSet v) (vt_sequenceCursors v) (vt_retiredBoots v) (vt_activeBootID v) (vt_activeSampledAt v).
Definition set_metrics (m : metrics) (v : volatileTelemetry) : volatileTelemetry :=
  mkVolatile (vt_writtenAt v) (vt_conditions v) m (vt_agentVersion v) (vt_telemetrySet v) (vt_lastSeen v) (vt_lastSeenSet v) (vt_sequenceCursors v)
    (vt_retiredBoots v) (vt_activeBootID v) (vt_activeSampledAt v).
Definition set_cursors (cs : gmap string telemetrySequenceCursor) (v : volatileTelemetry) : volatileTelemetry :=
  mkVolatile (vt_writtenAt v) (vt_conditions v) (vt_telemetry v) (vt_agentVersion v) (vt_telemetrySet v) (vt_lastSeen v) (vt_lastSeenSet v) cs
    (vt_retiredBoots v) (vt_activeBootID v) (vt_activeSampledAt v).
Definition set_retired (rb : gmap string Z) (v : volatileTelemetry) : volatileTelemetry :=
  mkVolatile (vt_writtenAt v) (vt_conditions v) (vt_telemetry v) (vt_agentVersion v) (vt_telemetrySet v) (vt_lastSeen v) (vt_lastSeenSet v)
    (vt_sequenceCursors v) rb (vt_activeBootID v) (vt_activeSampledAt v).
Definition set_active (boot : string) (sampledAt : Z) (v : volatileTelemetry) : volatileTelemetry :=
  mkVolatile (vt_writtenAt v) (vt_conditions v) (vt_telemetry v) (vt_agentVersion v) (vt_telemetrySet v) (vt_lastSeen v) (vt_lastSeenSet v)
    (vt_sequenceCursors v) (vt_retiredBoots v) boot sampledAt.

(** [if !ent.lastSeenSet || at.After(ent.lastSeen)] *)
Definition see (at_ : Z) (v : volatileTelemetry) : volatileTelemetry :=
  if negb (vt_lastSeenSet v) || (vt_lastSeen v <? at_)
  then mkVolatile (vt_writtenAt v) (vt_conditions v) (vt_telemetry v) (vt_agentVersion v) (vt_telemetrySet v) at_ true (vt_sequenceCursors v)
         (vt_retiredBoots v) (vt_activeBootID v) (vt_activeSampledAt v)
  else v.

Definition maxTelemetrySequenceCursors : nat := 4.
Definition maxTelemetryRetiredBoots : nat := 8.
Definition minute : Z := 60 * 1000000000.
Definition maxTelemetryReplayAge : Z := 24 * 60 * minute.
Definition maxTelemetryFutureSkew : Z := 5 * minute.
Definition telemetryBootStaleSlack : Z := 5 * minute.

Definition maxStoredConditions : nat := 64.
Definition stampConditions (conditions : list Condition) (observedAt : Z) : list NodeCondition :=
  (fun c => mkNodeCondition c observedAt) <$> take maxStoredConditions conditions.

Definition cloneLiveMetrics (m : metrics) : metrics := filter (fun kv : string * string => VisibleOnLiveSurface kv.1 = true) m.

(** A sample handed to the telemetry history. *)
Record historyAppend := mkAppend { HA_Tenant : TenantID; HA_NodeID : string; HA_Metrics : metrics; HA_At : Z; HA_Interval : Z }.

Definition normalizeTelemetrySampleTime (sampledAt receivedAt : Z) : Z * bool :=
  if (sampledAt <? receivedAt - maxTelemetryReplayAge) || (receivedAt + maxTelemetryFutureSkew <? sampledAt) then (receivedAt, false) else (sampledAt, true).

(** The overlay half of [recordTelemetryLocked]. *)
Definition record_live (conditions : list Condition) (m : metrics) (agentVersion : string) (observedAt : Z) (ent : volatileTelemetry) : volatileTelemetry :=
  let ent := see observedAt ent in
  if negb (vt_telemetrySet ent) || (vt_writtenAt ent <=? observedAt)
  then set_live observedAt (stampConditions conditions observedAt) (cloneLiveMetrics m)
         (if String.eqb agentVersion "" then vt_agentVersion ent else agentVersion) ent
  else ent.

(** The oldest entry of a map of times, the smaller key first; an empty key stands for
    none, as in the loops of the source. *)
Definition older (a b : string * Z) : string * Z :=
  if String.eqb a.1 "" || (b.2 <? a.2) || ((b.2 =? a.2) && str_lt b.1 a.1) then b else a.
Definition oldest (l : list (string * Z)) : string * Z := foldl older (""%string, zero_time) l.

Definition evictOldestTelemetryCursor (cursors : gmap string telemetrySequenceCursor) (protectedBootID : string)
  : gmap string telemetrySequenceCursor * (string * Z) :=
  let candidates := filter (fun p : string * Z => bool_decide (p.1 = protectedBootID) && (1 <? size cursors)%nat = false)
                      (prod_map id cu_lastReceivedAt <$> map_to_list cursors) in
  let o := oldest candidates in
  (if String.eqb o.1 "" then cursors else delete o.1 cursors, o).

Definition rememberRetiredTelemetryBoot (bootID : string) (at_ : Z) (ent : volatileTelemetry) : volatileTelemetry :=
  if String.eqb bootID "" then ent
  else
    let boots := vt_retiredBoots ent in
    let kept := if bool_decide (boots !! bootID = None) && (maxTelemetryRetiredBoots <=? size boots)%nat
                then delete (oldest (map_to_list boots)).1 boots else boots in
    set_retired (<[ bootID := at_ ]> kept) ent.

(** When the active boot was last heard of. *)
Definition active_since (ent : volatileTelemetry) : Z :=
  match vt_sequenceCursors ent !! vt_activeBootID ent with
  | Some previous => if cu_lastReceivedAt previous =? zero_time then vt_activeSampledAt ent else cu_lastReceivedAt previous
  | None => vt_activeSampledAt ent
  end.

Definition sameAgentCapabilityAdvertisement (current next : metrics) : bool :=
  bool_decide (current !! AgentCapabilitiesKey = next !! AgentCapabilitiesKey).

(** The overlay half of [RecordTelemetry]. *)
Definition heartbeat (conditions : list Condition) (m : metrics) (agentVersion : string) (observedAt : Z) (ent : volatileTelemetry) : volatileTelemetry :=
  let replaced := bool_decide (m !! AgentCapabilitiesKey = None) ||
                  (bool_decide (is_Some (vt_telemetry ent !! AgentCapabilitiesKey)) && negb (sameAgentCapabilityAdvertisement (vt_telemetry ent) m)) in
  let ent :=
    if vt_telemetrySet ent && (vt_writtenAt ent <=? observedAt) && negb (String.eqb (vt_activeBootID ent) "") && replaced
    then set_active "" zero_time (rememberRetiredTelemetryBoot (vt_activeBootID ent) (active_since ent) ent)
    else ent in
  record_live conditions m agentVersion observedAt ent.

Record TelemetryReceipt := mkReceipt { Receipt_AcknowledgedSequence : Z; Receipt_Duplicate : bool; Receipt_SampledAt : Z; Receipt_ReceivedAt : Z }.

(** One sequenced sample, as the node sent it. *)
Record sample := mkSample {
  sm_conditions : list Condition; sm_metrics : metrics; sm_agentVersion : string; sm_bootID : string; sm_sequence : Z; sm_sampledAt : Z;
  sm_interval : Z; sm_receivedAt : Z }.

Definition duplicate (x : sample) (ent : volatileTelemetry) : bool :=
  match vt_sequenceCursors ent !! sm_bootID x with Some cursor => sm_sequence x <=? cu_highestSequence cursor | None => false end.

(** A retry moves the time stamps of its cursor and of the node. *)
Definition touch_retry (x : sample) (ent : volatileTelemetry) : volatileTelemetry :=
  match vt_sequenceCursors ent !! sm_bootID x with
  | Some cursor =>
      let ent := if cu_lastReceivedAt cursor <? sm_receivedAt x
                 then set_cursors (<[ sm_bootID x := mkCursor (cu_highestSequence cursor) (cu_lastSampledAt cursor) (sm_receivedAt x) ]> (vt_sequenceCursors ent)) ent
                 else ent in
      see (sm_receivedAt x) ent
  | None => ent
  end.

Definition cross_boot (x : sample) (ent : volatileTelemetry) : bool :=
  negb (String.eqb (vt_activeBootID ent) "") && negb (String.eqb (vt_activeBootID ent) (sm_bootID x)).

Definition ambiguous (x : sample) (ent : volatileTelemetry) : bool :=
  cross_boot x ent &&
  (negb (normalizeTelemetrySampleTime (sm_sampledAt x) (sm_receivedAt x)).2 ||
   (negb (vt_activeSampledAt ent =? zero_time) && negb (vt_activeSampledAt ent <? sm_sampledAt x))).

(** Whether the sample replaces the live state. *)
Definition is_live (x : sample) (ent : volatileTelemetry) : bool :=
  let trusted := (normalizeTelemetrySampleTime (sm_sampledAt x) (sm_receivedAt x)).2 in
  let retired := bool_decide (is_Some (vt_retiredBoots ent !! sm_bootID x)) in
  let seen := bool_decide (is_Some (vt_sequenceCursors ent !! sm_bootID x)) in
  if cross_boot x ent then
    if retired then false
    else if seen then trusted && ((vt_activeSampledAt ent =? zero_time) || (vt_activeSampledAt ent <? sm_sampledAt x))
    else if trusted && negb (vt_activeSampledAt ent =? zero_time) && (sm_sampledAt x <? vt_activeSampledAt ent - telemetryBootStaleSlack) then false
    else true
  else negb retired.

Definition history_time (x : sample) (ent : volatileTelemetry) : Z :=
  let at_ := (normalizeTelemetrySampleTime (sm_sampledAt x) (sm_receivedAt x)).1 in
  let at_ := match vt_sequenceCursors ent !! sm_bootID x with
             | Some cursor => if negb (cu_lastSampledAt cursor =? zero_time) && (sm_sampledAt x <? cu_lastSampledAt cursor) then sm_receivedAt x else at_
             | None => at_
             end in
  if is_live x ent && negb (vt_activeSampledAt ent =? zero_time) && (at_ <? vt_activeSampledAt ent) then sm_receivedAt x else at_.

(** The cursor of the boot after the sample, making room for a new one. *)
Definition advance_cursor (x : sample) (ent : volatileTelemetry) : volatileTelemetry :=
  let cursor := default (mkCursor 0 zero_time zero_time) (vt_sequenceCursors ent !! sm_bootID x) in
  let ent :=
    if bool_decide (vt_sequenceCursors ent !! sm_bootID x = None) && (maxTelemetrySequenceCursors <=? size (vt_sequenceCursors ent))%nat
    then let '(cursors, (retiredID, retiredAt)) := evictOldestTelemetryCursor (vt_sequenceCursors ent) (vt_activeBootID ent) in
         rememberRetiredTelemetryBoot retiredID retiredAt (set_cursors cursors ent)
    else ent in
  let cursor := mkCursor (sm_sequence x)
    (if (cu_lastSampledAt cursor =? zero_time) || (cu_lastSampledAt cursor <? sm_sampledAt x) then sm_sampledAt x else cu_lastSampledAt cursor)
    (if cu_lastReceivedAt cursor <? sm_receivedAt x then sm_receivedAt x else cu_lastReceivedAt cursor) in
  set_cursors (<[ sm_bootID x := cursor ]> (vt_sequenceCursors ent)) ent.

(** The sample becomes the live state of its boot. *)
Definition go_live (crossBoot : bool) (historyAt : Z) (m : metrics) (x : sample) (ent : volatileTelemetry) : volatileTelemetry :=
  let ent := if crossBoot then rememberRetiredTelemetryBoot (vt_activeBootID ent) (active_since ent) ent else ent in
  let ent := set_active (sm_bootID x)
    (if (vt_activeSampledAt ent =? zero_time) || (vt_activeSampledAt ent <? historyAt) then historyAt else vt_activeSampledAt ent) ent in
  record_live (sm_conditions x) m (sm_agentVersion x) (sm_receivedAt x) ent.

(** The overlay half of [RecordTelemetrySequenced] for a new sample: the overlay, and
    the metrics and time handed to the history. *)
Definition accept (x : sample) (ent : volatileTelemetry) : volatileTelemetry * (metrics * Z) :=
  let live := is_live x ent in
  let crossBoot := cross_boot x ent in
  let doubt := ambiguous x ent in
  let historyAt := history_time x ent in
  let ent := if doubt && vt_telemetrySet ent then set_metrics (delete AgentCapabilitiesKey (vt_telemetry ent)) ent else ent in
  let ent := see (sm_receivedAt x) (advance_cursor x ent) in
  if live then
    let liveMetrics := if doubt then delete AgentCapabilitiesKey (sm_metrics x) else sm_metrics x in
    (go_live crossBoot historyAt liveMetrics x ent, (liveMetrics, historyAt))
  else (ent, (sm_metrics x, historyAt)).

(** ** The core *)

Record storeCore (B : Type) := mkCore {
  core_kv : B;
  core_telemetry : gmap (TenantID * string) volatileTelemetry;
  core_history : list historyAppend }.
Arguments mkCore {B}.
Arguments core_kv {B}.
Arguments core_telemetry {B}.
Arguments core_history {B}.

Section Core.
Context {B : Type} `{KVBackend B} `{AuditBackend B}.

Definition newStoreCore (kv : B) : storeCore B := mkCore kv ∅ [].
Definition on_kv (f : B -> B) (c : storeCore B) : storeCore B := mkCore (f (core_kv c)) (core_telemetry c) (core_history c).

#[export] Instance storeCore_backend : KVBackend (storeCore B) := {|
  kv_get t coll key c := kv_get t coll key (core_kv c);
  kv_put t coll key v := on_kv (kv_put t coll key v);
  kv_del t coll key := on_kv (kv_del t coll key);
  kv_list t coll c := kv_list t coll (core_kv c);
  kv_generation t c := kv_generation t (core_kv c);
  kv_setGeneration t g := on_kv (kv_setGeneration t g) |}.

#[export] Instance storeCore_audit : AuditBackend (storeCore B) := {|
  kv_appendAudit t e c := let r := kv_appendAudit t e (core_kv c) in (mkCore r.1 (core_telemetry c) (core_history c), r.2);
  kv_listAudit t c := kv_listAudit t (core_kv c) |}.

(** A restart loses the overlay; the history buffer is volatile too. *)
Definition restart (c : storeCore B) : storeCore B := newStoreCore (core_kv c).

(** Memory is read and written without a call of the backend. *)
Definition peek {A} (f : storeCore B -> A) : Act (storeCore B) A := fun _ c n => Done (f c) c n.
Definition poke (f : storeCore B -> storeCore B) : Act (storeCore B) unit := fun _ c n => Done tt (f c) n.

Definition telemetryEntryLocked (t : TenantID) (nodeID : string) (c : storeCore B) : volatileTelemetry :=
  default newVolatile (core_telemetry c !! (t, nodeID)).
Definition set_entry (t : TenantID) (nodeID : string) (ent : volatileTelemetry) (c : storeCore B) : storeCore B :=
  mkCore (core_kv c) (<[ (t, nodeID) := ent ]> (core_telemetry c)) (core_history c).
Definition appendTelemetryHistoryLocked (t : TenantID) (nodeID : string) (m : metrics) (historyAt interval : Z) (c : storeCore B) : storeCore B :=
  mkCore (core_kv c) (core_telemetry c) (core_history c ++ [mkAppend t nodeID m historyAt interval]).

Definition applyTelemetryOverlay (t : TenantID) (tel : gmap (TenantID * string) volatileTelemetry) (n : RegistryNode) : RegistryNode :=
  match tel !! (t, RN_NodeID n) with
  | None => n
  | Some ent =>
      let lastSeen := if vt_lastSeenSet ent then vt_lastSeen ent else RN_LastSeen n in
      let '(conditions, telemetry, version) :=
        if vt_telemetrySet ent
        then (vt_conditions ent, map_to_list (vt_telemetry ent), if String.eqb (vt_agentVersion ent) "" then RN_LastAgentVersion n else vt_agentVersion ent)
        else (RN_Conditions n, RN_Telemetry n, RN_LastAgentVersion n) in
      mkRegistryNode (RN_NodeID n) (RN_WGPublicKey n) (RN_APITokenHash n) (RN_Status n) (RN_DesiredGeneration n) (RN_AppliedGeneration n) (RN_LastChecksum n)
        (RN_LastHealth n) version conditions telemetry lastSeen (RN_EnrolledAt n) (RN_RekeyRequested n)
  end.

Definition GetNode (ctx : option string) (t : TenantID) (nodeID : string) : Act (storeCore B) RegistryNode :=
  check_ctx ctx ;;!
  withLock (
    do! n <- loadJSON t collNodes nodeID in
    do! tel <- peek core_telemetry in
    ret (applyTelemetryOverlay t tel n)).

Definition ListNodes (ctx : option string) (t : TenantID) : Act (storeCore B) (list RegistryNode) :=
  check_ctx ctx ;;!
  withLock (
    do! recs <- list_records t collNodes in
    do! tel <- peek core_telemetry in
    match decode_all collNodes recs with
    | Ok out => ret (applyTelemetryOverlay t tel <$> out)
    | Err e => fail e
    end).

Definition refreshTelemetryOverlayFromReport (conditions : list NodeCondition) (agentVersion : string) (observedAt : Z) (ent : volatileTelemetry) : volatileTelemetry :=
  see observedAt
    (if negb (vt_telemetrySet ent) || (vt_writtenAt ent <=? observedAt)
     then set_live observedAt conditions (vt_telemetry ent) (if String.eqb agentVersion "" then vt_agentVersion ent else agentVersion) ent
     else ent).

Definition reported (gen : Z) (checksum health agentVersion : string) (conditions : list NodeCondition) (n : RegistryNode) : RegistryNode :=
  mkRegistryNode (RN_NodeID n) (RN_WGPublicKey n) (RN_APITokenHash n) (RN_Status n) (RN_DesiredGeneration n) gen checksum health
    (if String.eqb agentVersion "" then RN_LastAgentVersion n else agentVersion) conditions (RN_Telemetry n) (RN_LastSeen n) (RN_EnrolledAt n) (RN_RekeyRequested n).

Definition SetAppliedGeneration (ctx : option string) (t : TenantID) (nodeID : string) (gen : Z) (checksum health agentVersion : string)
    (conditions : list Condition) (observedAt : Z) : Act (storeCore B) unit :=
  check_ctx ctx ;;!
  withLock (
    do! n <- loadJSON t collNodes nodeID in
    let stamped := stampConditions conditions observedAt in
    saveJSON t collNodes nodeID (reported gen checksum health agentVersion stamped n) ;;!
    poke (fun c => set_entry t nodeID (refreshTelemetryOverlayFromReport stamped agentVersion observedAt (telemetryEntryLocked t nodeID c)) c)).

(** [kv.exists]: the record need not decode. *)
Definition telemetryNodeExists (ctx : option string) (t : TenantID) (nodeID : string) : Act (storeCore B) unit :=
  check_ctx ctx ;;!
  do! b <- get t collNodes nodeID in
  match b with Some _ => ret tt | None => fail ErrNotFound end.

Definition RecordTelemetry (ctx : option string) (t : TenantID) (nodeID : string) (conditions : list Condition) (m : metrics) (agentVersion : string)
    (observedAt : Z) : Act (storeCore B) unit :=
  telemetryNodeExists ctx t nodeID ;;!
  poke (fun c => appendTelemetryHistoryLocked t nodeID m observedAt 0
                   (set_entry t nodeID (heartbeat conditions m agentVersion observedAt (telemetryEntryLocked t nodeID c)) c)).

Definition RecordTelemetrySequenced (ctx : option string) (t : TenantID) (nodeID : string) (x : sample) : Act (storeCore B) TelemetryReceipt :=
  let interval := if sm_interval x <? 0 then 0 else sm_interval x in
  if String.eqb (TrimSpace (sm_bootID x)) "" then fail (PlainError "controller: telemetry boot id is empty")
  else if sm_sequence x =? 0 then fail (PlainError "controller: telemetry sequence must be positive")
  else if (sm_sampledAt x =? zero_time) || (sm_receivedAt x =? zero_time) then fail (PlainError "controller: telemetry timestamps must be non-zero")
  else
    telemetryNodeExists ctx t nodeID ;;!
    do! ent <- peek (telemetryEntryLocked t nodeID) in
    if duplicate x ent
    then poke (set_entry t nodeID (touch_retry x ent)) ;;! ret (mkReceipt (sm_sequence x) true (sm_sampledAt x) (sm_receivedAt x))
    else
      let '(ent', (m, historyAt)) := accept x ent in
      poke (fun c => appendTelemetryHistoryLocked t nodeID m historyAt interval (set_entry t nodeID ent' c)) ;;!
      ret (mkReceipt (sm_sequence x) false (sm_sampledAt x) (sm_receivedAt x)).

Definition TouchLastSeen (ctx : option string) (t : TenantID) (nodeID : string) (at_ : Z) : Act (storeCore B) unit :=
  telemetryNodeExists ctx t nodeID ;;!
  poke (fun c => set_entry t nodeID (see at_ (telemetryEntryLocked t nodeID c)) c).
End Core.
