(* ===== verification/CoreProps.v ===== *)
(** * Telemetry is bounded, volatile and recorded once

    The laws of the lifted backends, and the theorems about the telemetry overlay of
    [CoreState]. *)

From stdpp Require Import base gmap strings list sorting.
From Stdlib Require Import ZArith Lia Ascii.
From S2P Require Import Prelude GoLib LinkID GoText StoreTypes StoreMonad MemKV StoreCore StoreLogic AuditLog CoreState.

Local Open Scope Z_scope.
Local Open Scope store_scope.

(** ** Laws *)

#[export] Instance storeCore_laws {B} `{KVLaws B} : KVLaws (storeCore B).
Proof.
  split; cbn [kv_get kv_put kv_del kv_list kv_generation kv_setGeneration storeCore_backend on_kv core_kv]; intros.
  - apply get_put.
  - apply get_del.
  - apply get_setGeneration.
  - apply generation_put.
  - apply generation_del.
  - apply generation_setGeneration.
  - apply elem_of_kv_list.
  - apply kv_list_NoDup.
  - apply kv_list_sorted.
Qed.

#[export] Instance storeCore_audit_laws {B} `{AuditLaws B} : AuditLaws (storeCore B).
Proof.
  split; cbn [kv_get kv_put kv_del kv_generation kv_setGeneration storeCore_backend on_kv core_kv kv_appendAudit kv_listAudit storeCore_audit fst snd]; intros.
  - apply get_append.
  - apply generation_append.
  - apply list_put.
  - apply list_del.
  - apply list_setGeneration.
  - apply list_append.
  - by apply list_append_ne.
  - apply event_append.
Qed.

(** The in-memory backend with its audit logs. *)
Record memStore := mkMemStore { ms_kv : memkv; ms_audit : gmap TenantID memAuditLog }.
Definition newMemStore : memStore := mkMemStore newMemkv ∅.
Definition on_memkv (f : memkv -> memkv) (s : memStore) : memStore := mkMemStore (f (ms_kv s)) (ms_audit s).

#[export] Instance memStore_backend : KVBackend memStore := {|
  kv_get t coll key s := kv_get t coll key (ms_kv s);
  kv_put t coll key v := on_memkv (kv_put t coll key v);
  kv_del t coll key := on_memkv (kv_del t coll key);
  kv_list t coll s := kv_list t coll (ms_kv s);
  kv_generation t s := kv_generation t (ms_kv s);
  kv_setGeneration t g := on_memkv (kv_setGeneration t g) |}.
#[export] Instance memStore_audit : AuditBackend memStore := {|
  kv_appendAudit t e s := let r := mem_appendAudit t e (ms_audit s) in (mkMemStore (ms_kv s) r.1, r.2);
  kv_listAudit t s := mem_listAudit t (ms_audit s) |}.

#[export] Instance memStore_laws : KVLaws memStore.
Proof.
  split; cbn [kv_get kv_put kv_del kv_list kv_generation kv_setGeneration memStore_backend on_memkv ms_kv]; intros.
  - apply (get_put (S := memkv)).
  - apply (get_del (S := memkv)).
  - apply (get_setGeneration (S := memkv)).
  - apply (generation_put (S := memkv)).
  - apply (generation_del (S := memkv)).
  - apply (generation_setGeneration (S := memkv)).
  - apply (elem_of_kv_list (S := memkv)).
  - apply (kv_list_NoDup (S := memkv)).
  - apply (kv_list_sorted (S := memkv)).
Qed.

Lemma mem_listAudit_perm t audit : mem_listAudit t audit ≡ₚ al_entries (auditLogLocked t audit).
Proof. unfold mem_listAudit, auditLogLocked. destruct (audit !! t) as [log|]; [apply merge_sort_Permutation|done]. Qed.

Lemma mem_append_perm t e audit :
  exists dropped, dropped ++ mem_listAudit t (mem_appendAudit t e audit).1 ≡ₚ (mem_appendAudit t e audit).2 :: mem_listAudit t audit /\
    ((length (mem_listAudit t audit) < auditRotateAt)%nat -> dropped = []).
Proof.
  enough (exists dropped, dropped ++ al_entries (auditLogLocked t (mem_appendAudit t e audit).1) ≡ₚ (mem_appendAudit t e audit).2 :: al_entries (auditLogLocked t audit) /\
    ((length (al_entries (auditLogLocked t audit)) < auditRotateAt)%nat -> dropped = [])) as (dropped & Hp & Hd).
  { exists dropped. by rewrite !mem_listAudit_perm. }
  unfold mem_appendAudit. destruct (append_entry _ e) as [log entry] eqn:E. cbn [fst snd]. unfold auditLogLocked at 1. rewrite lookup_insert_eq.
  cbn [from_option id]. unfold append_entry in E. injection E as <- <-. cbn [al_entries]. set (es := al_entries (auditLogLocked t audit)).
  set (x := chainAudit _ _). rewrite length_app. cbn [length].
  destruct (Nat.ltb_spec auditRotateAt (length es + 1)) as [Hlt|Hge].
  - exists (take (length es + 1 - auditRetain) (es ++ [x])). rewrite take_drop. split; [exact (Permutation_app_comm es [x])|]. intros Hs. lia.
  - exists []. split; [exact (Permutation_app_comm es [x])|done].
Qed.

#[export] Instance memStore_audit_laws : AuditLaws memStore.
Proof.
  split; cbn [kv_get kv_put kv_del kv_generation kv_setGeneration memStore_backend on_memkv ms_kv ms_audit kv_appendAudit kv_listAudit memStore_audit fst snd]; intros; try done.
  - apply mem_append_perm.
  - unfold mem_listAudit, mem_appendAudit. destruct (append_entry _ e) as [log entry]. cbn [fst]. by rewrite lookup_insert_ne.
  - unfold mem_appendAudit, append_entry. cbn [snd]. unfold chainAudit. by destruct e.
Qed.

(** ** Reasoning about memory *)

Section Memory.
Context {B : Type}.
Lemma spec_peek {A} (f : storeCore B -> A) (P : storeCore B -> Prop) (Q : A -> storeCore B -> Prop) E C : (forall s, P s -> Q (f s) s) -> spec (peek f) P Q E C.
Proof. intros HQ fs s n Hs. by apply HQ. Qed.
Lemma spec_poke (f : storeCore B -> storeCore B) (P : storeCore B -> Prop) (Q : unit -> storeCore B -> Prop) E C : (forall s, P s -> Q tt (f s)) -> spec (poke f) P Q E C.
Proof. intros HQ fs s n Hs. by apply HQ. Qed.
Lemma readonly_peek {A} (f : storeCore B -> A) : answer (peek f) = fun s => Ok (f s).
Proof. done. Qed.
End Memory.

Lemma spec_update {S A} (f : S -> S * A) (P : S -> Prop) (Q : A -> S -> Prop) (E : store_error -> S -> Prop) (C : S -> Prop) :
  (forall s, P s -> Q (f s).2 (f s).1) -> (forall msg s, P s -> E (BackendError msg) s /\ E (BackendError msg) (f s).1) -> (forall s, P s -> C s /\ C (f s).1) ->
  spec (prim_update f) P Q E C.
Proof. intros HQ HE HC fs s n Hs. unfold prim_update. destruct (fs n) as [|[] msg|[]]; auto; by apply HE || by apply HC. Qed.

(** ** Bounds *)

Record bounded (ent : volatileTelemetry) : Prop := {
  b_cursors : (size (vt_sequenceCursors ent) <= maxTelemetrySequenceCursors)%nat;
  b_retired : (size (vt_retiredBoots ent) <= maxTelemetryRetiredBoots)%nat;
  b_conditions : (length (vt_conditions ent) <= maxStoredConditions)%nat;
  b_cursor_ids : vt_sequenceCursors ent !! ""%string = None;
  b_retired_ids : vt_retiredBoots ent !! ""%string = None }.

Lemma bounded_new : bounded newVolatile.
Proof. split; cbn; try lia; by rewrite ?map_size_empty, ?lookup_empty; unfold maxTelemetrySequenceCursors, maxTelemetryRetiredBoots; try lia. Qed.

Lemma older_cases a b : older a b = a \/ older a b = b.
Proof. unfold older. destruct (_ || _ || _); auto. Qed.

Lemma oldest_from l a : foldl older a l = a /\ (a.1 <> ""%string \/ l = []) \/ foldl older a l ∈ l.
Proof.
  revert a. induction l as [|b l IH]; intros a; cbn [foldl]; [left; auto|]. destruct (IH (older a b)) as [[-> Hn]|Hin]; [|right; by right].
  unfold older. destruct (String.eqb_spec a.1 "") as [Ha|Ha]; cbn [orb]; [right; by left|]. destruct (_ || _); [right; by left|left; auto].
Qed.

Lemma oldest_in l : l <> [] -> oldest l ∈ l.
Proof. intros Hl. unfold oldest. destruct (oldest_from l (""%string, zero_time)) as [[_ [H|H]]|H]; [by cbn in H|done|done]. Qed.

Lemma oldest_map (m : gmap string Z) : m <> ∅ -> is_Some (m !! (oldest (map_to_list m)).1).
Proof.
  intros Hm. assert (map_to_list m <> []) as Hl by (intros E; by apply map_to_list_empty_iff in E). apply oldest_in in Hl.
  destruct (oldest (map_to_list m)) as [k v] eqn:E. apply elem_of_map_to_list in Hl. cbn [fst]. eauto.
Qed.

Lemma remember_retired boot at_ ent :
  (size (vt_retiredBoots ent) <= maxTelemetryRetiredBoots)%nat -> vt_retiredBoots ent !! ""%string = None ->
  (size (vt_retiredBoots (rememberRetiredTelemetryBoot boot at_ ent)) <= maxTelemetryRetiredBoots)%nat /\
  vt_retiredBoots (rememberRetiredTelemetryBoot boot at_ ent) !! ""%string = None.
Proof.
  intros Hs H0. unfold rememberRetiredTelemetryBoot. destruct (String.eqb_spec boot "") as [->|Hb]; [done|]. cbn [vt_retiredBoots set_retired].
  set (boots := vt_retiredBoots ent) in *. split.
  - case_bool_decide as Hn; cbn [andb].
    + destruct (Nat.leb_spec maxTelemetryRetiredBoots (size boots)) as [Hge|Hlt].
      * assert (boots <> ∅) as Hne by (intros E; rewrite E, map_size_empty in Hge; unfold maxTelemetryRetiredBoots in Hge; lia).
        rewrite map_size_insert_None by (rewrite lookup_delete_None; by right). rewrite map_size_delete_Some by by apply oldest_map.
        unfold maxTelemetryRetiredBoots in *. lia.
      * rewrite map_size_insert_None by done. lia.
    + rewrite map_size_insert_Some by by apply not_eq_None_Some. done.
  - rewrite lookup_insert_ne by done. destruct (_ && _); [|done]. rewrite lookup_delete_None. by right.
Qed.

Lemma remember_rest boot at_ ent :
  vt_sequenceCursors (rememberRetiredTelemetryBoot boot at_ ent) = vt_sequenceCursors ent /\ vt_conditions (rememberRetiredTelemetryBoot boot at_ ent) = vt_conditions ent.
Proof. unfold rememberRetiredTelemetryBoot. by destruct (String.eqb boot ""). Qed.

Lemma bounded_remember boot at_ ent : bounded ent -> bounded (rememberRetiredTelemetryBoot boot at_ ent).
Proof.
  intros []. destruct (remember_retired boot at_ ent) as [? ?]; [done..|]. destruct (remember_rest boot at_ ent) as [E1 E2].
  split; by rewrite ?E1, ?E2.
Qed.

Lemma bounded_see at_ ent : bounded ent -> bounded (see at_ ent).
Proof. intros []. unfold see. destruct (_ || _); by split. Qed.

Lemma bounded_set_active boot at_ ent : bounded ent -> bounded (set_active boot at_ ent).
Proof. by intros []. Qed.

Lemma stamp_bounded cs at_ : (length (stampConditions cs at_) <= maxStoredConditions)%nat.
Proof. unfold stampConditions. rewrite length_fmap, length_take. lia. Qed.

Lemma bounded_live at_ cs m v ent : (length cs <= maxStoredConditions)%nat -> bounded ent -> bounded (set_live at_ cs m v ent).
Proof. intros Hc []. by split. Qed.

Lemma bounded_record cs m v at_ ent : bounded ent -> bounded (record_live cs m v at_ ent).
Proof.
  intros Hb. unfold record_live. cbn zeta. pose proof (bounded_see at_ ent Hb) as Hs. destruct (_ || _); [|done]. apply bounded_live; [apply stamp_bounded|done].
Qed.

Lemma bounded_heartbeat cs m v at_ ent : bounded ent -> bounded (heartbeat cs m v at_ ent).
Proof.
  intros Hb. unfold heartbeat. apply bounded_record. match goal with |- bounded (if ?c then _ else _) => destruct c end; [|done]. by apply bounded_set_active, bounded_remember.
Qed.

(** Eviction makes room. *)
Lemma evict_room cursors protected :
  (2 <= size cursors)%nat -> cursors !! ""%string = None ->
  size (evictOldestTelemetryCursor cursors protected).1 = (size cursors - 1)%nat /\ (evictOldestTelemetryCursor cursors protected).1 !! ""%string = None /\
  forall b, b <> (evictOldestTelemetryCursor cursors protected).2.1 -> (evictOldestTelemetryCursor cursors protected).1 !! b = cursors !! b.
Proof.
  intros Hsz H0. unfold evictOldestTelemetryCursor. set (cands := filter _ _).
  assert (cands <> []) as Hne.
  { intros E. assert (forall p, p ∈ map_to_list cursors -> p.1 = protected) as Hall.
    { intros [k c] Hin. cbn [fst]. destruct (decide (k = protected)) as [|Hk]; [done|]. exfalso.
      assert ((k, cu_lastReceivedAt c) ∈ cands) as Hc; [|rewrite E in Hc; by apply elem_of_nil in Hc].
      apply list_elem_of_filter. cbn [fst]. split; [by rewrite bool_decide_eq_false_2|]. apply list_elem_of_fmap. by exists (k, c). }
    assert (map_to_list cursors ≡ₚ map_to_list cursors) as _ by done. pose proof (NoDup_fst_map_to_list cursors) as Hnd.
    rewrite <- length_map_to_list in Hsz. destruct (map_to_list cursors) as [|p [|q l]] eqn:El; cbn in Hsz; try lia.
    apply NoDup_cons in Hnd as [Hnd _]. apply Hnd. rewrite (Hall p) by by left. rewrite <- (Hall q) by (right; by left). by left. }
  pose proof (oldest_in cands Hne) as Hin. destruct (oldest cands) as [k v] eqn:Eo. unfold cands in Hin. apply list_elem_of_filter in Hin as [_ Hin].
  apply list_elem_of_fmap in Hin as ([k' c] & [= -> ->] & Hin%elem_of_map_to_list). cbn [id] in *. cbn [fst snd].
  destruct (String.eqb_spec k' "") as [->|Hk]; [congruence|]. split; [by rewrite map_size_delete_Some by eauto; lia|]. split.
  - rewrite lookup_delete_None. by right.
  - intros b Hb. by rewrite lookup_delete_ne.
Qed.

Lemma bounded_advance x ent : sm_bootID x <> ""%string -> bounded ent -> bounded (advance_cursor x ent).
Proof.
  intros Hx Hb. unfold advance_cursor. cbn zeta. set (cur := mkCursor _ _ _). clearbody cur.
  destruct (bool_decide (vt_sequenceCursors ent !! sm_bootID x = None)) eqn:En; cbn [andb].
  - apply bool_decide_eq_true_1 in En. destruct (Nat.leb_spec maxTelemetrySequenceCursors (size (vt_sequenceCursors ent))) as [Hge|Hlt].
    + destruct Hb. destruct (evict_room (vt_sequenceCursors ent) (vt_activeBootID ent)) as (Hsz & H0 & Hrest); [unfold maxTelemetrySequenceCursors in *; lia|done|].
      destruct (evictOldestTelemetryCursor _ _) as [cursors [rid rat]]. cbn [fst snd] in *.
      assert (bounded (rememberRetiredTelemetryBoot rid rat (set_cursors cursors ent))) as [].
      { apply bounded_remember. split; cbn; try done. lia. }
      destruct (remember_rest rid rat (set_cursors cursors ent)) as [Ec _]. cbn [vt_sequenceCursors set_cursors] in Ec.
      split; cbn [vt_sequenceCursors vt_retiredBoots vt_conditions set_cursors]; try done; rewrite Ec.
      * destruct (cursors !! sm_bootID x) eqn:Ex; [rewrite map_size_insert_Some by eauto|rewrite map_size_insert_None by done]; unfold maxTelemetrySequenceCursors in *; lia.
      * by rewrite lookup_insert_ne.
    + destruct Hb. split; cbn [vt_sequenceCursors vt_retiredBoots vt_conditions set_cursors]; try done.
      * rewrite map_size_insert_None by done. lia.
      * by rewrite lookup_insert_ne.
  - apply bool_decide_eq_false_1, not_eq_None_Some in En. destruct Hb. split; cbn [vt_sequenceCursors vt_retiredBoots vt_conditions set_cursors]; try done.
    + by rewrite map_size_insert_Some.
    + by rewrite lookup_insert_ne.
Qed.

Lemma bounded_accept x ent : sm_bootID x <> ""%string -> bounded ent -> bounded (accept x ent).1.
Proof.
  intros Hx Hb. unfold accept. cbn zeta. set (ent1 := if _ && _ then _ else ent). assert (bounded ent1) as H1 by (unfold ent1; destruct (_ && _); [destruct Hb; by split|done]).
  pose proof (bounded_see (sm_receivedAt x) _ (bounded_advance x ent1 Hx H1)) as H2. destruct (is_live x ent); [|exact H2]. cbn [fst]. unfold go_live. cbn zeta.
  apply bounded_record, bounded_set_active. destruct (cross_boot x ent); [by apply bounded_remember|done].
Qed.

Lemma bounded_retry x ent : sm_bootID x <> ""%string -> bounded ent -> bounded (touch_retry x ent).
Proof.
  intros Hx Hb. unfold touch_retry. destruct (vt_sequenceCursors ent !! sm_bootID x) as [cursor|] eqn:Ec; [|done]. apply bounded_see. destruct (_ <? _); [|done].
  destruct Hb. split; cbn [vt_sequenceCursors vt_retiredBoots vt_conditions set_cursors]; try done.
  - by rewrite map_size_insert_Some.
  - by rewrite lookup_insert_ne.
Qed.

Lemma bounded_report cs v at_ ent : (length cs <= maxStoredConditions)%nat -> bounded ent -> bounded (refreshTelemetryOverlayFromReport cs v at_ ent).
Proof. intros Hc Hb. unfold refreshTelemetryOverlayFromReport. apply bounded_see. destruct (_ || _); [by apply bounded_live|done]. Qed.

(** ** Runs of telemetry operations *)

Inductive tel_op :=
| OpHeartbeat (conditions : list Condition) (m : metrics) (agentVersion : string) (observedAt : Z)
| OpSample (x : sample)
| OpTouch (at_ : Z)
| OpReport (gen : Z) (checksum health agentVersion : string) (conditions : list Condition) (observedAt : Z).

Definition durable_op (op : tel_op) : bool := match op with OpReport _ _ _ _ _ _ => true | _ => false end.

(** One request for a node, with the faults it meets. *)
Record tel_call := mkCall { tc_ctx : option string; tc_tenant : TenantID; tc_node : string; tc_op : tel_op; tc_faults : Faults }.

Section Runs.
Context {B : Type} `{KVBackend B}.

Definition run_tel (c : tel_call) : Act (storeCore B) unit :=
  match tc_op c with
  | OpHeartbeat cs m v at_ => RecordTelemetry (tc_ctx c) (tc_tenant c) (tc_node c) cs m v at_
  | OpSample x => RecordTelemetrySequenced (tc_ctx c) (tc_tenant c) (tc_node c) x ;;! ret tt
  | OpTouch at_ => TouchLastSeen (tc_ctx c) (tc_tenant c) (tc_node c) at_
  | OpReport g sum health v cs at_ => SetAppliedGeneration (tc_ctx c) (tc_tenant c) (tc_node c) g sum health v cs at_
  end.

(** A crash restarts the process with an empty overlay. *)
Definition after_tel {A} (o : outcome (storeCore B) A) : storeCore B := match o with Crashed s => restart s | _ => outcome_state o end.
Definition run_calls (cs : list tel_call) (s : storeCore B) : storeCore B := foldl (fun s c => after_tel (run_tel c (tc_faults c) s 0%nat)) s cs.

Definition all_bounded (s : storeCore B) : Prop := forall key ent, core_telemetry s !! key = Some ent -> bounded ent.

Lemma all_bounded_entry t node s : all_bounded s -> bounded (telemetryEntryLocked t node s).
Proof. intros Hb. unfold telemetryEntryLocked. destruct (core_telemetry s !! (t, node)) as [ent|] eqn:E; [by apply (Hb _ _ E)|apply bounded_new]. Qed.
Lemma all_bounded_set t node ent s : bounded ent -> all_bounded s -> all_bounded (set_entry t node ent s).
Proof. intros He Hb key e. cbn [core_telemetry set_entry]. rewrite lookup_insert_Some. intros [[_ <-]|[_ ?]]; eauto. Qed.
Lemma all_bounded_append t node m at_ i s : all_bounded s -> all_bounded (appendTelemetryHistoryLocked t node m at_ i s).
Proof. done. Qed.

(** What a telemetry call leaves of the durable state. *)
Definition same_kv (kv : B) (s : storeCore B) : Prop := core_kv s = kv /\ all_bounded s.

Lemma keeps_exists ctx t node I : (forall s : storeCore B, I s -> True) -> keeps (telemetryNodeExists ctx t node) I.
Proof.
  intros _. unfold keeps, telemetryNodeExists. apply spec_ctx; [done|]. apply spec_bind with (R := fun _ => I); [by apply spec_read|].
  intros [v|]; [by apply spec_ret|by apply spec_fail].
Qed.

Lemma boot_nonempty b : String.eqb (TrimSpace b) "" = false -> b <> ""%string.
Proof. intros Hb ->. discriminate Hb. Qed.

Lemma keeps_volatile kv c : durable_op (tc_op c) = false -> keeps (run_tel c) (same_kv kv).
Proof.
  intros Hd. unfold run_tel. destruct (tc_op c) as [cs m v at_|x|at_|]; [..|done].
  - apply spec_bind with (R := fun _ => same_kv kv); [by apply keeps_exists|]. intros _. apply spec_poke. intros s [Hk Hb]. split; [done|].
    apply all_bounded_append, all_bounded_set; [|done]. by apply bounded_heartbeat, all_bounded_entry.
  - apply spec_bind with (R := fun _ => same_kv kv); [|intros _; by apply spec_ret]. unfold RecordTelemetrySequenced. cbn zeta.
    destruct (String.eqb _ "") eqn:Eb; [by apply spec_fail|]. destruct (_ =? 0); [by apply spec_fail|]. destruct (_ || _); [by apply spec_fail|].
    apply boot_nonempty in Eb. apply spec_bind with (R := fun _ => same_kv kv); [by apply keeps_exists|]. intros _.
    apply spec_bind with (R := fun ent s => same_kv kv s /\ bounded ent).
    { apply spec_peek. intros s Hs. split; [done|]. by apply all_bounded_entry, Hs. }
    intros ent. apply spec_pure. intros He. destruct (duplicate x ent).
    + apply spec_bind with (R := fun _ => same_kv kv); [|intros _; by apply spec_ret]. apply spec_poke. intros s [Hk Hb]. split; [done|].
      apply all_bounded_set; [by apply bounded_retry|done].
    + pose proof (bounded_accept x ent Eb He) as Ha. destruct (accept x ent) as [ent' [m at_]]. cbn [fst] in Ha.
      apply spec_bind with (R := fun _ => same_kv kv); [|intros _; by apply spec_ret]. apply spec_poke. intros s [Hk Hb]. split; [done|].
      by apply all_bounded_append, all_bounded_set.
  - apply spec_bind with (R := fun _ => same_kv kv); [by apply keeps_exists|]. intros _. apply spec_poke. intros s [Hk Hb]. split; [done|].
    apply all_bounded_set; [|done]. by apply bounded_see, all_bounded_entry.
Qed.

Lemma keeps_bounded c : keeps (run_tel c) all_bounded.
Proof.
  destruct (durable_op (tc_op c)) eqn:Hd.
  - unfold run_tel. destruct (tc_op c) as [| | |g sum health v cs at_]; try done. apply spec_ctx; [done|]. unfold withLock.
    apply spec_bind with (R := fun _ => all_bounded); [by apply spec_readonly; [apply readonly_loadJSON|..]|]. intros n.
    apply spec_bind with (R := fun _ => all_bounded); [by apply spec_write|]. intros _. apply spec_poke. intros s Hb.
    apply all_bounded_set; [|done]. apply bounded_report; [apply stamp_bounded|by apply all_bounded_entry].
  - intros fs s n Hs. pose proof (keeps_volatile (core_kv s) c Hd fs s n (conj eq_refl Hs)) as Hr. destruct (run_tel c fs s n); apply Hr.
Qed.

Lemma after_bounded {A} (m : Act (storeCore B) A) fs s : keeps m all_bounded -> all_bounded s -> all_bounded (after_tel (m fs s 0%nat)).
Proof.
  intros Hk Hs. specialize (Hk fs s 0%nat Hs). by destruct (m fs s 0%nat).
Qed.

(** C40. The telemetry of a node costs bounded memory and no durable write: after any
    sequence of heartbeats, sequenced samples, touches and reports, for any nodes and
    under any faults and restarts, an entry of the overlay holds at most 4 boot
    cursors, 8 retired boots and 64 conditions, and without reports the durable state
    of the backend is exactly what it was. *)
Theorem telemetry_bounded (calls : list tel_call) (s : storeCore B) :
  all_bounded s ->
  all_bounded (run_calls calls s) /\ (Forall (fun c => durable_op (tc_op c) = false) calls -> core_kv (run_calls calls s) = core_kv s).
Proof.
  revert s. induction calls as [|c calls IH]; intros s Hs; [done|]. cbn [run_calls foldl]. fold (run_calls calls).
  destruct (IH _ (after_bounded (run_tel c) (tc_faults c) s (keeps_bounded c) Hs)) as [Hb Hk]. split; [exact Hb|]. intros [Hd Hf]%Forall_cons.
  etrans; [exact (Hk Hf)|]. pose proof (keeps_volatile (core_kv s) c Hd (tc_faults c) s 0%nat (conj eq_refl Hs)) as Hr.
  destruct (run_tel c (tc_faults c) s 0%nat); cbn [after_tel outcome_state restart newStoreCore core_kv]; apply Hr.
Qed.
End Runs.

(** ** A sample is recorded once *)

(** The highest sequence acknowledged for each boot. *)
Definition high (ent : volatileTelemetry) (b : string) : option Z := cu_highestSequence <$> vt_sequenceCursors ent !! b.

Lemma cursors_see at_ ent : vt_sequenceCursors (see at_ ent) = vt_sequenceCursors ent.
Proof. unfold see. by destruct (_ || _). Qed.

Lemma cursors_record cs m v at_ ent : vt_sequenceCursors (record_live cs m v at_ ent) = vt_sequenceCursors ent.
Proof. unfold record_live. cbn zeta. destruct (_ || _); cbn; apply cursors_see. Qed.

Lemma cursors_live crossed at_ m x ent : vt_sequenceCursors (go_live crossed at_ m x ent) = vt_sequenceCursors ent.
Proof. unfold go_live. cbn zeta. rewrite cursors_record. cbn [vt_sequenceCursors set_active]. destruct crossed; [apply remember_rest|done]. Qed.

(** Without an eviction only the cursor of the sample moves. *)
Lemma cursors_advance x ent :
  (vt_sequenceCursors ent !! sm_bootID x = None -> (size (vt_sequenceCursors ent) < maxTelemetrySequenceCursors)%nat) ->
  exists cur, vt_sequenceCursors (advance_cursor x ent) = <[ sm_bootID x := cur ]> (vt_sequenceCursors ent) /\ cu_highestSequence cur = sm_sequence x.
Proof.
  intros Hroom. unfold advance_cursor. cbn zeta. case_bool_decide as En; cbn [andb].
  - specialize (Hroom En). destruct (Nat.leb_spec maxTelemetrySequenceCursors (size (vt_sequenceCursors ent))); [lia|]. by eexists.
  - by eexists.
Qed.

Lemma cursors_accept x ent :
  (vt_sequenceCursors ent !! sm_bootID x = None -> (size (vt_sequenceCursors ent) < maxTelemetrySequenceCursors)%nat) ->
  exists cur, vt_sequenceCursors (accept x ent).1 = <[ sm_bootID x := cur ]> (vt_sequenceCursors ent) /\ cu_highestSequence cur = sm_sequence x.
Proof.
  intros Hroom. unfold accept. cbn zeta. set (ent1 := if _ && _ then _ else ent). assert (vt_sequenceCursors ent1 = vt_sequenceCursors ent) as E1 by (unfold ent1; by destruct (_ && _)).
  destruct (cursors_advance x ent1) as (cur & Ec & Hc); [by rewrite E1|]. exists cur. split; [|done].
  destruct (is_live x ent); cbn [fst]; rewrite ?cursors_live, cursors_see, Ec, E1; done.
Qed.

Lemma high_retry x ent b : high (touch_retry x ent) b = high ent b.
Proof.
  unfold high, touch_retry. destruct (vt_sequenceCursors ent !! sm_bootID x) as [cursor|] eqn:Ec; [|done]. rewrite cursors_see. destruct (_ <? _); [|done].
  cbn [vt_sequenceCursors set_cursors]. destruct (decide (b = sm_bootID x)) as [->|Hb]; [by rewrite lookup_insert_eq, Ec|by rewrite lookup_insert_ne].
Qed.

Lemma dom_retry x ent : dom (vt_sequenceCursors (touch_retry x ent)) = dom (vt_sequenceCursors ent).
Proof.
  unfold touch_retry. destruct (vt_sequenceCursors ent !! sm_bootID x) as [cursor|] eqn:Ec; [|done]. rewrite cursors_see. destruct (_ <? _); [|done].
  cbn [vt_sequenceCursors set_cursors]. apply dom_insert_lookup_L. eauto.
Qed.

Section Once.
Context {B : Type} `{KVBackend B} (t : TenantID) (node : string).

(** The samples of a node that were recorded, not only acknowledged. *)
Fixpoint receive (xs : list (sample * Faults)) (s : storeCore B) : list sample * storeCore B :=
  match xs with
  | [] => ([], s)
  | (x, fs) :: rest =>
      match RecordTelemetrySequenced None t node x fs s 0%nat with
      | Done r s' _ => let '(acc, s'') := receive rest s' in ((if Receipt_Duplicate r then acc else x :: acc), s'')
      | o => receive rest (outcome_state o)
      end
  end.

Definition boots (ent : volatileTelemetry) (xs : list (sample * Faults)) : gset string := dom (vt_sequenceCursors ent) ∪ list_to_set ((sm_bootID ∘ fst) <$> xs).

(** A call that does not answer changes nothing: it failed before the overlay. *)
Lemma sequenced_cases x fs (s : storeCore B) n :
  match RecordTelemetrySequenced None t node x fs s n with
  | Done r s' _ =>
      let ent := telemetryEntryLocked t node s in
      (Receipt_Duplicate r = true /\ duplicate x ent = true /\ s' = set_entry t node (touch_retry x ent) s) \/
      (Receipt_Duplicate r = false /\ duplicate x ent = false /\
       s' = appendTelemetryHistoryLocked t node (accept x ent).2.1 (accept x ent).2.2 (if sm_interval x <? 0 then 0 else sm_interval x) (set_entry t node (accept x ent).1 s))
  | Failed _ s' _ | Crashed s' => s' = s
  end.
Proof.
  unfold RecordTelemetrySequenced. cbn zeta. destruct (String.eqb _ ""); [done|]. destruct (_ =? 0); [done|]. destruct (_ || _); [done|].
  unfold telemetryNodeExists, check_ctx, abind, ret, get, prim_read, peek. destruct (fs n); [|done..]. destruct (kv_get _ _ _ s); [|done].
  destruct (duplicate x (telemetryEntryLocked t node s)) eqn:Ed; [by left|]. destruct (accept x _) as [ent' [m at_]] eqn:Ea. right. done.
Qed.

Lemma entry_set ent (s : storeCore B) : telemetryEntryLocked t node (set_entry t node ent s) = ent.
Proof. unfold telemetryEntryLocked. cbn [core_telemetry set_entry]. by rewrite lookup_insert_eq. Qed.
Lemma entry_append m at_ i (s : storeCore B) : telemetryEntryLocked t node (appendTelemetryHistoryLocked t node m at_ i s) = telemetryEntryLocked t node s.
Proof. done. Qed.

Definition seqs (b : string) (xs : list sample) : list Z := sm_sequence <$> filter (fun x => sm_bootID x = b) xs.

Lemma receive_spec xs (s : storeCore B) :
  let ent := telemetryEntryLocked t node s in
  (size (boots ent xs) <= maxTelemetrySequenceCursors)%nat ->
  (forall b, StronglySorted Z.lt (seqs b (receive xs s).1) /\ (forall h, high ent b = Some h -> Forall (Z.lt h) (seqs b (receive xs s).1))) /\
  length (core_history (receive xs s).2) = (length (core_history s) + length (receive xs s).1)%nat.
Proof.
  revert s. induction xs as [|[x fs] rest IH]; intros s ent Hsz; cbn [receive].
  { split; [|cbn; lia]. intros b. split; [constructor|]. intros h _. constructor. }
  assert (boots ent rest ⊆ boots ent ((x, fs) :: rest)) as Hsub by (unfold boots; cbn [fmap list_fmap list_to_set]; set_solver).
  pose proof (sequenced_cases x fs s 0%nat) as Hc. destruct (RecordTelemetrySequenced None t node x fs s 0%nat) as [r s' n'|e s' n'|s']; cbn [outcome_state].
  2,3: subst s'; apply IH; exact (Nat.le_trans _ _ _ (subseteq_size _ _ Hsub) Hsz).
  destruct Hc as [(Hr & Hd & ->)|(Hr & Hd & ->)]; rewrite Hr.
  - set (s1 := set_entry t node (touch_retry x (telemetryEntryLocked t node s)) s) in *. assert (telemetryEntryLocked t node s1 = touch_retry x ent) as E1 by apply entry_set.
    specialize (IH s1). cbn zeta in IH. rewrite E1 in IH. destruct (receive rest s1) as [acc s2]. cbn [fst snd] in *. destruct IH as [Hb Hl].
    { unfold boots. rewrite dom_retry. exact (Nat.le_trans _ _ _ (subseteq_size _ _ Hsub) Hsz). }
    split; [|exact Hl]. intros b. destruct (Hb b) as [Hb1 Hb2]. split; [done|]. intros h Hh. apply Hb2. by rewrite high_retry.
  - fold ent in Hd |- *. destruct (cursors_accept x ent) as (cur & Ec & Hcur).
    { intros En. assert (dom (vt_sequenceCursors ent) ⊂ boots ent ((x, fs) :: rest)) as Hss.
      { split; [unfold boots; set_solver|]. intros Hin. apply not_elem_of_dom in En. apply En, Hin. unfold boots. cbn [fmap list_fmap list_to_set]. set_solver. }
      apply subset_size in Hss. rewrite size_dom in Hss. lia. }
    set (s1 := appendTelemetryHistoryLocked _ _ _ _ _ _) in *. assert (telemetryEntryLocked t node s1 = (accept x ent).1) as E1 by (unfold s1; by rewrite entry_append, entry_set).
    specialize (IH s1). cbn zeta in IH. rewrite E1 in IH. destruct (receive rest s1) as [acc s2]. cbn [fst snd] in *. destruct IH as [Hb Hl].
    { etrans; [|exact Hsz]. apply subseteq_size. unfold boots. rewrite Ec, dom_insert_L. cbn [fmap list_fmap list_to_set]. set_solver. }
    split; [|unfold s1 in Hl; cbn [core_history appendTelemetryHistoryLocked set_entry] in Hl; rewrite length_app in Hl; cbn [length] in *; lia].
    intros b. destruct (Hb b) as [Hb1 Hb2]. unfold seqs in *. rewrite filter_cons. destruct (decide (sm_bootID x = b)) as [<-|Hne].
    + cbn [fmap list_fmap]. assert (high (accept x ent).1 (sm_bootID x) = Some (sm_sequence x)) as Hh by (unfold high; rewrite Ec, lookup_insert_eq; cbn; by rewrite Hcur).
      split; [constructor; [done|by apply Hb2]|]. intros h Hold. unfold duplicate in Hd. unfold high in Hold. destruct (vt_sequenceCursors ent !! sm_bootID x) as [c0|]; [|done].
      injection Hold as <-. apply Z.leb_gt in Hd. constructor; [done|]. eapply Forall_impl; [by apply Hb2|]. intros z Hz. cbn in Hz. lia.
    + split; [done|]. intros h Hh. apply Hb2. unfold high in *. by rewrite Ec, lookup_insert_ne.
Qed.

(** A sample is recorded once.  Whatever the node sends and resends, in whatever
    order and under whatever failures, as long as it speaks from at most 4 boots: the
    recorded samples of a boot have strictly increasing sequence numbers, above those
    acknowledged before, and the history grows by exactly the recorded samples. *)
Theorem sample_recorded_once xs (s : storeCore B) :
  (size (boots (telemetryEntryLocked t node s) xs) <= maxTelemetrySequenceCursors)%nat ->
  (forall b, StronglySorted Z.lt (seqs b (receive xs s).1) /\ (forall h, high (telemetryEntryLocked t node s) b = Some h -> Forall (Z.lt h) (seqs b (receive xs s).1))) /\
  length (core_history (receive xs s).2) = (length (core_history s) + length (receive xs s).1)%nat.
Proof. apply (receive_spec xs s). Qed.
End Once.

(** ** A node that restarts and resends *)

Definition ex_registry_node (id key : string) : RegistryNode := mkRegistryNode id key "" NodeApproved 0 0 "" "" "" [] [] zero_time 0 false.
Definition ex_core : storeCore memStore := kv_put "acme" collNodes "n1" (VNode (ex_registry_node "n1" "k1")) (newStoreCore newMemStore).
Definition ex_sample (boot : string) (seq at_ : Z) : sample := mkSample [] {[ ResourceKey := "{}"%string ]} "v1" boot seq (at_ * 1000000000) 30 (at_ * 1000000000 + 1).
Definition ex_samples : list (sample * Faults) :=
  [(ex_sample "boot-a" 1 100, no_faults); (ex_sample "boot-a" 1 100, no_faults); (ex_sample "boot-a" 2 130, fun _ => Fails false "disk");
   (ex_sample "boot-a" 2 130, no_faults); (ex_sample "boot-b" 1 200, no_faults); (ex_sample "boot-a" 3 160, no_faults); (ex_sample "boot-b" 1 200, no_faults)].

Example ex_received : (fun x => (sm_bootID x, sm_sequence x)) <$> (receive "acme" "n1" ex_samples ex_core).1 = [("boot-a", 1); ("boot-a", 2); ("boot-b", 1); ("boot-a", 3)].
Proof. vm_compute. reflexivity. Qed.

Lemma sample_recorded_once_witness :
  StronglySorted Z.lt (seqs "boot-a" (receive "acme" "n1" ex_samples ex_core).1) /\ length (core_history (receive "acme" "n1" ex_samples ex_core).2) = 4%nat.
Proof.
  assert ((size (boots (telemetryEntryLocked "acme" "n1" ex_core) ex_samples) <=? maxTelemetrySequenceCursors)%nat = true) as Hsz by (vm_compute; reflexivity).
  apply Nat.leb_le in Hsz. destruct (sample_recorded_once "acme" "n1" ex_samples ex_core Hsz) as [Hb Hl]. split; [apply Hb|]. rewrite Hl. vm_compute. reflexivity.
Defined.

Definition ex_calls : list tel_call :=
  [mkCall None "acme" "n1" (OpHeartbeat [] {[ AgentCapabilitiesKey := "{}"%string ]} "v1" 5) no_faults;
   mkCall None "acme" "n1" (OpSample (ex_sample "boot-a" 1 100)) (fun _ => Crashes false); mkCall None "acme" "n2" (OpTouch 7) no_faults].

Lemma telemetry_bounded_witness : all_bounded (run_calls ex_calls ex_core) /\ core_kv (run_calls ex_calls ex_core) = core_kv ex_core.
Proof.
  destruct (telemetry_bounded ex_calls ex_core) as [Hb Hk].
  - intros key ent Hl. exfalso. revert Hl. change (core_telemetry ex_core) with (∅ : gmap (TenantID * string) volatileTelemetry). by rewrite lookup_empty.
  - split; [exact Hb|]. apply Hk. repeat constructor.
Defined.
