(* ===== verification/Enrollment.v ===== *)
(** * Enrollment and rekeying ([internal/controller/enrollment.go], [rekey.go],
    [compile_manualnode.go], [tenantlock.go], [login_challenge.go], [HandleRevoke] of
    [internal/api])

    The ceremonies that bind a WireGuard public key to a node, over the whole core.
    [lockTenantOps] makes each of them one operation of its tenant.  The random bytes
    of a token are an argument.  A topology is stored as JSON text; [TopologyJSON] is
    what the source uses of [encoding/json] for it. *)

From stdpp Require Import base gmap strings list sorting.
From Stdlib Require Import ZArith Lia Ascii.
From S2P Require Import Prelude GoLib GoSha LinkID GoText GoBase64 Model Schema StoreTypes StoreMonad StoreCore StoreLogic StoreStage AuditLog CoreState.

Local Open Scope Z_scope.
Local Open Scope store_scope.

Class TopologyJSON := {
  topology_marshal : Topology -> string;
  topology_unmarshal : string -> option Topology }.

Definition enrollTokenBytes : nat := 32.

Definition HashToken (plaintext : string) : string := sha256_hex plaintext.

Definition NewEnrollmentToken (raw : list Z) (nodeID : string) (ttl now : Z) : string * EnrollmentToken :=
  let plaintext := RawURL_EncodeToString raw in
  (plaintext, mkEnrollmentToken (HashToken plaintext) nodeID (now + ttl) None).

Definition NewNodeAPIToken (raw : list Z) : string * string :=
  let plaintext := RawURL_EncodeToString raw in (plaintext, HashToken plaintext).

Definition NewAssertionChallenge (raw : list Z) (subject : string) (ttl now : Z) : string * AssertionChallenge :=
  let challenge := RawURL_EncodeToString raw in (challenge, mkChallenge (HashToken challenge) subject (now + ttl)).

Record EnrollRequest := mkEnrollRequest { ER_Token : string; ER_NodeID : string; ER_WGPublicKey : string }.
Record EnrollResult := mkEnrollResult { Enrolled_NodeID : string; Enrolled_APIToken : string }.

(** The entry of an agent's action; the store fills sequence number and hashes. *)
Definition agent_event (now : Z) (nodeID action : string) : AuditEntry := mkAuditEntry 0 now ("agent:" +:+ nodeID)%string action nodeID "" "" "".

(** Node fields a ceremony changes. *)
Definition set_key (key : string) (n : RegistryNode) : RegistryNode :=
  match n with mkRegistryNode a _ c d e f g i j k l m o _ => mkRegistryNode a key c d e f g i j k l m o false end.
Definition set_RekeyRequested (b : bool) (n : RegistryNode) : RegistryNode :=
  match n with mkRegistryNode a k c d e f g i j c' l m o _ => mkRegistryNode a k c d e f g i j c' l m o b end.
Definition enrolled_node (nodeID key hash : string) (now : Z) : RegistryNode :=
  mkRegistryNode nodeID key hash NodeApproved 0 0 "" "" "" [] [] zero_time now false.

(** ** Manual nodes *)

Definition manual_error (node : Node) (detail : string) : store_error := CodedError "CodeManualNodeInvalid" [("node", Node_ID node); ("detail", detail)]%string.

Definition enrolled_keys (nodes : list RegistryNode) : gmap string string :=
  foldl (fun m n => let k := TrimSpace (RN_WGPublicKey n) in
                    if String.eqb (RN_Status n) NodeApproved && negb (String.eqb k "") then <[ k := RN_NodeID n ]> m else m) ∅ nodes.

(** One node of the loop; the state is the manual keys so far. *)
Definition check_manual (enrolled : gmap string string) (manual : gmap string string) (node : Node) : result store_error (gmap string string) :=
  if negb (IsManual node) then Ok manual
  else
    let key := TrimSpace (Node_WireGuardPublicKey node) in
    if String.eqb key "" then
      Err (manual_error node "no WireGuard public key — a manual node is hand-deployed, so it must carry its own pre-known public key")
    else if negb (ValidWGPublicKey (Node_WireGuardPublicKey node)) then
      Err (manual_error node "its WireGuard public key is not a valid base64/32-byte Curve25519 key")
    else match enrolled !! key with
         | Some other => Err (manual_error node ("its WireGuard public key collides with enrolled node " +:+ other))
         | None =>
             match manual !! key with
             | Some other => Err (manual_error node ("its WireGuard public key duplicates manual node " +:+ other))
             | None => Ok (<[ key := Node_ID node ]> manual)
             end
         end.

Definition validateManualNodes (topo : Topology) (nodes : list RegistryNode) : result store_error unit :=
  rbind (foldM (check_manual (enrolled_keys nodes)) ∅ (Topology_Nodes topo)) (fun _ => Ok tt).

Definition claims_manually (key selfNodeID : string) (n : Node) : bool :=
  IsManual n && negb (String.eqb (Node_ID n) selfNodeID) && String.eqb (TrimSpace (Node_WireGuardPublicKey n)) key.

Section Enrollment.
Context {B : Type} `{KVBackend B} `{AuditBackend B} `{TopologyJSON}.
#[local] Abbreviation Core := (storeCore B).

(** The conflicting node and the error, as the source returns them. *)
Definition manualKeyConflict (ctx : option string) (t : TenantID) (wgPubKey selfNodeID : string) : Act Core (string * option store_error) :=
  let key := TrimSpace wgPubKey in
  if String.eqb key "" then ret (""%string, None)
  else
    do! r <- attempt (GetTopology ctx t) in
    match r with
    | Err e => if is_not_found e then ret (""%string, None) else ret (""%string, Some (WrappedError "controller: loading topology for manual-key dedupe" e))
    | Ok rec =>
        match topology_unmarshal (TR_JSON rec) with
        | None => ret (""%string, Some (PlainError "controller: parsing topology for manual-key dedupe"))
        | Some topo =>
            match List.find (claims_manually key selfNodeID) (Topology_Nodes topo) with
            | Some n => ret (Node_ID n, Some ErrDuplicateWGKey)
            | None => ret (""%string, None)
            end
        end
    end.

Definition holds_key (key selfNodeID : string) (n : RegistryNode) : bool :=
  String.eqb (RN_Status n) NodeApproved && negb (String.eqb (RN_NodeID n) selfNodeID) && String.eqb (TrimSpace (RN_WGPublicKey n)) key.

Definition CheckWGKeyUnique (ctx : option string) (t : TenantID) (wgPubKey selfNodeID : string) : Act Core (string * option store_error) :=
  let key := TrimSpace wgPubKey in
  if String.eqb key "" then ret (""%string, None)
  else
    do! r <- attempt (ListNodes ctx t) in
    match r with
    | Err e => ret (""%string, Some (WrappedError "controller: checking for duplicate WG key" e))
    | Ok nodes =>
        match List.find (holds_key key selfNodeID) nodes with
        | Some n => ret (RN_NodeID n, Some ErrDuplicateWGKey)
        | None => manualKeyConflict ctx t key selfNodeID
        end
    end.

(** The lifecycle guard: whether an approved node is enrolled again. *)
Definition lifecycle_guard (ctx : option string) (t : TenantID) (nodeID : string) (now : Z) : Act Core bool :=
  do! r <- attempt (GetNode ctx t nodeID) in
  match r with
  | Ok existing =>
      if String.eqb (RN_Status existing) NodeRevoked then
        wrap "controller: appending revoked-enroll audit" (AppendAudit ctx t (agent_event now nodeID "enroll-rejected-revoked")) ;;! fail ErrNodeRevoked
      else ret (String.eqb (RN_Status existing) NodeApproved)
  | Err e => if is_not_found e then ret false else fail (WrappedError "controller: loading node for enroll guard" e)
  end.

(** A refused key is audited, then reported. *)
Definition refuse_key (ctx : option string) (t : TenantID) (nodeID action msg : string) (now : Z) (conflict : string) (e : store_error) : Act Core unit :=
  wrap "controller: appending duplicate-key audit" (AppendAudit ctx t (agent_event now nodeID action)) ;;!
  fail (WrappedError (msg +:+ conflict) e).

Definition Enroll (ctx : option string) (t : TenantID) (req : EnrollRequest) (raw : list Z) (now : Z) : Act Core EnrollResult :=
  if negb (ValidWGPublicKey (ER_WGPublicKey req)) then fail (WrappedError (ER_WGPublicKey req) ErrInvalidWGKey)
  else
    ConsumeEnrollmentToken ctx t (HashToken (ER_Token req)) (ER_NodeID req) now ;;!
    do! reenrollApproved <- lifecycle_guard ctx t (ER_NodeID req) now in
    do! c <- CheckWGKeyUnique ctx t (ER_WGPublicKey req) (ER_NodeID req) in
    match c.2 with
    | Some e =>
        refuse_key ctx t (ER_NodeID req) "enroll-rejected-duplicate-key" "this WireGuard public key is already enrolled as node " now c.1 e ;;!
        ret (mkEnrollResult "" "")
    | None =>
        let '(plaintext, hash) := NewNodeAPIToken raw in
        wrap "controller: registering enrolled node" (UpsertNode ctx t (enrolled_node (ER_NodeID req) (ER_WGPublicKey req) hash now)) ;;!
        wrap "controller: issuing node API token" (IssueNodeAPIToken ctx t (ER_NodeID req) hash) ;;!
        wrap "controller: appending enroll audit"
          (AppendAudit ctx t (agent_event now (ER_NodeID req) (if (reenrollApproved : bool) then "enroll-reenroll-approved" else "enroll"))) ;;!
        ret (mkEnrollResult (ER_NodeID req) plaintext)
    end.

(** [Rekey] up to its write: the record it is going to store. *)
Definition rekey_check (ctx : option string) (t : TenantID) (nodeID newPubKey : string) (now : Z) : Act Core RegistryNode :=
  if negb (ValidWGPublicKey newPubKey) then fail (WrappedError newPubKey ErrInvalidWGKey)
  else
    do! rec <- GetNodeRecord ctx t nodeID in
    do! c <- CheckWGKeyUnique ctx t newPubKey nodeID in
    match c.2 with
    | Some e => refuse_key ctx t nodeID "rekey-rejected-duplicate-key" "this WireGuard public key is already enrolled as node " now c.1 e ;;! ret rec
    | None => ret (set_key newPubKey rec)
    end.
Definition rekey_commit (ctx : option string) (t : TenantID) (nodeID : string) (now : Z) (rec : RegistryNode) : Act Core unit :=
  wrap "controller: recording rekey" (UpsertNode ctx t rec) ;;!
  wrap "controller: appending rekey audit" (AppendAudit ctx t (agent_event now nodeID "rekey")) ;;!
  ret tt.
Definition Rekey (ctx : option string) (t : TenantID) (nodeID newPubKey : string) (now : Z) : Act Core unit :=
  do! rec <- rekey_check ctx t nodeID newPubKey now in rekey_commit ctx t nodeID now rec.

(** One node of the fleet loop: whether it was flagged. *)
Definition flag_node (ctx : option string) (t : TenantID) (n : RegistryNode) : Act Core bool :=
  if negb (String.eqb (RN_Status n) NodeApproved) then ret false
  else
    do! r <- attempt (GetNodeRecord ctx t (RN_NodeID n)) in
    match r with
    | Err e => if is_not_found e then ret false else fail (WrappedError "controller: reading node to rekey" e)
    | Ok node => wrap "controller: flagging node rekey" (UpsertNode ctx t (set_RekeyRequested true node)) ;;! ret true
    end.

Fixpoint flag_nodes (ctx : option string) (t : TenantID) (nodes : list RegistryNode) (requested : Z) : Act Core Z :=
  match nodes with
  | [] => ret requested
  | n :: rest => do! flagged <- flag_node ctx t n in flag_nodes ctx t rest (if (flagged : bool) then requested + 1 else requested)
  end.

Definition FlagFleetRekey (ctx : option string) (t : TenantID) : Act Core Z :=
  do! nodes <- wrap "controller: listing nodes to rekey" (ListNodes ctx t) in flag_nodes ctx t nodes 0.

Definition ClearNodeRekey (ctx : option string) (t : TenantID) (nodeID : string) : Act Core bool :=
  do! node <- GetNodeRecord ctx t nodeID in
  if negb (RN_RekeyRequested node) then ret false
  else wrap "controller: clearing node rekey" (UpsertNode ctx t (set_RekeyRequested false node)) ;;! ret true.

(** [HandleRevoke] of [internal/api]: it does not take the tenant's lock. *)
Definition coded {A} (code : string) (m : Act Core A) : Act Core A :=
  do! r <- attempt m in match r with Ok a => ret a | Err e => fail (WrappedError (if is_not_found e then "CodeNodeNotFound" else code) e) end.

Definition revoked (n : RegistryNode) : RegistryNode :=
  match n with mkRegistryNode a k c _ e f g i j c' l m o _ => mkRegistryNode a k c NodeRevoked e f g i j c' l m o false end.

Definition HandleRevoke (ctx : option string) (t : TenantID) (actor nodeID : string) (now : Z) : Act Core unit :=
  if String.eqb nodeID "" then fail (CodedError "CodeReqFieldRequired" [("field", "node_id")]%string)
  else
    do! node <- coded "CodeInternalStorage" (GetNodeRecord ctx t nodeID) in
    wrap "CodeInternalStorage" (UpsertNode ctx t (revoked node)) ;;!
    wrap "CodeInternalStorage" (RevokeNodeAPIToken ctx t nodeID) ;;!
    wrap "CodeInternalStorage" (PurgeEnrollmentTokensForNode ctx t nodeID) ;;!
    wrap "CodeInternalStorage" (AppendAudit ctx t (mkAuditEntry 0 now ("operator:" +:+ actor)%string "revoke" nodeID "" "" "")) ;;!
    ret tt.

Definition SaveTopology (ctx : option string) (t : TenantID) (raw : string) (now : Z) : Act Core TopologyRecord := PutTopology ctx t raw now.
End Enrollment.
