(* ===== verification/EnrollProps.v ===== *)
(** * One key, one node ([internal/controller/enrollment.go])

    The identity invariant of the registry under every operation of the core, every
    failure and every crash; what an enrollment gives its node; and two ways around
    it that the code leaves open. *)

From stdpp Require Import base gmap strings list sorting.
From Stdlib Require Import ZArith Lia Ascii.
From S2P Require Import Prelude GoLib GoSha LinkID GoText GoBase64 Model Schema StoreTypes StoreMonad MemKV StoreCore StoreLogic StoreStage StoreFrame StoreProps AuditLog CoreState CoreProps Enrollment.

Local Open Scope Z_scope.
Local Open Scope store_scope.

(** The key of a node as the registry compares it. *)
Definition node_key (n : RegistryNode) : string := TrimSpace (RN_WGPublicKey n).
Definition approved (n : RegistryNode) : Prop := RN_Status n = NodeApproved.

Section Registry.
Context {S : Type} `{KVLaws S} (t : TenantID).
Implicit Types s : S.

Definition stored (k : string) (n : RegistryNode) (s : S) : Prop := kv_get t collNodes k s = Some (VNode n).

(** Every record is stored under its own id, and two approved nodes have different
    key texts. *)
Record registry_ok (s : S) : Prop := {
  ro_id : forall k n, stored k n s -> RN_NodeID n = k;
  ro_unique : forall k k' n n', stored k n s -> stored k' n' s -> approved n -> approved n' -> node_key n = node_key n' -> node_key n <> ""%string -> k = k' }.

(** No approved node but [self] has the key. *)
Definition key_free (key self : string) (s : S) : Prop :=
  TrimSpace key <> ""%string -> forall k n, stored k n s -> approved n -> k <> self -> node_key n <> TrimSpace key.

Lemma stored_put k n s k' n' : stored k' n' (kv_put t collNodes k (VNode n) s) <-> (k' = k /\ n' = n) \/ (k' <> k /\ stored k' n' s).
Proof.
  unfold stored. rewrite get_put. destruct (decide (t = t /\ collNodes = collNodes /\ k' = k)) as [(_ & _ & ->)|Hn].
  - split; [intros [= ->]; by left|]. intros [[_ ->]|[? _]]; done.
  - split; [intros ?; right; split; [|done]; intros ->; by apply Hn|]. intros [[-> _]|[_ ?]]; [by destruct Hn|done].
Qed.

Lemma registry_put k n s : registry_ok s -> RN_NodeID n = k -> (approved n -> key_free (RN_WGPublicKey n) k s) -> registry_ok (kv_put t collNodes k (VNode n) s).
Proof.
  intros [Hid Hu] Hk Hfree. split.
  - intros k' n' [[-> ->]|[_ Hn']]%stored_put; [done|by apply Hid].
  - intros k1 k2 n1 n2 [[-> ->]|[Hk1 H1]]%stored_put [[-> ->]|[Hk2 H2]]%stored_put Ha1 Ha2 Hkey Hne; [done|..].
    + exfalso. by apply (Hfree Ha1 Hne k2 n2).
    + exfalso. unfold node_key in *. rewrite Hkey in Hne. by apply (Hfree Ha2 Hne k1 n1).
    + by apply (Hu k1 k2 n1 n2).
Qed.

(** A rewrite that keeps the key and does not approve. *)
Lemma registry_rewrite k n n' s :
  stored k n s -> RN_NodeID n' = RN_NodeID n -> node_key n' = node_key n -> (approved n' -> approved n) -> registry_ok s -> registry_ok (kv_put t collNodes k (VNode n') s).
Proof.
  intros Hn Hi Hk Ha Hok. apply registry_put; [done|by rewrite Hi; apply ro_id with s|]. intros Han Hne k2 n2 H2 Ha2 Hk2 Heq. apply Hk2.
  apply (ro_unique s Hok k2 k n2 n); try done; [by apply Ha|by rewrite Heq; fold (node_key n'); rewrite Hk|by rewrite Heq].
Qed.

Lemma registry_other c k v s : c <> collNodes -> registry_ok s -> registry_ok (kv_put t c k v s).
Proof.
  intros Hc [Hid Hu]. assert (forall k' n, stored k' n (kv_put t c k v s) <-> stored k' n s) as He.
  { intros k' n. unfold stored. rewrite get_put. by destruct (decide _) as [(_ & ? & _)|]. }
  split; setoid_rewrite He; done.
Qed.
Lemma registry_del c k s : c <> collNodes -> registry_ok s -> registry_ok (kv_del t c k s).
Proof.
  intros Hc [Hid Hu]. assert (forall k' n, stored k' n (kv_del t c k s) <-> stored k' n s) as He.
  { intros k' n. unfold stored. rewrite get_del. by destruct (decide _) as [(_ & ? & _)|]. }
  split; setoid_rewrite He; done.
Qed.
Lemma registry_generation g s : registry_ok s -> registry_ok (kv_setGeneration t g s).
Proof.
  intros [Hid Hu]. assert (forall k' n, stored k' n (kv_setGeneration t g s) <-> stored k' n s) as He by (intros k' n; unfold stored; by rewrite get_setGeneration).
  split; setoid_rewrite He; done.
Qed.
Lemma registry_identity k n n' s : stored k n s -> same_identity n n' -> registry_ok s -> registry_ok (kv_put t collNodes k (VNode n') s).
Proof.
  intros Hn (Hi & Hk & Hs) Hok. apply (registry_rewrite k n); try done; [unfold node_key; by rewrite Hk|unfold approved; by rewrite Hs].
Qed.

Lemma keeps_store_op ctx op : upserts op = false -> keeps (run_op ctx t op) registry_ok.
Proof.
  intros Hu. apply (framed_op t registry_ok); [apply registry_other|apply registry_del|apply registry_generation|apply registry_identity|].
  intros n s -> _. discriminate Hu.
Qed.
End Registry.

(** An operation of the core by itself. *)
Lemma keeps_discard {S A} (m : Act S A) I : keeps (discard m) I -> keeps m I.
Proof. intros Hm fs s n Hs. specialize (Hm fs s n Hs). unfold discard, abind in Hm. by destruct (m fs s n). Qed.
Lemma keeps_wrap {S A} msg (m : Act S A) (P : S -> Prop) (Q : A -> S -> Prop) (I : S -> Prop) : spec m P Q (fun _ => I) I -> spec (wrap msg m) P Q (fun _ => I) I.
Proof.
  intros Hm. unfold wrap. apply spec_bind with (R := fun r s => match r with Ok a => Q a s | Err _ => I s end); [by apply spec_attempt|].
  intros [a|e]; [by apply spec_ret|by apply spec_fail].
Qed.

Section Ceremonies.
Context {B : Type} `{KVLaws B} `{!AuditBackend B} `{!AuditLaws B} `{TopologyJSON} (t : TenantID).
#[local] Abbreviation Core := (storeCore B).
#[local] Abbreviation ok := (registry_ok (S := Core) t).
Implicit Types s : Core.

Lemma ok_audit e s : ok s -> ok (kv_appendAudit t e s).1.
Proof.
  intros [Hid Hu]. assert (forall k n, stored t k n (kv_appendAudit t e s).1 <-> stored t k n s) as He by (intros k n; unfold stored; by rewrite (get_append (S := Core))).
  split; setoid_rewrite He; done.
Qed.

(** A property that appending to the audit log keeps. *)
Definition audit_stable (I : Core -> Prop) : Prop := forall e s, I s -> I (kv_appendAudit t e s).1.
Lemma keeps_append I ctx e : audit_stable I -> keeps (AppendAudit ctx t e) I.
Proof. intros Ha. apply spec_ctx; [done|]. apply spec_update; intros; try split; by try apply Ha. Qed.

Lemma keeps_get_node I ctx k : keeps (GetNode ctx t k : Act Core _) I.
Proof.
  apply spec_ctx; [done|]. unfold withLock. apply spec_bind with (R := fun _ => I); [by apply spec_readonly; [apply readonly_loadJSON|..]|]. intros n.
  apply spec_bind with (R := fun _ => I); [by apply spec_peek|]. intros tel. by apply spec_ret.
Qed.

Lemma overlay_identity tel n : same_identity n (applyTelemetryOverlay t tel n).
Proof. unfold applyTelemetryOverlay. destruct (tel !! _) as [ent|]; [|done]. cbn zeta. destruct (vt_telemetrySet ent); done. Qed.

Lemma decode_all_elem coll (recs : list (string * value)) out k (n : RegistryNode) : decode_all coll recs = Ok out -> (k, VNode n) ∈ recs -> n ∈ out.
Proof.
  revert out. induction recs as [|[k' v] recs IH]; intros out Hd Hin; [by apply elem_of_nil in Hin|]. cbn [decode_all snd fst] in Hd.
  destruct (of_json v) as [a|] eqn:Ea; [|done]. destruct (decode_all coll recs) as [xs|] eqn:Ed; [|done]. injection Hd as <-.
  apply elem_of_cons in Hin as [[= -> <-]|Hin]; [injection Ea as <-; by left|right; by apply IH].
Qed.

(** The listing has every registered node, with its identity. *)
Lemma spec_list_nodes ctx s0 :
  spec (ListNodes ctx t) (eq s0) (fun nodes s => s = s0 /\ forall k n, stored t k n s0 -> exists n', n' ∈ nodes /\ same_identity n n') (fun _ => eq s0) (eq s0).
Proof.
  apply spec_ctx; [by intros; subst|]. unfold withLock. apply spec_bind with (R := fun recs s => s = s0 /\ recs = kv_list t collNodes s0).
  { apply spec_read; by intros; subst. }
  intros recs. apply spec_bind with (R := fun tel s => s = s0 /\ recs = kv_list t collNodes s0); [by apply spec_peek|]. intros tel. apply spec_pure. intros ->.
  destruct (decode_all collNodes (kv_list t collNodes s0)) as [out|e] eqn:Ed; [|apply spec_fail; by intros; subst]. apply spec_ret. intros s ->. split; [done|].
  intros k n Hn. exists (applyTelemetryOverlay t tel n). split; [|apply overlay_identity]. apply list_elem_of_fmap. exists n. split; [done|].
  eapply decode_all_elem; [exact Ed|]. apply elem_of_kv_list. exact Hn.
Qed.

Lemma find_none {A} (p : A -> bool) xs x : List.find p xs = None -> x ∈ xs -> p x = false.
Proof. intros Hf Hin. apply (List.find_none _ _ Hf). by apply list_elem_of_In. Qed.

Lemma holds_key_false key self n n' :
  holds_key key self n' = false -> same_identity n n' -> approved n -> RN_NodeID n <> self -> node_key n <> key.
Proof.
  unfold holds_key, approved, node_key. intros Hh (E1 & E2 & E3) Ha Hid Hk. rewrite E1, E2, E3, Ha, Hk, !String.eqb_refl, andb_true_r in Hh.
  apply negb_false_iff, String.eqb_eq in Hh. done.
Qed.

Lemma readonly_GetTopology {S} `{KVBackend S} ctx : readonly (GetTopology ctx t : Act S _).
Proof. unfold GetTopology. readonly. Qed.

Lemma spec_manual ctx key self s0 : spec (manualKeyConflict ctx t key self : Act Core _) (eq s0) (fun _ => eq s0) (fun _ => eq s0) (eq s0).
Proof.
  unfold manualKeyConflict. cbn zeta. destruct (String.eqb _ ""); [by apply spec_ret|]. apply spec_bind with (R := fun _ => eq s0).
  - apply spec_attempt. apply spec_readonly; [apply readonly_GetTopology|by intros; subst..].
  - intros [rec|e]; [|destruct (is_not_found e); by apply spec_ret]. destruct (topology_unmarshal _); [|by apply spec_ret].
    destruct (List.find _ _); by apply spec_ret.
Qed.

(** The check is read-only, and passing it means that the key is free. *)
Lemma spec_check ctx key self s0 :
  ok s0 -> spec (CheckWGKeyUnique ctx t key self : Act Core _) (eq s0) (fun c s => s = s0 /\ (c.2 = None -> key_free t key self s0)) (fun _ => eq s0) (eq s0).
Proof.
  intros Hok. unfold CheckWGKeyUnique. cbn zeta. destruct (String.eqb_spec (TrimSpace key) "") as [He|Hne].
  { apply spec_ret. intros s ->. split; [done|]. intros _ Hk. done. }
  apply spec_bind with (R := fun r s => s = s0 /\ match r with Ok nodes => forall k n, stored t k n s0 -> exists n', n' ∈ nodes /\ same_identity n n' | Err _ => True end).
  { apply spec_attempt. eapply spec_weaken; [apply (spec_list_nodes ctx s0)|..]; by try intros; subst. }
  intros [nodes|e]; [|apply spec_ret; intros s [-> _]; by split]. apply spec_pure. intros Hall.
  destruct (List.find _ nodes) as [n|] eqn:Ef; [apply spec_ret; intros s ->; by split|].
  eapply spec_weaken; [apply (spec_manual ctx _ self s0)|by intros; subst|..]; [|by intros; subst..]. intros c s <-. split; [done|]. intros _ _ k n Hn Ha Hk.
  destruct (Hall k n Hn) as (n' & Hin & Hid). apply (holds_key_false _ self n n'); [by apply (find_none _ _ _ Ef)|done..|]. by rewrite (ro_id t s0 Hok k n Hn).
Qed.

(** After the check, the write that uses it. *)
Lemma check_then ctx key self {A} (m : string * option store_error -> Act Core A) :
  (forall c, spec (m c) (fun s => ok s /\ (c.2 = None -> key_free t key self s)) (fun _ => ok) (fun _ => ok) ok) ->
  keeps (do! c <- CheckWGKeyUnique ctx t key self in m c) ok.
Proof.
  intros Hm fs s n Hs. refine (spec_bind _ _ (eq s) _ _ _ _ _ _ fs s n eq_refl).
  - eapply spec_weaken with (Q := fun c s' => ok s' /\ (c.2 = None -> key_free t key self s')) (E := fun _ => ok) (C := ok); [by apply spec_check|done|..];
      [intros c s' [-> Hc]; by split|by intros e s' <-|by intros s' <-].
  - exact Hm.
Qed.

Lemma keeps_upsert_free ctx n : spec (UpsertNode ctx t n : Act Core unit) (fun s => ok s /\ key_free t (RN_WGPublicKey n) (RN_NodeID n) s) (fun _ => ok) (fun _ => ok) ok.
Proof.
  apply spec_ctx; [by intros ? ? _ [? _]|]. assert (forall s, ok s /\ key_free t (RN_WGPublicKey n) (RN_NodeID n) s -> ok s /\ ok (kv_put t collNodes (RN_NodeID n) (VNode n) s)) as Hw.
  { intros s [Hs Hf]. split; [done|]. by apply registry_put. }
  apply spec_write; intros; by apply Hw.
Qed.

Lemma keeps_store {A} (m : Act Core A) ctx op : run_op ctx t op = discard m -> upserts op = false -> keeps m ok.
Proof. intros E Hu. apply keeps_discard. rewrite <- E. by apply keeps_store_op. Qed.

Lemma keeps_guard I ctx k now : audit_stable I -> keeps (lifecycle_guard ctx t k now : Act Core bool) I.
Proof.
  intros Ha. unfold lifecycle_guard. apply spec_bind with (R := fun _ => I); [apply spec_attempt, keeps_get_node|]. intros [n|e].
  - destruct (String.eqb _ NodeRevoked); [|by apply spec_ret]. apply spec_bind with (R := fun _ => I); [by apply keeps_wrap, keeps_append|]. intros _. by apply spec_fail.
  - destruct (is_not_found e); [by apply spec_ret|by apply spec_fail].
Qed.

Lemma keeps_refuse ctx k a m now c e : keeps (refuse_key ctx t k a m now c e : Act Core unit) ok.
Proof. apply spec_bind with (R := fun _ => ok); [by apply keeps_wrap, keeps_append; intros ? ?; apply ok_audit|]. intros _. by apply spec_fail. Qed.

Lemma keeps_Enroll ctx req raw now : keeps (Enroll ctx t req raw now : Act Core _) ok.
Proof.
  unfold Enroll. destruct (negb _); [by apply spec_fail|].
  apply spec_bind with (R := fun _ => ok); [by apply (keeps_store _ ctx (OConsumeEnrollmentToken (HashToken (ER_Token req)) (ER_NodeID req) now))|]. intros _.
  apply spec_bind with (R := fun _ => ok); [apply keeps_guard; intros ? ?; apply ok_audit|]. intros re. apply check_then. intros [c [e|]]; cbn [snd].
  - apply spec_bind with (R := fun _ => ok); [|intros _; by apply spec_ret]. eapply spec_weaken; [apply keeps_refuse|..]; try done. by intros s [? _].
  - destruct (NewNodeAPIToken raw) as [plaintext hash]. apply spec_bind with (R := fun _ => ok).
    { apply keeps_wrap. eapply spec_weaken; [apply keeps_upsert_free|..]; try done. intros s [? Hf]. split; [done|]. by apply Hf. }
    intros _. apply spec_bind with (R := fun _ => ok); [by apply keeps_wrap, (keeps_store _ ctx (OIssueNodeAPIToken (ER_NodeID req) hash))|]. intros _.
    apply spec_bind with (R := fun _ => ok); [by apply keeps_wrap, keeps_append; intros ? ?; apply ok_audit|]. intros _. by apply spec_ret.
Qed.

(** A record that was just read. *)
Lemma spec_get_record ctx k (P : Core -> Prop) : (forall s, P s -> ok s) ->
  spec (GetNodeRecord ctx t k) P (fun n s => P s /\ stored t k n s) (fun _ => ok) ok.
Proof.
  intros HP. apply spec_ctx; [by auto|]. unfold withLock. apply spec_readonly; [apply readonly_loadJSON| |by auto|by auto].
  intros s n Hs. rewrite answer_loadJSON. unfold decode. destruct (kv_get t collNodes k s) as [v|] eqn:Ev; [|done].
  destruct (of_json v) as [n'|] eqn:En; [|done]. intros [= ->]. apply of_json_node in En as ->. done.
Qed.

Lemma keeps_rewrite ctx k n n' : RN_NodeID n' = RN_NodeID n -> node_key n' = node_key n -> (approved n' -> approved n) ->
  spec (UpsertNode ctx t n' : Act Core unit) (fun s => ok s /\ stored t k n s) (fun _ => ok) (fun _ => ok) ok.
Proof.
  intros Hi Hk Ha. apply spec_ctx; [by intros ? ? _ [? _]|]. assert (forall s, ok s /\ stored t k n s -> ok s /\ ok (kv_put t collNodes (RN_NodeID n') (VNode n') s)) as Hw.
  { intros s [Hs Hn]. split; [done|]. pose proof (ro_id t s Hs k n Hn) as Hid. rewrite Hi, Hid. by apply (registry_rewrite t k n). }
  apply spec_write; intros; by apply Hw.
Qed.

Lemma keeps_Rekey ctx k key now : keeps (Rekey ctx t k key now : Act Core unit) ok.
Proof.
  unfold Rekey, rekey_check. destruct (negb _); [by apply spec_fail|].
  intros fs s0 n0 Hs0. refine (spec_bind _ _ (eq s0) (fun n s => ok s /\ RN_NodeID n = k /\ key_free t (RN_WGPublicKey n) (RN_NodeID n) s) _ _ _ _ _ fs s0 n0 eq_refl).
  - apply spec_bind with (R := fun n s => s = s0 /\ stored t k n s).
    { eapply spec_weaken; [apply (spec_get_record ctx k (eq s0)); by intros; subst|..]; try done. by intros n s [-> ?]. }
    intros rec. apply spec_bind with (R := fun c s => s = s0 /\ stored t k rec s0 /\ (c.2 = None -> key_free t key k s0)).
    { intros fs' s' n' [-> Hst]. pose proof (spec_check ctx key k s0 Hs0 fs' s0 n' eq_refl) as Hc. destruct (CheckWGKeyUnique _ _ _ _ fs' s0 n') as [c s1 m1|e s1 m1|s1].
      - by destruct Hc as [-> Hc].
      - by subst.
      - by subst. }
    intros [c [e|]]; cbn [snd].
    + apply spec_bind with (R := fun _ _ => False); [|intros; by apply spec_ret]. eapply spec_weaken; [|intros s [-> _]; exact Hs0|..].
      * apply spec_bind with (R := fun _ => ok); [by apply keeps_wrap, keeps_append; intros ? ?; apply ok_audit|]. intros _. by apply (spec_fail _ ok (fun _ _ => False) (fun _ => ok) ok).
      * by intros.
      * done.
      * done.
    + apply spec_ret. intros s (-> & Hst & Hf). pose proof (ro_id t s0 Hs0 k rec Hst) as Hid. destruct rec; cbn in *. subst. split; [done|]. split; [done|]. by apply Hf.
  - intros rec. unfold rekey_commit. apply spec_bind with (R := fun _ => ok).
    { apply keeps_wrap. eapply spec_weaken; [apply keeps_upsert_free|..]; try done. intros s (? & ? & ?). done. }
    intros _. apply spec_bind with (R := fun _ => ok); [by apply keeps_wrap, keeps_append; intros ? ?; apply ok_audit|]. intros _. by apply spec_ret.
Qed.

Lemma keeps_flag ctx b k : spec (do! r <- attempt (GetNodeRecord ctx t k) in
    match r with
    | Err e => if is_not_found e then ret false else fail (WrappedError "controller: reading node to rekey" e)
    | Ok node => wrap "controller: flagging node rekey" (UpsertNode ctx t (set_RekeyRequested b node)) ;;! ret true
    end : Act Core bool) ok (fun _ => ok) (fun _ => ok) ok.
Proof.
  apply spec_bind with (R := fun r s => match r with Ok n => ok s /\ stored t k n s | Err _ => ok s end).
  { apply spec_attempt. by apply spec_get_record. }
  intros [n|e]; [|destruct (is_not_found e); [by apply spec_ret|by apply spec_fail]]. apply spec_bind with (R := fun _ => ok); [|intros _; by apply spec_ret].
  apply keeps_wrap, (keeps_rewrite ctx k n); by destruct n.
Qed.

Lemma keeps_FlagFleetRekey ctx : keeps (FlagFleetRekey ctx t : Act Core Z) ok.
Proof.
  apply spec_bind with (R := fun _ => ok).
  { apply keeps_wrap. intros fs s n Hs. pose proof (spec_list_nodes ctx s fs s n eq_refl) as Hl. destruct (ListNodes ctx t fs s n); [by destruct Hl as [-> _]|by subst..]. }
  intros nodes. generalize 0. induction nodes as [|n nodes IH]; intros z; cbn [flag_nodes]; [by apply spec_ret|].
  apply spec_bind with (R := fun _ => ok); [|intros b; apply IH]. unfold flag_node. destruct (negb _); [by apply spec_ret|]. apply keeps_flag.
Qed.

Lemma keeps_ClearNodeRekey ctx k : keeps (ClearNodeRekey ctx t k : Act Core bool) ok.
Proof.
  apply spec_bind with (R := fun n s => ok s /\ stored t k n s); [by apply spec_get_record|]. intros n. destruct (negb _); [by apply spec_ret; intros s [? _]|].
  apply spec_bind with (R := fun _ => ok); [|intros _; by apply spec_ret]. apply keeps_wrap, (keeps_rewrite ctx k n); by destruct n.
Qed.

Lemma keeps_HandleRevoke ctx actor k now : keeps (HandleRevoke ctx t actor k now : Act Core unit) ok.
Proof.
  unfold HandleRevoke. destruct (String.eqb k ""); [by apply spec_fail|]. apply spec_bind with (R := fun n s => ok s /\ stored t k n s).
  { unfold coded. apply spec_bind with (R := fun r s => match r with Ok n => ok s /\ stored t k n s | Err _ => ok s end); [by apply spec_attempt, spec_get_record|].
    intros [n|e]; [by apply spec_ret|by apply spec_fail]. }
  intros n. apply spec_bind with (R := fun _ => ok); [apply keeps_wrap, (keeps_rewrite ctx k n); by destruct n|]. intros _.
  apply spec_bind with (R := fun _ => ok); [by apply keeps_wrap, (keeps_store _ ctx (ORevokeNodeAPIToken k))|]. intros _.
  apply spec_bind with (R := fun _ => ok); [by apply keeps_wrap, (keeps_store _ ctx (OPurgeEnrollmentTokensForNode k))|]. intros _.
  apply spec_bind with (R := fun _ => ok); [by apply keeps_wrap, keeps_append; intros ? ?; apply ok_audit|]. intros _. by apply spec_ret.
Qed.

Lemma ok_kv (s s' : Core) : core_kv s' = core_kv s -> registry_ok t s -> registry_ok t s'.
Proof.
  intros E [Hid Hu]. assert (forall k n, stored t k n s' <-> stored t k n s) as He by (intros k n; unfold stored; cbn [kv_get storeCore_backend]; by rewrite E).
  split; setoid_rewrite He; done.
Qed.
End Ceremonies.

(** ** Every operation of the fleet *)

(** [FStore] is any operation of the core but a bare [UpsertNode], which the source
    calls only from the operations above it. *)
Inductive fleet_op :=
| FEnroll (req : EnrollRequest) (raw : list Z) (now : Z)
| FRekey (id key : string) (now : Z)
| FFlag
| FClear (id : string)
| FRevoke (actor id : string) (now : Z)
| FSave (raw : string) (now : Z)
| FTelemetry (id : string) (op : tel_op)
| FStore (op : store_op).

Section Fleet.
Context {B : Type} `{KVLaws B} `{!AuditBackend B} `{!AuditLaws B} `{TopologyJSON} (t : TenantID).
#[local] Abbreviation Core := (storeCore B).

Definition run_fleet (ctx : option string) (op : fleet_op) : Act Core unit :=
  match op with
  | FEnroll req raw now => discard (Enroll ctx t req raw now)
  | FRekey id key now => Rekey ctx t id key now
  | FFlag => discard (FlagFleetRekey ctx t)
  | FClear id => discard (ClearNodeRekey ctx t id)
  | FRevoke actor id now => HandleRevoke ctx t actor id now
  | FSave raw now => discard (SaveTopology ctx t raw now)
  | FTelemetry id op => run_tel (mkCall ctx t id op no_faults)
  | FStore op => if upserts op then ret tt else run_op ctx t op
  end.

Definition run_fleet_ops (run : list (option string * fleet_op * Faults)) (s : Core) : Core :=
  foldl (fun s (r : option string * fleet_op * Faults) => after_tel (run_fleet r.1.1 r.1.2 r.2 s 0%nat)) s run.

Lemma keeps_telemetry c : tc_tenant c = t -> keeps (run_tel c) (registry_ok (S := Core) t).
Proof.
  intros <-. destruct (durable_op (tc_op c)) eqn:Hd.
  - unfold run_tel. destruct (tc_op c) as [| | |g sum health v cs at_]; try done. apply spec_ctx; [done|]. unfold withLock.
    apply spec_bind with (R := fun n s => registry_ok (tc_tenant c) s /\ stored (tc_tenant c) (tc_node c) n s).
    { apply (spec_get_record (tc_tenant c) None (tc_node c) (registry_ok (tc_tenant c))). done. }
    intros n. apply spec_bind with (R := fun _ => registry_ok (tc_tenant c)); [|intros _; apply spec_poke; intros s Hs; by apply (ok_kv _ s)].
    assert (forall s : Core, registry_ok (tc_tenant c) s /\ stored (tc_tenant c) (tc_node c) n s ->
      registry_ok (tc_tenant c) s /\ registry_ok (tc_tenant c) (kv_put (tc_tenant c) collNodes (tc_node c) (VNode (reported g sum health v (stampConditions cs at_) n)) s)) as Hw.
    { intros s [Hs Hn]. split; [done|]. by apply (registry_identity (tc_tenant c) (tc_node c) n). }
    apply spec_write; intros; by apply Hw.
  - intros fs s n Hs. unfold run_tel. revert Hd.
    destruct (tc_op c) as [cs m v at_|x|at_|]; [..|done]; intros _.
    + refine (spec_bind _ _ (registry_ok (tc_tenant c)) (fun _ => registry_ok (tc_tenant c)) _ _ _ _ _ fs s n Hs); [by apply keeps_exists|]. intros _. apply spec_poke.
      intros s1 Hs1. by apply (ok_kv _ s1).
    + refine (spec_bind _ _ (registry_ok (tc_tenant c)) (fun _ => registry_ok (tc_tenant c)) _ _ _ _ _ fs s n Hs); [|intros _; by apply spec_ret].
      intros fs' s' n' Hs'. pose proof (sequenced_cases (tc_tenant c) (tc_node c) x fs' s' n') as Hc. revert Hc. destruct (tc_ctx c) as [r|].
      * intros _. unfold RecordTelemetrySequenced. cbn zeta. destruct (String.eqb _ ""); [done|]. destruct (_ =? 0); [done|]. destruct (_ || _); done.
      * destruct (RecordTelemetrySequenced None _ _ x fs' s' n') as [r s1 n1|e s1 n1|s1]; [|by intros ->..]. cbn zeta.
        intros [(_ & _ & ->)|(_ & _ & ->)]; by apply (ok_kv _ s').
    + refine (spec_bind _ _ (registry_ok (tc_tenant c)) (fun _ => registry_ok (tc_tenant c)) _ _ _ _ _ fs s n Hs); [by apply keeps_exists|]. intros _. apply spec_poke.
      intros s1 Hs1. by apply (ok_kv _ s1).
Qed.

Lemma keeps_bare {S A} (m : Act S A) I : keeps m I -> keeps (discard m) I.
Proof. intros Hm. unfold discard. apply spec_bind with (R := fun _ => I); [done|]. intros _. by apply spec_ret. Qed.

Lemma keeps_fleet ctx op : keeps (run_fleet ctx op) (registry_ok (S := Core) t).
Proof.
  destruct op as [req raw now|id key now| |id|actor id now|raw now|id op|op]; cbn [run_fleet].
  - apply keeps_bare, keeps_Enroll.
  - apply keeps_Rekey.
  - apply keeps_bare, keeps_FlagFleetRekey.
  - apply keeps_bare, keeps_ClearNodeRekey.
  - apply keeps_HandleRevoke.
  - by apply keeps_bare, (keeps_store t _ ctx (OPutTopology raw now)).
  - by apply keeps_telemetry.
  - destruct (upserts op) eqn:Eu; [by apply spec_ret|by apply keeps_store_op].
Qed.

Lemma run_fleet_ok (run : list (option string * fleet_op * Faults)) (s : Core) : registry_ok t s -> registry_ok t (run_fleet_ops run s).
Proof.
  revert s. induction run as [|[[ctx op] fs] run IH]; intros s Hs; [done|]. cbn [run_fleet_ops foldl]. apply IH. cbn [fst snd].
  pose proof (keeps_fleet ctx op fs s 0%nat Hs) as Hk. destruct (run_fleet ctx op fs s 0%nat); cbn [after_tel outcome_state]; try exact Hk. by apply (ok_kv _ s0).
Qed.

(** The text that encoding the bytes of a key gives. *)
Definition canonical_text (key : string) : Prop := exists bs, Forall is_byte bs /\ key = Std_EncodeToString bs.

Lemma canonical_text_inj key key' bs :
  canonical_text key -> canonical_text key' -> Std_DecodeString key = Some bs -> Std_DecodeString key' = Some bs -> key = key'.
Proof. intros (b & Hb & ->) (b' & Hb' & ->). rewrite !Std_round_trip by done. by intros [= ->] [= ->]. Qed.

(** C32. One approved WireGuard key text belongs to one node.  From a registry in which
    it does, after any sequence of enrollments, rekeys, rekey flags, revocations, saved
    topologies, telemetry, token, keystone, staging and promotion operations, each
    under any backend errors and crashes, every record is under its own id and no two
    approved nodes have the same key text up to surrounding space, which is how the
    registry compares keys.  So no two approved nodes hold the same key in its canonical
    encoding; in two encodings they can ([key_has_two_texts]). *)
Theorem one_key_one_node (run : list (option string * fleet_op * Faults)) (s : Core) :
  registry_ok t s ->
  registry_ok t (run_fleet_ops run s) /\
  forall k k' n n' bs, stored t k n (run_fleet_ops run s) -> stored t k' n' (run_fleet_ops run s) -> approved n -> approved n' ->
    canonical_text (node_key n) -> canonical_text (node_key n') -> Std_DecodeString (node_key n) = Some bs -> Std_DecodeString (node_key n') = Some bs -> node_key n <> ""%string -> k = k'.
Proof.
  intros Hs. pose proof (run_fleet_ok run s Hs) as Hok. split; [exact Hok|]. intros k k' n n' bs Hst Hst' A1 A2 C1 C2 D1 D2 Hne.
  apply (ro_unique _ _ Hok k k' n n'); try done. by eapply canonical_text_inj.
Qed.
End Fleet.

(** ** What an enrollment gives its node *)

Section Token.
Context {B : Type} `{KVLaws B} `{!AuditBackend B} `{!AuditLaws B} `{TopologyJSON} (t : TenantID).
#[local] Abbreviation Core := (storeCore B).
Implicit Types s : Core.

(** The registry and the token index, as functions of their keys. *)
Definition has_registry (nodes index : string -> option value) s : Prop :=
  (forall k, kv_get t collNodes k s = nodes k) /\ (forall h, kv_get t collAPITokens h s = index h).
Definition set_fun (k : string) (v : value) (f : string -> option value) : string -> option value := fun k' => if String.eqb k' k then Some v else f k'.

Lemma registry_audit_stable nodes index : audit_stable (B := B) t (has_registry nodes index).
Proof. intros e s [Hn Hi]. split; intros; by rewrite (get_append (S := Core)). Qed.

Lemma set_node nodes index k v s : has_registry nodes index s -> has_registry (set_fun k v nodes) index (kv_put t collNodes k v s).
Proof.
  intros [Hn Hi]. split; intros k'; rewrite get_put; unfold set_fun.
  - rewrite <- Hn. destruct (String.eqb_spec k' k) as [->|]; [by destruct (decide _) as [_|[]]|by destruct (decide _) as [(_ & _ & ?)|]].
  - by destruct (decide _) as [(_ & ? & _)|].
Qed.
Lemma set_index nodes index h v s : has_registry nodes index s -> has_registry nodes (set_fun h v index) (kv_put t collAPITokens h v s).
Proof.
  intros [Hn Hi]. split; intros k'; rewrite get_put; unfold set_fun.
  - by destruct (decide _) as [(_ & ? & _)|].
  - rewrite <- Hi. destruct (String.eqb_spec k' h) as [->|]; [by destruct (decide _) as [_|[]]|by destruct (decide _) as [(_ & _ & ?)|]].
Qed.

Lemma spec_issue ctx id nodes index n hash :
  nodes id = Some (VNode n) -> RN_APITokenHash n = hash ->
  spec (IssueNodeAPIToken ctx t id hash : Act Core unit) (has_registry nodes index)
    (fun _ => has_registry (set_fun id (VNode (set_APITokenHash hash n)) nodes) (set_fun hash (VTokenIndex (mkTokenIndex id)) index)) (fun _ _ => True) (fun _ => True).
Proof.
  intros Hid Hh. apply spec_ctx; [done|]. unfold withLock. apply spec_bind with (R := fun n' s => has_registry nodes index s /\ n' = n).
  { apply spec_readonly; [apply readonly_loadJSON| |by intros..]. intros s a Hs. rewrite answer_loadJSON, (proj1 Hs id), Hid. by intros [= ->]. }
  intros n'. apply spec_pure. intros ->. rewrite Hh, String.eqb_refl, andb_false_r. apply spec_bind with (R := fun _ => has_registry nodes index); [by apply spec_ret|].
  intros _. apply spec_bind with (R := fun _ => has_registry (set_fun id (VNode (set_APITokenHash hash n)) nodes) index); [by apply spec_write; try done; intros; apply set_node|].
  intros _. by apply spec_write; try done; intros; apply set_index.
Qed.

Definition final_nodes (req : EnrollRequest) (raw : list Z) (now : Z) (s : Core) : string -> option value :=
  let en := enrolled_node (ER_NodeID req) (ER_WGPublicKey req) (NewNodeAPIToken raw).2 now in
  set_fun (ER_NodeID req) (VNode en) (set_fun (ER_NodeID req) (VNode en) (fun k => kv_get t collNodes k s)).
Definition final_index (req : EnrollRequest) (raw : list Z) (s : Core) : string -> option value :=
  set_fun (NewNodeAPIToken raw).2 (VTokenIndex (mkTokenIndex (ER_NodeID req))) (fun h => kv_get t collAPITokens h s).

Lemma spec_wrap_done {S A} msg (m : Act S A) P (Q : A -> S -> Prop) : spec m P Q (fun _ _ => True) (fun _ => True) -> spec (wrap msg m) P Q (fun _ _ => True) (fun _ => True).
Proof. apply keeps_wrap. Qed.

Lemma spec_Enroll ctx req raw now s0 :
  registry_ok t s0 ->
  spec (Enroll ctx t req raw now : Act Core _) (eq s0)
    (fun r s => r = mkEnrollResult (ER_NodeID req) (NewNodeAPIToken raw).1 /\ has_registry (final_nodes req raw now s0) (final_index req raw s0) s) (fun _ _ => True) (fun _ => True).
Proof.
  intros Hok. set (nodes := fun k => kv_get t collNodes k s0). set (index := fun h => kv_get t collAPITokens h s0).
  set (I := fun s : Core => registry_ok t s /\ has_registry nodes index s).
  assert (audit_stable t I) as Ha by (intros e s [H1' H2']; split; [by apply ok_audit|by apply registry_audit_stable]).
  unfold Enroll. destruct (negb _); [by apply spec_fail|]. apply spec_bind with (R := fun _ => I).
  { intros fs s n <-. pose proof (keeps_store t (ConsumeEnrollmentToken ctx t (HashToken (ER_Token req)) (ER_NodeID req) now) ctx
      (OConsumeEnrollmentToken (HashToken (ER_Token req)) (ER_NodeID req) now) eq_refl eq_refl fs s0 n Hok) as Hk.
    pose proof (spec_consume ctx t (HashToken (ER_Token req)) (ER_NodeID req) now s0 fs s0 n eq_refl) as Hc. cbn zeta in Hc.
    destruct (ConsumeEnrollmentToken _ _ _ _ _ fs s0 n) as [u s1 n1|e s1 n1|s1]; [|done..]. split; [exact Hk|]. destruct Hc as (tok & _ & _ & ->).
    split; intros k; rewrite get_put; by destruct (decide _) as [(_ & ? & _)|]. }
  intros _. apply spec_bind with (R := fun _ => I); [eapply spec_weaken; [by apply (keeps_guard t I)|done..]|]. intros re.
  apply spec_bind with (R := fun _ => I).
  { intros fs s n Hs. pose proof (spec_check t ctx (ER_WGPublicKey req) (ER_NodeID req) s (proj1 Hs) fs s n eq_refl) as Hc.
    destruct (CheckWGKeyUnique _ _ _ _ fs s n) as [c s1 n1|e s1 n1|s1]; [by destruct Hc as [-> _]|done..]. }
  intros [c [e|]]; cbn [snd].
  { apply spec_bind with (R := fun _ _ => False); [|intros _; by apply spec_ret]. apply spec_bind with (R := fun _ _ => True); [|intros _; by apply spec_fail].
    apply spec_wrap_done. intros fs s n _. by destruct (AppendAudit _ _ _ fs s n). }
  unfold final_nodes, final_index. destruct (NewNodeAPIToken raw) as [plaintext hash]. cbn [fst snd].
  set (en := enrolled_node (ER_NodeID req) (ER_WGPublicKey req) hash now). apply spec_bind with (R := fun _ => has_registry (set_fun (ER_NodeID req) (VNode en) nodes) index).
  { apply spec_wrap_done, spec_ctx; [done|]. apply spec_write; try done. intros s [_ Hs]. by apply set_node. }
  intros _. apply spec_bind with (R := fun _ => has_registry (set_fun (ER_NodeID req) (VNode en) (set_fun (ER_NodeID req) (VNode en) nodes)) (set_fun hash (VTokenIndex (mkTokenIndex (ER_NodeID req))) index)).
  { apply spec_wrap_done. apply (spec_issue ctx (ER_NodeID req) _ _ en hash); [|done]. unfold set_fun. by rewrite String.eqb_refl. }
  intros _. apply spec_bind with (R := fun _ => has_registry (set_fun (ER_NodeID req) (VNode en) (set_fun (ER_NodeID req) (VNode en) nodes)) (set_fun hash (VTokenIndex (mkTokenIndex (ER_NodeID req))) index)).
  { apply spec_wrap_done. eapply spec_weaken; [apply (keeps_append t); apply registry_audit_stable|..]; done. }
  intros _. apply spec_ret. intros s Hs. done.
Qed.

(** The node a presented token stands for. *)
Definition resolves (h : string) (s : Core) (n : RegistryNode) : Prop := answer (LookupNodeByAPIToken None t h) s = Ok n.

Lemma resolves_iff h s n :
  resolves h s n <-> exists id, kv_get t collAPITokens h s = Some (VTokenIndex (mkTokenIndex id)) /\ kv_get t collNodes id s = Some (VNode n) /\ RN_APITokenHash n = h /\ approved n.
Proof.
  unfold resolves, LookupNodeByAPIToken, withLock. change (check_ctx None ;;! ?m) with m.
  rewrite answer_bind; [|auto with readonly|readonly]. rewrite answer_load_or.
  destruct (kv_get t collAPITokens h s) as [v|]; cbn [decode_optional rbind]; [|by split; [|intros (? & ? & _)]].
  destruct (of_json v) as [[id]|] eqn:Ev; cbn [rbind].
  2:{ split; [done|]. intros (? & [= ->] & _). discriminate Ev. }
  assert (v = VTokenIndex (mkTokenIndex id)) as -> by (destruct v; try discriminate Ev; cbn in Ev; congruence). cbn [TI_NodeID].
  rewrite answer_bind; [|auto with readonly|readonly]. rewrite answer_load_or. destruct (kv_get t collNodes id s) as [w|] eqn:Ew; cbn [decode_optional rbind].
  2:{ split; [done|]. intros (id' & [= <-] & ? & _). congruence. }
  destruct (of_json w) as [n'|] eqn:En; cbn [rbind].
  2:{ split; [done|]. intros (id' & [= <-] & E & _). rewrite Ew in E. injection E as ->. discriminate En. }
  apply of_json_node in En as ->. unfold approved. destruct (String.eqb_spec (RN_APITokenHash n') h) as [Hh|Hh]; destruct (String.eqb_spec (RN_Status n') NodeApproved) as [Ha|Ha];
    cbn [negb orb]; (split; [|intros (id' & [= <-] & E & ? & ?); rewrite Ew in E; injection E as ->]); try done.
  intros [= <-]. by exists id.
Qed.

(** C33. An enrollment that succeeds, whatever failed on the way, gives its node the
    returned token and no other: the token resolves to the new record with the
    presented key; every token that resolved to this node before is void, and every
    token of another node still resolves to what it did. *)
Theorem enroll_authenticates ctx req raw now fs s r s' n' :
  registry_ok t s -> Enroll ctx t req raw now fs s 0%nat = Done r s' n' ->
  let hash := HashToken (Enrolled_APIToken r) in
  Enrolled_NodeID r = ER_NodeID req /\
  (forall n, resolves hash s' n <-> n = enrolled_node (ER_NodeID req) (ER_WGPublicKey req) hash now) /\
  (forall h n, h <> hash -> resolves h s' n <-> resolves h s n /\ RN_NodeID n <> ER_NodeID req).
Proof.
  intros Hok Hrun. pose proof (spec_Enroll ctx req raw now s Hok fs s 0%nat eq_refl) as Hs. rewrite Hrun in Hs. destruct Hs as [-> [Hn Hi]]. cbn [Enrolled_NodeID Enrolled_APIToken].
  assert (HashToken (NewNodeAPIToken raw).1 = (NewNodeAPIToken raw).2) as Hh by done. rewrite Hh. set (hash := (NewNodeAPIToken raw).2) in *.
  set (en := enrolled_node (ER_NodeID req) (ER_WGPublicKey req) hash now). unfold final_nodes, final_index, set_fun in Hn, Hi. fold hash en in Hn, Hi. split; [done|]. split.
  - intros n. rewrite resolves_iff. setoid_rewrite Hi. setoid_rewrite Hn. rewrite String.eqb_refl. split.
    + intros (id & [= <-] & E & _). rewrite String.eqb_refl in E. by injection E as <-.
    + intros ->. exists (ER_NodeID req). by rewrite String.eqb_refl.
  - intros h n Hne. rewrite !resolves_iff. setoid_rewrite Hi. setoid_rewrite Hn. destruct (String.eqb_spec h hash) as [|_]; [done|]. split.
    + intros (id & E1 & E2 & E3 & E4). destruct (String.eqb_spec id (ER_NodeID req)) as [->|Hid]; [injection E2 as <-; by destruct Hne|]. split; [by exists id|].
      by rewrite (ro_id t s Hok id n E2).
    + intros [(id & E1 & E2 & E3 & E4) Hid]. exists id. rewrite (ro_id t s Hok id n E2) in Hid. by destruct (String.eqb_spec id (ER_NodeID req)).
Qed.
End Token.

(** ** Examples *)

#[local] Instance ex_topology_json : TopologyJSON := {| topology_marshal _ := ""%string; topology_unmarshal _ := None |}.
Definition key_a : string := "AAAAAAAAAAAAAAAAAAAAAAAAAAAAAAAAAAAAAAAAAAA=".
Definition key_b : string := "AAAAAAAAAAAAAAAAAAAAAAAAAAAAAAAAAAAAAAAAAAB=".
Definition key_c : string := "EfzbIf3tSjDfZagcqXt8je/qQtQBnDts32Tj+F4IPXA=".
Definition ex_token_for (token id : string) : store_op := OCreateEnrollmentToken (mkEnrollmentToken (HashToken token) id 1000 None).
Definition ex_store : storeCore memStore := newStoreCore newMemStore.

Lemma ex_store_ok : registry_ok "acme" ex_store.
Proof.
  assert (forall k n, stored "acme" k n ex_store -> False) as Hn by (intros k n; by change (stored "acme" k n ex_store) with (None = Some (VNode n))).
  split; [intros k n Hk|intros k k' n n' Hk]; by apply Hn in Hk.
Qed.

Definition ex_fleet : list (option string * fleet_op * Faults) :=
  [(None, FStore (ex_token_for "t1" "n1"), no_faults); (None, FStore (ex_token_for "t2" "n2"), no_faults);
   (None, FEnroll (mkEnrollRequest "t1" "n1" key_c) [1; 2; 3] 10, no_faults); (None, FEnroll (mkEnrollRequest "t2" "n2" key_c) [4; 5; 6] 20, no_faults);
   (None, FRekey "n1" key_a 30, fun n => if Nat.eqb n 2 then Crashes true else NoFault)].

Lemma one_key_one_node_witness : registry_ok "acme" (run_fleet_ops "acme" ex_fleet ex_store).
Proof. exact (proj1 (one_key_one_node "acme" ex_fleet ex_store ex_store_ok)). Defined.

Definition ex_tokened : storeCore memStore := run_fleet_ops "acme" (take 2 ex_fleet) ex_store.
Lemma ex_tokened_ok : registry_ok "acme" ex_tokened.
Proof. apply run_fleet_ok. exact ex_store_ok. Qed.
Definition ex_enroll : outcome (storeCore memStore) EnrollResult := Enroll None "acme" (mkEnrollRequest "t1" "n1" key_c) [1; 2; 3] 10 no_faults ex_tokened 0%nat.

Lemma enroll_authenticates_witness :
  match ex_enroll with
  | Done r s' _ => Enrolled_NodeID r = "n1"%string /\ forall n, resolves "acme" (HashToken (Enrolled_APIToken r)) s' n <-> n = enrolled_node "n1" key_c (HashToken (Enrolled_APIToken r)) 10
  | _ => False
  end.
Proof.
  assert (match ex_enroll with Done _ _ _ => true | _ => false end = true) as Hd by (vm_compute; reflexivity).
  assert (registry_ok "acme" ex_tokened) as Hok by exact ex_tokened_ok.
  unfold ex_enroll in *. destruct (Enroll _ _ _ _ _ _ _ _) as [r s' n'|e s' n'|s'] eqn:E; [|discriminate Hd|discriminate Hd].
  destruct (enroll_authenticates "acme" None (mkEnrollRequest "t1" "n1" key_c) [1; 2; 3] 10 no_faults ex_tokened r s' n' Hok E) as (H1 & H2 & _). split; [exact H1|exact H2].
Defined.

(** ** Ways around *)

Definition racing_rekey (key : string) : Act (storeCore memStore) RegistryNode :=
  do! rec <- rekey_check None "acme" "n1" key 40 in
  HandleRevoke None "acme" "root" "n1" 50 ;;!
  do! mid <- GetNodeRecord None "acme" "n1" in
  rekey_commit None "acme" "n1" 60 rec ;;!
  ret mid.
Definition ex_one : storeCore memStore := run_fleet_ops "acme" (take 3 ex_fleet) ex_store.

(** A revocation can be lost.  [HandleRevoke] does not take the tenant's lock, so
    it can run between the read and the write of a rekey: it succeeds, and the rekey
    then stores the record it had read, with the node approved again. *)
Theorem revocation_lost :
  exists mid s' n', racing_rekey key_a no_faults ex_one 0%nat = Done mid s' n' /\ RN_Status mid = NodeRevoked /\
    exists n, stored "acme" "n1" n s' /\ approved n /\ RN_WGPublicKey n = key_a.
Proof.
  assert (match racing_rekey key_a no_faults ex_one 0%nat with
          | Done mid s' _ => String.eqb (RN_Status mid) NodeRevoked &&
              match kv_get "acme" collNodes "n1" s' with Some (VNode n) => String.eqb (RN_Status n) NodeApproved && String.eqb (RN_WGPublicKey n) key_a | _ => false end
          | _ => false end = true) as Hd by (vm_compute; reflexivity).
  destruct (racing_rekey key_a no_faults ex_one 0%nat) as [mid s' n'|e s' n'|s'] eqn:E; [|discriminate Hd|discriminate Hd]. exists mid, s', n'. split; [reflexivity|].
  apply andb_true_iff in Hd as [H1 H2]. apply String.eqb_eq in H1. split; [exact H1|]. destruct (kv_get "acme" collNodes "n1" s') as [[n| | | | | | | | | | | | | |]|] eqn:En; try discriminate H2.
  apply andb_true_iff in H2 as [H2 H3]. apply String.eqb_eq in H2, H3. exists n. split; [exact En|]. split; [exact H2|exact H3].
Qed.

(** Two texts of one key.  The check of a WireGuard key looks at its characters and
    leaves the two unused bits of the last one free, so two texts that decode to the
    same 32 bytes are both accepted, and two nodes enroll with them. *)
Theorem key_has_two_texts :
  ValidWGPublicKey key_a = true /\ ValidWGPublicKey key_b = true /\ key_a <> key_b /\ Std_DecodeString key_a = Std_DecodeString key_b /\
  length <$> Std_DecodeString key_a = Some 32%nat /\
  let s1 := run_fleet_ops "acme" [(None, FEnroll (mkEnrollRequest "t1" "n1" key_a) [1] 10, no_faults); (None, FEnroll (mkEnrollRequest "t2" "n2" key_b) [2] 20, no_faults)] ex_tokened in
  match kv_get "acme" collNodes "n1" s1, kv_get "acme" collNodes "n2" s1 with
  | Some (VNode n), Some (VNode n') => RN_Status n = NodeApproved /\ RN_Status n' = NodeApproved /\ RN_WGPublicKey n = key_a /\ RN_WGPublicKey n' = key_b
  | _, _ => False
  end.
Proof. split; [reflexivity|]. split; [reflexivity|]. split; [discriminate|]. split; [vm_compute; reflexivity|]. split; [vm_compute; reflexivity|]. vm_compute. repeat split. Qed.

(** A storage failure during the duplicate check is audited and reported as a duplicate. *)
Example failed_listing_audited_as_duplicate :
  match Enroll None "acme" (mkEnrollRequest "t1" "n1" key_a) [1] 10 (fun n => if Nat.eqb n 3 then Fails false "disk" else NoFault) ex_tokened 0%nat with
  | Failed _ s' _ => AE_Action <$> kv_listAudit "acme" s' = ["enroll-rejected-duplicate-key"%string]
  | _ => False
  end.
Proof. vm_compute. reflexivity. Qed.
