(* ===== verification/Keystone.v ===== *)
(** * Keystone transitions ([internal/controller/keystone_transition.go])

    Replacing the pinned operator credential and its audit record, as one logical
    transition over a durable marker.  The event id and the time of a transition are
    arguments; the tenant's lock makes each operation one step. *)

From stdpp Require Import base gmap strings list sorting.
From Stdlib Require Import ZArith Lia Ascii.
From S2P Require Import Prelude GoLib LinkID GoText StoreTypes StoreMonad StoreCore StoreLogic StoreStage AuditLog CoreState.

Local Open Scope Z_scope.
Local Open Scope store_scope.

Definition keystone_action (expected : option OperatorCredential) : string :=
  match expected with Some _ => "rotate-operator-credential" | None => "pin-operator-credential" end.

Fixpoint str_skip (n : nat) (s : string) : string := match n, s with O, _ => s | _, EmptyString => "" | S n', String _ s' => str_skip n' s' end.
(** [strings.HasPrefix(actor, "operator:")] with something after it. *)
Definition operator_actor (actor : string) : bool :=
  has_prefix "operator:" actor && negb (String.eqb (TrimSpace (str_skip 9 actor)) "").

Definition required (detail : string) : store_error := WrappedError detail ErrKeystoneAuditRequired.

Definition validateKeystoneTransitionAudit (expected : option OperatorCredential) (audit : option AuditEntry) : result store_error unit :=
  match audit with
  | None => Err ErrKeystoneAuditRequired
  | Some a =>
      if negb (String.eqb (AE_Action a) (keystone_action expected)) then Err (required "keystone transition action")
      else if negb (operator_actor (AE_Actor a)) then Err (required "keystone transition actor must identify an operator")
      else if negb (AE_Timestamp a =? zero_time) || negb (AE_Seq a =? 0) || negb (String.eqb (AE_EventID a) "") || negb (String.eqb (AE_PrevHash a) "") ||
              negb (String.eqb (AE_Hash a) "") || negb (String.eqb (AE_NodeID a) "")
      then Err (required "caller supplied reserved keystone audit identity fields")
      else Ok tt
  end.

Definition invalid_marker {A} (what : string) : result store_error A := Err (PlainError ("controller: invalid pending keystone transition " +:+ what)).

Definition validatePendingKeystoneTransition (p : PendingKeystoneTransition) : result store_error unit :=
  let a := PKT_Audit p in
  if negb (Nat.eqb (String.length (AE_EventID a)) 32) then invalid_marker "audit identity"
  else if negb (hex_decodes (AE_EventID a)) || (AE_Timestamp a =? zero_time) then invalid_marker "audit identity"
  else if negb (AE_Seq a =? 0) || negb (String.eqb (AE_PrevHash a) "") || negb (String.eqb (AE_Hash a) "") then invalid_marker "contains chained audit fields"
  else if bool_decide (PKT_Expected p = Some (PKT_Next p)) then invalid_marker "is a no-op"
  else if negb (String.eqb (AE_Action a) (keystone_action (PKT_Expected p))) || negb (String.eqb (AE_NodeID a) "") || negb (operator_actor (AE_Actor a))
  then invalid_marker "audit content"
  else Ok tt.

Definition samePendingKeystoneAudit (stored want : AuditEntry) : bool :=
  (AE_Timestamp stored =? AE_Timestamp want) && String.eqb (AE_Actor stored) (AE_Actor want) && String.eqb (AE_Action stored) (AE_Action want) &&
  String.eqb (AE_NodeID stored) (AE_NodeID want) && String.eqb (AE_EventID stored) (AE_EventID want).

(** The loop over the log. *)
Fixpoint find_event (found : bool) (want : AuditEntry) (entries : list AuditEntry) : result store_error bool :=
  match entries with
  | [] => Ok found
  | e :: rest =>
      if negb (String.eqb (AE_EventID e) (AE_EventID want)) then find_event found want rest
      else if found then Err (PlainError ("controller: duplicate keystone audit event id " +:+ AE_EventID want))
      else if negb (samePendingKeystoneAudit e want) then Err (PlainError ("controller: keystone audit event id " +:+ AE_EventID want +:+ " has conflicting content"))
      else find_event true want rest
  end.

(** The entry of a transition before the log numbers and chains it. *)
Definition transition_entry (a : AuditEntry) (eventID : string) (now : Z) : AuditEntry :=
  mkAuditEntry 0 now (AE_Actor a) (AE_Action a) (AE_NodeID a) eventID "" "".

Section Keystone.
Context {S : Type} `{KVBackend S} `{AuditBackend S}.

Definition currentKeystoneCredential (ctx : option string) (t : TenantID) : Act S (option OperatorCredential) :=
  do! r <- attempt (GetOperatorCredential ctx t) in
  match r with
  | Ok current => ret (Some current)
  | Err e => if is_not_found e then ret None else fail e
  end.

Definition credentialStateMatches (current expected : option OperatorCredential) : bool := bool_decide (current = expected).

Definition findPendingKeystoneAudit (ctx : option string) (t : TenantID) (want : AuditEntry) : Act S bool :=
  do! entries <- wrap "controller: listing audit for pending keystone transition" (ListAudit ctx t) in
  match find_event false want entries with Ok found => ret found | Err e => fail e end.

(** The append, then the search that shows whether it took effect. *)
Definition append_observed (ctx : option string) (t : TenantID) (want : AuditEntry) : Act S unit :=
  do! appended <- attempt (AppendAudit ctx t want) in
  do! after_ <- attempt (findPendingKeystoneAudit ctx t want) in
  match after_, appended with
  | Err listErr, Err appendErr => fail (JoinedError (WrappedError "controller: appending pending keystone audit" appendErr) listErr)
  | Err listErr, Ok _ => fail listErr
  | Ok true, _ => ret tt
  | Ok false, Err appendErr => fail (WrappedError "controller: appending pending keystone audit" appendErr)
  | Ok false, Ok _ => fail (PlainError "controller: pending keystone audit append was not observable")
  end.

Definition ensurePendingKeystoneAuditLocked (ctx : option string) (t : TenantID) (pending : PendingKeystoneTransition) : Act S unit :=
  do! found <- findPendingKeystoneAudit ctx t (PKT_Audit pending) in
  (if (found : bool) then ret tt else append_observed ctx t (PKT_Audit pending)) ;;!
  wrap "controller: clearing committed keystone transition" (DeletePendingKeystoneTransition ctx t (AE_EventID (PKT_Audit pending))).

Definition reconcilePendingKeystoneTransitionLocked (ctx : option string) (t : TenantID) : Act S unit :=
  do! r <- attempt (GetPendingKeystoneTransition ctx t) in
  match r with
  | Err e => if is_not_found e then ret tt else fail (WrappedError "controller: loading pending keystone transition" e)
  | Ok pending =>
      match validatePendingKeystoneTransition pending with
      | Err e => fail e
      | Ok _ =>
          do! current <- wrap "controller: loading credential for pending keystone transition" (currentKeystoneCredential ctx t) in
          if bool_decide (current = Some (PKT_Next pending)) then ensurePendingKeystoneAuditLocked ctx t pending
          else if credentialStateMatches current (PKT_Expected pending) then
            wrap "controller: clearing uncommitted keystone transition" (DeletePendingKeystoneTransition ctx t (AE_EventID (PKT_Audit pending)))
          else fail (ErrPendingKeystoneTransitionConflict "" "current credential matches neither expected nor next")
      end
  end.

Definition reconcileKeystoneTrustBoundaryLocked (ctx : option string) (t : TenantID) : Act S unit :=
  wrap "controller: reconciling keystone transition before trust operation" (reconcilePendingKeystoneTransitionLocked ctx t).

(** [eventID] is [None] when the system's random source fails. *)
Definition begin_transition (ctx : option string) (t : TenantID) (expected : option OperatorCredential) (next : OperatorCredential) (audit : AuditEntry)
    (eventID : option string) (now : Z) : Act S unit :=
  do! current <- currentKeystoneCredential ctx t in
  if negb (credentialStateMatches current expected) then fail ErrOperatorCredentialChanged
  else
    match eventID with
    | None => fail (PlainError "controller: generating keystone audit event id")
    | Some id =>
        wrap "controller: writing pending keystone transition" (CreatePendingKeystoneTransition ctx t (mkPending expected next (transition_entry audit id now))) ;;!
        CompareAndSetOperatorCredential ctx t expected next
    end.

Definition CompareAndSetKeystoneCredential (ctx : option string) (t : TenantID) (expected : option OperatorCredential) (next : OperatorCredential)
    (audit : option AuditEntry) (eventID : option string) (now : Z) : Act S unit :=
  reconcilePendingKeystoneTransitionLocked ctx t ;;!
  if bool_decide (expected = Some next) then
    match audit with
    | Some _ => fail (required "an exact compare-only keystone check must not create an audit event")
    | None => CompareAndSetOperatorCredential ctx t expected next
    end
  else
    match validateKeystoneTransitionAudit expected audit, audit with
    | Ok _, Some a => begin_transition ctx t expected next a eventID now ;;! reconcilePendingKeystoneTransitionLocked ctx t
    | Err e, _ => fail e
    | Ok _, None => fail ErrKeystoneAuditRequired
    end.

Definition GetKeystoneCredential (ctx : option string) (t : TenantID) : Act S OperatorCredential :=
  reconcilePendingKeystoneTransitionLocked ctx t ;;! GetOperatorCredential ctx t.
End Keystone.
