(* ===== verification/KeystoneProps.v ===== *)
(** * Every change of the keystone is audited exactly once

    The write-ahead protocol of [Keystone] under any failures, crashes and other
    activity of the store. *)

From stdpp Require Import base gmap strings list sorting.
From Stdlib Require Import ZArith Lia Ascii.
From S2P Require Import Prelude GoLib LinkID GoText StoreTypes StoreMonad MemKV StoreCore StoreLogic StoreStage AuditLog CoreState CoreProps Keystone.

Local Open Scope Z_scope.
Local Open Scope store_scope.

Definition audit_event : Type := Z * string * string * string * string.
Definition event_id (v : audit_event) : string := v.2.
Lemma event_id_event e : event_id (event e) = AE_EventID e.
Proof. done. Qed.

(** ** The search in the log *)

Definition with_id (id : string) (entries : list AuditEntry) : list AuditEntry := filter (fun e => AE_EventID e = id) entries.

Lemma find_event_none b want entries : with_id (AE_EventID want) entries = [] -> find_event b want entries = Ok b.
Proof.
  induction entries as [|e entries IH]; [done|]. unfold with_id. rewrite filter_cons. cbn [find_event]. destruct (String.eqb_spec (AE_EventID e) (AE_EventID want)) as [Heq|Hne]; cbn [negb].
  - by rewrite decide_True.
  - rewrite decide_False by done. exact IH.
Qed.

Lemma find_event_one want entries e : with_id (AE_EventID want) entries = [e] -> event e = event want -> find_event false want entries = Ok true.
Proof.
  induction entries as [|e' entries IH]; [done|]. unfold with_id. rewrite filter_cons. cbn [find_event]. destruct (String.eqb_spec (AE_EventID e') (AE_EventID want)) as [Heq|Hne]; cbn [negb].
  - rewrite decide_True by done. intros [= -> Hr] Hev. assert (samePendingKeystoneAudit e want = true) as ->.
    { unfold samePendingKeystoneAudit. injection Hev as -> -> -> -> ->. by rewrite Z.eqb_refl, !String.eqb_refl. }
    by apply find_event_none.
  - rewrite decide_False by done. exact IH.
Qed.

(** The events of the log with an id. *)
Definition events (entries : list AuditEntry) : list audit_event := event <$> filter (fun e => AE_EventID e <> ""%string) entries.
Definition ids (K : list audit_event) : list string := event_id <$> K.

#[export] Instance events_perm : Proper ((≡ₚ) ==> (≡ₚ)) events.
Proof. intros l l' Hl. unfold events. by rewrite Hl. Qed.

Lemma events_app l l' : events (l ++ l') = events l ++ events l'.
Proof. unfold events. by rewrite filter_app, fmap_app. Qed.

Lemma with_id_events id entries : id <> ""%string -> event <$> with_id id entries = filter (fun v => event_id v = id) (events entries).
Proof.
  intros Hid. unfold with_id, events. induction entries as [|e entries IH]; [done|]. rewrite !filter_cons. destruct (decide (AE_EventID e = id)) as [He|He].
  - rewrite (decide_True (P := AE_EventID e <> ""%string)) by congruence. cbn [fmap list_fmap]. rewrite filter_cons, decide_True by done. by rewrite IH.
  - destruct (decide (AE_EventID e <> ""%string)); [|done]. cbn [fmap list_fmap]. by rewrite filter_cons, decide_False.
Qed.

Lemma filter_fresh id (K : list audit_event) : id ∉ ids K -> filter (fun v => event_id v = id) K = [].
Proof.
  intros Hf. induction K as [|v K IH]; [done|]. unfold ids in Hf. cbn [fmap list_fmap] in Hf. apply not_elem_of_cons in Hf as [Hv Hf]. rewrite filter_cons, decide_False by done. by apply IH.
Qed.

(** The search finds what the log holds. *)
Lemma find_absent want entries K : AE_EventID want <> ""%string -> events entries ≡ₚ K -> AE_EventID want ∉ ids K -> find_event false want entries = Ok false.
Proof.
  intros Hid Hp Hf. apply find_event_none. apply (fmap_nil_inv event). rewrite with_id_events by done. apply Permutation_nil_r. rewrite Hp. by rewrite filter_fresh.
Qed.
Lemma find_present want entries K :
  AE_EventID want <> ""%string -> events entries ≡ₚ event want :: K -> AE_EventID want ∉ ids K -> find_event false want entries = Ok true.
Proof.
  intros Hid Hp Hf. assert (event <$> with_id (AE_EventID want) entries ≡ₚ [event want]) as Hw.
  { rewrite with_id_events by done. rewrite Hp, filter_cons, decide_True by done. by rewrite filter_fresh. }
  apply Permutation_singleton_r in Hw. destruct (with_id (AE_EventID want) entries) as [|e [|e' l]] eqn:E; try done. apply (find_event_one want entries e); [done|]. exact (f_equal (List.hd (event e)) Hw).
Qed.

Section Transition.
Context {S : Type} `{KVLaws S} `{!AuditBackend S} `{!AuditLaws S} (t : TenantID).
Implicit Types (s : S) (K : list audit_event) (p : PendingKeystoneTransition).

Definition marker s : option value := kv_get t collKeystoneTransition "" s.
Definition has_cred (c : option OperatorCredential) s : Prop := kv_get t collOperatorCred "" s = VCredential <$> c.
Definition log_events s : list audit_event := events (kv_listAudit t s).
Definition short (n : nat) s : Prop := (length (kv_listAudit t s) + n <= auditRotateAt)%nat.

(** A marker that this protocol wrote. *)
Record proper K p : Prop := {
  pr_valid : validatePendingKeystoneTransition p = Ok tt;
  pr_fresh : AE_EventID (PKT_Audit p) ∉ ids K }.

Lemma proper_id K p : proper K p -> AE_EventID (PKT_Audit p) <> ""%string.
Proof. intros [Hv _] He. unfold validatePendingKeystoneTransition in Hv. cbn zeta in Hv. rewrite He in Hv. discriminate Hv. Qed.
Lemma proper_change K p : proper K p -> PKT_Expected p <> Some (PKT_Next p).
Proof.
  intros [Hv _] He. unfold validatePendingKeystoneTransition in Hv. cbn zeta in Hv. rewrite (bool_decide_eq_true_2 _ He) in Hv.
  repeat match type of Hv with (if ?b then _ else _) = _ => destruct b; try discriminate Hv end.
Qed.

(** No transition is open; one was begun and did not commit; one committed and may not
    be in the log yet. *)
Definition settled K (c : option OperatorCredential) s : Prop := marker s = None /\ has_cred c s /\ log_events s ≡ₚ K.
Definition begun K p s : Prop := marker s = Some (VPending p) /\ has_cred (PKT_Expected p) s /\ log_events s ≡ₚ K.
Definition unlogged K p s : Prop := marker s = Some (VPending p) /\ has_cred (Some (PKT_Next p)) s /\ log_events s ≡ₚ K.
Definition logged K p s : Prop := marker s = Some (VPending p) /\ has_cred (Some (PKT_Next p)) s /\ log_events s ≡ₚ event (PKT_Audit p) :: K.

(** The credential is [c] and the changes that led to it are the events [K], with at
    most one transition open. *)
Inductive keystone K (c : option OperatorCredential) s : Prop :=
| ks_settled : settled K c s -> keystone K c s
| ks_begun p : proper K p -> c = PKT_Expected p -> begun K p s -> keystone K c s
| ks_committed p K' : proper K' p -> c = Some (PKT_Next p) -> K ≡ₚ event (PKT_Audit p) :: K' -> unlogged K' p s \/ logged K' p s -> keystone K c s.

Lemma keystone_has_cred K c s : keystone K c s -> has_cred c s.
Proof. intros [(_ & ? & _)|p _ -> (_ & ? & _)|p K' _ -> _ [(_ & ? & _)|(_ & ? & _)]]; done. Qed.

(** What the writes of the protocol leave. *)
Lemma marker_del s : marker (kv_del t collKeystoneTransition "" s) = None.
Proof. unfold marker. rewrite get_del. by destruct (decide _) as [_|[]]. Qed.
Lemma marker_put v s : marker (kv_put t collKeystoneTransition "" v s) = Some v.
Proof. unfold marker. rewrite get_put. by destruct (decide _) as [_|[]]. Qed.
Lemma cred_del c s : has_cred c s -> has_cred c (kv_del t collKeystoneTransition "" s).
Proof. unfold has_cred. rewrite get_del. by destruct (decide _) as [(_ & ? & _)|]. Qed.
Lemma cred_put c v s : has_cred c s -> has_cred c (kv_put t collKeystoneTransition "" v s).
Proof. unfold has_cred. rewrite get_put. by destruct (decide _) as [(_ & ? & _)|]. Qed.
Lemma log_del s : log_events (kv_del t collKeystoneTransition "" s) = log_events s.
Proof. unfold log_events. by rewrite list_del. Qed.
Lemma log_put c k v s : log_events (kv_put t c k v s) = log_events s.
Proof. unfold log_events. by rewrite list_put. Qed.
Lemma short_put n c k v s : short n (kv_put t c k v s) <-> short n s.
Proof. unfold short. by rewrite list_put. Qed.
Lemma short_del n c k s : short n (kv_del t c k s) <-> short n s.
Proof. unfold short. by rewrite list_del. Qed.

Lemma log_append e s : short 1 s -> AE_EventID e <> ""%string -> log_events (kv_appendAudit t e s).1 ≡ₚ event e :: log_events s.
Proof.
  intros Hs He. destruct (list_append s t e) as (dropped & Hp & Hd). rewrite Hd in Hp by (unfold short in Hs; lia). cbn [app] in Hp. unfold log_events. rewrite Hp.
  change (?x :: ?l) with ([x] ++ l). rewrite events_app. unfold events at 1. rewrite filter_cons, filter_nil.
  assert (AE_EventID (kv_appendAudit t e s).2 = AE_EventID e) as Hid by (pose proof (event_append s t e) as Hev; by injection Hev).
  rewrite decide_True by congruence. cbn [fmap list_fmap]. by rewrite event_append.
Qed.
Lemma short_append n e s : short (n + 1) s -> short n (kv_appendAudit t e s).1.
Proof.
  unfold short. intros Hs. destruct (list_append s t e) as (dropped & Hp & _). apply Permutation_length in Hp. rewrite length_app in Hp. cbn [length] in Hp. lia.
Qed.
Lemma marker_append e s : marker (kv_appendAudit t e s).1 = marker s.
Proof. apply get_append. Qed.
Lemma cred_append c e s : has_cred c s -> has_cred c (kv_appendAudit t e s).1.
Proof. unfold has_cred. by rewrite get_append. Qed.

(** Errors that are not the environment's. *)
Definition excused (ctx : option string) (e : store_error) : Prop := ctx = None -> backend_error e.

Lemma spec_find ctx want (P : S -> Prop) (Q : bool -> S -> Prop) E (C : S -> Prop) :
  (forall s, P s -> exists b, find_event false want (kv_listAudit t s) = Ok b /\ Q b s) -> (forall e s, P s -> excused ctx e -> E e s) -> (forall s, P s -> C s) ->
  spec (findPendingKeystoneAudit ctx t want) P Q E C.
Proof.
  intros Hf HE HC. unfold findPendingKeystoneAudit.
  apply spec_bind with (R := fun entries s => P s /\ entries = kv_listAudit t s).
  - unfold wrap. apply spec_bind with (R := fun r s => P s /\ match r with Ok l => l = kv_listAudit t s | Err e => excused ctx e end).
    + apply spec_attempt. apply spec_ctx; [by intros r s -> Hs; split|]. apply spec_read; [done|by intros msg s Hs; split|done].
    + intros [l|e]; [by apply spec_ret|]. apply spec_fail. intros s [Hs He]. apply HE; [done|]. intros Hc. by apply He.
  - intros entries fs s n [Hs ->]. destruct (Hf s Hs) as (b & -> & HQ). exact HQ.
Qed.

Lemma spec_delete ctx p (P : S -> Prop) (E : store_error -> S -> Prop) (C Q : S -> Prop) msg :
  AE_EventID (PKT_Audit p) <> ""%string -> (forall s, P s -> marker s = Some (VPending p)) ->
  (forall s, P s -> Q (kv_del t collKeystoneTransition "" s)) ->
  (forall e s, P s -> excused ctx e -> E e s /\ E e (kv_del t collKeystoneTransition "" s)) -> (forall s, P s -> C s /\ C (kv_del t collKeystoneTransition "" s)) ->
  spec (wrap msg (DeletePendingKeystoneTransition ctx t (AE_EventID (PKT_Audit p)))) P (fun _ => Q) E C.
Proof.
  intros Hid Hm HQ HE HC. unfold wrap, DeletePendingKeystoneTransition.
  apply spec_bind with (R := fun r s => match r with Ok _ => Q s | Err e => forall msg, E (WrappedError msg e) s end); [|intros [[]|e]; [by apply spec_ret|by apply spec_fail; auto]].
  apply spec_attempt. apply spec_ctx; [intros r s -> Hs msg'; by apply HE|]. destruct (String.eqb_spec (AE_EventID (PKT_Audit p)) "") as [|_]; [done|]. unfold withLock.
  apply spec_bind with (R := fun o s => P s /\ o = Some p).
  - apply spec_readonly; [apply readonly_load_optional|..].
    + intros s o Hs. rewrite answer_load_optional. fold (marker s). rewrite (Hm s Hs). by intros [= <-].
    + intros s e Hs [Ha|He] msg'; [|apply HE; [done|exact (fun _ => He)]]. rewrite answer_load_optional in Ha. fold (marker s) in Ha. by rewrite (Hm s Hs) in Ha.
    + intros s Hs. by apply HC.
  - intros o. apply spec_pure. intros ->. rewrite String.eqb_refl. cbn [negb]. apply spec_write; [by auto|..].
    + intros m s Hs. split; intros msg'; (apply HE; [done|exact (fun _ => I)]).
    + by auto.
Qed.

Lemma spec_ensure ctx K' p n :
  proper K' p ->
  spec (ensurePendingKeystoneAuditLocked ctx t p) (fun s => (unlogged K' p s \/ logged K' p s) /\ short (n + 1) s)
    (fun _ s => settled (event (PKT_Audit p) :: K') (Some (PKT_Next p)) s /\ short n s)
    (fun e s => (keystone (event (PKT_Audit p) :: K') (Some (PKT_Next p)) s /\ short n s) /\ excused ctx e)
    (fun s => keystone (event (PKT_Audit p) :: K') (Some (PKT_Next p)) s /\ short n s).
Proof.
  intros Hp. pose proof (proper_id K' p Hp) as Hid. set (c := Some (PKT_Next p)). set (K := event (PKT_Audit p) :: K').
  assert (forall s m, (unlogged K' p s \/ logged K' p s) /\ short m s -> (n <= m)%nat -> keystone K c s /\ short n s) as Hks.
  { intros s m [Hs Hsh] Hnm. split; [|unfold short in *; lia]. by apply (ks_committed _ _ _ p K'). }
  assert (forall s, logged K' p s -> settled K c (kv_del t collKeystoneTransition "" s)) as Hsettle.
  { intros s (Hm & Hc & Hl). split; [apply marker_del|]. split; [by apply cred_del|]. by rewrite log_del. }
  unfold ensurePendingKeystoneAuditLocked.
  apply spec_bind with (R := fun b s => (if b : bool then logged K' p s else unlogged K' p s) /\ short (n + 1) s).
  { apply spec_find.
    - intros s [[Hu|Hl] Hsh]; [exists false|exists true]; (split; [|done]).
      + destruct Hu as (_ & _ & Hu). eapply find_absent; [done|exact Hu|apply Hp].
      + destruct Hl as (_ & _ & Hl). eapply find_present; [done|exact Hl|apply Hp].
    - intros e s Hs He. split; [|done]. apply (Hks s (n + 1)%nat); [done|lia].
    - intros s Hs. apply (Hks s (n + 1)%nat); [done|lia]. }
  intros b. apply spec_bind with (R := fun _ s => logged K' p s /\ short n s).
  - destruct b; [apply spec_ret; intros s [? Hsh]; split; [done|unfold short in *; lia]|]. unfold append_observed.
    apply spec_bind with (R := fun r s => (match r with Ok _ => logged K' p s | Err e => excused ctx e /\ (unlogged K' p s \/ logged K' p s) end) /\ short n s).
    { apply spec_attempt. assert (forall s, unlogged K' p s /\ short (n + 1) s -> logged K' p (kv_appendAudit t (PKT_Audit p) s).1 /\ short n (kv_appendAudit t (PKT_Audit p) s).1) as Happ.
      { intros s [(Hm & Hc & Hl) Hsh]. split; [|by apply short_append]. split; [by rewrite marker_append|]. split; [by apply cred_append|].
        rewrite log_append; [by rewrite Hl|unfold short in *; lia|done]. }
      assert (forall s, unlogged K' p s /\ short (n + 1) s -> short n s) as Hshort by (intros s [_ ?]; unfold short in *; lia).
      apply spec_ctx; [intros r s -> Hs; split; [split; [done|left; apply Hs]|by apply Hshort]|]. apply spec_update.
      - intros s Hs. by apply Happ.
      - intros msg s Hs. split; (split; [split; [done|]|]); [left; apply Hs|by apply Hshort|right; by apply Happ|by apply Happ].
      - intros s Hs. destruct (Happ s Hs) as [Hl Hsh]. split; (apply (Hks _ n); [|lia]); [split; [left; apply Hs|by apply Hshort]|split; [by right|done]]. }
    intros r. apply spec_bind with (R := fun a s => (match a with Ok true => logged K' p s | Ok false => unlogged K' p s /\ (exists e, r = Err e /\ excused ctx e)
                                                     | Err e => excused ctx e /\ (unlogged K' p s \/ logged K' p s) /\ (forall e', r = Err e' -> excused ctx e') end) /\ short n s).
    { apply spec_attempt. apply spec_find.
      - intros s [Hr Hsh]. assert (logged K' p s -> find_event false (PKT_Audit p) (kv_listAudit t s) = Ok true) as Hyes.
        { intros (_ & _ & Hl). eapply find_present; [done|exact Hl|apply Hp]. }
        destruct r as [a|e]; [exists true; by auto|]. destruct Hr as [He [Hu|Hl]]; [|exists true; by auto]. exists false. destruct Hu as (Hm & Hc & Hu).
        split; [eapply find_absent; [done|exact Hu|apply Hp]|]. split; [|done]. split; [done|]. by exists e.
      - intros e s [Hr Hsh] He. split; [|done]. split; [done|]. destruct r as [a|e']; [split; [by right|done]|]. destruct Hr as [He' Hr]. split; [done|]. by intros e'' [= <-].
      - intros s [Hr Hsh]. apply (Hks s n); [|lia]. split; [|done]. destruct r; [by right|apply Hr]. }
    intros [[]|le].
    + by apply spec_ret.
    + intros fs s m [[Hu (e & -> & He)] Hsh]. split; [|done]. by apply (Hks s n); [split; [left|]|lia].
    + intros fs s m [(Hle & Hs & He) Hsh]. assert (keystone K c s /\ short n s) as Hk by (by apply (Hks s n); [split|lia]). destruct r as [a|ae]; (split; [done|]); [done|].
      intros Hc. split; [exact (He ae eq_refl Hc)|exact (Hle Hc)].
  - intros _. apply (spec_delete ctx p); [done|by intros s [(? & _ & _) _]|..].
    + intros s [Hl Hsh]. split; [by apply Hsettle|by apply short_del].
    + intros e s [Hl Hsh] He. split; (split; [|done]).
      * by apply (Hks s n); [split; [right|]|lia].
      * split; [by apply ks_settled, Hsettle|by apply short_del].
    + intros s [Hl Hsh]. split; [by apply (Hks s n); [split; [right|]|lia]|]. split; [by apply ks_settled, Hsettle|by apply short_del].
Qed.

Lemma keystone_perm K K' c s : K ≡ₚ K' -> keystone K c s -> keystone K' c s.
Proof.
  intros HK [(? & ? & Hl)|p [Hv Hf] -> (? & ? & Hl)|p K0 Hp -> HK0 Hs].
  - apply ks_settled. split_and!; try done. by rewrite Hl.
  - apply (ks_begun _ _ _ p); [split; [done|]|done|split_and!; try done; by rewrite Hl]. unfold ids in *. by rewrite <- HK.
  - apply (ks_committed _ _ _ p K0); try done. by rewrite <- HK.
Qed.

(** Reading the marker and the credential. *)
Lemma spec_pending ctx (P : S -> Prop) (o : option PendingKeystoneTransition) Q (k : result store_error PendingKeystoneTransition -> Act S unit) E (C : S -> Prop) :
  (forall s, P s -> marker s = VPending <$> o) -> (forall s, P s -> C s) ->
  spec (k (match o with Some p => Ok p | None => Err ErrNotFound end)) P Q E C ->
  (forall e, excused ctx e -> is_not_found e = false -> spec (k (Err e)) P Q E C) ->
  spec (do! r <- attempt (GetPendingKeystoneTransition ctx t) in k r) P Q E C.
Proof.
  intros Hm HC Hok Herr.
  apply spec_bind with (R := fun r s => P s /\ (r = match o with Some p => Ok p | None => Err ErrNotFound end \/ exists e, r = Err e /\ excused ctx e /\ is_not_found e = false)).
  - apply spec_attempt. apply spec_ctx; [intros r s -> Hs; split; [done|]; right; by eexists|]. unfold withLock. apply spec_readonly; [apply readonly_loadJSON|..].
    + intros s p Hs. rewrite answer_loadJSON. fold (marker s). rewrite (Hm s Hs). destruct o as [p'|]; cbn; [|done]. intros [= ->]. split; [done|by left].
    + intros s e Hs [Ha|He]; split; try done.
      * rewrite answer_loadJSON in Ha. fold (marker s) in Ha. rewrite (Hm s Hs) in Ha. destruct o as [p'|]; cbn in Ha; [done|]. injection Ha as <-. by left.
      * right. exists e. split; [done|]. split; [exact (fun _ => He)|by apply backend_error_not_found].
    + done.
  - intros r fs s n [Hs [->|(e & -> & He & Hnf)]]; [by apply Hok|by apply (Herr e)].
Qed.

Lemma spec_current ctx (P : S -> Prop) c E (C : S -> Prop) :
  (forall s, P s -> has_cred c s) -> (forall e s, P s -> excused ctx e -> E e s) -> (forall s, P s -> C s) ->
  spec (currentKeystoneCredential ctx t) P (fun c' s => P s /\ c' = c) E C.
Proof.
  intros Hc HE HC. unfold currentKeystoneCredential.
  apply spec_bind with (R := fun r s => P s /\ (r = match c with Some c => Ok c | None => Err ErrNotFound end \/ exists e, r = Err e /\ excused ctx e /\ is_not_found e = false)).
  - apply spec_attempt. apply spec_ctx; [intros r s -> Hs; split; [done|]; right; by eexists|]. unfold withLock. apply spec_readonly; [apply readonly_loadJSON|..].
    + intros s p Hs. rewrite answer_loadJSON, (Hc s Hs). destruct c as [c'|]; cbn; [|done]. intros [= ->]. split; [done|by left].
    + intros s e Hs [Ha|He]; split; try done.
      * rewrite answer_loadJSON, (Hc s Hs) in Ha. destruct c as [c'|]; cbn in Ha; [done|]. injection Ha as <-. by left.
      * right. exists e. split; [done|]. split; [exact (fun _ => He)|by apply backend_error_not_found].
    + done.
  - intros r fs s n [Hs [->|(e & -> & He & Hnf)]]; [destruct c; by split|]. rewrite Hnf. by apply HE.
Qed.

Lemma spec_wrapped {A} msg (m : Act S A) P (Q : A -> S -> Prop) (E : store_error -> S -> Prop) C :
  spec m P Q (fun e => E (WrappedError msg e)) C -> spec (wrap msg m) P Q E C.
Proof.
  intros Hm. unfold wrap. apply spec_bind with (R := fun r s => match r with Ok a => Q a s | Err e => E (WrappedError msg e) s end); [by apply spec_attempt|].
  intros [a|e]; [by apply spec_ret|by apply spec_fail].
Qed.

Lemma short_le m n s : (n <= m)%nat -> short m s -> short n s.
Proof. unfold short. lia. Qed.

Lemma spec_reconcile ctx K c n :
  spec (reconcilePendingKeystoneTransitionLocked ctx t) (fun s => keystone K c s /\ short (n + 1) s) (fun _ s => settled K c s /\ short n s)
    (fun e s => (keystone K c s /\ short n s) /\ excused ctx e) (fun s => keystone K c s /\ short n s).
Proof.
  intros fs s0 m0 [Hk Hsh]. assert (n <= n + 1)%nat as Hle by lia. destruct Hk as [Hs|p Hp -> Hb|p K' Hp -> HK Hb].
  - refine (spec_pending ctx (fun s => settled K c s /\ short (n + 1) s) None _ _ _ _ _ _ _ _ fs s0 m0 (conj Hs Hsh)).
    + by intros s [(? & _) _].
    + intros s [? ?]. split; [by apply ks_settled|by apply (short_le (n + 1))].
    + apply spec_ret. intros s [? ?]. split; [done|by apply (short_le (n + 1))].
    + intros e He Hnf. rewrite Hnf. apply spec_fail. intros s [? ?]. split; [split; [by apply ks_settled|by apply (short_le (n + 1))]|done].
  - assert (forall s, begun K p s /\ short (n + 1) s -> keystone K (PKT_Expected p) s /\ short n s) as Hks.
    { intros s [? ?]. split; [by apply (ks_begun _ _ _ p)|by apply (short_le (n + 1))]. }
    refine (spec_pending ctx (fun s => begun K p s /\ short (n + 1) s) (Some p) _ _ _ _ _ _ _ _ fs s0 m0 (conj Hb Hsh)); [by intros s [(? & _) _]|done|..].
    + rewrite (pr_valid _ _ Hp). apply spec_bind with (R := fun c s => (begun K p s /\ short (n + 1) s) /\ c = PKT_Expected p).
      { apply spec_wrapped, spec_current; [by intros s [(_ & ? & _) _]|intros e s Hs He; split; [by apply Hks|exact He]|done]. }
      intros c'. apply spec_pure. intros ->. rewrite bool_decide_eq_false_2 by (by apply (proper_change K)). unfold credentialStateMatches. rewrite bool_decide_eq_true_2 by done.
      assert (forall s, begun K p s /\ short (n + 1) s -> settled K (PKT_Expected p) (kv_del t collKeystoneTransition "" s) /\ short n (kv_del t collKeystoneTransition "" s)) as Hd.
      { intros s [(Hm & Hc & Hl) Hsh']. split; [|by apply short_del, (short_le (n + 1))]. split; [apply marker_del|]. split; [by apply cred_del|by rewrite log_del]. }
      assert (forall s, begun K p s /\ short (n + 1) s -> keystone K (PKT_Expected p) (kv_del t collKeystoneTransition "" s) /\ short n (kv_del t collKeystoneTransition "" s)) as Hd'.
      { intros s Hs. destruct (Hd s Hs). split; [by apply ks_settled|done]. }
      apply (spec_delete ctx p); [by apply (proper_id K)|by intros s [(? & _) _]|done|..]; [intros e s Hs He; by split; (split; [auto|])|auto].
    + intros e He Hnf. rewrite Hnf. apply spec_fail. intros s Hs. split; [by apply Hks|exact He].
  - assert (forall s, (unlogged K' p s \/ logged K' p s) /\ short (n + 1) s -> keystone K (Some (PKT_Next p)) s /\ short n s) as Hks.
    { intros s [? ?]. split; [by apply (ks_committed _ _ _ p K')|by apply (short_le (n + 1))]. }
    refine (spec_pending ctx (fun s => (unlogged K' p s \/ logged K' p s) /\ short (n + 1) s) (Some p) _ _ _ _ _ _ _ _ fs s0 m0 (conj Hb Hsh));
      [by intros s [[(? & _)|(? & _)] _]|done|..].
    + rewrite (pr_valid _ _ Hp). apply spec_bind with (R := fun c s => ((unlogged K' p s \/ logged K' p s) /\ short (n + 1) s) /\ c = Some (PKT_Next p)).
      { apply spec_wrapped, spec_current; [by intros s [[(_ & ? & _)|(_ & ? & _)] _]|intros e s Hs He; split; [by apply Hks|exact He]|done]. }
      intros c'. apply spec_pure. intros ->. rewrite bool_decide_eq_true_2 by done. symmetry in HK. eapply spec_weaken; [by apply (spec_ensure ctx K' p n)|done|..].
      * intros _ s [(? & ? & Hl) ?]. split; [|done]. split_and!; try done. by rewrite Hl.
      * intros e s [[? ?] ?]. split; [|done]. split; [|done]. by apply (keystone_perm _ _ _ _ HK).
      * intros s [? ?]. split; [|done]. by apply (keystone_perm _ _ _ _ HK).
    + intros e He Hnf. rewrite Hnf. apply spec_fail. intros s Hs. split; [by apply Hks|exact He].
Qed.

(** ** A new transition *)

Definition good_id (id : string) : Prop := String.length id = 32%nat /\ hex_decodes id = true.

Lemma proper_new K expected next a id now :
  validateKeystoneTransitionAudit expected (Some a) = Ok tt -> expected <> Some next -> good_id id -> now <> zero_time -> id ∉ ids K ->
  proper K (mkPending expected next (transition_entry a id now)).
Proof.
  intros Hv Hne [Hlen Hhex] Hnow Hf. split; [|exact Hf]. unfold validateKeystoneTransitionAudit in Hv.
  destruct (String.eqb (AE_Action a) _) eqn:Ea; [|discriminate Hv]. destruct (operator_actor (AE_Actor a)) eqn:Eo; [|discriminate Hv].
  destruct (String.eqb (AE_NodeID a) "") eqn:En; [|cbn in Hv; rewrite orb_true_r in Hv; discriminate Hv].
  unfold validatePendingKeystoneTransition, transition_entry. cbn [PKT_Audit PKT_Expected PKT_Next AE_EventID AE_Timestamp AE_Seq AE_PrevHash AE_Hash AE_Action AE_NodeID AE_Actor].
  rewrite Hlen, Hhex, Ea, Eo, En, (bool_decide_eq_false_2 _ Hne). apply Z.eqb_neq in Hnow. by rewrite Hnow.
Qed.

Lemma spec_create ctx p (P : S -> Prop) (Q C : S -> Prop) E :
  AE_EventID (PKT_Audit p) <> ""%string -> AE_Timestamp (PKT_Audit p) <> zero_time -> (forall s, P s -> marker s = None) ->
  (forall s, P s -> Q (kv_put t collKeystoneTransition "" (VPending p) s)) -> (forall e s, P s -> E e s /\ E e (kv_put t collKeystoneTransition "" (VPending p) s)) ->
  (forall s, P s -> C s /\ C (kv_put t collKeystoneTransition "" (VPending p) s)) ->
  spec (CreatePendingKeystoneTransition ctx t p) P (fun _ => Q) E C.
Proof.
  intros Hid Hts Hm HQ HE HC. apply spec_ctx; [intros; by apply HE|]. apply String.eqb_neq in Hid. apply Z.eqb_neq in Hts. rewrite Hid, Hts. cbn [orb]. unfold withLock.
  apply spec_bind with (R := fun o s => P s /\ o = None).
  - apply spec_readonly; [apply readonly_load_optional| |intros; by apply HE|intros; by apply HC]. intros s o Hs. rewrite answer_load_optional. fold (marker s). rewrite (Hm s Hs). by intros [= <-].
  - intros o. apply spec_pure. intros ->. apply spec_write; [done|intros; by apply HE|done].
Qed.

Lemma spec_cas ctx c expected next (P : S -> Prop) (Q C : S -> Prop) (E : store_error -> S -> Prop) :
  (forall s, P s -> has_cred c s) -> (forall e s, P s -> E e s) -> (forall s, P s -> C s) ->
  (expected = Some next -> forall s, P s -> Q s) ->
  (expected <> Some next -> c = expected -> forall s, P s ->
     let s' := kv_put t collOperatorCred "" (VCredential next) s in Q s' /\ (forall e, E e s') /\ C s') ->
  spec (CompareAndSetOperatorCredential ctx t expected next) P (fun _ => Q) E C.
Proof.
  intros Hc HE HC Hsame Hw. apply spec_ctx; [by auto|]. unfold withLock. apply spec_bind with (R := fun o s => P s /\ o = c).
  - apply spec_readonly; [apply readonly_load_optional| |by auto|by auto]. intros s o Hs. rewrite answer_load_optional, (Hc s Hs). destruct c; by intros [= <-].
  - intros o. apply spec_pure. intros ->.
    assert (expected <> Some next -> c = expected -> spec (saveJSON t collOperatorCred "" next) P (fun _ => Q) E C) as Hsave.
    { intros Hne He. apply spec_write; intros; try split; auto; by apply (Hw Hne He). }
    destruct expected as [e|], c as [c'|]; try (apply spec_fail; by auto); [|by apply Hsave].
    destruct (bool_decide_reflect (c' = e)) as [->|]; cbn [negb]; [|by apply spec_fail; auto]. destruct (bool_decide_reflect (e = next)) as [->|Hne]; [by apply spec_ret; auto|].
    apply Hsave; congruence.
Qed.

Lemma cred_set c v s : has_cred (Some c) (kv_put t collOperatorCred "" (VCredential c) s) /\ marker (kv_put t collOperatorCred "" v s) = marker s.
Proof.
  split; [unfold has_cred; rewrite get_put; by destruct (decide _) as [_|[]]|]. unfold marker. rewrite get_put. by destruct (decide _) as [(_ & ? & _)|].
Qed.

(** Where a call can leave the state: nothing happened, or its change is committed. *)
Definition left_by K (c expected : option OperatorCredential) (next : OperatorCredential) (audit : option AuditEntry) (eventID : option string) (now : Z) (n : nat) s : Prop :=
  short n s /\
  (keystone K c s \/
   exists a id, audit = Some a /\ eventID = Some id /\ c = expected /\ expected <> Some next /\ keystone (event (transition_entry a id now) :: K) (Some next) s).

Lemma spec_begin ctx K c expected next a id now n :
  let p := mkPending expected next (transition_entry a id now) in
  validateKeystoneTransitionAudit expected (Some a) = Ok tt -> expected <> Some next -> good_id id -> now <> zero_time -> id ∉ ids K ->
  spec (begin_transition ctx t expected next a (Some id) now) (fun s => settled K c s /\ short n s)
    (fun _ s => keystone (event (transition_entry a id now) :: K) (Some next) s /\ c = expected /\ short n s)
    (fun _ => left_by K c expected next (Some a) (Some id) now n) (left_by K c expected next (Some a) (Some id) now n).
Proof.
  intros p Hv Hne Hid Hnow Hf. pose proof (proper_new K expected next a id now Hv Hne Hid Hnow Hf) as Hp. fold p in Hp. unfold begin_transition.
  assert (forall s, settled K c s /\ short n s -> left_by K c expected next (Some a) (Some id) now n s) as Hset by (intros s [? ?]; split; [done|left; by apply ks_settled]).
  apply spec_bind with (R := fun c' s => (settled K c s /\ short n s) /\ c' = c); [apply spec_current; [by intros s [(_ & ? & _) _]|by auto|by auto]|].
  intros c'. apply spec_pure. intros ->. unfold credentialStateMatches. destruct (bool_decide_reflect (c = expected)) as [->|]; cbn [negb]; [|apply spec_fail; by auto].
  assert (forall s, settled K expected s /\ short n s -> begun K p (kv_put t collKeystoneTransition "" (VPending p) s) /\ short n (kv_put t collKeystoneTransition "" (VPending p) s)) as Hb.
  { intros s [(Hm & Hc & Hl) Hsh]. split; [|by apply short_put]. split; [apply marker_put|]. split; [by apply cred_put|by rewrite log_put]. }
  assert (forall s, begun K p s /\ short n s -> left_by K expected expected next (Some a) (Some id) now n s) as Hbegun.
  { intros s [? ?]. split; [done|left]. by apply (ks_begun _ _ _ p). }
  apply spec_bind with (R := fun _ s => begun K p s /\ short n s).
  - apply spec_wrapped, spec_create; [by apply (proper_id K)|done|by intros s [(? & _) _]|done|..]; intros; split; auto.
  - intros _. assert (forall s, begun K p s /\ short n s -> let s' := kv_put t collOperatorCred "" (VCredential next) s in
      keystone (event (transition_entry a id now) :: K) (Some next) s' /\ short n s') as Hc.
    { intros s [(Hm & _ & Hl) Hsh]. cbn zeta. destruct (cred_set next (VCredential next) s) as [Hc1 Hc2]. split; [|by apply short_put].
      apply (ks_committed _ _ _ p K); [done..|]. left. split; [by rewrite Hc2|]. split; [done|by rewrite log_put]. }
    apply (spec_cas ctx expected); [by intros s [(_ & ? & _) _]|by auto|by auto|done|]. intros _ _ s Hs. cbn zeta. destruct (Hc s Hs) as [H1' H2'].
    assert (left_by K expected expected next (Some a) (Some id) now n (kv_put t collOperatorCred "" (VCredential next) s)) as Hl by (split; [done|right; by exists a, id]). done.
Qed.

Lemma spec_transition ctx K c expected next audit eventID now n :
  (forall id, eventID = Some id -> good_id id /\ id ∉ ids K) -> now <> zero_time ->
  spec (CompareAndSetKeystoneCredential ctx t expected next audit eventID now) (fun s => keystone K c s /\ short (n + 1 + 1) s)
    (fun _ => left_by K c expected next audit eventID now n) (fun _ => left_by K c expected next audit eventID now n) (left_by K c expected next audit eventID now n).
Proof.
  intros Hid Hnow. assert (forall m s, (n <= m)%nat -> keystone K c s /\ short m s -> left_by K c expected next audit eventID now n s) as Hstay.
  { intros m s Hm [? ?]. split; [by apply (short_le m)|by left]. }
  assert (forall s, settled K c s /\ short (n + 1) s -> left_by K c expected next audit eventID now n s) as Hset.
  { intros s [? ?]. apply (Hstay (n + 1)%nat); [lia|]. split; [by apply ks_settled|done]. }
  unfold CompareAndSetKeystoneCredential. apply spec_bind with (R := fun _ s => settled K c s /\ short (n + 1) s).
  { eapply spec_weaken; [apply (spec_reconcile ctx K c (n + 1))|done|done|..].
    - intros e s [? _]. apply (Hstay (n + 1)%nat); [lia|done].
    - intros s ?. apply (Hstay (n + 1)%nat); [lia|done]. }
  intros _. destruct (bool_decide_reflect (expected = Some next)) as [He|Hne].
  { destruct audit; [apply spec_fail; by auto|]. apply (spec_cas ctx c); [by intros s [(_ & ? & _) _]|by auto|by auto|by auto|done]. }
  destruct (validateKeystoneTransitionAudit expected audit) as [[]|e] eqn:Ev; [|apply spec_fail; by auto]. destruct audit as [a|]; [|apply spec_fail; by auto].
  destruct eventID as [id|].
  - destruct (Hid id eq_refl) as [Hg Hf]. apply spec_bind with (R := fun _ s => keystone (event (transition_entry a id now) :: K) (Some next) s /\ c = expected /\ short (n + 1) s).
    { eapply spec_weaken; [by apply (spec_begin ctx K c expected next a id now (n + 1))|done|done|..]; [intros e|]; intros s [? Hk]; (split; [by apply (short_le (n + 1)); [lia|]|done]). }
    intros _ fs s m (Hk & -> & Hsh). assert (forall s', keystone (event (transition_entry a id now) :: K) (Some next) s' /\ short n s' ->
      left_by K expected expected next (Some a) (Some id) now n s') as Hmoved by (intros s' [? ?]; split; [done|right; by exists a, id]).
    pose proof (spec_reconcile ctx (event (transition_entry a id now) :: K) (Some next) n fs s m (conj Hk Hsh)) as Hr.
    destruct (reconcilePendingKeystoneTransitionLocked ctx t fs s m) as [u s' m'|e s' m'|s']; apply Hmoved; [destruct Hr; split; [by apply ks_settled|done]|by destruct Hr|done].
  - apply spec_bind with (R := fun _ _ => False); [|by intros _ fs s m []]. unfold begin_transition.
    apply spec_bind with (R := fun c' s => settled K c s /\ short (n + 1) s); [|intros c'; destruct (negb _); apply spec_fail; by auto].
    eapply spec_weaken; [apply (spec_current ctx (fun s => settled K c s /\ short (n + 1) s) c (fun _ s => settled K c s /\ short (n + 1) s) (fun s => settled K c s /\ short (n + 1) s))|..];
      try done; [by intros s [(_ & ? & _) _]|by intros c' s [? _]|by auto..].
Qed.
End Transition.

(** ** Histories *)

Record ks_call := mkKsCall {
  kc_ctx : option string; kc_expected : option OperatorCredential; kc_next : OperatorCredential; kc_audit : option AuditEntry; kc_event : option string; kc_now : Z;
  kc_faults : Faults }.

(** A mutation, a status read, or anything else that happens to the store. *)
Inductive ks_step (S : Type) :=
| KPin (c : ks_call)
| KStatus (ctx : option string) (fs : Faults)
| KOther (f : S -> S).
Arguments KPin {S} c.
Arguments KStatus {S} ctx fs.
Arguments KOther {S} f.

Section History.
Context {S : Type} `{KVLaws S} `{!AuditBackend S} `{!AuditLaws S} (t : TenantID).
Implicit Types s : S.

Definition cred_of s : option OperatorCredential := kv_get t collOperatorCred "" s ≫= of_json.
Lemma has_cred_of c s : has_cred t c s -> cred_of s = c.
Proof. unfold has_cred, cred_of. intros ->. by destruct c. Qed.

Definition step_ks (st : ks_step S) s : S :=
  match st with
  | KPin c => outcome_state (CompareAndSetKeystoneCredential (kc_ctx c) t (kc_expected c) (kc_next c) (kc_audit c) (kc_event c) (kc_now c) (kc_faults c) s 0%nat)
  | KStatus ctx fs => outcome_state (GetKeystoneCredential ctx t fs s 0%nat)
  | KOther f => f s
  end.
Fixpoint run_ks (run : list (ks_step S)) s : S := match run with [] => s | st :: rest => run_ks rest (step_ks st s) end.

(** The event of a mutation. *)
Definition call_event (c : ks_call) : list audit_event :=
  match kc_audit c, kc_event c with Some a, Some id => [event (transition_entry a id (kc_now c))] | _, _ => [] end.
(** The events of the mutations during which the credential changed. *)
Fixpoint changes (run : list (ks_step S)) s : list audit_event :=
  match run with
  | [] => []
  | st :: rest => (match st with KPin c => if decide (cred_of (step_ks st s) = cred_of s) then [] else call_event c | _ => [] end) ++ changes rest (step_ks st s)
  end.

(** Event ids are random: well formed and new.  The log does not rotate.  What else
    happens leaves the credential, the marker and the keystone events alone. *)
Fixpoint admissible (used : list string) (run : list (ks_step S)) s : Prop :=
  match run with
  | [] => short t 1 s
  | KPin c :: rest =>
      short t 2 s /\ kc_now c <> zero_time /\ (forall id, kc_event c = Some id -> good_id id /\ id ∉ used) /\
      admissible (option_list (kc_event c) ++ used) rest (step_ks (KPin c) s)
  | KStatus ctx fs :: rest => short t 1 s /\ admissible used rest (step_ks (KStatus ctx fs) s)
  | KOther f :: rest =>
      marker t (f s) = marker t s /\ kv_get t collOperatorCred "" (f s) = kv_get t collOperatorCred "" s /\ log_events t (f s) ≡ₚ log_events t s /\ admissible used rest (f s)
  end.

Lemma keystone_other K c s s' :
  marker t s' = marker t s -> kv_get t collOperatorCred "" s' = kv_get t collOperatorCred "" s -> log_events t s' ≡ₚ log_events t s -> keystone t K c s -> keystone t K c s'.
Proof.
  intros Hm Hc Hl. unfold has_cred in *. intros [Hs|p Hp -> Hs|p K' Hp -> HK Hs].
  - apply ks_settled. unfold settled, has_cred in *. by rewrite Hm, Hc, Hl.
  - apply (ks_begun _ _ _ _ p); [done..|]. unfold begun, has_cred in *. by rewrite Hm, Hc, Hl.
  - apply (ks_committed _ _ _ _ p K'); [done..|]. unfold unlogged, logged, has_cred in *. by rewrite Hm, Hc, Hl.
Qed.

Lemma spec_status ctx K c n :
  spec (GetKeystoneCredential ctx t) (fun s => keystone t K c s /\ short t (n + 1) s) (fun _ s => settled t K c s /\ short t n s)
    (fun _ s => keystone t K c s /\ short t n s) (fun s => keystone t K c s /\ short t n s).
Proof.
  apply spec_bind with (R := fun _ s => settled t K c s /\ short t n s).
  { eapply spec_weaken; [apply (spec_reconcile t ctx K c n)|done|done|by intros e s [? _]|done]. }
  intros _. assert (forall s, settled t K c s /\ short t n s -> keystone t K c s /\ short t n s) as Hk by (intros s [? ?]; split; [by apply ks_settled|done]).
  apply spec_ctx; [by auto|]. apply spec_readonly; [apply readonly_loadJSON|done|by auto|by auto].
Qed.

Lemma run_keystone run K c s used :
  keystone t K c s -> (forall id, id ∈ ids K -> id ∈ used) -> admissible used run s ->
  exists c', keystone t (K ++ changes run s) c' (run_ks run s) /\ short t 1 (run_ks run s).
Proof.
  revert K c s used. induction run as [|st run IH]; intros K c s used Hk Hused Hadm; cbn [changes run_ks]; [exists c; by rewrite app_nil_r|].
  destruct st as [call|ctx fs|f]; cbn [admissible] in Hadm.
  - destruct Hadm as (Hsh & Hnow & Hid & Hrest). set (s' := step_ks (KPin call) s) in *.
    assert (left_by t K c (kc_expected call) (kc_next call) (kc_audit call) (kc_event call) (kc_now call) 0 s') as [_ Hl].
    { pose proof (spec_transition t (kc_ctx call) K c (kc_expected call) (kc_next call) (kc_audit call) (kc_event call) (kc_now call) 0) as Hspec.
      assert (forall id, kc_event call = Some id -> good_id id /\ id ∉ ids K) as Hid' by (intros id Hi; destruct (Hid id Hi); split; [done|]; intros ?; by auto).
      specialize (Hspec Hid' Hnow (kc_faults call) s 0%nat (conj Hk Hsh)). unfold s', step_ks. by destruct (CompareAndSetKeystoneCredential _ _ _ _ _ _ _ _ _ _). }
    pose proof (has_cred_of c s (keystone_has_cred t K c s Hk)) as Hc. destruct Hl as [Hk'|(a & id & Ha & He & Hexp & Hne & Hk')].
    + pose proof (has_cred_of c s' (keystone_has_cred t K c s' Hk')) as Hc'. rewrite decide_True by congruence. cbn [app].
      apply (IH K c s' (option_list (kc_event call) ++ used)); [done| |done]. intros id Hi. apply elem_of_app. right. by auto.
    + pose proof (has_cred_of _ s' (keystone_has_cred t _ _ s' Hk')) as Hc'. rewrite decide_False by congruence. unfold call_event. rewrite Ha, He.
      destruct (IH (K ++ [event (transition_entry a id (kc_now call))]) (Some (kc_next call)) s' (option_list (kc_event call) ++ used)) as (c' & Hc1 & Hc2); [..|done|].
      * apply (keystone_perm _ _ _ _ _ (Permutation_cons_append _ _)). exact Hk'.
      * intros id' Hi. rewrite He. unfold ids in Hi. rewrite fmap_app in Hi. apply elem_of_app in Hi as [Hi|Hi]; [apply elem_of_app; right; by auto|].
        cbn in Hi. apply list_elem_of_singleton in Hi as ->. by left.
      * exists c'. split; [|done]. by rewrite app_assoc.
  - destruct Hadm as [Hsh Hrest]. cbn [app]. apply (IH K c _ used); [|done..].
    pose proof (spec_status ctx K c 0 fs s 0%nat (conj Hk Hsh)) as Hr. unfold step_ks. destruct (GetKeystoneCredential ctx t fs s 0%nat) as [cr s' n'|e s' n'|s']; cbn [outcome_state].
    + destruct Hr. by apply ks_settled.
    + by destruct Hr.
    + by destruct Hr.
  - destruct Hadm as (Hm & Hc & Hl & Hrest). cbn [app step_ks]. apply (IH K c _ used); [|done..]. by apply (keystone_other K c s).
Qed.

Lemma clean_update {S' A} (f : S' -> S' * A) : clean (prim_update f).
Proof. done. Qed.
Lemma clean_wrap {S' A} msg (m : Act S' A) : clean m -> clean (wrap msg m).
Proof. intros Hm. unfold wrap. apply clean_attempt; [done|intros; apply clean_ret|intros e He; by apply clean_fail]. Qed.
Lemma find_event_error b want l e : find_event b want l = Err e -> ~ backend_error e.
Proof.
  revert b. induction l as [|x l IH]; intros b; cbn [find_event]; [done|]. destruct (negb _); [apply IH|]. destruct b; [by intros [= <-] ?|].
  destruct (negb _); [by intros [= <-] ?|apply IH].
Qed.
Lemma validate_error p e : validatePendingKeystoneTransition p = Err e -> ~ backend_error e.
Proof. unfold validatePendingKeystoneTransition, invalid_marker. cbn zeta. repeat (destruct (_ : bool); try by intros [= <-] ?). Qed.

Lemma clean_find want : clean (findPendingKeystoneAudit (S := S) None t want).
Proof.
  apply clean_bind; [apply clean_wrap; exact (clean_read _)|]. intros entries. destruct (find_event false want entries) as [b|e] eqn:E; [apply clean_ret|].
  apply clean_fail. by apply find_event_error in E.
Qed.
Lemma clean_observed want : clean (append_observed (S := S) None t want).
Proof.
  apply clean_attempt; [exact (clean_update _)|intros a|intros ae Hae]; (apply clean_attempt; [apply clean_find|intros [|]|intros le Hle]).
  - apply clean_ret.
  - by apply clean_fail; intros ?.
  - by apply clean_fail.
  - apply clean_ret.
  - by apply clean_fail.
  - apply clean_fail. intros [_ ?]. done.
Qed.
Lemma clean_delete id : clean (DeletePendingKeystoneTransition (S := S) None t id).
Proof. unfold DeletePendingKeystoneTransition. clean. Qed.

Lemma clean_reconcile : clean (reconcilePendingKeystoneTransitionLocked (S := S) None t).
Proof.
  unfold reconcilePendingKeystoneTransitionLocked. apply clean_attempt; [unfold GetPendingKeystoneTransition; clean| |intros e He; destruct (is_not_found e); [apply clean_ret|by apply clean_fail]].
  intros p. destruct (validatePendingKeystoneTransition p) as [[]|e] eqn:Ev; [|apply clean_fail; by apply validate_error in Ev].
  apply clean_bind.
  - apply clean_wrap. unfold currentKeystoneCredential, GetOperatorCredential. clean.
  - intros c. destruct (bool_decide _); [|destruct (credentialStateMatches _ _); [apply clean_wrap, clean_delete|by apply clean_fail; intros ?]].
    apply clean_bind; [apply clean_find|]. intros b. apply clean_bind; [destruct b; [apply clean_ret|apply clean_observed]|]. intros _. apply clean_wrap, clean_delete.
Qed.

(** C34. Every change of the pinned credential is audited exactly once.  Over any
    sequence of keystone mutations and status reads, each cut short by any errors and
    crashes, and whatever else happens to the store, one status read without errors
    settles the state: it reports the credential, no marker is left, and the keystone
    events of the log are those it had before and one for each mutation during which
    the credential changed, and none for the others.  Event ids are fresh and the log does
    not rotate at these steps ([admissible]). *)
Theorem keystone_changes_audited (run : list (ks_step S)) s c0 :
  marker t s = None -> has_cred t c0 s -> admissible (ids (log_events t s)) run s ->
  let settled_by s' := marker t s' = None /\ cred_of s' = cred_of (run_ks run s) /\ log_events t s' ≡ₚ log_events t s ++ changes run s in
  match GetKeystoneCredential None t no_faults (run_ks run s) 0%nat with
  | Done c s' _ => cred_of (run_ks run s) = Some c /\ settled_by s'
  | Failed e s' _ => e = ErrNotFound /\ cred_of (run_ks run s) = None /\ settled_by s'
  | Crashed _ => False
  end.
Proof.
  intros Hm Hc Hadm settled_by. destruct (run_keystone run (log_events t s) c0 s (ids (log_events t s))) as (c & Hk & Hsh); [by apply ks_settled|done|done|].
  pose proof (has_cred_of _ _ (keystone_has_cred _ _ _ _ Hk)) as Hcr. set (s1 := run_ks run s) in *.
  destruct (spec_run _ _ _ _ _ s1 0%nat (spec_reconcile t None _ c 0) clean_reconcile (conj Hk Hsh)) as ([] & s' & n' & Hrun & Hset & _).
  { intros e s' [_ He] Hnb. by apply Hnb, He. }
  unfold GetKeystoneCredential, abind. rewrite Hrun. destruct Hset as (Hm' & Hc' & Hl'). pose proof (has_cred_of c s' Hc') as Hcr'.
  unfold GetOperatorCredential, withLock, loadJSON, get, prim_read, no_faults, abind, check_ctx, ret. rewrite Hc'. destruct c as [c|]; cbn.
  - split; [done|]. unfold settled_by. by rewrite Hcr, Hcr'.
  - split; [done|]. split; [done|]. unfold settled_by. by rewrite Hcr, Hcr'.
Qed.
End History.

(** A first pin that stops right after the credential is written, a status read that
    fails, a rotation with a stale expectation, and the rotation. *)
Definition cred_a : OperatorCredential := mkOperatorCredential "ed25519" "" "PEM-A" "" "".
Definition cred_b : OperatorCredential := mkOperatorCredential "ed25519" "" "PEM-B" "" "".
Definition audit_of (action : string) : AuditEntry := mkAuditEntry 0 zero_time "operator:root" action "" "" "" "".
Definition ex_keystone : list (ks_step memStore) :=
  [KPin (mkKsCall None None cred_a (Some (audit_of "pin-operator-credential")) (Some "00000000000000000000000000000001"%string) 10
     (fun n => if Nat.eqb n 5 then Crashes true else NoFault));
   KStatus None (fun _ => Fails false "io");
   KPin (mkKsCall None (Some cred_b) cred_a (Some (audit_of "rotate-operator-credential")) (Some "00000000000000000000000000000002"%string) 20 no_faults);
   KPin (mkKsCall None (Some cred_a) cred_b (Some (audit_of "rotate-operator-credential")) (Some "00000000000000000000000000000003"%string) 30 no_faults)].

Lemma short_b {S} `{AuditBackend S} t n (s : S) : Nat.leb (length (kv_listAudit t s) + n) auditRotateAt = true -> short t n s.
Proof. unfold short. by rewrite Nat.leb_le. Qed.
Lemma good_new (e : option string) (used : list string) :
  match e with Some id => Nat.eqb (String.length id) 32 && hex_decodes id && negb (bool_decide (id ∈ used)) | None => true end = true ->
  forall id, e = Some id -> good_id id /\ id ∉ used.
Proof.
  intros Hb id ->. apply andb_prop in Hb as [Hb Hn]. apply andb_prop in Hb as [Hl Hh]. apply Nat.eqb_eq in Hl. split; [done|].
  by destruct (bool_decide_reflect (id ∈ used)).
Qed.
Lemma ex_keystone_admissible : admissible "acme" [] ex_keystone newMemStore.
Proof.
  split; [apply short_b; vm_compute; reflexivity|]. split; [discriminate|]. split; [apply good_new; vm_compute; reflexivity|].
  split; [apply short_b; vm_compute; reflexivity|].
  split; [apply short_b; vm_compute; reflexivity|]. split; [discriminate|]. split; [apply good_new; vm_compute; reflexivity|].
  split; [apply short_b; vm_compute; reflexivity|]. split; [discriminate|]. split; [apply good_new; vm_compute; reflexivity|].
  apply short_b; vm_compute; reflexivity.
Qed.

Lemma keystone_changes_audited_witness :
  match GetKeystoneCredential None "acme" no_faults (run_ks "acme" ex_keystone newMemStore) 0%nat with
  | Done c s' _ => c = cred_b /\ marker "acme" s' = None /\
      log_events "acme" s' ≡ₚ [(10, "operator:root"%string, "pin-operator-credential"%string, ""%string, "00000000000000000000000000000001"%string);
                               (30, "operator:root"%string, "rotate-operator-credential"%string, ""%string, "00000000000000000000000000000003"%string)]
  | _ => False
  end.
Proof.
  pose proof (keystone_changes_audited "acme" ex_keystone newMemStore None eq_refl eq_refl ex_keystone_admissible) as H.
  assert (cred_of "acme" (run_ks "acme" ex_keystone newMemStore) = Some cred_b) as Hc by (vm_compute; reflexivity).
  assert (log_events "acme" newMemStore ++ changes "acme" ex_keystone newMemStore =
    [(10, "operator:root"%string, "pin-operator-credential"%string, ""%string, "00000000000000000000000000000001"%string);
     (30, "operator:root"%string, "rotate-operator-credential"%string, ""%string, "00000000000000000000000000000003"%string)]) as Hl by (vm_compute; reflexivity).
  rewrite Hl in H. cbv zeta in H. destruct (GetKeystoneCredential _ _ _ _ _) as [c s' n'|e s' n'|s'].
  - destruct H as (H1 & H2 & _ & H3). rewrite Hc in H1. injection H1 as <-. auto.
  - destruct H as (_ & H1 & _). rewrite Hc in H1. discriminate H1.
  - exact H.
Defined.
