(* ===== verification/Export.v ===== *)
(** * From a compile result to the bundles of the nodes

    [internal/render/render.go] and [artifacts_json.go] (key custody, the rendering
    pass), [internal/artifacts/export.go] (the files of a bundle) and
    [internal/localcompile/compile.go] (the façade).  The texts of the install and
    deploy scripts, of the telemetry policies and of the indented JSON members are
    parameters ([Scripts]); writing a tree of files and reading it back is the map of
    its contents. *)

From stdpp Require Import base gmap strings list sorting.
From Stdlib Require Import ZArith Lia Ascii.
From S2P Require Import Prelude GoLib GoNet Model LinkID Allocator PeersAlloc Peers Compiler Findings Pipeline StoreTypes GoText GoBase64 AuditLog TrustList Bundle AgentRun Renderer.

Local Open Scope Z_scope.
Local Open Scope go_scope.

(** ** Key custody *)

Inductive KeyCustody := AirGap | AgentHeld.
#[export] Instance KeyCustody_eq_dec : EqDecision KeyCustody.
Proof. solve_decision. Defined.

Definition PrivateKeyPlaceholder : string := "PRIVATEKEY_PLACEHOLDER".

(** [Generate] is random: it takes the number of the call. *)
Record Keygen := mkKeygen {
  DerivePublic : string -> result string string;
  Generate : nat -> result string (string * string);
  ParseAndNormalize : string -> result string string }.

Definition set_keys (priv pub : string) (n : Node) : Node :=
  match n with mkNode a b c d e f g h i j k l m o _ _ r s t u v w x y z => mkNode a b c d e f g h i j k l m o priv pub r s t u v w x y z end.

Definition key_error (code : string) (n : Node) (detail : string) : goerror := Coded code [("node", Node_ID n); ("detail", detail)]%string.

(** The key pair of one node; a generated pair counts. *)
Definition node_keys (custody : KeyCustody) (kg : Keygen) (calls : nat) (n : Node) : result goerror (Node * KeyPair * nat) :=
  match custody with
  | AgentHeld =>
      let held pub := Ok (set_keys "" pub n, mkKeyPair PrivateKeyPlaceholder pub, calls) in
      if negb (String.eqb (Node_WireGuardPublicKey n) "") then held (Node_WireGuardPublicKey n)
      else if String.eqb (Node_WireGuardPrivateKey n) "" then Err (Coded "CodeKeygenMissingPubkey" [("node", Node_ID n)]%string)
      else match DerivePublic kg (Node_WireGuardPrivateKey n) with
           | Err d => Err (key_error "CodeKeygenPrivkeyParse" n d)
           | Ok derived => held derived
           end
  | AirGap =>
      let airgap priv pub calls := Ok (set_keys priv pub n, mkKeyPair priv pub, calls) in
      if negb (String.eqb (Node_WireGuardPrivateKey n) "") then
        match ParseAndNormalize kg (Node_WireGuardPrivateKey n), DerivePublic kg (Node_WireGuardPrivateKey n) with
        | Ok normalized, Ok pub => airgap normalized pub calls
        | Err d, _ | _, Err d => Err (key_error "CodeKeygenPrivkeyParse" n d)
        end
      else if negb (String.eqb (Node_WireGuardPublicKey n) "") then Err (Coded "CodeKeygenPinnedNoPrivkey" [("node", Node_ID n)]%string)
      else match Generate kg calls with
           | Err d => Err (key_error "CodeKeygenGenerateFailed" n d)
           | Ok (priv, pub) => airgap priv pub (S calls)
           end
  end.

Definition keys_step (custody : KeyCustody) (kg : Keygen) (st : list Node * gmap string KeyPair * nat) (n : Node)
  : result goerror (list Node * gmap string KeyPair * nat) :=
  let '(nodes, keys, calls) := st in
  let! r := node_keys custody kg calls n in
  let '(n', k, calls') := r in Ok (nodes ++ [n'], <[ Node_ID n := k ]> keys, calls').

(** The topology with the keys written back, and the key map. *)
Definition GenerateKeysWith (topo : Topology) (custody : KeyCustody) (kg : Keygen) : result goerror (Topology * gmap string KeyPair) :=
  let! st := foldM (keys_step custody kg) ([], ∅, 0%nat) (Topology_Nodes topo) in
  Ok (set_Nodes st.1.1 topo, st.1.2).

(** ** Inputs of the rendering pass *)

Record FetchSettings := mkFetch {
  FS_GithubProxy : string;
  FS_MimicVersion : string;
  FS_MimicReleaseBase : string;
  FS_MimicDebs : gmap string MimicDebPin;
  FS_MimicFallbackDefault : string;
  FS_AgentVersion : string;
  FS_AgentMinVersion : string;
  FS_AgentReleaseBase : string;
  FS_AgentBins : gmap string Artifact;
  FS_AgentRolloutNodeIDs : gset string }.

(** [bundlesig.ConfigSigner]; [None] is the unsigned path. *)
Record ConfigSigner := mkSigner { Signer_PublicKeyPEM : string; Signer_Sign : string -> result string (list Z) }.

Record CustodySplice := mkSplice { Splice_Enabled : bool; Splice_Token : string }.

(** [artifacts.json] before it is marshalled. *)
Definition artifactsFileSchema : Z := 2.
Record artifactsMimic := mkArtifactsMimic { AM_Version : string; AM_ReleaseURL : string; AM_Debs : gmap string MimicDebPin }.
Record artifactsAgent := mkArtifactsAgent { AA_Version : string; AA_MinVersion : string; AA_ReleaseURL : string; AA_Bins : gmap string Artifact }.
Record artifactsFile := mkArtifactsFile { AF_Schema : Z; AF_Mimic : artifactsMimic; AF_Agent : artifactsAgent }.

(** [manifest.json] before it is marshalled, less the display-only checksum. *)
Record bundleManifest := mkBundleManifest {
  BM_NodeID : string; BM_NodeName : string; BM_OverlayIP : string; BM_Role : string; BM_DomainID : string; BM_ProjectID : string; BM_ProjectName : string;
  BM_Version : string; BM_CompiledAt : Z; BM_Architecture : string; BM_Files : list string }.

Class Scripts := {
  RenderInstallScriptSigned : Node -> list PeerInfo -> bool -> string -> CustodySplice -> string -> list string -> result goerror string;
  RenderClientInstallScriptSigned : Node -> string -> CustodySplice -> string -> option ClientPeerInfo -> result goerror string;
  RenderDeployScriptsForCustody : Topology -> peerMap -> gmap string string -> bool -> result goerror (string * string);
  policy_Marshal : list TelemetryProbe -> result goerror string;
  policy_MarshalSuccessor : list TelemetryProbe -> option TelemetryDevicePolicy -> result goerror string;
  marshal_artifacts : artifactsFile -> string;
  marshal_bundleManifest : bundleManifest -> string }.

Definition TelemetryProbeURL : string := "url".

(** [probepolicy.RequiresSuccessor] *)
Definition RequiresSuccessor (node : Node) : bool :=
  bool_decide (is_Some (Node_TelemetryDevices node)) || existsb (fun p => String.eqb (TelemetryProbe_Type p) TelemetryProbeURL) (Node_TelemetryProbes node).

(** [renderer.NodeTransitCIDRs] *)
Definition NodeTransitCIDRs (topo : Topology) (node : Node) : list string :=
  match List.find (fun d => String.eqb (Domain_ID d) (Node_DomainID node)) (Topology_Domains topo) with
  | Some d => [if String.eqb (Domain_TransitCIDR d) "" then DefaultTransitCIDR else Domain_TransitCIDR d]
  | None => [DefaultTransitCIDR]
  end.

(** A compile result with its rendered members. *)
Record Rendered := mkRendered {
  RR_Result : CompileResult;
  RR_CompiledAt : Z;
  RR_WireGuardConfigs : gmap string string;
  RR_BabelConfigs : gmap string string;
  RR_SysctlConfigs : gmap string string;
  RR_InstallScripts : gmap string string;
  RR_ArtifactsJSON : gmap string string;
  RR_TelemetryPolicyJSON : gmap string string;
  RR_TelemetrySuccessorPolicyJSON : gmap string string;
  RR_DeployScripts : gmap string string;
  RR_AgentHeld : bool }.

(** The members that the loop over the nodes adds. *)
Record node_members := mkMembers {
  nm_scripts : gmap string string; nm_artifacts : gmap string string; nm_policy : gmap string string; nm_successor : gmap string string; nm_held : bool }.

Section Render.
Context `{Scripts}.

Definition buildArtifactsJSON (fs : FetchSettings) (nodeID : string) : string :=
  let hasMimic := negb (String.eqb (FS_MimicVersion fs) "") || negb (bool_decide (FS_MimicDebs fs = ∅)) in
  let hasAgent := negb (String.eqb (FS_AgentVersion fs) "") && bool_decide (nodeID ∈ FS_AgentRolloutNodeIDs fs) in
  if negb hasMimic && negb hasAgent then ""
  else
    (marshal_artifacts (mkArtifactsFile artifactsFileSchema
       (if hasMimic then mkArtifactsMimic (FS_MimicVersion fs) (FS_MimicReleaseBase fs) (FS_MimicDebs fs) else mkArtifactsMimic "" "" ∅)
       (if hasAgent then mkArtifactsAgent (FS_AgentVersion fs) (FS_AgentMinVersion fs) (FS_AgentReleaseBase fs) (FS_AgentBins fs) else mkArtifactsAgent "" "" "" ∅))
     +:+ newline_str)%string.

(** The telemetry policy of an agent-held node: the legacy member or its successor. *)
Definition node_policy (held : bool) (node : Node) : result goerror (string * string) :=
  if negb held then Ok (""%string, ""%string)
  else if RequiresSuccessor node then
    match policy_MarshalSuccessor (Node_TelemetryProbes node) (Node_TelemetryDevices node) with
    | Err e => Err (Wrapped ("building successor telemetry policy for node " +:+ Node_ID node)%string e)
    | Ok p => Ok (""%string, p)
    end
  else
    match policy_Marshal (Node_TelemetryProbes node) with
    | Err e => Err (Wrapped ("building active telemetry policy for node " +:+ Node_ID node)%string e)
    | Ok p => Ok (p, ""%string)
    end.

Definition node_script (topo : Topology) (pm : peerMap) (clients : gmap string ClientPeerInfo) (babel : gmap string string) (pubPEM : string) (proxy : string)
    (held : bool) (node : Node) : result goerror string :=
  let splice := mkSplice held PrivateKeyPlaceholder in
  if String.eqb (Node_Role node) "client" then
    match RenderClientInstallScriptSigned node pubPEM splice proxy (clients !! Node_ID node) with
    | Ok script => Ok script
    | Err e => Err (Wrapped ("rendering install script for client " +:+ Node_Name node)%string e)
    end
  else
    match RenderInstallScriptSigned node (default [] (pm !! Node_ID node)) (bool_decide (is_Some (babel !! Node_ID node))) pubPEM splice proxy (NodeTransitCIDRs topo node) with
    | Ok script => Ok script
    | Err e => Err (Wrapped ("rendering install script for node " +:+ Node_Name node)%string e)
    end.

(** [m[k] = v], where an empty value is not stored. *)
Definition put_nonempty (k v : string) (m : gmap string string) : gmap string string := if String.eqb v "" then m else <[ k := v ]> m.

Definition render_members (r : CompileResult) (keys : gmap string KeyPair) (babel : gmap string string) (fs : FetchSettings) (pubPEM : string)
    (acc : node_members) (node : Node) : result goerror node_members :=
  let held := String.eqb (PrivateKey (key_of keys (Node_ID node))) PrivateKeyPlaceholder in
  let! policy := node_policy held node in
  let! script := node_script (CR_Topology r) (CR_PeerMap r) (CR_ClientConfigs r) babel pubPEM (FS_GithubProxy fs) held node in
  Ok (mkMembers (<[ Node_ID node := script ]> (nm_scripts acc)) (put_nonempty (Node_ID node) (buildArtifactsJSON fs (Node_ID node)) (nm_artifacts acc))
        (if held && negb (RequiresSuccessor node) then put_nonempty (Node_ID node) policy.1 (nm_policy acc) else nm_policy acc)
        (if held && RequiresSuccessor node then <[ Node_ID node := policy.2 ]> (nm_successor acc) else nm_successor acc)
        (nm_held acc || held)).

Definition client_files (clients : gmap string ClientPeerInfo) (configs : gmap string string) : gmap string string :=
  foldl (fun m e => <[ (e.1 +:+ ":wg0")%string := RenderClientWireGuardConfig e.2 ]> m) configs (map_to_list clients).

(** [AllWith] *)
Definition AllWith (r : CompileResult) (compiledAt : Z) (keys : gmap string KeyPair) (fs : FetchSettings) (signer : option ConfigSigner) : result goerror Rendered :=
  let topo := CR_Topology r in
  let! wg := match RenderAllWireGuardConfigs topo (CR_PeerMap r) keys with
             | Ok m => Ok m | Err e => Err (Wrapped "rendering WireGuard configs failed" e) end in
  let babel := RenderAllBabelConfigs topo (CR_PeerMap r) in
  let pubPEM := match signer with Some sg => Signer_PublicKeyPEM sg | None => ""%string end in
  let! m := foldM (render_members r keys babel fs pubPEM) (mkMembers ∅ ∅ ∅ ∅ false) (Topology_Nodes topo) in
  let! deploy := match RenderDeployScriptsForCustody topo (CR_PeerMap r) babel (nm_held m) with
                 | Ok d => Ok d | Err e => Err (Wrapped "deploy script render" e) end in
  Ok (mkRendered r compiledAt (client_files (CR_ClientConfigs r) wg) babel (RenderAllSysctlConfigs topo) (nm_scripts m) (nm_artifacts m) (nm_policy m) (nm_successor m)
        (<[ "deploy-all.sh"%string := deploy.1 ]> (<[ "deploy-all.ps1"%string := deploy.2 ]> ∅)) (nm_held m)).
End Render.

(** ** The files of a bundle *)

Definition readme_usage (held : bool) (id : string) : list string :=
  if held then
    ["  1. Do NOT run the downloaded install.sh directly."%string;
     "  2. Provision the operator public credential through a separate trusted channel."%string;
     "  3. Apply with the command matching that credential:"%string;
     ("     Ed25519: sudo yaog-agent kit apply --bundle . --node-id " +:+ id +:+ " --operator-cred <trusted-public-key.pem> --operator-cred-alg ed25519")%string;
     ("     WebAuthn: sudo yaog-agent kit apply --bundle . --node-id " +:+ id +:+ " --operator-cred <trusted-public-key.pem> --operator-cred-alg <webauthn-es256|webauthn-eddsa> --operator-rpid <rp-id> --operator-origin <origin>")%string;
     "     (RP ID is required for WebAuthn; origin preserves the enrollment binding.)"%string;
     "  4. Legacy fleets that have never enabled a keystone may instead acknowledge that absence explicitly:"%string;
     ("     sudo yaog-agent kit apply --bundle . --node-id " +:+ id +:+ " --dangerously-allow-no-keystone")%string;
     "     Never use that acknowledgement to bypass a configured or previously verified keystone."%string]
  else ["  1. Copy this directory to the target host"%string; "  2. Run: sudo bash install.sh"%string].

Definition architecture (node : Node) : string := if String.eqb (Node_Role node) "client" then "single-interface" else "per-peer-interface".

Definition bundleREADME (held : bool) (node : Node) : string :=
  unlines ([("Node: " +:+ Node_Name node)%string; ("Overlay IP: " +:+ Node_OverlayIP node)%string; ("Role: " +:+ Node_Role node)%string;
            ("Architecture: " +:+ architecture node)%string; ""%string; "Usage:"%string] ++ readme_usage held (Node_ID node)).

(** The entry of the WireGuard map as a file of this node. *)
Definition wg_file (nodeID : string) (e : string * string) : option (string * string) :=
  match str_cut ":" e.1 with
  | Some (owner, iface) => if String.eqb owner nodeID then Some (("wireguard/" +:+ iface +:+ ".conf")%string, e.2) else None
  | None => None
  end.
Definition put_some (path : string) (content : option string) (f : files) : files := match content with Some c => <[ path := c ]> f | None => f end.
Definition nonempty_some (o : option string) : option string := match o with Some s => if String.eqb s "" then None else Some s | None => None end.

Definition BundleFiles (r : Rendered) (nodeID : string) : result goerror files :=
  let policy := nonempty_some (RR_TelemetryPolicyJSON r !! nodeID) in
  let successor := nonempty_some (RR_TelemetrySuccessorPolicyJSON r !! nodeID) in
  if bool_decide (is_Some policy) && bool_decide (is_Some successor) then Err (Plain ("node " +:+ nodeID +:+ " contains both telemetry policies")%string)
  else
    let wg : files := list_to_map (omap (wg_file nodeID) (map_to_list (RR_WireGuardConfigs r))) in
    let f := put_some "babel/babeld.conf" (RR_BabelConfigs r !! nodeID) wg in
    let f := put_some "sysctl/99-overlay.conf" (RR_SysctlConfigs r !! nodeID) f in
    let f := put_some "install.sh" (RR_InstallScripts r !! nodeID) f in
    let f := put_some "artifacts.json" (nonempty_some (RR_ArtifactsJSON r !! nodeID)) f in
    let f := put_some policyFileName (if RR_AgentHeld r then policy else None) f in
    let f := put_some policySuccessorFileName (if RR_AgentHeld r then successor else None) f in
    let node := List.find (fun n => String.eqb (Node_ID n) nodeID) (Topology_Nodes (CR_Topology (RR_Result r))) in
    Ok (put_some "README.txt" (bundleREADME (RR_AgentHeld r) <$> node) f).

Definition bundleFileMode (rel : string) : Z := if String.eqb rel "install.sh" then 493 else if has_prefix "wireguard/" rel then 384 else 420.

Definition validateSafeName (name : string) : result goerror unit :=
  if String.eqb name "" then Err (Plain "name must not be empty")
  else if String.eqb name "." || String.eqb name ".." then Err (Plain "invalid name")
  else if has_byte "/" name || has_byte "092" name then Err (Plain "name must not contain a path separator")
  else if negb (ValidPortableNodeID name) then Err (Plain "node ID is not a portable bundle-directory key")
  else Ok tt.

Section Exported_tree.
Context `{Codec} `{Scripts}.

Definition member_path (seen : gmap string string) (e : string * string) : result goerror (gmap string string) :=
  let rel := e.1 in
  if String.eqb rel "" || has_prefix "/" rel || negb (String.eqb (path_Clean rel) rel) || existsb (fun c => has_byte c rel) ["092"; "058"; "013"; "010"; "000"]%char
  then Err (Plain ("bundle member " +:+ rel +:+ " is not a canonical portable relative path")%string)
  else match seen !! ToLower rel with
       | Some _ => Err (Plain "bundle members collide on a case-insensitive filesystem")
       | None => Ok (<[ ToLower rel := rel ]> seen)
       end.
Definition validateBundleMemberPaths (f : files) : result goerror unit := let! _ := foldM member_path ∅ (map_to_list f) in Ok tt.

(** The files of one node's directory: the members, their checksums, the detached
    signature with its key, and the manifest. *)
Definition sign_files (signer : option ConfigSigner) (canonical : string) (f : files) : result goerror (files * list string) :=
  match signer with
  | None => Ok (f, [])
  | Some sg =>
      match Signer_Sign sg canonical with
      | Err d => Err (Coded "CodeExportIOFailed" [("detail", d)]%string)
      | Ok sig => Ok (<[ "signing-pubkey.pem"%string := Signer_PublicKeyPEM sg ]> (<[ "bundle.sig"%string := (Std_EncodeToString sig +:+ newline_str)%string ]> f),
                      ["bundle.sig"%string; "signing-pubkey.pem"%string])
      end
  end.

Definition node_manifest (r : Rendered) (node : Node) (listed : list string) : bundleManifest :=
  let cr := RR_Result r in
  mkBundleManifest (Node_ID node) (Node_Name node) (Node_OverlayIP node) (Node_Role node) (Node_DomainID node) (CR_ProjectID cr) (CR_ProjectName cr) (CR_Version cr)
    (RR_CompiledAt r) (architecture node) listed.

Definition wrap_code {A} (code : string) (name : string) (m : result goerror A) : result goerror A :=
  match m with Ok a => Ok a | Err e => Err (Wrapped (code +:+ " " +:+ name)%string e) end.

Definition export_node (r : Rendered) (signer : option ConfigSigner) (node : Node) : result goerror files :=
  let! f := wrap_code "CodeExportIOFailed" "" (BundleFiles r (Node_ID node)) in
  let! _ := wrap_code "CodeExportUnsafeName" (Node_ID node) (validateBundleMemberPaths f) in
  let members := merge_sort String.le (map_to_list f).*1 in
  let canonical := Canonicalize f in
  let! signed := sign_files signer canonical (<[ "checksums.sha256"%string := canonical ]> f) in
  Ok (<[ "manifest.json"%string := marshal_bundleManifest (node_manifest r node (members ++ signed.2)) ]> signed.1).

Definition export_step (r : Rendered) (signer : option ConfigSigner) (st : gmap string string * gmap string files) (node : Node)
  : result goerror (gmap string string * gmap string files) :=
  let! _ := wrap_code "CodeExportUnsafeName" (Node_ID node) (validateSafeName (Node_ID node)) in
  match st.1 !! PortableNodeIDKey (Node_ID node) with
  | Some _ => Err (Coded "CodeExportUnsafeName" [("name", Node_ID node)]%string)
  | None =>
      let! f := export_node r signer node in
      Ok (<[ PortableNodeIDKey (Node_ID node) := Node_ID node ]> st.1, <[ Node_ID node := f ]> st.2)
  end.

(** [exportInto], as the map from node directories to their files.  The publication of
    the tree is one rename. *)
Definition ExportWithSigner (r : Rendered) (signer : option ConfigSigner) : result goerror (gmap string files) :=
  if negb (forallb (fun e : string * string => String.eqb e.1 "deploy-all.sh" || String.eqb e.1 "deploy-all.ps1") (map_to_list (RR_DeployScripts r)))
  then Err (Coded "CodeExportUnsafeName" [("detail", "unexpected project-level deploy helper")]%string)
  else let! st := foldM (export_step r signer) (∅, ∅) (Topology_Nodes (CR_Topology (RR_Result r))) in Ok st.2.
End Exported_tree.

(** ** The façade *)

Record CompileRequest := mkRequest {
  Req_Topology : Topology;
  Req_Custody : KeyCustody;
  Req_Keygen : Keygen;
  Req_SigningKey : option ConfigSigner;
  Req_Fetch : FetchSettings;
  Req_CompiledAt : Z;
  Req_Reserved : option pools }.

Definition set_AgentHeld (b : bool) (r : Rendered) : Rendered :=
  match r with mkRendered a b' c d e f g h i j _ => mkRendered a b' c d e f g h i j b end.

Section Facade.
Context `{Scripts} (probe : list TelemetryProbe -> option string).

(** [None] is a panic of the compiler. *)
Definition CompileResultCtx (ctx : Ctx) (req : CompileRequest) : option (result compile_error (Rendered * findings)) :=
  match GenerateKeysWith (Req_Topology req) (Req_Custody req) (Req_Keygen req) with
  | Err e => Some (Err (CompileFailed e))
  | Ok (topo, keys) =>
      match (CompileAt probe ctx topo keys (Req_Reserved req) (FS_MimicFallbackDefault (Req_Fetch req))).2 with
      | None => None
      | Some (Err e) => Some (Err e)
      | Some (Ok (cr, warnings)) =>
          match AllWith cr (Req_CompiledAt req) keys (Req_Fetch req) (Req_SigningKey req) with
          | Err e => Some (Err (CompileFailed e))
          | Ok r => Some (Ok (set_AgentHeld (bool_decide (Req_Custody req = AgentHeld)) r, warnings))
          end
      end
  end.

(** [CompileArtifacts], less the display-only manifest. *)
Record CompileArtifacts := mkCompileArtifacts {
  CA_Topology : Topology;
  CA_Files : gmap string files;
  CA_Deploy : gmap string string;
  CA_Checksums : gmap string string;
  CA_Signatures : gmap string string;
  CA_SigningPubPEM : option string;
  CA_Warnings : findings }.

Definition artifacts_step (r : Rendered) (signer : option ConfigSigner) (st : gmap string files * gmap string string * gmap string string) (node : Node)
  : result goerror (gmap string files * gmap string string * gmap string string) :=
  let '(fs, checks, sigs) := st in
  let! f := match BundleFiles r (Node_ID node) with Ok f => Ok f | Err e => Err (Wrapped ("build bundle files for node " +:+ Node_ID node)%string e) end in
  let canonical := Canonicalize f in
  let! sigs' := match signer with
                | None => Ok sigs
                | Some sg => match Signer_Sign sg canonical with
                             | Ok sig => Ok (<[ Node_ID node := Std_EncodeToString sig ]> sigs)
                             | Err d => Err (Wrapped ("sign bundle for node " +:+ Node_ID node)%string (Plain d))
                             end
                end in
  Ok (<[ Node_ID node := f ]> fs, <[ Node_ID node := canonical ]> checks, sigs').

Definition ArtifactsFromResult (r : Rendered) (warnings : findings) (signer : option ConfigSigner) : result goerror CompileArtifacts :=
  let! st := foldM (artifacts_step r signer) (∅, ∅, ∅) (Topology_Nodes (CR_Topology (RR_Result r))) in
  let '(fs, checks, sigs) := st in
  Ok (mkCompileArtifacts (CR_Topology (RR_Result r)) fs (RR_DeployScripts r) checks sigs (Signer_PublicKeyPEM <$> signer) warnings).

(** The façade itself runs without a deadline. *)
Definition localcompile_Compile (req : CompileRequest) : option (result compile_error CompileArtifacts) :=
  match CompileResultCtx Background req with
  | None => None
  | Some (Err e) => Some (Err e)
  | Some (Ok (r, warnings)) => match ArtifactsFromResult r warnings (Req_SigningKey req) with Ok a => Some (Ok a) | Err e => Some (Err (CompileFailed e)) end
  end.
End Facade.
