(* ===== verification/ExportProps.v ===== *)
(** * What an export guarantees

    Every exported bundle passes the verification of the agent, the façade that keeps
    the artifacts in memory agrees with the exporter, and with agent-held custody
    nothing of a private key reaches the output. *)

From stdpp Require Import base gmap strings list sorting.
From Stdlib Require Import ZArith Lia Ascii.
From S2P Require Import Prelude GoLib GoSha GoNet Model LinkID Allocator PeersAlloc Peers Compiler CompilerProps Findings Pipeline PipelineProps StoreTypes GoText GoBase64 AuditLog TrustList Bundle BundleProps AgentRun Renderer Export.

Local Open Scope Z_scope.
Local Open Scope go_scope.

(** ** Acceptance *)

Section Accept.
Context `{Crypto} `{Codec}.

Lemma check_files_count (f : files) l n :
  Forall (fun e : string * string => exists content, f !! e.1 = Some content /\ sha256_hex content = e.2) l ->
  foldM (check_file f) n l = Ok (n + Z.of_nat (length l)).
Proof.
  intros Hl. revert n. induction Hl as [|e l (c & Hc & Hd) _ IH]; intros n; [by rewrite Z.add_0_r|].
  cbn [foldM]. unfold check_file at 1. rewrite Hc, Hd, String.eqb_refl. cbn [rbind]. rewrite IH. cbn [length]. f_equal. lia.
Qed.

(** A bundle that carries the members with their canonical checksums is accepted. *)
Record sealed (members f : files) : Prop := {
  sl_checksums : f !! "checksums.sha256" = Some (Canonicalize members);
  sl_members : members ⊆ f;
  sl_plain : forall path content, members !! path = Some content -> plain_path path;
  sl_install : is_Some (members !! "install.sh");
  sl_optional : forall path, path ∈ ["artifacts.json"; policyFileName; policySuccessorFileName] -> f !! path = members !! path;
  sl_one_policy : members !! policyFileName = None \/ members !! policySuccessorFileName = None }.

Lemma VerifyBundle_accepts members f pinned signed :
  sealed members f -> verify_signature f (Canonicalize members) pinned = Ok signed -> VerifyBundle f pinned = Ok (mkVerify signed (Z.of_nat (size members))).
Proof.
  intros [Hck Hsub Hplain Hin Hopt Hone] Hsig. unfold VerifyBundle. rewrite Hck, checksums_round_trip; [|intros ->; by destruct Hin|done]. cbn [rbind].
  assert (present f policyFileName && present f policySuccessorFileName = false) as ->.
  { unfold present. rewrite !Hopt by set_solver. destruct Hone as [->| ->]; [done|]. by rewrite andb_comm. }
  rewrite Hsig. cbn [rbind]. rewrite check_files_count.
  - cbn [rbind]. rewrite length_map_to_list, map_size_fmap. assert (is_Some (f !! "install.sh")) as Hf by (destruct Hin as [c Hc]; exists c; by eapply lookup_weaken).
    unfold present at 1 2. rewrite lookup_fmap, !bool_decide_eq_true_2 by (rewrite ?fmap_is_Some; done). cbn [negb].
    assert (forall path, path ∈ ["artifacts.json"; policyFileName; policySuccessorFileName] -> covered_if_present f (sha256_hex <$> members) path = Ok tt) as Hcov.
    { intros path Hp. unfold covered_if_present, present. rewrite Hopt, lookup_fmap by done. destruct (members !! path); done. }
    rewrite !Hcov by set_solver. done.
  - apply Forall_forall. intros [path d] Hpd%elem_of_map_to_list. rewrite lookup_fmap in Hpd. apply fmap_Some in Hpd as (c & Hc & ->).
    exists c. split; [by eapply lookup_weaken|done].
Qed.
End Accept.

(** ** The members of a bundle *)

(** The names that the exporter and the controller add beside the members. *)
Definition added_names : list string := ["checksums.sha256"; "bundle.sig"; "signing-pubkey.pem"; "manifest.json"; "trustlist.json"; "trustlist.sig"]%string.

Lemma lookup_put_some_eq p o f : put_some p o f !! p = match o with Some c => Some c | None => f !! p end.
Proof. destruct o; cbn [put_some]; [by rewrite lookup_insert_eq|done]. Qed.
Lemma lookup_put_some_ne p q o f : p <> q -> put_some p o f !! q = f !! q.
Proof. intros Hne. destruct o; cbn [put_some]; [by rewrite lookup_insert_ne|done]. Qed.

Lemma prefix_app p s : has_prefix p (p +:+ s) = true.
Proof. unfold has_prefix. induction p as [|c p IH]; [by destruct s|]. rewrite append_cons. cbn [String.prefix]. by destruct (ascii_dec c c). Qed.

Lemma wg_files_lookup id (configs : gmap string string) q :
  has_prefix "wireguard/" q = false -> (list_to_map (omap (wg_file id) (map_to_list configs)) : files) !! q = None.
Proof.
  intros Hq. apply not_elem_of_list_to_map_1. rewrite list_elem_of_fmap. intros ([k c] & -> & (e & He & Hin)%list_elem_of_omap).
  unfold wg_file in Hin. destruct (str_cut _ _) as [[owner iface]|]; [|done]. destruct (String.eqb owner id); [|done]. injection Hin as <- _. cbn [fst] in Hq. by rewrite prefix_app in Hq.
Qed.

Ltac lookup_members := repeat (rewrite lookup_put_some_eq || rewrite lookup_put_some_ne by discriminate); rewrite ?wg_files_lookup by reflexivity.

Lemma BundleFiles_facts r id f :
  BundleFiles r id = Ok f ->
  f !! "install.sh" = RR_InstallScripts r !! id /\ (forall q, q ∈ added_names -> f !! q = None) /\
  (f !! policyFileName = None \/ f !! policySuccessorFileName = None).
Proof.
  unfold BundleFiles. set (policy := nonempty_some (_ !! _)). set (successor := nonempty_some (RR_TelemetrySuccessorPolicyJSON r !! id)).
  destruct (bool_decide (is_Some policy) && bool_decide (is_Some successor)) eqn:Hb; [done|]. cbn zeta. intros [= <-]. split_and!.
  - lookup_members. by destruct (RR_InstallScripts r !! id).
  - intros q Hq. unfold added_names in Hq. repeat (apply elem_of_cons in Hq as [->|Hq]; [by lookup_members|]). by apply elem_of_nil in Hq.
  - unfold policyFileName, policySuccessorFileName. lookup_members. destruct (RR_AgentHeld r); [|by left]. destruct policy; [|by left]. destruct successor; [done|by right].
Qed.

Lemma foldM_each {E A S} (f : S -> A -> result E S) l s s' : foldM f s l = Ok s' -> forall x, x ∈ l -> exists s1 s2, f s1 x = Ok s2.
Proof.
  revert s. induction l as [|y l IH]; intros s Hf x Hx; [by apply elem_of_nil in Hx|]. cbn [foldM] in Hf. apply rbind_Ok_inv in Hf as (s1 & Hs & Hf).
  apply elem_of_cons in Hx as [->|Hx]; [by eauto|by eapply IH].
Qed.

Section Exported.
Context `{Crypto} `{Codec} `{Scripts}.

Lemma valid_paths_plain f u : validateBundleMemberPaths f = Ok u -> forall path content, f !! path = Some content -> plain_path path.
Proof.
  unfold validateBundleMemberPaths. intros (seen & Hs & _)%rbind_Ok_inv path content Hp.
  apply elem_of_map_to_list in Hp. destruct (foldM_each _ _ _ _ Hs _ Hp) as (s1 & s2 & Hm). unfold member_path in Hm. cbn [fst] in Hm.
  destruct (String.eqb path "" || _ || _ || _) eqn:Hb; [done|]. rewrite !orb_false_iff in Hb. destruct Hb as (((Hne & _) & _) & Hbytes). split.
  - by apply String.eqb_neq.
  - destruct (has_byte newline_byte path) eqn:Hn; [|done]. cbn [existsb] in Hbytes. unfold newline_byte in Hn. rewrite Hn in Hbytes. by rewrite !orb_true_r in Hbytes.
Qed.

(** The signature that the exporter puts beside the checksums. *)
Definition signature_files (signer : option ConfigSigner) (canonical : string) (f : files) : Prop :=
  match signer with
  | None => f !! "bundle.sig" = None
  | Some sg => exists sig, Signer_Sign sg canonical = Ok sig /\ f !! "bundle.sig" = Some (Std_EncodeToString sig +:+ newline_str)%string /\
                           f !! "signing-pubkey.pem" = Some (Signer_PublicKeyPEM sg)
  end.

Lemma wrap_code_Ok {A} code name (m : result goerror A) a : wrap_code code name m = Ok a -> m = Ok a.
Proof. by destruct m. Qed.

(** The four files of the exporter leave every other name alone. *)
Lemma sign_files_Ok signer canonical f out :
  sign_files signer canonical f = Ok out -> f !! "bundle.sig" = None ->
  signature_files signer canonical out.1 /\ (forall q, q <> "bundle.sig" -> q <> "signing-pubkey.pem" -> out.1 !! q = f !! q).
Proof.
  destruct signer as [sg|]; cbn [sign_files signature_files].
  - destruct (Signer_Sign sg canonical) as [sig|] eqn:Hs; [|done]. intros [= <-] _. cbn [fst]. split.
    + exists sig. split; [done|]. by rewrite lookup_insert_ne, !lookup_insert_eq by done.
    + intros q Hq Hq'. by rewrite !lookup_insert_ne by done.
  - by intros [= <-].
Qed.

(** An exported directory: its members as they are, and the files about them. *)
Record exported (signer : option ConfigSigner) (members f : files) : Prop := {
  ex_members : forall q, q ∉ added_names -> f !! q = members !! q;
  ex_added : forall q, q ∈ added_names -> members !! q = None;
  ex_plain : forall path content, members !! path = Some content -> plain_path path;
  ex_one_policy : members !! policyFileName = None \/ members !! policySuccessorFileName = None;
  ex_checksums : f !! "checksums.sha256" = Some (Canonicalize members);
  ex_signature : signature_files signer (Canonicalize members) f }.

Lemma export_node_exported r signer node f :
  export_node r signer node = Ok f -> exists members, BundleFiles r (Node_ID node) = Ok members /\ exported signer members f.
Proof.
  unfold export_node. intros (members & Hm%wrap_code_Ok & Hf)%rbind_Ok_inv. apply rbind_Ok_inv in Hf as (u & Hp%wrap_code_Ok & Hf).
  apply rbind_Ok_inv in Hf as ([f1 extra] & Hs & Hf). cbn [fst snd] in Hf. injection Hf as <-. exists members. split; [done|].
  destruct (BundleFiles_facts _ _ _ Hm) as (Hin & Hadd & Hpol).
  apply sign_files_Ok in Hs as [Hsig Hrest]; [cbn [fst] in *|rewrite lookup_insert_ne by done; apply Hadd; set_solver].
  split; [|done|by apply (valid_paths_plain _ _ Hp)|done| |].
  - intros q Hq. unfold added_names in Hq. by rewrite lookup_insert_ne, Hrest, lookup_insert_ne by set_solver.
  - by rewrite lookup_insert_ne, Hrest, lookup_insert_eq by done.
  - destruct signer as [sg|]; cbn [signature_files] in *.
    + destruct Hsig as (sig & ? & ? & ?). exists sig. by rewrite !lookup_insert_ne by done.
    + by rewrite lookup_insert_ne by done.
Qed.

(** Files under the names of the manifest may join an exported directory. *)
Lemma exported_sealed signer members f f' :
  exported signer members f -> is_Some (members !! "install.sh") -> (forall q, q <> "trustlist.json" -> q <> "trustlist.sig" -> f' !! q = f !! q) -> sealed members f'.
Proof.
  intros [Hmem Hadd Hplain Hpol Hck _] Hin Hf'. split; [|apply map_subseteq_spec| | | |]; try done.
  - by rewrite Hf'.
  - intros path c Hc. assert (path ∉ added_names) as Hn by (intros Hbad; by rewrite Hadd in Hc). rewrite Hf', Hmem; [done|done|..]; intros ->; apply Hn; unfold added_names; set_solver.
  - intros path Hpath. assert (path ∉ added_names) as Hn by (revert Hpath; unfold added_names, policyFileName, policySuccessorFileName; clear; set_solver).
    rewrite Hf'; [by apply Hmem|..]; intros ->; apply Hn; unfold added_names; set_solver.
Qed.

(** What is asked of a signing key: it signs bytes that verify under its own public
    key; the agent pins that key or none. *)
Definition signer_verifies (signer : option ConfigSigner) (pinned : string) : Prop :=
  match signer with
  | None => pinned = ""%string
  | Some sg => (pinned = "" \/ pinned = Signer_PublicKeyPEM sg)%string /\
      exists pub, parse_ed25519_pem (Signer_PublicKeyPEM sg) = Some pub /\
        forall msg sig, Signer_Sign sg msg = Ok sig -> Forall is_byte sig /\ sig_Verify (bytes_of msg) sig pub = true
  end.

Lemma signature_accepted signer pinned canonical f :
  signer_verifies signer pinned -> signature_files signer canonical f -> verify_signature f canonical pinned = Ok (bool_decide (is_Some signer)).
Proof.
  unfold signer_verifies, signature_files, verify_signature. destruct signer as [sg|].
  - intros (Hpin & pub & Hpub & Hver) (sig & Hs & -> & ->). destruct (Hver _ _ Hs) as [Hb Hv]. unfold newline_str. rewrite Std_line by done.
    assert ((if String.eqb pinned "" then Signer_PublicKeyPEM sg else pinned) = Signer_PublicKeyPEM sg) as ->.
    { destruct Hpin as [->| ->]; [done|]. by destruct (String.eqb_spec (Signer_PublicKeyPEM sg) ""). }
    unfold parsePinnedPublicKey. rewrite Hpub. cbn [rbind]. by rewrite Hv.
  - intros -> ->. by destruct (f !! "signing-pubkey.pem").
Qed.

(** *** Every rendered node has an install script and an exported bundle *)

Lemma foldM_grows {E A S} (f : S -> A -> result E S) (P : A -> S -> Prop) l s s' :
  (forall s x s', f s x = Ok s' -> P x s') -> (forall s x s' y, f s x = Ok s' -> P y s -> P y s') -> foldM f s l = Ok s' -> forall x, x ∈ l -> P x s'.
Proof.
  intros Hnew Hold. revert s s'. induction l as [|y l IH] using rev_ind; intros s s' Hf x Hx; [by apply elem_of_nil in Hx|]. rewrite foldM_app in Hf.
  apply rbind_Ok_inv in Hf as (s1 & Hs1 & Hf). cbn [foldM] in Hf. apply rbind_Ok_inv in Hf as (s2 & Hs2 & [= <-]).
  apply elem_of_app in Hx as [Hx| ->%list_elem_of_singleton]; [|by eapply Hnew]. eapply Hold; [done|]. by eapply IH.
Qed.

Lemma AllWith_scripts cr at_ keys fs signer r :
  AllWith cr at_ keys fs signer = Ok r -> RR_Result r = cr /\ forall n, n ∈ Topology_Nodes (CR_Topology cr) -> is_Some (RR_InstallScripts r !! Node_ID n).
Proof.
  unfold AllWith. intros (wg & _ & Hr)%rbind_Ok_inv. cbn zeta in Hr. apply rbind_Ok_inv in Hr as (m & Hm & Hr). apply rbind_Ok_inv in Hr as (d & _ & [= <-]).
  split; [done|]. cbn [RR_InstallScripts]. eapply (foldM_grows _ (fun n acc => is_Some (nm_scripts acc !! Node_ID n))); [..|exact Hm].
  - intros s x s' Hs. unfold render_members in Hs. cbn zeta in Hs. apply rbind_Ok_inv in Hs as (? & _ & Hs). apply rbind_Ok_inv in Hs as (? & _ & [= <-]).
    cbn [nm_scripts]. by rewrite lookup_insert_eq.
  - intros s x s' y Hs Hy. unfold render_members in Hs. cbn zeta in Hs. apply rbind_Ok_inv in Hs as (? & _ & Hs). apply rbind_Ok_inv in Hs as (? & _ & [= <-]).
    cbn [nm_scripts]. destruct (decide (Node_ID x = Node_ID y)) as [->|]; [by rewrite lookup_insert_eq|by rewrite lookup_insert_ne].
Qed.

(** The exporter visits every node and never writes a directory twice. *)
Lemma ExportWithSigner_nodes r signer out :
  ExportWithSigner r signer = Ok out ->
  forall n, n ∈ Topology_Nodes (CR_Topology (RR_Result r)) -> exists f, out !! Node_ID n = Some f /\ export_node r signer n = Ok f.
Proof.
  unfold ExportWithSigner. destruct (negb _); [done|]. intros (st & Hst & [= <-])%rbind_Ok_inv n Hn.
  assert (is_Some (st.1 !! PortableNodeIDKey (Node_ID n)) /\ exists f, st.2 !! Node_ID n = Some f /\ export_node r signer n = Ok f) as [_ ?]; [|done].
  revert n Hn. eapply (foldM_grows _ (fun n st => is_Some (st.1 !! PortableNodeIDKey (Node_ID n)) /\ exists f, st.2 !! Node_ID n = Some f /\ export_node r signer n = Ok f));
    [intros s x s' Hs|intros s x s' y Hs Hy|exact Hst]; unfold export_step in Hs; apply rbind_Ok_inv in Hs as (u & _ & Hs);
    destruct (s.1 !! PortableNodeIDKey (Node_ID x)) eqn:Hx; try done; apply rbind_Ok_inv in Hs as (f & Hf & [= <-]); cbn [fst snd].
  - split; [by rewrite lookup_insert_eq|]. exists f. by rewrite lookup_insert_eq.
  - destruct Hy as (Hk & g & Hg & Hg'). assert (PortableNodeIDKey (Node_ID x) <> PortableNodeIDKey (Node_ID y)) as Hne by (intros E; rewrite E in Hx; rewrite Hx in Hk; by destruct Hk).
    rewrite lookup_insert_ne by done. split; [done|]. exists g. rewrite lookup_insert_ne by (by intros E; rewrite E in Hne). done.
Qed.

(** A directory belongs to a node. *)
Lemma ExportWithSigner_ids r signer out id f :
  ExportWithSigner r signer = Ok out -> out !! id = Some f -> exists n, n ∈ Topology_Nodes (CR_Topology (RR_Result r)) /\ Node_ID n = id.
Proof.
  unfold ExportWithSigner. destruct (negb _); [done|]. intros (st & Hst & [= <-])%rbind_Ok_inv. revert f.
  eapply (foldM_inv (fun pre st => forall f, st.2 !! id = Some f -> exists n, n ∈ pre /\ Node_ID n = id) (export_step r signer)); [| |exact Hst].
  - intros f. cbn [snd]. by rewrite lookup_empty.
  - intros pre x post s1 s2 _ HP Hs f. unfold export_step in Hs. apply rbind_Ok_inv in Hs as (u & _ & Hs). destruct (s1.1 !! _); [done|].
    apply rbind_Ok_inv in Hs as (g & _ & [= <-]). cbn [snd]. intros [[<- _]|[_ Hf]]%lookup_insert_Some; [exists x; split; [set_solver|done]|].
    destruct (HP f Hf) as (m & Hm & Hid). exists m. split; [set_solver|done].
Qed.

(** *** The theorems *)

Lemma CompileResultCtx_scripts probe ctx req r w :
  CompileResultCtx probe ctx req = Some (Ok (r, w)) -> forall n, n ∈ Topology_Nodes (CR_Topology (RR_Result r)) -> is_Some (RR_InstallScripts r !! Node_ID n).
Proof.
  unfold CompileResultCtx. destruct (GenerateKeysWith _ _ _) as [[topo keys]|]; [|done]. destruct (CompileAt _ _ _ _ _ _).2 as [[[cr ws]|]|]; try done.
  destruct (AllWith _ _ _ _ _) as [r0|] eqn:Ha; [|done]. intros [= <- <-]. apply AllWith_scripts in Ha as [Hcr Hs]. rewrite <- Hcr in Hs. destruct r0; exact Hs.
Qed.

Lemma exported_verifies probe ctx req r w out pinned n :
  CompileResultCtx probe ctx req = Some (Ok (r, w)) -> ExportWithSigner r (Req_SigningKey req) = Ok out -> signer_verifies (Req_SigningKey req) pinned ->
  n ∈ Topology_Nodes (CR_Topology (RR_Result r)) ->
  exists f members, out !! Node_ID n = Some f /\ BundleFiles r (Node_ID n) = Ok members /\ exported (Req_SigningKey req) members f /\ members ⊆ f /\
    VerifyBundle f pinned = Ok (mkVerify (bool_decide (is_Some (Req_SigningKey req))) (Z.of_nat (size members))).
Proof.
  intros Hc Hx Hs Hn. destruct (ExportWithSigner_nodes _ _ _ Hx n Hn) as (f & Hf & Hnode). destruct (export_node_exported _ _ _ _ Hnode) as (members & Hm & He).
  destruct (BundleFiles_facts _ _ _ Hm) as (Hin & _). assert (sealed members f) as Hse.
  { eapply exported_sealed; [done| |done]. rewrite Hin. by eapply CompileResultCtx_scripts. }
  exists f, members. split_and!; [done|done|done|apply Hse|]. apply VerifyBundle_accepts; [done|]. apply signature_accepted; [done|apply He].
Qed.

(** C13. Exported bundles verify.  Every node of a successful compile has an exported
    directory; it holds the members of the node's bundle unchanged, the verification
    of the agent accepts it, signed exactly when a signing key is configured (under
    that key or, with none pinned, under the key of the bundle), and every member is
    covered by the checksums. *)
Theorem exported_bundles_verify probe ctx req r w out pinned :
  CompileResultCtx probe ctx req = Some (Ok (r, w)) -> ExportWithSigner r (Req_SigningKey req) = Ok out -> signer_verifies (Req_SigningKey req) pinned ->
  forall n, n ∈ Topology_Nodes (CR_Topology (RR_Result r)) ->
  exists f members, out !! Node_ID n = Some f /\ BundleFiles r (Node_ID n) = Ok members /\ members ⊆ f /\
    VerifyBundle f pinned = Ok (mkVerify (bool_decide (is_Some (Req_SigningKey req))) (Z.of_nat (size members))).
Proof.
  intros Hc Hx Hs n Hn. destruct (exported_verifies _ _ _ _ _ _ _ _ Hc Hx Hs Hn) as (f & members & Hf & Hm & _ & Hsub & Hv). by exists f, members.
Qed.

(** The in-memory artifacts and the exported tree, node by node. *)
Definition same_node (artifacts : gmap string files * gmap string string * gmap string string) (id : string) (f : option files) : Prop :=
  let '(fs, checks, sigs) := artifacts in
  match f with
  | None => fs !! id = None /\ checks !! id = None /\ sigs !! id = None
  | Some f => fs !! id = Some (filter (fun e => e.1 ∉ added_names) f) /\ checks !! id = f !! "checksums.sha256" /\
              f !! "bundle.sig" = (fun s => s +:+ newline_str)%string <$> sigs !! id
  end.

Lemma foldM_sim {E E' A S T} (R : S -> T -> Prop) (f : S -> A -> result E S) (g : T -> A -> result E' T) l s t s' :
  (forall x s t s', R s t -> f s x = Ok s' -> exists t', g t x = Ok t' /\ R s' t') -> R s t -> foldM f s l = Ok s' -> exists t', foldM g t l = Ok t' /\ R s' t'.
Proof.
  intros Hstep. revert s t. induction l as [|x l IH]; intros s t HR Hf; [injection Hf as <-; by exists t|]. cbn [foldM] in *.
  apply rbind_Ok_inv in Hf as (s1 & Hs1 & Hf). destruct (Hstep _ _ _ _ HR Hs1) as (t1 & -> & HR1). by apply (IH s1).
Qed.

Lemma exported_members signer members f : exported signer members f -> filter (fun e : string * string => e.1 ∉ added_names) f = members.
Proof.
  intros [Hmem Hadd _ _ _ _]. apply map_eq. intros q. destruct (decide (q ∈ added_names)) as [Hq|Hq].
  - rewrite Hadd by done. apply map_lookup_filter_None. right. intros c _ Hn. by apply Hn.
  - rewrite <- (Hmem q Hq). destruct (f !! q) as [c|] eqn:Hc; [by apply map_lookup_filter_Some|]. apply map_lookup_filter_None. by left.
Qed.

Definition same_state (signer : option ConfigSigner) (st : gmap string string * gmap string files) (t : gmap string files * gmap string string * gmap string string) : Prop :=
  (signer = None -> t.2 = ∅) /\ forall id, same_node t id (st.2 !! id).

Lemma artifacts_step_agrees r signer node st t st' :
  same_state signer st t -> export_step r signer st node = Ok st' -> exists t', artifacts_step r signer t node = Ok t' /\ same_state signer st' t'.
Proof.
  destruct t as [[fs checks] sigs]. intros [Hnone Hsame] Hs. unfold export_step in Hs. apply rbind_Ok_inv in Hs as (u & _ & Hs). destruct (st.1 !! _); [done|].
  apply rbind_Ok_inv in Hs as (f & Hf & [= <-]). destruct (export_node_exported _ _ _ _ Hf) as (members & Hm & He). unfold artifacts_step, same_state. rewrite Hm. cbn [rbind fst snd] in *.
  pose proof (exported_members _ _ _ He) as Hfilter. destruct He as [_ _ _ _ Hck Hsig]. unfold signature_files in Hsig.
  destruct signer as [sg|]; [destruct Hsig as (sig & -> & Hsf & _)|specialize (Hnone eq_refl)]; cbn [rbind]; eexists; (split; [reflexivity|split; [done|]]); intros id;
    (destruct (decide (id = Node_ID node)) as [->|Hne];
     [rewrite lookup_insert_eq; cbn [same_node]; rewrite !lookup_insert_eq|rewrite lookup_insert_ne by done; specialize (Hsame id); cbn [same_node] in *; by rewrite !lookup_insert_ne by done]).
  - by rewrite Hfilter, Hck, Hsf.
  - by rewrite Hfilter, Hck, Hsig, Hnone, lookup_empty.
Qed.

(** C29. The two delivery paths agree.  Whenever the export of a result succeeds, the
    façade that keeps the artifacts in memory succeeds too, covers the same nodes, and
    holds for each the exported members, the exported checksums and the exported
    signature less its line break; the published key is that of the signer. *)
Theorem facade_agrees_with_export r w signer out :
  ExportWithSigner r signer = Ok out ->
  exists a, ArtifactsFromResult r w signer = Ok a /\ CA_SigningPubPEM a = Signer_PublicKeyPEM <$> signer /\ CA_Warnings a = w /\
    forall id, same_node (CA_Files a, CA_Checksums a, CA_Signatures a) id (out !! id).
Proof.
  unfold ExportWithSigner. destruct (negb _); [done|]. intros (st & Hst & [= <-])%rbind_Ok_inv.
  assert (same_state signer (∅, ∅) (∅, ∅, ∅)) as H0' by (split; [done|intros id; cbn [snd]; by rewrite lookup_empty]).
  destruct (foldM_sim (same_state signer) (export_step r signer) (artifacts_step r signer) _ _ _ _ (artifacts_step_agrees r signer) H0' Hst) as ([[fs checks] sigs] & Ha & _ & Hsame).
  unfold ArtifactsFromResult. rewrite Ha. cbn [rbind]. eexists. split; [reflexivity|]. done.
Qed.
End Exported.

(** ** Private keys *)

(** The public key that an agent-held compile takes from a node. *)
Definition public_of (kg : Keygen) (n : Node) : result goerror string :=
  if negb (String.eqb (Node_WireGuardPublicKey n) "") then Ok (Node_WireGuardPublicKey n)
  else if String.eqb (Node_WireGuardPrivateKey n) "" then Err (Coded "CodeKeygenMissingPubkey" [("node", Node_ID n)]%string)
  else match DerivePublic kg (Node_WireGuardPrivateKey n) with Ok pub => Ok pub | Err d => Err (key_error "CodeKeygenPrivkeyParse" n d) end.

(** Two nodes that differ at most in how their key pair is written down. *)
Definition same_public (kg : Keygen) (n n' : Node) : Prop := set_keys "" "" n = set_keys "" "" n' /\ public_of kg n = public_of kg n'.

Lemma set_keys_absorb priv pub n n' : set_keys "" "" n = set_keys "" "" n' -> set_keys priv pub n = set_keys priv pub n'.
Proof. intros E. assert (forall m, set_keys priv pub m = set_keys priv pub (set_keys "" "" m)) as Habs by (by intros []). by rewrite (Habs n), (Habs n'), E. Qed.
Lemma set_keys_ID priv pub n : Node_ID (set_keys priv pub n) = Node_ID n.
Proof. by destruct n. Qed.

Lemma agent_held_keys kg calls n : node_keys AgentHeld kg calls n = (let! pub := public_of kg n in Ok (set_keys "" pub n, mkKeyPair PrivateKeyPlaceholder pub, calls)).
Proof. unfold node_keys, public_of. destruct (negb _); [done|]. destruct (String.eqb _ _); [done|]. by destruct (DerivePublic _ _). Qed.

Lemma agent_held_same kg calls n n' : same_public kg n n' -> node_keys AgentHeld kg calls n = node_keys AgentHeld kg calls n' /\ Node_ID n = Node_ID n'.
Proof.
  intros [He Hp]. split; [|by rewrite <- (set_keys_ID "" "" n), He, set_keys_ID]. rewrite !agent_held_keys, Hp. destruct (public_of kg n') as [pub|]; [|done].
  cbn [rbind]. by rewrite (set_keys_absorb "" pub n n').
Qed.

Definition with_nodes (nodes : list Node) (req : CompileRequest) : CompileRequest :=
  match req with mkRequest topo custody kg sk fs at_ res => mkRequest (set_Nodes nodes topo) custody kg sk fs at_ res end.

(** C19. Agent-held custody keeps private keys out.  The outcome of an agent-held
    compile is a function of the public keys: two requests whose nodes differ only in
    private key material (and in whether the public key is written down or derived)
    have the same rendered result, the same artifacts and the same error, whatever the
    private keys are.  A private key from which no public key derives counts by the error
    that says so ([same_public]). *)
Theorem agent_held_noninterference `{Scripts} probe ctx req nodes' :
  Req_Custody req = AgentHeld -> Forall2 (same_public (Req_Keygen req)) (Topology_Nodes (Req_Topology req)) nodes' ->
  CompileResultCtx probe ctx req = CompileResultCtx probe ctx (with_nodes nodes' req) /\
  localcompile_Compile probe req = localcompile_Compile probe (with_nodes nodes' req).
Proof.
  destruct req as [topo custody kg sk fs at_ res]. cbn [Req_Custody Req_Keygen Req_Topology]. intros -> Hn.
  assert (GenerateKeysWith topo AgentHeld kg = GenerateKeysWith (set_Nodes nodes' topo) AgentHeld kg) as Hk.
  { unfold GenerateKeysWith. destruct topo as [p d nodes e rp v]. cbn [set_Nodes Topology_Nodes] in *. generalize (@nil Node, ∅ : gmap string KeyPair, 0%nat).
    assert (forall st, foldM (keys_step AgentHeld kg) st nodes = foldM (keys_step AgentHeld kg) st nodes') as Hfold; [|intros st; by rewrite Hfold].
    induction Hn as [|n n' ns ns' Hnn _ IH]; intros st; [done|]. cbn [foldM]. destruct st as [[acc keys] calls]. unfold keys_step at 1 3.
    destruct (agent_held_same kg calls n n' Hnn) as [-> ->]. destruct (node_keys AgentHeld kg calls n') as [[[? ?] ?]|]; [|done]. cbn [rbind]. apply IH. }
  assert (forall ctx, CompileResultCtx probe ctx (mkRequest topo AgentHeld kg sk fs at_ res) = CompileResultCtx probe ctx (with_nodes nodes' (mkRequest topo AgentHeld kg sk fs at_ res))) as Hc.
  { intros c. unfold CompileResultCtx, with_nodes. cbn [Req_Topology Req_Custody Req_Keygen Req_Reserved Req_Fetch Req_CompiledAt Req_SigningKey]. by rewrite Hk. }
  split; [apply Hc|]. unfold localcompile_Compile. by rewrite Hc.
Qed.

(** ** A concrete fleet *)

Definition toy_scripts : Scripts := {|
  RenderInstallScriptSigned := fun n _ _ _ _ _ _ => Ok ("install " +:+ Node_ID n)%string;
  RenderClientInstallScriptSigned := fun n _ _ _ _ => Ok ("install client " +:+ Node_ID n)%string;
  RenderDeployScriptsForCustody := fun _ _ _ _ => Ok ("sh", "ps1")%string;
  policy_Marshal := fun _ => Ok ""%string;
  policy_MarshalSuccessor := fun _ _ => Ok "{}"%string;
  marshal_artifacts := fun _ => "{}"%string;
  marshal_bundleManifest := fun m => BM_NodeID m |}.

(** The public key is the digest of the private key. *)
Definition toy_public (priv : string) : string := Std_EncodeToString (sha256_sum (bytes_of priv)).
Definition toy_keygen : Keygen := {|
  DerivePublic := fun priv => Ok (toy_public priv);
  Generate := fun _ => Ok ("fresh"%string, toy_public "fresh");
  ParseAndNormalize := Ok |}.

Definition toy_signer : ConfigSigner :=
  mkSigner "signing key" (fun msg => Ok (toy_sign (sha256_sum (bytes_of "signing key")) (bytes_of msg))).

Definition ex_fetch : FetchSettings := mkFetch "" "" "" ∅ "" "" "" "" ∅ ∅.
Definition ex_request (pair : Node -> Node) : CompileRequest :=
  mkRequest (set_Nodes (pair <$> Topology_Nodes ex_compile_topo) ex_compile_topo) AgentHeld toy_keygen (Some toy_signer) ex_fetch 0 None.

Definition held (n : Node) : Node := set_keys "" (toy_public (Node_ID n)) n.
Definition rendered_of (o : option (result compile_error (Rendered * findings))) : Rendered :=
  match o with Some (Ok (r, [])) => r | _ => mkRendered ex_result 0 ∅ ∅ ∅ ∅ ∅ ∅ ∅ ∅ false end.
Definition exported_of (o : result goerror (gmap string files)) : gmap string files := match o with Ok out => out | Err _ => ∅ end.
Definition ex_rendered : Rendered := rendered_of (CompileResultCtx (H := toy_scripts) ex_probe Background (ex_request held)).
Definition ex_exported : gmap string files := exported_of (ExportWithSigner (H := toy_codec) (H0 := toy_scripts) ex_rendered (Some toy_signer)).

Lemma ex_rendered_eq : CompileResultCtx (H := toy_scripts) ex_probe Background (ex_request held) = Some (Ok (ex_rendered, [])).
Proof.
  assert (match CompileResultCtx (H := toy_scripts) ex_probe Background (ex_request held) with Some (Ok (_, [])) => true | _ => false end = true) as Hb by (vm_compute; reflexivity).
  unfold ex_rendered. by destruct (CompileResultCtx _ _ _) as [[[r []]|]|].
Qed.
Lemma ex_exported_eq : ExportWithSigner (H := toy_codec) (H0 := toy_scripts) ex_rendered (Some toy_signer) = Ok ex_exported.
Proof.
  assert (match ExportWithSigner (H := toy_codec) (H0 := toy_scripts) ex_rendered (Some toy_signer) with Ok _ => true | Err _ => false end = true) as Hb by (vm_compute; reflexivity).
  unfold ex_exported. by destruct (ExportWithSigner _ _).
Qed.
Lemma toy_signer_verifies : signer_verifies (H := toy_crypto) (Some toy_signer) "signing key".
Proof.
  split; [by right|]. exists (sha256_sum (bytes_of "signing key")). split; [reflexivity|]. intros msg sig [= <-]. unfold toy_sign. split.
  - apply Forall_app. split; apply sha256_sum_bytes.
  - unfold sig_Verify. rewrite length_app, !length_sha256_sum. cbn [Nat.eqb Nat.add negb orb]. cbv delta [ed25519_Verify toy_crypto] beta iota. by apply bool_decide_eq_true_2.
Qed.

Definition ex_rendered_a : Node := default (ex_node "" "" "" "" (ex_caps true true)) (head (Topology_Nodes (CR_Topology (RR_Result ex_rendered)))).
Lemma ex_rendered_has_a : ex_rendered_a ∈ Topology_Nodes (CR_Topology (RR_Result ex_rendered)).
Proof.
  assert (match Topology_Nodes (CR_Topology (RR_Result ex_rendered)) with [] => false | _ => true end = true) as Hb by (vm_compute; reflexivity).
  unfold ex_rendered_a. destruct (Topology_Nodes _) as [|n ns]; [done|]. by left.
Qed.

Lemma exported_bundles_verify_witness :
  exists f members, ex_exported !! Node_ID ex_rendered_a = Some f /\ BundleFiles ex_rendered (Node_ID ex_rendered_a) = Ok members /\ members ⊆ f /\
    VerifyBundle (H := toy_crypto) f "signing key" = Ok (mkVerify true (Z.of_nat (size members))).
Proof.
  destruct (@exported_bundles_verify toy_crypto toy_codec toy_scripts ex_probe Background (ex_request held) ex_rendered [] ex_exported "signing key"
              ex_rendered_eq ex_exported_eq toy_signer_verifies ex_rendered_a ex_rendered_has_a)
    as (f & members & Hf & Hm & Hsub & Hv).
  exists f, members. split_and!; [exact Hf|exact Hm|exact Hsub|exact Hv].
Defined.

Lemma facade_agrees_with_export_witness :
  exists a, ArtifactsFromResult ex_rendered [] (Some toy_signer) = Ok a /\ is_Some (CA_Files a !! "a"%string).
Proof.
  destruct (@facade_agrees_with_export toy_codec toy_scripts ex_rendered [] (Some toy_signer) ex_exported ex_exported_eq) as (a & Ha & _ & _ & Hs).
  exists a. split; [exact Ha|]. specialize (Hs "a"%string). 
  assert (bool_decide (is_Some (ex_exported !! "a"%string)) = true) as Hin by (vm_compute; reflexivity).
  destruct (ex_exported !! "a"%string) as [f|]; [|done]. destruct Hs as (-> & _). done.
Defined.

Lemma agent_held_noninterference_witness :
  CompileResultCtx (H := toy_scripts) ex_probe Background (ex_request held) =
  CompileResultCtx (H := toy_scripts) ex_probe Background (ex_request (fun n => set_keys (Node_ID n) "" n)).
Proof.
  apply (@agent_held_noninterference toy_scripts ex_probe Background (ex_request held) ((fun n => set_keys (Node_ID n) "" n) <$> Topology_Nodes ex_compile_topo)); [reflexivity|].
  repeat constructor.
Defined.
