(* ===== verification/Release.v ===== *)
(** * The keystone gate of a release ([internal/controller/keystone.go],
      [trustlist_sign.go], [compile_promote.go])

    The membership manifest of a stage with its epoch, the signing anchor, the
    installation of the operator's signature and the gate in front of a promotion.
    The clock and the rotation switch of the environment are arguments. *)

From stdpp Require Import base gmap strings list sorting.
From Stdlib Require Import ZArith Lia Ascii.
From S2P Require Import Prelude GoLib GoSha LinkID GoText GoBase64 TrustList Bundle StoreTypes StoreMonad StoreCore StoreLogic StoreStage AuditLog CoreState Keystone Export.

Local Open Scope Z_scope.
Local Open Scope go_scope.
Local Open Scope store_scope.

(** [json.Marshal] of a signature. *)
Class SignatureJSON := { marshal_signed : SignedTrustList -> string }.

#[local] Abbreviation Manifest := TrustList.TrustList.
#[local] Abbreviation Manifest_Epoch := TrustList.TL_Epoch.
#[local] Abbreviation Stored_Epoch := StoreTypes.TL_Epoch.

(** ** Membership *)

Definition bundleSHA256 (checksums : string) : string := sha256_hex checksums.

Record memberKey := mkMemberKey { mk_wgPublicKey : string; mk_bundleSHA256 : string }.
#[export] Instance memberKey_eq_dec : EqDecision memberKey.
Proof. solve_decision. Defined.

(** The last member of an id wins. *)
Definition members_map (ms : list Member) : gmap string memberKey :=
  foldl (fun m x => <[ M_NodeID x := mkMemberKey (M_WGPublicKey x) (M_BundleSHA256 x) ]> m) ∅ ms.

Definition sameMembership (a b : gmap string memberKey) : bool := bool_decide (a = b).

Definition stage_event (now : Z) (action nodeID : string) : AuditEntry := mkAuditEntry 0 now "operator" action nodeID "" "" "".

Definition coded_error (code : string) : store_error := CodedError code [].

(** The members of a stage, in the order of the map. *)
Definition stage_members (digests pubKeys : gmap string string) : list Member :=
  (fun e : string * string => mkMember e.1 (default ""%string (pubKeys !! e.1)) e.2) <$> map_to_list digests.

Section Release.
Context `{Crypto} `{Codec}.

Definition manifestMembers (trustListJSON : string) : result store_error (gmap string memberKey) :=
  match unmarshal_trustlist trustListJSON with
  | None => Err (PlainError "controller: parsing stored manifest")
  | Some tl => Ok (members_map (TL_Members tl))
  end.

Definition pinFromOperatorCredential (c : OperatorCredential) : result store_error PinnedCredential :=
  let pin pub es := mkPin (OC_Alg c) (OC_CredentialID c) pub es (OC_RPID c) (OC_Origin c) in
  if String.eqb (OC_Alg c) AlgEd25519 || String.eqb (OC_Alg c) AlgWebAuthnEdDSA then
    match ParseEd25519PinPEM (OC_PublicKeyPEM c) with
    | Ok pub => Ok (pin pub None)
    | Err _ => Err (PlainError "trustlist: ed25519 credential")
    end
  else if String.eqb (OC_Alg c) AlgWebAuthnES256 then
    match ParseES256Pin (OC_PublicKeyPEM c) with
    | Ok pub => Ok (pin [] (Some pub))
    | Err _ => Err (PlainError "trustlist: es256 credential")
    end
  else Err (PlainError ("controller: unsupported operator credential algorithm " +:+ OC_Alg c)).

Definition KeystoneFingerprint (c : OperatorCredential) : result store_error string :=
  let! _ := pinFromOperatorCredential c in
  match public_key_der (OC_PublicKeyPEM c) with
  | None => Err (PlainError "controller: marshalling operator credential public key")
  | Some der => Ok (hex_encode (sha256_sum der))
  end.

Definition SameKeystoneCredential (a b : OperatorCredential) : result store_error bool :=
  if negb (String.eqb (OC_Alg a) (OC_Alg b)) then Ok false
  else
    let! fpA := KeystoneFingerprint a in
    let! fpB := KeystoneFingerprint b in
    if negb (String.eqb fpA fpB) then Ok false
    else if String.eqb (OC_Alg a) AlgWebAuthnES256 || String.eqb (OC_Alg a) AlgWebAuthnEdDSA then
      Ok (String.eqb (OC_RPID a) (OC_RPID b) && String.eqb (OC_Origin a) (OC_Origin b) && String.eqb (OC_CredentialID a) (OC_CredentialID b))
    else Ok true.

(** A fault of the stored bytes, and whether the signature verifies. *)
Definition verifyStoredAgainstPin (stored : StoredTrustList) (cred : OperatorCredential) : result store_error (result tl_error unit) :=
  match unmarshal_trustlist (TL_TrustListJSON stored) with
  | None => Err (PlainError "controller: parsing stored manifest")
  | Some manifest =>
      match unmarshal_signed (TL_SignatureJSON stored) with
      | None => Err (PlainError "controller: parsing stored signature")
      | Some signed => let! pin := pinFromOperatorCredential cred in Ok (Verify manifest signed pin)
      end
  end.

Section Store.
Context {S : Type} `{KVBackend S} `{AuditBackend S}.

(** Best effort: the result is dropped. *)
Definition appendStageAudit (ctx : option string) (t : TenantID) (now : Z) (action nodeID : string) : Act S unit :=
  ignore (AppendAudit ctx t (stage_event now action nodeID)).

Definition enforceSigningAnchorWithSigner (ctx : option string) (t : TenantID) (now : Z) (signer : option ConfigSigner) (rotate : bool) : Act S unit :=
  let configuredPub := match signer with Some sg => Signer_PublicKeyPEM sg | None => ""%string end in
  do! r <- attempt (GetSigningAnchor ctx t) in
  match r with
  | Err e =>
      if is_not_found e then
        if String.eqb configuredPub "" then ret tt
        else PutSigningAnchor ctx t (mkSigningAnchor configuredPub) ;;! appendStageAudit ctx t now "signing-anchor-pin" ""
      else fail (WrappedError "controller: loading signing anchor" e)
  | Ok anchor =>
      if String.eqb configuredPub "" then fail (coded_error "CodeSigningKeyMissing")
      else if String.eqb configuredPub (SA_PubKeyPEM anchor) then ret tt
      else if rotate then PutSigningAnchor ctx t (mkSigningAnchor configuredPub) ;;! appendStageAudit ctx t now "signing-anchor-rotate" ""
      else fail (coded_error "CodeSigningKeyMismatch")
  end.

(** The epoch of a membership, given the last manifest that was staged. *)
Definition next_epoch (members : gmap string memberKey) (last : option StoredTrustList) : result store_error Z :=
  match last with
  | None => Ok 0
  | Some stored =>
      let! prior := manifestMembers (TL_TrustListJSON stored) in
      Ok (if sameMembership members prior then Stored_Epoch stored else i64 (Stored_Epoch stored + 1))
  end.

Definition last_staged (ctx : option string) (t : TenantID) : Act S (option StoredTrustList) :=
  do! r <- attempt (GetLastStagedTrustList ctx t) in
  match r with
  | Ok stored => ret (Some stored)
  | Err e => if is_not_found e then ret None else fail (WrappedError "controller: loading prior manifest for epoch" e)
  end.

Definition staged_manifest (t : TenantID) (epoch : Z) (members : list Member) : result store_error StoredTrustList :=
  match Canonical (TrustList.mkTrustList 1 t epoch members) with
  | Err _ => Err (PlainError "controller: canonicalizing staged manifest")
  | Ok canonical => Ok (StoreTypes.mkTrustList canonical "" epoch 0)
  end.

Definition lift {A} (r : result store_error A) : Act S A := match r with Ok a => ret a | Err e => fail e end.

Definition buildStagedManifest (ctx : option string) (t : TenantID) (digests pubKeys : gmap string string) : Act S StoredTrustList :=
  let members := stage_members digests pubKeys in
  do! last <- last_staged ctx t in
  do! epoch <- lift (next_epoch (members_map members) last) in
  lift (staged_manifest t epoch members).

Definition KeystoneRedeployRequired (ctx : option string) (t : TenantID) (cred : OperatorCredential) : Act S bool :=
  do! r <- attempt (GetServedTrustList ctx t) in
  match r with
  | Err e => if is_not_found e then ret false else fail (WrappedError "controller: loading served trust-list for redeploy check" e)
  | Ok stored =>
      if Nat.eqb (String.length (TL_SignatureJSON stored)) 0 then ret false
      else match verifyStoredAgainstPin stored cred with
           | Err parseErr => fail parseErr
           | Ok (Ok _) => ret false
           | Ok (Err _) => ret true
           end
  end.

(** The gate: the manifest is signed and its signature verifies under the credential. *)
Definition check_signed (ctx : option string) (t : TenantID) (cred : OperatorCredential) : Act S unit :=
  do! r <- attempt (GetCurrentSignedTrustList ctx t) in
  match r with
  | Err e => if is_not_found e then fail (PlainError "controller: keystone is enabled but no membership manifest is staged")
             else fail (WrappedError "controller: loading staged manifest to promote" e)
  | Ok stored =>
      if Nat.eqb (String.length (TL_SignatureJSON stored)) 0 then fail (PlainError "controller: the staged membership manifest is not signed off-host yet")
      else match verifyStoredAgainstPin stored cred with
           | Ok (Ok _) => ret tt
           | Ok (Err _) => fail (PlainError "controller: the staged membership manifest is signed under a credential that is no longer the pinned keystone")
           | Err e => fail (WrappedError "controller: the staged membership manifest is signed under a credential that is no longer the pinned keystone" e)
           end
  end.

(** [controller.PromoteStaged]: the gate and the promotion of the store under the
    tenant's lock. *)
Definition PromoteRelease (ctx : option string) (t : TenantID) : Act S Z :=
  reconcileKeystoneTrustBoundaryLocked ctx t ;;!
  do! r <- attempt (GetOperatorCredential ctx t) in
  match r with
  | Err e => if is_not_found e then PromoteStaged ctx t else fail (WrappedError "controller: loading operator credential to promote" e)
  | Ok cred => check_signed ctx t cred ;;! PromoteStaged ctx t
  end.

Context `{SignatureJSON}.

(** The verification half of [InstallTrustListSignature]. *)
Definition check_submitted (stored : StoredTrustList) (submitted : string) (signed : SignedTrustList) (cred : OperatorCredential) : result store_error unit :=
  if negb (String.eqb submitted (TL_TrustListJSON stored)) then Err ErrStagedManifestMismatch
  else match unmarshal_trustlist (TL_TrustListJSON stored) with
       | None => Err (PlainError "controller: parsing staged manifest to verify signature")
       | Some manifest =>
           match pinFromOperatorCredential cred with
           | Err e => Err (WrappedError "controller: building pin from operator credential" e)
           | Ok pin => match Verify manifest signed pin with Ok _ => Ok tt | Err _ => Err ErrManifestSignatureInvalid end
           end
       end.

Definition InstallTrustListSignature (ctx : option string) (t : TenantID) (submittedCanonical : string) (signed : SignedTrustList) : Act S Z :=
  reconcileKeystoneTrustBoundaryLocked ctx t ;;!
  do! c <- attempt (GetOperatorCredential ctx t) in
  match c with
  | Err e => if is_not_found e then fail ErrNoPinnedCredential else fail (WrappedError "controller: loading operator credential to install trust-list signature" e)
  | Ok cred =>
      do! r <- attempt (GetCurrentSignedTrustList ctx t) in
      match r with
      | Err e => if is_not_found e then fail ErrNoStagedManifest else fail (WrappedError "controller: loading staged manifest to install trust-list signature" e)
      | Ok stored =>
          lift (check_submitted stored submittedCanonical signed cred) ;;!
          wrap "controller: storing signed staged manifest"
            (PutSignedTrustList ctx t (StoreTypes.mkTrustList (TL_TrustListJSON stored) (marshal_signed signed) (Stored_Epoch stored) 0)) ;;!
          ret (Stored_Epoch stored)
      end
  end.
End Store.
End Release.
