(* ===== verification/ReleaseProps.v ===== *)
(** * The keystone gate of a release: what may be promoted *)

From stdpp Require Import base gmap strings list sorting.
From Stdlib Require Import ZArith Lia Ascii.
From S2P Require Import Prelude GoLib GoSha LinkID GoText GoBase64 TrustList Bundle BundleProps StoreTypes StoreMonad MemKV StoreCore StoreLogic StoreStage StageProps Promotion ReplaceProps StoreFrame AuditLog CoreState CoreProps Enrollment EnrollProps Keystone KeystoneProps Export Release.

Local Open Scope Z_scope.
Local Open Scope go_scope.
Local Open Scope store_scope.

(** ** Operations beside a release

    The ceremonies before a stage or a promotion write the keystone marker, the
    topology, the signing anchor and the audit log, and nothing else. *)

Definition side_colls : list string := [collKeystoneTransition; collTopology; collTopoHistory; collSigningAnchor].

Section Calm.
Context {S : Type} `{KVLaws S} `{!AuditBackend S} `{!AuditLaws S} (t : TenantID).
Implicit Types s : S.

Record calm s0 s : Prop := {
  calm_gen : forall t', kv_generation t' s = kv_generation t' s0;
  calm_get : forall t' c k, (t' = t -> c ∉ side_colls) -> kv_get t' c k s = kv_get t' c k s0 }.

Lemma calm_refl s : calm s s.
Proof. by split. Qed.
Lemma calm_trans s0 s1 s : calm s0 s1 -> calm s1 s -> calm s0 s.
Proof. intros [Hg Hf] [Hg' Hf']. split; [intros t'; by rewrite Hg'|]. intros t' c k Hc. by rewrite Hf', Hf. Qed.

Lemma calm_put c k v s0 s : c ∈ side_colls -> calm s0 s -> calm s0 (kv_put t c k v s).
Proof.
  intros Hc [Hg Hf]. split; [intros t'; by rewrite generation_put|]. intros t' c' k' Hn. rewrite get_put.
  destruct (decide _) as [(-> & -> & ->)|]; [by destruct (Hn eq_refl)|by apply Hf].
Qed.
Lemma calm_del c k s0 s : c ∈ side_colls -> calm s0 s -> calm s0 (kv_del t c k s).
Proof.
  intros Hc [Hg Hf]. split; [intros t'; by rewrite generation_del|]. intros t' c' k' Hn. rewrite get_del.
  destruct (decide _) as [(-> & -> & ->)|]; [by destruct (Hn eq_refl)|by apply Hf].
Qed.
Lemma calm_append e s0 s : calm s0 s -> calm s0 (kv_appendAudit t e s).1.
Proof. intros [Hg Hf]. split; [intros t'; by rewrite generation_append|]. intros t' c k Hn. rewrite get_append. by apply Hf. Qed.

Lemma calm_write f s0 : (forall s, calm s0 s -> calm s0 (f s)) -> keeps (prim_write f) (calm s0).
Proof. intros Hf. apply spec_write; [exact Hf|intros _ s Hs; exact (conj Hs (Hf s Hs))|intros s Hs; exact (conj Hs (Hf s Hs))]. Qed.
Lemma calm_readonly {A} (m : Act S A) s0 : readonly m -> keeps m (calm s0).
Proof. intros Hm. apply spec_readonly; [done|by intros..]. Qed.
Lemma calm_audit ctx e s0 : keeps (AppendAudit ctx t e) (calm s0).
Proof. apply spec_ctx; [done|]. apply spec_update; [intros s Hs|intros _ s Hs; split; [exact Hs|]|intros s Hs; split; [exact Hs|]]; by apply calm_append. Qed.
Lemma calm_bind {A B} (m : Act S A) (k : A -> Act S B) s0 : keeps m (calm s0) -> (forall a, keeps (k a) (calm s0)) -> keeps (abind m k) (calm s0).
Proof. intros Hm Hk. apply spec_bind with (R := fun _ => calm s0); [exact Hm|exact Hk]. Qed.
Lemma calm_for_all {A} (f : A -> Act S unit) xs s0 : (forall x, keeps (f x) (calm s0)) -> keeps (for_all f xs) (calm s0).
Proof. intros Hf. apply (spec_for_all f xs (fun _ => calm s0)). intros pre x post _. apply Hf. Qed.
End Calm.

(** Proves [keeps m (calm t s0)] by the structure of [m]. *)
Ltac calm_step :=
  match goal with
  | |- keeps (ret _) _ => by apply spec_ret
  | |- keeps (fail _) _ => by apply spec_fail
  | |- keeps (check_ctx ?c) _ => destruct c; [by apply spec_fail|by apply spec_ret]
  | |- keeps (prim_read _) _ => by apply spec_read
  | |- keeps (ignore _) _ => apply spec_ignore
  | |- keeps (attempt _) _ => apply spec_attempt
  | |- keeps (wrap _ _) _ => apply keeps_wrap
  | |- spec (AppendAudit _ _ _) _ _ _ _ => apply calm_audit
  | |- keeps (AppendAudit _ _ _) _ => apply calm_audit
  | |- keeps (abind _ _) _ => apply calm_bind; [|intros ?]
  | |- keeps (prim_write _) _ => apply calm_write; intros ? ?; (apply calm_put || apply calm_del); [unfold side_colls; set_solver|assumption]
  | |- keeps (for_all _ _) _ => apply calm_for_all; intros ?
  | |- keeps (match ?x with _ => _ end) _ => destruct x
  | |- keeps (let _ := _ in _) _ => cbn zeta
  | |- spec ?m ?I _ _ _ => change (keeps m I)
  end.
Ltac calm := unfold withLock, load_optional, loadJSON, saveJSON, get, put, del, list_records, generation; repeat calm_step.

Section Ceremonies.
Context {S : Type} `{KVLaws S} `{!AuditBackend S} `{!AuditLaws S} `{Crypto} `{Codec} (t : TenantID).
Implicit Types s : S.

Lemma calm_delete_pending ctx id s0 : keeps (DeletePendingKeystoneTransition ctx t id) (calm t s0).
Proof. unfold DeletePendingKeystoneTransition. calm. Qed.

Lemma calm_find ctx e s0 : keeps (findPendingKeystoneAudit ctx t e) (calm t s0).
Proof. unfold findPendingKeystoneAudit, ListAudit. calm. Qed.

Lemma calm_reconcile ctx s0 : keeps (reconcileKeystoneTrustBoundaryLocked ctx t) (calm t s0).
Proof.
  unfold reconcileKeystoneTrustBoundaryLocked, reconcilePendingKeystoneTransitionLocked, GetPendingKeystoneTransition, currentKeystoneCredential, GetOperatorCredential,
    ensurePendingKeystoneAuditLocked, append_observed.
  calm; try apply calm_delete_pending; try apply calm_find.
Qed.

Lemma calm_persist ctx v json now s0 : keeps (CompareAndSetTopology ctx t v json now) (calm t s0).
Proof. unfold CompareAndSetTopology, loadTopologyForWriteLocked, putTopologyAfterLocked, backfill, prune_history. calm. Qed.

Lemma calm_stage_audit ctx now action id s0 : keeps (appendStageAudit ctx t now action id) (calm t s0).
Proof. unfold appendStageAudit. calm. Qed.

Lemma calm_anchor ctx now signer rotate s0 : keeps (enforceSigningAnchorWithSigner ctx t now signer rotate) (calm t s0).
Proof. unfold enforceSigningAnchorWithSigner, GetSigningAnchor, PutSigningAnchor. calm; apply calm_stage_audit. Qed.

(** ** The gate *)

Lemma readonly_credential ctx : readonly (GetOperatorCredential ctx t : Act S OperatorCredential).
Proof. unfold GetOperatorCredential, withLock. readonly. Qed.
Lemma readonly_signed ctx : readonly (GetCurrentSignedTrustList ctx t : Act S StoredTrustList).
Proof. unfold GetCurrentSignedTrustList, withLock. readonly. Qed.
Lemma readonly_check_signed ctx cred : readonly (check_signed ctx t cred : Act S unit).
Proof.
  apply readonly_attempt; [apply readonly_signed|..].
  - intros [stored|e]; [|destruct (is_not_found e); auto with readonly]. destruct (Nat.eqb _ _); [auto with readonly|]. destruct (verifyStoredAgainstPin _ _) as [[]|]; auto with readonly.
  - intros e He. rewrite (backend_error_not_found e He). by eexists.
Qed.

(** The signed list that the gate checks is the list of the sealed candidate. *)
Definition passes_gate (tl : option StoredTrustList) (cred : OperatorCredential) : Prop :=
  exists sl, tl = Some sl /\ Nat.eqb (String.length (TL_SignatureJSON sl)) 0 = false /\ verifyStoredAgainstPin sl cred = Ok (Ok tt).

Lemma answer_signed s :
  answer (GetCurrentSignedTrustList None t) s =
  (let! seal := seal_view (kv_get t collStagedSeal "" s) in let! sealed := manifest_view seal (kv_get t collStagedTL "" s) in match sealed with Some sl => Ok sl | None => Err ErrNotFound end).
Proof.
  unfold GetCurrentSignedTrustList, withLock. rewrite answer_bind; [cbn [check_ctx rbind answer ret]|auto with readonly|readonly].
  rewrite answer_bind; [|auto with readonly|readonly]. rewrite answer_loadSeal. destruct (seal_view _) as [seal|]; cbn [rbind]; [|done].
  rewrite answer_bind; [|auto with readonly|readonly]. rewrite answer_loadSealedTrustList. by destruct (manifest_view _ _) as [[]|].
Qed.

Lemma gate_candidate ctx cred s staged ids tl :
  answer (check_signed ctx t cred) s = Ok tt -> candidate t s = Ok (staged, ids, tl) -> passes_gate tl cred.
Proof.
  intros Hc Hk. unfold check_signed in Hc. rewrite answer_attempt in Hc; [|apply readonly_signed|].
  2:{ intros [stored|e]; [|destruct (is_not_found e); auto with readonly]. destruct (Nat.eqb _ _); [auto with readonly|]. destruct (verifyStoredAgainstPin _ _) as [[]|]; auto with readonly. }
  destruct ctx as [r|]; [done|]. rewrite answer_signed in Hc. unfold candidate in Hk. rewrite answer_sealed_candidate in Hk. unfold candidate_view in Hk.
  destruct (seal_view _) as [seal|e]; [|cbn [rbind] in Hc; destruct (is_not_found e); done]. cbn [rbind] in Hc.
  destruct (negb _); [done|]. destruct (_ || _); [done|]. destruct (collect_staged _ _); [|done]. destruct (negb _); [done|].
  destruct (manifest_view _ _) as [tl'|]; [|done]. cbn [rbind] in Hk. injection Hk as <- <- <-. destruct tl' as [sl|]; [|done]. cbn [rbind] in Hc. exists sl.
  destruct (Nat.eqb _ _) eqn:Hn; [done|]. destruct (verifyStoredAgainstPin sl cred) as [[[]|]|] eqn:Hv; [|done..]. done.
Qed.

Lemma calm_cred s0 s : calm t s0 s -> kv_get t collOperatorCred "" s = kv_get t collOperatorCred "" s0.
Proof. intros Hc. apply (calm_get _ _ _ Hc). intros _. unfold side_colls. set_solver. Qed.
Lemma calm_served s0 s id : calm t s0 s -> served t id s = served t id s0.
Proof.
  intros Hc. rewrite !served_closed, (calm_gen _ _ _ Hc), (calm_cred _ _ Hc). rewrite !(calm_get _ _ _ Hc) by (intros _; unfold side_colls; set_solver). done.
Qed.

(** How a release ends: nothing but side records changed, or a candidate that passed
    the gate is being written or is committed. *)
Definition gated s1 (tl : option StoredTrustList) : Prop := forall cred, kv_get t collOperatorCred "" s1 = Some (VCredential cred) -> passes_gate tl cred.
Definition releasing s0 s (P : Z -> list SignedBundle -> option StoredTrustList -> S -> S -> Prop) : Prop :=
  exists s1 staged ids tl, calm t s0 s1 /\ candidate t s1 = Ok (staged, ids, tl) /\ gated s1 tl /\ P (next_generation t s1) staged tl s1 s.

Lemma spec_promote_from ctx s0 s1 :
  calm t s0 s1 -> (forall staged ids tl, candidate t s1 = Ok (staged, ids, tl) -> gated s1 tl) ->
  spec (PromoteStaged ctx t) (eq s1) (fun g s => releasing s0 s (committed t))
    (fun _ s => calm t s0 s \/ releasing s0 s (fun g staged tl s1 s => mid t g staged tl s1 s \/ committed t g staged tl s1 s))
    (fun s => calm t s0 s \/ releasing s0 s (fun g staged tl s1 s => mid t g staged tl s1 s \/ committed t g staged tl s1 s)).
Proof.
  intros Hc Hg. eapply spec_weaken; [apply (spec_PromoteStaged ctx t s1)|done|..].
  - intros g s (-> & staged & ids & tl & Hk & Hcom). exists s1, staged, ids, tl. split_and!; [done|done|by eapply Hg|done].
  - intros e s [[-> _]|(staged & ids & tl & Hk & HP)]; [by left|]. right. exists s1, staged, ids, tl. split_and!; [done|done|by eapply Hg|].
    destruct HP as [[Hm _]|[_ Hcom]]; [by left|by right].
  - intros s [-> |(staged & ids & tl & Hk & HP)]; [by left|]. right. exists s1, staged, ids, tl. split_and!; [done|done|by eapply Hg|done].
Qed.

Lemma spec_PromoteRelease ctx s0 :
  spec (PromoteRelease ctx t) (eq s0) (fun _ s => releasing s0 s (committed t))
    (fun _ s => calm t s0 s \/ releasing s0 s (fun g staged tl s1 s => mid t g staged tl s1 s \/ committed t g staged tl s1 s))
    (fun s => calm t s0 s \/ releasing s0 s (fun g staged tl s1 s => mid t g staged tl s1 s \/ committed t g staged tl s1 s)).
Proof.
  unfold PromoteRelease. eapply spec_seq; [apply (calm_reconcile ctx s0)|intros s <-; apply calm_refl|by left|by left|]. intros u.
  eapply spec_bind with (R := fun r s => calm t s0 s /\ match r with Ok cred => answer (GetOperatorCredential ctx t) s = Ok cred
                                                     | Err e => is_not_found e = true -> answer (GetOperatorCredential ctx t) s = Err e end).
  { apply spec_attempt. apply spec_readonly; [apply readonly_credential|by intros s a Hs Ha|intros s e Hs He|by intros s Hs; left]. split; [done|]. intros Hn.
    destruct He as [He|He]; [done|]. by rewrite (backend_error_not_found e He) in Hn. }
  assert (forall s, answer (GetOperatorCredential ctx t) s = match ctx with Some r => Err (ContextError r) | None => decode collOperatorCred "" (kv_get t collOperatorCred "" s) end) as Hread.
  { intros s. destruct ctx; [done|]. unfold GetOperatorCredential, withLock. rewrite answer_bind by (auto with readonly). cbn [check_ctx rbind answer ret]. apply answer_loadJSON. }
  intros [cred|e].
  - eapply spec_bind with (R := fun _ s => calm t s0 s /\ answer (GetOperatorCredential ctx t) s = Ok cred /\ answer (check_signed ctx t cred) s = Ok tt).
    { apply spec_readonly; [apply readonly_check_signed|..]; [|by intros s e [? _]; left|by intros s [? _]; left]. intros s [] [Hc Ha] Hs. done. }
    intros _. intros fs s n (Hc & Ha & Hs). refine (spec_promote_from ctx s0 s Hc _ fs s n eq_refl). intros staged ids tl Hk cred' Hcred.
    rewrite Hread in Ha. destruct ctx; [done|]. rewrite Hcred in Ha. injection Ha as <-. by eapply gate_candidate.
  - destruct (is_not_found e) eqn:Hn; [|apply spec_fail; intros s [Hc _]; by left]. intros fs s n [Hc He]. specialize (He eq_refl).
    refine (spec_promote_from ctx s0 s Hc _ fs s n eq_refl). intros staged ids tl Hk cred Hcred. rewrite Hread in He. destruct ctx; [by injection He as <-|]. by rewrite Hcred in He.
Qed.

Lemma verify_set_PromotedGeneration g sl cred : verifyStoredAgainstPin (set_PromotedGeneration g sl) cred = verifyStoredAgainstPin sl cred.
Proof. by destruct sl. Qed.
Lemma signature_set_PromotedGeneration g sl : TL_SignatureJSON (set_PromotedGeneration g sl) = TL_SignatureJSON sl.
Proof. by destruct sl. Qed.

(** Before the commit, nodes are served what they were served or nothing. *)
Lemma releasing_mid s0 s1 s staged ids tl :
  is_i64 (kv_generation t s0) -> calm t s0 s1 -> candidate t s1 = Ok (staged, ids, tl) -> mid t (next_generation t s1) staged tl s1 s ->
  kv_generation t s = kv_generation t s0 /\ forall id, served t id s = served t id s0 \/ refused (served t id s).
Proof.
  intros Hi Hc Hk Hm. apply candidate_Ok in Hk as (_ & _ & _ & Hall & Hpos & _). rewrite (mid_gen _ _ _ _ _ _ Hm), (calm_gen _ _ _ Hc). split; [done|]. intros id.
  rewrite <- (calm_served s0 s1) by done. eapply served_mid; [done| |done]. rewrite (next_generation_gt t s1) by (rewrite ?(calm_gen _ _ _ Hc); done). lia.
Qed.

(** After the commit, every node is served the list of the candidate. *)
Lemma releasing_committed s0 s1 s staged ids tl cred :
  is_i64 (kv_generation t s0) -> calm t s0 s1 -> candidate t s1 = Ok (staged, ids, tl) -> gated s1 tl -> committed t (next_generation t s1) staged tl s1 s ->
  kv_generation t s = kv_generation t s0 + 1 /\
  (kv_get t collOperatorCred "" s0 = Some (VCredential cred) ->
   exists sl, Nat.eqb (String.length (TL_SignatureJSON sl)) 0 = false /\ verifyStoredAgainstPin sl cred = Ok (Ok tt) /\
     forall id sc, served t id s = Ok sc -> SC_KeystoneOn sc = true /\ SC_TrustList sc = Some sl).
Proof.
  intros Hi Hc Hk Hg Hcom. apply candidate_Ok in Hk as (_ & Hnd & _ & _ & Hpos & _). rewrite (com_gen _ _ _ _ _ _ Hcom).
  split; [destruct (decide (t = t)); [|done]; rewrite (next_generation_gt t s1) by (rewrite ?(calm_gen _ _ _ Hc); done); by rewrite (calm_gen _ _ _ Hc)|].
  intros Hcred. rewrite <- (calm_cred _ _ Hc) in Hcred. destruct (Hg cred Hcred) as (sl & -> & Hs & Hv). exists (set_PromotedGeneration (next_generation t s1) sl).
  rewrite signature_set_PromotedGeneration, verify_set_PromotedGeneration. split_and!; [done|done|]. intros id sc. rewrite (served_committed _ _ _ _ _ _ _ Hnd Hcom), Hcred.
  unfold served_view, served_slot. rewrite Hs. destruct (decode collCurrent _ _) as [b|]; cbn [rbind]; [|done]. destruct (_ <? _); [done|]. cbn. rewrite TL_PromotedGeneration_set, Z.ltb_irrefl.
  cbn. rewrite signature_set_PromotedGeneration, Hs. cbn. by intros [= <-].
Qed.

(** C7. Nothing is released past the keystone.  Under every schedule of backend
    errors and crashes, a promotion either leaves the generation and what every node
    is served (a node may be refused until the promotion is completed), or moves the
    generation by one; in that case, when an operator credential is pinned, there is
    one manifest whose off-host signature verifies under that credential, and it is
    the manifest that every node is served from then on. *)
Theorem promotion_is_gated ctx fs s n :
  is_i64 (kv_generation t s) ->
  let s' := outcome_state (PromoteRelease ctx t fs s n) in
  (kv_generation t s' = kv_generation t s /\ forall id, served t id s' = served t id s \/ refused (served t id s')) \/
  (kv_generation t s' = kv_generation t s + 1 /\
   forall cred, kv_get t collOperatorCred "" s = Some (VCredential cred) ->
   exists sl, Nat.eqb (String.length (TL_SignatureJSON sl)) 0 = false /\ verifyStoredAgainstPin sl cred = Ok (Ok tt) /\
     forall id sc, served t id s' = Ok sc -> SC_KeystoneOn sc = true /\ SC_TrustList sc = Some sl).
Proof.
  intros Hi s'. pose proof (spec_PromoteRelease ctx s fs s n eq_refl) as Hspec.
  assert (calm t s s' \/ releasing s s' (fun g staged tl s1 s => mid t g staged tl s1 s \/ committed t g staged tl s1 s)) as Hend.
  { unfold s'. destruct (PromoteRelease ctx t fs s n); cbn [outcome_state]; [|exact Hspec..].
    right. destruct Hspec as (s1 & staged & ids & tl & Hc & Hk & Hg & Hcom). exists s1, staged, ids, tl. split_and!; [done..|by right]. }
  destruct Hend as [Hc|(s1 & staged & ids & tl & Hc & Hk & Hg & [Hm|Hcom])].
  - left. split; [apply (calm_gen _ _ _ Hc)|]. intros id. left. by apply calm_served.
  - left. by eapply releasing_mid.
  - right. pose proof (fun cred => releasing_committed s s1 s' staged ids tl cred Hi Hc Hk Hg Hcom) as Hall. split; [apply (Hall (mkOperatorCredential "" "" "" "" ""))|intros cred; apply (Hall cred)].
Qed.
End Ceremonies.

(** ** A signed stage *)

Definition ex_operator : OperatorCredential := mkOperatorCredential AlgEd25519 "" "operator key" "" "".
Definition ex_signed : StoredTrustList :=
  StoreTypes.mkTrustList (ex_trusted_json 7) (RawURL_EncodeToString (toy_sign (sha256_sum (bytes_of "operator key")) (bytes_of (ex_trusted_json 7)))) 7 0.
Definition ex_release : StagedSet := mkStagedSet 1 [mkSignedBundle "alpha" 1 [("install.sh", "#!/bin/sh")]%string false false 0] (Some ex_signed).
Definition ex_staged_store : memStore :=
  outcome_state ((PutSigningAnchor None "acme" (mkSigningAnchor "") ;;! ReplaceStagedSet None "acme" ex_release ;;! ret tt) no_faults
                   (kv_put "acme" collOperatorCred "" (VCredential ex_operator) newMemStore) 0%nat).

Lemma promotion_is_gated_witness :
  let s' := outcome_state (PromoteRelease (H := toy_crypto) (H0 := toy_codec) None "acme" no_faults ex_staged_store 0%nat) in
  kv_generation "acme" s' = 1 /\ exists sl, verifyStoredAgainstPin (H := toy_crypto) (H0 := toy_codec) sl ex_operator = Ok (Ok tt) /\
    forall id sc, served "acme" id s' = Ok sc -> SC_TrustList sc = Some sl.
Proof.
  intros s'. assert (kv_generation "acme" s' = 1) as Hg by (vm_compute; reflexivity). split; [exact Hg|].
  assert (is_i64 (kv_generation "acme" ex_staged_store)) as Hi by (vm_compute; split; congruence).
  assert (kv_generation "acme" ex_staged_store = 0) as H0' by (vm_compute; reflexivity).
  assert (kv_get "acme" collOperatorCred "" ex_staged_store = Some (VCredential ex_operator)) as Hc by (vm_compute; reflexivity).
  destruct (promotion_is_gated (S := memStore) (H1 := toy_crypto) (H2 := toy_codec) "acme" None no_faults ex_staged_store 0%nat Hi) as [[Hsame _]|[_ Hrel]].
  - exfalso. fold s' in Hsame. rewrite Hg, H0' in Hsame. discriminate.
  - destruct (Hrel ex_operator Hc) as (sl & _ & Hv & Hall). exists sl. split; [exact Hv|]. intros id sc Hs. exact (proj2 (Hall id sc Hs)).
Defined.
