(* ===== verification/Deploy.v ===== *)
(** * Deployments ([internal/controller]: [compile_subgraph.go], [telemetry_policy.go],
      [telemetry_policy_readiness.go], [settings.go], [compile.go], [compile_stage.go],
      [compile_preview.go])

    Which part of the stored topology is ready, its compile around the pins of the
    rest, the write-back of the allocation, and the staged candidate with its
    manifest.  What a stage meets outside the store is [stage_env]. *)

From stdpp Require Import base gmap strings list sorting.
From Stdlib Require Import ZArith Lia Ascii.
From S2P Require Import Prelude GoLib GoNet GoSha Model LinkID Allocator PeersAlloc Peers Compiler Normalize Findings Schema Pipeline GoText GoBase64 TrustList Bundle StoreTypes StoreMonad StoreCore StoreLogic StoreStage AuditLog CoreState Enrollment Keystone Export Release.

Local Open Scope Z_scope.
Local Open Scope go_scope.
Local Open Scope store_scope.

(** ** The ready subgraph *)

(** The last approved record of an id with a key wins. *)
Definition registry_keys (nodes : list RegistryNode) : gmap string string :=
  foldl (fun m n => if String.eqb (RN_Status n) NodeApproved && negb (String.eqb (RN_WGPublicKey n) "") then <[ RN_NodeID n := RN_WGPublicKey n ]> m else m) ∅ nodes.

Definition readyKey (registry : gmap string string) (n : Node) : string :=
  if IsManual n then Node_WireGuardPublicKey n else default ""%string (registry !! Node_ID n).

Definition clientTargetEnrolled (topo : Topology) (clientID : string) (ready : gset string) : bool :=
  existsb (fun e => String.eqb (Edge_FromNodeID e) clientID && Edge_IsEnabled e && bool_decide (Edge_ToNodeID e ∈ ready)) (Topology_Edges topo).

Definition keyed_nodes (registry : gmap string string) (nodes : list Node) : gset string :=
  list_to_set (Node_ID <$> filter (fun n => readyKey registry n <> ""%string) nodes).

(** The loop over the clients reads the set it shrinks. *)
Definition drop_client (topo : Topology) (ready : gset string) (n : Node) : gset string :=
  if bool_decide (Node_ID n ∈ ready) && String.eqb (Node_Role n) "client" && negb (clientTargetEnrolled topo (Node_ID n) ready) then ready ∖ {[ Node_ID n ]} else ready.

Definition ready_ids (topo : Topology) (registry : gmap string string) : gset string :=
  foldl (drop_client topo) (keyed_nodes registry (Topology_Nodes topo)) (Topology_Nodes topo).

Definition enrolledSubgraph (topo : Topology) (nodes : list RegistryNode) : Topology * list string :=
  let registry := registry_keys nodes in
  let ready := ready_ids topo registry in
  (mkTopology (Topology_Project topo) (Topology_Domains topo)
     ((fun n => set_keys "" (readyKey registry n) n) <$> filter (fun n => Node_ID n ∈ ready) (Topology_Nodes topo))
     (filter (fun e => Edge_FromNodeID e ∈ ready /\ Edge_ToNodeID e ∈ ready) (Topology_Edges topo))
     (Topology_RoutePolicies topo) (Topology_AllocSchemaVersion topo),
   Node_ID <$> filter (fun n => Node_ID n ∉ ready /\ IsManual n = false) (Topology_Nodes topo)).

Definition projectEnrolledSubgraph (topo : Topology) (nodes : list RegistryNode) : result store_error (Topology * list string) :=
  let! _ := validateManualNodes topo nodes in Ok (enrolledSubgraph topo nodes).

(** ** Telemetry policies *)

Definition PolicyV2 : string := "telemetry-policy-v2".
Definition URLV1 : string := "url-probes-v1".
Definition DeviceV1 : string := "device-telemetry-v1".

Definition is_url_probe (p : TelemetryProbe) : bool := String.eqb (TelemetryProbe_Type p) TelemetryProbeURL.

Definition RequiredCapabilities (n : Node) : list string :=
  if negb (RequiresSuccessor n) then []
  else sort_by id ([PolicyV2] ++ (if existsb is_url_probe (Node_TelemetryProbes n) then [URLV1] else []) ++
                   (if bool_decide (is_Some (Node_TelemetryDevices n)) then [DeviceV1] else [])).

Definition set_telemetry (probes : list TelemetryProbe) (devices : option TelemetryDevicePolicy) (n : Node) : Node :=
  match n with mkNode a b c d e f g h i j k l m o p q r s t u v w x _ _ => mkNode a b c d e f g h i j k l m o p q r s t u v w x probes devices end.
Definition ProjectLegacy (n : Node) : Node := set_telemetry (filter (fun p => is_url_probe p = false) (Node_TelemetryProbes n)) None n.

Inductive TelemetryPolicyDeployMode := DeployNormal | DeployUpgradeAgentsFirst | DeployUnsupported (mode : string).

(** The strict decoder of the capability metric; a missing or null list is [None]. *)
Class MetricJSON := { unmarshal_capabilities : string -> option (option (list string)) }.

Definition latestAgentCapabilities `{MetricJSON} (n : RegistryNode) : option (gset string) :=
  match (list_to_map (RN_Telemetry n) : gmap string string) !! AgentCapabilitiesKey with
  | None => None
  | Some raw =>
      if String.eqb raw "" then None
      else match unmarshal_capabilities raw with
           | None => None
           | Some capabilities => match ValidateAgentCapabilities capabilities with
                                  | Ok _ => Some (list_to_set (default [] capabilities))
                                  | Err _ => None
                                  end
           end
  end.

Definition containsAllCapabilities (available : gset string) (required : list string) : bool := forallb (fun c => bool_decide (c ∈ available)) required.

Definition set_Domains (domains : list Domain) (topo : Topology) : Topology :=
  mkTopology (Topology_Project topo) domains (Topology_Nodes topo) (Topology_Edges topo) (Topology_RoutePolicies topo) (Topology_AllocSchemaVersion topo).

(** The registry record of an id, or the zero record. *)
Definition registry_node (nodes : list RegistryNode) (nodeID : string) : RegistryNode :=
  foldl (fun acc n => if String.eqb (RN_NodeID n) nodeID then n else acc) (mkRegistryNode "" "" "" "" 0 0 "" "" "" [] [] zero_time zero_time false) nodes.

Definition codes_of (fs : findings) : list (string * string) := (fun f => ("code"%string, VE_Code f)) <$> fs.

Section Policy.
Context `{TopologyJSON} `{MetricJSON} (probe : list TelemetryProbe -> option string).

Definition unconfirmed (nodes : list RegistryNode) (n : Node) : bool :=
  negb (IsManual n) && RequiresSuccessor n &&
  match latestAgentCapabilities (registry_node nodes (Node_ID n)) with
  | Some available => negb (containsAllCapabilities available (RequiredCapabilities n))
  | None => true
  end.

(** The copy shares its domains with the ready projection, where schema validation
    fills the routing modes in place. *)
Definition PrepareTelemetryPolicyDeployment (topo : Topology) (nodes : list RegistryNode) (mode : TelemetryPolicyDeployMode)
  : result store_error (Topology * list string) :=
  match topology_unmarshal (topology_marshal topo) with
  | None => Err (PlainError "controller: copying telemetry policy topology")
  | Some projected =>
      let! rs := projectEnrolledSubgraph projected nodes in
      let '(ready, schema) := ValidateSchema probe rs.1 in
      if negb (Nat.eqb (length (Errors schema)) 0) then Err (CodedError "TopologyValidationError" (("phase", "schema")%string :: codes_of (Errors schema)))
      else
        let projected := set_Domains (Topology_Domains ready) projected in
        match mode with
        | DeployUpgradeAgentsFirst =>
            let readyIDs : gset string := list_to_set (Node_ID <$> Topology_Nodes ready) in
            let omitted := Node_ID <$> filter (fun n => RequiresSuccessor n = true /\ Node_ID n ∈ readyIDs) (Topology_Nodes projected) in
            Ok (set_Nodes ((fun n => if RequiresSuccessor n then ProjectLegacy n else n) <$> Topology_Nodes projected) projected, sort_by id omitted)
        | DeployNormal =>
            let blocked := Node_ID <$> filter (fun n => unconfirmed nodes n = true) (Topology_Nodes ready) in
            if negb (Nat.eqb (length blocked) 0) then Err (CodedError "TelemetryPolicyReadinessError" ((fun id => ("node"%string, id)) <$> sort_by id blocked))
            else Ok (projected, [])
        | DeployUnsupported m => Err (PlainError ("controller: unsupported telemetry policy deploy mode " +:+ m))
        end
  end.
End Policy.

Definition requireTelemetryProbeKeystone (topo : Topology) (keystoneOn : bool) : result store_error unit :=
  if keystoneOn then Ok tt
  else if existsb (fun n => negb (Nat.eqb (length (Node_TelemetryProbes n)) 0) || RequiresSuccessor n) (Topology_Nodes topo) then Err ErrTelemetryProbesRequireKeystone
  else Ok tt.

(** ** Settings *)

Definition DefaultAgentReleaseBaseURL : string := "https://github.com/kunori-kiku/yet-another-overlay-generator/releases/latest/download".
Definition DefaultMimicReleaseBase : string := "https://github.com/hack3ric/mimic/releases/latest/download".
Definition DefaultMimicFallbackPolicy : string := "none".

Definition or_default (s d : string) : string := if String.eqb s "" then d else s.
Definition WithDefaults (s : ControllerSettings) : ControllerSettings :=
  mkSettings (CS_PublicAgentURL s) (CS_GithubProxy s) (or_default (CS_AgentReleaseBaseURL s) DefaultAgentReleaseBaseURL) (CS_MimicVersion s)
    (or_default (CS_MimicReleaseBase s) DefaultMimicReleaseBase) (CS_MimicDebs s) (or_default (CS_MimicFallbackDefault s) DefaultMimicFallbackPolicy)
    (CS_TargetAgentVersion s) (CS_MinAgentVersion s) (CS_AgentBins s) (CS_AgentCanaryNodeIDs s) (CS_AgentRolloutFleetWide s)
    (Some (default true (CS_Translucency s))) (CS_TelemetryHistoryCap s).
Definition zero_settings : ControllerSettings := mkSettings "" "" "" "" "" ∅ "" "" "" ∅ [] false None None.
Definition DefaultSettings : ControllerSettings :=
  mkSettings "" "" DefaultAgentReleaseBaseURL "" DefaultMimicReleaseBase ∅ DefaultMimicFallbackPolicy "" "" ∅ [] false (Some true) None.

Definition AgentRolloutNodeIDs (cs : ControllerSettings) (nodes : list RegistryNode) : gset string :=
  list_to_set (if CS_AgentRolloutFleetWide cs then RN_NodeID <$> nodes else filter (fun id => id ∈ CS_AgentCanaryNodeIDs cs) (RN_NodeID <$> nodes)).

Definition BuildFetchSettings (cs : ControllerSettings) (rollout : gset string) : FetchSettings :=
  mkFetch (CS_GithubProxy cs) (CS_MimicVersion cs) (CS_MimicReleaseBase cs) (CS_MimicDebs cs) (CS_MimicFallbackDefault cs) (CS_TargetAgentVersion cs)
    (CS_MinAgentVersion cs) (CS_AgentReleaseBaseURL cs) (CS_AgentBins cs) rollout.

(** ** The write-back of an allocation *)

Definition ip_by_id (compiled : Topology) : gmap string string := foldl (fun m n => <[ Node_ID n := Node_OverlayIP n ]> m) ∅ (Topology_Nodes compiled).
Definition edge_by_id (compiled : Topology) : gmap string Edge := foldl (fun m e => <[ Edge_ID e := e ]> m) ∅ (Topology_Edges compiled).

Definition merge_node (ips : gmap string string) (n : Node) : Node :=
  match ips !! Node_ID n with Some ip => if String.eqb ip "" then n else set_OverlayIP ip n | None => n end.
Definition merge_edge (edges : gmap string Edge) (e : Edge) : Edge :=
  match edges !! Edge_ID e with Some c => set_CompiledPort (Edge_CompiledPort c) (set_pins (pins_of c) e) | None => e end.

Definition merge_allocations (full compiled : Topology) : Topology :=
  mkTopology (Topology_Project full) (Topology_Domains full) (merge_node (ip_by_id compiled) <$> Topology_Nodes full)
    (merge_edge (edge_by_id compiled) <$> Topology_Edges full) (Topology_RoutePolicies full) (Topology_AllocSchemaVersion compiled).

(** ** Stages *)

(** What a stage meets outside the store: the clocks, the context of the compile, the
    signing key of the environment with its rotation switch, and, when replacing the
    staged set fails, the bundles it had already pruned. *)
Record stage_env := mkStageEnv {
  SE_now : Z; SE_compiledAt : Z; SE_ctx : Ctx; SE_signer : result string (option ConfigSigner); SE_rotate : bool; SE_pruned : list string }.

Record stageConfig := mkStageConfig { SC_forceAll : bool; SC_forceNodes : gset string; SC_mode : TelemetryPolicyDeployMode }.
Definition forced (cfg : stageConfig) (nodeID : string) : bool := SC_forceAll cfg || bool_decide (nodeID ∈ SC_forceNodes cfg).

Record StageResult := mkStageResult {
  SR_Staged : list string; SR_UnchangedNodeIDs : list string; SR_SkippedUnenrolled : list string; SR_TelemetryPolicyOmittedNodeIDs : list string; SR_Generation : Z }.

Definition compile_failure (e : compile_error) : store_error :=
  match e with
  | TopologyValidationError phase fs => CodedError "TopologyValidationError" (("phase"%string, phase) :: codes_of fs)
  | CompileFailed e => match error_code e with Some code => CodedError code [] | None => PlainError "compile" end
  end.

(** [included] of the edges that are compiled. *)
Definition included_edges (sub : Topology) : gset string := list_to_set (Edge_ID <$> Topology_Edges sub).

(** One node of the loop: what is staged, what is left alone, and the digests and keys
    that the manifest binds. *)
Record stage_acc := mkAcc { ac_bundles : list SignedBundle; ac_unchanged : list string; ac_digests : gmap string string; ac_keys : gmap string string }.

Definition served_files (b : SignedBundle) : files := list_to_map (SB_Files b).

Section Deploy.
Context {B : Type} `{KVBackend B} `{AuditBackend B} `{Crypto} `{Codec} `{Scripts} `{TopologyJSON} `{MetricJSON}.
Context (probe : list TelemetryProbe -> option string) (keygen : Keygen).
#[local] Abbreviation Core := (storeCore B).

(** A panic of the compiler would surface as an error; [CompileAt] has none. *)
Definition CompileSubgraphWithSigner (env : stage_env) (ctx : option string) (topo : Topology) (nodes : list RegistryNode) (fs : FetchSettings) (signer : option ConfigSigner)
  : Act Core (option Rendered * Topology * list string) :=
  do! rs <- lift (projectEnrolledSubgraph topo nodes) in
  let '(sub, skipped) := rs in
  if Nat.eqb (length (Topology_Nodes sub)) 0 then ret (None, sub, skipped)
  else
    check_ctx ctx ;;!
    let reserved := BuildReservedFromExcludedEdges (Some topo) (included_edges sub) in
    match CompileResultCtx probe (SE_ctx env) (mkRequest sub AgentHeld keygen signer fs (SE_compiledAt env) (Some reserved)) with
    | Some (Ok (r, _)) => ret (Some r, sub, skipped)
    | Some (Err e) => fail (WrappedError "controller: compiling ready subgraph" (compile_failure e))
    | None => fail (PlainError "panic")
    end.

Definition servedBundleDigest (ctx : option string) (t : TenantID) (nodeID : string) : Act Core (option string) :=
  do! r <- attempt (GetCurrentBundle ctx t nodeID) in
  match r with
  | Err _ => ret None
  | Ok b => ret (bundleSHA256 <$> served_files b !! "checksums.sha256"%string)
  end.

Definition stageSkipEnabled (ctx : option string) (t : TenantID) (cred : option OperatorCredential) : Act Core bool :=
  match cred with
  | None => ret true
  | Some opCred =>
      do! r <- attempt (GetServedTrustList ctx t) in
      match r with
      | Err e => if is_not_found e then ret false else fail (WrappedError "controller: loading served trust-list to decide delta-skip" e)
      | Ok _ => do! redeploy <- KeystoneRedeployRequired ctx t opCred in ret (negb redeploy)
      end
  end.

Definition persistAllocations (ctx : option string) (t : TenantID) (full compiled : Topology) (originalVersion now : Z) : Act Core unit :=
  wrap "controller: persisting allocations" (CompareAndSetTopology ctx t originalVersion (topology_marshal (merge_allocations full compiled)) now) ;;! ret tt.

(** The pinned credential, when there is one. *)
Definition pinned_for (msg : string) (read : Act Core OperatorCredential) : Act Core (option OperatorCredential) :=
  do! r <- attempt read in
  match r with
  | Ok cred => ret (Some cred)
  | Err e => if is_not_found e then ret None else fail (WrappedError msg e)
  end.

Definition stage_settings (msg : string) (ctx : option string) (t : TenantID) (nodes : list RegistryNode) : Act Core FetchSettings :=
  do! r <- attempt (GetSettings ctx t) in
  match r with
  | Ok cs => ret (BuildFetchSettings (WithDefaults cs) (AgentRolloutNodeIDs cs nodes))
  | Err e => if is_not_found e then ret (BuildFetchSettings (WithDefaults zero_settings) (AgentRolloutNodeIDs zero_settings nodes)) else fail (WrappedError msg e)
  end.

(** Writing the export tree and reading a node's directory back. *)
Definition export_bundles (msg : string) (r : Rendered) (signer : option ConfigSigner) : Act Core (gmap string files) :=
  do! out <- prim_read (fun _ => ExportWithSigner r signer) in
  match out with Ok m => ret m | Err _ => fail (PlainError msg) end.
Definition read_bundle (exported : gmap string files) (nodeID : string) : Act Core files :=
  match exported !! nodeID with Some f => ret f | None => fail (PlainError ("controller: reading bundle for node " +:+ nodeID)) end.

(** Whether an unforced deploy leaves the node alone. *)
Definition is_unchanged (ctx : option string) (t : TenantID) (skipEnabled : bool) (nodeID : string) (digest : option string) : Act Core bool :=
  match digest with
  | Some d =>
      if skipEnabled then do! served <- servedBundleDigest ctx t nodeID in ret (bool_decide (served = Some d)) else ret false
  | None => ret false
  end.

Definition stage_node (ctx : option string) (t : TenantID) (cfg : stageConfig) (keystoneOn skipEnabled : bool) (nextGen : Z) (exported : gmap string files)
    (acc : stage_acc) (node : Node) : Act Core stage_acc :=
  do! f <- read_bundle exported (Node_ID node) in
  let digest := bundleSHA256 <$> f !! "checksums.sha256"%string in
  if keystoneOn && bool_decide (digest = None) then fail (PlainError ("controller: staged bundle has no checksums.sha256 to bind for node " +:+ Node_ID node))
  else
    let digests := if keystoneOn then <[ Node_ID node := default ""%string digest ]> (ac_digests acc) else ac_digests acc in
    let keys := if keystoneOn then <[ Node_ID node := Node_WireGuardPublicKey node ]> (ac_keys acc) else ac_keys acc in
    do! unchanged <- (if forced cfg (Node_ID node) then ret false else is_unchanged ctx t skipEnabled (Node_ID node) digest) in
    if (unchanged : bool) then ret (mkAcc (ac_bundles acc) (ac_unchanged acc ++ [Node_ID node]) digests keys)
    else ret (mkAcc (ac_bundles acc ++ [mkSignedBundle (Node_ID node) nextGen (map_to_list f) true false zero_time]) (ac_unchanged acc) digests keys).

Fixpoint stage_nodes (ctx : option string) (t : TenantID) (cfg : stageConfig) (keystoneOn skipEnabled : bool) (nextGen : Z) (exported : gmap string files)
    (acc : stage_acc) (nodes : list Node) : Act Core stage_acc :=
  match nodes with
  | [] => ret acc
  | n :: rest => do! acc' <- stage_node ctx t cfg keystoneOn skipEnabled nextGen exported acc n in stage_nodes ctx t cfg keystoneOn skipEnabled nextGen exported acc' rest
  end.

Definition audit_purged (ctx : option string) (t : TenantID) (now : Z) (purged : list string) : Act Core unit :=
  for_all (fun id => appendStageAudit ctx t now "purge-staged" id) purged.

(** The replacement with the audit of what it pruned, whether it succeeds or not. *)
Definition replace_audited (msg : string) (env : stage_env) (ctx : option string) (t : TenantID) (set : StagedSet) : Act Core unit :=
  do! r <- attempt (ReplaceStagedSet ctx t set) in
  match r with
  | Ok purged => audit_purged ctx t (SE_now env) purged
  | Err e => audit_purged ctx t (SE_now env) (SE_pruned env) ;;! fail (WrappedError msg e)
  end.

(** An empty stage audits only after the replacement succeeded. *)
Definition clear_staged (env : stage_env) (ctx : option string) (t : TenantID) : Act Core unit :=
  do! purged <- wrap "controller: clearing staged set on empty stage" (ReplaceStagedSet ctx t (mkStagedSet 0 [] None)) in
  audit_purged ctx t (SE_now env) purged ;;! appendStageAudit ctx t (SE_now env) "stage-empty" "".

(** From the exported bundles to the sealed candidate. *)
Definition stage_exported (env : stage_env) (ctx : option string) (t : TenantID) (cfg : stageConfig) (cred : option OperatorCredential) (skipEnabled : bool)
    (sub : Topology) (skipped omitted : list string) (exported : gmap string files) : Act Core StageResult :=
  do! cur <- wrap "controller: reading current generation" (CurrentGeneration ctx t) in
  let nextGen := i64 (cur + 1) in
  let keystoneOn := bool_decide (is_Some cred) in
  do! acc <- stage_nodes ctx t cfg keystoneOn skipEnabled nextGen exported (mkAcc [] [] ∅ ∅) (Topology_Nodes sub) in
  if Nat.eqb (length (ac_bundles acc)) 0 then
    replace_audited "controller: clearing staged set on a zero-changed stage" env ctx t (mkStagedSet 0 [] None) ;;!
    appendStageAudit ctx t (SE_now env) "stage-unchanged" "" ;;!
    ret (mkStageResult [] (ac_unchanged acc) skipped omitted cur)
  else
    do! manifest <- (if keystoneOn then do! m <- buildStagedManifest ctx t (ac_digests acc) (ac_keys acc) in ret (Some m) else ret None) in
    replace_audited "controller: replacing staged set" env ctx t (mkStagedSet nextGen (ac_bundles acc) manifest) ;;!
    appendStageAudit ctx t (SE_now env) "stage" "" ;;!
    ret (mkStageResult (SB_NodeID <$> ac_bundles acc) (ac_unchanged acc) skipped omitted nextGen).

(** The stage of a ready subgraph with at least one node. *)
Definition stage_ready (env : stage_env) (ctx : option string) (t : TenantID) (cfg : stageConfig) (rec : TopologyRecord) (topo deployment : Topology)
    (omitted : list string) (nodes : list RegistryNode) (fs : FetchSettings) : Act Core StageResult :=
  match SE_signer env with
  | Err d => fail (PlainError ("controller: loading bundle signing key: " +:+ d))
  | Ok signer =>
      do! c <- CompileSubgraphWithSigner env ctx deployment nodes fs signer in
      match c with
      | (None, _, _) => fail (PlainError "nil compile result")
      | (Some r, sub, skipped) =>
          do! cred <- pinned_for "controller: loading operator credential to stage" (GetOperatorCredential ctx t) in
          lift (requireTelemetryProbeKeystone (CR_Topology (RR_Result r)) (bool_decide (is_Some cred))) ;;!
          do! skipEnabled <- stageSkipEnabled ctx t cred in
          persistAllocations ctx t topo (CR_Topology (RR_Result r)) (TR_Version rec) (SE_now env) ;;!
          enforceSigningAnchorWithSigner ctx t (SE_now env) signer (SE_rotate env) ;;!
          do! exported <- export_bundles "controller: exporting bundles to stage" r signer in
          stage_exported env ctx t cfg cred skipEnabled sub skipped omitted exported
      end
  end.

Definition empty_stage : StageResult := mkStageResult [] [] [] [] 0.

Definition stage_topology (env : stage_env) (ctx : option string) (t : TenantID) (cfg : stageConfig) (rec : TopologyRecord) (stored : Topology) : Act Core StageResult :=
  let topo := (HealCollidingPins stored).1 in
  do! nodes <- wrap "controller: listing nodes to stage" (ListNodes ctx t) in
  do! p <- lift (PrepareTelemetryPolicyDeployment probe topo nodes (SC_mode cfg)) in
  let '(deployment, omitted) := p in
  do! fs <- stage_settings "controller: loading settings to stage" ctx t nodes in
  do! rs <- lift (projectEnrolledSubgraph deployment nodes) in
  if Nat.eqb (length (Topology_Nodes rs.1)) 0 then
    clear_staged env ctx t ;;! ret (mkStageResult [] [] rs.2 omitted 0)
  else stage_ready env ctx t cfg rec topo deployment omitted nodes fs.

Definition CompileAndStage (env : stage_env) (ctx : option string) (t : TenantID) (cfg : stageConfig) : Act Core StageResult :=
  reconcileKeystoneTrustBoundaryLocked ctx t ;;!
  do! r <- attempt (GetTopology ctx t) in
  match r with
  | Err e => if is_not_found e then ret empty_stage else fail (WrappedError "controller: loading topology to stage" e)
  | Ok rec =>
      match topology_unmarshal (TR_JSON rec) with
      | None => fail (PlainError "controller: parsing stored topology")
      | Some stored => stage_topology env ctx t cfg rec stored
      end
  end.

(** ** The dry run *)

Record NodeDeployChange := mkDeployChange { NDC_NodeID : string; NDC_Name : string; NDC_Changed : bool }.
Record DeployPreviewResult := mkPreview {
  DP_KeystoneFullRestage : bool; DP_Nodes : list NodeDeployChange; DP_SkippedUnenrolled : list string; DP_TelemetryPolicyOmittedNodeIDs : list string }.

Fixpoint preview_nodes (ctx : option string) (t : TenantID) (skipEnabled : bool) (exported : gmap string files) (nodes : list Node) : Act Core (list NodeDeployChange) :=
  match nodes with
  | [] => ret []
  | n :: rest =>
      do! f <- read_bundle exported (Node_ID n) in
      do! unchanged <- is_unchanged ctx t skipEnabled (Node_ID n) (bundleSHA256 <$> f !! "checksums.sha256"%string) in
      do! out <- preview_nodes ctx t skipEnabled exported rest in
      ret (mkDeployChange (Node_ID n) (Node_Name n) (negb unchanged) :: out)
  end.

Definition preview_ready (env : stage_env) (ctx : option string) (t : TenantID) (deployment : Topology) (omitted : list string) (nodes : list RegistryNode) (fs : FetchSettings)
  : Act Core DeployPreviewResult :=
  match SE_signer env with
  | Err d => fail (PlainError ("controller: loading bundle signing key: " +:+ d))
  | Ok signer =>
      do! c <- CompileSubgraphWithSigner env ctx deployment nodes fs signer in
      match c with
      | (None, _, skipped) => ret (mkPreview false [] skipped omitted)
      | (Some r, sub, skipped) =>
          do! cred <- pinned_for "controller: loading operator credential to preview" (GetKeystoneCredential ctx t) in
          lift (requireTelemetryProbeKeystone (CR_Topology (RR_Result r)) (bool_decide (is_Some cred))) ;;!
          do! skipEnabled <- stageSkipEnabled ctx t cred in
          do! exported <- export_bundles "controller: exporting bundles to preview" r signer in
          do! out <- preview_nodes ctx t skipEnabled exported (Topology_Nodes sub) in
          ret (mkPreview (negb skipEnabled) out skipped omitted)
      end
  end.

Definition DeployPreview (env : stage_env) (ctx : option string) (t : TenantID) (topo : Topology) (mode : TelemetryPolicyDeployMode) : Act Core DeployPreviewResult :=
  do! nodes <- wrap "controller: listing nodes to preview" (ListNodes ctx t) in
  do! p <- lift (PrepareTelemetryPolicyDeployment probe topo nodes mode) in
  let '(prepared, omitted) := p in
  let deployment := (HealCollidingPins prepared).1 in
  do! fs <- stage_settings "controller: loading settings to preview" ctx t nodes in
  do! rs <- lift (projectEnrolledSubgraph deployment nodes) in
  if Nat.eqb (length (Topology_Nodes rs.1)) 0 then ret (mkPreview false [] rs.2 omitted)
  else preview_ready env ctx t deployment omitted nodes fs.

(** ** What a node is served *)

(** The file map of [HandleConfig]. *)
Definition config_files (sc : ServedConfig) : result store_error files :=
  let f := served_files (SC_Bundle sc) in
  if SC_KeystoneOn sc then
    match SC_TrustList sc with
    | None => Err (coded_error "CodeKeystoneNoSignedManifest")
    | Some sl => Ok (<[ "trustlist.sig"%string := TL_SignatureJSON sl ]> (<[ "trustlist.json"%string := TL_TrustListJSON sl ]> f))
    end
  else Ok f.

Definition HandleConfig (ctx : option string) (t : TenantID) (nodeID : string) (now : Z) : Act Core (Z * files * bool) :=
  do! r <- attempt (GetServedConfig ctx t nodeID) in
  do! sc <- (match r with
             | Ok sc => ret sc
             | Err e => fail (WrappedError (if is_not_found e then "CodeConfigNotFound" else "CodeInternalStorage") e)
             end) in
  ignore (TouchLastSeen ctx t nodeID now) ;;!
  do! n <- attempt (GetNode ctx t nodeID) in
  let rekey := match n with Ok n => RN_RekeyRequested n | Err _ => false end in
  do! f <- lift (config_files sc) in
  ret (SB_Generation (SC_Bundle sc), f, rekey).
End Deploy.
