(* ===== verification/DeployProps.v ===== *)
(** * What a deployment guarantees

    Staging is invisible to the nodes, and the candidate it seals is consistent: its
    bundles verify, and its manifest binds what every ready node is served once it is
    promoted. *)

From stdpp Require Import base gmap strings list sorting.
From Stdlib Require Import ZArith Lia Ascii.
From S2P Require Import Prelude GoLib GoNet GoSha Model LinkID Allocator PeersAlloc Peers Compiler CompilerProps Normalize Findings Schema Pipeline PipelineProps GoText GoBase64 TrustList Bundle BundleProps StoreTypes StoreMonad MemKV StoreCore StoreLogic StoreStage StageProps Promotion ReplaceProps StoreFrame AuditLog CoreState CoreProps Enrollment EnrollProps Keystone KeystoneProps Export ExportProps Release ReleaseProps Deploy.

Local Open Scope Z_scope.
Local Open Scope go_scope.
Local Open Scope store_scope.

Definition staging_colls : list string := [collStaged; collStagedSeal; collStagedTL; collStagedTLHist].

Section Backstage.
Context {B : Type} `{KVLaws B} `{!AuditBackend B} `{!AuditLaws B} (t : TenantID).
#[local] Abbreviation Core := (storeCore B).
Implicit Types s : Core.

(** Side records and staging records of the tenant may differ, nothing else. *)
Record backstage s0 s : Prop := {
  bk_gen : forall t', kv_generation t' s = kv_generation t' s0;
  bk_get : forall t' c k, (t' = t -> c ∉ side_colls /\ c ∉ staging_colls) -> kv_get t' c k s = kv_get t' c k s0 }.

Lemma backstage_refl s : backstage s s.
Proof. by split. Qed.
Lemma backstage_trans s0 s1 s : backstage s0 s1 -> backstage s1 s -> backstage s0 s.
Proof. intros [Hg Hf] [Hg' Hf']. split; [intros t'; by rewrite Hg'|]. intros t' c k Hc. by rewrite Hf', Hf. Qed.
Lemma calm_backstage s0 s : calm t s0 s -> backstage s0 s.
Proof. intros [Hg Hf]. split; [done|]. intros t' c k Hc. apply Hf. intros Ht. by apply Hc. Qed.
Lemma staging_backstage s0 s : staging_only t s0 s -> backstage s0 s.
Proof.
  intros [Hg Hf]. split; [done|]. intros t' c k Hc. apply Hf. intros [-> Hs]. destruct (Hc eq_refl) as [_ Hn]. apply Hn. unfold staging_colls.
  destruct Hs as [-> |[-> |[-> | ->]]]; set_solver.
Qed.

Lemma backstage_served s0 s id : backstage s0 s -> served t id s = served t id s0.
Proof.
  intros [Hg Hf]. rewrite !served_closed, Hg. rewrite !Hf; [done|..]; (intros _; unfold side_colls, staging_colls; split; set_solver).
Qed.

(** A ceremony in the middle of a stage. *)
Lemma keeps_calm {A} (m : Act Core A) s0 : (forall s1, keeps m (calm t s1)) -> keeps m (backstage s0).
Proof.
  intros Hm fs s n Hs. pose proof (Hm s fs s n (calm_refl t s)) as Hr.
  destruct (m fs s n); eapply backstage_trans; try done; by apply calm_backstage.
Qed.

Lemma calm_candidate s0 s : calm t s0 s -> candidate t s = candidate t s0.
Proof.
  intros [Hg Hf]. unfold candidate, next_generation. rewrite Hg, !answer_sealed_candidate.
  assert (forall c k, c ∈ staging_colls -> kv_get t c k s = kv_get t c k s0) as Hst.
  { intros c k Hc. apply Hf. intros _ Hbad. unfold side_colls, staging_colls in *.
    repeat (apply elem_of_cons in Hc as [-> |Hc]; [revert Hbad; clear; set_solver|]). by apply elem_of_nil in Hc. }
  rewrite (kv_list_ext t collStaged t collStaged s s0) by (intros k; apply Hst; unfold staging_colls; set_solver).
  rewrite !Hst by (unfold staging_colls; set_solver). done.
Qed.
End Backstage.

(** ** The loop over the ready nodes *)

Section Loop.
Context {B : Type} `{KVLaws B} `{!AuditBackend B} `{!AuditLaws B} (t : TenantID).
#[local] Abbreviation Core := (storeCore B).
Implicit Types s : Core.
Context (ctx : option string) (cfg : stageConfig) (keystoneOn skipEnabled : bool) (nextGen : Z) (exported : gmap string files) (s0 : Core) (nodes : list Node).

Definition checksum_digest (f : files) : option string := bundleSHA256 <$> f !! "checksums.sha256"%string.
Definition exported_digest (id : string) : option string := exported !! id ≫= checksum_digest.

(** What the accumulated candidate says of the nodes seen so far. *)
Record collected (ids : list string) (acc : stage_acc) : Prop := {
  cl_nodes : (SB_NodeID <$> ac_bundles acc) ++ ac_unchanged acc ≡ₚ ids;
  cl_bundles : forall b, b ∈ ac_bundles acc -> exists f, exported !! SB_NodeID b = Some f /\ b = mkSignedBundle (SB_NodeID b) nextGen (map_to_list f) true false zero_time;
  cl_unchanged : forall id, id ∈ ac_unchanged acc -> exists b, kv_get t collCurrent id s0 = Some (VBundle b) /\ is_Some (exported_digest id) /\ checksum_digest (served_files b) = exported_digest id;
  cl_digests : keystoneOn = true -> forall id, ac_digests acc !! id = if decide (id ∈ ids) then exported_digest id else None;
  cl_present : keystoneOn = true -> forall id, id ∈ ids -> is_Some (exported_digest id);
  cl_keys : keystoneOn = true -> forall id, id ∈ ids -> exists n, n ∈ nodes /\ Node_ID n = id /\ ac_keys acc !! id = Some (Node_WireGuardPublicKey n) }.

Lemma spec_served_digest id :
  spec (servedBundleDigest ctx t id) (eq s0)
    (fun d s => s = s0 /\ (forall x, d = Some x -> exists b, kv_get t collCurrent id s0 = Some (VBundle b) /\ checksum_digest (served_files b) = Some x)) (fun _ => eq s0) (eq s0).
Proof.
  unfold servedBundleDigest. eapply spec_bind with (R := fun r s => s = s0 /\ (forall b, r = Ok b -> kv_get t collCurrent id s0 = Some (VBundle b))).
  - apply spec_attempt. unfold GetCurrentBundle, withLock. apply spec_ctx; [by intros r s _ ->|]. apply spec_readonly; [auto with readonly|..]; [|by intros s e <-|by intros s <-].
    intros s b <- Hb. split; [done|]. intros b' [= <-]. rewrite answer_loadJSON in Hb. unfold decode in Hb. destruct (kv_get t collCurrent id s0) as [v|]; [|done].
    destruct v; try done. by injection Hb as ->.
  - intros [b|e]; apply spec_ret; intros s [-> Hr]; (split; [done|]); intros x Hx; [|done]. exists b. split; [by apply Hr|done].
Qed.

Lemma spec_is_unchanged id digest :
  spec (is_unchanged ctx t skipEnabled id digest) (eq s0)
    (fun u s => s = s0 /\ (u = true -> exists d b, digest = Some d /\ kv_get t collCurrent id s0 = Some (VBundle b) /\ checksum_digest (served_files b) = Some d)) (fun _ => eq s0) (eq s0).
Proof.
  unfold is_unchanged. destruct digest as [d|]; [|by apply spec_ret; intros s ->]. destruct skipEnabled; [|by apply spec_ret; intros s ->].
  eapply spec_bind; [apply spec_served_digest|]. intros served. apply spec_ret. intros s [-> Hs]. split; [done|]. intros ->%bool_decide_eq_true.
  destruct (Hs d eq_refl) as (b & Hb & Hd). by exists d, b.
Qed.

Lemma collected_digests ids acc id :
  collected ids acc -> keystoneOn = true -> is_Some (exported_digest id) ->
  forall id', <[ id := default ""%string (exported_digest id) ]> (ac_digests acc) !! id' = if decide (id' ∈ ids ++ [id]) then exported_digest id' else None.
Proof.
  intros Hc Hk [d Hd] id'. destruct (decide (id' = id)) as [-> |Hne].
  - rewrite lookup_insert_eq, Hd. rewrite decide_True by set_solver. done.
  - rewrite lookup_insert_ne, (cl_digests _ _ Hc) by done. destruct (decide (id' ∈ ids)) as [Hin|Hout]; [by rewrite decide_True by set_solver|by rewrite decide_False by set_solver].
Qed.

Lemma collected_keys ids acc node :
  collected ids acc -> keystoneOn = true -> node ∈ nodes ->
  forall id, id ∈ ids ++ [Node_ID node] -> exists n, n ∈ nodes /\ Node_ID n = id /\ <[ Node_ID node := Node_WireGuardPublicKey node ]> (ac_keys acc) !! id = Some (Node_WireGuardPublicKey n).
Proof.
  intros Hc Hk Hn id Hid. destruct (decide (id = Node_ID node)) as [-> |Hne]; [exists node; by rewrite lookup_insert_eq|].
  rewrite lookup_insert_ne by done. apply (cl_keys _ _ Hc Hk). set_solver.
Qed.

Lemma spec_stage_node ids acc node :
  node ∈ nodes ->
  spec (stage_node ctx t cfg keystoneOn skipEnabled nextGen exported acc node) (fun s => s = s0 /\ collected ids acc)
    (fun acc' s => s = s0 /\ collected (ids ++ [Node_ID node]) acc') (fun _ => eq s0) (eq s0).
Proof.
  intros Hnode. apply spec_pure. intros Hc. unfold stage_node. eapply spec_bind with (R := fun f s => s0 = s /\ exported !! Node_ID node = Some f).
  { unfold read_bundle. destruct (exported !! Node_ID node) as [f|]; [by apply spec_ret; intros s ->|by apply spec_fail; intros s ->]. }
  intros f. apply spec_pure. intros Hf. fold (checksum_digest f). assert (exported_digest (Node_ID node) = checksum_digest f) as Hd by (unfold exported_digest; by rewrite Hf).
  destruct (keystoneOn && bool_decide (checksum_digest f = None)) eqn:Hmiss; [by apply spec_fail; intros s ->|]. cbn zeta.
  assert (keystoneOn = true -> is_Some (exported_digest (Node_ID node))) as Hpres.
  { intros ->. rewrite Hd. apply bool_decide_eq_false in Hmiss. by apply not_eq_None_Some. }
  assert (forall id, id ∈ ids ++ [Node_ID node] -> keystoneOn = true -> is_Some (exported_digest id)) as Hall.
  { intros id [Hin| ->%list_elem_of_singleton]%elem_of_app Hk; [by apply (cl_present _ _ Hc)|by apply Hpres]. }
  eapply spec_bind with (R := fun u s => s = s0 /\ (u = true -> exists d b, checksum_digest f = Some d /\ kv_get t collCurrent (Node_ID node) s0 = Some (VBundle b) /\ checksum_digest (served_files b) = Some d)).
  { destruct (forced cfg (Node_ID node)); [by apply spec_ret; intros s ->|apply spec_is_unchanged]. }
  intros [|]; apply spec_ret; intros s [-> Hu]; (split; [done|]); split; cbn [ac_bundles ac_unchanged ac_digests ac_keys].
  - rewrite app_assoc. by rewrite (cl_nodes _ _ Hc).
  - apply (cl_bundles _ _ Hc).
  - intros id [Hin| ->%list_elem_of_singleton]%elem_of_app; [by apply (cl_unchanged _ _ Hc)|]. destruct (Hu eq_refl) as (d & b & Hfd & Hb & Hbd). exists b. rewrite Hd, Hfd. done.
  - intros Hk. rewrite Hk, <- Hd. apply collected_digests; auto.
  - intros Hk id Hid. by apply Hall.
  - intros Hk. rewrite Hk. by apply collected_keys.
  - rewrite fmap_app, <- app_assoc, <- (cl_nodes _ _ Hc), <- !app_assoc. cbn. f_equiv. by rewrite Permutation_cons_append.
  - intros b [Hin| ->%list_elem_of_singleton]%elem_of_app; [by apply (cl_bundles _ _ Hc)|]. by exists f.
  - apply (cl_unchanged _ _ Hc).
  - intros Hk. rewrite Hk, <- Hd. apply collected_digests; auto.
  - intros Hk id Hid. by apply Hall.
  - intros Hk. rewrite Hk. by apply collected_keys.
Qed.

Lemma spec_stage_nodes todo ids acc :
  (forall n, n ∈ todo -> n ∈ nodes) ->
  spec (stage_nodes ctx t cfg keystoneOn skipEnabled nextGen exported acc todo) (fun s => s = s0 /\ collected ids acc)
    (fun acc' s => s = s0 /\ collected (ids ++ (Node_ID <$> todo)) acc') (fun _ => eq s0) (eq s0).
Proof.
  revert ids acc. induction todo as [|n todo IH]; intros ids acc Hall; cbn [stage_nodes]; [apply spec_ret; by rewrite app_nil_r|].
  eapply spec_bind; [apply spec_stage_node, Hall; by left|]. intros acc'. eapply spec_weaken; [apply (IH (ids ++ [Node_ID n]) acc')|done| |done|done]; [intros x Hx; apply Hall; by right|].
  intros acc2 s. by rewrite <- app_assoc.
Qed.

Lemma collected_nil : collected [] (mkAcc [] [] ∅ ∅).
Proof.
  split; try by intros ? ?%elem_of_nil. 1: done. 2-3: by intros _ id ?%elem_of_nil.
  intros _ id. cbn [ac_digests]. by rewrite lookup_empty, decide_False by set_solver.
Qed.
End Loop.

(** ** Sealing the candidate *)

Section Seal.
Context {B : Type} `{KVLaws B} `{!AuditBackend B} `{!AuditLaws B} `{Crypto} `{Codec} `{Scripts} (t : TenantID).
#[local] Abbreviation Core := (storeCore B).
Implicit Types s : Core.

Definition sealed_as (set : StagedSet) s1 s : Prop := exists s2, installed t (stored_bundles set) (SS_TrustList set) s1 s2 /\ calm t s2 s.

Lemma sealed_as_candidate set s1 s : sealed_as set s1 s -> candidate t s = Ok (stored_bundles set, map SB_NodeID (stored_bundles set), SS_TrustList set).
Proof. intros (s2 & [_ Hc] & Hcalm). by rewrite (calm_candidate _ _ _ Hcalm). Qed.
Lemma sealed_as_backstage set s1 s : sealed_as set s1 s -> backstage t s1 s.
Proof. intros (s2 & [Hso _] & Hcalm). eapply backstage_trans; [by apply staging_backstage|by apply calm_backstage]. Qed.
Lemma sealed_as_calm set s1 s s' : sealed_as set s1 s -> calm t s s' -> sealed_as set s1 s'.
Proof. intros (s2 & Hi & Hc) Hc'. exists s2. split; [done|]. by eapply calm_trans. Qed.

Lemma calm_audit_purged ctx now purged s0 : keeps (audit_purged ctx t now purged : Act Core unit) (calm t s0).
Proof. unfold audit_purged. calm. apply calm_stage_audit. Qed.

Lemma spec_calm_after {A} (m : Act Core A) (P : Core -> Prop) :
  (forall s0, keeps m (calm t s0)) -> (forall s s', P s -> calm t s s' -> P s') -> keeps m P.
Proof. intros Hm HP fs s n Hs. pose proof (Hm s fs s n (calm_refl t s)) as Hr. destruct (m fs s n); by eapply HP. Qed.

Lemma replaced_backstage set s1 s : s = s1 \/ replaced t set s1 s -> backstage t s1 s.
Proof. intros [-> |[[Hso _]|[Hso _]]]; [apply backstage_refl|by apply staging_backstage..]. Qed.

Lemma withdrawn_backstage s1 s : withdrawn t s1 s -> backstage t s1 s.
Proof. intros [Hso _]. by apply staging_backstage. Qed.

Lemma backstage_calm s1 s s' : backstage t s1 s -> calm t s s' -> backstage t s1 s'.
Proof. intros Hb Hc. eapply backstage_trans; [done|by apply calm_backstage]. Qed.

Lemma spec_replace_audited msg env ctx set s1 :
  spec (replace_audited msg env ctx t set) (eq s1) (fun _ s => backstage t s1 s /\ (SS_Bundles set <> [] -> sealed_as set s1 s)) (fun _ => backstage t s1) (backstage t s1).
Proof.
  unfold replace_audited. eapply spec_bind with (R := fun r s => backstage t s1 s /\ (forall p, r = Ok p -> SS_Bundles set <> [] -> sealed_as set s1 s)).
  - apply spec_attempt. eapply spec_weaken; [apply (spec_ReplaceStagedSet t ctx set s1)|done|..].
    + intros p s Hs. destruct (Nat.eqb_spec (length (SS_Bundles set)) 0) as [Hl|Hl].
      * split; [by apply withdrawn_backstage|]. intros p' _ Hne. by destruct (SS_Bundles set).
      * split; [by apply staging_backstage, Hs|]. intros p' _ _. exists s. split; [done|apply calm_refl].
    + intros e s Hs. split; [by apply (replaced_backstage set)|done].
    + intros s Hs. by apply (replaced_backstage set).
  - intros [purged|e].
    + eapply spec_weaken; [apply (spec_calm_after (audit_purged ctx t (SE_now env) purged) (fun s => backstage t s1 s /\ (SS_Bundles set <> [] -> sealed_as set s1 s)))|..].
      * intros s0. apply calm_audit_purged.
      * intros s s' [Hb Hs] Hc. split; [by eapply backstage_calm|]. intros Hne. by eapply sealed_as_calm; [apply Hs|].
      * intros s [Hb Hs]. split; [done|by eapply Hs].
      * done.
      * by intros e s [? _].
      * by intros s [? _].
    + eapply spec_bind with (R := fun _ => backstage t s1); [|intros u; by apply spec_fail].
      eapply spec_weaken; [apply (spec_calm_after (audit_purged ctx t (SE_now env) (SE_pruned env)) (backstage t s1))|by intros s [? _]|done|done|done].
      * intros s0. apply calm_audit_purged.
      * intros s s'. apply backstage_calm.
Qed.

(** The manifest of a stage. *)
Definition manifest_of (digests pubKeys : gmap string string) (sl : StoredTrustList) : Prop :=
  TL_SignatureJSON sl = ""%string /\ Canonical (TrustList.mkTrustList 1 t (StoreTypes.TL_Epoch sl) (stage_members digests pubKeys)) = Ok (TL_TrustListJSON sl).

Lemma spec_build_manifest ctx digests pubKeys s1 :
  spec (buildStagedManifest ctx t digests pubKeys) (eq s1) (fun sl s => s = s1 /\ manifest_of digests pubKeys sl) (fun _ => eq s1) (eq s1).
Proof.
  unfold buildStagedManifest. eapply spec_bind with (R := fun _ => eq s1).
  { unfold last_staged. eapply spec_bind with (R := fun _ => eq s1).
    - apply spec_attempt. unfold GetLastStagedTrustList, withLock. apply spec_ctx; [done|]. apply spec_readonly; [|by intros..]. readonly.
    - intros [stored|e]; [by apply spec_ret|]. destruct (is_not_found e); [by apply spec_ret|by apply spec_fail]. }
  intros last. eapply spec_bind with (R := fun _ => eq s1); [destruct (next_epoch _ _); [by apply spec_ret|by apply spec_fail]|]. intros epoch.
  unfold staged_manifest. destruct (Canonical _) as [c|] eqn:Hc; [|by apply spec_fail]. apply spec_ret. intros s <-. by split.
Qed.

(** What a stage seals, from the state [s1] in which it reads the nodes' bundles. *)
Record release_of (cred : option OperatorCredential) (exported : gmap string files) (nodes : list Node) (r : StageResult) s1 s : Prop := {
  rl_acc : exists acc tl,
    collected t (bool_decide (is_Some cred)) (next_generation t s1) exported s1 nodes (Node_ID <$> nodes) acc /\
    SR_Staged r = SB_NodeID <$> ac_bundles acc /\ SR_UnchangedNodeIDs r = ac_unchanged acc /\
    candidate t s = Ok (stored_bundles (mkStagedSet (next_generation t s1) (ac_bundles acc) tl), map SB_NodeID (stored_bundles (mkStagedSet (next_generation t s1) (ac_bundles acc) tl)), tl) /\
    match cred with None => tl = None | Some _ => exists sl, tl = Some sl /\ manifest_of (ac_digests acc) (ac_keys acc) sl end }.

Lemma spec_stage_exported env ctx cfg cred skipEnabled sub skipped omitted exported s1 :
  spec (stage_exported env ctx t cfg cred skipEnabled sub skipped omitted exported) (eq s1)
    (fun r s => backstage t s1 s /\ (SR_Staged r <> [] -> release_of cred exported (Topology_Nodes sub) r s1 s)) (fun _ => backstage t s1) (backstage t s1).
Proof.
  unfold stage_exported. eapply spec_bind with (R := fun cur s => s1 = s /\ cur = kv_generation t s1).
  { apply keeps_wrap. unfold CurrentGeneration, withLock. apply spec_ctx; [by intros r s _ <-; apply backstage_refl|].
    apply spec_readonly; [auto with readonly|..]; [|by intros s e <- _; apply backstage_refl|by intros s <-; apply backstage_refl].
    intros s a <-. rewrite answer_generation. by intros [= <-]. }
  intros cur. apply spec_pure. intros ->. cbn zeta. fold (next_generation t s1). set (on := bool_decide (is_Some cred)).
  eapply spec_seq; [by apply (spec_stage_nodes t ctx cfg on skipEnabled (next_generation t s1) exported s1 (Topology_Nodes sub) (Topology_Nodes sub) [] (mkAcc [] [] ∅ ∅))
    |intros s <-; split; [done|apply collected_nil]|by intros e s <-; apply backstage_refl|by intros s <-; apply backstage_refl|].
  intros acc. cbn [app]. intros fs s n [-> Hcol]. revert fs s1 n Hcol. intros fs s1 n Hcol.
  enough (spec (if Nat.eqb (length (ac_bundles acc)) 0 then
      replace_audited "controller: clearing staged set on a zero-changed stage" env ctx t (mkStagedSet 0 [] None) ;;!
      appendStageAudit ctx t (SE_now env) "stage-unchanged" "" ;;! ret (mkStageResult [] (ac_unchanged acc) skipped omitted (kv_generation t s1))
    else
      do! manifest <- (if on then do! m <- buildStagedManifest ctx t (ac_digests acc) (ac_keys acc) in ret (Some m) else ret None) in
      replace_audited "controller: replacing staged set" env ctx t (mkStagedSet (next_generation t s1) (ac_bundles acc) manifest) ;;!
      appendStageAudit ctx t (SE_now env) "stage" "" ;;!
      ret (mkStageResult (SB_NodeID <$> ac_bundles acc) (ac_unchanged acc) skipped omitted (next_generation t s1))) (eq s1)
    (fun r s => backstage t s1 s /\ (SR_Staged r <> [] -> release_of cred exported (Topology_Nodes sub) r s1 s)) (fun _ => backstage t s1) (backstage t s1)) as Hspec
    by exact (Hspec fs s1 n eq_refl).
  destruct (Nat.eqb_spec (length (ac_bundles acc)) 0) as [Hl|Hl].
  - eapply spec_bind; [apply spec_replace_audited|]. intros u. eapply spec_bind with (R := fun _ => backstage t s1); [|intros u'; by apply spec_ret; intros s Hs].
    eapply spec_weaken; [apply (spec_calm_after (appendStageAudit ctx t (SE_now env) "stage-unchanged" "") (backstage t s1))|by intros s [? _]|done|done|done];
      [intros s0; apply calm_stage_audit|intros s s'; apply backstage_calm].
  - assert (ac_bundles acc <> []) as Hne by (by intros E; rewrite E in Hl).
    eapply spec_bind with (R := fun m s => s = s1 /\ match cred with None => m = None | Some _ => exists sl, m = Some sl /\ manifest_of (ac_digests acc) (ac_keys acc) sl end).
    { unfold on. destruct cred as [c|]; [|by apply spec_ret; intros s <-]. rewrite bool_decide_eq_true_2 by done.
      eapply spec_seq; [apply spec_build_manifest|done|by intros e s <-; apply backstage_refl|by intros s <-; apply backstage_refl|].
      intros m. apply spec_ret. intros s [-> Hm]. split; [done|]. by exists m. }
    intros tl fs' s n' [-> Htl]. set (set_ := mkStagedSet (next_generation t s1) (ac_bundles acc) tl).
    refine (spec_bind _ _ (eq s1) (fun _ s => backstage t s1 s /\ (SS_Bundles set_ <> [] -> sealed_as set_ s1 s)) _ _ _ (spec_replace_audited _ env ctx set_ s1) _ fs' s1 n' eq_refl).
    intros u. eapply spec_bind with (R := fun _ => sealed_as set_ s1).
    + eapply spec_weaken; [apply (spec_calm_after (appendStageAudit ctx t (SE_now env) "stage" "") (sealed_as set_ s1))|by intros s [_ Hs]; apply Hs|done|..];
        [intros s0; apply calm_stage_audit|intros s s'; apply sealed_as_calm|intros e s; apply sealed_as_backstage|intros s; apply sealed_as_backstage].
    + intros u'. apply spec_ret. intros s Hs. split; [by eapply sealed_as_backstage|]. intros _. split. exists acc, tl. split_and!; [exact Hcol|done|done|by apply (sealed_as_candidate set_ s1)|done].
Qed.
End Seal.

(** ** The whole stage *)

Section Stage.
Context {B : Type} `{KVLaws B} `{!AuditBackend B} `{!AuditLaws B} `{Crypto} `{Codec} `{Scripts} `{TopologyJSON} `{MetricJSON} (t : TenantID).
Context (probe : list TelemetryProbe -> option string) (keygen : Keygen).
#[local] Abbreviation Core := (storeCore B).
Implicit Types s : Core.

(** The stored topology as a stage sees it: decoded, healed, and copied through its encoding. *)
Definition deployable s : option Topology :=
  match kv_get t collTopology "" s with
  | Some (VTopology rec) => match topology_unmarshal (TR_JSON rec) with Some stored => topology_unmarshal (topology_marshal (HealCollidingPins stored).1) | None => None end
  | _ => None
  end.

(** A request for the enrolled part of a topology with the edges of the stored one. *)
Definition stored_edges s (topo : Topology) : Prop := exists copy, deployable s = Some copy /\ Topology_Edges topo = Topology_Edges copy.
Definition enrolled_request s (req : CompileRequest) : Prop :=
  exists topo nodes, stored_edges s topo /\ Req_Topology req = (enrolledSubgraph topo nodes).1 /\ Req_Custody req = AgentHeld.

Lemma prepared_edges topo nodes mode deployment omitted :
  PrepareTelemetryPolicyDeployment probe topo nodes mode = Ok (deployment, omitted) ->
  exists copy, topology_unmarshal (topology_marshal topo) = Some copy /\ Topology_Edges deployment = Topology_Edges copy.
Proof.
  unfold PrepareTelemetryPolicyDeployment. destruct (topology_unmarshal _) as [projected|] eqn:Hu; [|done]. intros ([sub skipped] & _ & Hp)%rbind_Ok_inv.
  destruct (ValidateSchema probe _) as [ready schema]. destruct (negb _); [done|]. exists projected. split; [done|].
  destruct mode; [|by injection Hp as <- _|done]. destruct (negb _); [done|]. by injection Hp as <- _.
Qed.

(** The inputs of the loop: an exported compile, and the state and credential it saw. *)
Definition released env r s0 s : Prop :=
  exists cred signer req rendered w out s1,
    backstage t s0 s1 /\ has_cred t cred s1 /\ SE_signer env = Ok signer /\
    CompileResultCtx probe (SE_ctx env) req = Some (Ok (rendered, w)) /\ Req_SigningKey req = signer /\ ExportWithSigner rendered signer = Ok out /\
    enrolled_request s0 req /\ release_of t cred out (Topology_Nodes (Req_Topology req)) r s1 s.

Lemma spec_compile env ctx topo nodes fs signer s0 :
  stored_edges s0 topo ->
  spec (CompileSubgraphWithSigner probe keygen env ctx topo nodes fs signer : Act Core _) (backstage t s0)
    (fun c s => backstage t s0 s /\ (forall r, c.1.1 = Some r -> exists req w, CompileResultCtx probe (SE_ctx env) req = Some (Ok (r, w)) /\ Req_SigningKey req = signer /\
                                                                    enrolled_request s0 req /\ Req_Topology req = c.1.2))
    (fun _ => backstage t s0) (backstage t s0).
Proof.
  intros Hdec. unfold CompileSubgraphWithSigner. eapply spec_bind with (R := fun rs s => backstage t s0 s /\ rs = enrolledSubgraph topo nodes).
  { unfold projectEnrolledSubgraph. destruct (validateManualNodes topo nodes); [by apply spec_ret|by apply spec_fail]. }
  intros [sub skipped]. apply spec_pure. intros Hsub. destruct (Nat.eqb _ _); [by apply spec_ret|]. eapply spec_bind with (R := fun _ => backstage t s0); [destruct ctx; [by apply spec_fail|by apply spec_ret]|].
  intros u. cbn zeta. destruct (CompileResultCtx _ _ _) as [[[r w]|]|] eqn:Hc; [|by apply spec_fail..]. apply spec_ret. intros s Hs. split; [done|]. intros r' [= <-].
  eexists _, w. split_and!; [exact Hc|done| |done]. exists topo, nodes. split_and!; [done|by rewrite <- Hsub|done].
Qed.

Lemma spec_pinned ctx msg s0 :
  spec (pinned_for msg (GetOperatorCredential ctx t) : Act Core _) (backstage t s0) (fun c s => backstage t s0 s /\ has_cred t c s) (fun _ => backstage t s0) (backstage t s0).
Proof.
  unfold pinned_for. eapply spec_bind with (R := fun r s => backstage t s0 s /\ match r with Ok c => has_cred t (Some c) s | Err e => is_not_found e = true -> has_cred t None s end).
  - apply spec_attempt. apply spec_readonly; [apply readonly_credential|..]; [| |done].
    + intros s c Hs Ha. split; [done|]. destruct ctx; [done|]. unfold GetOperatorCredential, withLock in Ha. rewrite answer_bind in Ha by (auto with readonly).
      cbn [check_ctx rbind answer ret] in Ha. rewrite answer_loadJSON in Ha. unfold has_cred, decode in *. destruct (kv_get t collOperatorCred "" s) as [v|]; [|done]. destruct v; try done. by injection Ha as ->.
    + intros s e Hs He. split; [done|]. intros Hn. destruct He as [Ha|Hb]; [|by rewrite (backend_error_not_found _ Hb) in Hn]. destruct ctx; [by injection Ha as <-|].
      unfold GetOperatorCredential, withLock in Ha. rewrite answer_bind in Ha by (auto with readonly).
      cbn [check_ctx rbind answer ret] in Ha. rewrite answer_loadJSON in Ha. unfold has_cred, decode in *. destruct (kv_get t collOperatorCred "" s) as [v|]; [|done]. destruct v; try done; by injection Ha as <-.
  - intros [c|e]; [by apply spec_ret|]. destruct (is_not_found e) eqn:Hn; [|by apply spec_fail; intros s [? _]]. apply spec_ret. intros s [Hs Hc]. by split; [|apply Hc].
Qed.

(** A ceremony after the credential is read. *)
Lemma keeps_pinned {A} (m : Act Core A) s0 c (E : store_error -> Core -> Prop) (C : Core -> Prop) :
  (forall s1, keeps m (calm t s1)) -> (forall e s, backstage t s0 s -> E e s) -> (forall s, backstage t s0 s -> C s) ->
  spec m (fun s => backstage t s0 s /\ has_cred t c s) (fun _ s => backstage t s0 s /\ has_cred t c s) E C.
Proof.
  intros Hm HE HC. assert (keeps m (fun s => backstage t s0 s /\ has_cred t c s)) as Hk.
  { apply (spec_calm_after t); [done|]. intros s s' [Hb Hh] Hc. split; [by eapply backstage_calm|]. unfold has_cred in *. by rewrite (calm_cred _ _ _ Hc). }
  eapply spec_weaken; [exact Hk|done|done|by intros e s [? _]; apply HE|by intros s [? _]; apply HC].
Qed.

Lemma calm_skip ctx c s0 : keeps (stageSkipEnabled ctx t c : Act Core bool) (calm t s0).
Proof. unfold stageSkipEnabled, KeystoneRedeployRequired, GetServedTrustList. calm. Qed.
Lemma calm_lift {A} (r : result store_error A) s0 : keeps (lift r : Act Core A) (calm t s0).
Proof. unfold lift. calm. Qed.
Lemma calm_persist_allocations ctx full compiled v now s0 : keeps (persistAllocations ctx t full compiled v now : Act Core unit) (calm t s0).
Proof. unfold persistAllocations. calm. apply calm_persist. Qed.

Lemma spec_stage_ready env ctx cfg rec topo deployment omitted nodes fs s0 :
  stored_edges s0 deployment ->
  spec (stage_ready probe keygen env ctx t cfg rec topo deployment omitted nodes fs : Act Core StageResult) (backstage t s0)
    (fun r s => backstage t s0 s /\ (SR_Staged r <> [] -> released env r s0 s)) (fun _ => backstage t s0) (backstage t s0).
Proof.
  intros Hdec. unfold stage_ready. destruct (SE_signer env) as [signer|] eqn:Hsigner; [|by apply spec_fail].
  eapply spec_bind; [by apply spec_compile|]. intros [[[r|] sub] skipped]; [|by apply spec_fail; intros s [? _]]. cbn [fst snd].
  apply spec_pure. intros Hr. destruct (Hr r eq_refl) as (req & w & Hcomp & Hkey & Henr & <-).
  eapply spec_bind; [apply spec_pinned|]. intros cred.
  eapply spec_bind; [apply (keeps_pinned _ s0 cred); [intros s1; apply calm_lift|done|done]|intros u1].
  eapply spec_bind; [apply (keeps_pinned _ s0 cred); [intros s1; apply calm_skip|done|done]|intros skipEnabled].
  eapply spec_bind; [apply (keeps_pinned _ s0 cred); [intros s1; apply calm_persist_allocations|done|done]|intros u2].
  eapply spec_bind; [apply (keeps_pinned _ s0 cred); [intros s1; apply calm_anchor|done|done]|intros u3].
  eapply spec_bind with (R := fun out s => (backstage t s0 s /\ has_cred t cred s) /\ ExportWithSigner r signer = Ok out).
  { unfold export_bundles. eapply spec_bind with (R := fun out s => (backstage t s0 s /\ has_cred t cred s) /\ out = ExportWithSigner r signer); [apply spec_read; [done|by intros msg s [? _]|by intros s [? _]]|].
    intros out. apply spec_pure. intros ->. destruct (ExportWithSigner r signer); [by apply spec_ret|by apply spec_fail; intros s [? _]]. }
  intros out. apply spec_pure. intros Hout fs' s n [Hb Hh].
  pose proof (spec_stage_exported t env ctx cfg cred skipEnabled (Req_Topology req) skipped omitted out s fs' s n eq_refl) as Hx.
  destruct (stage_exported _ _ _ _ _ _ _ _ _ _ _ _ _) as [res s' k|e s' k|s'].
  - destruct Hx as [Hb' Hrel]. split; [by eapply backstage_trans|]. intros Hne. exists cred, signer, req, r, w, out, s. split_and!; try done. by apply Hrel.
  - by eapply backstage_trans.
  - by eapply backstage_trans.
Qed.

Lemma spec_clear env ctx s0 : keeps (clear_staged env ctx t : Act Core unit) (backstage t s0).
Proof.
  intros fs s n Hs. refine (spec_bind _ _ (eq s) (fun _ => backstage t s0) _ _ _ _ _ fs s n eq_refl).
  - apply keeps_wrap. eapply spec_weaken; [apply (spec_ReplaceStagedSet t ctx _ s)|done|..].
    + intros p s' Hw. eapply backstage_trans; [done|]. by apply withdrawn_backstage.
    + intros e s' Hr. eapply backstage_trans; [done|]. by apply (replaced_backstage t (mkStagedSet 0 [] None)).
    + intros s' Hr. eapply backstage_trans; [done|]. by apply (replaced_backstage t (mkStagedSet 0 [] None)).
  - intros purged. apply keeps_calm. intros s1. calm; [apply calm_audit_purged|apply calm_stage_audit].
Qed.

Lemma spec_stage_topology env ctx cfg rec stored s0 :
  kv_get t collTopology "" s0 = Some (VTopology rec) -> topology_unmarshal (TR_JSON rec) = Some stored ->
  spec (stage_topology probe keygen env ctx t cfg rec stored : Act Core StageResult) (backstage t s0)
    (fun r s => backstage t s0 s /\ (SR_Staged r <> [] -> released env r s0 s)) (fun _ => backstage t s0) (backstage t s0).
Proof.
  intros Hrec Hstored. unfold stage_topology. cbn zeta. eapply spec_bind with (R := fun _ => backstage t s0).
  { apply keeps_wrap. intros fs s n Hs. pose proof (spec_list_nodes t ctx s fs s n eq_refl) as Hl. destruct (ListNodes ctx t fs s n); [by destruct Hl as [-> _]|by subst..]. }
  intros nodes. eapply spec_bind with (R := fun p s => backstage t s0 s /\ stored_edges s0 p.1).
  { destruct (PrepareTelemetryPolicyDeployment _ _ _ _) as [[d o]|] eqn:Hp; [|by apply spec_fail]. apply spec_ret. intros s Hs. split; [done|].
    destruct (prepared_edges _ _ _ _ _ Hp) as (copy & Hcopy & He). exists copy. unfold deployable. by rewrite Hrec, Hstored. }
  intros [deployment omitted]. apply spec_pure. cbn [fst]. intros Hdec.
  eapply spec_bind with (R := fun _ => backstage t s0); [apply keeps_calm; intros; unfold stage_settings, GetSettings; calm|]. intros fs.
  eapply spec_bind with (R := fun _ => backstage t s0); [apply keeps_calm; intros; apply calm_lift|]. intros rs.
  destruct (Nat.eqb _ _); [|by apply spec_stage_ready]. eapply spec_bind with (R := fun _ => backstage t s0); [apply spec_clear|]. intros u. by apply spec_ret.
Qed.

(** The reconciliation before a stage leaves the stored topology alone. *)
Section Untouched.
Context (v : option value).
#[local] Abbreviation untouched := (fun s => kv_get t collTopology "" s = v).

Lemma untouched_bind {A A'} (m : Act Core A) (k : A -> Act Core A') : keeps m untouched -> (forall a, keeps (k a) untouched) -> keeps (abind m k) untouched.
Proof. intros Hm Hk. by apply spec_bind with (R := fun _ => untouched). Qed.

Lemma untouched_del c k : c <> collTopology -> keeps (del t c k : Act Core unit) untouched.
Proof.
  intros Hc. assert (forall s, untouched s -> untouched (kv_del t c k s)) as Hd by (intros s Hs; rewrite get_del; by destruct (decide _) as [(_ & ? & _)|]).
  apply spec_write; [exact Hd|intros _ s Hs; exact (conj Hs (Hd s Hs))|intros s Hs; exact (conj Hs (Hd s Hs))].
Qed.

Lemma untouched_audit ctx e : keeps (AppendAudit ctx t e : Act Core _) untouched.
Proof. apply spec_ctx; [done|]. apply spec_update; [intros s Hs|intros _ s Hs; split; [exact Hs|]|intros s Hs; split; [exact Hs|]]; by rewrite get_append. Qed.

Ltac untouched_step :=
  match goal with
  | |- keeps (ret _) _ => by apply spec_ret
  | |- keeps (fail _) _ => by apply spec_fail
  | |- keeps (check_ctx ?c) _ => destruct c; [by apply spec_fail|by apply spec_ret]
  | |- keeps (prim_read _) _ => by apply spec_read
  | |- keeps (attempt _) _ => apply spec_attempt
  | |- keeps (wrap _ _) _ => apply keeps_wrap
  | |- keeps (AppendAudit _ _ _) _ => apply untouched_audit
  | |- spec (AppendAudit _ _ _) _ _ _ _ => apply untouched_audit
  | |- keeps (del _ _ _) _ => by apply untouched_del
  | |- keeps (abind _ _) _ => apply untouched_bind; [|intros ?]
  | |- keeps (match ?x with _ => _ end) _ => destruct x
  | |- spec ?m ?I _ _ _ => change (keeps m I)
  end.

Lemma untouched_reconcile ctx : keeps (reconcileKeystoneTrustBoundaryLocked ctx t : Act Core unit) untouched.
Proof.
  unfold reconcileKeystoneTrustBoundaryLocked, reconcilePendingKeystoneTransitionLocked, GetPendingKeystoneTransition, currentKeystoneCredential, GetOperatorCredential,
    ensurePendingKeystoneAuditLocked, append_observed, findPendingKeystoneAudit, ListAudit, DeletePendingKeystoneTransition, withLock, load_optional, loadJSON, get.
  repeat untouched_step.
Qed.
End Untouched.

Lemma spec_reconciled ctx s0 :
  spec (reconcileKeystoneTrustBoundaryLocked ctx t : Act Core unit) (eq s0)
    (fun _ s => backstage t s0 s /\ kv_get t collTopology "" s = kv_get t collTopology "" s0) (fun _ => backstage t s0) (backstage t s0).
Proof.
  intros fs s n <-. pose proof (calm_reconcile t ctx s0 fs s0 n (calm_refl t s0)) as Hc. pose proof (untouched_reconcile (kv_get t collTopology "" s0) ctx fs s0 n eq_refl) as Hu.
  destruct (reconcileKeystoneTrustBoundaryLocked ctx t fs s0 n); [split; [by apply calm_backstage|exact Hu]|by apply calm_backstage..].
Qed.

Lemma spec_topology ctx s0 :
  spec (GetTopology ctx t : Act Core _) (fun s => backstage t s0 s /\ kv_get t collTopology "" s = kv_get t collTopology "" s0)
    (fun rec s => backstage t s0 s /\ kv_get t collTopology "" s0 = Some (VTopology rec)) (fun _ => backstage t s0) (backstage t s0).
Proof.
  unfold GetTopology, withLock. apply spec_ctx; [by intros r s _ []|]. apply spec_readonly; [auto with readonly| |by intros s e []|by intros s []].
  intros s rec [Hb Hk]. rewrite answer_loadJSON, Hk. unfold decode. destruct (kv_get t collTopology "" s0) as [w|]; [|done]. destruct w; try done. by intros [= ->].
Qed.

Lemma spec_CompileAndStage env ctx cfg s0 :
  spec (CompileAndStage probe keygen env ctx t cfg : Act Core StageResult) (eq s0)
    (fun r s => backstage t s0 s /\ (SR_Staged r <> [] -> released env r s0 s)) (fun _ => backstage t s0) (backstage t s0).
Proof.
  unfold CompileAndStage. eapply spec_bind; [apply spec_reconciled|]. intros u.
  eapply spec_bind with (R := fun r s => backstage t s0 s /\ match r with Ok rec => kv_get t collTopology "" s0 = Some (VTopology rec) | Err _ => True end).
  { apply spec_attempt. eapply spec_weaken; [apply (spec_topology ctx s0)|done|done|intros e s Hs; by split|done]. }
  intros [rec|e]; apply spec_pure; intros Hrec.
  - destruct (topology_unmarshal _) as [stored|] eqn:Hu; [by apply spec_stage_topology|by apply spec_fail].
  - destruct (is_not_found e); [by apply spec_ret|by apply spec_fail].
Qed.

(** *** The sealed candidate *)

Lemma served_files_flags x y b : served_files (set_flags x y b) = served_files b.
Proof. by destruct b. Qed.

Lemma stored_bundles_elem set b : b ∈ stored_bundles set <-> exists b', b' ∈ SS_Bundles set /\ b = set_flags true false b'.
Proof.
  unfold stored_bundles. rewrite list_elem_of_fmap. split.
  - intros (b' & -> & Hin). rewrite sort_by_perm in Hin. by exists b'.
  - intros (b' & Hin & ->). exists b'. by rewrite sort_by_perm.
Qed.
Lemma stored_bundles_ids set : map SB_NodeID (stored_bundles set) ≡ₚ SB_NodeID <$> SS_Bundles set.
Proof. unfold stored_bundles. rewrite map_ids_flags. change (map SB_NodeID) with (fmap (M := list) SB_NodeID). by rewrite sort_by_perm. Qed.

(** The record that a promotion leaves for a collected node has its exported digest. *)
Lemma collected_current on gen out s1 nodes ids acc tl id s :
  collected t on gen out s1 nodes ids acc -> let bs := stored_bundles (mkStagedSet gen (ac_bundles acc) tl) in NoDup (map SB_NodeID bs) ->
  kv_get t collCurrent id s = kv_get t collCurrent id s1 -> id ∈ ids ->
  exists b, new_current bs id (kv_get t collCurrent id s) = Some (VBundle b) /\ checksum_digest (served_files b) = exported_digest out id.
Proof.
  intros Hc bs Hnd Hcur Hid. destruct (decide (id ∈ map SB_NodeID bs)) as [(b & Hb & Hin)%list_elem_of_fmap|Hout].
  - exists (set_flags false true b). rewrite (new_current_in bs id b) by done. split; [done|]. rewrite served_files_flags.
    apply stored_bundles_elem in Hin as (b' & Hin & ->). rewrite SB_NodeID_set_flags in Hb. destruct (cl_bundles _ _ _ _ _ _ _ _ Hc b' Hin) as (f & Hf & Hb').
    rewrite served_files_flags, Hb'. unfold exported_digest, served_files. cbn [SB_Files]. rewrite list_to_map_to_list, Hb, Hf. done.
  - rewrite new_current_out by done. rewrite Hcur. rewrite <- (cl_nodes _ _ _ _ _ _ _ _ Hc) in Hid. apply elem_of_app in Hid as [Hid|Hid].
    + destruct Hout. unfold bs. rewrite stored_bundles_ids. exact Hid.
    + destruct (cl_unchanged _ _ _ _ _ _ _ _ Hc id Hid) as (b & Hb & _ & Hd). by exists b.
Qed.

Lemma stage_members_ids digests keys : M_NodeID <$> stage_members digests keys = (map_to_list digests).*1.
Proof. unfold stage_members. rewrite <- list_fmap_compose. by apply list_fmap_ext. Qed.

Lemma released_bundles_verify env out signer req rendered w pinned on gen s1 nodes ids acc tl b :
  CompileResultCtx probe (SE_ctx env) req = Some (Ok (rendered, w)) -> Req_SigningKey req = signer -> ExportWithSigner rendered signer = Ok out -> signer_verifies signer pinned ->
  collected t on gen out s1 nodes ids acc -> b ∈ stored_bundles (mkStagedSet gen (ac_bundles acc) tl) ->
  exists count, VerifyBundle (served_files b) pinned = Ok (mkVerify (bool_decide (is_Some signer)) count).
Proof.
  intros Hcomp <- Hout Hs Hc (b' & Hin & ->)%stored_bundles_elem. destruct (cl_bundles _ _ _ _ _ _ _ _ Hc b' Hin) as (f & Hf & Hb'). rewrite served_files_flags, Hb'.
  unfold served_files. cbn [SB_Files]. rewrite list_to_map_to_list. destruct (ExportWithSigner_ids _ _ _ _ _ Hout Hf) as (n & Hn & Hid).
  destruct (exported_verifies _ _ _ _ _ _ _ _ Hcomp Hout Hs Hn) as (f' & members & Hf' & _ & _ & _ & Hv). rewrite Hid, Hf in Hf'. injection Hf' as <-. by eexists.
Qed.

(** C10. What is staged can be deployed.  When a stage reports staged nodes, exactly
    their bundles are the sealed candidate, and each passes the verification of the
    agents.  With a keystone, the manifest of the candidate is unsigned, is canonical,
    has one member for every ready node, staged or left unchanged, and gives for each
    the digest of the bundle that the node is served once the candidate is promoted;
    without a keystone there is no manifest. *)
Theorem staged_release_is_consistent env ctx cfg fs s n r s' k :
  CompileAndStage probe keygen env ctx t cfg fs s n = Done r s' k -> SR_Staged r <> [] ->
  exists bundles tl, candidate t s' = Ok (bundles, map SB_NodeID bundles, tl) /\ map SB_NodeID bundles ≡ₚ SR_Staged r /\
    (forall b signer pinned, b ∈ bundles -> SE_signer env = Ok signer -> signer_verifies signer pinned ->
       exists count, VerifyBundle (served_files b) pinned = Ok (mkVerify (bool_decide (is_Some signer)) count)) /\
    match kv_get t collOperatorCred "" s' with
    | None => tl = None
    | Some _ => exists sl members, tl = Some sl /\ TL_SignatureJSON sl = ""%string /\
        Canonical (TrustList.mkTrustList 1 t (StoreTypes.TL_Epoch sl) members) = Ok (TL_TrustListJSON sl) /\
        M_NodeID <$> members ≡ₚ remove_dups (SR_Staged r ++ SR_UnchangedNodeIDs r) /\
        forall m, m ∈ members -> exists b, new_current bundles (M_NodeID m) (kv_get t collCurrent (M_NodeID m) s') = Some (VBundle b) /\
                                          checksum_digest (served_files b) = Some (M_BundleSHA256 m)
    end.
Proof.
  intros Hrun Hne. pose proof (spec_CompileAndStage env ctx cfg s fs s n eq_refl) as Hs. rewrite Hrun in Hs. destruct Hs as [Hb Hrel].
  destruct (Hrel Hne) as (cred & signer & req & rendered & w & out & s1 & Hb1 & Hcred & Hsigner & Hcomp & Hkey & Hout & _ & [(acc & tl & Hc & Hst & Hun & Hcand & Htl)]).
  set (bundles := stored_bundles _) in Hcand. exists bundles, tl. pose proof (candidate_Ok _ _ _ _ _ Hcand) as (_ & Hnd & _). split_and!.
  - exact Hcand.
  - rewrite Hst. apply stored_bundles_ids.
  - intros b signer' pinned Hin Hsg Hv. rewrite Hsigner in Hsg. injection Hsg as <-. by eapply (released_bundles_verify _ _ _ _ _ _ _ _ _ _ _ _ _ tl).
  - assert (forall c, c ∉ side_colls -> c ∉ staging_colls -> forall key, kv_get t c key s' = kv_get t c key s1) as Hsame.
    { intros c Hc1 Hc2 key. rewrite (bk_get _ _ _ Hb), (bk_get _ _ _ Hb1); done. }
    assert (kv_get t collOperatorCred "" s' = VCredential <$> cred) as -> by (rewrite Hsame; [exact Hcred|unfold side_colls, staging_colls; set_solver..]).
    destruct cred as [c|]; [|done]. cbn [fmap option_fmap option_map]. destruct Htl as (sl & -> & Hsig & Hcan). rewrite bool_decide_eq_true_2 in Hc by done.
    exists sl, (stage_members (ac_digests acc) (ac_keys acc)). split_and!; [done..| |].
    + rewrite stage_members_ids, Hst, Hun. apply NoDup_Permutation; [apply NoDup_fst_map_to_list|apply NoDup_remove_dups|]. intros id.
      rewrite elem_of_remove_dups, (cl_nodes _ _ _ _ _ _ _ _ Hc). rewrite list_elem_of_fmap. split.
      * intros ([id' d] & -> & Hd%elem_of_map_to_list). rewrite (cl_digests _ _ _ _ _ _ _ _ Hc eq_refl) in Hd. by destruct (decide _).
      * intros Hid. destruct (cl_present _ _ _ _ _ _ _ _ Hc eq_refl id Hid) as [d Hd]. exists (id, d). split; [done|]. apply elem_of_map_to_list.
        rewrite (cl_digests _ _ _ _ _ _ _ _ Hc eq_refl). by rewrite decide_True.
    + intros m (e & -> & He)%list_elem_of_fmap. destruct e as [id d]. cbn [M_NodeID M_BundleSHA256 fst snd]. apply elem_of_map_to_list in He.
      rewrite (cl_digests _ _ _ _ _ _ _ _ Hc eq_refl) in He. destruct (decide (id ∈ _)) as [Hid|]; [|done].
      destruct (collected_current _ _ _ _ _ _ _ (Some sl) id s' Hc Hnd) as (b & Hb' & Hd'); [|done|].
      { apply Hsame; unfold side_colls, staging_colls; set_solver. }
      exists b. split; [exact Hb'|]. by rewrite Hd', He.
Qed.

(** C21. Staging is invisible to the fleet.  Whatever fails or dies during a stage,
    every node is served afterwards exactly what it was served before. *)
Theorem staging_is_invisible env ctx cfg fs s n id :
  served t id (outcome_state (CompileAndStage probe keygen env ctx t cfg fs s n)) = served t id s.
Proof.
  apply backstage_served. pose proof (spec_CompileAndStage env ctx cfg s fs s n eq_refl) as Hs. destruct (CompileAndStage _ _ _ _ _ _ _ _ _); cbn [outcome_state]; [apply Hs|exact Hs..].
Qed.
End Stage.

(** ** A concrete deployment *)

#[local] Instance toy_topology_json : TopologyJSON := {| topology_marshal _ := "topology"%string; topology_unmarshal s := if String.eqb s "topology" then Some ex_compile_topo else None |}.
#[local] Instance toy_metric_json : MetricJSON := {| unmarshal_capabilities _ := None |}.
#[local] Existing Instance toy_crypto.
#[local] Existing Instance toy_codec.
#[local] Existing Instance toy_scripts.

Definition ex_registered (id : string) : RegistryNode := mkRegistryNode id (toy_public id) "" NodeApproved 0 0 "" "" "" [] [] zero_time zero_time false.
Definition ex_fleet_store : storeCore memStore :=
  outcome_state ((for_all (fun id => UpsertNode None "acme" (ex_registered id)) ["a"; "b"; "c"]%string ;;! PutTopology None "acme" "topology" 0 ;;! ret tt) no_faults
    (kv_put "acme" collOperatorCred "" (VCredential ex_operator) (newStoreCore newMemStore)) 0%nat).
Definition ex_env : stage_env := mkStageEnv 5 0 Background (Ok (Some toy_signer)) false [].
Definition ex_cfg : stageConfig := mkStageConfig false ∅ DeployNormal.
Definition ex_stage : outcome (storeCore memStore) StageResult := CompileAndStage ex_probe toy_keygen ex_env None "acme" ex_cfg no_faults ex_fleet_store 0%nat.

Lemma ex_stage_done : exists r s' k, ex_stage = Done r s' k /\ SR_Staged r = ["a"; "b"; "c"]%string.
Proof.
  assert (match ex_stage with Done r _ _ => bool_decide (SR_Staged r = ["a"; "b"; "c"]%string) | _ => false end = true) as Hb by (vm_compute; reflexivity).
  destruct ex_stage as [r s' k|e s' k|s']; [|done..]. apply bool_decide_eq_true in Hb. by exists r, s', k.
Qed.

Lemma staging_is_invisible_witness :
  served "acme" "a" (outcome_state (CompileAndStage ex_probe toy_keygen ex_env None "acme" ex_cfg (crash_at 40) ex_fleet_store 0%nat)) = served "acme" "a" ex_fleet_store.
Proof. exact (staging_is_invisible (B := memStore) "acme" ex_probe toy_keygen ex_env None ex_cfg (crash_at 40) ex_fleet_store 0%nat "a"). Defined.

Lemma staged_release_is_consistent_witness :
  exists r s' k bundles tl, ex_stage = Done r s' k /\ candidate "acme" s' = Ok (bundles, map SB_NodeID bundles, tl) /\ map SB_NodeID bundles ≡ₚ ["a"; "b"; "c"]%string.
Proof.
  destruct ex_stage_done as (r & s' & k & Hrun & Hst). assert (SR_Staged r <> []) as Hne by (rewrite Hst; discriminate).
  destruct (staged_release_is_consistent (B := memStore) "acme" ex_probe toy_keygen ex_env None ex_cfg no_faults ex_fleet_store 0%nat r s' k Hrun Hne) as (bundles & tl & Hc & Hp & _).
  exists r, s', k, bundles, tl. rewrite <- Hst. split; [exact Hrun|]. split; [exact Hc|exact Hp].
Defined.
