(* ===== verification/SignProps.v ===== *)
(** * The off-host signature

    Installing the operator's signature changes the signature of the sealed candidate
    and nothing else that is promoted or served. *)

From stdpp Require Import base gmap strings list sorting.
From Stdlib Require Import ZArith Lia Ascii.
From S2P Require Import Prelude GoLib GoSha LinkID GoText GoBase64 TrustList Bundle BundleProps StoreTypes StoreMonad MemKV StoreCore StoreLogic StoreStage StageProps Promotion ReplaceProps StoreFrame AuditLog CoreState CoreProps Enrollment EnrollProps Keystone KeystoneProps Export Release ReleaseProps Deploy DeployProps.

Local Open Scope Z_scope.
Local Open Scope go_scope.
Local Open Scope store_scope.

Lemma sameStringSet_eq a b : sameStringSet a b = true -> a = b.
Proof.
  revert b. induction a as [|x a IH]; intros [|y b]; cbn [sameStringSet]; try done. intros [->%String.eqb_eq Hs]%andb_true_iff. by rewrite (IH b Hs).
Qed.

Section Sign.
Context {B : Type} `{KVLaws B} `{!AuditBackend B} `{!AuditLaws B} `{Crypto} `{Codec} `{SignatureJSON} (t : TenantID).
#[local] Abbreviation Core := (storeCore B).
Implicit Types s : Core.

(** The records that make a candidate. *)
Record sealed (bs : list SignedBundle) (tl : option StoredTrustList) (seal : stagedSetSeal) s : Prop := {
  sl_seal : seal_view (kv_get t collStagedSeal "" s) = Ok seal;
  sl_gen : Seal_Generation seal = next_generation t s;
  sl_live : Seal_Historical seal = false;
  sl_some : Seal_NodeIDs seal <> [];
  sl_bundles : collect_staged (next_generation t s) (kv_list t collStaged s) = Ok bs;
  sl_ids : Seal_NodeIDs seal = map SB_NodeID bs;
  sl_manifest : manifest_view seal (kv_get t collStagedTL "" s) = Ok tl }.

Lemma candidate_sealed s bs ids tl : candidate t s = Ok (bs, ids, tl) -> exists seal, sealed bs tl seal s.
Proof.
  unfold candidate. rewrite answer_sealed_candidate. unfold candidate_view. destruct (seal_view _) as [seal|e] eqn:Hs; [|by destruct (is_not_found e)].
  destruct (Z.eqb_spec (Seal_Generation seal) (next_generation t s)) as [Hg|]; [|done]. cbn [negb]. destruct (Seal_Historical seal) eqn:Hh; [done|]. cbn [orb].
  destruct (Nat.eqb_spec (length (Seal_NodeIDs seal)) 0) as [|Hl]; [done|]. destruct (collect_staged _ _) as [bs'|] eqn:Hb; [|done].
  destruct (sameStringSet _ _) eqn:Hi; [|done]. cbn [negb]. destruct (manifest_view _ _) as [tl'|] eqn:Hm; [|done]. cbn [rbind]. intros [= <- <- <-].
  exists seal. split; try done; [by intros E; rewrite E in Hl|by apply sameStringSet_eq in Hi].
Qed.

Lemma sealed_candidate_Ok s bs tl seal : sealed bs tl seal s -> candidate t s = Ok (bs, map SB_NodeID bs, tl).
Proof.
  intros [Hs Hg Hh Hn Hb Hi Hm]. unfold candidate. rewrite answer_sealed_candidate. unfold candidate_view. rewrite Hs, Hg, Z.eqb_refl, Hh. cbn [negb orb].
  destruct (Nat.eqb_spec (length (Seal_NodeIDs seal)) 0) as [Hl|_]; [by destruct (Seal_NodeIDs seal)|]. rewrite Hb, Hi, sameStringSet_refl. cbn [negb]. by rewrite Hm.
Qed.

(** The same list with another signature. *)
Definition resigned (sl sl' : StoredTrustList) : Prop := TL_TrustListJSON sl' = TL_TrustListJSON sl /\ StoreTypes.TL_Epoch sl' = StoreTypes.TL_Epoch sl.

Lemma manifest_view_Some seal v sl :
  manifest_view seal v = Ok (Some sl) ->
  Seal_HasTrustList seal = true /\ Seal_TrustListEpoch seal = StoreTypes.TL_Epoch sl /\ Seal_TrustListSHA256 seal = trustListSHA256 (TL_TrustListJSON sl).
Proof.
  unfold manifest_view. destruct (Seal_HasTrustList seal); [|done]. cbn [negb]. destruct (decode _ _ _) as [sl'|e]; [|by destruct (is_not_found e)].
  destruct (Z.eqb_spec (StoreTypes.TL_Epoch sl') (Seal_TrustListEpoch seal)) as [He|]; [|done]. destruct (String.eqb_spec (trustListSHA256 (TL_TrustListJSON sl')) (Seal_TrustListSHA256 seal)) as [Hs|]; [|done].
  intros [= <-]. done.
Qed.

Lemma manifest_view_resigned seal v sl sl' :
  manifest_view seal v = Ok (Some sl) -> resigned sl sl' -> manifest_view seal (Some (VTrustList sl')) = Ok (Some sl').
Proof.
  intros (Hh & He & Hs)%manifest_view_Some [Hj Ho]. unfold manifest_view. rewrite Hh. cbn [negb decode of_json StoredTrustList_json]. rewrite Hj, Ho, He, Hs, Z.eqb_refl, String.eqb_refl. done.
Qed.

(** A seal over the same nodes is well formed with the seal it replaces. *)
Lemma seal_view_again v seal sl :
  seal_view v = Ok seal -> Seal_Historical seal = false ->
  seal_view (Some (VSeal (candidate_seal (Seal_Generation seal) (Seal_NodeIDs seal) (Some sl)))) = Ok (candidate_seal (Seal_Generation seal) (Seal_NodeIDs seal) (Some sl)).
Proof.
  intros Hv Hh. unfold seal_view in *. cbn [decode of_json stagedSetSeal_json]. destruct (decode _ _ v) as [seal'|e]; [|by destruct (is_not_found e)].
  unfold check_seal in *. cbn [candidate_seal Seal_Generation Seal_NodeIDs Seal_Historical Seal_HasTrustList Seal_TrustListSHA256].
  destruct (Seal_Generation seal' <=? 0) eqn:Hg; [done|]. destruct (StringsAreSorted (Seal_NodeIDs seal')) eqn:Hs; [|done]. cbn [negb] in Hv.
  destruct (_ && _) in Hv; [done|]. destruct (ids_wellformed None (Seal_NodeIDs seal')) eqn:Hw; [|done]. cbn [negb] in Hv. destruct (Bool.eqb _ _) in Hv; [done|].
  injection Hv as ->. rewrite Hg, Hs, Hw. cbn [negb andb]. pose proof (length_sha256_hex (TL_TrustListJSON sl)) as Hl. fold (trustListSHA256 (TL_TrustListJSON sl)) in Hl.
  by destruct (trustListSHA256 (TL_TrustListJSON sl)).
Qed.

(** Writing the list and its history keeps the candidate but for the list; so does
    sealing the same nodes again. *)
Definition put_lists (sl : StoredTrustList) s : Core := kv_put t collStagedTL "" (VTrustList sl) (kv_put t collStagedTLHist "" (VTrustList sl) s).
Definition put_sealed (sl : StoredTrustList) (seal : stagedSetSeal) s : Core :=
  kv_put t collStagedSeal "" (VSeal (candidate_seal (Seal_Generation seal) (Seal_NodeIDs seal) (Some sl)))
    (kv_put t collStagedTLHist "" (VTrustList sl) (kv_put t collStagedTL "" (VTrustList sl) (kv_del t collStagedSeal "" s))).

Ltac at_key := rewrite ?get_put, ?get_del; repeat (destruct (decide _) as [(? & ? & ?)|?]; try done); try match goal with H : ~ _ |- _ => by destruct H end.

Lemma put_lists_staging sl s : staging_only t s (put_lists sl s).
Proof. unfold put_lists. repeat (apply staging_only_put; [apply staging_keys|]). apply staging_only_refl. Qed.
Lemma put_sealed_staging sl seal s : staging_only t s (put_sealed sl seal s).
Proof. unfold put_sealed. repeat (apply staging_only_put; [apply staging_keys|]). apply staging_only_del; [apply staging_keys|apply staging_only_refl]. Qed.

Lemma put_lists_sealed bs sl sl' seal s : sealed bs (Some sl) seal s -> resigned sl sl' -> sealed bs (Some sl') seal (put_lists sl' s).
Proof.
  intros Hs Hr. pose proof (put_lists_staging sl' s) as Hso. assert (forall k, kv_get t collStaged k (put_lists sl' s) = kv_get t collStaged k s) as Hk by (intros k; unfold put_lists; at_key).
  split; rewrite ?(staging_only_next _ _ _ Hso), ?(kv_list_ext _ _ _ _ _ _ Hk); try apply Hs.
  - replace (kv_get t collStagedSeal "" (put_lists sl' s)) with (kv_get t collStagedSeal "" s) by (unfold put_lists; at_key). apply Hs.
  - replace (kv_get t collStagedTL "" (put_lists sl' s)) with (Some (VTrustList sl')) by (unfold put_lists; at_key). eapply manifest_view_resigned; [apply Hs|done].
Qed.

Lemma put_sealed_sealed bs sl sl' seal s :
  sealed bs (Some sl) seal s -> resigned sl sl' -> sealed bs (Some sl') (candidate_seal (Seal_Generation seal) (Seal_NodeIDs seal) (Some sl')) (put_sealed sl' seal s).
Proof.
  intros Hs Hr. pose proof (put_sealed_staging sl' seal s) as Hso. assert (forall k, kv_get t collStaged k (put_sealed sl' seal s) = kv_get t collStaged k s) as Hk by (intros k; unfold put_sealed; at_key).
  split; rewrite ?(staging_only_next _ _ _ Hso), ?(kv_list_ext _ _ _ _ _ _ Hk); try apply Hs; [| |].
  - replace (kv_get t collStagedSeal "" (put_sealed sl' seal s)) with (Some (VSeal (candidate_seal (Seal_Generation seal) (Seal_NodeIDs seal) (Some sl')))) by (unfold put_sealed; at_key).
    eapply seal_view_again; [apply Hs|apply Hs].
  - done.
  - replace (kv_get t collStagedTL "" (put_sealed sl' seal s)) with (manifest_record (Some sl')) by (unfold put_sealed; at_key). apply manifest_view_candidate.
Qed.

(** One more write after [s']. *)
Lemma spec_staging_write f s0 s' : staging_only t s0 s' -> staging_only t s0 (f s') -> spec (prim_write f) (eq s') (fun _ => eq (f s')) (fun _ => staging_only t s0) (staging_only t s0).
Proof. intros Hb Ha. by apply spec_write; [intros s <-|intros m s <-|intros s <-]. Qed.

Lemma spec_PutSigned ctx bs ids sl sl' s0 :
  candidate t s0 = Ok (bs, ids, Some sl) -> resigned sl sl' ->
  spec (PutSignedTrustList ctx t sl') (eq s0) (fun _ s => staging_only t s0 s /\ candidate t s = Ok (bs, map SB_NodeID bs, Some sl')) (fun _ => staging_only t s0) (staging_only t s0).
Proof.
  intros Hk Hr. apply candidate_sealed in Hk as [seal Hs]. pose proof (staging_only_refl t s0) as Hrefl. destruct (staging_keys t) as (K1 & K2 & K3 & K4).
  unfold PutSignedTrustList, withLock. apply spec_ctx; [by intros r s _ <-|].
  eapply spec_bind with (R := fun cur s => s0 = s /\ cur = kv_generation t s0).
  { apply spec_readonly; [auto with readonly|..]; [|by intros s e <-|by intros s <-]. intros s a <-. rewrite answer_generation. by intros [= <-]. }
  intros cur. apply spec_pure. intros ->. cbn zeta. fold (next_generation t s0).
  eapply spec_bind with (R := fun _ => eq s0); [apply spec_readonly; [auto with readonly|by intros|by intros s e <-|by intros s <-]|]. intros u.
  eapply spec_bind with (R := fun r s => s0 = s /\ forall x, r = Ok x -> x = seal).
  { apply spec_attempt. apply spec_readonly; [auto with readonly|..]; [|by intros s e <-|by intros s <-]. intros s a <-. rewrite answer_loadSeal, (sl_seal _ _ _ _ Hs). intros [= <-]. split; [done|congruence]. }
  intros sr. apply spec_pure. intros Hsr. destruct (match sr with Ok _ => _ | Err _ => _ end).
  - set (s1 := kv_put t collStagedTLHist "" (VTrustList sl') s0). assert (staging_only t s0 s1) as H1' by (by apply staging_only_put).
    eapply spec_bind; [apply (spec_staging_write (kv_put t collStagedTLHist "" (VTrustList sl')) s0 s0); [exact Hrefl|exact H1']|]. intros u1.
    eapply spec_weaken; [apply (spec_staging_write (kv_put t collStagedTL "" (VTrustList sl')) s0 s1); [exact H1'|apply (put_lists_staging sl' s0)]|done| |done|done].
    intros u2 s <-. split; [apply (put_lists_staging sl' s0)|]. by eapply sealed_candidate_Ok, (put_lists_sealed bs sl sl' seal).
  - set (s1 := kv_del t collStagedSeal "" s0). assert (staging_only t s0 s1) as H1' by (by apply staging_only_del).
    set (s2 := kv_put t collStagedTL "" (VTrustList sl') s1). assert (staging_only t s0 s2) as H2' by (by apply staging_only_put).
    set (s3 := kv_put t collStagedTLHist "" (VTrustList sl') s2). assert (staging_only t s0 s3) as H3' by (by apply staging_only_put).
    eapply spec_bind; [apply (spec_staging_write (kv_del t collStagedSeal "") s0 s0); [exact Hrefl|exact H1']|]. intros u1.
    eapply spec_bind; [apply (spec_staging_write (kv_put t collStagedTL "" (VTrustList sl')) s0 s1); [exact H1'|exact H2']|]. intros u2.
    eapply spec_bind; [apply (spec_staging_write (kv_put t collStagedTLHist "" (VTrustList sl')) s0 s2); [exact H2'|exact H3']|]. intros u3.
    unfold saveSealForGenerationLocked. eapply spec_bind with (R := fun r s => s3 = s /\ r.2 = Seal_NodeIDs seal).
    { apply spec_readonly; [auto with readonly|..]; [|by intros s e <-|by intros s <-]. intros s r <-. rewrite answer_stagedBundles.
      assert (forall k, kv_get t collStaged k s3 = kv_get t collStaged k s0) as Hkv by (intros k; unfold s3, s2, s1; at_key).
      fold s3. rewrite (kv_list_ext _ _ _ _ _ _ Hkv), (sl_bundles _ _ _ _ Hs). intros [= <-]. split; [done|]. by rewrite (sl_ids _ _ _ _ Hs). }
    intros r. apply spec_pure. intros ->. cbn zeta. destruct (Nat.eqb_spec (length (Seal_NodeIDs seal)) 0) as [Hl|_]; [by destruct (Seal_NodeIDs seal) eqn:E; [destruct (sl_some _ _ _ _ Hs)|]|].
    cbn [andb]. rewrite <- (sl_gen _ _ _ _ Hs).
    eapply spec_weaken; [apply (spec_staging_write (kv_put t collStagedSeal "" (VSeal (candidate_seal (Seal_Generation seal) (Seal_NodeIDs seal) (Some sl')))) s0 s3); [exact H3'|by apply staging_only_put]|done| |done|done].
    intros u4 s <-. split; [apply (put_sealed_staging sl' seal s0)|]. by eapply sealed_candidate_Ok, (put_sealed_sealed bs sl sl' seal).
Qed.

(** What an installed signature leaves: the candidate with the signature, whose manifest
    verifies under the pinned credential. *)
Definition countersigned (signed : SignedTrustList) bs (sl : StoredTrustList) s0 s : Prop :=
  backstage t s0 s /\ candidate t s = Ok (bs, map SB_NodeID bs, Some (StoreTypes.mkTrustList (TL_TrustListJSON sl) (marshal_signed signed) (StoreTypes.TL_Epoch sl) 0)).

Lemma answer_signed_candidate ctx s bs ids sl stored :
  candidate t s = Ok (bs, ids, Some sl) -> answer (GetCurrentSignedTrustList ctx t) s = Ok stored -> stored = sl.
Proof.
  intros [seal Hs]%candidate_sealed. destruct ctx; [done|]. rewrite answer_signed, (sl_seal _ _ _ _ Hs). cbn [rbind]. rewrite (sl_manifest _ _ _ _ Hs). by intros [= <-].
Qed.

Lemma spec_Install ctx submitted signed bs ids sl s0 :
  candidate t s0 = Ok (bs, ids, Some sl) ->
  spec (InstallTrustListSignature ctx t submitted signed) (eq s0) (fun epoch s => epoch = StoreTypes.TL_Epoch sl /\ countersigned signed bs sl s0 s) (fun _ => backstage t s0) (backstage t s0).
Proof.
  intros Hk. unfold InstallTrustListSignature. eapply spec_bind with (R := fun _ => calm t s0).
  { eapply spec_weaken; [apply (calm_reconcile t ctx s0)|intros s <-; apply calm_refl|done|intros e s; apply calm_backstage|intros s; apply calm_backstage]. }
  intros u. eapply spec_bind with (R := fun _ => calm t s0).
  { apply spec_attempt. apply spec_readonly; [apply readonly_credential|by intros..|intros s; apply calm_backstage]. }
  intros [cred|e]; [|destruct (is_not_found e); apply spec_fail; intros s; apply calm_backstage].
  eapply spec_bind with (R := fun r s => calm t s0 s /\ forall x, r = Ok x -> x = sl).
  { apply spec_attempt. apply spec_readonly; [apply readonly_signed|..|intros s; apply calm_backstage]; [|by intros s e Hs _]. intros s stored Hc Ha. split; [done|].
    intros x [= <-]. eapply answer_signed_candidate; [|done]. by rewrite (calm_candidate _ _ _ Hc). }
  intros [stored|e]; [|destruct (is_not_found e); apply spec_fail; intros s [Hc _]; by apply calm_backstage].
  apply spec_pure. intros Hst. rewrite (Hst stored eq_refl). clear Hst.
  eapply spec_bind with (R := fun _ => calm t s0); [unfold lift; destruct (check_submitted _ _ _ _); [by apply spec_ret|apply spec_fail; intros s; apply calm_backstage]|]. intros u1.
  eapply spec_bind with (R := fun _ => countersigned signed bs sl s0); [|intros u2; by apply spec_ret].
  apply keeps_wrap. intros fs s n Hc.
  pose proof (spec_PutSigned ctx bs ids sl (StoreTypes.mkTrustList (TL_TrustListJSON sl) (marshal_signed signed) (StoreTypes.TL_Epoch sl) 0) s) as Hput.
  rewrite (calm_candidate _ _ _ Hc) in Hput. specialize (Hput Hk (conj eq_refl eq_refl) fs s n eq_refl). apply calm_backstage in Hc.
  destruct (PutSignedTrustList _ _ _ _ _ _) as [v s' k|e s' k|s']; [split; [|apply Hput]; destruct Hput as [Hput _]|..]; (eapply backstage_trans; [done|by apply staging_backstage]).
Qed.
End Sign.
