(* ===== verification/AcceptProps.v ===== *)
(** * A deployed release is accepted

    The whole way of a release, from the enrolled part of a topology through compile,
    export, stage, off-host signature and promotion to the checks of the agent. *)

From stdpp Require Import base gmap strings list sorting.
From Stdlib Require Import ZArith Lia Ascii.
From S2P Require Import Prelude GoLib GoNet GoSha Model LinkID Allocator PeersAlloc PeersAllocCorrect Peers PeersProps Compiler CompilerProps Normalize Findings Semantic Schema SchemaProps Pipeline PipelineProps GoText GoJSON GoBase64 TrustList Bundle BundleProps Renderer RenderProps ConfigSafety StoreTypes StoreMonad MemKV StoreCore StoreLogic StoreStage StageProps Promotion ReplaceProps StoreFrame AuditLog CoreState CoreProps Enrollment EnrollProps Keystone KeystoneProps Export ExportProps Release ReleaseProps Deploy DeployProps SignProps.

Local Open Scope Z_scope.
Local Open Scope go_scope.
Local Open Scope store_scope.

(** ** Keys *)

(** Every node carries a public key. *)
Definition keyed (nodes : list Node) : Prop := forall n, n ∈ nodes -> Node_WireGuardPublicKey n <> ""%string.

(** An agent-held node with a public key keeps it, and its private key is the marker. *)
Lemma held_keys kg topo topo' keys :
  keyed (Topology_Nodes topo) -> GenerateKeysWith topo AgentHeld kg = Ok (topo', keys) ->
  topo' = set_Nodes ((fun n => set_keys "" (Node_WireGuardPublicKey n) n) <$> Topology_Nodes topo) topo /\
  forall n, n ∈ Topology_Nodes topo -> exists n', n' ∈ Topology_Nodes topo /\ Node_ID n' = Node_ID n /\ keys !! Node_ID n = Some (mkKeyPair PrivateKeyPlaceholder (Node_WireGuardPublicKey n')).
Proof.
  unfold GenerateKeysWith. intros Hk (st & Hst & [= <- <-])%rbind_Ok_inv. set (f := fun n => set_keys "" (Node_WireGuardPublicKey n) n).
  assert (st.1.1 = f <$> Topology_Nodes topo /\ forall n, n ∈ Topology_Nodes topo -> exists n', n' ∈ Topology_Nodes topo /\ Node_ID n' = Node_ID n /\
    st.1.2 !! Node_ID n = Some (mkKeyPair PrivateKeyPlaceholder (Node_WireGuardPublicKey n'))) as [-> ?]; [|by split].
  eapply (foldM_inv (fun pre st => st.1.1 = f <$> pre /\ forall n, n ∈ pre -> exists n', n' ∈ pre /\ Node_ID n' = Node_ID n /\
    st.1.2 !! Node_ID n = Some (mkKeyPair PrivateKeyPlaceholder (Node_WireGuardPublicKey n'))) (keys_step AgentHeld kg)); [| |exact Hst]; [split; [done|by intros n ?%elem_of_nil]|].
  intros pre x post [[ns ks] calls] s2 Hall [Hns Hks] Hs. unfold keys_step, node_keys in Hs.
  assert (String.eqb (Node_WireGuardPublicKey x) "" = false) as Hx by (apply String.eqb_neq, Hk; rewrite Hall; set_solver).
  rewrite Hx in Hs. cbn [negb rbind] in Hs. injection Hs as <-. cbn [fst snd] in *. split; [by rewrite Hns, fmap_app|].
  intros n Hn. destruct (decide (Node_ID n = Node_ID x)) as [E|E].
  - exists x. rewrite E, lookup_insert_eq. split; [set_solver|done].
  - rewrite lookup_insert_ne by done. apply elem_of_app in Hn as [Hn|Hn]; [|apply list_elem_of_singleton in Hn as ->; done].
    destruct (Hks n Hn) as (n' & ? & ? & ?). exists n'. split; [set_solver|done].
Qed.

(** Validation then makes the keys well formed. *)
Lemma held_keys_ok t topo keys :
  schema_ok t -> Topology_Nodes t = (fun n => set_keys "" (Node_WireGuardPublicKey n) n) <$> Topology_Nodes topo -> keyed (Topology_Nodes topo) ->
  (forall n, n ∈ Topology_Nodes topo -> exists n', n' ∈ Topology_Nodes topo /\ Node_ID n' = Node_ID n /\ keys !! Node_ID n = Some (mkKeyPair PrivateKeyPlaceholder (Node_WireGuardPublicKey n'))) ->
  keys_ok t keys.
Proof.
  intros Hs Ht Hk Hkeys n Hn. rewrite Ht in Hn. apply list_elem_of_fmap in Hn as (n0 & -> & Hn0).
  assert (Node_ID (set_keys "" (Node_WireGuardPublicKey n0) n0) = Node_ID n0) as -> by (by destruct n0). destruct (Hkeys n0 Hn0) as (n' & Hn' & _ & Hl).
  unfold key_of. rewrite Hl. cbn [default PublicKey PrivateKey]. split; [|done].
  assert (set_keys "" (Node_WireGuardPublicKey n') n' ∈ Topology_Nodes t) as Hin by (rewrite Ht; apply list_elem_of_fmap; by exists n').
  pose proof (nso_key _ (so_nodes _ Hs _ Hin)) as Hv. assert (Node_WireGuardPublicKey (set_keys "" (Node_WireGuardPublicKey n') n') = Node_WireGuardPublicKey n') as E by (by destruct n').
  rewrite E in Hv. by apply Hv, Hk.
Qed.

(** ** The WireGuard files of a compile *)

Section Files.
Context `{Scripts}.

Lemma render_all_files topo pm keys out (P : string -> Prop) :
  RenderAllWireGuardConfigs topo pm keys = Ok out ->
  (forall id node ps p key, pm !! id = Some ps -> p ∈ ps -> nodeMap topo id = Some node -> keys !! id = Some key -> P (RenderPerPeerWireGuardConfig node p key)) ->
  forall name content, out !! name = Some content -> P content.
Proof.
  unfold RenderAllWireGuardConfigs. intros Hout HP.
  eapply (foldM_inv (fun _ m => forall name content, m !! name = Some content -> P content) (render_node topo keys)); [| |exact Hout]; [intros name c; by rewrite lookup_empty|].
  intros pre [id ps] post m1 m2 Hall IH Hs. unfold render_node in Hs. cbn [fst snd] in Hs. destruct (nodeMap topo id) as [node|] eqn:Hn; [|by injection Hs as <-].
  destruct (keys !! id) as [key|] eqn:Hkey; [|done]. injection Hs as <-.
  assert (pm !! id = Some ps) as Hps by (apply elem_of_map_to_list; rewrite Hall; set_solver).
  apply (foldl_inv (fun _ m => forall name content, m !! name = Some content -> P content)); [exact IH|].
  intros ppre p ppost m Hp IHm name content [[_ <-]|[_ Hold]]%lookup_insert_Some; [|by eapply IHm]. eapply HP; [done| |done|done]. rewrite Hp. set_solver.
Qed.

Lemma client_files_lookup clients configs (P : string -> Prop) :
  (forall name content, configs !! name = Some content -> P content) -> (forall id info, clients !! id = Some info -> P (RenderClientWireGuardConfig info)) ->
  forall name content, client_files clients configs !! name = Some content -> P content.
Proof.
  intros Hc Hi. unfold client_files. apply (foldl_inv (fun _ m => forall name content, m !! name = Some content -> P content)); [exact Hc|].
  intros pre [id info] post m Hall IH name content [[_ <-]|[_ Hold]]%lookup_insert_Some; [|by eapply IH]. apply (Hi id), elem_of_map_to_list. rewrite Hall. set_solver.
Qed.

(** A file of a compile configures one peer, with the key of a node. *)
Definition names_node (nodes : list Node) (content : string) : Prop :=
  exists k n, rendered content k /\ n ∈ nodes /\ k = Node_WireGuardPublicKey n.

Lemma compiled_files_named probe ctx req r w :
  CompileResultCtx probe ctx req = Some (Ok (r, w)) -> Req_Custody req = AgentHeld -> link_local_pins_ok (Req_Topology req) -> keyed (Topology_Nodes (Req_Topology req)) ->
  forall name content, RR_WireGuardConfigs r !! name = Some content -> names_node (Topology_Nodes (Req_Topology req)) content.
Proof.
  unfold CompileResultCtx. intros Hc Hcust Hll Hk. rewrite Hcust in Hc. set (topo := Req_Topology req) in *. destruct (GenerateKeysWith topo _ _) as [[topo' keys]|] eqn:Hg; [|done].
  destruct (CompileAt _ _ _ _ _ _) as [t1 [[[cr ws]|]|]] eqn:Hat; cbn [snd] in Hc; try done. destruct (AllWith _ _ _ _ _) as [r0|] eqn:Hall; [|done]. injection Hc as <- <-.
  assert (forall b, RR_WireGuardConfigs (set_AgentHeld b r0) = RR_WireGuardConfigs r0) as -> by (by destruct r0).
  destruct (held_keys _ _ _ _ Hk Hg) as [-> Hkeys]. apply CompileAt_inv in Hat as (V & Et & (nodes & m & Ha & Hm & ->)%compile_passes_inv).
  assert (Topology_Nodes t1 = (fun n => set_keys "" (Node_WireGuardPublicKey n) n) <$> Topology_Nodes topo) as Hnodes.
  { rewrite Et, ValidateSchema_unfold. destruct (topologyExceedsBounds _); unfold defaulted; by destruct topo. }
  assert (link_local_pins_ok t1) as Hll1.
  { rewrite Et. apply schema_pins_ok. by destruct topo. }
  pose proof (held_keys_ok t1 topo keys (va_schema _ V) Hnodes Hk Hkeys) as Hok.
  assert (forall n, n ∈ Topology_Nodes (allocated_topo t1 nodes) -> exists n0, n0 ∈ Topology_Nodes topo /\ PublicKey (key_of keys (Node_ID n)) = Node_WireGuardPublicKey n0) as Howner.
  { intros n Hn. apply (list_elem_of_fmap_2 Node_ID) in Hn. assert (Node_ID n ∈ Node_ID <$> Topology_Nodes topo) as Hid.
    { assert (Node_ID <$> Topology_Nodes (allocated_topo t1 nodes) = Node_ID <$> Topology_Nodes topo) as <-; [|done].
      transitivity (Node_ID <$> Topology_Nodes t1).
      - pose proof (AllocateIPs_same _ _ _ Ha) as Hs. cbn [allocated_topo Topology_Nodes]. clear -Hs. induction Hs as [|x y xs ys (E & _) _ IH]; [done|]. cbn. by rewrite E, IH.
      - rewrite Hnodes, <- list_fmap_compose. apply list_fmap_ext. intros i [] _. done. }
    apply list_elem_of_fmap in Hid as (n0 & -> & Hn0). destruct (Hkeys n0 Hn0) as (n' & Hn' & _ & Hl). exists n'. split; [done|]. unfold key_of. by rewrite Hl. }
  unfold AllWith in Hall. cbn [CR_Topology CR_PeerMap CR_ClientConfigs] in Hall. apply rbind_Ok_inv in Hall as (wg & Hwg & Hall). cbn zeta in Hall.
  apply rbind_Ok_inv in Hall as (mm & _ & Hall). apply rbind_Ok_inv in Hall as (d & _ & [= <-]). cbn [RR_WireGuardConfigs].
  destruct (RenderAllWireGuardConfigs _ _ _) as [wg0|] eqn:Hren; [|done]. injection Hwg as ->.
  apply client_files_lookup; [eapply (render_all_files _ _ _ _ (names_node (Topology_Nodes topo)) Hren)|].
  - intros id node ps p key Hps Hp Hnode Hkey. apply find_last_Some in Hnode as [Hnode Hid]. change (node ∈ Topology_Nodes (allocated_topo t1 nodes)) in Hnode. subst id.
    rewrite (append_all_lookup _ _ _ _ (init_peerMap_lookup _ node Hnode)) in Hps. injection Hps as <-.
    pose proof (peers_text _ _ _ _ _ _ _ V Ha Hm Hll1 Hok _ _ Hp) as Htext. pose proof (peer_printable _ _ _ _ V Ha Hok node p Hnode Htext) as Hpr.
    destruct (pt_owner _ _ _ _ Htext) as (n & Hn & _ & Hpk & _). destruct (Howner n Hn) as (n0 & Hn0 & Hpub).
    exists (Peer_PublicKey p), n0. unfold key_of in Hpr. rewrite Hkey in Hpr. split_and!; [by apply rendered_peer|done|by rewrite Hpk].
  - intros id info Hi. destruct (clients_text _ _ _ _ _ _ _ V Ha Hm Hll1 Hok _ _ Hi) as [Hpr (n & Hn & Hpk)]. destruct (Howner n Hn) as (n0 & Hn0 & Hpub).
    exists (Client_RouterPublicKey info), n0. split_and!; [by apply rendered_client|done|by rewrite Hpk].
Qed.

(** *** The compiled request *)

Lemma generated_ids topo custody kg topo' keys : GenerateKeysWith topo custody kg = Ok (topo', keys) -> Node_ID <$> Topology_Nodes topo' = Node_ID <$> Topology_Nodes topo.
Proof.
  unfold GenerateKeysWith. intros (st & Hst & [= <- _])%rbind_Ok_inv. assert (Node_ID <$> st.1.1 = Node_ID <$> Topology_Nodes topo) as <-; [|by destruct topo].
  eapply (foldM_inv (fun pre st => Node_ID <$> st.1.1 = Node_ID <$> pre) (keys_step custody kg)); [| |exact Hst]; [done|].
  intros pre x post [[ns ks] calls] s2 _ IH Hs. unfold keys_step in Hs. apply rbind_Ok_inv in Hs as ([[n' k] calls'] & Hn & [= <-]). cbn [fst] in *. rewrite !fmap_app, IH. f_equal. cbn. f_equal.
  assert (forall priv pub, Node_ID (set_keys priv pub x) = Node_ID x) as Hid by (by destruct x). unfold node_keys in Hn. destruct custody; repeat (case_match; try done); cbn zeta in Hn; injection Hn as <- _ _; apply Hid.
Qed.

Lemma validated_ids probe topo : Node_ID <$> Topology_Nodes (ValidateSchema probe topo).1 = Node_ID <$> Topology_Nodes topo.
Proof. rewrite ValidateSchema_unfold. destruct (topologyExceedsBounds _); unfold defaulted; by destruct topo. Qed.

Lemma compiled_ids probe ctx req r w :
  CompileResultCtx probe ctx req = Some (Ok (r, w)) ->
  NoDup (Node_ID <$> Topology_Nodes (Req_Topology req)) /\ forall id, id ∈ Node_ID <$> Topology_Nodes (Req_Topology req) -> ValidPortableNodeID id = true.
Proof.
  unfold CompileResultCtx. destruct (GenerateKeysWith _ _ _) as [[topo' keys]|] eqn:Hg; [|done].
  destruct (CompileAt _ _ _ _ _ _) as [t1 [[[cr ws]|]|]] eqn:Hat; cbn [snd]; try done. intros _. apply CompileAt_inv in Hat as (V & Et & _).
  rewrite <- (generated_ids _ _ _ _ _ Hg), <- (validated_ids probe topo'), <- Et. split; [apply V|]. intros id (n & -> & Hn)%list_elem_of_fmap. apply (so_nodes _ (va_schema _ V) n Hn).
Qed.

Lemma compiled_keys probe ctx req r w n :
  CompileResultCtx probe ctx req = Some (Ok (r, w)) -> Req_Custody req = AgentHeld -> keyed (Topology_Nodes (Req_Topology req)) -> n ∈ Topology_Nodes (Req_Topology req) ->
  ValidWGPublicKey (Node_WireGuardPublicKey n) = true.
Proof.
  unfold CompileResultCtx. intros Hc Hcust Hk Hn. rewrite Hcust in Hc. destruct (GenerateKeysWith _ _ _) as [[topo' keys]|] eqn:Hg; [|done].
  destruct (CompileAt _ _ _ _ _ _) as [t1 [[[cr ws]|]|]] eqn:Hat; cbn [snd] in Hc; try done. destruct (held_keys _ _ _ _ Hk Hg) as [-> _]. apply CompileAt_inv in Hat as (V & Et & _).
  set (n' := set_keys "" (Node_WireGuardPublicKey n) n). assert (n' ∈ Topology_Nodes t1) as Hin.
  { rewrite Et, ValidateSchema_unfold. assert (n' ∈ (fun n => set_keys "" (Node_WireGuardPublicKey n) n) <$> Topology_Nodes (Req_Topology req)) as Hin by (apply list_elem_of_fmap; by exists n).
    destruct (topologyExceedsBounds _); unfold defaulted; by destruct (Req_Topology req). }
  pose proof (nso_key _ (so_nodes _ (va_schema _ V) _ Hin)) as Hv. assert (Node_WireGuardPublicKey n' = Node_WireGuardPublicKey n) as E by (unfold n'; by destruct n). rewrite E in Hv. by apply Hv, Hk.
Qed.
End Files.

(** ** The ready part *)

Lemma ready_keyed topo registry : ready_ids topo registry ⊆ keyed_nodes registry (Topology_Nodes topo).
Proof.
  unfold ready_ids. generalize (keyed_nodes registry (Topology_Nodes topo)). intros K. apply (foldl_inv (fun _ m => m ⊆ K)); [done|].
  intros pre x post m _ Hm. unfold drop_client. destruct (_ && _); set_solver.
Qed.

Lemma enrolled_keyed topo nodes : NoDup (Node_ID <$> Topology_Nodes (enrolledSubgraph topo nodes).1) -> keyed (Topology_Nodes (enrolledSubgraph topo nodes).1).
Proof.
  unfold enrolledSubgraph. cbn [fst Topology_Nodes]. set (reg := registry_keys nodes). set (ready := ready_ids topo reg). intros Hnd n' (n & -> & Hn)%list_elem_of_fmap.
  assert (Node_WireGuardPublicKey (set_keys "" (readyKey reg n) n) = readyKey reg n) as -> by (by destruct n).
  rewrite <- list_fmap_compose in Hnd. rewrite (list_fmap_ext _ Node_ID) in Hnd by (by intros ? []).
  pose proof Hn as [Hid Hin]%list_elem_of_filter. pose proof (ready_keyed topo reg _ Hid) as Hk. unfold keyed_nodes in Hk.
  apply elem_of_list_to_set, list_elem_of_fmap in Hk as (n2 & Heq & Hn2). apply list_elem_of_filter in Hn2 as [Hk Hn2].
  assert (n = n2) as ->; [|done]. eapply (NoDup_fmap_inj_on Node_ID _ n n2 Hnd); [done| |done]. apply list_elem_of_filter. rewrite <- Heq. done.
Qed.

(** ** The files of a bundle *)

Lemma bundle_conf r id members path content :
  BundleFiles r id = Ok members -> members !! path = Some content -> is_conf path = true -> exists name, RR_WireGuardConfigs r !! name = Some content.
Proof.
  unfold BundleFiles. destruct (_ && _); [done|]. cbn zeta. intros [= <-] Hp Hc.
  assert (forall q, is_conf q = false -> q <> path) as Hne by (intros q Hq ->; congruence).
  rewrite !lookup_put_some_ne in Hp by (by apply Hne). apply elem_of_list_to_map_2, list_elem_of_omap in Hp as ([name c] & Hin%elem_of_map_to_list & Hw).
  unfold wg_file in Hw. cbn [fst snd] in Hw. destruct (str_cut _ _) as [[owner iface]|]; [|done]. destruct (String.eqb owner id); [|done]. injection Hw as _ <-. by exists name.
Qed.

(** ** Texts of a manifest *)

Lemma ascii_valid s : ascii_only s = true -> ValidString s = true.
Proof.
  unfold ValidString. induction s as [|c s IH]; [done|]. cbn [ascii_only valid_skip]. intros [Hc Hs]%andb_true_iff.
  unfold decode_rune. rewrite Hc. cbn zeta. assert ((byte_val c =? rune_error) = false) as Hne by (apply Z.ltb_lt in Hc; apply Z.eqb_neq; unfold rune_error; lia).
  rewrite Hne. by apply IH.
Qed.
Lemma forall_ascii p s : (forall c, p c = true -> (byte_val c <? 128) = true) -> str_forall p s = true -> ascii_only s = true.
Proof. intros Hp. induction s as [|c s IH]; [done|]. cbn [str_forall ascii_only]. intros [Hc Hs]%andb_true_iff. rewrite (Hp c Hc). by apply IH. Qed.

Lemma key_valid k : ValidWGPublicKey k = true -> ValidString k = true.
Proof.
  intros (c & p & -> & Hc & Hp)%key_shape. apply ascii_valid, (forall_ascii (fun c => is_base64 c || Ascii.eqb c "=")); [intros [[] [] [] [] [] [] [] []]; vm_compute; congruence|].
  assert (forall q, str_forall is_base64 q = true -> str_forall (fun c => is_base64 c || Ascii.eqb c "=") q = true) as Hweak.
  { intros q. induction q as [|x q IH]; [done|]. cbn [str_forall]. intros [-> Hq]%andb_true_iff. by apply IH. }
  cbn [str_forall]. rewrite str_forall_append, Hc, (Hweak p Hp). done.
Qed.
Lemma id_valid id : ValidPortableNodeID id = true -> ValidString id = true.
Proof. intros Hid%ValidPortableNodeID_charset. apply ascii_valid, (forall_ascii portable_byte); [|done]. intros [[] [] [] [] [] [] [] []]; vm_compute; congruence. Qed.
Lemma digest_valid s : ValidString (sha256_hex s) = true.
Proof. apply ascii_valid, (forall_ascii iface_byte); [intros [[] [] [] [] [] [] [] []]; vm_compute; congruence|apply sha256_hex_iface]. Qed.

(** ** The checks of the agent *)

Section Agent.
Context `{Crypto} `{Codec}.

(** The agent that pinned the credential. *)
Definition agent_config (cred : OperatorCredential) (id : string) : MembershipConfig :=
  mkMembership id (OC_PublicKeyPEM cred) (OC_Alg cred) (OC_RPID cred) (OC_Origin cred).

Lemma pinned_same cred pin id :
  pinFromOperatorCredential cred = Ok pin -> exists pin', pinnedCredential (agent_config cred id) = Ok pin' /\ forall tl signed, Verify tl signed pin' = Verify tl signed pin.
Proof.
  unfold pinFromOperatorCredential, pinnedCredential, agent_config. cbn [MC_OperatorCredAlg MC_OperatorCredPEM MC_OperatorRPID MC_OperatorOrigin]. destruct (_ || _).
  - destruct (ParseEd25519PinPEM _) as [pub|]; [|done]. intros [= <-]. by eexists.
  - destruct (String.eqb _ _); [|done]. destruct (ParseES256Pin _) as [pub|]; [|done]. intros [= <-]. by eexists.
Qed.

Lemma find_self_unique ms m : NoDup (M_NodeID <$> ms) -> m ∈ ms -> find_self (M_NodeID m) ms = Some m.
Proof.
  unfold find_self. induction ms as [|x ms IH] using rev_ind; [by intros _ ?%elem_of_nil|]. rewrite fmap_app, NoDup_app, foldl_app. intros (Hn & Hd & _) Hm. cbn [foldl].
  apply elem_of_app in Hm as [Hm| ->%list_elem_of_singleton]; [|by rewrite String.eqb_refl]. rewrite IH by done.
  destruct (String.eqb_spec (M_NodeID x) (M_NodeID m)) as [E|]; [|done]. exfalso. apply (Hd (M_NodeID m)); [by apply list_elem_of_fmap_2|]. rewrite <- E. by left.
Qed.

(** The files that the agent fetches: the bundle with the signed manifest. *)
Definition with_manifest (sl : StoredTrustList) (f : files) : files := <[ "trustlist.sig"%string := TL_SignatureJSON sl ]> (<[ "trustlist.json"%string := TL_TrustListJSON sl ]> f).

Lemma membership_accepted cred sl tl f self prev nodes :
  OC_PublicKeyPEM cred <> ""%string -> verifyStoredAgainstPin sl cred = Ok (Ok tt) ->
  unmarshal_trustlist (TL_TrustListJSON sl) = Some tl -> Canonical tl = Ok (TL_TrustListJSON sl) -> NoDup (M_NodeID <$> TL_Members tl) ->
  self ∈ TL_Members tl -> checksum_digest f = Some (M_BundleSHA256 self) ->
  (forall path content, f !! path = Some content -> is_conf path = true -> names_node nodes content) ->
  (forall n, n ∈ nodes -> Node_WireGuardPublicKey n ∈ member_keys (TL_Members tl)) -> prev <= TrustList.TL_Epoch tl ->
  VerifyMembership (with_manifest sl f) (agent_config cred (M_NodeID self)) prev = Ok (TrustList.TL_Epoch tl).
Proof.
  intros Hpem Hv Htl Hcan Hnd Hself Hdig Hconf Hkeys Hprev. unfold verifyStoredAgainstPin in Hv. rewrite Htl in Hv. destruct (unmarshal_signed _) as [signed|] eqn:Hsig; [|done].
  apply rbind_Ok_inv in Hv as (pin & Hpin & [= Hver]). destruct (pinned_same cred pin (M_NodeID self) Hpin) as (pin' & Hpin' & Hsame).
  unfold checksum_digest in Hdig. apply fmap_Some in Hdig as (checksums & Hck & Hd).
  unfold VerifyMembership. cbn [agent_config MC_OperatorCredPEM MC_NodeID]. rewrite (proj2 (String.eqb_neq _ _) Hpem).
  unfold with_manifest, require_file. rewrite (lookup_insert_ne _ _ "trustlist.json"%string), lookup_insert_eq, lookup_insert_eq, !lookup_insert_ne, Hck by done. cbn [rbind].
  rewrite Htl, Hsig. cbn [require_some rbind]. rewrite Hcan. cbn [rbind]. rewrite String.eqb_refl. cbn [require rbind]. rewrite Hpin'. cbn [rbind]. rewrite Hsame, Hver. cbn [rbind].
  rewrite find_self_unique by done. cbn [require_some rbind]. rewrite Hd. unfold bundleSHA256 at 1 2. rewrite EqualFold_refl.
  assert (String.eqb (sha256_hex checksums) "" = false) as -> by (apply String.eqb_neq; intros E; pose proof (length_sha256_hex checksums) as Hl; by rewrite E in Hl).
  cbn [negb require rbind].
  destruct (keys_collected (with_manifest sl f)) as (ks & Hks & Hall).
  { intros path content Hp Hc. destruct (Hconf path content) as (k & n & Hr & _); [|done|by exists k].
    unfold with_manifest in Hp. rewrite !lookup_insert_ne in Hp by (intros <-; done). done. }
  fold (with_manifest sl f). rewrite Hks. cbn [rbind].
  assert (forallb (fun pk => bool_decide (pk ∈ member_keys (TL_Members tl))) ks = true) as ->.
  { apply forallb_forall. intros k Hk%list_elem_of_In. apply bool_decide_eq_true. apply Hall in Hk as (path & content & Hp & Hc & Hr).
    unfold with_manifest in Hp. rewrite !lookup_insert_ne in Hp by (intros <-; done). destruct (Hconf path content Hp Hc) as (k' & n & Hr' & Hn & ->).
    rewrite (rendered_key _ _ _ Hr Hr'). by apply Hkeys. }
  cbn [require rbind]. by rewrite (proj2 (Z.ltb_ge _ _) Hprev).
Qed.
End Agent.

(** ** The manifest of a stage *)

Section Manifest.
Context {B : Type} `{KVLaws B} `{!AuditBackend B} `{!AuditLaws B} (t : TenantID).
#[local] Abbreviation Core := (storeCore B).
Implicit Types s : Core.

(** The list that the bytes of a staged manifest denote. *)
Definition staged_list (sl : StoredTrustList) (members : list Member) : TrustList.TrustList :=
  TrustList.mkTrustList 1 t (StoreTypes.TL_Epoch sl) (sorted_members (TrustList.mkTrustList 1 t (StoreTypes.TL_Epoch sl) members)).

Lemma staged_list_perm sl members : TL_Members (staged_list sl members) ≡ₚ members.
Proof. apply merge_sort_Permutation. Qed.

Lemma staged_list_canonical digests keys sl :
  manifest_of t digests keys sl -> let tl := staged_list sl (stage_members digests keys) in json_trustlist tl = TL_TrustListJSON sl /\ Canonical tl = Ok (TL_TrustListJSON sl).
Proof.
  intros [_ Hc] tl. split; [|by apply (Canonical_perm (TrustList.mkTrustList 1 t (StoreTypes.TL_Epoch sl) (stage_members digests keys))); [split_and!; [done..|symmetry; apply staged_list_perm]|]].
  apply Canonical_Ok in Hc as [_ ->]. done.
Qed.

Lemma stage_members_elem digests keys m : m ∈ stage_members digests keys <-> digests !! M_NodeID m = Some (M_BundleSHA256 m) /\ M_WGPublicKey m = default ""%string (keys !! M_NodeID m).
Proof.
  unfold stage_members. rewrite list_elem_of_fmap. split.
  - by intros ([id d] & -> & Hd%elem_of_map_to_list).
  - intros [Hd Hk]. exists (M_NodeID m, M_BundleSHA256 m). split; [destruct m; cbn in *; by rewrite Hk|by apply elem_of_map_to_list].
Qed.

Context (gen : Z) (exported : gmap string files) (s1 : Core) (nodes : list Node) (acc : stage_acc) (sl : StoredTrustList).
Context (Hcol : collected t true gen exported s1 nodes (Node_ID <$> nodes) acc) (Htenant : ValidString t = true).
Context (Hnd : NoDup (Node_ID <$> nodes)) (Hids : forall id, id ∈ Node_ID <$> nodes -> ValidPortableNodeID id = true) (Hkeys : forall n, n ∈ nodes -> ValidWGPublicKey (Node_WireGuardPublicKey n) = true).
#[local] Abbreviation members := (stage_members (ac_digests acc) (ac_keys acc)).

Lemma member_facts m :
  m ∈ members -> exists n, n ∈ nodes /\ M_NodeID m = Node_ID n /\ M_WGPublicKey m = Node_WireGuardPublicKey n /\ exported_digest exported (M_NodeID m) = Some (M_BundleSHA256 m).
Proof.
  intros [Hd Hk]%stage_members_elem. rewrite (cl_digests _ _ _ _ _ _ _ _ Hcol eq_refl) in Hd. destruct (decide (M_NodeID m ∈ _)) as [Hid|]; [|done].
  destruct (cl_keys _ _ _ _ _ _ _ _ Hcol eq_refl _ Hid) as (n & Hn & Hnid & Hkey). exists n. rewrite Hk, Hkey. done.
Qed.

Lemma node_member n : n ∈ nodes -> exists m, m ∈ members /\ M_NodeID m = Node_ID n /\ M_WGPublicKey m = Node_WireGuardPublicKey n /\ exported_digest exported (Node_ID n) = Some (M_BundleSHA256 m).
Proof.
  intros Hn. assert (Node_ID n ∈ Node_ID <$> nodes) as Hid by (by apply list_elem_of_fmap_2). destruct (cl_present _ _ _ _ _ _ _ _ Hcol eq_refl _ Hid) as [d Hd].
  destruct (cl_keys _ _ _ _ _ _ _ _ Hcol eq_refl _ Hid) as (n' & Hn' & Heq & Hkey). assert (n' = n) as -> by (by eapply (NoDup_fmap_inj_on Node_ID nodes)).
  exists (mkMember (Node_ID n) (Node_WireGuardPublicKey n) d). split; [|done]. apply stage_members_elem. cbn [M_NodeID M_BundleSHA256 M_WGPublicKey].
  rewrite (cl_digests _ _ _ _ _ _ _ _ Hcol eq_refl), decide_True, Hkey by done. done.
Qed.

Lemma staged_list_valid : valid_text (staged_list sl members).
Proof.
  split; [done|]. rewrite staged_list_perm. apply Forall_forall. intros m Hm. destruct (member_facts m Hm) as (n & Hn & Hid & Hk & Hd). split_and!.
  - rewrite Hid. apply id_valid, Hids. by apply list_elem_of_fmap_2.
  - rewrite Hk. by apply key_valid, Hkeys.
  - unfold exported_digest, checksum_digest in Hd. destruct (exported !! _) as [f|]; [|done]. cbn in Hd. destruct (f !! _); [|done]. injection Hd as <-. apply digest_valid.
Qed.

Lemma staged_list_ids : NoDup (M_NodeID <$> TL_Members (staged_list sl members)).
Proof. rewrite staged_list_perm, stage_members_ids. apply NoDup_fst_map_to_list. Qed.

Lemma staged_list_keys n : n ∈ nodes -> Node_WireGuardPublicKey n ∈ member_keys (TL_Members (staged_list sl members)).
Proof.
  intros Hn. destruct (node_member n Hn) as (m & Hm & _ & <- & _). unfold member_keys. apply elem_of_list_to_set, list_elem_of_filter.
  destruct (member_facts m Hm) as (n' & Hn' & _ & Hk & _). split; [|apply list_elem_of_fmap_2; by rewrite staged_list_perm].
  rewrite Hk. intros E. pose proof (Hkeys n' Hn') as Hv. by rewrite E in Hv.
Qed.
End Manifest.

(** ** From the stage to the agent *)

Section Accept.
Context {B : Type} `{KVLaws B} `{!AuditBackend B} `{!AuditLaws B} `{Crypto} `{Codec} `{Scripts} `{TopologyJSON} `{MetricJSON} `{SignatureJSON} (t : TenantID).
Context (probe : list TelemetryProbe -> option string) (keygen : Keygen).
#[local] Abbreviation Core := (storeCore B).
Implicit Types s : Core.

(** The link-local pins of the topology that the state stores are addresses. *)
Definition stored_pins_ok s : Prop := forall copy, deployable t s = Some copy -> link_local_pins_ok copy.

(** The decoder reads the staged manifest back. *)
Definition manifest_decodes s : Prop :=
  forall bs ids sl tl, candidate t s = Ok (bs, ids, Some sl) -> valid_text tl -> json_trustlist tl = TL_TrustListJSON sl -> unmarshal_trustlist (TL_TrustListJSON sl) = Some tl.

Lemma enrolled_pins s req : stored_pins_ok s -> enrolled_request t s req -> link_local_pins_ok (Req_Topology req).
Proof.
  intros Hp (topo & nodes & (copy & Hd & He) & -> & _) e x Hin Hx. cbn [enrolledSubgraph fst Topology_Edges] in Hin. apply list_elem_of_filter in Hin as [_ Hin].
  rewrite He in Hin. by eapply Hp.
Qed.

(** The files of a staged node, with the manifest beside them, pass both checks. *)
Lemma manifest_aside sl f q : q <> "trustlist.json"%string -> q <> "trustlist.sig"%string -> with_manifest sl f !! q = f !! q.
Proof. intros Hj Hs. unfold with_manifest. by rewrite !lookup_insert_ne. Qed.

Lemma bundle_with_manifest probe' ctx req rendered w out id f sl pinned :
  CompileResultCtx probe' ctx req = Some (Ok (rendered, w)) -> ExportWithSigner rendered (Req_SigningKey req) = Ok out -> signer_verifies (Req_SigningKey req) pinned -> out !! id = Some f ->
  exists count, VerifyBundle (with_manifest sl f) pinned = Ok (mkVerify (bool_decide (is_Some (Req_SigningKey req))) count).
Proof.
  intros Hc Hx Hs Hf. destruct (ExportWithSigner_ids _ _ _ _ _ Hx Hf) as (n & Hn & Hid). destruct (exported_verifies _ _ _ _ _ _ _ _ Hc Hx Hs Hn) as (f' & members & Hf' & Hm & He & _).
  rewrite Hid, Hf in Hf'. injection Hf' as <-. destruct (BundleFiles_facts _ _ _ Hm) as (Hin & _). eexists. apply (VerifyBundle_accepts members).
  - eapply exported_sealed; [done|rewrite Hin; by eapply CompileResultCtx_scripts|]. intros q. apply manifest_aside.
  - apply signature_accepted; [done|]. pose proof (ex_signature _ _ _ He) as Hsig. unfold signature_files in *. by rewrite !manifest_aside.
Qed.

Lemma exported_confs probe' ctx req rendered w out id f path content :
  CompileResultCtx probe' ctx req = Some (Ok (rendered, w)) -> ExportWithSigner rendered (Req_SigningKey req) = Ok out -> out !! id = Some f ->
  Req_Custody req = AgentHeld -> link_local_pins_ok (Req_Topology req) -> keyed (Topology_Nodes (Req_Topology req)) ->
  f !! path = Some content -> is_conf path = true -> names_node (Topology_Nodes (Req_Topology req)) content.
Proof.
  intros Hc Hx Hf Hcust Hll Hk Hp Hconf. destruct (ExportWithSigner_ids _ _ _ _ _ Hx Hf) as (n & Hn & <-). destruct (ExportWithSigner_nodes _ _ _ Hx n Hn) as (f' & Hf' & Hnode).
  rewrite Hf in Hf'. injection Hf' as <-. destruct (export_node_exported _ _ _ _ Hnode) as (members & Hm & He).
  rewrite (ex_members _ _ _ He) in Hp. { destruct (bundle_conf _ _ _ _ _ Hm Hp Hconf) as [name Hname]. by eapply compiled_files_named. }
  unfold added_names. intros Hbad. repeat (apply elem_of_cons in Hbad as [-> |Hbad]; [done|]). by apply elem_of_nil in Hbad.
Qed.

(** What a promoted node is served. *)
Lemma served_promoted s2 s3 bs sl cred b :
  releasing t s2 s3 (committed t) -> candidate t s2 = Ok (bs, map SB_NodeID bs, Some sl) -> kv_get t collOperatorCred "" s2 = Some (VCredential cred) -> b ∈ bs ->
  verifyStoredAgainstPin sl cred = Ok (Ok tt) /\
  served t (SB_NodeID b) s3 = Ok (mkServedConfig (set_flags false true b) true (Some (set_PromotedGeneration (SB_Generation b) sl))).
Proof.
  intros (s2' & staged & ids & tl & Hcalm & Hk & Hg & Hcom) Hk2 Hcred Hb. pose proof (calm_cred _ _ _ Hcalm) as Hcr. rewrite Hcred in Hcr.
  rewrite (calm_candidate _ _ _ Hcalm), Hk2 in Hk. injection Hk as <- _ <-. destruct (Hg cred Hcr) as (sl' & [= <-] & Hsig & Hver). split; [exact Hver|].
  rewrite <- (calm_candidate _ _ _ Hcalm) in Hk2. pose proof (candidate_Ok _ _ _ _ _ Hk2) as (_ & Hnd & _ & Hall & _). eapply Forall_forall in Hall; [|exact Hb].
  rewrite (served_committed _ _ _ _ _ _ _ Hnd Hcom), (new_current_in bs _ b) by done. rewrite Hcr, <- Hall. unfold served_view, served_slot, promoted. rewrite Hsig.
  cbn [decode of_json SignedBundle_json rbind]. rewrite SB_Generation_set_flags, Z.ltb_irrefl. cbn -[Nat.eqb String.length]. rewrite TL_PromotedGeneration_set, Z.ltb_irrefl. cbn [rbind].
  by rewrite signature_set_PromotedGeneration, Hsig.
Qed.

(** The membership check of a staged node, whatever signature the manifest carries. *)
Lemma staged_membership env req rendered w out s s1 acc sl sl' cred id f prev :
  CompileResultCtx probe (SE_ctx env) req = Some (Ok (rendered, w)) -> ExportWithSigner rendered (Req_SigningKey req) = Ok out -> enrolled_request t s req -> stored_pins_ok s -> ValidString t = true ->
  collected t true (next_generation t s1) out s1 (Topology_Nodes (Req_Topology req)) (Node_ID <$> Topology_Nodes (Req_Topology req)) acc -> manifest_of t (ac_digests acc) (ac_keys acc) sl ->
  (forall tl, valid_text tl -> json_trustlist tl = TL_TrustListJSON sl -> unmarshal_trustlist (TL_TrustListJSON sl) = Some tl) ->
  TL_TrustListJSON sl' = TL_TrustListJSON sl -> verifyStoredAgainstPin sl' cred = Ok (Ok tt) -> OC_PublicKeyPEM cred <> ""%string ->
  id ∈ Node_ID <$> Topology_Nodes (Req_Topology req) -> out !! id = Some f -> prev <= StoreTypes.TL_Epoch sl ->
  VerifyMembership (with_manifest sl' f) (agent_config cred id) prev = Ok (StoreTypes.TL_Epoch sl).
Proof.
  intros Hc Hx Henr Hpins Htext Hcol Hman Hdec Hjson Hver Hpem (n & -> & Hn)%list_elem_of_fmap Hf Hprev. pose proof (enrolled_pins _ _ Hpins Henr) as Hll.
  destruct (compiled_ids _ _ _ _ _ Hc) as [Hnd Hids]. assert (keyed (Topology_Nodes (Req_Topology req)) /\ Req_Custody req = AgentHeld) as [Hk Hcust].
  { destruct Henr as (topo & nodes & _ & Ht & Hcust). split; [|done]. rewrite Ht in *. by apply enrolled_keyed. }
  pose proof (fun n => compiled_keys _ _ _ _ _ n Hc Hcust Hk) as Hkeys. set (tl := staged_list t sl (stage_members (ac_digests acc) (ac_keys acc))).
  destruct (staged_list_canonical _ _ _ _ Hman) as [Htl Hcan]. destruct (node_member _ _ _ _ _ _ Hcol Hnd n Hn) as (self & Hself & Hid & _ & Hd). rewrite <- Hid.
  change (StoreTypes.TL_Epoch sl) with (TrustList.TL_Epoch tl). apply (membership_accepted cred sl' tl f self prev (Topology_Nodes (Req_Topology req))); rewrite ?Hjson; try done.
  - apply Hdec; [|done]. by eapply (staged_list_valid t _ _ _ _ _ _ Hcol).
  - apply staged_list_ids.
  - unfold tl; by rewrite staged_list_perm.
  - unfold exported_digest in Hd. by rewrite Hf in Hd.
  - intros path content. by eapply exported_confs.
  - intros n'. by apply (staged_list_keys t _ _ _ _ _ sl Hcol).
Qed.

(** C3. A deployed release is accepted.  A stage, the installation of the operator's
    signature and the promotion each report success, under any errors of the backend
    that they survive.  Then every staged node is served its new bundle with the signed
    manifest, and the agent that pinned the operator's credential, and the signing key
    if one is configured, accepts what it fetches: the verification of the bundle and
    the check of the membership both pass, at the epoch that was signed.  The topology
    that was stored must have link-local pins that are addresses: nothing else checks
    them, and the configuration of any other pin can name a key outside the manifest. *)
Theorem deployed_release_accepted env ctx cfg fs s n r s1 k ctx2 submitted signed fs2 n2 epoch s2 k2 ctx3 fs3 n3 g s3 k3 cred signer pinned id prev :
  ValidString t = true -> stored_pins_ok s -> manifest_decodes s1 ->
  kv_get t collOperatorCred "" s = Some (VCredential cred) -> OC_PublicKeyPEM cred <> ""%string -> SE_signer env = Ok signer -> signer_verifies signer pinned ->
  CompileAndStage probe keygen env ctx t cfg fs s n = Done r s1 k ->
  InstallTrustListSignature ctx2 t submitted signed fs2 s1 n2 = Done epoch s2 k2 ->
  PromoteRelease ctx3 t fs3 s2 n3 = Done g s3 k3 ->
  id ∈ SR_Staged r -> prev <= epoch ->
  exists sc f count, served t id s3 = Ok sc /\ config_files sc = Ok f /\
    VerifyBundle f pinned = Ok (mkVerify (bool_decide (is_Some signer)) count) /\ VerifyMembership f (agent_config cred id) prev = Ok epoch.
Proof.
  intros Htext Hpins Hdec Hcred Hpem Hsigner Hverifies Hstage Hinstall Hpromote Hid Hprev.
  pose proof (spec_CompileAndStage t probe keygen env ctx cfg s fs s n eq_refl) as Hs. rewrite Hstage in Hs. destruct Hs as [Hb1 Hrel].
  destruct Hrel as (cred' & signer' & req & rendered & w & out & s0 & Hb0 & Hhas & Hsg & Hc & Hkey & Hx & Henr & [(acc & tl & Hcol & Hst & _ & Hcand & Htl)]); [by intros E; rewrite E in Hid; apply elem_of_nil in Hid|].
  rewrite Hsigner in Hsg. injection Hsg as <-. subst signer.
  assert (cred' = Some cred) as ->.
  { unfold has_cred in Hhas. rewrite (bk_get _ _ _ Hb0), Hcred in Hhas by (intros _; unfold side_colls, staging_colls; split; set_solver). destruct cred' as [c|]; [|done]. by injection Hhas as <-. }
  destruct Htl as (sl & -> & Hman). rewrite bool_decide_eq_true_2 in Hcol by done. set (bs := stored_bundles _) in Hcand.
  pose proof (spec_Install t ctx2 submitted signed bs _ sl s1 Hcand fs2 s1 n2 eq_refl) as Hi. rewrite Hinstall in Hi. destruct Hi as (-> & Hb2 & Hcand2).
  set (sl2 := StoreTypes.mkTrustList _ _ _ _) in Hcand2. pose proof (spec_PromoteRelease t ctx3 s2 fs3 s2 n3 eq_refl) as Hp. rewrite Hpromote in Hp.
  assert (kv_get t collOperatorCred "" s2 = Some (VCredential cred)) as Hcred2.
  { rewrite (bk_get _ _ _ Hb2), (bk_get _ _ _ Hb1) by (intros _; unfold side_colls, staging_colls; split; set_solver). exact Hcred. }
  rewrite Hst in Hid. apply list_elem_of_fmap in Hid as (b & -> & Hb). destruct (cl_bundles _ _ _ _ _ _ _ _ Hcol b Hb) as (f & Hf & Hbf).
  assert (set_flags true false b ∈ bs) as Hbs by (apply stored_bundles_elem; by exists b). destruct (served_promoted s2 s3 bs sl2 cred _ Hp Hcand2 Hcred2 Hbs) as [Hver Hserved].
  rewrite SB_NodeID_set_flags in Hserved. set (sl3 := set_PromotedGeneration _ sl2) in Hserved. eexists. exists (with_manifest sl3 f).
  destruct (bundle_with_manifest probe _ _ _ _ _ _ _ sl3 pinned Hc Hx Hverifies Hf) as [count Hv]. exists count. split_and!; [exact Hserved| |exact Hv|].
  - unfold config_files. cbn [SC_Bundle SC_KeystoneOn SC_TrustList]. rewrite !served_files_flags, Hbf. unfold served_files. cbn [SB_Files]. by rewrite list_to_map_to_list.
  - eapply (staged_membership env req rendered w out s s0 acc sl sl3); try done.
    + intros tl. by eapply Hdec.
    + rewrite <- (cl_nodes _ _ _ _ _ _ _ _ Hcol). apply elem_of_app. left. by apply list_elem_of_fmap_2.
Qed.
End Accept.

(** ** A concrete deployment, from the stage to the agent *)

#[local] Existing Instance toy_crypto.
#[local] Existing Instance toy_scripts.
#[local] Existing Instance DeployProps.toy_topology_json.
#[local] Existing Instance DeployProps.toy_metric_json.

Definition ex_candidate_bundles : list SignedBundle :=
  match candidate "acme" (outcome_state ex_stage) with Ok (bs, _, _) => bs | Err _ => [] end.
Definition ex_manifest_list : TrustList.TrustList := Eval vm_compute in
  TrustList.mkTrustList 1 "acme" 0 ((fun b => mkMember (SB_NodeID b) (toy_public (SB_NodeID b)) (default ""%string (checksum_digest (served_files b)))) <$> ex_candidate_bundles).
Definition ex_manifest_json : string := Eval vm_compute in json_trustlist ex_manifest_list.
#[local] Instance deploy_codec : Codec :=
  {| unmarshal_trustlist s := if String.eqb s ex_manifest_json then Some ex_manifest_list else None;
     unmarshal_signed := @unmarshal_signed toy_codec; unmarshal_manifest := @unmarshal_manifest toy_codec; unmarshal_catalog := @unmarshal_catalog toy_codec;
     public_key_der := @public_key_der toy_codec; canonical_probe_policy := @canonical_probe_policy toy_codec;
     canonical_successor_policy := @canonical_successor_policy toy_codec; ToLower := @ToLower toy_codec |}.
#[local] Instance deploy_signature : SignatureJSON := {| marshal_signed := S_Signature |}.
Definition ex_signature : SignedTrustList :=
  mkSigned AlgEd25519 "" "" (RawURL_EncodeToString (toy_sign (sha256_sum (bytes_of "operator key")) (bytes_of ex_manifest_json))) "" "".

Definition ex_staged : outcome (storeCore memStore) StageResult := CompileAndStage ex_probe toy_keygen ex_env None "acme" ex_cfg no_faults ex_fleet_store 0%nat.
Definition ex_install (s : storeCore memStore) : outcome (storeCore memStore) Z := InstallTrustListSignature None "acme" ex_manifest_json ex_signature no_faults s 0%nat.
Definition ex_promote (s : storeCore memStore) : outcome (storeCore memStore) Z := PromoteRelease None "acme" no_faults s 0%nat.

(** The three steps report success, and the staged manifest is the one that is signed. *)
Definition ex_steps (o : outcome (storeCore memStore) StageResult) : bool :=
  match o with
  | Done r s1 _ =>
      bool_decide ("a"%string ∈ SR_Staged r) &&
      match candidate "acme" s1 with Ok (_, _, Some sl) => String.eqb (TL_TrustListJSON sl) ex_manifest_json | _ => false end &&
      match ex_install s1 with
      | Done epoch s2 _ => (epoch =? 0) && match ex_promote s2 with Done _ _ _ => true | _ => false end
      | _ => false
      end
  | _ => false
  end.
Lemma ex_steps_run : ex_steps ex_staged = true.
Proof. vm_compute. reflexivity. Qed.

Lemma ex_decodes s1 bs ids sl : candidate "acme" s1 = Ok (bs, ids, Some sl) -> String.eqb (TL_TrustListJSON sl) ex_manifest_json = true -> manifest_decodes (B := memStore) "acme" s1.
Proof.
  intros Hk Hj%String.eqb_eq bs' ids' sl' tl Hk' Hv Htl. rewrite Hk in Hk'. injection Hk' as _ _ <-. rewrite Hj in Htl |- *.
  assert (tl = ex_manifest_list) as ->; [|reflexivity]. apply json_trustlist_inj; [done| |by rewrite Htl].
  split; [reflexivity|]. repeat (constructor; [split_and!; reflexivity|]). constructor.
Qed.
Lemma ex_pins_ok : stored_pins_ok (B := memStore) "acme" ex_fleet_store.
Proof.
  intros copy Hc. assert (deployable (B := memStore) "acme" ex_fleet_store = Some ex_compile_topo) as Hd by (vm_compute; reflexivity).
  rewrite Hd in Hc. injection Hc as <-. intros e x He Hx Hne.
  repeat (apply elem_of_cons in He as [-> |He]; [by destruct Hx as [-> | ->]|]). by apply elem_of_nil in He.
Qed.

Lemma deployed_release_accepted_witness :
  exists (s3 : storeCore memStore) sc f count, served "acme" "a" s3 = Ok sc /\ config_files sc = Ok f /\
    VerifyBundle f "signing key" = Ok (mkVerify true count) /\ VerifyMembership f (agent_config ex_operator "a") 0 = Ok 0.
Proof.
  pose proof ex_steps_run as Hrun. unfold ex_steps in Hrun. destruct ex_staged as [r s1 k|e s1 k|s1] eqn:Hs; try discriminate Hrun.
  apply andb_prop in Hrun as [Hrun Hi]. apply andb_prop in Hrun as [Hin Hm]. apply bool_decide_eq_true in Hin.
  assert (manifest_decodes (B := memStore) "acme" s1) as Hdec.
  { destruct (candidate "acme" s1) as [[[bs ids] [sl|]]|] eqn:Hk; try discriminate Hm. exact (ex_decodes s1 bs ids sl Hk Hm). }
  destruct (ex_install s1) as [epoch s2 k2|e s2 k2|s2] eqn:Hinst; try discriminate Hi. apply andb_prop in Hi as [He Hp]. apply Z.eqb_eq in He.
  destruct (ex_promote s2) as [g s3 k3|e s3 k3|s3] eqn:Hprom; try discriminate Hp. exists s3. subst epoch. unfold ex_staged in Hs. unfold ex_install in Hinst. unfold ex_promote in Hprom.
  refine (deployed_release_accepted (B := memStore) "acme" ex_probe toy_keygen ex_env None ex_cfg no_faults ex_fleet_store 0%nat r s1 k None ex_manifest_json ex_signature no_faults 0%nat 0 s2 k2
            None no_faults 0%nat g s3 k3 ex_operator (Some toy_signer) "signing key" "a" 0 eq_refl ex_pins_ok Hdec _ _ eq_refl toy_signer_verifies Hs Hinst Hprom Hin _).
  - vm_compute. reflexivity.
  - discriminate.
  - lia.
Defined.
