(* ===== verification/Totp.v ===== *)
(** * One-time codes ([internal/controller/totp.go])

    SHA-1, HMAC and base32 as the standard library has them, and RFC 6238 codes over
    them.  The random bytes of a new secret are an argument. *)

From stdpp Require Import base strings list.
From Stdlib Require Import ZArith Lia Ascii.
From S2P Require Import Prelude GoLib GoSha GoText GoBase64.

Local Open Scope Z_scope.

(** ** SHA-1 ([crypto/sha1]) *)

Definition rotl (n x : Z) : Z := rotr (32 - n) x.
Definition H1 : list Z := [1732584193; 4023233417; 2562383102; 271733878; 3285377520].

Fixpoint extend1 (n : nat) (rev_w : list Z) : list Z :=
  match n with
  | O => rev_w
  | S k => let g i := nth i rev_w 0 in extend1 k (rotl 1 (Z.lxor (Z.lxor (g 2%nat) (g 7%nat)) (Z.lxor (g 13%nat) (g 15%nat))) :: rev_w)
  end.

Definition choose1 (i b c d : Z) : Z * Z :=
  if i <? 20 then (Ch b c d, 1518500249)
  else if i <? 40 then (Z.lxor (Z.lxor b c) d, 1859775393)
  else if i <? 60 then (Maj b c d, 2400959708)
  else (Z.lxor (Z.lxor b c) d, 3395469782).

Definition round1 (st : Z * list Z) (w : Z) : Z * list Z :=
  match st with
  | (i, [a; b; c; d; e]) =>
      let '(f, k) := choose1 i b c d in
      (i + 1, [add32 (add32 (rotl 5 a) f) (add32 e (add32 k w)); a; rotl 30 b; c; d])
  | _ => st
  end.

Definition compress1 (h block : list Z) : list Z := zip_with add32 h (foldl round1 (0, h) (reverse (extend1 64 (reverse block)))).2.
Fixpoint blocks1 (fuel : nat) (ws h : list Z) : list Z :=
  match fuel, ws with
  | O, _ | _, [] => h
  | S k, _ => blocks1 k (drop 16 ws) (compress1 h (take 16 ws))
  end.
Definition sha1_sum (msg : list Z) : list Z :=
  let ws := words (pad msg) in concat (be_bytes 4 <$> blocks1 (length ws) ws H1).

Example sha1_abc : hex_encode (sha1_sum (bytes_of "abc")) = "a9993e364706816aba3e25717850c26c9cd0d89d"%string.
Proof. vm_compute. reflexivity. Qed.

(** [hmac.New(sha1.New, key)] over one message. *)
Definition hmac_sha1 (key msg : list Z) : list Z :=
  let key := if Nat.ltb 64 (length key) then sha1_sum key else key in
  let padded := key ++ replicate (64 - length key) 0 in
  sha1_sum ((Z.lxor 92 <$> padded) ++ sha1_sum ((Z.lxor 54 <$> padded) ++ msg)).

(** ** Base32 without padding ([encoding/base32]) *)

Definition b32_val (c : ascii) : option Z :=
  if is_upper c then Some (byte_val c - 65)
  else if (50 <=? byte_val c) && (byte_val c <=? 55) then Some (byte_val c - 24) else None.
Definition b32_char (v : Z) : ascii := byte_of (if v <? 26 then v + 65 else v + 24).

(** Eight digits make five bytes; of a shorter last group the decoder keeps the whole
    bytes and drops the remaining bits, and one, three or six digits are no group. *)
Definition group_bytes (n : nat) : option nat := match n with 2 => Some 1 | 4 => Some 2 | 5 => Some 3 | 7 => Some 4 | 8 => Some 5 | _ => None end%nat.
Definition digits_value (vs : list Z) : Z := foldl (fun acc v => acc * 32 + v) 0 vs.
Definition of_group (vs : list Z) : option (list Z) :=
  k ← group_bytes (length vs); Some (be_bytes k (digits_value vs / 2 ^ (5 * Z.of_nat (length vs) - 8 * Z.of_nat k))).
Fixpoint of_digits (fuel : nat) (vs : list Z) : option (list Z) :=
  match fuel, vs with
  | _, [] => Some []
  | O, _ => None
  | S k, _ => g ← of_group (take 8 vs); rest ← of_digits k (drop 8 vs); Some (g ++ rest)
  end.
Definition base32_DecodeString (s : string) : option (list Z) :=
  vs ← mapM b32_val (skip_breaks (chars s)); of_digits (length vs) vs.

Definition group_digits (n : nat) : nat := match n with 1 => 2 | 2 => 4 | 3 => 5 | 4 => 7 | _ => 8 end%nat.
Definition to_group (bs : list Z) : list Z :=
  let k := group_digits (length bs) in
  let v := foldl (fun acc b => acc * 256 + b) 0 bs * 2 ^ (5 * Z.of_nat k - 8 * Z.of_nat (length bs)) in
  (fun i => (v / 2 ^ (5 * Z.of_nat i)) mod 32) <$> reverse (seq 0 k).
Fixpoint to_digits (fuel : nat) (bs : list Z) : list Z :=
  match fuel, bs with
  | _, [] | O, _ => []
  | S k, _ => to_group (take 5 bs) ++ to_digits k (drop 5 bs)
  end.
Definition base32_EncodeToString (bs : list Z) : string := str_of (b32_char <$> to_digits (length bs) bs).

(** ** Codes *)

Definition totpDigits : nat := 6.
Definition totpPeriod : Z := 30.
Definition totpSecretBytes : nat := 20.
Definition totpSkewSteps : Z := 1.
Definition second : Z := 1000000000.

Definition GenerateTOTPSecret (raw : list Z) : string := base32_EncodeToString raw.

(** [strings.ToUpper] as far as base32 can see: two letters outside ASCII, U+0131 and
    U+017F, have an ASCII capital; every other one stays outside ASCII. *)
Fixpoint ToUpper_base32 (s : string) : string :=
  match s with
  | EmptyString => EmptyString
  | String c r =>
      match r with
      | String d r' =>
          if (byte_val c =? 196) && (byte_val d =? 177) then String "I"%char (ToUpper_base32 r')
          else if (byte_val c =? 197) && (byte_val d =? 191) then String "S"%char (ToUpper_base32 r')
          else String (if is_lower c then byte_of (byte_val c - 32) else c) (ToUpper_base32 r)
      | EmptyString => String (if is_lower c then byte_of (byte_val c - 32) else c) EmptyString
      end
  end.

(** [fmt.Sprintf("%0*d", totpDigits, n)] of a number of at most six digits. *)
Definition six_digits (n : Z) : string := string_of_bytes ((fun i => 48 + (n / 10 ^ Z.of_nat i) mod 10) <$> reverse (seq 0 totpDigits)).

Definition truncate (sum : list Z) : Z :=
  let offset := Z.to_nat (Z.land (default 0 (last sum)) 15) in
  let g i := default 0 (sum !! (offset + i)%nat) in
  Z.lor (Z.shiftl (Z.land (g 0%nat) 127) 24) (Z.lor (Z.shiftl (g 1%nat) 16) (Z.lor (Z.shiftl (g 2%nat) 8) (g 3%nat))).

Definition totpCodeForStep (secret : string) (step : Z) : option string :=
  key ← base32_DecodeString (ToUpper_base32 (TrimSpace secret));
  Some (six_digits (truncate (hmac_sha1 key (be_bytes 8 step)) mod 1000000)).

(** [t.Unix()] of a time in nanoseconds, then Go's division, which truncates. *)
Definition unix (t : Z) : Z := t / second.
Definition step_at (t : Z) : Z := Z.quot (unix t) totpPeriod.
Definition u64 (x : Z) : Z := x mod 2 ^ 64.

Definition TOTPCode (secret : string) (t : Z) : option string := totpCodeForStep secret (u64 (step_at t)).

(** The loop over the steps around the current one. *)
Fixpoint try_steps (secret code : string) (lastStep : Z) (steps : list Z) : bool * Z :=
  match steps with
  | [] => (false, 0)
  | s :: rest =>
      if s <=? lastStep then try_steps secret code lastStep rest
      else match totpCodeForStep secret (u64 s) with
           | None => (false, 0)
           | Some want => if String.eqb want code then (true, s) else try_steps secret code lastStep rest
           end
  end.
Definition VerifyTOTP (secret code : string) (t lastStep : Z) : bool * Z :=
  let code := TrimSpace code in
  if negb (Nat.eqb (String.length code) totpDigits) then (false, 0)
  else let current := step_at t in try_steps secret code lastStep [current - totpSkewSteps; current; current + totpSkewSteps].

(** The test vectors of RFC 6238 (last six digits) and RFC 4648. *)
Definition rfc_secret : string := base32_EncodeToString (bytes_of "12345678901234567890").
Example rfc_secret_text : rfc_secret = "GEZDGNBVGY3TQOJQGEZDGNBVGY3TQOJQ"%string.
Proof. vm_compute. reflexivity. Qed.
Example rfc_59 : TOTPCode rfc_secret (59 * second) = Some "287082"%string.
Proof. vm_compute. reflexivity. Qed.
Example rfc_1111111109 : TOTPCode rfc_secret (1111111109 * second) = Some "081804"%string.
Proof. vm_compute. reflexivity. Qed.
Example rfc_20000000000 : TOTPCode "gezdgnbvgy3tqojqgezdgnbvgy3tqojq" (20000000000 * second) = Some "353130"%string.
Proof. vm_compute. reflexivity. Qed.
Example rfc_foob : base32_EncodeToString (bytes_of "foob") = "MZXW6YQ"%string /\ base32_DecodeString "MZXW6YQ" = Some (bytes_of "foob").
Proof. vm_compute. split; reflexivity. Qed.

(** ** What a code proves *)

Lemma try_steps_spec secret code last steps s :
  try_steps secret code last steps = (true, s) -> s ∈ steps /\ last < s /\ totpCodeForStep secret (u64 s) = Some code.
Proof.
  induction steps as [|x steps IH]; cbn [try_steps]; [done|]. destruct (Z.leb_spec x last) as [Hx|Hx].
  - intros (? & ? & ?)%IH. split_and!; [by right|done..].
  - destruct (totpCodeForStep secret (u64 x)) as [want|] eqn:Hw; [|done]. destruct (String.eqb_spec want code) as [<-|Hne].
    + intros [= <-]. split_and!; [by left|lia|done].
    + intros (? & ? & ?)%IH. split_and!; [by right|done..].
Qed.

(** An accepted code is the code of its step, which is new and next to the clock. *)
Lemma VerifyTOTP_step secret code t last s :
  VerifyTOTP secret code t last = (true, s) ->
  last < s /\ step_at t - totpSkewSteps <= s <= step_at t + totpSkewSteps /\ totpCodeForStep secret (u64 s) = Some (TrimSpace code).
Proof.
  unfold VerifyTOTP. cbn zeta. destruct (negb _); [done|]. intros (Hin & Hl & Hc)%try_steps_spec. split_and!; [done|..|done];
  unfold totpSkewSteps in *; repeat (apply elem_of_cons in Hin as [->|Hin]; [lia|]); by apply elem_of_nil in Hin.
Qed.

(** ** The current code is accepted *)

Lemma decimal_solid x : solid (byte_of (48 + x mod 10)) = true.
Proof.
  assert (0 <= x mod 10 < 10) as Hx by (apply Z.mod_pos_bound; lia). set (d := x mod 10) in *. clearbody d.
  assert (d = 0 \/ d = 1 \/ d = 2 \/ d = 3 \/ d = 4 \/ d = 5 \/ d = 6 \/ d = 7 \/ d = 8 \/ d = 9) as Hd by lia. by repeat destruct Hd as [->|Hd]; [reflexivity..|subst d].
Qed.

Lemma six_digits_form n : exists a b c d e f, six_digits n = string_of_bytes [48 + a mod 10; 48 + b mod 10; 48 + c mod 10; 48 + d mod 10; 48 + e mod 10; 48 + f mod 10].
Proof. unfold six_digits. change (reverse (seq 0 totpDigits)) with [5; 4; 3; 2; 1; 0]%nat. cbn [fmap list_fmap]. by do 6 eexists. Qed.

Lemma six_digits_trimmed n : TrimSpace (six_digits n) = six_digits n /\ String.length (six_digits n) = totpDigits.
Proof.
  destruct (six_digits_form n) as (a & b & c & d & e & f & ->). unfold string_of_bytes. cbn [map fmap list_fmap foldr]. split; [|reflexivity].
  apply (TrimSpace_solid _ (String _ (String _ (String _ (String _ "")))) _); apply decimal_solid.
Qed.

(** Whether a secret has codes does not depend on the step. *)
Lemma code_any_step secret x y : is_Some (totpCodeForStep secret x) -> is_Some (totpCodeForStep secret y).
Proof. unfold totpCodeForStep. destruct (base32_DecodeString _) as [key|]; cbn [mbind option_bind]; [intros _; eexists; reflexivity|intros [w Hw]; discriminate Hw]. Qed.

Lemma try_steps_accepts secret code last x steps :
  x ∈ steps -> last < x -> totpCodeForStep secret (u64 x) = Some code -> exists s, try_steps secret code last steps = (true, s).
Proof.
  intros Hin Hl Hc. induction steps as [|y steps IH]; [by apply elem_of_nil in Hin|]. cbn [try_steps]. apply elem_of_cons in Hin as [<-|Hin].
  - destruct (Z.leb_spec x last); [lia|]. rewrite Hc, String.eqb_refl. by exists x.
  - destruct (y <=? last); [by apply IH|]. destruct (code_any_step secret (u64 x) (u64 y)) as [w Hw]; [by exists code|]. rewrite Hw. destruct (String.eqb w code); [by exists y|by apply IH].
Qed.

Lemma VerifyTOTP_current secret code t last :
  TOTPCode secret t = Some code -> last < step_at t -> TrimSpace code = code /\ code <> ""%string /\ exists s, VerifyTOTP secret code t last = (true, s).
Proof.
  intros Hc Hl. assert (exists n, code = six_digits n) as [n Hn].
  { unfold TOTPCode, totpCodeForStep in Hc. destruct (base32_DecodeString _) as [key|]; [|done]. cbn [mbind option_bind] in Hc. injection Hc as <-. by eexists. }
  destruct (six_digits_trimmed n) as [Ht Hlen]. rewrite <- Hn in Ht, Hlen. split; [done|]. split; [by intros ->|].
  unfold VerifyTOTP. rewrite Ht, Hlen, Nat.eqb_refl. cbn [negb]. apply (try_steps_accepts _ _ _ (step_at t)); [by right; left|done|exact Hc].
Qed.
