(* ===== verification/RateLimit.v ===== *)
(** * The request limiters ([internal/api/loginratelimit.go])

    A counter per key over a fixed window, reserved at the gate; the key of a source
    address.  [registerAttempt], [succeed] and the sweep run under the limiter's lock,
    so each is one step. *)

From stdpp Require Import base gmap strings list sorting.
From Stdlib Require Import ZArith Lia Ascii.
From S2P Require Import Prelude GoLib GoNet GoText.

Local Open Scope Z_scope.

(** ** The limiter *)

Definition loginWindow : Z := 15 * 60 * 1000000000.
Definition maxLoginFailures : Z := 10.
Definition maxEnrollFailures : Z := 60.
Definition loginLimiterSweepAt : nat := 4096.
Definition maxNodeRequestsPerWindow : Z := 60.
Definition nodeRateWindow : Z := 60 * 1000000000.

Record attemptRecord := mkAttempt { at_count : Z; at_windowStart : Z }.
Record loginLimiter := mkLimiter { lim_attempts : gmap string attemptRecord; lim_max : Z; lim_window : Z }.

Definition newLimiter (max window : Z) : loginLimiter := mkLimiter ∅ max window.
Definition newLoginLimiter : loginLimiter := newLimiter maxLoginFailures loginWindow.

(** [time.Time.Sub] saturates at the range of a duration. *)
Definition time_Sub (a b : Z) : Z := Z.max (- 2 ^ 63) (Z.min (2 ^ 63 - 1) (a - b)).

Definition set_attempts (m : gmap string attemptRecord) (l : loginLimiter) : loginLimiter := mkLimiter m (lim_max l) (lim_window l).

Definition stale (now window : Z) (rec : attemptRecord) : bool := window <=? time_Sub now (at_windowStart rec).

Definition pruneLocked (now : Z) (l : loginLimiter) : loginLimiter :=
  set_attempts (filter (fun kr : string * attemptRecord => stale now (lim_window l) kr.2 = false) (lim_attempts l)) l.

(** The first pass: the longest remaining lockout of the keys, if one is locked. *)
Definition lock_check (l : loginLimiter) (now : Z) (st : bool * Z) (k : string) : bool * Z :=
  match lim_attempts l !! k with
  | None => st
  | Some rec =>
      if stale now (lim_window l) rec then st
      else if lim_max l <=? at_count rec then
        let remain := i64 (lim_window l - time_Sub now (at_windowStart rec)) in
        (true, if st.2 <? remain then remain else st.2)
      else st
  end.

(** The second pass: a slot on each key. *)
Definition reserve_slot (now : Z) (st : loginLimiter * bool) (k : string) : loginLimiter * bool :=
  let '(l, justLocked) := st in
  let rec := match lim_attempts l !! k with
             | Some rec => if stale now (lim_window l) rec then mkAttempt 1 now else mkAttempt (at_count rec + 1) (at_windowStart rec)
             | None => mkAttempt 1 now
             end in
  (set_attempts (<[ k := rec ]> (lim_attempts l)) l, justLocked || (at_count rec =? lim_max l)).

Record gate := mkGate { gt_allowed : bool; gt_justLocked : bool; gt_retryAfter : Z }.

Definition registerAttempt (now : Z) (keys : list string) (l : loginLimiter) : loginLimiter * gate :=
  let l := if Nat.ltb loginLimiterSweepAt (size (lim_attempts l)) then pruneLocked now l else l in
  let '(blocked, retryAfter) := foldl (lock_check l now) (false, 0) keys in
  if (blocked : bool) then (l, mkGate false false retryAfter)
  else let '(l', justLocked) := foldl (reserve_slot now) (l, false) keys in (l', mkGate true justLocked 0).

Definition succeed (keys : list string) (l : loginLimiter) : loginLimiter := set_attempts (foldl (fun m k => delete k m) (lim_attempts l) keys) l.

(** ** The source address *)

(** [net.SplitHostPort], the host alone. *)
Fixpoint last_cut (sep : ascii) (s : string) : option (string * string) :=
  match s with
  | EmptyString => None
  | String c r =>
      match last_cut sep r with
      | Some (a, b) => Some (String c a, b)
      | None => if Ascii.eqb c sep then Some (EmptyString, r) else None
      end
  end.
Definition split_host (hostport : string) : option string :=
  match last_cut ":" hostport with
  | None => None
  | Some (before, port) =>
      match hostport with
      | String "[" inner =>
          match str_cut "]" inner with
          | None => None
          | Some (host, after) =>
              (** the first closing bracket stands just before the last colon *)
              if String.eqb after (String ":" port) && negb (has_byte "[" inner) && negb (has_byte "]" after) then Some host else None
          end
      | _ => if has_byte ":" before || has_byte "[" hostport || has_byte "]" hostport then None else Some before
      end
  end.

Definition ipInNets (ipStr : string) (nets : list IPNet) : bool :=
  match ParseIP ipStr with None => false | Some ip => existsb (fun n => Contains n ip) nets end.

Record http_request := mkHTTP {
  Rq_Method : string; Rq_RemoteAddr : string; Rq_Authorization : string; Rq_XForwardedFor : string; Rq_XRealIP : string; Rq_CSRFHeader : string;
  Rq_SessionCookie : option string; Rq_CSRFCookie : option string }.

(** The rightmost hop that is an address and not a trusted proxy. *)
Definition untrusted_hop (proxies : list IPNet) (part : string) : bool :=
  let ip := TrimSpace part in negb (String.eqb ip "") && bool_decide (is_Some (ParseIP ip)) && negb (ipInNets ip proxies).

Definition clientIP (proxies : list IPNet) (r : http_request) : string :=
  let host := default (Rq_RemoteAddr r) (split_host (Rq_RemoteAddr r)) in
  if Nat.eqb (length proxies) 0 || negb (ipInNets host proxies) then host
  else
    match (if String.eqb (Rq_XForwardedFor r) "" then None else List.find (untrusted_hop proxies) (rev (split_on "," (Rq_XForwardedFor r)))) with
    | Some part => TrimSpace part
    | None => let xr := TrimSpace (Rq_XRealIP r) in if bool_decide (is_Some (ParseIP xr)) then xr else host
    end.

(** ** How many attempts pass the gate *)

Lemma time_Sub_stale now start window : 0 < window < 2 ^ 63 -> (window <=? time_Sub now start) = (window <=? now - start).
Proof. unfold time_Sub. intros Hw. destruct (Z.leb_spec window (now - start)); [apply Z.leb_le|apply Z.leb_gt]; lia. Qed.

(** A key that the gate would turn away. *)
Definition locked (l : loginLimiter) (now : Z) (k : string) : bool :=
  match lim_attempts l !! k with Some rec => negb (stale now (lim_window l) rec) && (lim_max l <=? at_count rec) | None => false end.

Lemma lock_check_locked l now st k : (lock_check l now st k).1 = st.1 || locked l now k.
Proof.
  unfold lock_check, locked. destruct (lim_attempts l !! k) as [rec|]; [|by rewrite orb_false_r]. destruct (stale now (lim_window l) rec); cbn [negb andb]; [by rewrite orb_false_r|].
  destruct (_ <=? _); cbn [fst]; [by rewrite orb_true_r|by rewrite orb_false_r].
Qed.
Lemma lock_checks l now keys st : (foldl (lock_check l now) st keys).1 = st.1 || existsb (locked l now) keys.
Proof. revert st. induction keys as [|k keys IH]; intros st; cbn [foldl existsb]; [by rewrite orb_false_r|]. by rewrite IH, lock_check_locked, orb_assoc. Qed.

Definition bumped (l : loginLimiter) (now : Z) (k : string) : attemptRecord :=
  match lim_attempts l !! k with
  | Some rec => if stale now (lim_window l) rec then mkAttempt 1 now else mkAttempt (at_count rec + 1) (at_windowStart rec)
  | None => mkAttempt 1 now
  end.

Lemma reserve_slots now keys l b :
  NoDup keys -> let l' := (foldl (reserve_slot now) (l, b) keys).1 in
  lim_max l' = lim_max l /\ lim_window l' = lim_window l /\ forall k, lim_attempts l' !! k = if decide (k ∈ keys) then Some (bumped l now k) else lim_attempts l !! k.
Proof.
  revert l b. induction keys as [|x keys IH]; intros l b Hnd; cbn [foldl]; [split_and!; [done..|]; intros k; by rewrite decide_False by apply not_elem_of_nil|].
  apply NoDup_cons in Hnd as [Hx Hnd]. destruct (reserve_slot now (l, b) x) as [l1 b1] eqn:E. destruct (IH l1 b1 Hnd) as (Hm & Hw & Hl). cbn zeta.
  injection E as <- <-. cbn [lim_max lim_window set_attempts] in Hm, Hw. split_and!; [done..|]. intros k. rewrite Hl. unfold bumped. cbn [lim_attempts set_attempts lim_window].
  destruct (decide (k = x)) as [->|Hne].
  - rewrite decide_False, lookup_insert_eq, decide_True by (done || by left). done.
  - rewrite !lookup_insert_ne by done. destruct (decide (k ∈ keys)) as [Hk|Hk]; [by rewrite decide_True by (by right)|rewrite decide_False; [done|]]. by intros [?|?]%elem_of_cons.
Qed.

Definition swept (now : Z) (l : loginLimiter) : loginLimiter := if Nat.ltb loginLimiterSweepAt (size (lim_attempts l)) then pruneLocked now l else l.

(** A sweep forgets stale records only. *)
Lemma swept_lookup now l k :
  lim_max (swept now l) = lim_max l /\ lim_window (swept now l) = lim_window l /\
  (lim_attempts (swept now l) !! k = lim_attempts l !! k \/ (lim_attempts (swept now l) !! k = None /\ exists rec, lim_attempts l !! k = Some rec /\ stale now (lim_window l) rec = true)).
Proof.
  unfold swept. destruct (Nat.ltb _ _); [|split_and!; auto]. split_and!; [done..|]. unfold pruneLocked. cbn [lim_attempts set_attempts].
  destruct (lim_attempts l !! k) as [rec|] eqn:Hk.
  - destruct (stale now (lim_window l) rec) eqn:Hs.
    + right. split; [|by exists rec]. apply map_lookup_filter_None. right. intros rec'. rewrite Hk. intros [= <-]. cbn. by rewrite Hs.
    + left. apply map_lookup_filter_Some. done.
  - left. apply map_lookup_filter_None. by left.
Qed.

Lemma registerAttempt_unfold now keys l :
  NoDup keys ->
  let l1 := swept now l in
  let '(l2, g) := registerAttempt now keys l in
  gt_allowed g = negb (existsb (locked l1 now) keys) /\ lim_max l2 = lim_max l /\ lim_window l2 = lim_window l /\
  forall k, lim_attempts l2 !! k = if gt_allowed g && bool_decide (k ∈ keys) then Some (bumped l1 now k) else lim_attempts l1 !! k.
Proof.
  intros Hnd l1. unfold registerAttempt. fold (swept now l). fold l1. destruct (swept_lookup now l "") as (Hm & Hw & _). fold l1 in Hm, Hw.
  pose proof (lock_checks l1 now keys (false, 0)) as Hb. destruct (foldl (lock_check l1 now) (false, 0) keys) as [blocked retry]. cbn [fst orb] in Hb. subst blocked.
  destruct (existsb (locked l1 now) keys); cbn [negb gt_allowed andb]; [by split_and!|].
  destruct (reserve_slots now keys l1 false Hnd) as (Hm2 & Hw2 & Hl). destruct (foldl (reserve_slot now) (l1, false) keys) as [l2 j]. cbn [fst gt_allowed andb] in *.
  split_and!; [done|congruence..|]. intros k. rewrite Hl. by case_decide; case_bool_decide.
Qed.

(** *** Histories *)

Inductive limiter_event := Attempt (now : Z) (keys : list string) | Succeed (keys : list string).

Definition step_limiter (e : limiter_event) (l : loginLimiter) : loginLimiter :=
  match e with Attempt now keys => (registerAttempt now keys l).1 | Succeed keys => succeed keys l end.

(** The times of the attempts with the key that pass the gate. *)
Fixpoint admitted (k : string) (events : list limiter_event) (l : loginLimiter) : list Z :=
  match events with
  | [] => []
  | e :: rest =>
      (match e with Attempt now keys => if gt_allowed (registerAttempt now keys l).2 && bool_decide (k ∈ keys) then [now] else [] | Succeed _ => [] end)
      ++ admitted k rest (step_limiter e l)
  end.

(** The clock does not run backwards, an attempt names a key once, and no success
    clears the key. *)
Fixpoint unforgiven (k : string) (t : Z) (events : list limiter_event) : Prop :=
  match events with
  | [] => True
  | Attempt now keys :: rest => t <= now /\ NoDup keys /\ unforgiven k now rest
  | Succeed keys :: rest => k ∉ keys /\ unforgiven k t rest
  end.

Definition since (T : Z) (ts : list Z) : Z := Z.of_nat (length (filter (fun x => T <= x) ts)).
Lemma since_app T ts ts' : since T (ts ++ ts') = since T ts + since T ts'.
Proof. unfold since. rewrite filter_app, length_app. lia. Qed.
Lemma since_one T x : since T [x] = if decide (T <= x) then 1 else 0.
Proof. unfold since. rewrite filter_cons, filter_nil. by case_decide. Qed.
Lemma since_none T ts : (forall x, x ∈ ts -> x < T) -> since T ts = 0.
Proof. intros Hts. unfold since. induction ts as [|x ts IH]; [done|]. rewrite filter_cons, decide_False; [apply IH; set_solver|]. pose proof (Hts x ltac:(by left)). lia. Qed.
Definition within (T T' : Z) (ts : list Z) : Z := Z.of_nat (length (filter (fun x => T <= x < T') ts)).
Lemma within_since T T' ts : within T T' ts <= since T ts.
Proof. unfold within, since. induction ts as [|x ts IH]; [done|]. rewrite !filter_cons. repeat case_decide; cbn [length]; lia. Qed.
Lemma within_app T T' ts ts' : within T T' (ts ++ ts') = within T T' ts + within T T' ts'.
Proof. unfold within. rewrite filter_app, length_app. lia. Qed.
Lemma within_none T T' x : T' <= x -> within T T' [x] = 0.
Proof. intros Hx. unfold within. rewrite filter_cons, filter_nil, decide_False by lia. done. Qed.

Section Bound.
Context (max window : Z) (Hmax : 0 < max) (Hwindow : 0 < window < 2 ^ 63) (k : string).

(** What the record of the key says of the attempts admitted so far. *)
Record counted (rec : attemptRecord) (ts : list Z) : Prop := {
  co_count : 1 <= at_count rec <= max;
  co_window : forall x, x ∈ ts -> x < at_windowStart rec + window;
  co_since : forall T m, 0 <= m -> at_windowStart rec - T <= m * window -> since T ts <= at_count rec + m * max }.

Definition spread (ts : list Z) : Prop := forall T m, 0 <= m -> within T (T + m * window) ts <= (m + 1) * max.
Definition tracked (l : loginLimiter) (t : Z) (ts : list Z) : Prop :=
  lim_max l = max /\ lim_window l = window /\ spread ts /\
  ((ts = [] /\ lim_attempts l !! k = None) \/
   exists rec, counted rec ts /\ at_windowStart rec <= t /\ (lim_attempts l !! k = Some rec \/ (lim_attempts l !! k = None /\ at_windowStart rec + window <= t))).

Lemma stale_iff now rec : stale now window rec = true <-> at_windowStart rec + window <= now.
Proof. unfold stale. rewrite time_Sub_stale by done. rewrite Z.leb_le. lia. Qed.

(** A new window starts after the old one has passed. *)
Lemma counted_restart rec ts now : counted rec ts -> at_windowStart rec + window <= now -> counted (mkAttempt 1 now) (ts ++ [now]).
Proof.
  intros [Hc Hw Hs] Hnow. split; cbn [at_count at_windowStart]; [lia|intros x [Hx|Hx%list_elem_of_singleton]%elem_of_app; [specialize (Hw x Hx)|]; lia|].
  intros T m Hm HT. rewrite since_app, since_one. destruct (Z.le_gt_cases now T) as [Hlate|Hearly].
  - rewrite since_none by (intros x Hx; specialize (Hw x Hx); lia). case_decide; nia.
  - assert (since T ts <= m * max); [|case_decide; lia]. destruct (Z.eq_dec m 0) as [->|]; [lia|]. destruct (Z.le_gt_cases T (at_windowStart rec)).
    + assert (since T ts <= at_count rec + (m - 1) * max) by (apply Hs; nia). nia.
    + assert (since T ts <= at_count rec + 0 * max) by (apply Hs; nia). nia.
Qed.

Lemma counted_bump rec ts now :
  counted rec ts -> at_count rec < max -> now < at_windowStart rec + window -> counted (mkAttempt (at_count rec + 1) (at_windowStart rec)) (ts ++ [now]).
Proof.
  intros [Hc Hw Hs] Hlt Hnow. split; cbn [at_count at_windowStart]; [lia|intros x [Hx|Hx%list_elem_of_singleton]%elem_of_app; [by apply Hw|lia]|].
  intros T m Hm HT. rewrite since_app, since_one. specialize (Hs T m Hm HT). case_decide; lia.
Qed.

Lemma counted_first now : counted (mkAttempt 1 now) [now].
Proof.
  split; cbn [at_count at_windowStart]; [lia|intros x Hx%list_elem_of_singleton; lia|]. intros T m Hm HT. rewrite since_one. case_decide; nia.
Qed.

Lemma tracked_swept l t now ts : tracked l t ts -> t <= now -> tracked (swept now l) now ts.
Proof.
  intros (Hm & Hw & Hsp & Ht) Hnow. destruct (swept_lookup now l k) as (Hm' & Hw' & Hk). split_and!; [congruence..|done|].
  destruct Ht as [[-> Hn]|(rec & Hc & Hst & Hr)].
  - left. split; [done|]. destruct Hk as [->|[-> _]]; done.
  - right. exists rec. split; [done|]. split; [lia|]. destruct Hk as [->|[-> (rec' & Hr' & Hs)]]; [destruct Hr as [Hr|[Hr Hp]]; [by left|right; split; [done|lia]]|].
    right. split; [done|]. destruct Hr as [Hr|[Hr _]]; [|congruence]. rewrite Hr in Hr'. injection Hr' as <-. rewrite Hw in Hs. by apply stale_iff.
Qed.

(** The attempts of the last stretch of windows are those the record counts. *)
Lemma counted_spread rec ts now : spread ts -> counted rec (ts ++ [now]) -> at_windowStart rec <= now -> spread (ts ++ [now]).
Proof.
  intros Hsp [Hc _ Hs] Hle T m Hm. destruct (Z.le_gt_cases (T + m * window) now) as [Hout|Hin].
  - rewrite within_app, within_none by lia. specialize (Hsp T m Hm). lia.
  - pose proof (within_since T (T + m * window) (ts ++ [now])). assert (since T (ts ++ [now]) <= at_count rec + m * max) by (apply Hs; lia). nia.
Qed.

Lemma tracked_attempt l t now keys ts :
  tracked l t ts -> t <= now -> NoDup keys ->
  tracked (registerAttempt now keys l).1 now (ts ++ if gt_allowed (registerAttempt now keys l).2 && bool_decide (k ∈ keys) then [now] else []).
Proof.
  intros Ht Hnow Hnd. apply (tracked_swept _ _ now) in Ht; [|done]. pose proof (registerAttempt_unfold now keys l Hnd) as Hu. cbn zeta in Hu.
  destruct (swept_lookup now l k) as (Hm' & Hw' & _). destruct (registerAttempt now keys l) as [l2 g]. destruct Hu as (Ha & Hm & Hw & Hl). cbn [fst snd].
  destruct Ht as (Hm1 & Hw1 & Hsp & Ht). split; [congruence|]. split; [congruence|]. rewrite Hl. destruct (gt_allowed g && bool_decide (k ∈ keys)) eqn:E; [|by rewrite app_nil_r].
  apply andb_true_iff in E as [Hal Hin%bool_decide_eq_true]. rewrite Hal in Ha. symmetry in Ha. apply negb_true_iff in Ha.
  assert (locked (swept now l) now k = false) as Hnl.
  { destruct (locked (swept now l) now k) eqn:E; [|done]. assert (existsb (locked (swept now l) now) keys = true) as Hx; [|congruence].
    apply existsb_exists. exists k. split; [by apply list_elem_of_In|done]. }
  assert (counted (bumped (swept now l) now k) (ts ++ [now]) /\ at_windowStart (bumped (swept now l) now k) <= now) as [Hcn Hst].
  2:{ split; [by eapply counted_spread|]. right. exists (bumped (swept now l) now k). split_and!; [done|done|by left]. }
  unfold bumped, locked in *. destruct Ht as [[-> Hn]|(rec & Hc & Hst & [Hr|[Hr Hp]])].
  - rewrite Hn. split; [apply counted_first|done].
  - rewrite Hr in *. rewrite Hw1, Hm1 in *. destruct (stale now window rec) eqn:Hs.
    + split; [apply counted_restart with rec; [done|by apply stale_iff]|done].
    + split; [|done]. cbn [negb andb] in Hnl. apply Z.leb_gt in Hnl. apply counted_bump; [done..|]. destruct (Z.lt_ge_cases now (at_windowStart rec + window)); [done|].
      assert (stale now window rec = true) by (by apply stale_iff). congruence.
  - rewrite Hr. split; [by apply counted_restart with rec|done].
Qed.

Lemma succeed_other l keys : k ∉ keys -> lim_attempts (succeed keys l) !! k = lim_attempts l !! k.
Proof.
  unfold succeed. cbn [lim_attempts set_attempts]. generalize (lim_attempts l). induction keys as [|x keys IH]; intros m Hk; cbn [foldl]; [done|].
  apply not_elem_of_cons in Hk as [Hx Hk]. rewrite IH by done. by rewrite lookup_delete_ne.
Qed.

Lemma tracked_run events l t ts : tracked l t ts -> unforgiven k t events -> exists l' t', tracked l' t' (ts ++ admitted k events l).
Proof.
  revert l t ts. induction events as [|e events IH]; intros l t ts Ht Hu; cbn [admitted]; [exists l, t; by rewrite app_nil_r|]. destruct e as [now keys|keys]; cbn [unforgiven] in Hu.
  - destruct Hu as (Hnow & Hnd & Hu). rewrite app_assoc. eapply IH; [by eapply tracked_attempt|done].
  - destruct Hu as [Hk Hu]. cbn [app]. eapply IH; [|done]. destruct Ht as (Hm & Hw & Hsp & Ht). split_and!; [done..|]. cbn [step_limiter]. by rewrite succeed_other.
Qed.
End Bound.

(** C23. Guesses are bounded.  Whatever attempts on whatever keys arrive in whatever
    order, the attempts for one key that pass the gate between two successes are at
    most [max] for every window they span, plus [max]: in any stretch of [m] windows
    at most [(m + 1) * max] of them.  For operator logins that is 20 guesses of a
    password in any quarter of an hour, per user and per address. *)
Theorem guesses_bounded max window k t events T m :
  0 < max -> 0 < window < 2 ^ 63 -> 0 <= m -> unforgiven k t events ->
  within T (T + m * window) (admitted k events (newLimiter max window)) <= (m + 1) * max.
Proof.
  intros Hmax Hw Hm Hu. destruct (tracked_run max window Hmax Hw k events (newLimiter max window) t []) as (l' & t' & _ & _ & Hsp & _); [|done|by apply Hsp].
  split_and!; [done..|intros T0 m0 Hm0; unfold within; rewrite filter_nil; cbn [length]; nia|]. left. done.
Qed.

(** A window of ten guesses, five that the gate turns away, and a second window. *)
Definition ex_guesses : list limiter_event :=
  ((fun i => Attempt (Z.of_nat i) ["user:root"; "ip:192.0.2.7"]%string) <$> seq 0 15) ++ ((fun i => Attempt (loginWindow + Z.of_nat i) ["user:root"; "ip:192.0.2.8"]%string) <$> seq 0 15).

Lemma guesses_bounded_witness :
  length (admitted "user:root" ex_guesses newLoginLimiter) = 20%nat /\ within 0 (0 + 1 * loginWindow) (admitted "user:root" ex_guesses newLoginLimiter) <= 20.
Proof.
  split; [vm_compute; reflexivity|]. apply (guesses_bounded maxLoginFailures loginWindow "user:root" 0 ex_guesses 0 1); [reflexivity|split; reflexivity|discriminate|].
  cbn [unforgiven ex_guesses]. repeat (split; [vm_compute; discriminate|]; split; [apply NoDup_cons; split; [set_solver|apply NoDup_singleton]|]). exact I.
Defined.

(** *** The table *)

Definition run_limiter (events : list limiter_event) (l : loginLimiter) : loginLimiter := foldl (fun l e => step_limiter e l) l events.

Lemma fresh_attempt now k l :
  0 < lim_window l < 2 ^ 63 -> (forall k' rec, lim_attempts l !! k' = Some rec -> at_windowStart rec = now) -> lim_attempts l !! k = None ->
  lim_attempts (step_limiter (Attempt now [k]) l) = <[ k := mkAttempt 1 now ]> (lim_attempts l) /\ lim_window (step_limiter (Attempt now [k]) l) = lim_window l.
Proof.
  intros Hw Hall Hk. cbn [step_limiter]. pose proof (registerAttempt_unfold now [k] l (NoDup_singleton k)) as Hu. cbn zeta in Hu.
  destruct (registerAttempt now [k] l) as [l2 g]. destruct Hu as (Ha & _ & Hw2 & Hl). cbn [fst]. split; [|done].
  assert (forall k', lim_attempts (swept now l) !! k' = lim_attempts l !! k') as Hsw.
  { intros k'. destruct (swept_lookup now l k') as (_ & _ & [?|[_ (rec & Hr & Hs)]]); [done|]. unfold stale in Hs. rewrite time_Sub_stale, (Hall _ _ Hr), Z.sub_diag in Hs by done. apply Z.leb_le in Hs. lia. }
  assert (existsb (locked (swept now l) now) [k] = false) as Hf by (cbn [existsb]; unfold locked; by rewrite Hsw, Hk). rewrite Hf in Ha. cbn [negb] in Ha.
  apply map_eq. intros k'. rewrite Hl, Ha. cbn [andb]. destruct (decide (k' = k)) as [->|Hne].
  - rewrite bool_decide_eq_true_2, lookup_insert_eq by (by left). unfold bumped. by rewrite Hsw, Hk.
  - rewrite bool_decide_eq_false_2, lookup_insert_ne by (done || set_solver). apply Hsw.
Qed.

(** The sweep does not bound the table: as many keys as a client can make up are held
    at once, since only records of a past window are dropped. *)
Theorem spray_grows_table ks now : NoDup ks -> size (lim_attempts (run_limiter ((fun k => Attempt now [k]) <$> ks) newLoginLimiter)) = length ks.
Proof.
  intros Hnd. assert (lim_window (run_limiter ((fun k => Attempt now [k]) <$> ks) newLoginLimiter) = loginWindow /\
    (forall k, lim_attempts (run_limiter ((fun k => Attempt now [k]) <$> ks) newLoginLimiter) !! k = if decide (k ∈ ks) then Some (mkAttempt 1 now) else None) /\
    size (lim_attempts (run_limiter ((fun k => Attempt now [k]) <$> ks) newLoginLimiter)) = length ks) as (_ & _ & ?); [|done].
  induction ks as [|k ks IH] using rev_ind; [split_and!; [done|intros k; by rewrite decide_False by apply not_elem_of_nil|done]|].
  apply NoDup_app in Hnd as (Hnd & Hd & _). destruct (IH Hnd) as (Hw & Hl & Hsz). rewrite fmap_app. unfold run_limiter in *. rewrite foldl_app. cbn [fmap list_fmap foldl].
  set (l := foldl _ _ _) in *. assert (lim_attempts l !! k = None) as Hk by (rewrite Hl, decide_False; [done|]; intros Hin; apply (Hd k Hin); by left).
  destruct (fresh_attempt now k l) as [Ha Hw']; [rewrite Hw; split; reflexivity|intros k' rec; rewrite Hl; case_decide; [by intros [= <-]|done]|done|].
  rewrite Ha, Hw'. split_and!; [done| |by rewrite map_size_insert_None, Hsz, length_app by done; cbn; lia].
  intros k'. destruct (decide (k' = k)) as [->|Hne]; [rewrite lookup_insert_eq, decide_True by set_solver; done|]. rewrite lookup_insert_ne, Hl by done.
  destruct (decide (k' ∈ ks)); [rewrite decide_True by set_solver; done|rewrite decide_False by set_solver; done].
Qed.
