(* ===== verification/Password.v ===== *)
(** * Operator accounts ([internal/controller/password.go], [operator.go])

    Password hashes as PHC strings, the accounts and the sessions of operators.
    [Argon2] stands for golang.org/x/crypto/argon2; salts and random bytes are
    arguments. *)

From stdpp Require Import base strings list.
From Stdlib Require Import ZArith Lia Ascii.
From S2P Require Import Prelude GoLib GoSha GoText GoBase64 StoreTypes StoreMonad StoreCore CoreState Enrollment.

Local Open Scope string_scope.
Local Open Scope Z_scope.
Local Open Scope go_scope.
Local Open Scope store_scope.

(** [argon2.IDKey(password, salt, time, memory, threads, keyLen)] *)
Class Argon2 := { IDKey : list Z -> list Z -> Z -> Z -> Z -> Z -> list Z }.

Definition argon2Version : Z := 19.
Definition argon2Time : Z := 3.
Definition argon2Memory : Z := 64 * 1024.
Definition argon2Threads : Z := 1.
Definition argon2KeyLen : Z := 32.
Definition argon2SaltLen : nat := 16.

(** ** Base64 without padding in the standard alphabet *)

Definition RawStd_EncodeToString (bs : list Z) : string := str_of (map std_char (to_sextets bs)).
Definition RawStd_DecodeString (s : string) : option (list Z) := mapM std_val (skip_breaks (chars s)) ≫= of_sextets.

Lemma RawStd_round_trip bs : Forall is_byte bs -> RawStd_DecodeString (RawStd_EncodeToString bs) = Some bs.
Proof.
  intros Hb. pose proof (to_sextets_range bs Hb) as Hr. unfold RawStd_DecodeString, RawStd_EncodeToString. rewrite chars_str_of.
  pose proof (std_no_breaks (to_sextets bs) [] Hr (Forall_nil_2 _)) as Hs. rewrite !app_nil_r in Hs. rewrite Hs, std_chars_read by done. by apply of_to_sextets.
Qed.

(** ** [fmt.Sscanf] *)

Definition newline : string := String "010" "".
(** White space up to a token; a newline is an error. *)
Fixpoint scan_space (fuel : nat) (s : string) : option string :=
  match strip newline s with
  | Some _ => None
  | None =>
      match fuel with
      | O => Some s
      | S k => match list_find (fun sp => is_Some (strip sp s)) spaces with
               | Some (_, sp) => strip sp s ≫= scan_space k
               | None => Some s
               end
      end
  end.
Fixpoint take_digits (s : string) : string * string :=
  match s with
  | String c r => if is_digit c then let '(d, rest) := take_digits r in (String c d, rest) else ("", s)
  | EmptyString => ("", "")
  end.
Definition scan_digits (s : string) : option (Z * string) :=
  let '(d, rest) := take_digits s in if String.eqb d "" then None else Some (digits_val 10 0 d, rest).
Definition scan_uint (bits : Z) (s : string) : option (Z * string) :=
  '(v, rest) ← scan_space (String.length s) s ≫= scan_digits; if v <? 2 ^ bits then Some (v, rest) else None.
Definition scan_int (s : string) : option (Z * string) :=
  s ← scan_space (String.length s) s;
  let '(sign, digits) := match strip "-" s with Some r => (-1, r) | None => (1, default s (strip "+" s)) end in
  '(v, rest) ← scan_digits digits; if in_int64 (sign * v) then Some (sign * v, rest) else None.

(** ** PHC strings *)

Definition encodePHC (salt hash : list Z) (memory time threads : Z) : string :=
  "$argon2id$v=" +:+ strconv_Itoa argon2Version +:+ "$m=" +:+ strconv_Itoa memory +:+ ",t=" +:+ strconv_Itoa time +:+ ",p=" +:+ strconv_Itoa threads
  +:+ "$" +:+ RawStd_EncodeToString salt +:+ "$" +:+ RawStd_EncodeToString hash.

Record phc := mkPHC { phc_memory : Z; phc_time : Z; phc_threads : Z; phc_salt : list Z; phc_hash : list Z }.

Definition parsePHC (text : string) : option phc :=
  match split_on "$" text with
  | [p0; p1; p2; p3; p4; p5] =>
      if negb (String.eqb p0 "") || negb (String.eqb p1 "argon2id") then None
      else
        '(version, _) ← strip "v=" p2 ≫= scan_int;
        if negb (version =? argon2Version) then None
        else
          '(memory, r) ← strip "m=" p3 ≫= scan_uint 32;
          '(time, r) ← strip ",t=" r ≫= scan_uint 32;
          '(threads, _) ← strip ",p=" r ≫= scan_uint 8;
          salt ← RawStd_DecodeString p4;
          hash ← RawStd_DecodeString p5;
          if Nat.eqb (length salt) 0 || Nat.eqb (length hash) 0 then None else Some (mkPHC memory time threads salt hash)
  | _ => None
  end.

Section Password.
Context `{Argon2}.

Definition HashPassword (salt : list Z) (password : string) : string :=
  encodePHC salt (IDKey (bytes_of password) salt argon2Time argon2Memory argon2Threads argon2KeyLen) argon2Memory argon2Time argon2Threads.

Definition ErrMalformedPasswordHash : store_error := PlainError "controller: malformed argon2id password hash".

Definition VerifyPassword (text password : string) : result store_error bool :=
  match parsePHC text with
  | None => Err ErrMalformedPasswordHash
  | Some p =>
      let got := IDKey (bytes_of password) (phc_salt p) (phc_time p) (phc_memory p) (phc_threads p) (u32 (Z.of_nat (length (phc_hash p)))) in
      Ok (bool_decide (got = phc_hash p))
  end.

(** ** Accounts *)

Definition DefaultSessionTTL : Z := 12 * 60 * minute.
Definition minPasswordLen : nat := 8.
Definition maxOperatorUsernameLen : nat := 64.

Definition username_rune (r : Z) : bool :=
  (97 <=? r) && (r <=? 122) || (65 <=? r) && (r <=? 90) || (48 <=? r) && (r <=? 57) || (r =? 46) || (r =? 95) || (r =? 45).

Definition ValidateOperatorUsername (username : string) : result store_error unit :=
  if String.eqb username "" then Err (PlainError "controller: operator username must not be empty")
  else if Nat.ltb maxOperatorUsernameLen (String.length username) then Err (PlainError "controller: operator username too long")
  else if String.eqb username "." || String.eqb username ".." then Err (PlainError "controller: operator username is not allowed")
  else if forallb username_rune (runes username) then Ok tt
  else Err (PlainError "controller: operator username has an invalid character").

Definition NewOperator (salt : option (list Z)) (username password : string) (now : Z) : result store_error Operator :=
  let! _ := ValidateOperatorUsername username in
  if Nat.ltb (String.length password) minPasswordLen then Err (PlainError "controller: password must be at least 8 characters")
  else match salt with
       | None => Err (PlainError "controller: csprng for password salt")
       | Some salt => Ok (mkOperator username (HashPassword salt password) now now "" 0 None)
       end.

Definition SeedOperator {S} `{KVBackend S} (ctx : option string) (t : TenantID) (salt : option (list Z)) (username password : string) (now : Z) : Act S unit :=
  match NewOperator salt username password now with Ok op => PutOperator ctx t op | Err e => fail e end.

Definition NewSession (raw : list Z) (operator : string) (ttl now : Z) : string * Session :=
  let plaintext := RawURL_EncodeToString raw in (plaintext, mkSession (HashToken plaintext) operator now (now + ttl)).

(** ** A hashed password verifies *)

Lemma std_text_has_no_dollar vs : Forall (fun v => 0 <= v < 64) vs -> has_byte "$" (str_of (map std_char vs)) = false.
Proof.
  induction 1 as [|v vs Hv _ IH]; [done|]. cbn [map str_of has_byte]. rewrite decide_False; [done|]. intros E.
  assert (negb (Ascii.eqb (std_char v) "$") = true) as Hn by (apply (below_64 (fun v => negb (Ascii.eqb (std_char v) "$"))); [vm_compute; reflexivity|done]).
  by rewrite E in Hn.
Qed.

Lemma parse_encode salt hash :
  Forall is_byte salt -> Forall is_byte hash -> salt <> [] -> hash <> [] ->
  parsePHC (encodePHC salt hash argon2Memory argon2Time argon2Threads) = Some (mkPHC argon2Memory argon2Time argon2Threads salt hash).
Proof.
  intros Hs Hh Hs0 Hh0. unfold encodePHC, parsePHC. set (ts := RawStd_EncodeToString salt). set (th := RawStd_EncodeToString hash).
  assert (split_on "$" ("$argon2id$v=" +:+ strconv_Itoa argon2Version +:+ "$m=" +:+ strconv_Itoa argon2Memory +:+ ",t=" +:+ strconv_Itoa argon2Time +:+ ",p=" +:+ strconv_Itoa argon2Threads
    +:+ "$" +:+ ts +:+ "$" +:+ th) = [""; "argon2id"; "v=19"; "m=65536,t=3,p=1"; ts; th]) as ->.
  { change (split_on "$" ("" +:+ String "$" ("argon2id" +:+ String "$" ("v=19" +:+ String "$" ("m=65536,t=3,p=1" +:+ String "$" (ts +:+ String "$" th))))) = [""; "argon2id"; "v=19"; "m=65536,t=3,p=1"; ts; th]).
    rewrite (split_on_app "$" ""), (split_on_app "$" "argon2id"), (split_on_app "$" "v=19"), (split_on_app "$" "m=65536,t=3,p=1"), (split_on_app "$" ts) by (done || by apply std_text_has_no_dollar, to_sextets_range).
    by rewrite split_on_whole by (by apply std_text_has_no_dollar, to_sextets_range). }
  unfold ts, th. cbn -[RawStd_DecodeString RawStd_EncodeToString argon2Memory]. rewrite !RawStd_round_trip by done. cbn -[argon2Memory].
  destruct salt; [done|]. by destruct hash.
Qed.

(** The key has the length that was asked for. *)
Class Argon2Laws : Prop := { IDKey_key : forall pw salt t m p n, 0 < n -> Forall is_byte (IDKey pw salt t m p n) /\ length (IDKey pw salt t m p n) = Z.to_nat n }.
Context `{!Argon2Laws}.

Lemma hashed_password_verifies salt password : Forall is_byte salt -> salt <> [] -> VerifyPassword (HashPassword salt password) password = Ok true.
Proof.
  intros Hs Hs0. unfold VerifyPassword, HashPassword. set (key := IDKey _ _ _ _ _ _).
  destruct (IDKey_key (bytes_of password) salt argon2Time argon2Memory argon2Threads argon2KeyLen) as [Hb Hl]; [done|]. fold key in Hb, Hl.
  rewrite parse_encode by (done || intros E; by rewrite E in Hl). cbn [phc_hash phc_salt phc_time phc_memory phc_threads].
  replace (u32 (Z.of_nat (length key))) with argon2KeyLen by (by rewrite Hl). fold key. by rewrite bool_decide_eq_true_2.
Qed.
End Password.

(** A hash with no rounds and no lanes is well formed; the comment on [VerifyPassword]
    says that it never panics, and the library panics on those parameters. *)
Example zero_cost_parses : parsePHC "$argon2id$v=19$m=0,t=0,p=0$AA$AA" = Some (mkPHC 0 0 0 [0] [0]).
Proof. vm_compute. reflexivity. Qed.
