(* ===== verification/Login.v ===== *)
(** * Operator login ([internal/api]: [handler_login.go], [handler_passkey.go],
      [handler_totp.go], [handler_webauthn_enrollment.go], [cookie_session.go],
      [auth_controller.go], [adapter.go])

    The handlers over the store and the login limiter.  A decoded request body is an
    argument, [None] when it does not decode; so are the clock and the random bytes.  A
    handler ends with a response; the limiter it leaves is returned beside it. *)

From stdpp Require Import base gmap strings list.
From Stdlib Require Import ZArith Lia Ascii.
From S2P Require Import Prelude GoLib GoNet GoSha GoText GoBase64 TrustList StoreTypes StoreMonad StoreCore CoreState Enrollment Totp RateLimit Password.

Local Open Scope string_scope.
Local Open Scope Z_scope.
Local Open Scope go_scope.
Local Open Scope store_scope.

Record ControllerHandler := mkHandler {
  h_tenant : TenantID; h_operatorTokenHash : string; h_operatorName : string; h_sessionTTL : Z; h_panelOriginAllowlist : list string; h_secureCookie : bool;
  h_trustedProxies : list IPNet; h_version : string }.

(** ** Responses *)

Record cookie := mkCookie { ck_Name : string; ck_Value : string; ck_HttpOnly : bool; ck_Secure : bool; ck_SameSiteNone : bool; ck_MaxAge : Z }.

Record passkeyChallenge := mkPasskeyChallenge { pc_Challenge : string; pc_AllowCredentials : list string; pc_RPID : string; pc_Alg : string }.

Inductive response :=
| RespError (code : string) (params : list (string * string))
| RespRateLimited (code : string) (retryAfter : Z)
| RespTOTPRequired
| RespPasskeyRequired (c : passkeyChallenge)
| RespChallenge (c : passkeyChallenge)
| RespLogin (token operator : string) (expiresAt : Z) (csrf version : string) (cookies : list cookie)
| RespNoContent (cookies : list cookie)
| RespSession (operator : string) (expiresAt : option Z) (csrf version : string)
| RespTOTPStatus (enabled : bool)
| RespTOTPSecret (secret uri : string)
| RespPasskeyStatus (cred : option LoginCredential)
| RespEnrollmentChallenge (challenge : string).

(** [writeCodedOr] and [codedErr]: an error with a code of its own keeps it. *)
Fixpoint own_code (e : store_error) : option (string * list (string * string)) :=
  match e with
  | CodedError code params => Some (code, params)
  | WrappedError _ i => own_code i
  | JoinedError a b => match own_code a with Some c => Some c | None => own_code b end
  | _ => None
  end.
Definition codedErr (fallback : string) (e : store_error) : response :=
  match own_code e with Some (code, params) => RespError code params | None => RespError fallback [] end.
Fixpoint is_error (target : store_error -> bool) (e : store_error) : bool :=
  target e || match e with WrappedError _ i => is_error target i | JoinedError a b => is_error target a || is_error target b | _ => false end.
Definition is_challenge_invalid : store_error -> bool := is_error (fun e => match e with ErrChallengeInvalid => true | _ => false end).
Definition is_login_credential_changed : store_error -> bool := is_error (fun e => match e with ErrLoginCredentialChanged => true | _ => false end).
Definition is_totp_state_changed : store_error -> bool := is_error (fun e => match e with ErrTOTPStateChanged => true | _ => false end).

(** ** Cookies and credentials of a request *)

Definition sessionCookieName : string := "yaog_session".
Definition csrfCookieName : string := "yaog_csrf".

Definition cookieSameSiteNone (h : ControllerHandler) : bool := Nat.ltb 0 (length (h_panelOriginAllowlist h)) && h_secureCookie h.

(** [int(d.Seconds())] of a duration. *)
Definition whole_seconds (d : Z) : Z := Z.quot d second.

Definition setSessionCookies (h : ControllerHandler) (sessionPlaintext csrf : string) : list cookie :=
  let maxAge := whole_seconds (h_sessionTTL h) in
  [mkCookie sessionCookieName sessionPlaintext true (h_secureCookie h) (cookieSameSiteNone h) maxAge;
   mkCookie csrfCookieName csrf false (h_secureCookie h) (cookieSameSiteNone h) maxAge].
Definition clearSessionCookies (h : ControllerHandler) : list cookie :=
  [mkCookie sessionCookieName "" true (h_secureCookie h) (cookieSameSiteNone h) (-1); mkCookie csrfCookieName "" false (h_secureCookie h) (cookieSameSiteNone h) (-1)].

Definition nonempty (o : option string) : option string := match o with Some v => if String.eqb v "" then None else Some v | None => None end.
Definition sessionCookieToken (r : http_request) : option string := nonempty (Rq_SessionCookie r).

Definition csrfValid (r : http_request) : bool :=
  match nonempty (Rq_CSRFCookie r) with
  | None => false
  | Some v => negb (String.eqb (Rq_CSRFHeader r) "") && String.eqb (Rq_CSRFHeader r) v
  end.

Definition isStateChanging (method : string) : bool := negb (String.eqb method "GET" || String.eqb method "HEAD" || String.eqb method "OPTIONS").

Definition bearer_prefix : string := "Bearer ".
Fixpoint str_drop (n : nat) (s : string) : string := match n, s with S k, String _ r => str_drop k r | _, _ => s end.
Definition bearerToken (r : http_request) : option string :=
  let h := Rq_Authorization r in
  let n := String.length bearer_prefix in
  if String.eqb h "" then None
  else if Nat.leb (String.length h) n || negb (EqualFold (str_take n h) bearer_prefix) then None
  else nonempty (Some (TrimSpace (str_drop n h))).

Definition bearerOrCookieToken (r : http_request) : option string := match bearerToken r with Some tok => Some tok | None => sessionCookieToken r end.

Definition newCSRFToken (raw : list Z) : string := RawURL_EncodeToString raw.

Inductive operatorAuthKind := operatorAuthUnknown | operatorAuthSession | operatorAuthBreakGlass.
#[export] Instance operatorAuthKind_eq_dec : EqDecision operatorAuthKind.
Proof. solve_decision. Defined.

(** ** Passkey credentials *)

Definition loginChallengeTTL : Z := 5 * minute.
Definition webAuthnEnrollmentChallengeTTL : Z := 10 * minute.
Definition webAuthnEnrollmentLogin : string := "login".
Definition webAuthnEnrollmentKeystone : string := "keystone".
Definition AssertionChallengeBytes : nat := 32.

Definition webAuthnEnrollmentSubject (actor purpose : string) : string := "webauthn-enrollment:" +:+ purpose +:+ ":" +:+ actor.

Definition allowCredentialsFor (lc : option LoginCredential) : list string := match lc with None => [] | Some lc => [LC_CredentialID lc] end.

Definition TOTPEnabled (op : Operator) : bool := negb (String.eqb (OP_TOTPSecret op) "").
Definition PasskeyEnabled (op : Operator) : bool := bool_decide (is_Some (OP_LoginCredential op)).

Definition challenge_for (op : Operator) (challenge : string) : passkeyChallenge :=
  mkPasskeyChallenge challenge (allowCredentialsFor (OP_LoginCredential op))
    (match OP_LoginCredential op with Some lc => LC_RPID lc | None => "" end) (match OP_LoginCredential op with Some lc => LC_Alg lc | None => "" end).

(** *** Request bodies *)

Record loginRequest := mkLoginRequest { LR_Username : string; LR_Password : string; LR_TOTP : string; LR_Passkey : option SignedTrustList }.
Record passkeyRegisterRequest := mkRegisterRequest {
  PR_Alg : string; PR_CredentialID : string; PR_PublicKeyPEM : string; PR_RPID : string; PR_Origin : string; PR_EnrollmentProof : option SignedTrustList }.
Record totpConfirmRequest := mkConfirmRequest { CR_Secret : string; CR_Code : string }.

(** Random bytes: of the CSRF token ([None] when the source fails), of a session, of a
    challenge and of a TOTP secret. *)
Record entropy := mkEntropy { en_csrf : option (list Z); en_session : list Z; en_challenge : list Z; en_totp : list Z }.

Section Handlers.
Context {B : Type} `{KVBackend B} `{AuditBackend B} `{Crypto} `{Argon2}.
#[local] Abbreviation Core := (storeCore B).
Context (h : ControllerHandler) (ctx : option string).
#[local] Abbreviation t := (h_tenant h).

Definition operator_event (now : Z) (username action : string) : AuditEntry := mkAuditEntry 0 now ("operator:" +:+ username) action "" "" "" "".
Definition operator_audit (now : Z) (username action : string) : Act Core unit := ignore (AppendAudit ctx t (operator_event now username action)).

Definition auditLockout (now : Z) (username : string) (justLocked : bool) : Act Core unit :=
  if justLocked then operator_audit now username "login-lockout" else ret tt.

Definition pinFromParts (alg credentialID publicKeyPEM rpid origin : string) : result store_error PinnedCredential :=
  let pin pub es := mkPin alg credentialID pub es rpid origin in
  if String.eqb alg AlgEd25519 || String.eqb alg AlgWebAuthnEdDSA then
    match ParseEd25519PinPEM publicKeyPEM with Ok pub => Ok (pin pub None) | Err _ => Err (PlainError "trustlist: ed25519 credential") end
  else if String.eqb alg AlgWebAuthnES256 then
    match ParseES256Pin publicKeyPEM with Ok pub => Ok (pin [] (Some pub)) | Err _ => Err (PlainError "trustlist: es256 credential") end
  else Err (PlainError "unsupported operator credential algorithm").
Definition pinFromLoginCredential (lc : LoginCredential) : result store_error PinnedCredential :=
  pinFromParts (LC_Alg lc) (LC_CredentialID lc) (LC_PublicKeyPEM lc) (LC_RPID lc) (LC_Origin lc).

Definition of_tl {A} (msg : string) (r : result tl_error A) : result store_error A := match r with Ok a => Ok a | Err _ => Err (PlainError msg) end.
Definition lift_result {A} (r : result store_error A) : Act Core A := match r with Ok a => ret a | Err e => fail e end.

Definition issueLoginChallenge (operator : string) (en : entropy) (now : Z) : Act Core string :=
  let '(challenge, record) := NewAssertionChallenge (en_challenge en) operator loginChallengeTTL now in
  CreateAssertionChallenge ctx t record now ;;! ret challenge.

Definition writePasskeyChallenge (op : Operator) (en : entropy) (now : Z) : Act Core response :=
  do! r <- attempt (issueLoginChallenge (OP_Username op) en now) in
  ret (match r with Ok challenge => RespPasskeyRequired (challenge_for op challenge) | Err e => codedErr "CodeInternalStorage" e end).

Definition verifyLoginAssertion (op : Operator) (art : SignedTrustList) (now : Z) : Act Core unit :=
  match OP_LoginCredential op with
  | None => fail (PlainError "no login passkey registered")
  | Some lc =>
      do! challengeStr <- lift_result (of_tl "assertion challenge" (TrustList.AssertionChallenge art)) in
      do! challengeBytes <- lift_result (match RawURL_DecodeString challengeStr with Some b => Ok b | None => Err (PlainError "decode assertion challenge") end) in
      ConsumeAssertionChallenge ctx t (HashToken challengeStr) (OP_Username op) now ;;!
      do! pin <- lift_result (pinFromLoginCredential lc) in
      lift_result (of_tl "assertion" (VerifyAssertion art pin challengeBytes))
  end.

(** ** Login *)

Definition mintSessionResponse (op : Operator) (en : entropy) (now : Z) (userKey ipKey : string) (lim : loginLimiter) : Act Core (loginLimiter * response) :=
  match en_csrf en with
  | None => ret (lim, RespError "CodeInternalStorage" [])
  | Some raw =>
      let csrf := newCSRFToken raw in
      let '(plaintext, sess) := NewSession (en_session en) (OP_Username op) (h_sessionTTL h) now in
      do! r <- attempt (CreateSession ctx t sess) in
      match r with
      | Err e => ret (lim, codedErr "CodeInternalStorage" e)
      | Ok _ =>
          operator_audit now (OP_Username op) "login-success" ;;!
          ret (succeed [userKey; ipKey] lim,
               RespLogin plaintext (OP_Username op) (SE_ExpiresAt sess) csrf (h_version h) (setSessionCookies h plaintext csrf))
      end
  end.

Definition retry_seconds (retry : Z) : Z := whole_seconds retry + 1.

(** The step of the presented code, when it is accepted and burned. *)
Definition burn_code (op : Operator) (code : string) (now : Z) : Act Core bool :=
  let c := TrimSpace code in
  let '(ok, step) := if String.eqb c "" then (false, 0) else VerifyTOTP (OP_TOTPSecret op) c now (OP_TOTPLastUsedStep op) in
  if (ok : bool) then AdvanceTOTPStep ctx t (OP_Username op) step else ret false.

(** The second factor: [None] to go on to the session, or the answer that asks for it. *)
Definition second_factor (op : Operator) (req : loginRequest) (en : entropy) (now : Z) (justLocked : bool) : Act Core (option response) :=
  let challenge := auditLockout now (LR_Username req) justLocked ;;! do! r <- writePasskeyChallenge op en now in ret (Some r) in
  if PasskeyEnabled op then
    match LR_Passkey req with
    | None => challenge
    | Some art => do! r <- attempt (verifyLoginAssertion op art now) in match r with Ok _ => ret None | Err _ => challenge end
    end
  else if TOTPEnabled op then
    do! r <- attempt (burn_code op (LR_TOTP req) now) in
    match r with
    | Err e => ret (Some (codedErr "CodeInternalStorage" e))
    | Ok true => ret None
    | Ok false => auditLockout now (LR_Username req) justLocked ;;! ret (Some RespTOTPRequired)
    end
  else ret None.

Definition HandleLogin (r : http_request) (body : option loginRequest) (en : entropy) (now : Z) (lim : loginLimiter) : Act Core (loginLimiter * response) :=
  if negb (String.eqb (Rq_Method r) "POST") then ret (lim, RespError "CodeMethodNotAllowed" [("method", "POST")])
  else
    match body with
    | None => ret (lim, RespError "CodeReqInvalidBody" [])
    | Some req =>
        let userKey := "user:" +:+ LR_Username req in
        let ipKey := "ip:" +:+ clientIP (h_trustedProxies h) r in
        let '(lim, g) := registerAttempt now [userKey; ipKey] lim in
        if negb (gt_allowed g) then ret (lim, RespRateLimited "CodeAuthRateLimited" (retry_seconds (gt_retryAfter g)))
        else
          let refuse := auditLockout now (LR_Username req) (gt_justLocked g) ;;! ret (lim, RespError "CodeAuthCredentialsInvalid" []) in
          do! o <- attempt (GetOperator ctx t (LR_Username req)) in
          match o with
          | Err _ => refuse
          | Ok op =>
              match VerifyPassword (OP_PasswordHash op) (LR_Password req) with
              | Ok true =>
                  do! f <- second_factor op req en now (gt_justLocked g) in
                  match f with
                  | Some resp => ret (lim, resp)
                  | None => mintSessionResponse op en now userKey ipKey lim
                  end
              | _ => refuse
              end
          end
    end.

Definition HandlePasskeyLoginBegin (r : http_request) (body : option string) (en : entropy) (now : Z) (lim : loginLimiter) : Act Core (loginLimiter * response) :=
  if negb (String.eqb (Rq_Method r) "POST") then ret (lim, RespError "CodeMethodNotAllowed" [("method", "POST")])
  else
    match body with
    | None => ret (lim, RespError "CodeReqInvalidBody" [])
    | Some username =>
        if String.eqb (TrimSpace username) "" then ret (lim, RespError "CodeReqFieldRequired" [("field", "username")])
        else
          let '(lim, g) := registerAttempt now ["user:" +:+ username; "ip:" +:+ clientIP (h_trustedProxies h) r] lim in
          if negb (gt_allowed g) then ret (lim, RespRateLimited "CodeAuthRateLimited" (retry_seconds (gt_retryAfter g)))
          else
            do! o <- attempt (GetOperator ctx t username) in
            match o with
            | Ok op =>
                if PasskeyEnabled op then
                  do! c <- attempt (issueLoginChallenge (OP_Username op) en now) in
                  ret (lim, match c with Ok challenge => RespChallenge (challenge_for op challenge) | Err e => codedErr "CodeInternalStorage" e end)
                else ret (lim, RespChallenge (mkPasskeyChallenge (NewAssertionChallenge (en_challenge en) username loginChallengeTTL now).1 [] "" ""))
            | Err _ => ret (lim, RespChallenge (mkPasskeyChallenge (NewAssertionChallenge (en_challenge en) username loginChallengeTTL now).1 [] "" ""))
            end
    end.

Definition HandlePasskeyLoginFinish (r : http_request) (body : option (string * option SignedTrustList)) (en : entropy) (now : Z) (lim : loginLimiter) : Act Core (loginLimiter * response) :=
  if negb (String.eqb (Rq_Method r) "POST") then ret (lim, RespError "CodeMethodNotAllowed" [("method", "POST")])
  else
    match body with
    | None => ret (lim, RespError "CodeReqInvalidBody" [])
    | Some (username, passkey) =>
        let userKey := "user:" +:+ username in
        let ipKey := "ip:" +:+ clientIP (h_trustedProxies h) r in
        let '(lim, g) := registerAttempt now [userKey; ipKey] lim in
        if negb (gt_allowed g) then ret (lim, RespRateLimited "CodeAuthRateLimited" (retry_seconds (gt_retryAfter g)))
        else
          let refuse := auditLockout now username (gt_justLocked g) ;;! ret (lim, RespError "CodeAuthPasskeyFailed" []) in
          do! o <- attempt (GetOperator ctx t username) in
          match o, passkey with
          | Ok op, Some art =>
              if PasskeyEnabled op then
                do! v <- attempt (verifyLoginAssertion op art now) in
                match v with Ok _ => mintSessionResponse op en now userKey ipKey lim | Err _ => refuse end
              else refuse
          | _, _ => refuse
          end
    end.

(** ** Authenticated requests *)

(** The session lookup deletes an expired session; its errors are not accepted. *)
Definition resolveOperator (tok : string) (now : Z) : Act Core (option (string * operatorAuthKind)) :=
  let hash := HashToken tok in
  do! r <- attempt (LookupSession ctx t hash now) in
  match r with
  | Ok sess => ret (Some (SE_Operator sess, operatorAuthSession))
  | Err _ => ret (if negb (String.eqb (h_operatorTokenHash h) "") && String.eqb hash (h_operatorTokenHash h) then Some (h_operatorName h, operatorAuthBreakGlass) else None)
  end.

(** A wrapped handler gets the operator and how it authenticated. *)
Definition operatorAuth (r : http_request) (now : Z) (next : string -> operatorAuthKind -> Act Core response) : Act Core response :=
  let cred :=
    match bearerToken r with
    | Some tok => Ok (Some tok)
    | None => match sessionCookieToken r with
              | Some tok => if isStateChanging (Rq_Method r) && negb (csrfValid r) then Err "CodeReqCSRFInvalid" else Ok (Some tok)
              | None => Ok None
              end
    end in
  match cred with
  | Err code => ret (RespError code [])
  | Ok None => ret (RespError "CodeReqBearerRequired" [])
  | Ok (Some tok) =>
      do! who <- resolveOperator tok now in
      match who with
      | None => ret (RespError "CodeReqOperatorRequired" [])
      | Some (operator, kind) => next operator kind
      end
  end.

(** The adapter's method guard; the identity is the one [operatorAuth] hands on. *)
Definition op_adapter (methods : list string) (r : http_request) (fn : Act Core response) : Act Core response :=
  if existsb (String.eqb (Rq_Method r)) methods then
    do! x <- attempt fn in ret (match x with Ok resp => resp | Err e => codedErr "CodeInternal" e end)
  else ret (RespError "CodeMethodNotAllowed" [("method", String.concat ", " methods)]).

Definition HandleLogout (r : http_request) : Act Core response :=
  if negb (String.eqb (Rq_Method r) "POST") then ret (RespError "CodeMethodNotAllowed" [("method", "POST")])
  else
    let cleared := RespNoContent (clearSessionCookies h) in
    match bearerOrCookieToken r with
    | None => ret cleared
    | Some tok =>
        do! d <- attempt (DeleteSession ctx t (HashToken tok)) in
        ret (match d with Ok _ => cleared | Err e => codedErr "CodeInternalStorage" e end)
    end.

Definition HandleSession (actor : string) (r : http_request) (now : Z) : Act Core response :=
  do! expires <- (match bearerOrCookieToken r with
                  | None => ret None
                  | Some tok => do! s <- attempt (LookupSession ctx t (HashToken tok) now) in ret (match s with Ok sess => Some (SE_ExpiresAt sess) | Err _ => None end)
                  end) in
  ret (RespSession actor expires (default "" (Rq_CSRFCookie r)) (h_version h)).

(** The coded errors of the account handlers are the action's errors. *)
Definition api_error {A} (code : string) (params : list (string * string)) : Act Core A := fail (CodedError code params).
Definition api_coded {A} (fallback : string) (m : Act Core A) : Act Core A :=
  do! r <- attempt m in
  match r with
  | Ok a => ret a
  | Err e => match own_code e with Some (code, params) => api_error code params | None => api_error fallback [] end
  end.

Definition currentOperatorAccount (kind : operatorAuthKind) (name : string) : Act Core Operator :=
  if negb (bool_decide (kind = operatorAuthSession)) then api_error "CodeTotpRequiresLogin" []
  else do! r <- attempt (GetOperator ctx t name) in match r with Ok op => ret op | Err _ => api_error "CodeTotpRequiresLogin" [] end.

(** ** Second factors of the own account *)

Definition HandleTOTPStatus (kind : operatorAuthKind) (actor : string) : Act Core response :=
  do! op <- currentOperatorAccount kind actor in ret (RespTOTPStatus (TOTPEnabled op)).

(** [url.PathEscape], and [url.QueryEscape] with a plus for a space. *)
Definition url_unreserved (c : ascii) : bool :=
  is_digit c || is_lower c || is_upper c || existsb (Ascii.eqb c) ["-"; "_"; "."; "~"]%char.
Definition upper_hex (v : Z) : ascii := byte_of (if v <? 10 then v + 48 else v + 55).
Fixpoint url_escape (query : bool) (s : string) : string :=
  match s with
  | EmptyString => ""
  | String c r =>
      if url_unreserved c || (negb query && existsb (Ascii.eqb c) ["$"; "&"; "+"; "="; ":"; "@"]%char) then String c (url_escape query r)
      else if query && Ascii.eqb c " " then String "+" (url_escape query r)
      else String "%" (String (upper_hex (byte_val c / 16)) (String (upper_hex (byte_val c mod 16)) (url_escape query r)))
  end.

Definition TOTPProvisioningURI (secret account issuer : string) : string :=
  "otpauth://totp/" +:+ url_escape false issuer +:+ ":" +:+ url_escape false account +:+ "?algorithm=SHA1&digits=" +:+ strconv_Itoa (Z.of_nat totpDigits)
  +:+ "&issuer=" +:+ url_escape true issuer +:+ "&period=" +:+ strconv_Itoa totpPeriod +:+ "&secret=" +:+ url_escape true secret.

Definition HandleTOTPEnroll (kind : operatorAuthKind) (actor : string) (en : entropy) : Act Core response :=
  do! op <- currentOperatorAccount kind actor in
  let secret := GenerateTOTPSecret (en_totp en) in
  ret (RespTOTPSecret secret (TOTPProvisioningURI secret (OP_Username op) ("YAOG (" +:+ t +:+ ")"))).

Definition set_totp_state (op : Operator) (next : TOTPState) (now : Z) : Act Core unit :=
  do! r <- attempt (CompareAndSetTOTPState ctx t (OP_Username op) (mkTOTPState (OP_TOTPSecret op) (OP_TOTPLastUsedStep op)) next now) in
  match r with
  | Ok _ => ret tt
  | Err e => if is_totp_state_changed e then api_error "CodeTOTPStateChanged" [] else api_coded "CodeInternalStorage" (fail e)
  end.

Definition HandleTOTPConfirm (kind : operatorAuthKind) (actor : string) (body : option totpConfirmRequest) (now : Z) : Act Core response :=
  do! op <- currentOperatorAccount kind actor in
  match body with
  | None => api_error "CodeReqInvalidBody" []
  | Some req =>
      if String.eqb (TrimSpace (CR_Secret req)) "" then api_error "CodeReqFieldRequired" [("field", "secret")]
      else
        let '(ok, step) := VerifyTOTP (CR_Secret req) (CR_Code req) now 0 in
        if negb ok then api_error "CodeTotpInvalidCode" []
        else
          set_totp_state op (mkTOTPState (CR_Secret req) step) now ;;!
          operator_audit now (OP_Username op) "totp-enabled" ;;!
          ret (RespTOTPStatus true)
  end.

Definition HandleTOTPDisable (kind : operatorAuthKind) (actor : string) (body : option string) (now : Z) : Act Core response :=
  do! op <- currentOperatorAccount kind actor in
  if negb (TOTPEnabled op) then ret (RespTOTPStatus false)
  else
    match body with
    | None => api_error "CodeReqInvalidBody" []
    | Some code =>
        if negb (VerifyTOTP (OP_TOTPSecret op) code now (OP_TOTPLastUsedStep op)).1 then api_error "CodeTotpInvalidCode" []
        else
          set_totp_state op (mkTOTPState "" 0) now ;;!
          operator_audit now (OP_Username op) "totp-disabled" ;;!
          ret (RespTOTPStatus false)
    end.

Definition HandlePasskeyStatus (kind : operatorAuthKind) (actor : string) : Act Core response :=
  do! op <- currentOperatorAccount kind actor in ret (RespPasskeyStatus (OP_LoginCredential op)).

Definition HandleWebAuthnEnrollmentBegin (kind : operatorAuthKind) (actor : string) (body : option string) (en : entropy) (now : Z) : Act Core response :=
  match body with
  | None => api_error "CodeReqInvalidBody" []
  | Some purpose =>
      if negb (String.eqb purpose webAuthnEnrollmentLogin) && negb (String.eqb purpose webAuthnEnrollmentKeystone) then api_error "CodeReqFieldInvalid" [("field", "purpose")]
      else
        (if String.eqb purpose webAuthnEnrollmentLogin then do! _op <- currentOperatorAccount kind actor in ret tt else ret tt) ;;!
        let '(challenge, record) := NewAssertionChallenge (en_challenge en) (webAuthnEnrollmentSubject actor purpose) webAuthnEnrollmentChallengeTTL now in
        api_coded "CodeInternalStorage" (ReplaceAssertionChallengeForSubject ctx t record now) ;;!
        ret (RespEnrollmentChallenge challenge)
  end.

Definition verifyWebAuthnEnrollmentProof (actor purpose : string) (proof : option SignedTrustList) (pin : PinnedCredential) (now : Z) : Act Core unit :=
  let failed := api_error "CodeWebAuthnEnrollmentVerifyFailed" [] in
  match proof with
  | None => api_error "CodeReqFieldRequired" [("field", "enrollment_proof")]
  | Some proof =>
      match TrustList.AssertionChallenge proof with
      | Err _ => failed
      | Ok challengeText =>
          match RawURL_DecodeString challengeText with
          | None => failed
          | Some challenge =>
              if negb (Nat.eqb (length challenge) AssertionChallengeBytes) then failed
              else match VerifyUserVerifiedAssertion proof pin challenge with
                   | Err _ => failed
                   | Ok _ =>
                       do! r <- attempt (ConsumeAssertionChallenge ctx t (HashToken challengeText) (webAuthnEnrollmentSubject actor purpose) now) in
                       match r with
                       | Ok _ => ret tt
                       | Err e => if is_challenge_invalid e then failed else api_coded "CodeInternalStorage" (fail e)
                       end
                   end
          end
      end
  end.

Definition set_login_credential (op : Operator) (next : option LoginCredential) (now : Z) : Act Core unit :=
  do! r <- attempt (CompareAndSetLoginCredential ctx t (OP_Username op) (OP_LoginCredential op) next now) in
  match r with
  | Ok _ => ret tt
  | Err e => if is_login_credential_changed e then api_error "CodeLoginCredentialChanged" [] else api_coded "CodeInternalStorage" (fail e)
  end.

Definition HandlePasskeyRegister (kind : operatorAuthKind) (actor : string) (body : option passkeyRegisterRequest) (now : Z) : Act Core response :=
  do! op <- currentOperatorAccount kind actor in
  match body with
  | None => api_error "CodeReqInvalidBody" []
  | Some req =>
      if negb (String.eqb (PR_Alg req) AlgWebAuthnES256) && negb (String.eqb (PR_Alg req) AlgWebAuthnEdDSA) then api_error "CodeReqUnsupportedAlg" [("alg", PR_Alg req)]
      else if String.eqb (TrimSpace (PR_CredentialID req)) "" then api_error "CodeReqFieldRequired" [("field", "credential_id")]
      else if String.eqb (TrimSpace (PR_RPID req)) "" then api_error "CodeReqFieldRequired" [("field", "rpid")]
      else if String.eqb (TrimSpace (PR_Origin req)) "" then api_error "CodeReqFieldRequired" [("field", "origin")]
      else
        let candidate := mkLoginCredential (PR_Alg req) (PR_CredentialID req) (PR_PublicKeyPEM req) (PR_RPID req) (PR_Origin req) in
        match pinFromLoginCredential candidate with
        | Err _ => api_error "CodeReqFieldInvalid" [("field", "public_key_pem")]
        | Ok pin =>
            verifyWebAuthnEnrollmentProof actor webAuthnEnrollmentLogin (PR_EnrollmentProof req) pin now ;;!
            set_login_credential op (Some candidate) now ;;!
            operator_audit now (OP_Username op) "passkey-registered" ;;!
            ret (RespPasskeyStatus (Some candidate))
        end
  end.

Definition HandlePasskeyDisable (kind : operatorAuthKind) (actor : string) (body : option (option SignedTrustList)) (en : entropy) (now : Z) : Act Core response :=
  do! op <- currentOperatorAccount kind actor in
  if negb (PasskeyEnabled op) then ret (RespPasskeyStatus None)
  else
    match body with
    | None => api_error "CodeReqInvalidBody" []
    | Some None =>
        do! challenge <- api_coded "CodeInternalStorage" (issueLoginChallenge (OP_Username op) en now) in
        ret (RespChallenge (challenge_for op challenge))
    | Some (Some art) =>
        do! v <- attempt (verifyLoginAssertion op art now) in
        match v with
        | Err _ => api_error "CodeAuthPasskeyVerifyFailed" []
        | Ok _ =>
            set_login_credential op None now ;;!
            operator_audit now (OP_Username op) "passkey-disabled" ;;!
            ret (RespPasskeyStatus None)
        end
    end.

(** ** Agents *)

(** The node of a request, behind the limiter of the node. *)
Definition requireNode (r : http_request) (now : Z) (lim : loginLimiter) (next : string -> Act Core response) : Act Core (loginLimiter * response) :=
  match bearerToken r with
  | None => ret (lim, RespError "CodeReqBearerRequired" [])
  | Some tok =>
      do! n <- attempt (LookupNodeByAPIToken ctx t (HashToken tok)) in
      match n with
      | Err _ => ret (lim, RespError "CodeReqBearerRequired" [])
      | Ok node =>
          let '(lim, g) := registerAttempt now ["node:" +:+ RN_NodeID node] lim in
          if negb (gt_allowed g) then ret (lim, RespRateLimited "CodeNodeRateLimited" (retry_seconds (gt_retryAfter g)))
          else do! resp <- next (RN_NodeID node) in ret (lim, resp)
      end
  end.
End Handlers.
