(* ===== verification/LoginProps.v ===== *)
(** * What a login proves

    A session is minted only for an account whose password verifies and whose second
    factor is spent by the login; the session then stands for that account until it
    expires, and nothing but a live session or the break-glass token passes the operator
    gate.  An honest operator is let in.  The account's own session can replace the
    second factor without it. *)

From stdpp Require Import base gmap strings list.
From Stdlib Require Import ZArith Lia Ascii.
From S2P Require Import Prelude GoLib GoNet GoSha GoText GoBase64 TrustList StoreTypes StoreMonad MemKV StoreCore StoreLogic StoreProps AuditLog CoreState CoreProps Enrollment EnrollProps Totp RateLimit Password Login.

Local Open Scope string_scope.
Local Open Scope Z_scope.
Local Open Scope go_scope.
Local Open Scope store_scope.

Section Login.
Context {B : Type} `{KVLaws B} `{!AuditBackend B} `{!AuditLaws B} `{Crypto} `{Argon2}.
#[local] Abbreviation Core := (storeCore B).
Context (h : ControllerHandler) (ctx : option string).
#[local] Abbreviation t := (h_tenant h).
Implicit Types s : Core.

(** Where [m] leaves the store when it returns, from [s0]. *)
Definition returns {A} (m : Act Core A) s0 (Q : A -> Core -> Prop) : Prop := spec m (eq s0) Q (fun _ _ => True) (fun _ => True).

Lemma returns_readonly {A} (m : Act Core A) s0 (Q : A -> Core -> Prop) : readonly m -> (forall a, answer m s0 = Ok a -> Q a s0) -> returns m s0 Q.
Proof. intros Hm HQ. apply spec_readonly; [done|by intros s a <- Ha; apply HQ|done..]. Qed.

Lemma returns_attempt {A} (m : Act Core A) s0 (Q : A -> Core -> Prop) : returns m s0 Q -> returns (attempt m) s0 (fun r s => forall a, r = Ok a -> Q a s).
Proof. intros Hm. apply spec_attempt. eapply spec_weaken; [exact Hm|done| |done|done]. by intros a s Hq ? [= <-]. Qed.

Lemma returns_True {A} (m : Act Core A) (P : Core -> Prop) : spec m P (fun _ _ => True) (fun _ _ => True) (fun _ => True).
Proof. intros fs s n _. by destruct (m fs s n). Qed.

(** ** The factors *)

(** The login used up a live challenge of the account that its passkey signed. *)
Definition asserted (op : Operator) (art : SignedTrustList) (now : Z) s s' : Prop :=
  exists lc text bytes pin rec,
    OP_LoginCredential op = Some lc /\ TrustList.AssertionChallenge art = Ok text /\ RawURL_DecodeString text = Some bytes /\
    kv_get t collLoginChal (HashToken text) s = Some (VChallenge rec) /\ AC_Subject rec = OP_Username op /\ now < AC_ExpiresAt rec /\
    pinFromLoginCredential lc = Ok pin /\ VerifyAssertion art pin bytes = Ok tt /\ kv_get t collLoginChal (HashToken text) s' = None.

(** The login burned the step of the code, later than any burned before. *)
Definition code_burned (op : Operator) (code : string) (now : Z) s s' : Prop :=
  exists step cur,
    kv_get t collOperators (OP_Username op) s = Some (VOperator cur) /\ OP_TOTPLastUsedStep cur < step /\ OP_TOTPLastUsedStep op < step /\
    step_at now - totpSkewSteps <= step <= step_at now + totpSkewSteps /\ totpCodeForStep (OP_TOTPSecret op) (u64 step) = Some (TrimSpace (TrimSpace code)) /\
    kv_get t collOperators (OP_Username op) s' = Some (VOperator (with_step step cur)).

Definition factor_proved (op : Operator) (req : loginRequest) (now : Z) s s' : Prop :=
  if PasskeyEnabled op then exists art, LR_Passkey req = Some art /\ asserted op art now s s'
  else TOTPEnabled op = false \/ code_burned op (LR_TOTP req) now s s'.

(** Records other than sessions, which a fresh session does not touch. *)
Definition same_factors s s' : Prop :=
  forall c k, c <> collSessions -> kv_get t c k s' = kv_get t c k s.
Lemma factor_kept op req now s s1 s2 : same_factors s1 s2 -> factor_proved op req now s s1 -> factor_proved op req now s s2.
Proof.
  intros Hs. unfold factor_proved, asserted, code_burned. rewrite <- !Hs by done. destruct (PasskeyEnabled op).
  - intros (art & Ha & lc & text & bytes & pin & rec & Hr). exists art. split; [done|]. exists lc, text, bytes, pin, rec. by rewrite Hs.
  - by rewrite Hs.
Qed.

Lemma returns_consume hash subject now s0 :
  returns (ConsumeAssertionChallenge ctx t hash subject now) s0 (fun _ s =>
    exists rec, kv_get t collLoginChal hash s0 = Some (VChallenge rec) /\ AC_Subject rec = subject /\ now < AC_ExpiresAt rec /\ s = kv_del t collLoginChal hash s0).
Proof.
  apply spec_ctx; [done|]. unfold withLock. eapply spec_bind with (R := fun rec s => s0 = s /\ kv_get t collLoginChal hash s0 = Some (VChallenge rec)).
  { apply returns_readonly; [auto with readonly|]. intros rec. rewrite answer_load_or. destruct (kv_get t collLoginChal hash s0) as [[]|]; cbn; try done. by intros [= ->]. }
  intros rec. apply spec_pure. intros Hrec. destruct (Z.ltb_spec now (AC_ExpiresAt rec)); cbn [negb].
  - destruct (String.eqb_spec (AC_Subject rec) subject); cbn [negb]; [|by apply spec_fail]. apply spec_write; [|done..]. intros s <-. by exists rec.
  - eapply spec_bind with (R := fun _ _ => True); [apply returns_True|]. intros u. by apply spec_fail.
Qed.

Lemma lift_result_Ok {A} (r : result store_error A) s0 : returns (lift_result r) s0 (fun a s => s0 = s /\ r = Ok a).
Proof. destruct r as [a|e]; [by apply spec_ret; intros s <-|by apply spec_fail]. Qed.

Lemma returns_assertion op art now s0 : returns (verifyLoginAssertion h ctx op art now) s0 (fun _ => asserted op art now s0).
Proof.
  unfold verifyLoginAssertion. destruct (OP_LoginCredential op) as [lc|] eqn:Hlc; [|by apply spec_fail].
  eapply spec_bind; [apply lift_result_Ok|]. intros text. apply spec_pure. intros Htext. eapply spec_bind; [apply lift_result_Ok|]. intros bytes. apply spec_pure. intros Hbytes.
  eapply spec_bind; [apply returns_consume|]. intros [] fs s n (rec & Hrec & Hsub & Hexp & ->).
  set (s1 := kv_del t collLoginChal (HashToken text) s0). revert fs s1 n. intros fs s1 n. revert fs n.
  cut (returns (do! pin <- lift_result (pinFromLoginCredential lc) in lift_result (of_tl "assertion" (VerifyAssertion art pin bytes))) s1 (fun _ => asserted op art now s0)).
  { intros Hc fs n. by apply Hc. }
  eapply spec_bind; [apply lift_result_Ok|]. intros pin. apply spec_pure. intros Hpin.
  eapply spec_weaken; [apply lift_result_Ok|done| |done|done]. intros [] s [<- Hv]. exists lc, text, bytes, pin, rec.
  split_and!; [done| | |done|done|done|done| |].
  - destruct (TrustList.AssertionChallenge art); cbn in Htext; congruence.
  - destruct (RawURL_DecodeString text); congruence.
  - destruct (VerifyAssertion art pin bytes) as [[]|]; cbn in Hv; congruence.
  - unfold s1. rewrite (get_del (S := Core)). by rewrite decide_True.
Qed.

Lemma returns_burn op code now s0 : returns (burn_code h ctx op code now) s0 (fun b s => b = true -> code_burned op code now s0 s).
Proof.
  unfold burn_code. destruct (if String.eqb (TrimSpace code) "" then _ else _) as [ok step] eqn:Hv. destruct ok; [|by apply spec_ret].
  assert (VerifyTOTP (OP_TOTPSecret op) (TrimSpace code) now (OP_TOTPLastUsedStep op) = (true, step)) as Hok by (by destruct (String.eqb (TrimSpace code) "")).
  apply VerifyTOTP_step in Hok as (Hl & Hn & Hc). eapply spec_weaken; [apply (spec_advance ctx t (OP_Username op) step s0)|done| |done|done].
  intros b s Hb ->. destruct Hb as (cur & Hcur & Hstep & ->). exists step, cur. split_and!; [done|done|done|lia|lia|done|]. rewrite (get_put (S := Core)). by rewrite decide_True.
Qed.

Lemma returns_factor op req en now j s0 : returns (second_factor h ctx op req en now j) s0 (fun f s => f = None -> factor_proved op req now s0 s).
Proof.
  unfold second_factor, factor_proved. destruct (PasskeyEnabled op).
  - assert (forall P, spec (auditLockout h ctx now (LR_Username req) j ;;! (do! r <- writePasskeyChallenge h ctx op en now in ret (Some r))) P
              (fun f s => f = None -> exists art, LR_Passkey req = Some art /\ asserted op art now s0 s) (fun _ _ => True) (fun _ => True)) as Hch.
    { intros P. eapply spec_bind with (R := fun _ _ => True); [apply returns_True|]. intros u. eapply spec_bind with (R := fun _ _ => True); [apply returns_True|]. intros r. by apply spec_ret. }
    destruct (LR_Passkey req) as [art|]; [|apply Hch]. eapply spec_bind; [apply returns_attempt, returns_assertion|].
    intros [u|e]; [|eapply spec_weaken; [apply (Hch (fun _ => True))|done..]]. apply spec_ret. intros s Ha _. exists art. split; [done|]. by eapply Ha.
  - destruct (TOTPEnabled op); [|apply spec_ret; by left]. eapply spec_bind; [apply returns_attempt, returns_burn|]. intros [[]|e].
    + apply spec_ret. intros s Hb _. right. by eapply Hb.
    + eapply spec_bind with (R := fun _ _ => True); [apply returns_True|]. intros u. by apply spec_ret.
    + by apply spec_ret.
Qed.

(** ** The session *)

Lemma returns_audit now user action P : audit_stable t P -> keeps (operator_audit h ctx now user action) P.
Proof. intros Ha. apply spec_ignore. by apply keeps_append. Qed.

Lemma same_factors_trans s s1 s2 : same_factors s s1 -> same_factors s1 s2 -> same_factors s s2.
Proof. intros H1' H2' c k Hc. by rewrite H2', H1'. Qed.

(** The answer of a login that went through, in the store it leaves. *)
Definition admitted_as (op : Operator) (now : Z) (resp : response) s : Prop :=
  match resp with
  | RespLogin tok operator expiresAt _ _ cookies =>
      operator = OP_Username op /\ expiresAt = now + h_sessionTTL h /\ mkCookie sessionCookieName tok true (h_secureCookie h) (cookieSameSiteNone h) (whole_seconds (h_sessionTTL h)) ∈ cookies /\
      kv_get t collSessions (HashToken tok) s = Some (VSession (mkSession (HashToken tok) operator now expiresAt))
  | _ => True
  end.

Lemma returns_mint op en now k1 k2 lim s0 :
  returns (mintSessionResponse h ctx op en now k1 k2 lim) s0 (fun a s => match a.2 with RespLogin _ _ _ _ _ _ => same_factors s0 s /\ admitted_as op now a.2 s | _ => True end).
Proof.
  unfold mintSessionResponse. destruct (en_csrf en) as [raw|]; [|by apply spec_ret]. cbn [NewSession]. set (tok := RawURL_EncodeToString (en_session en)). set (sess := mkSession _ _ _ _).
  eapply spec_bind with (R := fun r s => r = Ok tt -> kv_put t collSessions (HashToken tok) (VSession sess) s0 = s).
  { apply spec_attempt. apply spec_ctx; [done|]. apply spec_write; [by intros s <-|done..]. }
  intros [[]|e]; [|by apply spec_ret; intros; unfold codedErr; destruct (own_code e) as [[]|]].
  set (P := fun s => same_factors s0 s /\ kv_get t collSessions (HashToken tok) s = Some (VSession sess)).
  eapply spec_bind with (R := fun _ => P).
  - eapply spec_weaken; [apply (returns_audit now (OP_Username op) "login-success" P)|..]; [| |done..].
    + intros e s [Hs Hk]. split; [intros c k Hc|]; rewrite (get_append (S := Core)); auto.
    + intros s E. rewrite <- E by done. split; [intros c k Hc|]; rewrite (get_put (S := Core)); [rewrite decide_False by (intros (_ & E' & _); exact (Hc E')); reflexivity|rewrite decide_True by (split_and!; reflexivity); reflexivity].
  - intros u. apply spec_ret. intros s [Hs Hk]. split; [done|]. cbn [admitted_as]. split_and!; [done|done|by left|done].
Qed.

(** Later requests with the token are the operator's until the session ends. *)
Lemma resolve_session s tok operator at_ expiresAt now :
  kv_get t collSessions (HashToken tok) s = Some (VSession (mkSession (HashToken tok) operator at_ expiresAt)) -> now < expiresAt ->
  resolveOperator h None tok now no_faults s 0%nat = Done (Some (operator, operatorAuthSession)) s 1%nat.
Proof.
  intros Hk Hn. unfold resolveOperator, LookupSession, withLock, load_or, load_optional, loadJSON, get, attempt, abind, prim_read, no_faults, check_ctx, ret. cbv beta iota zeta. rewrite Hk.
  cbn [of_json Session_json SE_ExpiresAt SE_Operator Nat.add].
  destruct (Z.ltb_spec now expiresAt); [done|lia].
Qed.

Lemma gate_session s tok operator at_ expiresAt r now next :
  kv_get t collSessions (HashToken tok) s = Some (VSession (mkSession (HashToken tok) operator at_ expiresAt)) -> now < expiresAt -> bearerToken r = Some tok ->
  operatorAuth h None r now next no_faults s 0%nat = next operator operatorAuthSession no_faults s 1%nat.
Proof. intros Hk Hn Hb. unfold operatorAuth. rewrite Hb. unfold abind. by rewrite (resolve_session s tok operator at_ expiresAt now Hk Hn). Qed.

(** ** Login *)

(** The account and the factors behind an answer that logs in. *)
Definition authentic (req : loginRequest) (now : Z) s (resp : response) s' : Prop :=
  match resp with
  | RespLogin tok operator expiresAt _ _ _ =>
      exists op, kv_get t collOperators (LR_Username req) s = Some (VOperator op) /\ VerifyPassword (OP_PasswordHash op) (LR_Password req) = Ok true /\
        factor_proved op req now s s' /\ admitted_as op now resp s'
  | _ => True
  end.

Lemma returns_get_operator user s0 : returns (GetOperator ctx t user) s0 (fun op s => s0 = s /\ kv_get t collOperators user s0 = Some (VOperator op)).
Proof.
  apply spec_ctx; [done|]. unfold withLock. apply returns_readonly; [auto with readonly|]. intros op. rewrite answer_loadJSON. destruct (kv_get t collOperators user s0) as [[]|]; cbn; try done. by intros [= ->].
Qed.

Lemma refusal_not_login now user j code lim (P : Core -> Prop) req s0 :
  spec (auditLockout h ctx now user j ;;! ret (lim : loginLimiter, RespError code [])) P (fun a s => authentic req now s0 a.2 s) (fun _ _ => True) (fun _ => True).
Proof. eapply spec_bind with (R := fun _ _ => True); [apply returns_True|]. intros u. by apply spec_ret. Qed.

Definition not_login (resp : response) : Prop := match resp with RespLogin _ _ _ _ _ _ => False | _ => True end.
Lemma codedErr_not_login f e : not_login (codedErr f e).
Proof. unfold codedErr. by destruct (own_code e) as [[]|]. Qed.

Lemma factor_answer op req en now j s0 : returns (second_factor h ctx op req en now j) s0 (fun f _ => forall resp, f = Some resp -> not_login resp).
Proof.
  assert (forall P, spec (auditLockout h ctx now (LR_Username req) j ;;! (do! r <- writePasskeyChallenge h ctx op en now in ret (Some r))) P
            (fun f _ => forall resp, f = Some resp -> not_login resp) (fun _ _ => True) (fun _ => True)) as Hch.
  { intros P. eapply spec_bind with (R := fun _ _ => True); [apply returns_True|]. intros u. eapply spec_bind with (R := fun r _ => not_login r).
    - unfold writePasskeyChallenge. eapply spec_bind with (R := fun _ _ => True); [apply returns_True|]. intros [c|e]; apply spec_ret; intros s _; [done|apply codedErr_not_login].
    - intros r. apply spec_ret. by intros s Hr resp [= <-]. }
  unfold second_factor. destruct (PasskeyEnabled op).
  - destruct (LR_Passkey req) as [art|]; [|apply Hch]. eapply spec_bind with (R := fun _ _ => True); [apply returns_True|]. intros [u|e]; [by apply spec_ret|apply Hch].
  - destruct (TOTPEnabled op); [|by apply spec_ret]. eapply spec_bind with (R := fun _ _ => True); [apply returns_True|]. intros [[]|e]; [by apply spec_ret| |].
    + eapply spec_bind with (R := fun _ _ => True); [apply returns_True|]. intros u. apply spec_ret. by intros s _ resp [= <-].
    + apply spec_ret. intros s _ resp [= <-]. apply codedErr_not_login.
Qed.

Lemma returns_and {A} (m : Act Core A) s0 (Q Q' : A -> Core -> Prop) : returns m s0 Q -> returns m s0 Q' -> returns m s0 (fun a s => Q a s /\ Q' a s).
Proof. intros H1' H2' fs s n Hs. specialize (H1' fs s n Hs). specialize (H2' fs s n Hs). by destruct (m fs s n). Qed.

Lemma returns_login r req en now lim s0 : returns (HandleLogin h ctx r (Some req) en now lim) s0 (fun a s => authentic req now s0 a.2 s).
Proof.
  unfold HandleLogin. destruct (negb _); [by apply spec_ret|]. cbn zeta. destruct (registerAttempt _ _ _) as [lim1 g]. destruct (gt_allowed g); cbn [negb]; [|by apply spec_ret].
  eapply spec_bind; [apply returns_attempt, returns_get_operator|]. intros [op|e]; [|apply refusal_not_login].
  destruct (VerifyPassword (OP_PasswordHash op) (LR_Password req)) as [[]|] eqn:Hpw; [|apply refusal_not_login..].
  intros fs s n Hs. destruct (Hs op eq_refl) as [<- Hop]. clear Hs. revert fs n.
  cut (returns (do! f <- second_factor h ctx op req en now (gt_justLocked g) in
         match f with Some resp => ret (lim1, resp) | None => mintSessionResponse h ctx op en now ("user:" +:+ LR_Username req) ("ip:" +:+ clientIP (h_trustedProxies h) r) lim1 end) s0
         (fun a s => authentic req now s0 a.2 s)).
  { intros Hc fs n. by apply Hc. }
  eapply spec_bind; [apply returns_and; [apply returns_factor|apply factor_answer]|]. intros [resp|].
  - apply spec_ret. intros s [_ Hn]. specialize (Hn resp eq_refl). by destruct resp.
  - intros fs s1 n [Hf _]. specialize (Hf eq_refl). specialize (returns_mint op en now ("user:" +:+ LR_Username req) ("ip:" +:+ clientIP (h_trustedProxies h) r) lim1 s1 fs s1 n eq_refl) as Hm.
    destruct (mintSessionResponse _ _ _ _ _ _ _ _ _ _ _) as [a s2 n2|e s2 n2|s2]; [|done..]. destruct a as [lim2 resp]. cbn [snd] in *. destruct resp; try done.
    destruct Hm as [Hsame Ha]. exists op. split_and!; [done|done|by eapply factor_kept|exact Ha].
Qed.

Lemma returns_finish r user passkey en now lim s0 :
  returns (HandlePasskeyLoginFinish h ctx r (Some (user, passkey)) en now lim) s0 (fun a s =>
    not_login a.2 \/ exists op art, kv_get t collOperators user s0 = Some (VOperator op) /\ passkey = Some art /\ (exists s1, asserted op art now s0 s1 /\ same_factors s1 s) /\ admitted_as op now a.2 s).
Proof.
  unfold HandlePasskeyLoginFinish. destruct (negb _); [apply spec_ret; by left|]. cbn zeta. destruct (registerAttempt _ _ _) as [lim1 g]. destruct (gt_allowed g); cbn [negb]; [|apply spec_ret; by left].
  assert (forall (P : Core -> Prop) Q, spec (auditLockout h ctx now user (gt_justLocked g) ;;! ret (lim1, RespError "CodeAuthPasskeyFailed" [])) P
            (fun a s => not_login a.2 \/ Q a s) (fun _ _ => True) (fun _ => True)) as Hrefuse.
  { intros P Q. eapply spec_bind with (R := fun _ _ => True); [apply returns_True|]. intros u. apply spec_ret. by left. }
  eapply spec_bind; [apply returns_attempt, returns_get_operator|]. intros [op|e]; [|apply Hrefuse]. destruct passkey as [art|]; [|apply Hrefuse]. destruct (PasskeyEnabled op); [|apply Hrefuse].
  intros fs s n Hs. destruct (Hs op eq_refl) as [<- Hop]. clear Hs. unfold abind at 1, attempt. specialize (returns_assertion op art now s0 fs s0 n eq_refl) as Ha.
  destruct (verifyLoginAssertion h ctx op art now fs s0 n) as [u s1 n1|e s1 n1|s1]; [|by apply (Hrefuse (fun _ => True))|done].
  specialize (returns_mint op en now ("user:" +:+ user) ("ip:" +:+ clientIP (h_trustedProxies h) r) lim1 s1 fs s1 n1 eq_refl) as Hm.
  destruct (mintSessionResponse _ _ _ _ _ _ _ _ _ _ _) as [a s2 n2|e s2 n2|s2]; [|done..]. destruct a as [lim2 resp]. cbn [snd] in *. destruct resp; try (by left).
  destruct Hm as [Hsame Hadm]. right. exists op, art. split_and!; [done|done|by exists s1|exact Hadm].
Qed.
End Login.

(** ** Theorems *)

(** The two calls that can log in. *)
Inductive login_call := PasswordCall (req : loginRequest) | PasskeyCall (username : string) (passkey : option SignedTrustList).
Definition call_user (c : login_call) : string := match c with PasswordCall req => LR_Username req | PasskeyCall user _ => user end.

Section Theorems.
Context {B : Type} `{KVLaws B} `{!AuditBackend B} `{!AuditLaws B} `{Crypto} `{Argon2}.
#[local] Abbreviation Core := (storeCore B).
Context (h : ControllerHandler).
#[local] Abbreviation t := (h_tenant h).
Implicit Types s : Core.

Definition run_login (ctx : option string) (r : http_request) (c : login_call) (en : entropy) (now : Z) (lim : loginLimiter) : Act Core (loginLimiter * response) :=
  match c with
  | PasswordCall req => HandleLogin h ctx r (Some req) en now lim
  | PasskeyCall user passkey => HandlePasskeyLoginFinish h ctx r (Some (user, passkey)) en now lim
  end.

Definition limiter_keys (r : http_request) (c : login_call) : list string := ["user:" +:+ call_user c; "ip:" +:+ clientIP (h_trustedProxies h) r].

(** What the caller has shown, from the store before the call and after it. *)
Definition shown (c : login_call) (op : Operator) (now : Z) s s' : Prop :=
  match c with
  | PasswordCall req => VerifyPassword (OP_PasswordHash op) (LR_Password req) = Ok true /\ factor_proved h op req now s s'
  | PasskeyCall _ passkey => exists art, passkey = Some art /\ asserted h op art now s s'
  end.

Lemma gate_closed ctx r c en now lim fs s n lim' resp s' n' :
  run_login ctx r c en now lim fs s n = Done (lim', resp) s' n' -> gt_allowed (registerAttempt now (limiter_keys r c) lim).2 = false -> not_login resp.
Proof.
  intros Hr Hg. destruct c as [req|user passkey]; cbn [run_login] in Hr; unfold HandleLogin, HandlePasskeyLoginFinish in Hr; unfold limiter_keys in Hg; cbn [call_user] in Hg.
  all: destruct (negb _) in Hr; [by injection Hr as <- <- <- <-|]; cbn zeta in Hr; destruct (registerAttempt _ _ _) as [lim1 g]; cbn [snd] in Hg; rewrite Hg in Hr; by injection Hr as <- <- <- <-.
Qed.

Lemma shown_kept c op now s s1 s2 : same_factors h s1 s2 -> shown c op now s s1 -> shown c op now s s2.
Proof.
  intros Hsame. destruct c as [req|user passkey]; cbn [shown].
  - intros [Hp Hf]. split; [done|]. by eapply factor_kept.
  - intros (art & Hart & lc & text & bytes & pin & rec & Hr). exists art. split; [done|]. exists lc, text, bytes, pin, rec. by rewrite Hsame.
Qed.

(** C8. A call that logs in passed the login limiter and proved the account's factors: the
    account exists, its password verifies and, when it has a passkey, the passkey signed
    a live challenge of the account that the login uses up; when it has a code generator
    instead, the code is of a step next to the clock that no login used before, and the
    login burns it.  A login with the passkey alone proves the passkey.  The token of the
    answer then passes the operator gate as that account until the session ends.  This
    holds whatever faults the store meets during the call. *)
Theorem login_proves_factors ctx r c en now lim fs s n lim' tok operator expiresAt csrf version cookies s' n' :
  run_login ctx r c en now lim fs s n = Done (lim', RespLogin tok operator expiresAt csrf version cookies) s' n' ->
  gt_allowed (registerAttempt now (limiter_keys r c) lim).2 = true /\ expiresAt = now + h_sessionTTL h /\
  (exists op, kv_get t collOperators (call_user c) s = Some (VOperator op) /\ operator = OP_Username op /\ shown c op now s s') /\
  (forall r' now' next, bearerToken r' = Some tok -> now' < expiresAt -> operatorAuth h None r' now' next no_faults s' 0%nat = next operator operatorAuthSession no_faults s' 1%nat).
Proof.
  intros Hr. split; [destruct (gt_allowed _) eqn:Hg; [done|by apply (gate_closed _ _ _ _ _ _ _ _ _ _ _ _ _ Hr) in Hg]|].
  assert (exists op, kv_get t collOperators (call_user c) s = Some (VOperator op) /\ shown c op now s s' /\ admitted_as h op now (RespLogin tok operator expiresAt csrf version cookies) s') as (op & Hop & Hsh & Ho & He & _ & Hk).
  { destruct c as [req|user passkey]; cbn [run_login] in Hr.
    - pose proof (returns_login h ctx r req en now lim s fs s n eq_refl) as Hl. rewrite Hr in Hl. destruct Hl as (op & Hop & Hpw & Hf & Ha). exists op. split_and!; [done|by split|exact Ha].
    - pose proof (returns_finish h ctx r user passkey en now lim s fs s n eq_refl) as Hl. rewrite Hr in Hl. destruct Hl as [[]|(op & art & Hop & Hp & (s1 & Has & Hsame) & Ha)].
      exists op. split_and!; [done| |exact Ha]. eapply shown_kept; [exact Hsame|]. by exists art. }
  split; [done|]. split; [by exists op|]. intros r' now' next Hb Hn. by eapply gate_session.
Qed.

(** *** The gate *)

(** The token a request brings: a bearer token, or a session cookie, which on a request
    that changes state needs the matching CSRF token. *)
Definition brings (r : http_request) (tok : string) : Prop :=
  bearerToken r = Some tok \/ bearerToken r = None /\ sessionCookieToken r = Some tok /\ (isStateChanging (Rq_Method r) = true -> csrfValid r = true).

Definition identity (tok : string) (now : Z) s (operator : string) (kind : operatorAuthKind) : Prop :=
  match kind with
  | operatorAuthSession => exists sess, kv_get t collSessions (HashToken tok) s = Some (VSession sess) /\ SE_Operator sess = operator /\ now < SE_ExpiresAt sess
  | operatorAuthBreakGlass => h_operatorTokenHash h <> "" /\ HashToken tok = h_operatorTokenHash h /\ operator = h_operatorName h
  | operatorAuthUnknown => False
  end.

(** Only session records change. *)
#[local] Abbreviation only_sessions := (same_factors h).

Lemma spec_lookup ctx hash now s0 :
  spec (LookupSession ctx t hash now) (eq s0) (fun sess s => s0 = s /\ kv_get t collSessions hash s0 = Some (VSession sess) /\ now < SE_ExpiresAt sess)
    (fun _ => only_sessions s0) (only_sessions s0).
Proof.
  apply spec_ctx; [by intros ? s _ <-|]. unfold withLock. eapply spec_bind with (R := fun sess s => s0 = s /\ kv_get t collSessions hash s0 = Some (VSession sess)).
  { apply spec_readonly; [auto with readonly| |by intros s e <-|by intros s <-]. intros s sess <-. rewrite answer_load_or. destruct (kv_get t collSessions hash s0) as [[]|]; cbn; try done. by intros [= ->]. }
  intros sess. apply spec_pure. intros Hk. destruct (Z.ltb_spec now (SE_ExpiresAt sess)) as [Hn|Hn]; cbn [negb]; [by apply spec_ret; intros s <-|].
  assert (only_sessions s0 (kv_del t collSessions hash s0)) as Hd.
  { intros c k Hc. rewrite (get_del (S := Core)). rewrite decide_False by (intros (_ & E & _); exact (Hc E)). reflexivity. }
  eapply spec_bind with (R := fun _ => only_sessions s0); [by apply spec_write; [intros s <-|intros m s <-|intros s <-]|]. intros u. by apply spec_fail.
Qed.

(** The request went through to the handler, was refused, or the process died. *)
Definition let_through (r : http_request) (now : Z) (next : string -> operatorAuthKind -> Act Core response) (fs : Faults) s (o : outcome Core response) : Prop :=
  exists tok operator kind s' n', brings r tok /\ identity tok now s operator kind /\ only_sessions s s' /\ o = next operator kind fs s' n'.
Definition turned_away s (o : outcome Core response) : Prop :=
  exists code s' n', o = Done (RespError code []) s' n' /\ code ∈ ["CodeReqCSRFInvalid"; "CodeReqBearerRequired"; "CodeReqOperatorRequired"] /\ only_sessions s s'.

Lemma turned_away_at s code s' n' : code ∈ ["CodeReqCSRFInvalid"; "CodeReqBearerRequired"; "CodeReqOperatorRequired"] -> only_sessions s s' -> turned_away s (Done (RespError code []) s' n').
Proof. intros Hc Hs. by exists code, s', n'. Qed.

Lemma resolve_gate ctx r tok now next fs s n :
  brings r tok ->
  let o := (do! who <- resolveOperator h ctx tok now in match who with None => ret (RespError "CodeReqOperatorRequired" []) | Some (operator, kind) => next operator kind end) fs s n in
  let_through r now next fs s o \/ turned_away s o \/ (exists s', o = Crashed s' /\ only_sessions s s').
Proof.
  intros Hbr. unfold abind, resolveOperator, abind, attempt. pose proof (spec_lookup ctx (HashToken tok) now s fs s n eq_refl) as Hl.
  destruct (LookupSession ctx t (HashToken tok) now fs s n) as [sess s1 n1|e s1 n1|s1]; [|unfold ret|right; right; by exists s1].
  - destruct Hl as (<- & Hk & Hn). left. exists tok, (SE_Operator sess), operatorAuthSession, s, n1. split_and!; [done|by exists sess|done|reflexivity].
  - destruct (String.eqb_spec (h_operatorTokenHash h) "") as [|Hne]; cbn [negb andb]; [right; left; apply turned_away_at; [set_solver|done]|].
    destruct (String.eqb_spec (HashToken tok) (h_operatorTokenHash h)) as [Hh|]; [|right; left; apply turned_away_at; [set_solver|done]].
    left. exists tok, (h_operatorName h), operatorAuthBreakGlass, s1, n1. split_and!; [done|by split_and!|done|reflexivity].
Qed.

(** C9. The operator gate lets a request through only for a token it brings (with the CSRF
    token when a cookie is to change state), and as the operator of a live session of
    that token, or as the break-glass operator when the token is the configured one; the
    store the handler then sees differs in session records at most.  Otherwise the answer
    is one of three refusals. *)
Theorem operator_gate ctx r now next fs s n :
  let o := operatorAuth h ctx r now next fs s n in
  let_through r now next fs s o \/ turned_away s o \/ (exists s', o = Crashed s' /\ only_sessions s s').
Proof.
  unfold operatorAuth. destruct (bearerToken r) as [tok|] eqn:Hb; [apply resolve_gate; by left|].
  destruct (sessionCookieToken r) as [tok|] eqn:Hc; [|right; left; apply turned_away_at; [set_solver|done]].
  destruct (isStateChanging (Rq_Method r)) eqn:Hm; destruct (csrfValid r) eqn:Hv; cbn [negb andb].
  2: right; left; apply turned_away_at; [set_solver|done].
  all: apply resolve_gate; right; split_and!; [done|done|by rewrite ?Hm].
Qed.

(** *** Runs without faults *)

Lemma run_get_operator user op s n : kv_get t collOperators user s = Some (VOperator op) -> GetOperator None t user no_faults s n = Done op s (n + 1)%nat.
Proof. intros Hk. unfold GetOperator, withLock, loadJSON, get, abind, prim_read, no_faults, check_ctx, ret. by rewrite Hk. Qed.

Lemma run_advance user op step s n :
  kv_get t collOperators user s = Some (VOperator op) -> OP_TOTPLastUsedStep op < step ->
  AdvanceTOTPStep None t user step no_faults s n = Done true (kv_put t collOperators user (VOperator (with_step step op)) s) (n + 1 + 1)%nat.
Proof.
  intros Hk Hl. unfold AdvanceTOTPStep, withLock, loadJSON, saveJSON, get, put, abind, prim_read, prim_write, no_faults, check_ctx, ret. rewrite Hk. cbn [of_json Operator_json].
  by destruct (Z.leb_spec step (OP_TOTPLastUsedStep op)); [lia|].
Qed.

Lemma run_audit now user action s n : exists n', operator_audit h None now user action no_faults s n = Done tt (kv_appendAudit t (operator_event now user action) s).1 n'.
Proof. by eexists. Qed.

Definition with_totp (next : TOTPState) (now : Z) (op : Operator) : Operator :=
  mkOperator (OP_Username op) (OP_PasswordHash op) (OP_CreatedAt op) now (TOTP_Secret next) (TOTP_LastUsedStep next) (OP_LoginCredential op).

Lemma run_set_totp op next now s n :
  kv_get t collOperators (OP_Username op) s = Some (VOperator op) ->
  exists n', set_totp_state h None op next now no_faults s n = Done tt (kv_put t collOperators (OP_Username op) (VOperator (with_totp next now op)) s) n'.
Proof.
  intros Hk. unfold set_totp_state, CompareAndSetTOTPState, withLock, loadJSON, saveJSON, get, put, attempt, abind, prim_read, prim_write, no_faults, check_ctx, ret. rewrite Hk. cbn [of_json Operator_json].
  rewrite bool_decide_eq_true_2 by done. cbn [negb]. by eexists.
Qed.

Lemma run_account actor op s n : kv_get t collOperators actor s = Some (VOperator op) -> currentOperatorAccount h None operatorAuthSession actor no_faults s n = Done op s (n + 1)%nat.
Proof. intros Hk. unfold currentOperatorAccount. rewrite bool_decide_eq_true_2 by done. cbn [negb]. unfold abind, attempt. by rewrite (run_get_operator actor op s n Hk). Qed.

(** *** An honest operator *)

(** The second factor an operator without a passkey gives. *)
Definition gives_code (op : Operator) (code : string) (now : Z) : Prop :=
  TOTPEnabled op = true -> TOTPCode (OP_TOTPSecret op) now = Some code /\ OP_TOTPLastUsedStep op < step_at now.

Lemma run_factor op req en now j s n :
  PasskeyEnabled op = false -> gives_code op (LR_TOTP req) now -> kv_get t collOperators (OP_Username op) s = Some (VOperator op) ->
  exists s' n', second_factor h None op req en now j no_faults s n = Done None s' n'.
Proof.
  intros Hp Hg Hk. unfold second_factor. rewrite Hp. destruct (TOTPEnabled op) eqn:Ht; [|by exists s, n]. destruct (Hg Ht) as [Hc Hl].
  destruct (VerifyTOTP_current _ _ _ _ Hc Hl) as (Htr & Hne & step & Hv). unfold burn_code, abind, attempt. rewrite Htr. destruct (String.eqb_spec (LR_TOTP req) ""); [done|]. rewrite Hv.
  apply VerifyTOTP_step in Hv as (Hls & _ & _). rewrite (run_advance _ _ _ _ _ Hk Hls). by do 2 eexists.
Qed.

Context `{!Argon2Laws}.

(** C35. An operator without a passkey logs in: when the limiter admits the request, the
    password is the one the account was created with and, if the account has a code
    generator, the code is the generator's current one and its step was not used before,
    the answer is a session for the account, and the limiter forgets the attempts of the
    name and the address. *)
Theorem honest_operator_logs_in r req op salt en raw now lim s :
  Rq_Method r = "POST" -> gt_allowed (registerAttempt now (limiter_keys r (PasswordCall req)) lim).2 = true -> en_csrf en = Some raw ->
  kv_get t collOperators (LR_Username req) s = Some (VOperator op) -> OP_Username op = LR_Username req ->
  Forall is_byte salt -> salt <> [] -> OP_PasswordHash op = HashPassword salt (LR_Password req) ->
  PasskeyEnabled op = false -> gives_code op (LR_TOTP req) now ->
  exists lim' csrf cookies s' n',
    HandleLogin h None r (Some req) en now lim no_faults s 0%nat =
      Done (lim', RespLogin (RawURL_EncodeToString (en_session en)) (LR_Username req) (now + h_sessionTTL h) csrf (h_version h) cookies) s' n' /\
    forall k, k ∈ limiter_keys r (PasswordCall req) -> lim_attempts lim' !! k = None.
Proof.
  intros Hm Hg Hen Hk Hu Hs Hs0 Hpw Hp Hc. unfold HandleLogin. rewrite Hm, String.eqb_refl. cbn [negb]. unfold limiter_keys in *. cbn [call_user] in *. cbn zeta.
  destruct (registerAttempt _ _ _) as [lim1 g]. cbn [snd] in Hg. rewrite Hg. cbn [negb]. unfold abind at 1, attempt.
  rewrite (run_get_operator _ _ _ _ Hk).
  rewrite Hpw, hashed_password_verifies by done. unfold abind at 1. rewrite <- Hu in Hk. destruct (run_factor op req en now (gt_justLocked g) s (0 + 1)%nat Hp Hc Hk) as (s1 & n1 & Hf).
  rewrite Hf. unfold mintSessionResponse. rewrite Hen. cbn [NewSession]. rewrite Hu.
  eexists (succeed ["user:" +:+ LR_Username req; "ip:" +:+ clientIP (h_trustedProxies h) r] lim1), _, _, _, _. split; [reflexivity|].
  intros k Hin. unfold succeed. cbn [lim_attempts set_attempts foldl]. apply elem_of_cons in Hin as [->|[->|?%elem_of_nil]%elem_of_cons]; [|by rewrite lookup_delete_eq|done].
  destruct (decide ("user:" +:+ LR_Username req = "ip:" +:+ clientIP (h_trustedProxies h) r)) as [E|E]; [by rewrite E, lookup_delete_eq|by rewrite lookup_delete_ne, lookup_delete_eq by done].
Qed.

(** *** Replacing the second factor *)

(** A session alone strips the code generator: its holder confirms a secret of its own
    choice, although the account has another one enrolled, and later disables it with a
    code of that secret.  No code of the enrolled secret is asked for, although disabling
    requires a code so that a hijacked session cannot turn the second factor off. *)
Theorem session_strips_totp actor op secret code code' now now' s :
  kv_get t collOperators actor s = Some (VOperator op) -> OP_Username op = actor ->
  TrimSpace secret <> "" -> TOTPCode secret now = Some code -> 0 < step_at now -> TOTPCode secret now' = Some code' -> step_at now + totpSkewSteps < step_at now' ->
  exists s1 n1 s2 n2 op',
    HandleTOTPConfirm h None operatorAuthSession actor (Some (mkConfirmRequest secret code)) now no_faults s 0%nat = Done (RespTOTPStatus true) s1 n1 /\
    HandleTOTPDisable h None operatorAuthSession actor (Some code') now' no_faults s1 n1 = Done (RespTOTPStatus false) s2 n2 /\
    kv_get t collOperators actor s2 = Some (VOperator op') /\ TOTPEnabled op' = false.
Proof.
  intros Hk Hu Hne Hc Hp Hc' Hlater. destruct (VerifyTOTP_current secret code now 0 Hc Hp) as (_ & _ & step & Hv). pose proof (VerifyTOTP_step _ _ _ _ _ Hv) as (_ & [_ Hs] & _).
  set (op1 := with_totp (mkTOTPState secret step) now op). set (s1 := (kv_appendAudit t (operator_event now actor "totp-enabled") (kv_put t collOperators actor (VOperator op1) s)).1).
  set (s2 := (kv_appendAudit t (operator_event now' actor "totp-disabled") (kv_put t collOperators actor (VOperator (with_totp (mkTOTPState "" 0) now' op1)) s1)).1).
  assert (kv_get t collOperators actor s1 = Some (VOperator op1)) as Hk1 by (unfold s1; rewrite (get_append (S := Core)), (get_put (S := Core)); by rewrite decide_True).
  assert (exists n1, HandleTOTPConfirm h None operatorAuthSession actor (Some (mkConfirmRequest secret code)) now no_faults s 0%nat = Done (RespTOTPStatus true) s1 n1) as [n1 Hr1].
  { unfold HandleTOTPConfirm, abind at 1. rewrite (run_account _ _ _ _ Hk). cbn [CR_Secret CR_Code]. destruct (String.eqb_spec (TrimSpace secret) ""); [done|]. rewrite Hv. cbn [negb].
    rewrite <- Hu in Hk. destruct (run_set_totp op (mkTOTPState secret step) now s (0 + 1)%nat Hk) as [m Hm]. unfold abind at 1. rewrite Hm. unfold abind. rewrite Hu. by eexists. }
  assert (exists n2, HandleTOTPDisable h None operatorAuthSession actor (Some code') now' no_faults s1 n1 = Done (RespTOTPStatus false) s2 n2) as [n2 Hr2].
  { unfold HandleTOTPDisable, abind at 1. rewrite (run_account _ _ _ _ Hk1). assert (TOTPEnabled op1 = true) as ->.
    { unfold TOTPEnabled. cbn [op1 with_totp OP_TOTPSecret TOTP_Secret]. destruct (String.eqb_spec secret ""); [|done]. by subst secret. }
    cbn [negb]. destruct (VerifyTOTP_current secret code' now' step Hc') as (_ & _ & step' & Hv'); [lia|]. cbn [op1 with_totp OP_TOTPSecret OP_TOTPLastUsedStep TOTP_Secret TOTP_LastUsedStep].
    rewrite Hv'. cbn [fst negb]. destruct (run_set_totp op1 (mkTOTPState "" 0) now' s1 (n1 + 1)%nat) as [m Hm]; [by cbn [op1 with_totp OP_Username]; rewrite Hu|].
    unfold abind at 1. rewrite Hm. unfold abind. cbn [op1 with_totp OP_Username]. rewrite Hu. by eexists. }
  exists s1, n1, s2, n2, (with_totp (mkTOTPState "" 0) now' op1). split_and!; [done|done| |done]. unfold s2. rewrite (get_append (S := Core)), (get_put (S := Core)). by rewrite decide_True.
Qed.
End Theorems.

(** ** An example *)

#[local] Existing Instance toy_crypto.
#[local] Instance toy_argon2 : Argon2 := {|
  IDKey pw salt _ _ _ n := (fun i => (default 0 (pw !! i) + default 0 (salt !! i)) mod 256) <$> seq 0 (Z.to_nat n) |}.
#[local] Instance toy_argon2_laws : Argon2Laws.
Proof.
  split. intros pw salt tm m p n _. cbn [IDKey toy_argon2]. split; [|by rewrite length_fmap, length_seq].
  apply Forall_fmap, Forall_true. intros i. unfold is_byte. cbn. pose proof (Z.mod_pos_bound (default 0 (pw !! i) + default 0 (salt !! i)) 256 ltac:(lia)). lia.
Qed.

Definition ex_handler : ControllerHandler := mkHandler "acme" "" "root" (3600 * second) [] true [] "v1".
Definition ex_salt : list Z := [7; 7; 7; 7; 7; 7; 7; 7].
Definition ex_operator : Operator := mkOperator "alice" (HashPassword ex_salt "correct horse") 0 0 rfc_secret 0 None.
Definition ex_store : storeCore memStore := kv_put "acme" collOperators "alice" (VOperator ex_operator) (newStoreCore newMemStore).
Definition ex_request : http_request := mkHTTP "POST" "192.0.2.7:4711" "" "" "" "" None None.
Definition ex_body : loginRequest := mkLoginRequest "alice" "correct horse" "081804" None.
Definition ex_entropy : entropy := mkEntropy (Some [1; 2; 3]) [4; 5; 6] [7; 8; 9] [].
Definition ex_now : Z := 1111111109 * second.
Definition ex_login : outcome (storeCore memStore) (loginLimiter * response) :=
  run_login ex_handler None ex_request (PasswordCall ex_body) ex_entropy ex_now newLoginLimiter no_faults ex_store 0%nat.
Definition logged_in {S} (o : outcome S (loginLimiter * response)) : bool := match o with Done (_, RespLogin _ _ _ _ _ _) _ _ => true | _ => false end.

(** The same code does not log in twice. *)
Example ex_replayed :
  logged_in ex_login = true /\
  logged_in (run_login ex_handler None ex_request (PasswordCall ex_body) ex_entropy ex_now newLoginLimiter no_faults (outcome_state ex_login) 0%nat) = false.
Proof. vm_compute. split; reflexivity. Qed.

Lemma login_proves_factors_witness :
  match ex_login with
  | Done (_, RespLogin tok operator expiresAt _ _ _) s' _ =>
      exists op, kv_get "acme" collOperators "alice" ex_store = Some (VOperator op) /\ operator = OP_Username op /\ shown ex_handler (PasswordCall ex_body) op ex_now ex_store s'
  | _ => False
  end.
Proof.
  assert (logged_in ex_login = true) as Hl by (vm_compute; reflexivity). destruct ex_login as [[lim' resp] s' n'|e s' n'|s'] eqn:E; [|discriminate Hl..].
  destruct resp; try discriminate Hl. exact (proj1 (proj2 (proj2 (login_proves_factors ex_handler None ex_request (PasswordCall ex_body) ex_entropy ex_now newLoginLimiter no_faults ex_store 0%nat _ _ _ _ _ _ _ _ _ E)))).
Defined.

Definition ex_probe : http_request := mkHTTP "GET" "192.0.2.7:4711" ("Bearer " +:+ RawURL_EncodeToString [4; 5; 6]) "" "" "" None None.
Definition ex_probed (actor : string) (_ : operatorAuthKind) : Act (storeCore memStore) response := HandleSession ex_handler None actor ex_probe ex_now.

(** The token of the login answers the session probe. *)
Example ex_probe_answered :
  operatorAuth ex_handler None ex_probe ex_now ex_probed no_faults (outcome_state ex_login) 0%nat =
  Done (RespSession "alice" (Some (ex_now + 3600 * second)) "" "v1") (outcome_state ex_login) 2%nat.
Proof. vm_compute. reflexivity. Qed.

Lemma operator_gate_witness :
  let o := operatorAuth ex_handler None ex_probe ex_now ex_probed no_faults (outcome_state ex_login) 0%nat in
  let_through ex_handler ex_probe ex_now ex_probed no_faults (outcome_state ex_login) o \/ turned_away ex_handler (outcome_state ex_login) o \/
  (exists s', o = Crashed s' /\ same_factors ex_handler (outcome_state ex_login) s').
Proof. exact (operator_gate ex_handler None ex_probe ex_now ex_probed no_faults (outcome_state ex_login) 0%nat). Defined.

Lemma honest_operator_logs_in_witness :
  exists lim' csrf cookies s' n',
    HandleLogin ex_handler None ex_request (Some ex_body) ex_entropy ex_now newLoginLimiter no_faults ex_store 0%nat =
      Done (lim', RespLogin (RawURL_EncodeToString [4; 5; 6]) "alice" (ex_now + 3600 * second) csrf "v1" cookies) s' n' /\
    forall k, k ∈ limiter_keys ex_handler ex_request (PasswordCall ex_body) -> lim_attempts lim' !! k = None.
Proof.
  assert (TOTPCode rfc_secret ex_now = Some "081804") as Hc by (vm_compute; reflexivity).
  apply (honest_operator_logs_in ex_handler ex_request ex_body ex_operator ex_salt ex_entropy [1; 2; 3] ex_now newLoginLimiter ex_store); try reflexivity.
  - repeat (apply Forall_cons; split; [unfold is_byte; lia|]). apply Forall_nil. exact I.
  - discriminate.
  - intros _. split; [exact Hc|reflexivity].
Defined.

Definition ex_secret : string := "JBSWY3DPEHPK3PXP".
Definition ex_later : Z := 1111111199 * second.
Definition ex_code (at_ : Z) : string := default "" (TOTPCode ex_secret at_).

Lemma session_strips_totp_witness :
  TOTPEnabled ex_operator = true /\
  exists s1 n1 s2 n2 op',
    HandleTOTPConfirm ex_handler None operatorAuthSession "alice" (Some (mkConfirmRequest ex_secret (ex_code ex_now))) ex_now no_faults ex_store 0%nat = Done (RespTOTPStatus true) s1 n1 /\
    HandleTOTPDisable ex_handler None operatorAuthSession "alice" (Some (ex_code ex_later)) ex_later no_faults s1 n1 = Done (RespTOTPStatus false) s2 n2 /\
    kv_get "acme" collOperators "alice" s2 = Some (VOperator op') /\ TOTPEnabled op' = false.
Proof.
  split; [vm_compute; reflexivity|].
  assert (TOTPCode ex_secret ex_now = Some (ex_code ex_now)) as H1 by (vm_compute; reflexivity).
  assert (TOTPCode ex_secret ex_later = Some (ex_code ex_later)) as H2 by (vm_compute; reflexivity).
  apply (session_strips_totp ex_handler "alice" ex_operator ex_secret (ex_code ex_now) (ex_code ex_later) ex_now ex_later ex_store).
  - reflexivity.
  - reflexivity.
  - discriminate.
  - exact H1.
  - reflexivity.
  - exact H2.
  - reflexivity.
Defined.
