(* ===== verification/HistoryFile.v ===== *)
(** * The history file of a node ([internal/controller/telemetry_history.go])

    A JSONL file as its bytes: the end of the last complete line, the newest suffix
    within a number of lines and of bytes, and the lines a scanner reads.  The source
    reads the file backwards in chunks; here the same bytes are visited one by one. *)

From stdpp Require Import base list.
From Stdlib Require Import ZArith Lia.
From S2P Require Import Prelude.

Local Open Scope Z_scope.

#[global] Abbreviation bytes := (list Z).
Definition newline : Z := 10.
Definition maxTelemetryHistoryLineBytes : Z := 2 ^ 20.

(** ** The end of the last complete line *)

(** The file backwards: how many bytes remain when the first newline shows up. *)
Fixpoint back_to_newline (rev_f : bytes) : nat :=
  match rev_f with
  | [] => 0
  | c :: r => if c =? newline then S (length r) else back_to_newline r
  end.

(** The end, and whether bytes follow it. *)
Definition historyCompleteEnd (f : bytes) : nat * bool :=
  match reverse f with
  | [] => (0%nat, false)
  | c :: r => if c =? newline then (length f, false) else (back_to_newline (c :: r), true)
  end.

(** ** The newest suffix *)

(** [rev_f] is the file backwards from [pos]; [st] is the start of the suffix, its number
    of lines and the end of the line in hand. *)
Record tail_state := mkTail { ts_start : nat; ts_lines : Z; ts_lineEnd : nat }.

Section Tail.
Context (maxLines maxBytes : Z) (size : nat).

Definition admit_line (lineStart : nat) (st : tail_state) : option tail_state :=
  if (maxLines <=? ts_lines st) || (maxBytes <? Z.of_nat (size - lineStart)) then None
  else Some (mkTail lineStart (ts_lines st + 1) (ts_lineEnd st)).

Fixpoint tail_scan (rev_f : bytes) (st : tail_state) : tail_state :=
  match rev_f with
  | [] => default st (admit_line 0 st)
  | c :: r =>
      let i := length r in
      if negb (c =? newline) then tail_scan r st
      else if Nat.ltb (ts_lineEnd st) (i + 1) then tail_scan r st
      else match admit_line (i + 1) st with
           | None => st
           | Some st' => tail_scan r (mkTail (ts_start st') (ts_lines st') i)
           end
  end.
End Tail.

(** Start and end of the suffix and its number of lines. *)
Definition historyTailBounds (maxLines maxBytes : Z) (f : bytes) : nat * nat * Z :=
  let size := length f in
  if Nat.eqb size 0 || (maxLines <=? 0) || (maxBytes <=? 0) then (size, size, 0)
  else
    let scanEnd := match reverse f with c :: _ => if c =? newline then (size - 1)%nat else size | [] => size end in
    if Nat.eqb scanEnd 0 then (size, size, 0)
    else let st := tail_scan maxLines maxBytes size (reverse (take scanEnd f)) (mkTail size 0 scanEnd) in
         (ts_start st, size, ts_lines st).

Definition section (f : bytes) (b e : nat) : bytes := take (e - b) (drop b f).

(** ** Reading lines *)

(** [bufio.ScanLines]: the lines without their end, a last line without one as well. *)
Definition drop_cr (line : bytes) : bytes := match reverse line with 13 :: r => reverse r | _ => line end.
Fixpoint split_lines (f acc : bytes) : list bytes :=
  match f with
  | [] => match acc with [] => [] | _ => [reverse acc] end
  | c :: r => if c =? newline then reverse acc :: split_lines r [] else split_lines r (c :: acc)
  end.
(** A line that does not fit the buffer is an error. *)
Definition scan_lines (f : bytes) : option (list bytes) :=
  let ls := split_lines f [] in
  if existsb (fun l => maxTelemetryHistoryLineBytes <=? Z.of_nat (length l)) ls then None else Some (map drop_cr ls).

Definition countHistoryLinesBounded (f : bytes) (limit : Z) : Z := if limit <=? 0 then 0 else (historyTailBounds limit (2 ^ 63 - 1) f).2.

(** ** Files of whole lines *)

Definition enc_line (l : bytes) : bytes := l ++ [newline].
Definition enc (ls : list bytes) : bytes := concat (enc_line <$> ls).
(** What the writer produces: JSON without a line break. *)
Definition is_line (l : bytes) : Prop := l <> [] /\ newline ∉ l.

Lemma enc_app a b : enc (a ++ b) = enc a ++ enc b.
Proof. unfold enc. by rewrite fmap_app, concat_app. Qed.
Lemma enc_snoc ls l : enc (ls ++ [l]) = enc ls ++ l ++ [newline].
Proof. rewrite enc_app. unfold enc at 2. cbn. by rewrite app_nil_r. Qed.
Lemma length_enc ls : length (enc ls) = sum_list ((fun l => S (length l)) <$> ls).
Proof. induction ls as [|l ls IH]; [done|]. unfold enc in *. cbn. rewrite length_app, IH. unfold enc_line. rewrite length_app. cbn. lia. Qed.

Lemma back_to_newline_line l r : newline ∉ l -> back_to_newline (l ++ newline :: r) = S (length r).
Proof.
  induction l as [|c l IH]; cbn [app back_to_newline]; [by rewrite Z.eqb_refl|]. intros Hn. destruct (Z.eqb_spec c newline) as [->|]; [by destruct Hn; left|]. apply IH. intros Hin. apply Hn. by right.
Qed.
Lemma back_to_newline_none l : newline ∉ l -> back_to_newline l = 0%nat.
Proof. induction l as [|c l IH]; cbn [back_to_newline]; [done|]. intros Hn. destruct (Z.eqb_spec c newline) as [->|]; [by destruct Hn; left|]. apply IH. intros Hin. apply Hn. by right. Qed.

(** The complete part of whole lines and a torn rest. *)
Lemma complete_end_torn ls rest : newline ∉ rest -> rest <> [] -> historyCompleteEnd (enc ls ++ rest) = (length (enc ls), true).
Proof.
  intros Hn Hr. unfold historyCompleteEnd. rewrite reverse_app. destruct (reverse rest) as [|c r] eqn:E; [by apply (f_equal reverse) in E; rewrite reverse_involutive in E|].
  assert (newline ∉ c :: r) as Hn' by (rewrite <- E, elem_of_reverse; done). cbn [app]. destruct (Z.eqb_spec c newline) as [->|Hc]; [by destruct Hn'; left|].
  destruct ls as [|l ls _] using rev_ind; [cbn; by rewrite app_nil_r, (proj2 (Z.eqb_neq c newline) Hc), back_to_newline_none by (intros ?; apply Hn'; by right)|].
  rewrite enc_snoc, app_assoc, reverse_app. cbn [reverse app rev_append]. change (c :: r ++ newline :: reverse (enc ls ++ l)) with ((c :: r) ++ newline :: reverse (enc ls ++ l)).
  rewrite back_to_newline_line by done. rewrite length_reverse, !length_app. cbn. f_equal. lia.
Qed.
Lemma complete_end_whole ls : historyCompleteEnd (enc ls) = (length (enc ls), false).
Proof.
  destruct ls as [|l ls _] using rev_ind; [done|]. unfold historyCompleteEnd. rewrite enc_snoc at 1. rewrite app_assoc, reverse_app. cbn [reverse app rev_append]. by rewrite Z.eqb_refl.
Qed.

(** How many of the lines, newest first, fit both limits. *)
Fixpoint fitting (maxLines maxBytes : Z) (rev_ls : list bytes) : nat :=
  match rev_ls with
  | [] => 0
  | l :: r => if (maxLines <=? 0) || (maxBytes <? Z.of_nat (S (length l))) then 0 else S (fitting (maxLines - 1) (maxBytes - Z.of_nat (S (length l))) r)
  end.
Definition newest (k : nat) {A} (xs : list A) : list A := drop (length xs - k) xs.

Lemma newest_snoc {A} k (xs : list A) x : newest (S k) (xs ++ [x]) = newest k xs ++ [x].
Proof. unfold newest. rewrite length_app, drop_app_le by (cbn; lia). f_equal. f_equal. cbn. lia. Qed.
Lemma newest_0 {A} (xs : list A) : newest 0 xs = [].
Proof. unfold newest. by rewrite Nat.sub_0_r, drop_all. Qed.
Lemma newest_all {A} k (xs : list A) : (length xs <= k)%nat -> newest k xs = xs.
Proof. intros Hk. unfold newest. by replace (length xs - k)%nat with 0%nat by lia. Qed.
Lemma newest_suffix {A} k (xs : list A) : newest k xs `suffix_of` xs.
Proof. apply suffix_drop. Qed.
Lemma length_newest {A} k (xs : list A) : length (newest k xs) = Nat.min k (length xs).
Proof. unfold newest. rewrite length_drop. lia. Qed.
Lemma newest_app {A} k (a b : list A) : newest k (a ++ b) = newest (k - length (newest k b)) a ++ newest k b.
Proof.
  unfold newest. rewrite length_app, length_drop. destruct (Nat.le_gt_cases k (length b)).
  - rewrite drop_app_ge by lia. replace (length a - (k - (length b - (length b - k))))%nat with (length a) by lia. rewrite drop_all. cbn. f_equal. lia.
  - rewrite drop_app_le by lia. replace (length b - k)%nat with 0%nat by lia. cbn [drop]. f_equal. f_equal. lia.
Qed.
Lemma newest_fmap {A B} (g : A -> B) k xs : newest k (g <$> xs) = g <$> newest k xs.
Proof. unfold newest. by rewrite length_fmap, fmap_drop. Qed.
Lemma fitting_length m b ls : (fitting m b ls <= length ls)%nat.
Proof. revert m b. induction ls as [|l ls IH]; intros m b; cbn [fitting length]; [done|]. destruct (_ || _); [lia|]. specialize (IH (m - 1) (b - Z.of_nat (S (length l)))). lia. Qed.
Lemma fitting_lines m b ls : Z.of_nat (fitting m b ls) <= Z.max 0 m.
Proof. revert m b. induction ls as [|l ls IH]; intros m b; cbn [fitting]; [lia|]. destruct (Z.leb_spec m 0); cbn [orb]; [lia|]. destruct (_ <? _); [lia|]. specialize (IH (m - 1) (b - Z.of_nat (S (length l)))). lia. Qed.

Lemma length_enc_cons l ls : length (enc (l :: ls)) = (S (length l) + length (enc ls))%nat.
Proof. rewrite !length_enc. done. Qed.
Lemma length_enc_snoc ls l : length (enc (ls ++ [l])) = (length (enc ls) + S (length l))%nat.
Proof. rewrite enc_snoc, !length_app. cbn. lia. Qed.

Lemma fitting_bytes m b ls : 0 <= b -> Z.of_nat (length (enc (newest (fitting m b (reverse ls)) ls))) <= b.
Proof.
  revert m b. induction ls as [|l ls IH] using rev_ind; intros m b Hb; [by cbn; lia|]. rewrite reverse_app. cbn [reverse rev_append app fitting].
  destruct (_ || _) eqn:E; [by rewrite newest_0; cbn; lia|]. apply orb_false_iff in E as [_ E%Z.ltb_ge]. rewrite newest_snoc, length_enc_snoc. specialize (IH (m - 1) (b - Z.of_nat (S (length l)))). lia.
Qed.

Section TailSpec.
Context (maxLines maxBytes : Z) (size : nat).

Lemma tail_scan_skip l r st : newline ∉ l -> tail_scan maxLines maxBytes size (reverse l ++ r) st = tail_scan maxLines maxBytes size r st.
Proof.
  induction l as [|c l IH] using rev_ind; [done|]. intros Hn. rewrite reverse_app. cbn [reverse rev_append app tail_scan].
  destruct (Z.eqb_spec c newline) as [->|_]; [by destruct Hn; apply elem_of_app; right; left|]. cbn [negb]. apply IH. intros Hin. apply Hn, elem_of_app. by left.
Qed.

Lemma tail_scan_spec ls l st :
  Forall is_line ls -> newline ∉ l -> (length (enc (ls ++ [l])) <= size)%nat -> ts_start st = length (enc (ls ++ [l])) -> (length (enc ls ++ l) <= ts_lineEnd st)%nat ->
  let k := fitting (maxLines - ts_lines st) (maxBytes - Z.of_nat (size - ts_start st)) (reverse (ls ++ [l])) in
  let st' := tail_scan maxLines maxBytes size (reverse (enc ls ++ l)) st in
  ts_start st' = length (enc (take (length (ls ++ [l]) - k) (ls ++ [l]))) /\ ts_lines st' = ts_lines st + Z.of_nat k.
Proof.
  revert l st. induction ls as [|x ls IH] using rev_ind; intros l st Hls Hl Hsz Hst Hle; cbn zeta.
  - change (enc [] ++ l) with l in *. change ([] ++ [l]) with [l] in *. assert (length (enc [l]) = S (length l)) as El by (rewrite length_enc_cons; cbn; lia). rewrite El in *.
    rewrite <- (app_nil_r (reverse l)), tail_scan_skip by done. change (reverse [l]) with [l]. cbn [tail_scan fitting length]. unfold admit_line. rewrite Hst, Nat.sub_0_r.
    destruct (Z.leb_spec maxLines (ts_lines st)), (Z.leb_spec (maxLines - ts_lines st) 0); cbn [orb]; try lia; [cbn [default Nat.sub take]; rewrite El; lia|].
    destruct (Z.ltb_spec maxBytes (Z.of_nat size)), (Z.ltb_spec (maxBytes - Z.of_nat (size - S (length l))) (Z.of_nat (S (length l)))); cbn [default Nat.sub take ts_start ts_lines]; rewrite ?El; try lia.
    unfold id. cbn [ts_start ts_lines]. split; [reflexivity|lia].
  - rewrite enc_snoc. rewrite <- app_assoc. replace (enc ls ++ (x ++ [newline]) ++ l) with ((enc ls ++ x) ++ [newline] ++ l) by (by rewrite <- !app_assoc).
    rewrite reverse_app, reverse_app. cbn [reverse rev_append app]. rewrite <- app_assoc, tail_scan_skip by done. cbn [app tail_scan]. rewrite Z.eqb_refl. cbn [negb]. rewrite length_reverse.
    assert ((length (enc ls ++ x) + 1)%nat = length (enc (ls ++ [x]))) as Hi by (rewrite length_enc_snoc, length_app; lia). rewrite Hi.
    rewrite length_app in Hle. destruct (Nat.ltb_spec (ts_lineEnd st) (length (enc (ls ++ [x])))) as [Hlt|_]; [lia|]. unfold admit_line.
    rewrite (reverse_app (ls ++ [x]) [l]). change (reverse [l]) with [l]. cbn [app fitting]. rewrite length_enc_snoc in Hsz, Hst. rewrite Hst.
    destruct (Z.leb_spec maxLines (ts_lines st)), (Z.leb_spec (maxLines - ts_lines st) 0); cbn [orb]; try lia.
    { rewrite Nat.sub_0_r, take_ge by done. split; [rewrite ?Hst, (length_enc_snoc (ls ++ [x]) l); lia|lia]. }
    destruct (Z.ltb_spec maxBytes (Z.of_nat (size - length (enc (ls ++ [x]))))), (Z.ltb_spec (maxBytes - Z.of_nat (size - (length (enc (ls ++ [x])) + S (length l)))) (Z.of_nat (S (length l)))); cbn [orb]; try lia.
    { rewrite Nat.sub_0_r, take_ge by done. split; [rewrite ?Hst, (length_enc_snoc (ls ++ [x]) l); lia|lia]. }
    apply Forall_app in Hls as [Hls [Hx _]%Forall_cons]. destruct Hx as [_ Hx].
    destruct (IH x (mkTail (length (enc (ls ++ [x]))) (ts_lines st + 1) (length (enc ls ++ x))) Hls Hx) as [IH1 IH2]; [lia|done|done|].
    cbn [ts_start ts_lines] in IH1, IH2 |- *. rewrite IH1, IH2.
    replace (maxLines - (ts_lines st + 1)) with (maxLines - ts_lines st - 1) by lia.
    replace (maxBytes - Z.of_nat (size - (length (enc (ls ++ [x])) + S (length l))) - Z.of_nat (S (length l))) with (maxBytes - Z.of_nat (size - length (enc (ls ++ [x])))) by lia.
    set (k := fitting _ _ (reverse (ls ++ [x]))). assert (k <= length (ls ++ [x]))%nat as Hk by (unfold k; rewrite <- (length_reverse (ls ++ [x])); apply fitting_length).
    split; [|lia]. replace (length ((ls ++ [x]) ++ [l]) - S k)%nat with (length (ls ++ [x]) - k)%nat by (rewrite (length_app (ls ++ [x]) [l]); cbn [length]; lia). rewrite (take_app_le (ls ++ [x])) by lia. done.
Qed.
End TailSpec.

(** The suffix the scan finds: the newest lines that fit both limits. *)
Definition kept_lines (maxLines maxBytes : Z) (ls : list bytes) : nat := if maxBytes <=? 0 then 0%nat else fitting maxLines maxBytes (reverse ls).

Lemma tail_bounds_whole maxLines maxBytes ls :
  Forall is_line ls ->
  let k := kept_lines maxLines maxBytes ls in
  historyTailBounds maxLines maxBytes (enc ls) = (length (enc (take (length ls - k) ls)), length (enc ls), Z.of_nat k) /\ (k <= length ls)%nat.
Proof.
  intros Hls k. assert (k <= length ls)%nat as Hk by (unfold k, kept_lines; destruct (_ <=? _); [lia|]; rewrite <- (length_reverse ls); apply fitting_length). split; [|done].
  unfold historyTailBounds. destruct ls as [|l ls _] using rev_ind; [unfold k, kept_lines; change (reverse (@nil bytes)) with (@nil bytes); cbn [fitting length take Nat.sub]; destruct (maxBytes <=? 0); reflexivity|].
  destruct (Nat.eqb_spec (length (enc (ls ++ [l]))) 0) as [E|_]; [rewrite length_enc_snoc in E; lia|]. cbn [orb]. apply Forall_app in Hls as [Hls [[Hl0 Hl] _]%Forall_cons].
  unfold k, kept_lines in *. clear k. destruct (Z.leb_spec maxLines 0) as [Hm|Hm]; cbn [orb].
  { assert (fitting maxLines maxBytes (reverse (ls ++ [l])) = 0%nat) as -> by (rewrite reverse_app; cbn; by rewrite (proj2 (Z.leb_le maxLines 0))). destruct (maxBytes <=? 0); by rewrite Nat.sub_0_r, take_ge by done. }
  destruct (Z.leb_spec maxBytes 0) as [Hb|Hb]; [by rewrite Nat.sub_0_r, take_ge by done|].
  assert (exists r, reverse (enc (ls ++ [l])) = newline :: r) as [r ->] by (rewrite enc_snoc, app_assoc, reverse_app; by eexists). rewrite Z.eqb_refl.
  replace (length (enc (ls ++ [l])) - 1)%nat with (length (enc ls ++ l)) by (rewrite length_enc_snoc, length_app; lia). cbv zeta.
  destruct (Nat.eqb_spec (length (enc ls ++ l)) 0) as [E|_]; [rewrite length_app in E; by destruct l; [|cbn in E; lia]|].
  replace (take (length (enc ls ++ l)) (enc (ls ++ [l]))) with (enc ls ++ l) by (by rewrite enc_snoc, app_assoc, take_app_length).
  destruct (tail_scan_spec maxLines maxBytes (length (enc (ls ++ [l]))) ls l (mkTail (length (enc (ls ++ [l]))) 0 (length (enc ls ++ l)))) as [E1 E2]; [done..|].
  cbn [ts_start ts_lines] in E1, E2. rewrite E1, E2, Nat.sub_diag, !Z.sub_0_r. done.
Qed.

Lemma section_tail ls k : (k <= length ls)%nat -> section (enc ls) (length (enc (take (length ls - k) ls))) (length (enc ls)) = enc (newest k ls).
Proof.
  intros Hk. unfold section, newest. set (n := (length ls - k)%nat). assert (enc ls = enc (take n ls) ++ enc (drop n ls)) as -> by (by rewrite <- enc_app, take_drop).
  rewrite drop_app_length. apply take_ge. rewrite length_app. lia.
Qed.

(** A torn rest counts as a line of its own. *)
Lemma tail_bounds_torn maxLines maxBytes ls rest :
  Forall is_line ls -> newline ∉ rest -> rest <> [] -> 0 < maxLines -> Z.of_nat (length rest) <= maxBytes -> 0 < maxBytes ->
  let k := fitting (maxLines - 1) (maxBytes - Z.of_nat (length rest)) (reverse ls) in
  historyTailBounds maxLines maxBytes (enc ls ++ rest) = (length (enc (take (length ls - k) ls)), length (enc ls ++ rest), Z.of_nat k + 1).
Proof.
  intros Hls Hn Hr Hm Hfit Hb k. unfold historyTailBounds. destruct (Nat.eqb_spec (length (enc ls ++ rest)) 0) as [E|_]; [rewrite length_app in E; destruct rest; [done|cbn in E; lia]|].
  cbn [orb]. destruct (Z.leb_spec maxLines 0); [lia|]. destruct (Z.leb_spec maxBytes 0); [lia|]. cbn [orb].
  assert (exists c r, reverse (enc ls ++ rest) = c :: r /\ c <> newline) as (c & r & -> & Hc).
  { rewrite reverse_app. destruct (reverse rest) as [|c r] eqn:E; [by apply (f_equal reverse) in E; rewrite reverse_involutive in E|]. exists c. eexists. split; [reflexivity|].
    intros ->. apply Hn. rewrite <- elem_of_reverse, E. by left. }
  rewrite (proj2 (Z.eqb_neq c newline) Hc). destruct (Nat.eqb_spec (length (enc ls ++ rest)) 0) as [E|_]; [rewrite length_app in E; destruct rest; [done|cbn in E; lia]|]. cbv zeta.
  rewrite take_ge by done. rewrite reverse_app, tail_scan_skip by done. set (size := length (enc ls ++ rest)).
  assert (size = (length (enc ls) + length rest)%nat) as Hsz by (unfold size; by rewrite length_app).
  destruct ls as [|x ls _] using rev_ind.
  - assert (size = length rest) as Hsz' by (rewrite Hsz; reflexivity). change (reverse (enc [])) with (@nil Z). cbn [tail_scan]. unfold admit_line. cbn [ts_lines ts_lineEnd]. rewrite Nat.sub_0_r.
    destruct (Z.leb_spec maxLines 0); [lia|]. destruct (Z.ltb_spec maxBytes (Z.of_nat size)); [lia|]. reflexivity.
  - apply Forall_app in Hls as [Hls [Hx _]%Forall_cons]. rewrite enc_snoc, app_assoc, reverse_app. change (reverse [newline] ++ reverse (enc ls ++ x)) with (newline :: reverse (enc ls ++ x)).
    cbn [tail_scan]. rewrite Z.eqb_refl, length_reverse. cbn [negb ts_lineEnd]. assert ((length (enc ls ++ x) + 1)%nat = length (enc (ls ++ [x]))) as Hi by (rewrite length_enc_snoc, length_app; lia).
    rewrite Hi. destruct (Nat.ltb_spec size (length (enc (ls ++ [x])))); [lia|]. unfold admit_line. cbn [ts_lines ts_lineEnd].
    destruct (Z.leb_spec maxLines 0); [lia|]. cbn [orb]. destruct (Z.ltb_spec maxBytes (Z.of_nat (size - length (enc (ls ++ [x]))))); [lia|]. cbn [ts_start ts_lines].
    destruct Hx as [_ Hx]. destruct (tail_scan_spec maxLines maxBytes size ls x (mkTail (length (enc (ls ++ [x]))) (0 + 1) (length (enc ls ++ x)))) as [E1 E2]; [done|done|lia|done|done|].
    cbn [ts_start ts_lines] in E1, E2. rewrite E1, E2. replace (maxLines - (0 + 1)) with (maxLines - 1) by lia. replace (maxBytes - Z.of_nat (size - length (enc (ls ++ [x])))) with (maxBytes - Z.of_nat (length rest)) by lia.
    fold k. f_equal. lia.
Qed.

Lemma split_lines_app l acc r : newline ∉ l -> split_lines (l ++ newline :: r) acc = (reverse acc ++ l) :: split_lines r [].
Proof.
  revert acc. induction l as [|c l IH]; intros acc Hn; cbn [app split_lines]; [by rewrite Z.eqb_refl, app_nil_r|]. destruct (Z.eqb_spec c newline) as [->|]; [by destruct Hn; left|].
  rewrite IH by (intros ?; apply Hn; by right). rewrite reverse_cons, <- app_assoc. done.
Qed.
Lemma split_lines_enc ls rest : Forall is_line ls -> split_lines (enc ls ++ rest) [] = ls ++ split_lines rest [].
Proof.
  induction 1 as [|l ls [_ Hl] _ IH]; [done|]. change (enc (l :: ls)) with ((l ++ [newline]) ++ enc ls). rewrite <- !app_assoc. cbn [app]. rewrite split_lines_app by done. cbn [reverse rev_append app]. by rewrite IH.
Qed.
Lemma split_lines_rest rest : newline ∉ rest -> split_lines rest [] = match rest with [] => [] | _ => [rest] end.
Proof.
  intros Hn. assert (forall acc, split_lines rest acc = match reverse acc ++ rest with [] => [] | x => [x] end) as Hg; [|rewrite Hg; by destruct rest].
  induction rest as [|c r IH]; intros acc; cbn [split_lines]; [rewrite app_nil_r; destruct acc as [|a acc]; [done|]; rewrite reverse_cons; by destruct (reverse acc)|].
  destruct (Z.eqb_spec c newline) as [->|]; [by destruct Hn; left|]. rewrite IH by (intros ?; apply Hn; by right). by rewrite reverse_cons, <- app_assoc.
Qed.
