(* ===== verification/History.v ===== *)
(** * Telemetry history ([internal/controller/telemetry_history.go])

    The bounded history of one node: the records of its heartbeats in memory, the batch a
    flush has taken out of them, and the JSONL file.  Nodes share nothing but the record
    cap of their tenant.  Heartbeats, settings changes, queries and the flusher run
    concurrently; each critical section of the mutex and each operation on the file is one
    step of [step], in any order the code allows.

    A [float64] is its bits.  [HistoryCodec] stands for [encoding/json] on the record types
    and for the validation of stored samples in [internal/probemetric] and
    [internal/devicemetric]. *)

From stdpp Require Import base gmap strings list sorting.
From Stdlib Require Import ZArith Lia.
From S2P Require Import Prelude GoLib HistoryFile.

Local Open Scope Z_scope.

(** ** Constants *)

Definition DefaultTelemetryHistoryCap : Z := 20160.
Definition historyCompactSlack : Z := 2.
Definition MaxTelemetryHistoryFileBytes : Z := 128 * 2 ^ 20.
Definition historyCompactTargetBytes : Z := 96 * 2 ^ 20.
Definition maxFileTelemetryHistoryVolatileBytes : Z := 8 * 2 ^ 20.
Definition maxMemTelemetryHistoryVolatileBytes : Z := MaxTelemetryHistoryFileBytes.
Definition int64Max : Z := 2 ^ 63 - 1.
Definition MaxRecentSamples : nat := 64.
Definition MaxProbes : nat := 16.
Definition maxProbeHistoryAttemptsPerRecord : nat := MaxRecentSamples + MaxProbes.
Definition maxProbeHistoryRecentKeys : nat := MaxRecentSamples * 2.
Definition maxDeviceHistoryRecentKeys : nat := (64 + 16) * 32.

(** ** Records *)

#[local] Abbreviation float64 := Z.

Record ResourceSample := mkResourceSample {
  RS_TS : Z; RS_IntervalMS : Z; RS_CpuPct : option float64; RS_Load1 : float64; RS_Load5 : float64; RS_Load15 : float64; RS_MemTotalKB : Z; RS_MemAvailKB : Z }.
Record ProbeHistorySample := mkProbeHistorySample {
  PS_SeriesID : string; PS_ID : string; PS_Type : string; PS_Host : string; PS_Port : Z; PS_URL : string; PS_ExpectedStatus : Z; PS_Status : string;
  PS_LatencyMS : option float64; PS_CheckedAt : Z; PS_FailureReason : string; PS_IntervalMS : Z }.
Record DeviceHistorySample := mkDeviceHistorySample {
  DS_SeriesID : string; DS_DeviceID : string; DS_Kind : string; DS_TS : Z; DS_Values : gmap string float64 }.
Record telemetryHistoryRecord := mkHistoryRecord {
  HR_Resource : option ResourceSample; HR_RecordedAt : Z; HR_ProbeAttempts : list ProbeHistorySample; HR_DeviceSamples : list DeviceHistorySample; HR_encodedBytes : Z }.
Record telemetryHistoryFilter := mkHistoryFilter { HF_allProbes : bool; HF_probeSeriesID : string; HF_deviceSeriesID : string }.
Record TelemetryHistorySnapshot := mkHistorySnapshot { SN_Resources : list ResourceSample; SN_Probes : list ProbeHistorySample; SN_Devices : list DeviceHistorySample }.

#[export] Instance ResourceSample_eq_dec : EqDecision ResourceSample.
Proof. solve_decision. Defined.

(** The flat JSON object; a device row decodes to the series it names and to a sample. *)
Record telemetryHistoryRecordJSON := mkRecordJSON {
  WR_TS : option Z; WR_IntervalMS : Z; WR_CpuPct : option float64; WR_Load1 : float64; WR_Load5 : float64; WR_Load15 : float64; WR_MemTotalKB : Z; WR_MemAvailKB : Z;
  WR_RecordedAt : option Z; WR_ProbeAttempts : list ProbeHistorySample; WR_DeviceSamples : list DeviceHistorySample }.
Record telemetryHistoryRecordScanJSON := mkScanJSON {
  SC_TS : option Z; SC_IntervalMS : Z; SC_CpuPct : option float64; SC_Load1 : float64; SC_Load5 : float64; SC_Load15 : float64; SC_MemTotalKB : Z; SC_MemAvailKB : Z;
  SC_RecordedAt : option Z; SC_ProbeAttempts : list ProbeHistorySample; SC_DeviceRows : list (option string * option DeviceHistorySample) }.

Class HistoryCodec := {
  marshal_wire : telemetryHistoryRecordJSON -> option bytes;
  unmarshal_scan : bytes -> option telemetryHistoryRecordScanJSON;
  validStoredProbeHistorySample : ProbeHistorySample -> bool;
  validStoredDeviceHistorySample : DeviceHistorySample -> bool }.

(** [time.Time{}] *)
Definition zero_time : Z := - 62135596800 * 1000000000.

Definition to_wire (r : telemetryHistoryRecord) : telemetryHistoryRecordJSON :=
  match HR_Resource r with
  | Some s => mkRecordJSON (Some (RS_TS s)) (RS_IntervalMS s) (RS_CpuPct s) (RS_Load1 s) (RS_Load5 s) (RS_Load15 s) (RS_MemTotalKB s) (RS_MemAvailKB s) None (HR_ProbeAttempts r) (HR_DeviceSamples r)
  | None => mkRecordJSON None 0 None 0 0 0 0 0 (if HR_RecordedAt r =? zero_time then None else Some (HR_RecordedAt r)) (HR_ProbeAttempts r) (HR_DeviceSamples r)
  end.
Definition marshal_record `{HistoryCodec} (r : telemetryHistoryRecord) : option bytes := marshal_wire (to_wire r).

(** ** Windows, filters and duplicates *)

Definition inWindow (ts from to : Z) : bool := negb (ts <? from) && negb (to <? ts).

Definition historyRecordInWindow (r : telemetryHistoryRecord) (from to : Z) : bool :=
  match HR_Resource r with Some s => inWindow (RS_TS s) from to | None => false end
  || existsb (fun p => inWindow (PS_CheckedAt p) from to) (HR_ProbeAttempts r) || existsb (fun d => inWindow (DS_TS d) from to) (HR_DeviceSamples r).

Definition filterTelemetryHistoryRecord (r : telemetryHistoryRecord) (f : telemetryHistoryFilter) : telemetryHistoryRecord :=
  mkHistoryRecord (HR_Resource r) (HR_RecordedAt r)
    (if HF_allProbes f then HR_ProbeAttempts r
     else if String.eqb (HF_probeSeriesID f) "" then [] else List.filter (fun p => String.eqb (PS_SeriesID p) (HF_probeSeriesID f)) (HR_ProbeAttempts r))
    (if String.eqb (HF_deviceSeriesID f) "" then [] else List.filter (fun d => String.eqb (DS_SeriesID d) (HF_deviceSeriesID f)) (HR_DeviceSamples r))
    (HR_encodedBytes r).

Definition probeHistoryIdentity : Type := string * string * string * Z * string * Z * Z.
Definition probeHistorySampleIdentity (s : ProbeHistorySample) : probeHistoryIdentity :=
  (PS_ID s, PS_Type s, PS_Host s, PS_Port s, PS_URL s, PS_ExpectedStatus s, PS_CheckedAt s).
Definition deviceHistoryIdentity : Type := string * Z.

(** [sort.SliceStable] by time and series. *)
Definition probe_le (a b : ProbeHistorySample) : Prop :=
  PS_CheckedAt a < PS_CheckedAt b \/ PS_CheckedAt a = PS_CheckedAt b /\ String.le (PS_SeriesID a) (PS_SeriesID b).
#[export] Instance probe_le_dec : RelDecision probe_le.
Proof. intros a b. unfold probe_le. apply _. Defined.

Definition set_interval (ms : Z) (s : ProbeHistorySample) : ProbeHistorySample :=
  mkProbeHistorySample (PS_SeriesID s) (PS_ID s) (PS_Type s) (PS_Host s) (PS_Port s) (PS_URL s) (PS_ExpectedStatus s) (PS_Status s) (PS_LatencyMS s) (PS_CheckedAt s) (PS_FailureReason s) ms.

(** A later duplicate may only fill a missing cadence. *)
Fixpoint absorb (s : ProbeHistorySample) (out : list ProbeHistorySample) : list ProbeHistorySample :=
  match out with
  | [] => [s]
  | x :: rest =>
      if decide (probeHistorySampleIdentity x = probeHistorySampleIdentity s)
      then (if (PS_IntervalMS x =? 0) && (0 <? PS_IntervalMS s) then set_interval (PS_IntervalMS s) x else x) :: rest
      else x :: absorb s rest
  end.
Definition dedupeProbeHistorySamples (samples : list ProbeHistorySample) : list ProbeHistorySample :=
  foldl (fun out s => absorb s out) [] (merge_sort probe_le samples).

Definition resource_le (a b : ResourceSample) : Prop := RS_TS a <= RS_TS b.
#[export] Instance resource_le_dec : RelDecision resource_le.
Proof. intros a b. unfold resource_le. apply _. Defined.

(** Exact duplicates of an instant: a sample is its instant and its values. *)
Fixpoint drop_repeated (seen : list ResourceSample) (samples : list ResourceSample) : list ResourceSample :=
  match samples with
  | [] => []
  | s :: rest =>
      let seen := if match seen with x :: _ => RS_TS x =? RS_TS s | [] => false end then seen else [] in
      if decide (s ∈ seen) then drop_repeated seen rest else s :: drop_repeated (s :: seen) rest
  end.
Definition sortAndDedupeResourceSamples (samples : list ResourceSample) : list ResourceSample := drop_repeated [] (merge_sort resource_le samples).

Definition device_le (a b : DeviceHistorySample) : Prop := DS_TS a < DS_TS b \/ DS_TS a = DS_TS b /\ String.le (DS_SeriesID a) (DS_SeriesID b).
#[export] Instance device_le_dec : RelDecision device_le.
Proof. intros a b. unfold device_le. apply _. Defined.

Definition same_reading (a b : DeviceHistorySample) : bool := String.eqb (DS_SeriesID a) (DS_SeriesID b) && bool_decide (DS_Values a = DS_Values b).
Fixpoint drop_repeated_devices (seen : list DeviceHistorySample) (samples : list DeviceHistorySample) : list DeviceHistorySample :=
  match samples with
  | [] => []
  | s :: rest =>
      let seen := if match seen with x :: _ => DS_TS x =? DS_TS s | [] => false end then seen else [] in
      if existsb (fun x => same_reading x s) seen then drop_repeated_devices seen rest else s :: drop_repeated_devices (s :: seen) rest
  end.
Definition sortAndDedupeDeviceHistorySamples (samples : list DeviceHistorySample) : list DeviceHistorySample := drop_repeated_devices [] (merge_sort device_le samples).

Definition snapshot_of (records : list telemetryHistoryRecord) (from to : Z) : TelemetryHistorySnapshot :=
  mkHistorySnapshot
    (sortAndDedupeResourceSamples (List.filter (fun s => inWindow (RS_TS s) from to) (omap HR_Resource records)))
    (dedupeProbeHistorySamples (List.filter (fun p => inWindow (PS_CheckedAt p) from to) (records ≫= HR_ProbeAttempts)))
    (sortAndDedupeDeviceHistorySamples (List.filter (fun d => inWindow (DS_TS d) from to) (records ≫= HR_DeviceSamples))).

(** The newest entries when there are too many. *)
Definition keep_newest {A} (n : nat) (xs : list A) : list A := drop (length xs - n) xs.

Section Decode.
Context `{HistoryCodec}.

(** The first row of the series. *)
Definition selected_device (f : telemetryHistoryFilter) (rows : list (option string * option DeviceHistorySample)) : list DeviceHistorySample :=
  match List.find (fun row : option string * option DeviceHistorySample => bool_decide (row.1 = Some (HF_deviceSeriesID f))) rows with
  | Some (_, Some d) => if validStoredDeviceHistorySample d then [d] else []
  | _ => []
  end.

Definition decodeTelemetryHistoryRecordForFilter (data : bytes) (f : telemetryHistoryFilter) : option telemetryHistoryRecord :=
  match unmarshal_scan data with
  | None => None
  | Some w =>
      let resource := match SC_TS w with
                      | Some ts => if ts =? zero_time then None
                                   else Some (mkResourceSample ts (SC_IntervalMS w) (SC_CpuPct w) (SC_Load1 w) (SC_Load5 w) (SC_Load15 w) (SC_MemTotalKB w) (SC_MemAvailKB w))
                      | None => None
                      end in
      let at_ := match resource with Some s => RS_TS s | None => default zero_time (SC_RecordedAt w) end in
      let probes := List.filter validStoredProbeHistorySample (SC_ProbeAttempts w) in
      let probes := if Nat.ltb 1 (length probes) then dedupeProbeHistorySamples probes else probes in
      let devices := if String.eqb (HF_deviceSeriesID f) "" then [] else selected_device f (SC_DeviceRows w) in
      Some (filterTelemetryHistoryRecord (mkHistoryRecord resource at_ (keep_newest maxProbeHistoryAttemptsPerRecord probes) devices 0) f)
  end.
End Decode.

(** ** The records in memory *)

Record nodeHist := mkNodeHist {
  nh_buf : list telemetryHistoryRecord; nh_bufBytes : Z;
  nh_inflight : list telemetryHistoryRecord; nh_inflightBytes : Z; nh_inflightOnDisk : bool;
  nh_flushEpoch : Z; nh_fileLines : Z;
  nh_recentProbeKeys : gset probeHistoryIdentity; nh_recentProbeOrder : list probeHistoryIdentity;
  nh_recentDeviceKeys : gset deviceHistoryIdentity; nh_recentDeviceOrder : list deviceHistoryIdentity }.

(** [entryLocked] of a node that is not there. *)
Definition newNodeHist : nodeHist := mkNodeHist [] 0 [] 0 false 0 (-1) ∅ [] ∅ [].

Definition set_buf (buf : list telemetryHistoryRecord) (n : Z) (e : nodeHist) : nodeHist :=
  mkNodeHist buf n (nh_inflight e) (nh_inflightBytes e) (nh_inflightOnDisk e) (nh_flushEpoch e) (nh_fileLines e) (nh_recentProbeKeys e) (nh_recentProbeOrder e) (nh_recentDeviceKeys e) (nh_recentDeviceOrder e).
Definition set_inflight (batch : list telemetryHistoryRecord) (n : Z) (onDisk : bool) (e : nodeHist) : nodeHist :=
  mkNodeHist (nh_buf e) (nh_bufBytes e) batch n onDisk (nh_flushEpoch e) (nh_fileLines e) (nh_recentProbeKeys e) (nh_recentProbeOrder e) (nh_recentDeviceKeys e) (nh_recentDeviceOrder e).
Definition bump_epoch (e : nodeHist) : nodeHist :=
  mkNodeHist (nh_buf e) (nh_bufBytes e) (nh_inflight e) (nh_inflightBytes e) (nh_inflightOnDisk e) ((nh_flushEpoch e + 1) mod 2 ^ 64) (nh_fileLines e) (nh_recentProbeKeys e) (nh_recentProbeOrder e) (nh_recentDeviceKeys e) (nh_recentDeviceOrder e).
Definition set_fileLines (n : Z) (e : nodeHist) : nodeHist :=
  mkNodeHist (nh_buf e) (nh_bufBytes e) (nh_inflight e) (nh_inflightBytes e) (nh_inflightOnDisk e) (nh_flushEpoch e) n (nh_recentProbeKeys e) (nh_recentProbeOrder e) (nh_recentDeviceKeys e) (nh_recentDeviceOrder e).
Definition set_probeKeys (keys : gset probeHistoryIdentity) (order : list probeHistoryIdentity) (e : nodeHist) : nodeHist :=
  mkNodeHist (nh_buf e) (nh_bufBytes e) (nh_inflight e) (nh_inflightBytes e) (nh_inflightOnDisk e) (nh_flushEpoch e) (nh_fileLines e) keys order (nh_recentDeviceKeys e) (nh_recentDeviceOrder e).
Definition set_deviceKeys (keys : gset deviceHistoryIdentity) (order : list deviceHistoryIdentity) (e : nodeHist) : nodeHist :=
  mkNodeHist (nh_buf e) (nh_bufBytes e) (nh_inflight e) (nh_inflightBytes e) (nh_inflightOnDisk e) (nh_flushEpoch e) (nh_fileLines e) (nh_recentProbeKeys e) (nh_recentProbeOrder e) keys order.

(** The oldest records go while there are too many of them or too many bytes. *)
Fixpoint drop_oldest (cap byteLimit : Z) (buf : list telemetryHistoryRecord) (n : Z) : list telemetryHistoryRecord * Z :=
  match buf with
  | [] => ([], n)
  | r :: rest => if (cap <? Z.of_nat (length buf)) || (byteLimit <? n) then drop_oldest cap byteLimit rest (n - HR_encodedBytes r) else (buf, n)
  end.
Definition trimTelemetryHistoryBuffer (cap byteLimit : Z) (e : nodeHist) : nodeHist :=
  let '(buf, n) := drop_oldest cap (Z.max 0 byteLimit) (nh_buf e) (nh_bufBytes e) in
  if Nat.eqb (length buf) (length (nh_buf e)) then e else set_buf buf (if Nat.eqb (length buf) 0 then 0 else n) e.

(** The attempts not seen among the last ones; each new one may push out the oldest. *)
Definition new_attempt (st : nodeHist * list ProbeHistorySample) (s : ProbeHistorySample) : nodeHist * list ProbeHistorySample :=
  let '(e, out) := st in
  let key := probeHistorySampleIdentity s in
  if decide (key ∈ nh_recentProbeKeys e) then st
  else
    let keys := {[ key ]} ∪ nh_recentProbeKeys e in
    let order := nh_recentProbeOrder e ++ [key] in
    let e' := match order with
              | oldest :: rest => if Nat.ltb maxProbeHistoryRecentKeys (length order) then set_probeKeys (keys ∖ {[ oldest ]}) rest e else set_probeKeys keys order e
              | [] => e
              end in
    (e', out ++ [s]).
Definition filterNewProbeAttempts (samples : list ProbeHistorySample) (e : nodeHist) : nodeHist * list ProbeHistorySample := foldl new_attempt (e, []) samples.

Definition new_reading (st : nodeHist * list DeviceHistorySample) (s : DeviceHistorySample) : nodeHist * list DeviceHistorySample :=
  let '(e, out) := st in
  let key := (DS_SeriesID s, DS_TS s) in
  if decide (key ∈ nh_recentDeviceKeys e) then st
  else (set_deviceKeys ({[ key ]} ∪ nh_recentDeviceKeys e) (nh_recentDeviceOrder e ++ [key]) e, out ++ [s]).
Definition forget_devices (e : nodeHist) : nodeHist :=
  let over := (length (nh_recentDeviceOrder e) - maxDeviceHistoryRecentKeys)%nat in
  set_deviceKeys (nh_recentDeviceKeys e ∖ list_to_set (take over (nh_recentDeviceOrder e))) (drop over (nh_recentDeviceOrder e)) e.
Definition filterNewDeviceSamples (samples : list DeviceHistorySample) (e : nodeHist) : nodeHist * list DeviceHistorySample :=
  match samples with [] => (e, []) | _ => let '(e, out) := foldl new_reading (e, []) samples in (forget_devices e, out) end.

Definition is_empty_record (r : telemetryHistoryRecord) : bool :=
  match HR_Resource r, HR_ProbeAttempts r, HR_DeviceSamples r with None, [], [] => true | _, _, _ => false end.

(** ** The store of one node *)

Record telemetryHistory := mkTelemetryHistory { th_dir : bool; th_defaultCap : Z; th_maxFileBytes : Z; th_compactTargetBytes : Z }.
Definition newTelemetryHistory (dir : bool) (defaultCap : Z) : telemetryHistory := mkTelemetryHistory dir defaultCap MaxTelemetryHistoryFileBytes historyCompactTargetBytes.

Section Store.
Context `{HistoryCodec} (h : telemetryHistory).

Definition fileByteLimit : Z := if th_maxFileBytes h <=? 0 then MaxTelemetryHistoryFileBytes else th_maxFileBytes h.
Definition compactByteLimit : Z :=
  let target := th_compactTargetBytes h in if (target <=? 0) || (fileByteLimit <? target) then fileByteLimit else target.
Definition volatileByteLimit : Z := if th_dir h then maxFileTelemetryHistoryVolatileBytes else maxMemTelemetryHistoryVolatileBytes.
Definition capFor (cap : option Z) : Z := default (th_defaultCap h) cap.

Definition telemetryHistoryRecordEncodedBytes (r : telemetryHistoryRecord) : option Z := (fun d => Z.of_nat (length d) + 1) <$> marshal_record r.

Definition set_samples (probes : list ProbeHistorySample) (devices : list DeviceHistorySample) (n : Z) (r : telemetryHistoryRecord) : telemetryHistoryRecord :=
  mkHistoryRecord (HR_Resource r) (HR_RecordedAt r) probes devices n.

(** What a heartbeat adds, if it adds a record. *)
Definition admitted_record (record : telemetryHistoryRecord) (e : nodeHist) : nodeHist * option telemetryHistoryRecord :=
  let '(e1, probes) := filterNewProbeAttempts (HR_ProbeAttempts record) e in
  let '(e2, devices) := filterNewDeviceSamples (HR_DeviceSamples record) e1 in
  let record := set_samples probes devices 0 record in
  if is_empty_record record then (e2, None)
  else match telemetryHistoryRecordEncodedBytes record with
       | Some n => (e2, if maxTelemetryHistoryLineBytes <? n then None else Some (set_samples probes devices n record))
       | None => (e2, None)
       end.

Definition appendRecord (cap : Z) (record : telemetryHistoryRecord) (e : nodeHist) : nodeHist :=
  if is_empty_record record || (cap <=? 0) then e
  else match admitted_record record e with
       | (e2, None) => e2
       | (e2, Some r) =>
           trimTelemetryHistoryBuffer cap (volatileByteLimit - nh_inflightBytes e2) (set_buf (nh_buf e2 ++ [r]) (nh_bufBytes e2 + HR_encodedBytes r) e2)
       end.

Definition apply_cap (cap : Z) (e : nodeHist) : nodeHist := trimTelemetryHistoryBuffer cap (volatileByteLimit - nh_inflightBytes (bump_epoch e)) (bump_epoch e).

(** ** Flushing *)

Definition drain (e : nodeHist) : nodeHist := set_buf [] 0 (bump_epoch (set_inflight (nh_buf e) (nh_bufBytes e) false e)).
Definition clearInflight (e : nodeHist) : nodeHist := bump_epoch (set_inflight [] 0 false e).
Definition requeueInflight (cap : Z) (e : nodeHist) : nodeHist :=
  trimTelemetryHistoryBuffer cap volatileByteLimit
    (set_buf (nh_inflight e ++ nh_buf e) (nh_inflightBytes e + nh_bufBytes e) (bump_epoch (set_inflight [] 0 false e))).
Definition markInflightOnDisk (e : nodeHist) : nodeHist :=
  match nh_inflight e with [] => e | _ => bump_epoch (set_inflight (nh_inflight e) (nh_inflightBytes e) true e) end.

(** The newest records of a batch that fit the cap and the file, and their bytes. *)
Fixpoint drop_to_fit (maxBytes : Z) (samples : list (telemetryHistoryRecord * Z)) (total : Z) : option (list telemetryHistoryRecord * Z) :=
  match samples with
  | [] => None
  | (_, n) :: rest => if maxBytes <? total then drop_to_fit maxBytes rest (total - n) else Some (samples.*1, total)
  end.
Definition prepareTelemetryHistoryBatch (samples : list telemetryHistoryRecord) (cap maxBytes : Z) : option (list telemetryHistoryRecord * Z) :=
  if (cap <=? 0) || Nat.eqb (length samples) 0 then Some ([], 0)
  else
    let recent := keep_newest (Z.to_nat cap) samples in
    sized ← mapM (fun r => n ← telemetryHistoryRecordEncodedBytes r; if maxTelemetryHistoryLineBytes <? n then None else Some (r, n)) recent;
    drop_to_fit maxBytes sized (foldr Z.add 0 (sized.*2)).

(** The bytes the records are written as. *)
Definition line_of (r : telemetryHistoryRecord) : bytes := default [] (marshal_record r).
Definition batch_bytes (samples : list telemetryHistoryRecord) : bytes := enc (line_of <$> samples).

(** [compactJSONLContext]: the file it installs and the lines it keeps. *)
Definition compactJSONL (cap maxBytes : Z) (f : bytes) : bytes * Z :=
  let '(start, end_, kept) := historyTailBounds cap maxBytes f in (section f start end_, kept).
Definition rewriteHistoryWithBatch (f : bytes) (samples : list telemetryHistoryRecord) (cap targetBytes batchBytes : Z) : bytes * bytes * Z :=
  let targetBytes := Z.max targetBytes batchBytes in
  let oldLineLimit := Z.max 0 (cap - Z.of_nat (length samples)) in
  let '(start, end_, oldKept) := historyTailBounds oldLineLimit (targetBytes - batchBytes) f in
  (section f start end_, batch_bytes samples, oldKept + Z.of_nat (length samples)).

(** A file within its limits is left alone; else the file and its lines. *)
Definition maintainHistoryFile (cap : Z) (f : bytes) : option (bytes * Z) :=
  let lines := if 0 <? cap then (historyTailBounds (cap + 1) int64Max f).2 else 0 in
  if (Z.of_nat (length f) <=? fileByteLimit) && (0 <? cap) && (lines <=? cap) then None else Some (compactJSONL cap compactByteLimit f).

(** Whether the file is compacted after an append, with what the count and the size of
    the file came to, if they could be read. *)
Definition needs_compaction (cap : Z) (known : option Z) (size : option Z) : bool :=
  match known with None => true | Some n => cap * historyCompactSlack <? n end || match size with None => true | Some n => fileByteLimit <? n end.
End Store.

(** ** Queries *)

Section Query.
Context `{HistoryCodec} (h : telemetryHistory).

(** The newest records in memory; a batch on disk is read from there. *)
Definition volatile_records (cap : Z) (e : nodeHist) : list telemetryHistoryRecord :=
  let inflight := if nh_inflightOnDisk e then [] else nh_inflight e in
  let count := (length (nh_buf e) + length inflight)%nat in
  let skip := (count - Z.to_nat (Z.min cap (Z.of_nat count)))%nat in
  if Nat.ltb skip (length inflight) then drop skip inflight ++ nh_buf e
  else drop (skip - length inflight) (nh_buf e).

Definition readHistoryJSONLTail (f : option bytes) (from to maxRecords maxBytes : Z) (flt : telemetryHistoryFilter) : option (list telemetryHistoryRecord) :=
  match f with
  | None => Some []
  | Some f =>
      let '(start, end_, _) := historyTailBounds maxRecords maxBytes f in
      if Nat.leb end_ start then Some []
      else ls ← scan_lines (section f start end_);
           Some (List.filter (fun r => historyRecordInWindow r from to) (omap (fun l => decodeTelemetryHistoryRecordForFilter l flt) ls))
  end.

(** A query reads the cap, takes the records in memory, reads the file and compares the
    epoch and the cap again: [e] is the memory it took, [f] the file it read, [e'] and
    [cap'] what it found at the end.  The result is with whether it is accepted. *)
Definition queryRecordsSnapshot (cap : Z) (e : nodeHist) (f : option bytes) (e' : nodeHist) (cap' : Z) (from to : Z) (flt : telemetryHistoryFilter)
  : option (list telemetryHistoryRecord * bool) :=
  if cap <=? 0 then Some ([], true)
  else
    let raw := volatile_records cap e in
    let volatile := List.filter (fun r => historyRecordInWindow r from to) (map (fun r => filterTelemetryHistoryRecord r flt) raw) in
    let diskLimit := cap - Z.of_nat (length raw) in
    disk ← (if th_dir h && (0 <? diskLimit) then readHistoryJSONLTail f from to diskLimit (fileByteLimit h) flt else Some []);
    Some (disk ++ volatile, (nh_flushEpoch e' =? nh_flushEpoch e) && (cap' =? cap)).

Definition querySnapshot (cap : Z) (e : nodeHist) (f : option bytes) (e' : nodeHist) (cap' : Z) (from to : Z) (flt : telemetryHistoryFilter)
  : option (TelemetryHistorySnapshot * bool) :=
  (fun r : list telemetryHistoryRecord * bool => (snapshot_of r.1 from to, r.2)) <$> queryRecordsSnapshot cap e f e' cap' from to flt.
End Query.

(** ** Interleavings *)

(** Where the flusher is in [flushOnce] and [writeHistoryJSONL] for the node.  [Drained] has
    the cap once it was read; [start] is the length of the file without the batch. *)
Inductive flusher :=
| Idle
| Drained (cap : option Z)
| Appending (cap : Z) (selected : list telemetryHistoryRecord) (start : nat) (unwritten : bytes)
| Committed (cap : Z) (selected : list telemetryHistoryRecord) (start : nat) (rewritten : option Z)
| Marked (cap : Z) (selected : list telemetryHistoryRecord)
| Finished.

(** [hi_cap] is the published cap of the tenant, [hi_reading] the caps of the heartbeats that
    have read it and not taken the lock yet, [hi_applying] the changes of the cap that have
    not reached the records yet.  Two more fields follow the run: every line the history
    accepted, and whether the truncation after a failed append failed as well. *)
Record history := mkHistory {
  hi_node : nodeHist; hi_cap : option Z; hi_reading : list Z; hi_applying : list Z; hi_file : option bytes; hi_flusher : flusher; hi_accepted : list bytes; hi_unrepaired : bool }.

Section Machine.
Context `{HistoryCodec} (h : telemetryHistory).
Implicit Types s : history.

Definition with_node (e : nodeHist) s : history := mkHistory e (hi_cap s) (hi_reading s) (hi_applying s) (hi_file s) (hi_flusher s) (hi_accepted s) (hi_unrepaired s).
Definition with_file (f : bytes) s : history := mkHistory (hi_node s) (hi_cap s) (hi_reading s) (hi_applying s) (Some f) (hi_flusher s) (hi_accepted s) (hi_unrepaired s).
Definition at_ (p : flusher) s : history := mkHistory (hi_node s) (hi_cap s) (hi_reading s) (hi_applying s) (hi_file s) p (hi_accepted s) (hi_unrepaired s).
Definition accept_line (l : bytes) s : history := mkHistory (hi_node s) (hi_cap s) (hi_reading s) (hi_applying s) (hi_file s) (hi_flusher s) (hi_accepted s ++ [l]) (hi_unrepaired s).
Definition publish (c : Z) s : history := mkHistory (hi_node s) (Some c) (hi_reading s) (hi_applying s ++ [c]) (hi_file s) (hi_flusher s) (hi_accepted s) (hi_unrepaired s).
Definition reads (caps : list Z) s : history := mkHistory (hi_node s) (hi_cap s) caps (hi_applying s) (hi_file s) (hi_flusher s) (hi_accepted s) (hi_unrepaired s).
Definition not_repaired s : history := mkHistory (hi_node s) (hi_cap s) (hi_reading s) (hi_applying s) (hi_file s) (hi_flusher s) (hi_accepted s) true.

Definition cap_of s : Z := capFor h (hi_cap s).
Definition file_of s : bytes := default [] (hi_file s).
(** The file up to its last complete line. *)
Definition repaired (f : bytes) : bytes := take (historyCompleteEnd f).1 f.

(** The record a heartbeat would add, for [hi_accepted]. *)
Definition accepted_line (cap : Z) (record : telemetryHistoryRecord) s : option bytes :=
  if is_empty_record record || (cap <=? 0) then None else line_of <$> (admitted_record record (hi_node s)).2.

(** A failed flush: the batch goes back, in front of what arrived since. *)
Definition give_back (cap : Z) s : history := at_ Idle (with_node (requeueInflight h cap (hi_node s)) s).

(** The lines of the file after an append, if they could be counted. *)
Definition counted (cap : Z) (selected : list telemetryHistoryRecord) (known : option Z) (e : nodeHist) s : Prop :=
  if nh_fileLines (hi_node s) <? 0
  then known = None /\ e = hi_node s \/ (exists n, n = countHistoryLinesBounded (file_of s) (cap * historyCompactSlack + 1) /\ known = Some n /\ e = set_fileLines n (hi_node s))
  else known = Some (nh_fileLines (hi_node s) + Z.of_nat (length selected)) /\ e = set_fileLines (nh_fileLines (hi_node s) + Z.of_nat (length selected)) (hi_node s).

(** [appendRecord] under the lock. *)
Definition append_locked (cap : Z) (record : telemetryHistoryRecord) s : history :=
  with_node (appendRecord h cap record (hi_node s)) (match accepted_line cap record s with Some l => accept_line l s | None => s end).

Inductive step : history -> history -> Prop :=
(** a heartbeat *)
| step_read_cap s : step s (reads (cap_of s :: hi_reading s) s)
| step_append cap pre post record s :
    hi_reading s = pre ++ cap :: post ->
    step s (reads (pre ++ post) (append_locked cap record s))
(** settings *)
| step_publish c s : hi_cap s <> Some c -> step s (publish c s)
| step_apply c pre post s : hi_applying s = pre ++ c :: post ->
    step s (with_node (apply_cap h c (hi_node s)) (mkHistory (hi_node s) (hi_cap s) (hi_reading s) (pre ++ post) (hi_file s) (hi_flusher s) (hi_accepted s) (hi_unrepaired s)))
(** the flusher takes the records, if there are any *)
| step_drain s : th_dir h = true -> hi_flusher s = Idle -> nh_buf (hi_node s) <> [] -> step s (at_ (Drained None) (with_node (drain (hi_node s)) s))
| step_flush_cap s : hi_flusher s = Drained None -> step s (at_ (Drained (Some (cap_of s))) s)
| step_disabled cap s : hi_flusher s = Drained (Some cap) -> cap <= 0 -> step s (at_ Idle (with_node (clearInflight (hi_node s)) s))
(** it fails before it writes, possibly after it truncated the file *)
| step_not_opened cap s : hi_flusher s = Drained (Some cap) -> 0 < cap -> step s (give_back cap s)
| step_repair_failed cap s : hi_flusher s = Drained (Some cap) -> 0 < cap -> step s (give_back cap (with_file (repaired (file_of s)) s))
(** the batch would cross the ceiling: one atomic replacement *)
| step_rewrite cap selected n old new kept s :
    hi_flusher s = Drained (Some cap) -> 0 < cap -> prepareTelemetryHistoryBatch (nh_inflight (hi_node s)) cap (fileByteLimit h) = Some (selected, n) ->
    fileByteLimit h - Z.of_nat (length (repaired (file_of s))) < n ->
    rewriteHistoryWithBatch (repaired (file_of s)) selected cap (compactByteLimit h) n = (old, new, kept) ->
    step s (at_ (Committed cap selected (length old) (Some kept)) (with_file (old ++ new) s))
(** else it appends, some bytes at a time *)
| step_open cap selected n s :
    hi_flusher s = Drained (Some cap) -> 0 < cap -> prepareTelemetryHistoryBatch (nh_inflight (hi_node s)) cap (fileByteLimit h) = Some (selected, n) ->
    n <= fileByteLimit h - Z.of_nat (length (repaired (file_of s))) ->
    step s (at_ (Appending cap selected (length (repaired (file_of s))) (batch_bytes selected)) (with_file (repaired (file_of s)) s))
| step_write cap selected start written unwritten s :
    hi_flusher s = Appending cap selected start (written ++ unwritten) ->
    step s (at_ (Appending cap selected start unwritten) (with_file (file_of s ++ written) s))
| step_rollback cap selected start unwritten s :
    hi_flusher s = Appending cap selected start unwritten -> step s (give_back cap (with_file (take start (file_of s)) s))
| step_rollback_failed cap selected start unwritten s :
    hi_flusher s = Appending cap selected start unwritten -> step s (give_back cap (not_repaired s))
| step_sync cap selected start s :
    hi_flusher s = Appending cap selected start [] -> step s (at_ (Committed cap selected start None) s)
(** the batch is on disk; only now the memory is told *)
| step_mark cap selected start s :
    hi_flusher s = Committed cap selected start None -> step s (at_ (Marked cap selected) (with_node (markInflightOnDisk (hi_node s)) s))
| step_mark_rewritten cap selected start kept s :
    hi_flusher s = Committed cap selected start (Some kept) -> step s (at_ Finished (with_node (set_fileLines kept (markInflightOnDisk (hi_node s))) s))
(** it counts the lines, unless it knows them, and compacts the file if it must; a count, a
    size or a compaction that fails is logged *)
| step_count cap selected known e s : hi_flusher s = Marked cap selected -> counted cap selected known e s -> step s (at_ Finished (with_node e s))
| step_compact cap selected known size e f kept (told : bool) s :
    hi_flusher s = Marked cap selected -> counted cap selected known e s -> size = None \/ size = Some (Z.of_nat (length (file_of s))) ->
    needs_compaction h cap known size = true -> compactJSONL cap (compactByteLimit h) (file_of s) = (f, kept) ->
    step s (at_ Finished (with_node (if told then set_fileLines kept e else e) (with_file f s)))
| step_clear s : hi_flusher s = Finished -> step s (at_ Idle (with_node (clearInflight (hi_node s)) s))
(** maintenance, at startup and after a change of the cap *)
| step_maintain f kept (told : bool) s :
    th_dir h = true -> hi_flusher s = Idle -> hi_file s <> None -> maintainHistoryFile h (cap_of s) (file_of s) = Some (f, kept) ->
    step s (with_node (if told then set_fileLines kept (hi_node s) else hi_node s) (with_file f s)).

(** [writeHistoryJSONL] and [flushOnce] when every operation on the file succeeds and nothing
    comes in between. *)
Definition write_batch (cap : Z) (selected : list telemetryHistoryRecord) (n : Z) s : history :=
  let f := repaired (file_of s) in
  if fileByteLimit h - Z.of_nat (length f) <? n
  then let '(old, new, kept) := rewriteHistoryWithBatch f selected cap (compactByteLimit h) n in
       with_node (set_fileLines kept (markInflightOnDisk (hi_node s))) (with_file (old ++ new) s)
  else
    let s := with_file (f ++ batch_bytes selected) s in
    let e := markInflightOnDisk (hi_node s) in
    let known := if nh_fileLines e <? 0 then countHistoryLinesBounded (file_of s) (cap * historyCompactSlack + 1) else nh_fileLines e + Z.of_nat (length selected) in
    let e := set_fileLines known e in
    if needs_compaction h cap (Some known) (Some (Z.of_nat (length (file_of s))))
    then let '(f, kept) := compactJSONL cap (compactByteLimit h) (file_of s) in with_node (set_fileLines kept e) (with_file f s)
    else with_node e s.

Definition flushOnce s : history :=
  match nh_buf (hi_node s) with
  | [] => s
  | _ =>
      let cap := cap_of s in
      let s := at_ (Drained (Some cap)) (with_node (drain (hi_node s)) s) in
      if cap <=? 0 then at_ Idle (with_node (clearInflight (hi_node s)) s)
      else match prepareTelemetryHistoryBatch (nh_inflight (hi_node s)) cap (fileByteLimit h) with
           | None => give_back cap s
           | Some (selected, n) => let s := write_batch cap selected n s in at_ Idle (with_node (clearInflight (hi_node s)) s)
           end
  end.

(** The process dies and starts again. *)
Definition restart s : history := mkHistory newNodeHist None [] [] (hi_file s) Idle (hi_accepted s) (hi_unrepaired s).
Inductive event : history -> history -> Prop :=
| event_step s s' : step s s' -> event s s'
| event_restart s : event s (restart s).
Definition events : history -> history -> Prop := rtc event.

(** A controller that starts on a file with the lines. *)
Definition started (f : option bytes) (ls : list bytes) : history := mkHistory newNodeHist None [] [] f Idle ls false.
End Machine.
