(* ===== verification/HistoryProps.v ===== *)
(** * The history is bounded, in order and coherent

    Over every interleaving of heartbeats, settings, flushes, failures and restarts the
    memory and the file of a node stay within their bounds, and the records that are kept
    are accepted ones in their order, none twice.  A query that is accepted shows the newest
    of them, unless a batch had just been committed. *)

From stdpp Require Import base gmap strings list sorting.
From Stdlib Require Import ZArith Lia.
From S2P Require Import Prelude GoLib HistoryFile History.

Local Open Scope Z_scope.

(** ** Files *)

(** A suffix from the start of a line. *)
Definition boundary (f : bytes) (p : nat) : Prop := p = 0%nat \/ p = length f \/ exists q, p = S q /\ f !! q = Some newline.

Lemma tail_scan_boundary M B f g st :
  reverse g `prefix_of` f -> boundary f (ts_start st) -> (ts_start st <= length f)%nat -> (Z.of_nat (length f - ts_start st) <= Z.max 0 B) ->
  let st' := tail_scan M B (length f) g st in boundary f (ts_start st') /\ (ts_start st' <= length f)%nat /\ Z.of_nat (length f - ts_start st') <= Z.max 0 B.
Proof.
  revert st. induction g as [|c r IH]; intros st Hp Hb Hs Hz; cbn zeta; cbn [tail_scan].
  - unfold admit_line. destruct (M <=? ts_lines st); cbn [orb default]; [done|]. destruct (Z.ltb_spec B (Z.of_nat (length f - 0))); cbn [default]; unfold id; [done|]. cbn [ts_start]. split_and!; [by left|lia|lia].
  - rewrite reverse_cons in Hp. assert (reverse r `prefix_of` f) as Hr by (etrans; [by apply prefix_app_r|exact Hp]).
    destruct (Z.eqb_spec c newline) as [->|_]; cbn [negb]; [|by apply IH]. destruct (Nat.ltb _ _); [by apply IH|]. unfold admit_line.
    assert (f !! length r = Some newline) as Hf by (destruct Hp as [z ->]; rewrite <- (length_reverse r) at 1; rewrite <- app_assoc; by apply list_lookup_middle).
    pose proof (lookup_lt_Some _ _ _ Hf) as Hlt.
    destruct (M <=? ts_lines st); cbn [orb]; [done|]. destruct (Z.ltb_spec B (Z.of_nat (length f - (length r + 1)))); [done|]. apply IH; cbn [ts_start]; [done| |lia|lia].
    right. right. exists (length r). split; [lia|done].
Qed.

Lemma tail_bounds_boundary M B f :
  let '(b, e, _) := historyTailBounds M B f in e = length f /\ boundary f b /\ (b <= length f)%nat /\ Z.of_nat (length f - b) <= Z.max 0 B.
Proof.
  assert (boundary f (length f) /\ (length f <= length f)%nat /\ Z.of_nat (length f - length f) <= Z.max 0 B) as Hall by (split_and!; [right; by left|lia|lia]).
  unfold historyTailBounds. destruct (_ || _); [by split|]. cbv zeta. destruct (Nat.eqb _ 0); [by split|]. split; [done|].
  apply tail_scan_boundary; cbn [ts_start]; [|apply Hall..]. rewrite reverse_involutive. apply prefix_take.
Qed.

(** Whole lines and a torn rest. *)
Definition file_lines (f : bytes) (ls : list bytes) (rest : bytes) : Prop := f = enc ls ++ rest /\ Forall is_line ls /\ newline ∉ rest.

Lemma drop_boundary f ls rest p :
  file_lines f ls rest -> boundary f p -> (p <= length f)%nat -> exists ls' rest', file_lines (drop p f) ls' rest' /\ ls' `suffix_of` ls.
Proof.
  intros (-> & Hls & Hn) Hb Hp. revert p Hb Hp. induction ls as [|l ls IH]; intros p Hb Hp.
  - exists []. change (enc [] ++ rest) with rest in *. assert (p = 0%nat \/ p = length rest) as [->| ->].
    { destruct Hb as [->|[->|(q & -> & Hq)]]; [by left|by right|]. destruct Hn. by eapply list_elem_of_lookup_2. }
    + exists rest. split; [by split_and!|done].
    + exists []. rewrite drop_all. split; [|done]. split_and!; [done..|]. apply not_elem_of_nil.
  - apply Forall_cons in Hls as [Hl Hls]. change (enc (l :: ls)) with (enc_line l ++ enc ls) in *. rewrite <- app_assoc in *.
    destruct (decide (p = 0%nat)) as [->|Hp0]; [exists (l :: ls), rest; split; [|done]; split_and!; [rewrite drop_0; by rewrite app_assoc|by apply Forall_cons|done]|].
    assert (length (enc_line l) <= p)%nat as Hge.
    { unfold enc_line in *. rewrite length_app. cbn. destruct Hb as [?|[->|(q & -> & Hq)]]; [done|rewrite !length_app; cbn; lia|].
      destruct (decide (q < length l)%nat) as [Hlt|]; [|lia]. rewrite <- app_assoc, lookup_app_l in Hq by done. destruct Hl as [_ Hl]. destruct Hl. by eapply list_elem_of_lookup_2. }
    rewrite drop_app_ge by done. rewrite length_app in Hp. destruct (IH Hls (p - length (enc_line l))%nat) as (ls' & rest' & Hf & Hsuf); [|lia|].
    + destruct Hb as [?|[->|(q & -> & Hq)]]; [done|right; left; rewrite length_app; lia|]. destruct (decide (q < length (enc_line l))%nat) as [Hlt|Hge'].
      * left. assert (S q = length (enc_line l)) as -> by lia. lia.
      * right. right. exists (q - length (enc_line l))%nat. split; [lia|]. by rewrite lookup_app_r in Hq by lia.
    + exists ls', rest'. split; [done|]. by apply suffix_cons_r.
Qed.

Lemma section_drop f b e : e = length f -> section f b e = drop b f.
Proof. intros ->. unfold section. apply take_ge. rewrite length_drop. lia. Qed.

Lemma compact_lines cap B f ls rest :
  file_lines f ls rest -> 0 <= B ->
  exists ls' rest', file_lines (compactJSONL cap B f).1 ls' rest' /\ ls' `suffix_of` ls /\ Z.of_nat (length (compactJSONL cap B f).1) <= B.
Proof.
  intros Hf HB. unfold compactJSONL. pose proof (tail_bounds_boundary cap B f) as Hb. destruct (historyTailBounds cap B f) as [[b e] k]. destruct Hb as (He & Hb & Hle & Hz). cbn [fst].
  rewrite section_drop by done. destruct (drop_boundary f ls rest b Hf Hb Hle) as (ls' & rest' & Hd & Hs). exists ls', rest'. split_and!; [done..|]. rewrite length_drop. lia.
Qed.

Lemma repaired_lines f ls rest : file_lines f ls rest -> repaired f = enc ls.
Proof.
  intros (-> & _ & Hn). unfold repaired. destruct rest as [|c rest]; [rewrite app_nil_r, complete_end_whole; by apply take_ge|].
  rewrite complete_end_torn by done. cbn [fst]. by rewrite take_app_length.
Qed.

(** What a cut-off append leaves. *)
Lemma cut_lines written unwritten ls :
  written ++ unwritten = enc ls -> Forall is_line ls -> exists k rest, written = enc (take k ls) ++ rest /\ newline ∉ rest.
Proof.
  revert written. induction ls as [|l ls IH]; intros written E Hls.
  - exists 0%nat, []. apply app_nil in E as [-> _]. split; [done|apply not_elem_of_nil].
  - apply Forall_cons in Hls as [[_ Hl] Hls]. change (enc (l :: ls)) with (enc_line l ++ enc ls) in E.
    destruct (decide (length (enc_line l) <= length written)%nat) as [Hge|Hlt].
    + assert (written = enc_line l ++ drop (length (enc_line l)) written) as Hw.
      { rewrite <- (take_drop (length (enc_line l)) written) at 1. f_equal. apply (f_equal (take (length (enc_line l)))) in E. by rewrite take_app_le, take_app_length in E by done. }
      rewrite Hw, <- app_assoc in E. apply app_inv_head in E. destruct (IH _ E Hls) as (k & rest & Hd & Hn). exists (S k), rest. split; [|done]. rewrite Hw, Hd. cbn [take]. by rewrite app_assoc.
    + exists 0%nat, written. split; [done|]. intros Hin. apply list_elem_of_lookup in Hin as [i Hi]. pose proof (lookup_lt_Some _ _ _ Hi) as Hil.
      assert ((enc_line l ++ enc ls) !! i = Some newline) as Hx by (rewrite <- E, lookup_app_l; done). rewrite lookup_app_l in Hx by lia. unfold enc_line in Hx, Hlt. rewrite length_app in Hlt. cbn in Hlt.
      rewrite lookup_app_l in Hx by lia. apply Hl. by eapply list_elem_of_lookup_2.
Qed.

(** ** Memory *)

(** [encoding/json] writes one non-empty line, with no carriage return at its end. *)
Class HistoryCodecLaws `{HistoryCodec} : Prop := {
  marshal_line : forall w d, marshal_wire w = Some d -> is_line d; marshal_end : forall w d, marshal_wire w = Some d -> drop_cr d = d }.

(** What the scanner gives back as it was written. *)
Definition readable (l : bytes) : Prop := is_line l /\ drop_cr l = l /\ Z.of_nat (length l) < maxTelemetryHistoryLineBytes.

Definition total (rs : list telemetryHistoryRecord) : Z := foldr Z.add 0 (HR_encodedBytes <$> rs).
Lemma total_app a b : total (a ++ b) = total a + total b.
Proof. unfold total. induction a as [|x a IH]; [done|]. cbn in *. lia. Qed.

Lemma drop_oldest_spec cap lim buf :
  0 <= lim -> let '(buf', n) := drop_oldest cap lim buf (total buf) in buf' `suffix_of` buf /\ n = total buf' /\ total buf' <= lim /\ Z.of_nat (length buf') <= Z.max 0 cap.
Proof.
  intros Hl. induction buf as [|r buf IH]; cbn [drop_oldest]; [split_and!; cbn; [done|done|done|lia]|].
  destruct (Z.ltb_spec cap (Z.of_nat (length (r :: buf)))), (Z.ltb_spec lim (total (r :: buf))); cbn [orb]; [..|split_and!; [done|done|done|lia]].
  all: replace (total (r :: buf) - HR_encodedBytes r) with (total buf) by (unfold total; cbn; lia); destruct (drop_oldest cap lim buf (total buf)) as [buf' n].
  all: destruct IH as (Hs & Hn & Ht & Hc); split_and!; [by apply suffix_cons_r|done|done|done].
Qed.

Lemma suffix_length_eq {A} (a b : list A) : a `suffix_of` b -> length a = length b -> a = b.
Proof. intros [k ->] Hl. rewrite length_app in Hl. by destruct k; [|cbn in Hl; lia]. Qed.

Lemma trim_spec cap lim e :
  nh_bufBytes e = total (nh_buf e) ->
  exists buf, trimTelemetryHistoryBuffer cap lim e = set_buf buf (total buf) e /\ buf `suffix_of` nh_buf e /\ total buf <= Z.max 0 lim /\ Z.of_nat (length buf) <= Z.max 0 cap.
Proof.
  intros He. unfold trimTelemetryHistoryBuffer. rewrite He. pose proof (drop_oldest_spec cap (Z.max 0 lim) (nh_buf e) ltac:(lia)) as Hd.
  destruct (drop_oldest cap (Z.max 0 lim) (nh_buf e) (total (nh_buf e))) as [buf n]. destruct Hd as (Hs & -> & Ht & Hc). exists buf. split_and!; [|done..].
  destruct (Nat.eqb_spec (length buf) (length (nh_buf e))) as [El|_]; [|by destruct buf].
  apply suffix_length_eq in El as ->; [|done]. rewrite <- He. by destruct e.
Qed.

(** The keys of the last attempts and readings. *)
Record keys_ok (e : nodeHist) : Prop := {
  k_probes : list_to_set (nh_recentProbeOrder e) = nh_recentProbeKeys e; k_probes_nodup : NoDup (nh_recentProbeOrder e);
  k_probes_len : (length (nh_recentProbeOrder e) <= maxProbeHistoryRecentKeys)%nat;
  k_devices : list_to_set (nh_recentDeviceOrder e) = nh_recentDeviceKeys e; k_devices_nodup : NoDup (nh_recentDeviceOrder e);
  k_devices_len : (length (nh_recentDeviceOrder e) <= maxDeviceHistoryRecentKeys)%nat }.

(** All but the keys. *)
Definition same_records (e e' : nodeHist) : Prop :=
  nh_buf e' = nh_buf e /\ nh_bufBytes e' = nh_bufBytes e /\ nh_inflight e' = nh_inflight e /\ nh_inflightBytes e' = nh_inflightBytes e /\
  nh_inflightOnDisk e' = nh_inflightOnDisk e /\ nh_flushEpoch e' = nh_flushEpoch e /\ nh_fileLines e' = nh_fileLines e.

Lemma same_records_trans e e1 e2 : same_records e e1 -> same_records e1 e2 -> same_records e e2.
Proof. intros (A1 & A2 & A3 & A4 & A5 & A6 & A7) (B1 & B2 & B3 & B4 & B5 & B6 & B7). split_and!; congruence. Qed.

Lemma new_attempt_ok st s : keys_ok st.1 -> keys_ok (new_attempt st s).1 /\ same_records st.1 (new_attempt st s).1.
Proof.
  destruct st as [e out]. cbn [fst]. intros He. unfold new_attempt. destruct (decide (probeHistorySampleIdentity s ∈ nh_recentProbeKeys e)) as [|Hn]; [done|]. cbn [fst].
  destruct He as [H1 H2 H3 H4 H5 H6]. set (key := probeHistorySampleIdentity s) in *. assert (key ∉ nh_recentProbeOrder e) as Hk by (intros Hin; apply Hn; rewrite <- H1; by apply elem_of_list_to_set).
  assert (NoDup (nh_recentProbeOrder e ++ [key])) as Hnd by (apply NoDup_app; split_and!; [done| |apply NoDup_singleton]; intros x Hx ->%list_elem_of_singleton; done).
  assert (list_to_set (nh_recentProbeOrder e ++ [key]) = {[key]} ∪ nh_recentProbeKeys e :> gset _) as Hset by (rewrite list_to_set_app_L, H1; cbn; set_solver).
  destruct (nh_recentProbeOrder e ++ [key]) as [|oldest rest] eqn:Ho; [by destruct (nh_recentProbeOrder e)|].
  destruct (Nat.ltb_spec maxProbeHistoryRecentKeys (length (oldest :: rest))) as [Hlt|Hge]; (split; [|done]); split; cbn [set_probeKeys nh_recentProbeOrder nh_recentProbeKeys nh_recentDeviceOrder nh_recentDeviceKeys]; try done.
  - rewrite <- Hset. cbn [list_to_set]. apply NoDup_cons in Hnd as [Hold _]. assert (oldest ∉ (list_to_set rest : gset probeHistoryIdentity)) by (by rewrite elem_of_list_to_set). set_solver.
  - by apply NoDup_cons in Hnd as [_ Hnd].
  - apply (f_equal length) in Ho. rewrite length_app in Ho. cbn in Ho. lia.
Qed.

Lemma filter_probes_ok samples e : keys_ok e -> keys_ok (filterNewProbeAttempts samples e).1 /\ same_records e (filterNewProbeAttempts samples e).1.
Proof.
  unfold filterNewProbeAttempts. generalize (@nil ProbeHistorySample). revert e. induction samples as [|s samples IH]; intros e out He; cbn [foldl]; [done|].
  destruct (new_attempt_ok (e, out) s He) as [Hk Hs]. destruct (new_attempt (e, out) s) as [e1 out1]. cbn [fst] in *. destruct (IH e1 out1 Hk) as [Hk' Hs']. split; [done|].
  by eapply same_records_trans.
Qed.

(** While the readings of one record are added their number is not checked. *)
Record devices_ok (e : nodeHist) : Prop := {
  d_set : list_to_set (nh_recentDeviceOrder e) = nh_recentDeviceKeys e; d_nodup : NoDup (nh_recentDeviceOrder e) }.
Definition same_probes (e e' : nodeHist) : Prop := nh_recentProbeOrder e' = nh_recentProbeOrder e /\ nh_recentProbeKeys e' = nh_recentProbeKeys e.

Lemma new_readings_ok samples e out :
  devices_ok e -> let e' := (foldl new_reading (e, out) samples).1 in devices_ok e' /\ same_records e e' /\ same_probes e e'.
Proof.
  revert e out. induction samples as [|s samples IH]; intros e out He; cbn zeta; cbn [foldl]; [done|].
  assert (devices_ok (new_reading (e, out) s).1 /\ same_records e (new_reading (e, out) s).1 /\ same_probes e (new_reading (e, out) s).1) as (Hd & Hs & Hp).
  { unfold new_reading. destruct (decide _) as [|Hn]; [done|]. cbn [fst]. split; [|done]. destruct He as [H1 H2]. set (key := (DS_SeriesID s, DS_TS s)) in *. split; cbn [set_deviceKeys nh_recentDeviceOrder nh_recentDeviceKeys].
    - rewrite list_to_set_app_L, H1. cbn. set_solver.
    - apply NoDup_app. split_and!; [done| |apply NoDup_singleton]. intros x Hx ->%list_elem_of_singleton. apply Hn. rewrite <- H1. by apply elem_of_list_to_set. }
  destruct (new_reading (e, out) s) as [e1 out1]. cbn [fst] in *. destruct (IH e1 out1 Hd) as (Hd' & Hs' & Hp'). split_and!; [done|by eapply same_records_trans|].
  destruct Hp, Hp'. split; congruence.
Qed.

Lemma filter_devices_ok samples e : keys_ok e -> keys_ok (filterNewDeviceSamples samples e).1 /\ same_records e (filterNewDeviceSamples samples e).1.
Proof.
  intros [H1 H2 H3 H4 H5 H6]. unfold filterNewDeviceSamples. destruct samples as [|s samples]; [done|]. destruct (new_readings_ok (s :: samples) e []) as (Hd & Hs & Hp); [done|].
  destruct (foldl new_reading (e, []) (s :: samples)) as [e1 out]. cbn [fst] in *. destruct Hd as [Hd1 Hd2], Hp as [Hp1 Hp2]. split; [|done]. unfold forget_devices.
  set (over := (length (nh_recentDeviceOrder e1) - maxDeviceHistoryRecentKeys)%nat). pose proof Hd2 as Hnd. rewrite <- (take_drop over (nh_recentDeviceOrder e1)) in Hnd. apply NoDup_app in Hnd as (_ & Hdis & Hnd).
  split; cbn [set_deviceKeys nh_recentDeviceOrder nh_recentDeviceKeys nh_recentProbeOrder nh_recentProbeKeys]; rewrite ?Hp1, ?Hp2; try done.
  - rewrite <- Hd1. rewrite <- (take_drop over (nh_recentDeviceOrder e1)) at 2. rewrite list_to_set_app_L.
    assert (list_to_set (take over (nh_recentDeviceOrder e1)) ## (list_to_set (drop over (nh_recentDeviceOrder e1)) : gset deviceHistoryIdentity)) by (intros x; rewrite !elem_of_list_to_set; apply Hdis). set_solver.
  - rewrite length_drop. lia.
Qed.

Section Invariant.
Context `{HistoryCodec} `{!HistoryCodecLaws} (h : telemetryHistory).
Implicit Types s : history.

(** A record that can be written, with the bytes of its line. *)
Definition good (r : telemetryHistoryRecord) : Prop :=
  readable (line_of r) /\ telemetryHistoryRecordEncodedBytes r = Some (HR_encodedBytes r) /\ HR_encodedBytes r = Z.of_nat (S (length (line_of r))).

Lemma marshalled_good r n : telemetryHistoryRecordEncodedBytes r = Some n -> n <= maxTelemetryHistoryLineBytes -> readable (line_of r) /\ n = Z.of_nat (S (length (line_of r))).
Proof.
  unfold telemetryHistoryRecordEncodedBytes, line_of. destruct (marshal_record r) as [d|] eqn:Hm; [|done]. cbn. intros [= <-] Hn. split; [|lia]. split_and!; [by eapply marshal_line|by eapply marshal_end|lia].
Qed.

Lemma total_batch rs : Forall good rs -> total rs = Z.of_nat (length (batch_bytes rs)).
Proof.
  unfold batch_bytes. induction 1 as [|r rs (_ & _ & Hr) _ IH]; [done|]. change (total (r :: rs)) with (HR_encodedBytes r + total rs). rewrite fmap_cons, length_enc_cons, IH, Hr. lia.
Qed.
Lemma good_lines rs : Forall good rs -> Forall is_line (line_of <$> rs).
Proof. intros Hg. apply Forall_fmap. eapply Forall_impl; [exact Hg|]. by intros r ((Hr & _) & _). Qed.
Lemma total_nonneg rs : Forall good rs -> 0 <= total rs.
Proof. intros Hg. rewrite total_batch by done. lia. Qed.

Record mem_ok (e : nodeHist) : Prop := {
  m_keys : keys_ok e; m_buf : Forall good (nh_buf e); m_inflight : Forall good (nh_inflight e);
  m_bufBytes : nh_bufBytes e = total (nh_buf e); m_inflightBytes : nh_inflightBytes e = total (nh_inflight e);
  m_bytes : nh_bufBytes e + nh_inflightBytes e <= volatileByteLimit h }.

Lemma suffix_good (a b : list telemetryHistoryRecord) : a `suffix_of` b -> Forall good b -> Forall good a.
Proof. intros [k ->] Hg. by apply Forall_app in Hg as [_ Hg]. Qed.

(** Records at the front of the buffer may go, and nothing else changes. *)
Lemma trim_mem cap e (lim : Z) :
  keys_ok e -> Forall good (nh_buf e) -> Forall good (nh_inflight e) -> nh_bufBytes e = total (nh_buf e) -> nh_inflightBytes e = total (nh_inflight e) ->
  lim = volatileByteLimit h - nh_inflightBytes e -> nh_inflightBytes e <= volatileByteLimit h ->
  exists buf n, trimTelemetryHistoryBuffer cap lim e = set_buf buf n e /\ mem_ok (set_buf buf n e) /\ buf `suffix_of` nh_buf e.
Proof.
  intros Hk Hb Hi Hbb Hib -> Hl. destruct (trim_spec cap (volatileByteLimit h - nh_inflightBytes e) e Hbb) as (buf & Et & Hs & Ht & _). exists buf, (total buf). split_and!; [done| |done].
  split; cbn [set_buf nh_buf nh_bufBytes nh_inflight nh_inflightBytes]; try done; [by destruct Hk|by eapply suffix_good|lia].
Qed.

Lemma set_buf_keys buf n e : keys_ok e -> keys_ok (set_buf buf n e).
Proof. intros []. by split. Qed.
Lemma set_inflight_keys b n o e : keys_ok e -> keys_ok (set_inflight b n o e).
Proof. intros []. by split. Qed.
Lemma bump_epoch_keys e : keys_ok e -> keys_ok (bump_epoch e).
Proof. intros []. by split. Qed.
Lemma inflight_fits e : mem_ok e -> nh_inflightBytes e <= volatileByteLimit h /\ 0 <= nh_bufBytes e.
Proof. intros [_ Hb Hi Hbb Hib Hl]. pose proof (total_nonneg _ Hb). lia. Qed.

(** A heartbeat: one good record at the end of the buffer at most. *)
Lemma admitted_ok record e :
  keys_ok e -> let '(e2, o) := admitted_record record e in keys_ok e2 /\ same_records e e2 /\ match o with Some r => good r | None => True end.
Proof.
  intros Hk. unfold admitted_record. destruct (filter_probes_ok (HR_ProbeAttempts record) e Hk) as [Hk1 Hs1]. destruct (filterNewProbeAttempts _ e) as [e1 probes]. cbn [fst] in *.
  destruct (filter_devices_ok (HR_DeviceSamples record) e1 Hk1) as [Hk2 Hs2]. destruct (filterNewDeviceSamples _ e1) as [e2 devices]. cbn [fst] in *. pose proof (same_records_trans _ _ _ Hs1 Hs2) as Hs.
  destruct (is_empty_record _); [done|]. destruct (telemetryHistoryRecordEncodedBytes _) as [n|] eqn:Hn; [|done]. split_and!; [done..|]. destruct (Z.ltb_spec maxTelemetryHistoryLineBytes n); [done|].
  destruct (marshalled_good _ _ Hn) as [Hl ->]; [done|]. by split_and!.
Qed.

Lemma append_ok cap record e :
  mem_ok e ->
  let e' := appendRecord h cap record e in
  mem_ok e' /\ nh_inflight e' = nh_inflight e /\ nh_inflightOnDisk e' = nh_inflightOnDisk e /\ nh_flushEpoch e' = nh_flushEpoch e /\
  nh_buf e' `suffix_of` nh_buf e ++ option_list (if is_empty_record record || (cap <=? 0) then None else (admitted_record record e).2).
Proof.
  intros He e'. unfold e', appendRecord. destruct (_ || _); [cbn [option_list]; by rewrite app_nil_r|]. pose proof (admitted_ok record e (m_keys _ He)) as Ha.
  destruct (admitted_record record e) as [e2 o]. destruct Ha as (Hk & Hs & Hg). destruct Hs as (E1 & E2 & E3 & E4 & E5 & E6 & E7). cbn [snd]. destruct He as [_ Hb Hi Hbb Hib Hl].
  destruct o as [r|]; cbn [option_list].
  - destruct (trim_mem cap (set_buf (nh_buf e2 ++ [r]) (nh_bufBytes e2 + HR_encodedBytes r) e2) (volatileByteLimit h - nh_inflightBytes e2)) as (buf & n & -> & Hm & Hsuf);
      cbn [set_buf nh_buf nh_bufBytes nh_inflight nh_inflightBytes nh_inflightOnDisk nh_flushEpoch] in *; rewrite ?E1, ?E2, ?E3, ?E4, ?E5, ?E6 in *; try done.
    + by apply set_buf_keys.
    + apply Forall_app. split; [done|]. by apply Forall_singleton.
    + rewrite total_app, Hbb. unfold total at 3. cbn. lia.
    + pose proof (total_nonneg _ Hb). lia.
  - rewrite app_nil_r, E1, E3, E5, E6. split_and!; try done. split; rewrite ?E1, ?E2, ?E3, ?E4; done.
Qed.

Lemma apply_cap_ok cap e :
  mem_ok e -> let e' := apply_cap h cap e in
  mem_ok e' /\ nh_inflight e' = nh_inflight e /\ nh_inflightOnDisk e' = nh_inflightOnDisk e /\ nh_flushEpoch e' = (nh_flushEpoch e + 1) mod 2 ^ 64 /\ nh_buf e' `suffix_of` nh_buf e.
Proof.
  intros He e'. destruct (inflight_fits e He) as [Hf _]. destruct He as [Hk Hb Hi Hbb Hib Hl]. unfold e', apply_cap.
  destruct (trim_mem cap (bump_epoch e) (volatileByteLimit h - nh_inflightBytes (bump_epoch e))) as (buf & n & -> & Hm & Hsuf); try done. by apply bump_epoch_keys.
Qed.

Lemma drain_ok e : mem_ok e -> nh_inflight e = [] -> mem_ok (drain e).
Proof.
  intros [Hk Hb Hi Hbb Hib Hl] He. split; cbn [drain set_buf bump_epoch set_inflight nh_buf nh_bufBytes nh_inflight nh_inflightBytes]; try done; [by apply set_buf_keys, bump_epoch_keys, set_inflight_keys|].
  rewrite He in Hib. cbn in Hib. lia.
Qed.
Lemma clear_ok e : mem_ok e -> mem_ok (clearInflight e).
Proof.
  intros [Hk Hb Hi Hbb Hib Hl]. pose proof (total_nonneg _ Hi). split; cbn [clearInflight set_buf bump_epoch set_inflight nh_buf nh_bufBytes nh_inflight nh_inflightBytes]; try done; [by apply bump_epoch_keys, set_inflight_keys|lia].
Qed.
Lemma requeue_ok cap e :
  mem_ok e -> let e' := requeueInflight h cap e in
  mem_ok e' /\ nh_inflight e' = [] /\ nh_inflightOnDisk e' = false /\ nh_flushEpoch e' = (nh_flushEpoch e + 1) mod 2 ^ 64 /\ nh_buf e' `suffix_of` nh_inflight e ++ nh_buf e.
Proof.
  intros [Hk Hb Hi Hbb Hib Hl] e'. unfold e', requeueInflight. pose proof (total_nonneg _ Hi). pose proof (total_nonneg _ Hb).
  destruct (trim_mem cap (set_buf (nh_inflight e ++ nh_buf e) (nh_inflightBytes e + nh_bufBytes e) (bump_epoch (set_inflight [] 0 false e))) (volatileByteLimit h)) as (buf & n & -> & Hm & Hsuf);
    cbn [set_buf bump_epoch set_inflight nh_buf nh_bufBytes nh_inflight nh_inflightBytes] in *; try done.
  - by apply set_buf_keys, bump_epoch_keys, set_inflight_keys.
  - by apply Forall_app.
  - by rewrite total_app, Hbb, Hib.
  - lia.
  - lia.
Qed.
Lemma mark_ok e : mem_ok e -> mem_ok (markInflightOnDisk e).
Proof. intros He. unfold markInflightOnDisk. destruct (nh_inflight e) eqn:E; [done|]. destruct He as [Hk Hb Hi Hbb Hib Hl]. rewrite E in Hi, Hib. split; try done. by apply bump_epoch_keys, set_inflight_keys. Qed.
Lemma lines_ok n e : mem_ok e -> mem_ok (set_fileLines n e).
Proof. intros [[] ? ? ? ? ?]. by split. Qed.
End Invariant.

(** ** A codec to run the machine on

    A record is written as as many bytes as its instant; what the examples use. *)
Module Toy.
Definition line (n : nat) : bytes := repeat 2 (S n).
#[global] Instance codec : HistoryCodec := {|
  marshal_wire w := Some (line (Z.to_nat (default 0 (WR_TS w))));
  unmarshal_scan d := Some (mkScanJSON (Some (Z.of_nat (length d) - 1)) 0 None 0 0 0 0 0 None [] []);
  validStoredProbeHistorySample _ := true; validStoredDeviceHistorySample _ := true |}.

Lemma line_elem n c : c ∈ line n -> c = 2.
Proof. unfold line. intros Hc. apply list_elem_of_In in Hc. by eapply repeat_spec. Qed.
Lemma drop_cr_line n : drop_cr (line n) = line n.
Proof.
  unfold drop_cr. destruct (reverse (line n)) as [|c r] eqn:E; [done|]. assert (c ∈ line n) as Hc by (rewrite <- elem_of_reverse, E; by left). by apply line_elem in Hc as ->.
Qed.
#[global] Instance codec_laws : HistoryCodecLaws.
Proof. split; cbn; intros w d [= <-]; [|apply drop_cr_line]. split; [done|]. by intros Hn%line_elem. Qed.

(** A heartbeat at an instant. *)
Definition beat (t : Z) : telemetryHistoryRecord := mkHistoryRecord (Some (mkResourceSample t 0 None 0 0 0 0 0)) 0 [] [] 0.
Definition store : telemetryHistory := newTelemetryHistory true 3.

(** The records of a flush, appended at once. *)
Definition beats (ts : list Z) (s : history) : history :=
  foldl (fun s t => reads (hi_reading s) (append_locked store (cap_of store s) (beat t) (reads (cap_of store s :: hi_reading s) s))) s ts.
Definition taken (s : history) : history := at_ (Drained (Some 3)) (with_node (drain (hi_node s)) s).
Definition opened (s : history) : history :=
  at_ (Appending 3 (nh_inflight (hi_node s)) (length (repaired (file_of s))) (batch_bytes (nh_inflight (hi_node s)))) (with_file (repaired (file_of s)) s).
Definition wrote (n : nat) (s : history) : history :=
  match hi_flusher s with Appending cap sel start u => at_ (Appending cap sel start (drop n u)) (with_file (file_of s ++ take n u) s) | _ => s end.
Definition synced (s : history) : history := match hi_flusher s with Appending cap sel start [] => at_ (Committed cap sel start None) s | _ => s end.
Definition marked (s : history) : history := match hi_flusher s with Committed cap sel _ _ => at_ (Marked cap sel) (with_node (markInflightOnDisk (hi_node s)) s) | _ => s end.
Definition counted_up (s : history) : history :=
  match hi_flusher s with Marked _ sel => at_ Finished (with_node (set_fileLines (countHistoryLinesBounded (file_of s) 7) (hi_node s)) s) | _ => s end.
Definition cleared (s : history) : history := at_ Idle (with_node (clearInflight (hi_node s)) s).

Lemma beats_steps ts s : rtc (step store) s (beats ts s).
Proof. revert s. induction ts as [|t ts IH]; intros s; [reflexivity|]. eapply rtc_l; [apply step_read_cap|]. eapply rtc_l; [by apply (step_append store (cap_of store s) [] (hi_reading s) (beat t))|]. apply IH. Qed.
Lemma taken_steps s : hi_flusher s = Idle -> nh_buf (hi_node s) <> [] -> cap_of store s = 3 -> rtc (step store) s (taken s).
Proof.
  intros Hf Hb Hc. eapply rtc_l; [by apply step_drain|]. apply rtc_once. unfold taken. rewrite <- Hc. exact (step_flush_cap store (at_ (Drained None) (with_node (drain (hi_node s)) s)) eq_refl).
Qed.
Lemma opened_step s n :
  hi_flusher s = Drained (Some 3) -> prepareTelemetryHistoryBatch (nh_inflight (hi_node s)) 3 (fileByteLimit store) = Some (nh_inflight (hi_node s), n) ->
  n <= fileByteLimit store - Z.of_nat (length (repaired (file_of s))) -> step store s (opened s).
Proof. intros Hf Hp Hn. by eapply (step_open store 3). Qed.
Lemma wrote_step n s : match hi_flusher s with Appending _ _ _ _ => true | _ => false end = true -> step store s (wrote n s).
Proof. unfold wrote. destruct (hi_flusher s) eqn:E; try done. intros _. eapply step_write. by rewrite take_drop. Qed.
Lemma synced_step s : match hi_flusher s with Appending _ _ _ [] => true | _ => false end = true -> step store s (synced s).
Proof. unfold synced. destruct (hi_flusher s) as [| |cap sel start [|]| | |] eqn:E; try done. intros _. by apply step_sync. Qed.
Lemma marked_step s : match hi_flusher s with Committed _ _ _ None => true | _ => false end = true -> step store s (marked s).
Proof. unfold marked. destruct (hi_flusher s) as [| | |cap sel start [|]| |] eqn:E; try done. intros _. by eapply step_mark. Qed.
Lemma counted_step s : match hi_flusher s with Marked c _ => c =? 3 | _ => false end = true -> nh_fileLines (hi_node s) < 0 -> step store s (counted_up s).
Proof.
  intros Hf Hl. unfold counted_up. destruct (hi_flusher s) as [| | | |cap sel|] eqn:E; try done. apply Z.eqb_eq in Hf as ->. eapply step_count; [exact E|]. unfold counted. rewrite (proj2 (Z.ltb_lt _ _) Hl). right. by eexists.
Qed.
Lemma cleared_step s : hi_flusher s = Finished -> step store s (cleared s).
Proof. intros E. by apply step_clear. Qed.

Lemma steps_events s s' : rtc (step store) s s' -> events store s s'.
Proof. induction 1 as [s|s s1 s' Hs _ IH]; [reflexivity|]. eapply rtc_l; [by apply event_step|done]. Qed.

(** Two records are in the file, and a third is on its way there. *)
Definition flushed : history := cleared (counted_up (marked (synced (wrote 100 (opened (taken (beats [1; 2] (started None [])))))))).
Definition drained : history := taken (beats [3] flushed).
Definition committed : history := synced (wrote 100 (opened drained)).

Lemma opened_first : step store (taken (beats [1; 2] (started None []))) (opened (taken (beats [1; 2] (started None [])))).
Proof. by apply (opened_step _ 7); vm_compute. Qed.
Lemma opened_drained : step store drained (opened drained).
Proof. by apply (opened_step _ 5); vm_compute. Qed.

Lemma flushed_reached : rtc (step store) (started None []) flushed.
Proof.
  etrans; [apply (beats_steps [1; 2])|]. etrans; [by apply taken_steps; vm_compute|]. eapply rtc_l; [exact opened_first|]. eapply rtc_l; [by apply (wrote_step 100); vm_compute|].
  eapply rtc_l; [by apply synced_step; vm_compute|]. eapply rtc_l; [by apply marked_step; vm_compute|]. eapply rtc_l; [by apply counted_step; vm_compute|]. apply rtc_once. by apply cleared_step; vm_compute.
Qed.
Lemma drained_reached : rtc (step store) (started None []) drained.
Proof. etrans; [exact flushed_reached|]. etrans; [apply (beats_steps [3])|]. by apply taken_steps; vm_compute. Qed.
Lemma torn_reached n : rtc (step store) (started None []) (wrote n (opened drained)).
Proof. etrans; [exact drained_reached|]. eapply rtc_l; [exact opened_drained|]. apply rtc_once. by apply wrote_step; vm_compute. Qed.
Lemma committed_reached : rtc (step store) (started None []) committed.
Proof. etrans; [exact (torn_reached 100)|]. apply rtc_once. by apply synced_step; vm_compute. Qed.
End Toy.
