(* ===== verification/HistoryRun.v ===== *)
(** * Runs of the telemetry history

    The invariant of [History.step] and its consequences: over every interleaving of
    heartbeats, settings, flushes, failures and restarts the memory and the file of a node
    stay within their bounds, and the records that are kept are accepted ones in their
    order, none twice.  A query that is accepted shows the newest of them, unless the
    flusher had put a batch into the file that it had not reported yet. *)

From stdpp Require Import base gmap strings list sorting relations.
From Stdlib Require Import ZArith Lia.
From S2P Require Import Prelude GoLib HistoryFile History HistoryProps.

Local Open Scope Z_scope.

Section Run.
Context `{HistoryCodec} `{!HistoryCodecLaws} (h : telemetryHistory).
Implicit Types s : history.

(** The records in memory that are not in the file. *)
Definition pending (e : nodeHist) : list telemetryHistoryRecord := (if nh_inflightOnDisk e then [] else nh_inflight e) ++ nh_buf e.

(** The file without the batch that is being written. *)
Definition settled s : bytes := match hi_flusher s with Appending _ _ start _ | Committed _ _ start _ => take start (file_of s) | _ => file_of s end.

(** Where the flusher is: [ls] are the lines of [settled], [rest] what follows them in the file. *)
Definition phase s (ls : list bytes) (rest : bytes) : Prop :=
  file_of s = enc ls ++ rest /\
  match hi_flusher s with
  | Idle => newline ∉ rest /\ nh_inflight (hi_node s) = [] /\ nh_inflightOnDisk (hi_node s) = false
  | Drained _ => newline ∉ rest /\ nh_inflightOnDisk (hi_node s) = false
  | Appending _ selected start unwritten =>
      nh_inflightOnDisk (hi_node s) = false /\ selected `suffix_of` nh_inflight (hi_node s) /\ start = length (enc ls) /\
      rest ++ unwritten = batch_bytes selected /\ Z.of_nat (start + length (batch_bytes selected)) <= fileByteLimit h
  | Committed _ selected start _ =>
      nh_inflightOnDisk (hi_node s) = false /\ selected `suffix_of` nh_inflight (hi_node s) /\ start = length (enc ls) /\ rest = batch_bytes selected
  | Marked _ _ | Finished => newline ∉ rest /\ (nh_inflight (hi_node s) = [] \/ nh_inflightOnDisk (hi_node s) = true)
  end.

Record inv s : Prop := mkInv {
  i_mem : mem_ok h (hi_node s); i_size : Z.of_nat (length (file_of s)) <= fileByteLimit h; i_readable : Forall readable (hi_accepted s);
  i_order : exists ls rest, phase s ls rest /\ Forall is_line ls /\ (hi_unrepaired s = false -> ls ++ (line_of <$> pending (hi_node s)) `sublist_of` hi_accepted s) }.

Lemma file_limit_pos : 0 < fileByteLimit h.
Proof. unfold fileByteLimit. destruct (Z.leb_spec (th_maxFileBytes h) 0); [done|lia]. Qed.
Lemma compact_limit : 0 < compactByteLimit h <= fileByteLimit h.
Proof.
  pose proof file_limit_pos. unfold compactByteLimit. cbv zeta. destruct (Z.leb_spec (th_compactTargetBytes h) 0); cbn [orb]; [lia|]. destruct (Z.ltb_spec (fileByteLimit h) (th_compactTargetBytes h)); lia.
Qed.

Lemma suffix_sublist {A} (a b : list A) : a `suffix_of` b -> a `sublist_of` b.
Proof. intros [k ->]. by apply sublist_inserts_l. Qed.

(** A heartbeat or a setting: the batch and the file stay. *)
Lemma inv_node e s s' rs :
  inv s -> mem_ok h e -> nh_inflight e = nh_inflight (hi_node s) -> nh_inflightOnDisk e = nh_inflightOnDisk (hi_node s) -> nh_buf e `suffix_of` nh_buf (hi_node s) ++ rs -> Forall good rs ->
  hi_node s' = e -> hi_file s' = hi_file s -> hi_flusher s' = hi_flusher s -> hi_unrepaired s' = hi_unrepaired s -> hi_accepted s' = hi_accepted s ++ (line_of <$> rs) -> inv s'.
Proof.
  intros [Hm Hz Ha (ls & rest & Hp & Hl & Ho)] He E1 E2 Hs Hg F1 F2 F3 F4 F5. unfold phase, file_of in *. split; rewrite ?F1, ?F2, ?F3, ?F4, ?F5; [done|unfold file_of; by rewrite F2| |].
  - apply Forall_app. split; [done|]. apply Forall_fmap. eapply Forall_impl; [exact Hg|]. by intros r (Hr & _).
  - exists ls, rest. split_and!; [unfold phase, file_of; by rewrite F1, F2, F3, E1, E2|done|]. intros Hu. specialize (Ho Hu). unfold pending in *. rewrite E1, E2.
    etrans; [|apply sublist_app; [exact Ho|reflexivity]]. rewrite <- !app_assoc, <- fmap_app, <- app_assoc. apply sublist_app; [done|]. apply fmap_sublist, sublist_app; [done|]. by apply suffix_sublist.
Qed.

(** A batch that goes back. *)
Lemma give_back_inv cap s ls rest :
  mem_ok h (hi_node s) -> Z.of_nat (length (file_of s)) <= fileByteLimit h -> Forall readable (hi_accepted s) -> file_lines (file_of s) ls rest -> nh_inflightOnDisk (hi_node s) = false ->
  (hi_unrepaired s = false -> ls ++ (line_of <$> pending (hi_node s)) `sublist_of` hi_accepted s) -> inv (give_back h cap s).
Proof.
  intros Hm Hz Ha (Hf & Hl & Hn) Hd Ho. destruct (requeue_ok h cap _ Hm) as (Hm' & Hi & Hd' & _ & Hs). split; [done|done|done|]. exists ls, rest. split_and!; [by split_and!|done|].
  intros Hu. etrans; [|exact (Ho Hu)]. apply sublist_app; [done|]. apply fmap_sublist. cbn [give_back at_ with_node hi_node]. unfold pending. rewrite Hi, Hd', Hd. by apply suffix_sublist.
Qed.

(** The newest records of a batch, within both limits. *)
Lemma drop_to_fit_spec lim sized selected n :
  drop_to_fit lim sized (foldr Z.add 0 (sized.*2)) = Some (selected, n) -> exists sized', selected = sized'.*1 /\ sized' `suffix_of` sized /\ n = foldr Z.add 0 (sized'.*2) /\ n <= lim.
Proof.
  induction sized as [|[r k] sized IH]; cbn [drop_to_fit]; [done|]. destruct (Z.ltb_spec lim (foldr Z.add 0 (((r, k) :: sized).*2))).
  - replace (foldr Z.add 0 (((r, k) :: sized).*2) - k) with (foldr Z.add 0 (sized.*2)) by (cbn; lia). intros Hd. destruct (IH Hd) as (sized' & -> & Hs & -> & Hn). exists sized'. split_and!; [done| |done|done]. by apply suffix_cons_r.
  - intros [= <- <-]. exists ((r, k) :: sized). by split_and!.
Qed.

Lemma prepare_spec samples cap lim selected n :
  Forall good samples -> 0 <= lim -> prepareTelemetryHistoryBatch samples cap lim = Some (selected, n) -> selected `suffix_of` samples /\ n = Z.of_nat (length (batch_bytes selected)) /\ n <= lim.
Proof.
  intros Hg Hl. unfold prepareTelemetryHistoryBatch. destruct (_ || _); [intros [= <- <-]; split_and!; [by exists samples; rewrite app_nil_r|done|done]|].
  destruct (mapM _ _) as [sized|] eqn:Hs; [|done]. cbn. intros Hd. destruct (drop_to_fit_spec _ _ _ _ Hd) as (sized' & -> & [k ->] & -> & Hn).
  assert (keep_newest (Z.to_nat cap) samples `suffix_of` samples) as Hk by apply suffix_drop. pose proof (suffix_good _ _ Hk Hg) as Hg'.
  apply mapM_Some_1 in Hs. assert ((k ++ sized').*1 = keep_newest (Z.to_nat cap) samples /\ (k ++ sized').*2 = HR_encodedBytes <$> keep_newest (Z.to_nat cap) samples) as [F1 F2].
  { clear -Hs Hg'. induction Hs as [|r [r' m] rs sized Hr _ IH]; [done|]. apply Forall_cons in Hg' as [(_ & Hr' & _) Hg']. destruct (IH Hg') as [I1 I2]. rewrite Hr' in Hr. cbn in Hr.
    destruct (_ <? _); [done|]. injection Hr as <- <-. by rewrite !fmap_cons, I1, I2. }
  rewrite fmap_app in F1. rewrite fmap_app in F2. assert (sized'.*1 `suffix_of` samples) as Hsuf by (etrans; [|exact Hk]; rewrite <- F1; by exists (k.*1)). split_and!; [done| |done].
  rewrite <- total_batch by (by eapply suffix_good). unfold total. f_equal. rewrite <- F1, fmap_app in F2. apply app_inj_2 in F2 as [_ F2]; [done|]. by rewrite !length_fmap.
Qed.

(** A replacement of the file by its newest lines. *)
Lemma compact_whole cap B ls :
  Forall is_line ls -> 0 <= B -> exists ls', (compactJSONL cap B (enc ls)).1 = enc ls' /\ ls' `suffix_of` ls /\ Z.of_nat (length (enc ls')) <= B.
Proof.
  intros Hl HB. destruct (compact_lines cap B (enc ls) ls []) as (ls0 & r0 & _ & _ & Hz); [split_and!; [by rewrite app_nil_r|done|apply not_elem_of_nil]|done|].
  destruct (tail_bounds_whole cap B ls Hl) as [Et Hk]. unfold compactJSONL in *. rewrite Et in *. cbn [fst] in *. rewrite section_tail in * by done. eexists. split_and!; [reflexivity|apply newest_suffix|done].
Qed.

Lemma suffix_lines (a b : list bytes) : a `suffix_of` b -> Forall is_line b -> Forall is_line a.
Proof. intros [k ->] Hb. by apply Forall_app in Hb as [_ Hb]. Qed.

Lemma fewer_lines (a b : list bytes) c d : a `suffix_of` b -> b ++ c `sublist_of` d -> a ++ c `sublist_of` d.
Proof. intros Ha Hb. etrans; [|exact Hb]. apply sublist_app; [by apply suffix_sublist|done]. Qed.

(** What a maintenance leaves. *)
Lemma replaced_inv cap f kept e s s' :
  inv s -> (hi_flusher s = Idle /\ hi_flusher s' = Idle \/ (exists c r, hi_flusher s = Marked c r /\ hi_flusher s' = Finished)) ->
  (exists n, e = set_fileLines n (hi_node s)) \/ e = hi_node s -> compactJSONL cap (compactByteLimit h) (file_of s) = (f, kept) ->
  hi_node s' = e -> hi_file s' = Some f -> hi_accepted s' = hi_accepted s -> hi_unrepaired s' = hi_unrepaired s -> inv s'.
Proof.
  intros [Hm Hz Ha (ls & rest & [Hf Hp] & Hl & Ho)] Hfl He Ec F1 F2 F3 F4. pose proof compact_limit as Hcl.
  assert (mem_ok h e /\ pending e = pending (hi_node s) /\ nh_inflight e = nh_inflight (hi_node s) /\ nh_inflightOnDisk e = nh_inflightOnDisk (hi_node s)) as (Hm' & Ep & Ei & Ed)
    by (destruct He as [[n ->]| ->]; split_and!; try done; by apply lines_ok).
  assert (newline ∉ rest) as Hn by (destruct Hfl as [[E _]|(c & r & E & _)]; rewrite E in Hp; apply Hp).
  destruct (compact_lines cap (compactByteLimit h) (file_of s) ls rest) as (ls' & rest' & (Hf' & Hl' & Hn') & Hs & Hz'); [done|lia|]. rewrite Ec in *. cbn [fst] in *.
  split; rewrite ?F1, ?F3, ?F4; [done|unfold file_of; rewrite F2; cbn; lia|done|]. exists ls', rest'. split_and!; [|done|].
  - unfold phase, file_of. rewrite F1, F2, Ei, Ed. split; [done|]. destruct Hfl as [[E E']|(c & r & E & E')]; rewrite E in Hp; rewrite E'; split; try done; apply Hp.
  - intros Hu. rewrite Ep. eapply fewer_lines; [exact Hs|by apply Ho].
Qed.

Lemma append_inv cap caps record s : inv s -> inv (reads caps (append_locked h cap record s)).
Proof.
  intros Hi. destruct (append_ok h cap record _ (i_mem _ Hi)) as (Hm & E1 & E2 & _ & Hs). pose proof (admitted_ok record (hi_node s) (m_keys _ _ (i_mem _ Hi))) as Ha. unfold append_locked, accepted_line.
  destruct (_ || _); [eapply (inv_node _ s _ []); try done; cbn; by rewrite app_nil_r|]. destruct (admitted_record record (hi_node s)) as [e2 [r|]]; cbn [snd option_list option_map fmap option_fmap] in *.
  - destruct Ha as (_ & _ & Hg). eapply (inv_node _ s _ [r]); try done. by apply Forall_singleton.
  - eapply (inv_node _ s _ []); try done; cbn; by rewrite app_nil_r.
Qed.

(** The flusher has taken a batch: it is written in one replacement, or the file is opened. *)
Lemma drained_inv s c : inv s -> hi_flusher s = Drained c ->
  exists ls rest, file_lines (file_of s) ls rest /\ repaired (file_of s) = enc ls /\ Z.of_nat (length (enc ls)) <= fileByteLimit h /\ nh_inflightOnDisk (hi_node s) = false /\
    (hi_unrepaired s = false -> ls ++ (line_of <$> pending (hi_node s)) `sublist_of` hi_accepted s).
Proof.
  intros [Hm Hz Ha (ls & rest & [Hf Hp] & Hl & Ho)] E. rewrite E in Hp. destruct Hp as [Hn Hd]. exists ls, rest. assert (file_lines (file_of s) ls rest) as Hfl by done. split_and!; [done|by eapply repaired_lines| |done|done].
  rewrite Hf, length_app in Hz. lia.
Qed.

Lemma rewrite_inv cap selected n old new kept s :
  inv s -> hi_flusher s = Drained (Some cap) -> prepareTelemetryHistoryBatch (nh_inflight (hi_node s)) cap (fileByteLimit h) = Some (selected, n) ->
  rewriteHistoryWithBatch (repaired (file_of s)) selected cap (compactByteLimit h) n = (old, new, kept) ->
  inv (at_ (Committed cap selected (length old) (Some kept)) (with_file (old ++ new) s)).
Proof.
  intros Hi E Hp Hr. destruct (drained_inv s _ Hi E) as (ls & rest & (Hf & Hl & _) & Hrep & _ & Hd & Ho). destruct Hi as [Hm _ Ha _]. pose proof file_limit_pos. pose proof compact_limit.
  destruct (prepare_spec _ _ (fileByteLimit h) _ _ (m_inflight _ _ Hm) ltac:(lia) Hp) as (Hs & Hn & Hfit). unfold rewriteHistoryWithBatch in Hr. rewrite Hrep in Hr.
  set (lim := Z.max 0 _) in Hr. set (room := Z.max _ _ - n) in Hr. assert (0 <= room <= fileByteLimit h - n) as Hroom by (unfold room; lia). destruct (compact_whole lim room ls Hl) as (ls' & Ec & Hsuf & Hz'); [lia|]. unfold compactJSONL in Ec.
  destruct (historyTailBounds lim room (enc ls)) as [[b e] k]. cbn [fst] in Ec. injection Hr as <- <- <-. rewrite Ec.
  split; [done|cbn [file_of at_ with_file hi_file default]; unfold id; rewrite length_app; lia|done|]. exists ls', (batch_bytes selected). split_and!; [|by eapply suffix_lines|].
  - split; [done|]. by split_and!.
  - intros Hu. eapply fewer_lines; [exact Hsuf|by apply Ho].
Qed.

Lemma open_inv cap selected n s :
  inv s -> hi_flusher s = Drained (Some cap) -> prepareTelemetryHistoryBatch (nh_inflight (hi_node s)) cap (fileByteLimit h) = Some (selected, n) ->
  n <= fileByteLimit h - Z.of_nat (length (repaired (file_of s))) ->
  inv (at_ (Appending cap selected (length (repaired (file_of s))) (batch_bytes selected)) (with_file (repaired (file_of s)) s)).
Proof.
  intros Hi E Hp Hr. destruct (drained_inv s _ Hi E) as (ls & rest & (Hf & Hl & _) & Hrep & Hz & Hd & Ho). destruct Hi as [Hm _ Ha _]. pose proof file_limit_pos.
  destruct (prepare_spec _ _ (fileByteLimit h) _ _ (m_inflight _ _ Hm) ltac:(lia) Hp) as (Hs & Hn & Hfit). rewrite Hrep in *. split; [done|done|done|]. exists ls, []. split_and!; [|done|done].
  split; [by rewrite app_nil_r|]. split_and!; [done|done|done|done|lia].
Qed.

(** Some bytes of the batch are written. *)
Lemma write_inv cap selected start written unwritten s :
  inv s -> hi_flusher s = Appending cap selected start (written ++ unwritten) -> inv (at_ (Appending cap selected start unwritten) (with_file (file_of s ++ written) s)).
Proof.
  intros [Hm Hz Ha (ls & rest & [Hf Hp] & Hl & Ho)] E. rewrite E in Hp. destruct Hp as (Hd & Hs & -> & Hb & Hfit).
  split; [done| |done|].
  - cbn [file_of at_ with_file hi_file default]. unfold id. apply (f_equal length) in Hb. rewrite !length_app in Hb. rewrite Hf, !length_app. lia.
  - exists ls, (rest ++ written). split_and!; [|done|done]. split; [cbn; unfold id; by rewrite Hf, <- app_assoc|]. split_and!; [done|done|done| |done]. by rewrite <- app_assoc.
Qed.

Lemma rollback_inv cap selected start unwritten s :
  inv s -> hi_flusher s = Appending cap selected start unwritten -> inv (give_back h cap (with_file (take start (file_of s)) s)) /\ inv (give_back h cap (not_repaired s)).
Proof.
  intros [Hm Hz Ha (ls & rest & [Hf Hp] & Hl & Ho)] E. rewrite E in Hp. destruct Hp as (Hd & Hs & -> & Hb & Hfit). split.
  - apply (give_back_inv _ _ ls []); cbn [with_file file_of hi_node hi_file hi_accepted hi_unrepaired default]; unfold id; try done; rewrite Hf, take_app_length; [lia|]. split_and!; [by rewrite app_nil_r|done|apply not_elem_of_nil].
  - assert (Forall is_line (line_of <$> selected)) as Hsl by (apply good_lines; by eapply suffix_good, m_inflight). destruct (cut_lines rest unwritten _ Hb Hsl) as (k & r & -> & Hn).
    apply (give_back_inv _ _ (ls ++ take k (line_of <$> selected)) r); try done. split_and!; [change (file_of (not_repaired s)) with (file_of s); by rewrite Hf, enc_app, <- app_assoc| |done]. apply Forall_app. split; [done|by apply Forall_take].
Qed.

(** The batch is in the file and the memory is told. *)
Lemma mark_inv cap selected start r n s p :
  inv s -> hi_flusher s = Committed cap selected start r -> (p = Finished \/ exists c rs, p = Marked c rs) -> inv (at_ p (with_node (set_fileLines n (markInflightOnDisk (hi_node s))) s)) /\ inv (at_ p (with_node (markInflightOnDisk (hi_node s)) s)).
Proof.
  intros [Hm Hz Ha (ls & rest & [Hf Hp] & Hl & Ho)] E Hpp. rewrite E in Hp. destruct Hp as (Hd & Hs & -> & ->).
  assert (pending (markInflightOnDisk (hi_node s)) = nh_buf (hi_node s) /\ (nh_inflight (markInflightOnDisk (hi_node s)) = [] \/ nh_inflightOnDisk (markInflightOnDisk (hi_node s)) = true)) as [Ep Ei].
  { unfold markInflightOnDisk. destruct (nh_inflight (hi_node s)) eqn:En; [|by split; [|right]]. split; [unfold pending; by rewrite Hd, En|by left]. }
  assert (hi_unrepaired s = false -> (ls ++ (line_of <$> selected)) ++ (line_of <$> nh_buf (hi_node s)) `sublist_of` hi_accepted s) as Ho'.
  { intros Hu. etrans; [|exact (Ho Hu)]. unfold pending. rewrite Hd, fmap_app, <- app_assoc. apply sublist_app; [done|]. apply sublist_app; [|done]. by apply fmap_sublist, suffix_sublist. }
  assert (Forall is_line (ls ++ (line_of <$> selected))) as Hl' by (apply Forall_app; split; [done|]; apply good_lines; by eapply suffix_good, m_inflight).
  assert (file_of s = enc (ls ++ (line_of <$> selected)) ++ []) as Hf' by (by rewrite app_nil_r, enc_app).
  split; (split; [first [by apply lines_ok, mark_ok|by apply mark_ok]|done|done|]); exists (ls ++ (line_of <$> selected)), []; (split_and!; [|done|]).
  1, 3: split; [done|]; by destruct Hpp as [->|(c & rs & ->)]; (split; [apply not_elem_of_nil|]).
  all: change (pending (markInflightOnDisk (hi_node s)) = nh_buf (hi_node s)) in Ep; cbn [at_ with_node hi_node hi_unrepaired hi_accepted]; try change (pending (set_fileLines n ?e)) with (pending e); rewrite Ep; exact Ho'.
Qed.

Lemma counted_same cap selected known e s : counted cap selected known e s -> (exists n, e = set_fileLines n (hi_node s)) \/ e = hi_node s.
Proof. unfold counted. destruct (_ <? 0); [intros [[_ ->]|(n & _ & _ & ->)]; [by right|left; by exists n]|]. intros [_ ->]. left. by eexists. Qed.

Lemma step_inv s s' : inv s -> step h s s' -> inv s'.
Proof.
  intros Hi. destruct 1 as [s|cap pre post record s _|c s _|c pre post s _|s _ E Hb|s E|cap s E _|cap s E _|cap s E _|cap sel n old new kept s E _ Hp _ Hr|cap sel n s E _ Hp Hz|cap sel start w u s E|cap sel start u s E|cap sel start u s E
    |cap sel start s E|cap sel start s E|cap sel start kept s E|cap sel known e s E Hc|cap sel known size e f kept told s E Hc _ _ Hf|s E|f kept told s _ E _ Hf].
  - eapply (inv_node (hi_node s) s _ []); try done; [apply Hi|by rewrite app_nil_r|cbn; by rewrite app_nil_r].
  - by apply append_inv.
  - eapply (inv_node (hi_node s) s _ []); try done; [apply Hi|by rewrite app_nil_r|cbn; by rewrite app_nil_r].
  - destruct (apply_cap_ok h c _ (i_mem _ Hi)) as (Hm & E1 & E2 & _ & Hs). eapply (inv_node _ s _ []); try done; cbn; by rewrite app_nil_r.
  - destruct Hi as [Hm Hz Ha (ls & rest & [Hf Hp] & Hl & Ho)]. rewrite E in Hp. destruct Hp as (Hn & Hi & Hd). split; [by apply drain_ok|done|done|]. exists ls, rest. split_and!; [by split_and!|done|].
    intros Hu. specialize (Ho Hu). unfold pending in *. cbn. rewrite app_nil_r. by rewrite Hd, Hi in Ho.
  - destruct (drained_inv s _ Hi E) as (ls & rest & (Hf & Hl & Hn) & _ & _ & Hd & Ho). destruct Hi as [Hm Hz Ha _]. split; [done..|]. by exists ls, rest.
  - destruct (drained_inv s _ Hi E) as (ls & rest & (Hf & Hl & Hn) & _ & _ & Hd & Ho). destruct Hi as [Hm Hz Ha _]. split; [by apply clear_ok|done|done|]. exists ls, rest. split_and!; [by split_and!|done|].
    intros Hu. etrans; [|exact (Ho Hu)]. apply sublist_app; [done|]. unfold pending. rewrite Hd. apply fmap_sublist. cbn. by apply sublist_inserts_l.
  - destruct (drained_inv s _ Hi E) as (ls & rest & Hfl & _ & _ & Hd & Ho). destruct Hi as [Hm Hz Ha _]. by eapply give_back_inv.
  - destruct (drained_inv s _ Hi E) as (ls & rest & (Hf & Hl & Hn) & Hr & Hz' & Hd & Ho). destruct Hi as [Hm Hz Ha _].
    apply (give_back_inv _ _ ls []); cbn [with_file file_of hi_node hi_file hi_accepted hi_unrepaired default]; unfold id; rewrite ?Hr; try done. split_and!; [by rewrite app_nil_r|done|apply not_elem_of_nil].
  - by eapply rewrite_inv.
  - by eapply open_inv.
  - by eapply write_inv.
  - by eapply rollback_inv.
  - by eapply rollback_inv.
  - destruct Hi as [Hm Hz Ha (ls & rest & [Hf Hp] & Hl & Ho)]. rewrite E in Hp. destruct Hp as (Hd & Hs & -> & Hb & _). rewrite app_nil_r in Hb. split; [done..|]. exists ls, rest. split_and!; [by split_and!|done|done].
  - apply (mark_inv cap sel start None 0 s); [done|done|]. right. by eexists _, _.
  - apply (mark_inv cap sel start (Some kept) kept s); [done|done|by left].
  - destruct Hi as [Hm Hz Ha (ls & rest & [Hf Hp] & Hl & Ho)]. rewrite E in Hp. destruct (counted_same _ _ _ _ _ Hc) as [[n ->]| ->]; (split; [first [apply lines_ok; exact Hm|exact Hm]|exact Hz|exact Ha|exists ls, rest; split_and!; [by split_and!|exact Hl|exact Ho]]).
  - eapply (replaced_inv cap f kept (if told then set_fileLines kept e else e) s); try done; [right; by eexists _, _|]. destruct (counted_same _ _ _ _ _ Hc) as [[n ->]| ->]; destruct told; eauto.
  - destruct Hi as [Hm Hz Ha (ls & rest & [Hf Hp] & Hl & Ho)]. rewrite E in Hp. destruct Hp as (Hn & Hd). split; [by apply clear_ok|done|done|]. exists ls, rest. split_and!; [by split_and!|done|].
    intros Hu. etrans; [|exact (Ho Hu)]. apply sublist_app; [done|]. apply fmap_sublist. unfold pending. cbn. by apply sublist_inserts_l.
  - unfold maintainHistoryFile in Hf. cbv zeta in Hf. destruct (_ && _); [done|]. injection Hf as Hf. eapply (replaced_inv _ f kept (if told then set_fileLines kept (hi_node s) else hi_node s) s); try done; [by left|]. destruct told; eauto.
Qed.

(** The lines of the file itself, with what was written of a batch. *)
Lemma inv_file s : inv s -> exists ls rest, file_lines (file_of s) ls rest /\ (hi_unrepaired s = false -> ls `sublist_of` hi_accepted s).
Proof.
  intros [Hm Hz Ha (ls & rest & [Hf Hp] & Hl & Ho)].
  assert (newline ∉ rest -> exists ls rest, file_lines (file_of s) ls rest /\ (hi_unrepaired s = false -> ls `sublist_of` hi_accepted s)) as Hwhole.
  { intros Hn. exists ls, rest. split; [done|]. intros Hu. etrans; [|exact (Ho Hu)]. by apply sublist_inserts_r. }
  assert (forall sel k r, nh_inflightOnDisk (hi_node s) = false -> sel `suffix_of` nh_inflight (hi_node s) -> rest = enc (take k (line_of <$> sel)) ++ r -> newline ∉ r ->
    exists ls rest, file_lines (file_of s) ls rest /\ (hi_unrepaired s = false -> ls `sublist_of` hi_accepted s)) as Hbatch.
  { intros sel k r Hd Hs -> Hn. exists (ls ++ take k (line_of <$> sel)), r. split.
    - split_and!; [by rewrite Hf, enc_app, <- app_assoc| |done]. apply Forall_app. split; [done|]. apply Forall_take, good_lines. by eapply suffix_good, m_inflight.
    - intros Hu. etrans; [|exact (Ho Hu)]. apply sublist_app; [done|]. etrans; [apply sublist_take|]. apply fmap_sublist. unfold pending. rewrite Hd. apply sublist_inserts_r. by apply suffix_sublist. }
  destruct (hi_flusher s) as [| |cap sel start u|cap sel start r|cap sel|]; try (apply Hwhole; by destruct Hp).
  - destruct Hp as (Hd & Hs & -> & Hb & _). destruct (cut_lines rest u _ Hb) as (k & r & -> & Hn); [apply good_lines; by eapply suffix_good, m_inflight|]. by eapply (Hbatch sel k r).
  - destruct Hp as (Hd & Hs & -> & ->). eapply (Hbatch sel (length sel) []); [done|done| |apply not_elem_of_nil]. by rewrite take_ge, app_nil_r by (by rewrite length_fmap).
Qed.

Lemma inv_settled s : inv s -> exists ls rest, file_lines (settled s) ls rest /\ (hi_unrepaired s = false -> ls ++ (line_of <$> pending (hi_node s)) `sublist_of` hi_accepted s).
Proof.
  intros [_ _ _ (ls & rest & [Hf Hp] & Hl & Ho)]. unfold settled. assert (file_lines (enc ls) ls []) as Hw by (split_and!; [by rewrite app_nil_r|done|apply not_elem_of_nil]).
  destruct (hi_flusher s); try (exists ls, rest; split; [|done]; split_and!; [done|done|by destruct Hp]); exists ls, []; (split; [|done]); destruct Hp as (_ & _ & -> & _); by rewrite Hf, take_app_length.
Qed.

Lemma volatile_limit : 0 <= volatileByteLimit h.
Proof. unfold volatileByteLimit. by destruct (th_dir h). Qed.
Lemma new_mem : mem_ok h newNodeHist.
Proof. split; try done; [|apply volatile_limit]. split; try done; try apply NoDup_nil_2; cbn; lia. Qed.

Lemma started_inv f ls rest : file_lines (default [] f) ls rest -> Forall readable ls -> Z.of_nat (length (default [] f)) <= fileByteLimit h -> inv (started f ls).
Proof. intros (Hf & Hl & Hn) Hr Hz. split; [apply new_mem|done|done|]. exists ls, rest. split_and!; [by split_and!|done|]. intros _. cbn. by rewrite app_nil_r. Qed.

Lemma event_inv s s' : inv s -> event h s s' -> inv s'.
Proof.
  intros Hi. destruct 1 as [s s' Hs|s]; [by eapply step_inv|]. destruct (inv_file s Hi) as (ls & rest & (Hf & Hl & Hn) & Ho). destruct Hi as [_ Hz Ha _]. split; [apply new_mem|done|done|].
  exists ls, rest. split_and!; [by split_and!|done|]. intros Hu. cbn. rewrite app_nil_r. by apply Ho.
Qed.
Lemma events_inv s s' : inv s -> events h s s' -> inv s'.
Proof. intros Hi. induction 1 as [s|s s1 s' He _ IH]; [done|]. by apply IH; eapply event_inv. Qed.

(** C25. A node's history is bounded, whatever heartbeats, settings, flushes, failures and
    restarts do in whatever order: the records in memory, the batch that is being written
    included, have at most the bytes of the volatile limit, the file has at most the bytes
    of its ceiling at every moment (while a batch is appended as well), and the remembered
    keys of attempts and readings are sets of bounded size. *)
Theorem history_bounded f ls rest s :
  file_lines (default [] f) ls rest -> Forall readable ls -> Z.of_nat (length (default [] f)) <= fileByteLimit h -> events h (started f ls) s ->
  Z.of_nat (length (batch_bytes (nh_inflight (hi_node s) ++ nh_buf (hi_node s)))) <= volatileByteLimit h /\
  Z.of_nat (length (file_of s)) <= fileByteLimit h /\
  (size (nh_recentProbeKeys (hi_node s)) <= maxProbeHistoryRecentKeys)%nat /\ (size (nh_recentDeviceKeys (hi_node s)) <= maxDeviceHistoryRecentKeys)%nat.
Proof.
  intros Hf Hr Hz Hs. destruct (events_inv _ _ (started_inv f ls rest Hf Hr Hz) Hs) as [Hm Hz' _ _]. destruct Hm as [Hk Hb Hi Hbb Hib Hl]. split_and!; [|done|..].
  - rewrite <- total_batch by (by apply Forall_app). rewrite total_app. lia.
  - destruct Hk as [<- Hnd Hlen _ _ _]. by rewrite size_list_to_set.
  - destruct Hk as [_ _ _ <- Hnd Hlen]. by rewrite size_list_to_set.
Qed.

(** C15. As long as no truncation after a failed append failed itself, the lines in the
    file without the batch in hand, the batch and the records after it are lines the
    history accepted, in the order it accepted them and none more often than it did; and
    so are the complete lines of the file at every moment, which is what a crash leaves.
    This holds for every interleaving with failures at every point of a flush. *)
Theorem history_in_order f ls rest s :
  file_lines (default [] f) ls rest -> Forall readable ls -> Z.of_nat (length (default [] f)) <= fileByteLimit h -> events h (started f ls) s -> hi_unrepaired s = false ->
  (exists durable torn, file_lines (settled s) durable torn /\ durable ++ (line_of <$> pending (hi_node s)) `sublist_of` hi_accepted s) /\
  (exists durable torn, file_lines (file_of s) durable torn /\ durable `sublist_of` hi_accepted s).
Proof.
  intros Hf Hr Hz Hs Hu. pose proof (events_inv _ _ (started_inv f ls rest Hf Hr Hz) Hs) as Hi. split.
  - destruct (inv_settled s Hi) as (ls' & rest' & Hf' & Ho). exists ls', rest'. split; [done|by apply Ho].
  - destruct (inv_file s Hi) as (ls' & rest' & Hf' & Ho). exists ls', rest'. split; [done|by apply Ho].
Qed.

(** ** A flush without a failure *)

Lemma prepare_newest samples cap lim :
  Forall good samples -> samples <> [] -> 0 < cap -> total samples <= lim -> prepareTelemetryHistoryBatch samples cap lim = Some (newest (Z.to_nat cap) samples, total (newest (Z.to_nat cap) samples)).
Proof.
  intros Hg Hne Hc Ht. unfold prepareTelemetryHistoryBatch. destruct (Z.leb_spec cap 0); [lia|]. destruct samples as [|r0 rs0]; [done|]. cbn [orb length Nat.eqb].
  change (keep_newest (Z.to_nat cap) (r0 :: rs0)) with (newest (Z.to_nat cap) (r0 :: rs0)). destruct (newest_suffix (Z.to_nat cap) (r0 :: rs0)) as [k Ek].
  pose proof (length_newest (Z.to_nat cap) (r0 :: rs0)) as Hlen. set (rs := newest (Z.to_nat cap) (r0 :: rs0)) in *. rewrite Ek in Hg, Ht. apply Forall_app in Hg as [Hgk Hg]. rewrite total_app in Ht. pose proof (total_nonneg _ Hgk).
  assert (mapM (fun r => n ← telemetryHistoryRecordEncodedBytes r; if maxTelemetryHistoryLineBytes <? n then None else Some (r, n)) rs = Some ((fun r => (r, HR_encodedBytes r)) <$> rs)) as ->.
  { clear -Hg. induction Hg as [|r rs ((_ & _ & Hl) & Hr & Hn) _ IH]; [done|]. cbn [mapM]. rewrite Hr. cbn. destruct (Z.ltb_spec maxTelemetryHistoryLineBytes (HR_encodedBytes r)); [lia|]. cbn. by rewrite IH. }
  cbn [mbind option_bind]. rewrite <- list_fmap_compose. change (snd ∘ (fun r => (r, HR_encodedBytes r))) with HR_encodedBytes. fold (total rs). destruct rs as [|r rs]; [cbn in Hlen; lia|].
  rewrite fmap_cons. cbn [drop_to_fit]. destruct (Z.ltb_spec lim (total (r :: rs))); [lia|]. cbn [fst fmap list_fmap]. do 3 f_equal. rewrite <- list_fmap_compose. apply list_fmap_id.
Qed.

(** A compaction that has room for the newest lines keeps them. *)
Lemma fitting_ge m b ls bs : Z.of_nat (length bs) <= m -> Z.of_nat (length (enc bs)) <= b -> (length bs <= fitting m b (reverse (ls ++ bs)))%nat.
Proof.
  revert m b. induction bs as [|l bs IH] using rev_ind; intros m b Hm Hb; [cbn; lia|]. rewrite app_assoc, reverse_app. change (reverse [l]) with [l]. cbn [app fitting]. rewrite length_enc_snoc in Hb. rewrite length_app in *. cbn [length] in *.
  destruct (Z.leb_spec m 0); [lia|]. destruct (Z.ltb_spec b (Z.of_nat (S (length l)))); [lia|]. cbn [orb]. specialize (IH (m - 1) (b - Z.of_nat (S (length l))) ltac:(lia) ltac:(lia)). lia.
Qed.
Lemma compact_keeps cap B ls bs :
  Forall is_line (ls ++ bs) -> Z.of_nat (length bs) <= cap -> Z.of_nat (length (enc bs)) <= B -> 0 < B -> exists ls', (compactJSONL cap B (enc (ls ++ bs))).1 = enc (ls' ++ bs) /\ ls' `suffix_of` ls.
Proof.
  intros Hl Hc HB HB0. destruct (tail_bounds_whole cap B (ls ++ bs) Hl) as [Et Hk]. unfold compactJSONL. rewrite Et. cbn [fst]. rewrite section_tail by done. pose proof (fitting_ge cap B ls bs Hc HB) as Hge.
  unfold kept_lines in *. destruct (Z.leb_spec B 0); [lia|]. set (k := fitting cap B (reverse (ls ++ bs))) in *. exists (newest (k - length bs) ls). split; [|apply newest_suffix]. f_equal.
  rewrite newest_app, (newest_all k bs) by done. done.
Qed.

(** From the drained batch to the report: one replacement, or an append. *)
Lemma batch_written s cap sel :
  inv s -> hi_flusher s = Drained (Some cap) -> 0 < cap -> prepareTelemetryHistoryBatch (nh_inflight (hi_node s)) cap (fileByteLimit h) = Some (sel, total sel) ->
  Z.of_nat (length sel) <= cap -> total sel <= compactByteLimit h ->
  let s' := at_ Finished (write_batch h cap sel (total sel) s) in
  rtc (step h) s s' /\ nh_buf (hi_node s') = nh_buf (hi_node s) /\ exists ls ls' rest, file_lines (file_of s) ls rest /\ ls' `suffix_of` ls /\ file_of s' = enc (ls' ++ (line_of <$> sel)).
Proof.
  intros Hi E Hc Hp Hlen Ht. destruct (drained_inv s _ Hi E) as (ls & rest & Hfl & Hrep & Hz & Hd & _). pose proof compact_limit as Hcl.
  pose proof (prepare_spec _ _ (fileByteLimit h) _ _ (m_inflight _ _ (i_mem _ Hi)) ltac:(lia) Hp) as (Hsuf0 & Hn & Hfit).
  assert (nh_buf (markInflightOnDisk (hi_node s)) = nh_buf (hi_node s)) as Hbuf by (unfold markInflightOnDisk; by destruct (nh_inflight (hi_node s))).
  assert (Forall is_line (ls ++ (line_of <$> sel))) as Hall by (apply Forall_app; split; [apply Hfl|]; apply good_lines; by eapply suffix_good, m_inflight, i_mem).
  cbv zeta. unfold write_batch. destruct (Z.ltb_spec (fileByteLimit h - Z.of_nat (length (repaired (file_of s)))) (total sel)) as [Hgt|Hle].
  - destruct (rewriteHistoryWithBatch (repaired (file_of s)) sel cap (compactByteLimit h) (total sel)) as [[old new] kept] eqn:Er.
    pose proof (step_rewrite h cap sel (total sel) old new kept s E Hc Hp Hgt Er) as Hs1. split_and!; [eapply rtc_l; [exact Hs1|]; apply rtc_once; exact (step_mark_rewritten h cap sel (length old) kept (at_ (Committed cap sel (length old) (Some kept)) (with_file (old ++ new) s)) eq_refl)|exact Hbuf|].
    unfold rewriteHistoryWithBatch in Er. rewrite Hrep in Er. set (lim := Z.max 0 _) in Er. set (room := Z.max _ _ - total sel) in Er. destruct (compact_whole lim room ls (proj1 (proj2 Hfl))) as (ls' & Ec & Hsuf & _); [unfold room; lia|].
    unfold compactJSONL in Ec. destruct (historyTailBounds lim room (enc ls)) as [[b e] k]. cbn [fst] in Ec. injection Er as <- <- <-. exists ls, ls', rest. split_and!; [done|done|]. cbn. unfold id. by rewrite Ec, enc_app.
  - set (s1 := at_ (Appending cap sel (length (repaired (file_of s))) (batch_bytes sel)) (with_file (repaired (file_of s)) s)).
    set (s2 := at_ (Appending cap sel (length (repaired (file_of s))) []) (with_file (file_of s1 ++ batch_bytes sel) s1)). set (s3 := at_ (Committed cap sel (length (repaired (file_of s))) None) s2).
    set (s4 := at_ (Marked cap sel) (with_node (markInflightOnDisk (hi_node s3)) s3)). assert (rtc (step h) s s4) as Hrun.
    { eapply rtc_l; [by eapply (step_open h cap sel)|]. eapply rtc_l; [eapply (step_write h cap sel _ (batch_bytes sel) []); by rewrite app_nil_r|]. eapply rtc_l; [by apply (step_sync h cap sel)|]. apply rtc_once. by eapply (step_mark h cap sel). }
    cbv zeta. set (f := file_of (with_file _ s)). assert (f = enc (ls ++ (line_of <$> sel))) as Hf by (unfold f; cbn; unfold id; by rewrite Hrep, enc_app). set (e := markInflightOnDisk _). set (known := if nh_fileLines e <? 0 then _ else _).
    assert (counted cap sel (Some known) (set_fileLines known e) s4) as Hcd.
    { unfold counted, known. change (nh_fileLines (hi_node s4)) with (nh_fileLines e). change (hi_node s4) with e. change (file_of s4) with f. destruct (nh_fileLines e <? 0); [right; by eexists|done]. }
    destruct (needs_compaction h cap (Some known) (Some (Z.of_nat (length f)))) eqn:En.
    + destruct (compactJSONL cap (compactByteLimit h) f) as [f' kept] eqn:Ec. split_and!; [|exact Hbuf|].
      * eapply rtc_r; [exact Hrun|]. exact (step_compact h cap sel (Some known) (Some (Z.of_nat (length f))) _ f' kept true s4 eq_refl Hcd (or_intror eq_refl) En Ec).
      * destruct (compact_keeps cap (compactByteLimit h) ls (line_of <$> sel) Hall) as (ls' & Ek & Hs); [by rewrite length_fmap|fold (batch_bytes sel); lia|lia|]. rewrite <- Hf, Ec in Ek. exists ls, ls', rest. by split_and!.
    + split_and!; [eapply rtc_r; [exact Hrun|]; exact (step_count h cap sel (Some known) _ s4 eq_refl Hcd)|exact Hbuf|]. exists ls, ls, rest. by split_and!.
Qed.

(** C26. A flush is complete: from a state with records in memory and a positive cap,
    [flushOnce] without a failing operation is a run of the machine after which no record
    is left in memory, and the file holds the newest of them, as many as the cap, after
    the newest of the lines it held before.  The byte limits of the store leave room for
    what memory can hold. *)
Theorem flush_persists f ls rest s :
  file_lines (default [] f) ls rest -> Forall readable ls -> Z.of_nat (length (default [] f)) <= fileByteLimit h -> events h (started f ls) s ->
  th_dir h = true -> volatileByteLimit h <= compactByteLimit h -> hi_flusher s = Idle -> nh_buf (hi_node s) <> [] -> 0 < cap_of h s ->
  let s' := flushOnce h s in
  rtc (step h) s s' /\ hi_flusher s' = Idle /\ pending (hi_node s') = [] /\
  exists before kept torn, file_lines (file_of s) before torn /\ kept `suffix_of` before /\ file_of s' = enc (kept ++ (line_of <$> newest (Z.to_nat (cap_of h s)) (nh_buf (hi_node s)))).
Proof.
  intros Hf Hr Hz Hs Hd Hv E Hb Hc. pose proof (events_inv _ _ (started_inv f ls rest Hf Hr Hz) Hs) as Hi. pose proof (step_drain h s Hd E Hb) as Hdr. pose proof (step_flush_cap h (at_ (Drained None) (with_node (drain (hi_node s)) s)) eq_refl) as Hrc. pose proof (step_inv _ _ (step_inv _ _ Hi Hdr) Hrc) as Hi1. pose proof compact_limit as Hcl.
  pose proof (i_mem _ Hi) as [_ Hgb Hg Hbb Hib Hl]. pose proof (total_nonneg _ Hg). set (rs := newest (Z.to_nat (cap_of h s)) (nh_buf (hi_node s))).
  assert (total rs <= total (nh_buf (hi_node s))) as Htot by (destruct (newest_suffix (Z.to_nat (cap_of h s)) (nh_buf (hi_node s))) as [k Ek]; fold rs in Ek; rewrite Ek in *; apply Forall_app in Hgb as [Hgk _]; rewrite total_app; pose proof (total_nonneg _ Hgk); lia).
  pose proof (prepare_newest (nh_buf (hi_node s)) (cap_of h s) (fileByteLimit h) Hgb Hb Hc ltac:(lia)) as Hp. fold rs in Hp.
  set (s1 := at_ (Drained (Some (cap_of h s))) (with_node (drain (hi_node s)) s)). change (inv s1) in Hi1. destruct (batch_written s1 (cap_of h s) rs Hi1 eq_refl Hc Hp) as (Hrun & Hbuf & Hfile); [unfold rs; rewrite length_newest; lia|lia|].
  unfold flushOnce. destruct (nh_buf (hi_node s)) as [|r0 rs0] eqn:Eb; [done|]. cbv zeta. fold s1. destruct (Z.leb_spec (cap_of h s) 0); [lia|].
  change (nh_inflight (hi_node s1)) with (nh_buf (hi_node s)). rewrite Eb, Hp. split_and!; [|done| |done].
  - eapply rtc_l; [exact Hdr|]. eapply rtc_l; [exact Hrc|]. eapply rtc_r; [exact Hrun|]. exact (step_clear h (at_ Finished (write_batch h (cap_of h s) rs (total rs) s1)) eq_refl).
  - exact Hbuf.
Qed.
End Run.

Lemma no_file_lines : file_lines (default [] (@None bytes)) [] [].
Proof. split_and!; [done|done|apply not_elem_of_nil]. Qed.

(** A flush is cut off after two bytes of its line. *)
Lemma history_bounded_witness :
  let s := Toy.wrote 2 (Toy.opened Toy.drained) in
  length (file_of s) = 9%nat /\ Z.of_nat (length (file_of s)) <= fileByteLimit Toy.store.
Proof. intros s. split; [by vm_compute|]. destruct (history_bounded Toy.store None [] [] s no_file_lines) as (_ & Hz & _); [done|by vm_compute|exact (Toy.steps_events _ _ (Toy.torn_reached 2))|exact Hz]. Defined.

(** The batch is in the file and still in memory. *)
Lemma history_in_order_witness :
  let s := Toy.committed in
  line_of <$> pending (hi_node s) = [Toy.line 3] /\ exists durable torn, file_lines (settled s) durable torn /\ durable ++ (line_of <$> pending (hi_node s)) `sublist_of` hi_accepted s.
Proof. intros s. split; [by vm_compute|]. destruct (history_in_order Toy.store None [] [] s no_file_lines) as [Ho _]; [done|by vm_compute|exact (Toy.steps_events _ _ Toy.committed_reached)|by vm_compute|exact Ho]. Defined.

Lemma flush_persists_witness :
  let s := Toy.beats [1; 2; 3; 4] (started None []) in
  length (nh_buf (hi_node s)) = 3%nat /\ rtc (step Toy.store) s (flushOnce Toy.store s).
Proof.
  intros s. split; [by vm_compute|]. destruct (flush_persists Toy.store None [] [] s no_file_lines) as [Hrun _]; [..|exact Hrun].
  - done.
  - by vm_compute.
  - exact (Toy.steps_events _ _ (Toy.beats_steps _ _)).
  - done.
  - by vm_compute.
  - by vm_compute.
  - by vm_compute.
  - by vm_compute.
Defined.
