(* ===== verification/HistoryQuery.v ===== *)
(** * Queries of the telemetry history

    A query takes the records in memory, reads the file and looks at the epoch again, with
    any steps in between.  If the epoch is the same the answer is the newest records of one
    sequence of accepted ones - unless the file held bytes of a batch the flusher had not
    reported: there the epoch does not tell. *)

From stdpp Require Import base gmap strings list sorting relations.
From Stdlib Require Import ZArith Lia.
From S2P Require Import Prelude GoLib HistoryFile History HistoryProps HistoryRun.

Local Open Scope Z_scope.

Section Query.
Context `{HistoryCodec} `{!HistoryCodecLaws} (h : telemetryHistory).
Implicit Types s : history.

(** ** Steps the epoch does not show *)

Definition epoch_of s : Z := nh_flushEpoch (hi_node s).
Definition fewer s s' : Prop := forall ls rest, file_lines (settled s) ls rest -> exists ls' rest', file_lines (settled s') ls' rest' /\ ls' `suffix_of` ls.
Definition quiet s s' : Prop := epoch_of s' = epoch_of s /\ hi_unrepaired s' = hi_unrepaired s /\ fewer s s'.

Lemma same_fewer s s' : settled s' = settled s -> fewer s s'.
Proof. intros E ls rest Hf. exists ls, rest. by rewrite E. Qed.
Lemma fewer_trans s s1 s2 : fewer s s1 -> fewer s1 s2 -> fewer s s2.
Proof. intros H1 H2 ls rest Hf. destruct (H1 ls rest Hf) as (ls1 & r1 & Hf1 & Hs1). destruct (H2 ls1 r1 Hf1) as (ls2 & r2 & Hf2 & Hs2). exists ls2, r2. split; [done|]. by etrans. Qed.
Lemma quiet_trans s s1 s2 : quiet s s1 -> quiet s1 s2 -> quiet s s2.
Proof. intros (E1 & U1 & F1) (E2 & U2 & F2). split_and!; [congruence|congruence|by eapply fewer_trans]. Qed.

Lemma counted_epoch cap selected known e s : counted cap selected known e s -> nh_flushEpoch e = epoch_of s.
Proof. intros Hc. by destruct (counted_same _ _ _ _ _ Hc) as [[n ->]| ->]. Qed.

Lemma compact_fewer cap s s' : settled s = file_of s -> settled s' = (compactJSONL cap (compactByteLimit h) (file_of s)).1 -> fewer s s'.
Proof.
  intros E E' ls rest Hf. rewrite E in Hf. rewrite E'. pose proof (compact_limit h) as Hc. destruct (compact_lines cap (compactByteLimit h) (file_of s) ls rest Hf) as (ls' & rest' & Hf' & Hs & _); [lia|]. by exists ls', rest'.
Qed.

Lemma rewrite_fewer cap selected n old new kept s s' :
  hi_flusher s = Drained (Some cap) -> 0 <= n -> rewriteHistoryWithBatch (repaired (file_of s)) selected cap (compactByteLimit h) n = (old, new, kept) -> settled s' = old -> fewer s s'.
Proof.
  intros E Hn Hr Eo ls rest Hf. rewrite Eo. unfold settled in Hf. rewrite E in Hf. pose proof (repaired_lines _ _ _ Hf) as Hrep. destruct Hf as (_ & Hl & _). unfold rewriteHistoryWithBatch in Hr. rewrite Hrep in Hr.
  set (lim := Z.max 0 _) in Hr. set (room := Z.max _ _ - n) in Hr. destruct (compact_whole lim room ls Hl) as (ls' & Ec & Hsuf & _); [unfold room; lia|]. unfold compactJSONL in Ec.
  destruct (historyTailBounds lim room (enc ls)) as [[b e] k]. cbn [fst] in Ec. injection Hr as <- _ _. rewrite Ec. exists ls', []. split; [|done]. split_and!; [by rewrite app_nil_r|by eapply suffix_lines|apply not_elem_of_nil].
Qed.

Lemma settled_batch s : inv h s -> match hi_flusher s with Appending _ _ start _ | Committed _ _ start _ => (start <= length (file_of s))%nat | _ => True end.
Proof. intros [_ _ _ (ls & rest & [Hf Hp] & _)]. destruct (hi_flusher s); try done; destruct Hp as (_ & _ & -> & _); rewrite Hf, length_app; lia. Qed.

Lemma mark_epoch e : nh_flushEpoch (markInflightOnDisk e) = (nh_flushEpoch e + 1) mod 2 ^ 64 \/ nh_inflight e = [] /\ markInflightOnDisk e = e.
Proof. unfold markInflightOnDisk. destruct (nh_inflight e); [by right|by left]. Qed.

Lemma nothing_selected cap selected start r s : inv h s -> hi_flusher s = Committed cap selected start r -> nh_inflight (hi_node s) = [] -> settled s = file_of s.
Proof.
  intros [_ _ _ (ls & rest & [Hf Hp] & _)] E En. unfold settled. rewrite E in *. destruct Hp as (_ & [k Hk] & -> & ->). rewrite En in Hk. symmetry in Hk. apply app_nil in Hk as [_ ->].
  change (batch_bytes []) with (@nil Z) in Hf. rewrite app_nil_r in Hf. rewrite Hf. by apply take_ge.
Qed.

Lemma step_epoch s s' : inv h s -> step h s s' -> epoch_of s' = (epoch_of s + 1) mod 2 ^ 64 \/ quiet s s'.
Proof.
  intros Hi. pose proof (settled_batch s Hi) as Hb. destruct 1 as [s|cap pre post record s _|c s _|c pre post s _|s _ E _|s E|cap s E _|cap s E _|cap s E _|cap sel n old new kept s E Hc Hp Hz Hr|cap sel n s E _ Hp Hz|cap sel start w u s E|cap sel start u s E|cap sel start u s E
    |cap sel start s E|cap sel start s E|cap sel start kept s E|cap sel known e s E Hc|cap sel known size e f kept told s E Hc _ _ Hf|s E|f kept told s _ E _ Hf]; try (left; reflexivity).
  - right. split_and!; [done|done|by apply same_fewer].
  - right. destruct (append_ok h cap record _ (i_mem _ _ Hi)) as (_ & _ & _ & Ep & _). unfold append_locked. split_and!; [exact Ep|by destruct (accepted_line cap record s)|]. apply same_fewer. by destruct (accepted_line cap record s).
  - right. split_and!; [done|done|by apply same_fewer].
  - left. by destruct (apply_cap_ok h c _ (i_mem _ _ Hi)) as (_ & _ & _ & Ep & _).
  - right. split_and!; [done|done|]. apply same_fewer. unfold settled. by rewrite E.
  - left. by destruct (requeue_ok h cap _ (i_mem _ _ Hi)) as (_ & _ & _ & Ep & _).
  - left. by destruct (requeue_ok h cap _ (i_mem _ _ Hi)) as (_ & _ & _ & Ep & _).
  - right. split_and!; [done|done|]. pose proof (file_limit_pos h). destruct (prepare_spec _ _ (fileByteLimit h) _ _ (m_inflight _ _ (i_mem _ _ Hi)) ltac:(lia) Hp) as (_ & Hn & _).
    eapply rewrite_fewer; [exact E| |exact Hr|]; [lia|]. unfold settled. cbn. unfold id. by rewrite take_app_length.
  - right. split_and!; [done|done|]. intros ls rest Hf. unfold settled in Hf |- *. rewrite E in Hf. cbn. unfold id. rewrite take_ge by done. rewrite (repaired_lines _ _ _ Hf). exists ls, []. split; [|done]. destruct Hf as (_ & Hl & _).
    split_and!; [by rewrite app_nil_r|done|apply not_elem_of_nil].
  - right. split_and!; [done|done|]. apply same_fewer. unfold settled. rewrite E in *. cbn. unfold id. by rewrite take_app_le.
  - left. by destruct (requeue_ok h cap _ (i_mem _ _ Hi)) as (_ & _ & _ & Ep & _).
  - left. by destruct (requeue_ok h cap _ (i_mem _ _ Hi)) as (_ & _ & _ & Ep & _).
  - right. split_and!; [done|done|]. apply same_fewer. unfold settled. by rewrite E.
  - destruct (mark_epoch (hi_node s)) as [?|[En Em]]; [by left|]. right. split_and!; [unfold epoch_of; cbn; by rewrite Em|done|]. apply same_fewer. by rewrite (nothing_selected _ _ _ _ _ Hi E En).
  - destruct (mark_epoch (hi_node s)) as [?|[En Em]]; [by left|]. right. split_and!; [unfold epoch_of; cbn; by rewrite Em|done|]. apply same_fewer. by rewrite (nothing_selected _ _ _ _ _ Hi E En).
  - right. split_and!; [by eapply counted_epoch|done|]. apply same_fewer. unfold settled. by rewrite E.
  - right. split_and!; [pose proof (counted_epoch _ _ _ _ _ Hc); by destruct told|done|]. eapply (compact_fewer cap); [unfold settled; by rewrite E|]. by rewrite Hf.
  - right. split_and!; [by destruct told|done|]. unfold maintainHistoryFile in Hf. cbv zeta in Hf. destruct (_ && _); [done|]. injection Hf as Hf. eapply (compact_fewer (cap_of h s)); [unfold settled; by rewrite E|]. unfold settled. destruct told; cbn [with_node with_file hi_flusher file_of hi_file default]; rewrite E; unfold id; by rewrite Hf.
Qed.

Lemma nsteps_inv n s s' : inv h s -> nsteps (step h) n s s' -> inv h s'.
Proof. intros Hi Hn. induction Hn as [|n s s1 s' Hs _ IH]; [done|]. apply IH. by eapply step_inv. Qed.

(** The epoch moves at most once in a step, and if it did not move every step was quiet. *)
Lemma nsteps_epoch n s s' :
  inv h s -> nsteps (step h) n s s' -> exists k : nat, (k <= n)%nat /\ (k = 0%nat /\ quiet s s' \/ (0 < k)%nat /\ epoch_of s' = (epoch_of s + Z.of_nat k) mod 2 ^ 64).
Proof.
  intros Hi Hn. induction Hn as [s|n s s1 s' Hs _ IH]; [exists 0%nat; split; [done|]; left; split; [done|]; unfold quiet; split_and!; [done|done|by apply same_fewer]|].
  destruct (IH (step_inv h _ _ Hi Hs)) as (k & Hk & Hc). destruct (step_epoch _ _ Hi Hs) as [E1|Hq1].
  - exists (S k). split; [lia|]. right. split; [lia|]. destruct Hc as [[-> (E2 & _)]|[_ E2]]; [by rewrite E2, E1|]. rewrite E2, E1, Zplus_mod_idemp_l. f_equal. lia.
  - exists k. split; [lia|]. destruct Hc as [[-> Hq2]|[Hk0 E2]]; [left; split; [done|by eapply quiet_trans]|]. right. split; [done|]. destruct Hq1 as (E1 & _). by rewrite <- E1.
Qed.

(** Around a read, with fewer steps than there are epochs. *)
Lemma same_epoch_quiet n m s s1 s2 :
  inv h s -> nsteps (step h) n s s1 -> nsteps (step h) m s1 s2 -> Z.of_nat (n + m) < 2 ^ 64 -> epoch_of s2 = epoch_of s -> quiet s s1.
Proof.
  intros Hi Hn Hm Hlt E. destruct (nsteps_epoch _ _ _ Hi Hn) as (k & Hk & [[_ Hq]|[Hk0 Ek]]); [done|]. exfalso.
  destruct (nsteps_epoch _ _ _ (nsteps_inv _ _ _ Hi Hn) Hm) as (j & Hj & Hc).
  assert (epoch_of s2 = (epoch_of s + Z.of_nat (k + j)) mod 2 ^ 64) as E2.
  { destruct Hc as [[-> (Eq & _)]|[_ Eq]]; [by rewrite Eq, Ek, Nat.add_0_r|]. rewrite Eq, Ek, Zplus_mod_idemp_l. f_equal. lia. }
  rewrite E in E2. pose proof (Z.mod_pos_bound (epoch_of s + Z.of_nat (k + j)) (2 ^ 64) ltac:(lia)) as Hb. rewrite <- E2 in Hb.
  assert ((epoch_of s + Z.of_nat (k + j)) / 2 ^ 64 = 0 \/ 1 <= (epoch_of s + Z.of_nat (k + j)) / 2 ^ 64) as Hd by (pose proof (Z.div_pos (epoch_of s + Z.of_nat (k + j)) (2 ^ 64) ltac:(lia) ltac:(lia)); lia).
  pose proof (Z.div_mod (epoch_of s + Z.of_nat (k + j)) (2 ^ 64) ltac:(lia)) as Hdm. rewrite <- E2 in Hdm. nia.
Qed.

(** ** What is read *)

Lemma enc_inj a b : Forall is_line a -> Forall is_line b -> enc a = enc b -> a = b.
Proof. intros Ha Hb E. pose proof (split_lines_enc a [] Ha) as Sa. pose proof (split_lines_enc b [] Hb) as Sb. rewrite E, Sb in Sa. cbn in Sa. by rewrite !app_nil_r in Sa. Qed.
Lemma file_lines_unique f ls rest ls' rest' : file_lines f ls rest -> file_lines f ls' rest' -> ls = ls'.
Proof. intros Hf Hf'. pose proof (repaired_lines _ _ _ Hf) as E. rewrite (repaired_lines _ _ _ Hf') in E. destruct Hf as (_ & Hl & _), Hf' as (_ & Hl' & _). by apply enc_inj. Qed.

Lemma volatile_newest cap e : 0 < cap -> volatile_records cap e = newest (Z.to_nat cap) (pending e).
Proof.
  intros Hc. unfold volatile_records, pending, newest. cbv zeta. set (inf := if nh_inflightOnDisk e then [] else nh_inflight e). rewrite length_app.
  replace (length (nh_buf e) + length inf - Z.to_nat (Z.min cap (Z.of_nat (length (nh_buf e) + length inf))))%nat with (length inf + length (nh_buf e) - Z.to_nat cap)%nat by lia.
  set (skip := (_ - Z.to_nat cap)%nat). destruct (Nat.ltb_spec skip (length inf)); [by rewrite drop_app_le by lia|by rewrite drop_app_ge by lia].
Qed.

(** Within a limit on the bytes that the lines do not reach. *)
Lemma fitting_all m b ls : Z.of_nat (length (enc ls)) <= b -> fitting m b (reverse ls) = Nat.min (Z.to_nat m) (length ls).
Proof.
  revert m b. induction ls as [|l ls IH] using rev_ind; intros m b Hb; [cbn; lia|]. rewrite reverse_app. cbn [reverse rev_append app fitting]. rewrite length_enc_snoc in Hb. rewrite length_app. cbn [length].
  destruct (Z.leb_spec m 0); cbn [orb]; [lia|]. destruct (Z.ltb_spec b (Z.of_nat (S (length l)))); [lia|]. rewrite IH by lia. lia.
Qed.

Lemma scan_lines_enc ls : Forall readable ls -> scan_lines (enc ls) = Some ls.
Proof.
  intros Hr. assert (Forall is_line ls) as Hl by (eapply Forall_impl; [exact Hr|]; by intros l (Hl & _)). unfold scan_lines. rewrite <- (app_nil_r (enc ls)), split_lines_enc by done. cbn [split_lines]. rewrite app_nil_r.
  destruct (existsb _ ls) eqn:E; [exfalso|f_equal; clear -Hr; induction Hr as [|l ls (_ & Hc & _) _ IH]; [done|]; cbn; by rewrite Hc, IH].
  apply existsb_exists in E as (l & Hin & Hle%Z.leb_le). rewrite <- list_elem_of_In in Hin. rewrite Forall_forall in Hr. destruct (Hr l Hin) as (_ & _ & ?). lia.
Qed.

(** The records the lines of the file and the records in memory show. *)
Definition shown_disk (from to : Z) (flt : telemetryHistoryFilter) (ls : list bytes) : list telemetryHistoryRecord :=
  List.filter (fun r => historyRecordInWindow r from to) (omap (fun l => decodeTelemetryHistoryRecordForFilter l flt) ls).
Definition shown_memory (from to : Z) (flt : telemetryHistoryFilter) (rs : list telemetryHistoryRecord) : list telemetryHistoryRecord :=
  List.filter (fun r => historyRecordInWindow r from to) (map (fun r => filterTelemetryHistoryRecord r flt) rs).

Lemma newest_enc_nil k ls : (length (enc (newest k ls)) = 0)%nat -> newest k ls = [].
Proof. destruct (newest k ls) as [|l r]; [done|]. rewrite length_enc_cons. lia. Qed.

Lemma read_tail f ls from to n lim flt :
  default [] f = enc ls -> Forall readable ls -> 0 < n -> Z.of_nat (length (enc ls)) <= lim -> 0 < lim ->
  readHistoryJSONLTail f from to n lim flt = Some (shown_disk from to flt (newest (Z.to_nat n) ls)).
Proof.
  intros Ef Hr Hn Hz Hl. unfold readHistoryJSONLTail. destruct f as [f|]; cbn in Ef; [unfold id in Ef; subst f|by destruct ls as [|l ls]; [|apply (f_equal length) in Ef; rewrite length_enc_cons in Ef]].
  assert (Forall is_line ls) as Hi by (eapply Forall_impl; [exact Hr|]; by intros l (Hi & _)). destruct (tail_bounds_whole n lim ls Hi) as [Et Hk]. rewrite Et. unfold kept_lines in *. destruct (Z.leb_spec lim 0); [lia|].
  rewrite fitting_all in * by done. rewrite section_tail by done. set (k := Nat.min (Z.to_nat n) (length ls)) in *.
  assert (newest k ls = newest (Z.to_nat n) ls) as Ek by (unfold newest; f_equal; lia).
  destruct (Nat.leb_spec (length (enc ls)) (length (enc (take (length ls - k) ls)))) as [Hle|_].
  - assert (newest (Z.to_nat n) ls = []) as ->; [|done]. rewrite <- Ek. apply newest_enc_nil. unfold newest. rewrite <- (take_drop (length ls - k) ls) in Hle at 1. rewrite enc_app, length_app in Hle. lia.
  - rewrite scan_lines_enc; [by rewrite Ek|]. destruct (newest_suffix k ls) as [z Ez]. rewrite Ez in Hr. by apply Forall_app in Hr as [_ Hr].
Qed.

(** C16. A query takes the memory at [s0], reads the file at [s1] and is accepted at [s2],
    any steps in between, fewer than there are epochs.  If the file at [s1] held complete
    lines and no byte of a batch that was not reported yet, the query returns, and what it
    shows is the newest records, as many as the cap, of one sequence: the lines of the
    file and then the records of memory, a sequence of accepted lines in order and none
    more often than accepted.  So a flush between the two reads neither loses a record nor
    shows one twice, and neither does a compaction. *)
Theorem accepted_query_exact f ls rest s0 s1 s2 n m cap from to flt ls1 :
  file_lines (default [] f) ls rest -> Forall readable ls -> Z.of_nat (length (default [] f)) <= fileByteLimit h -> events h (started f ls) s0 ->
  nsteps (step h) n s0 s1 -> nsteps (step h) m s1 s2 -> Z.of_nat (n + m) < 2 ^ 64 -> hi_unrepaired s0 = false ->
  settled s1 = file_of s1 -> file_lines (file_of s1) ls1 [] -> th_dir h = true ->
  0 < cap -> cap_of h s2 = cap -> nh_flushEpoch (hi_node s2) = nh_flushEpoch (hi_node s0) ->
  exists disk memory,
    queryRecordsSnapshot h cap (hi_node s0) (hi_file s1) (hi_node s2) (cap_of h s2) from to flt = Some (shown_disk from to flt disk ++ shown_memory from to flt memory, true) /\
    disk ++ (line_of <$> memory) = newest (Z.to_nat cap) (ls1 ++ (line_of <$> pending (hi_node s0))) /\
    ls1 ++ (line_of <$> pending (hi_node s0)) `sublist_of` hi_accepted s0.
Proof.
  intros Hf Hr Hz Hs Hn Hm Hlt Hu Est Ef Hd Hc Hcap Hep. pose proof (events_inv h _ _ (started_inv h f ls rest Hf Hr Hz) Hs) as Hi. destruct (same_epoch_quiet _ _ _ _ _ Hi Hn Hm Hlt Hep) as (_ & Hu1 & Hq).
  destruct (inv_settled h s0 Hi) as (ls0 & r0 & Hf0 & Ho). specialize (Ho Hu). destruct (Hq ls0 r0 Hf0) as (ls' & r' & Hf' & Hsuf). pose proof (nsteps_inv _ _ _ Hi Hn) as Hi1.
  rewrite Est in Hf'. pose proof (file_lines_unique _ _ _ _ _ Hf' Ef) as ->. pose proof (fewer_lines _ _ _ _ Hsuf Ho) as Hsub. destruct Ef as (Ef & _ & _). rewrite app_nil_r in Ef.
  assert (Forall readable ls1) as Hr1. { apply Forall_forall. intros l Hl. pose proof (i_readable _ _ Hi) as Ha. rewrite Forall_forall in Ha. apply Ha. eapply elem_of_sublist; [|exact Hsub]. apply elem_of_app. by left. }
  pose proof (i_size _ _ Hi1) as Hz1. rewrite Ef in Hz1. pose proof (file_limit_pos h) as Hlim. set (memory := newest (Z.to_nat cap) (pending (hi_node s0))).
  exists (newest (Z.to_nat (cap - Z.of_nat (length memory))) ls1), memory. split_and!; [| |done].
  - unfold queryRecordsSnapshot. destruct (Z.leb_spec cap 0); [lia|]. cbv zeta. rewrite (volatile_newest cap) by done. fold memory. rewrite Hcap, Hep, !Z.eqb_refl, Hd. cbn [andb].
    destruct (Z.ltb_spec 0 (cap - Z.of_nat (length memory))) as [Hpos|Hneg]; [by rewrite (read_tail (hi_file s1) ls1)|].
    replace (Z.to_nat (cap - Z.of_nat (length memory))) with 0%nat by lia. by rewrite newest_0.
  - rewrite newest_app, !newest_fmap. fold memory. rewrite length_fmap. do 2 f_equal. lia.
Qed.
End Query.

Definition everything : telemetryHistoryFilter := mkHistoryFilter true "" "".

(** The memory is taken after the drain and the file is read when it is open for the batch. *)
Lemma accepted_query_exact_witness :
  exists disk memory,
    queryRecordsSnapshot Toy.store 3 (hi_node Toy.drained) (hi_file (Toy.opened Toy.drained)) (hi_node (Toy.opened Toy.drained)) (cap_of Toy.store (Toy.opened Toy.drained)) 0 10 everything
      = Some (shown_disk 0 10 everything disk ++ shown_memory 0 10 everything memory, true) /\
    disk ++ (line_of <$> memory) = newest (Z.to_nat 3) ([Toy.line 1; Toy.line 2] ++ (line_of <$> pending (hi_node Toy.drained))) /\
    [Toy.line 1; Toy.line 2] ++ (line_of <$> pending (hi_node Toy.drained)) `sublist_of` hi_accepted Toy.drained.
Proof.
  apply (accepted_query_exact Toy.store None [] [] Toy.drained (Toy.opened Toy.drained) (Toy.opened Toy.drained) 1 0 3 0 10 everything [Toy.line 1; Toy.line 2] no_file_lines).
  - done.
  - by vm_compute.
  - exact (Toy.steps_events _ _ Toy.drained_reached).
  - exact (nsteps_once _ _ Toy.opened_drained).
  - apply nsteps_O.
  - by vm_compute.
  - by vm_compute.
  - by vm_compute.
  - split_and!; [by vm_compute| |apply not_elem_of_nil]. repeat constructor; try done; by intros Hn%Toy.line_elem.
  - done.
  - done.
  - by vm_compute.
  - by vm_compute.
Defined.

(** Between the commit of a batch and its report the epoch does not move: a query in
    between counts the batch in the file and in memory, shows the records once and leaves
    an older one out, and is accepted.  Right after the report the same query shows it. *)
Theorem unreported_batch_shortens :
  let shown s := (fun r : TelemetryHistorySnapshot * bool => (RS_TS <$> SN_Resources r.1, r.2)) <$> querySnapshot Toy.store 3 (hi_node s) (hi_file s) (hi_node s) (cap_of Toy.store s) 0 10 everything in
  rtc (step Toy.store) (started None []) Toy.committed /\ hi_unrepaired Toy.committed = false /\ shown Toy.committed = Some ([2; 3], true) /\
  step Toy.store Toy.committed (Toy.marked Toy.committed) /\ shown (Toy.marked Toy.committed) = Some ([1; 2; 3], true).
Proof.
  split_and!; [exact Toy.committed_reached|by vm_compute|by vm_compute| |by vm_compute]. by apply Toy.marked_step; vm_compute.
Qed.
